(* ===== verification/_CoqProject ===== *)
-Q . S2P
Prelude.v
MemFile.v
BTree.v
Paths.v
Text.v
Pearchive.v
ErofsDisk.v
ErofsBuild.v
ErofsTree.v
ErofsImage.v
ErofsWalk.v
ErofsWhole.v
ErofsFs.v
ErofsTotal.v
ErofsDump.v
DumpMain.v
Squash.v
SquashErofs.v
SquashTar.v
Overlay.v
SquashImage.v
TarDiff.v
Mkfs.v
IoFile.v
RuntimeSpec.v
Run.v
LoadBalancer.v
HttpUtil.v
OciDist.v
BlobCache.v
OciCache.v
ImageService.v
ServiceMain.v
OciTool.v
VmPool.v
SyncPool.v
ImageIndex.v
Gist.v
GistMain.v
Container.v
GuestMain.v
ArchiveTool.v
LayerSources.v
SquashTools.v
Vub.v
VubMain.v
Admission.v
TestClient.v
DevTools.v
ServerMain.v
Runner.v
