(* ===== verification/Prelude.v ===== *)
(** * Program Explorer, verified

    Program Explorer runs programs in containers, inside virtual machines, for
    users of a web page.  A request names an image of a registry, a command and
    an archive of input files; the answer has the output of the command and an
    archive of what it wrote.  This library models the Rust crates under src/
    that do this and proves what makes them correct.

    ** The program and the files that model it

    The path of a request, from the outside to the inside:

    - [LoadBalancer] (peserver/src/lb.rs): rate limit, admission and the permits
      of the workers, as a state machine whose events are the steps of the open
      requests and of the capacity task.
    - [Run] (peserver/src/api.rs, worker.rs, util.rs, peimage-service/src/lib.rs,
      peinit/src/main.rs, pearchive/src/main.rs): the HTTP formats ([Api]), the
      client of the image service ([ImageClient]), the handler of a worker
      ([Worker]) and the guest ([Guest]).
    - [HttpUtil] (peserver/src/util.rs and the entry points of lb.rs, worker.rs):
      client ids, entity tags, answers, log lines, and the rate limit per client.
    - [ServerMain] (lb.rs, worker.rs): the start of both server programs, from
      their arguments to the services that run.
    - [RuntimeSpec] (peoci/src/spec.rs, perunner/src/lib.rs): the reduced OCI types
      and the runtime specification that is made from an image's configuration
      and a request.
    - [IoFile] (peinit/src/lib.rs, perunner/src/iofile.rs): the file that host and
      guest share; framing of the configuration and of the response, rounding to
      the size of a pmem device, the fixed size after sealing.
    - [VmPool] (waitid_timeout/src/lib.rs, perunner/src/cloudhypervisor.rs,
      worker.rs): starting the hypervisor, waiting for it with a timeout, the pool
      of worker threads as a state machine, the processor sets.  [SyncPool] is the
      other pool of worker.rs, which the command line runner uses.
    - [Admission] (peserver/src/lb.rs, worker.rs): the start of a worker, the
      capacity it announces, and the state machines of [LoadBalancer] and [VmPool]
      in one.
    - [Container] and [GuestMain] (peinit/src/main.rs): the mounts, the call of the
      container runtime, the supervision of the container, and around them the
      whole of the guest's [main] with its panic hook.
    - [Pearchive] (pearchive/src/lib.rs, open.rs): the archive format, its two
      writers and two readers.  [ArchiveTool] (main.rs) is the command line program
      that guest and tools start.
    - [Runner] (perunner/src/main.rs): the command line runner, which prepares one or
      many runs, starts them and prints what came back.  [TestClient]
      (peserver/src/testclient.rs) is the client of the servers, up to what it prints.

    The path of an image, from the registry to the block device:

    - [OciDist] (peoci/src/ocidist.rs): the registry client with tokens, rate limits
      and digest checks.
    - [BlobCache] (peoci/src/blobcache.rs): the directory of verified files.
    - [OciCache] (peoci/src/ocidist_cache.rs): the caches in front of the client.
      [OciTool] (peoci/src/bin/ocidist.rs) is the command line program over both.
    - [LayerSources] (peoci/src/ocidir.rs, compression.rs, peimage/src/podman.rs):
      the other places that layers come from.
    - [Squash], [SquashErofs], [SquashTar] (peimage/src/squash.rs): merging layers,
      with the two deletion maps behind their trait, into an erofs image or a tar
      archive.  [Overlay] is the abstract specification of squashing, and [SquashTools]
      (peimage/src/bin/squash*.rs) the programs, from a directory to an image.
    - [ErofsBuild] (peerofs/src/build.rs) and [ErofsDisk] (peerofs/src/disk.rs): the
      builder of erofs images and the reader.  [ErofsTree] is the well-formedness
      of the builder's tree, [ErofsImage] and [ErofsWalk] what the writer puts where
      and what the reader finds there, [ErofsWhole] a finished image, [ErofsFs] the
      abstract file system and the refinement, [ErofsTotal] the absence of panics,
      [ErofsDump] and [DumpMain] (peerofs/src/dump.rs) the walk over all inodes and
      the inspection tool, [SquashImage] layers to image to reader.
    - [TarDiff] (peimage/src/bin/tardiff.rs) compares two archives; [Mkfs]
      (peimage/src/mkfs.rs) feeds squashed layers to mkfs.erofs through a pipe.
    - [ImageService] and [ServiceMain] (peimage-service/src/main.rs): the service that
      puts these together and hands image files to the workers; its requests, and
      its start, loop and shutdown.
    - [ImageIndex] (peimage/src/index.rs): the index at the end of image files.
    - [Vub] and [VubMain] (pevub/src/main.rs): the vhost-user block device, and its
      start and sessions.

    Beside them stand [Gist] and [GistMain] (pegh/src/lib.rs, main.rs,
    peserver/src/gh.rs), the proxy for GitHub gists, and [DevTools]
    (peimage-service/src/bin/testclient.rs, perunner/src/blocktest.rs,
    snapshot-test.rs), the programs that parts are tried out with.  [Prelude] (this
    file) has results, machine integers, byte strings, slices, loops and the tactics;
    [MemFile] is the seekable file, [BTree] the ordered map, [Paths] is [std::path]
    and [Text] the parsing and printing of strings.

    The components are composed as the code composes them: [ImageService] calls
    [OciCache] and [SquashErofs], [OciCache] calls [OciDist] and [BlobCache],
    [Container] calls the wait of [VmPool], and [Run] puts API, image client, io
    file, runtime specification, archive and guest together, [TestClient] puts a
    client in front of [Run], and [SquashTools] puts [LayerSources], [Squash] and the
    erofs builder behind each other.

    ** How the code is translated

    A struct is a [Record] and an enum an [Inductive] with the names of the
    source.  A function is a [Definition] or a [Fixpoint] of the same name; where
    two functions share a name the type is put before it ([Siginfo_from]) or the
    component ([pb_insert]).  A function that can fail returns [result]: [Ok],
    [Err] with the error enum of the source, or [Panic], which is the outcome of
    a failed [unwrap], an index out of bounds, or a loop that does not end.

    - Integers are [Z] in the range of their width, with the wrap-around of a
      release build written out ([wadd], [wsub], [wrap]); [usize] has 64 bits.
      [debug_assert!] is off.
    - Bytes are [Byte.byte] and a byte string is [bstr].  [BTreeMap] is a sorted
      list of bindings, [HashMap] and the moka caches are [gmap]; eviction from a
      cache is an operation that can happen at any time.
    - State is passed explicitly.  In [result] the state after an error is gone,
      which is what the callers do that propagate errors with [?]; [OciDist],
      [OciCache] and [Gist] use a monad that keeps the state on errors, since the
      shared client lives on.
    - A loop is [loop] on a step function, with a measure that bounds its
      iterations as fuel ([loop_total], [loop_total_on]); every such use has a
      lemma that the measure decreases, so running out of fuel is not a case.  The only
      loop without a bound is [Pearchive.sendfile_all], whose theorem says for
      which inputs it ends.  Numbers are printed with twenty digits of fuel, which
      is more than a 64-bit number has.
    - Concurrency is a list of events on a shared state, in any order
      ([LoadBalancer], [BlobCache], [VmPool], [SyncPool], [Admission]); a thread of
      a pool that panics, at its start or in a run, is such an event.  The requests
      of one call of [OciCache] (of [get_layers] too, whose source polls the
      downloads together) and [Gist] run one after the other.  A waiting request of the load
      balancer that gets a permit is any of the waiting ones.

    Code outside the repository is a parameter or a class with the laws of its
    documentation and an instance that satisfies them: the file system
    ([FileSystem]), process calls ([Kernel]), buffered writers ([BufWriter]), guest
    memory and the virtqueue in it ([GuestMemory], [Virtqueue]), the tar builder ([ArchiveBuilder]), the file types of
    rustix, SHA-256, serde and bincode, the parsers of oci_spec, decompressors,
    tar readers, HTTP answers, the rate estimator of pingora, the virtual machine
    and the container runtime.  Inside the repository classes stand for traits
    ([PackFsVisitor], [UnpackVisitor], [TreeVisitor], [Deletions], [EntryCallback]).

    Simplifications, each with the definition that it concerns:
    - Memory can be allocated.  The erofs builder writes to a file in memory whose
      writes do not fail, and it makes only extended inodes, as the source does.
      Seek, rewind and fstat of an open file do not fail ([OciCache.retreive_blob]
      and [Pearchive.visit_entry] among others, which also reads a tree that can be
      opened and listed); memory files can be created and sealed
      ([Run.Worker.make_io_file]); the receiver of a blob is still there when its
      file was published ([OciCache.retreive_blob]).
    - Inode numbers of the file system are not reused.  What a failed build leaves
      in the image directory is a parameter.
    - The capacities and weighers of the moka caches have no effect on an insertion
      ([OciCache.build], [ServiceMain]): evictions are operations of their own.
    - Permits that only delay (the connections of the caching client) are not in the
      state; the capacity that a worker announces is within what a tokio semaphore
      can hold ([LoadBalancer.handle]).
    - The time of rate limits is in whole seconds ([OciDist.ratelimit_end]).
    - A panic in the blocking task that builds an image is a panic of the request,
      where the source answers with an unexpected error ([ImageService.write_image]).
    - The inspection tool is built with debug assertions, without which it does not
      compile; its arithmetic nevertheless wraps around ([DumpMain.dump_main]), where
      such a build panics.
    - The descriptor chains of the block device are the lists that the iterator of
      the queue yields.

    ** What is proved

    - Images: for well-formed operations the reader shows at every path of a finished
      image exactly what an abstract file system has there after the same operations
      ([ErofsFs.image_refines_spec]), also for squashed layers
      ([SquashImage.squash_image_shows]); building never panics
      ([ErofsTotal.build_never_panics]) and keeps the tree well-formed
      ([ErofsTree.builder_tree_ok]); the reader is total on malformed images and
      stays in bounds ([ErofsDisk.lookup_never_panics], [get_data_size]); reading a
      compressed file ends, and panics only on a size over [isize::MAX] or clusters
      whose distance underflows ([get_compressed_data_ends]); the walk over all
      inodes is total ([ErofsDump.all_inodes_spec]); the inspection tool prints the
      entries of a directory and hangs only on attributes out of bounds
      ([DumpMain.dump_main_spec]).  The refinements ask of the operations ([op_ok],
      [entry_ok]) names that a directory block has room for, the announced length of
      a file and fewer than 2^40 bytes, metadata in the range of its fields, and
      xattrs of less than half a block, which excludes the inode of exactly one block
      that the writer loses; the examples beside the definitions show the excluded
      cases.
    - Layers: squashing is the overlay of the layers, exactly where the range query
      of the deletion map is undisturbed, no path ends with a slash and no root is
      opaque, and for tidy layers it never loses a visible entry
      ([Overlay.squash_refines_overlay]), and the image that a tool writes for a
      directory shows that overlay ([SquashTools.squashoci_shows_overlay]); a path is emitted once
      ([SquashTar.squash_unique], from the contract of the trait); the comparison of
      archives is exact ([TarDiff.tardiff_exact]); image indexes are read back
      ([ImageIndex.from_file_spec]).
    - Authenticity: blobs and manifests have the digests they were asked for
      ([OciDist.blob_verified], [manifest_verified], [digest_eq_correct]), and so has
      what the registry tool writes ([OciTool.tool_output_authentic]), files are
      published whole through crashes and interleavings
      ([BlobCache.blobs_published_whole]), cached images stay authentic
      ([OciCache.image_authentic]), what the image client accepts is built from
      exactly the layers of the manifest ([ImageService.served_image_authentic]), and
      a restart after a save that was written out whole serves what was cached
      without a request to a registry ([ServiceMain.service_warm_restart]).
    - Runs: a request in the archive format whose inputs and output fit comes back as
      the container's answer ([Run.run_end_to_end],
      up to the client's output [TestClient.testclient_end_to_end], and from the command
      line [Runner.runner_end_to_end], [printing_faithful]), the
      guest answers once it has mounted devtmpfs, with the response or with the
      message of a panic, if the device can be created and synced
      ([GuestMain.guest_always_answers]), nothing is unpacked outside of the sandbox
      ([ArchiveTool.unpack_sandboxed]), no
      request makes the worker panic ([Run.worker_never_panics]), io file and archives
      lose nothing ([IoFile.response_delivered], [Pearchive.unpack_pack_roundtrip],
      [unpack_to_dir_installs]), the runtime specification is the one of the image
      and the request ([RuntimeSpec.runtime_spec_contents]).
    - Resources: permits are never oversubscribed ([LoadBalancer.never_oversubscribed]),
      requests of the pool are in exactly one place, also when runs panic
      ([VmPool.requests_conserved]), what the balancer forwards the pool has room
      for unless clients left or threads ended ([Admission.forwarded_not_refused]), a
      parallel run of the command line runner completes or panics for one of three
      reasons ([Runner.parallel_run_completes]), processes are waited for or
      killed ([VmPool.run_supervises], [Container.container_supervised]), rate limits
      are respected ([OciDist.ratelimit_respected], [HttpUtil.rate_limit_per_client]),
      the block device writes only where the guest lets it, into the ring of used
      chains and to the address of an empty status descriptor
      ([VubMain.device_session_confined], and for one queue [Vub.vub_confined]),
      gists are complete ([Gist.gist_complete]).
    - What the code does not do as it means to: [VmPool.abandoned_requests_drain_pool],
      [ImageService.size_errors_never_reported], [Squash.opaque_missed],
      [Overlay.whiteout_missed], [Admission.left_clients_fill_queue],
      [SyncPool.shutdown_can_block], [GuestMain.early_panic_lost],
      [TestClient.gzip_panics], [Vub.empty_status_written] and the examples beside the definitions they
      concern.

    Beside the main theorems the files have others that are used by them or stand
    on their own, such as [ServerMain.servers_admit], [Mkfs.squash_erofs_spec],
    [ArchiveTool.archive_tool_roundtrip], [LayerSources.podman_layers_distinct],
    [OciCache.persist_roundtrip], [TestClient.bad_requests_refused],
    [DevTools.imageclient_spec] and [DevTools.restore_after_config].

    ** What is not modelled

    Logging, metrics, and the serving loops of pingora, axum and tokio, which run the
    handlers that are modelled; the derived Debug forms, which are parameters where
    a program prints them; elapsed times; the features snapshotting and blocktesting
    of the guest; the threads and the protocol of the vhost-user daemon, which are
    its crate's; fuzz targets, benches and unit tests, which take a large part of
    squash.rs, disk.rs, build.rs and waitid_timeout; the
    web frontend and the deployment files. *)
From stdpp Require Import base countable list numbers strings relations.
From Stdlib Require Import ZArith Lia.
From Stdlib Require Export Init.Byte.
From Stdlib Require Strings.Byte.
#[local] Open Scope Z_scope.

(** * Results

    A fallible Rust function returns [result E A]: [Ok] and [Err] are the two
    variants of [Result], [Panic] is the outcome of an [unwrap]/[expect] on the
    failing variant, a failed [assert!] or an out-of-bounds index. *)

Inductive result (E A : Type) : Type :=
  | Ok (a : A)
  | Err (e : E)
  | Panic.
Arguments Ok {E A} a.
Arguments Err {E A} e.
Arguments Panic {E A}.

Definition rbind {E A B} (c : result E A) (k : A -> result E B) : result E B :=
  match c with Ok a => k a | Err e => Err e | Panic => Panic end.

Definition rmap {E A B} (f : A -> B) (c : result E A) : result E B :=
  match c with Ok a => Ok (f a) | Err e => Err e | Panic => Panic end.

Definition map_err {E F A} (f : E -> F) (c : result E A) : result F A :=
  match c with Ok a => Ok a | Err e => Err (f e) | Panic => Panic end.

Definition ok_or {E A} (o : option A) (e : E) : result E A :=
  match o with Some a => Ok a | None => Err e end.

Definition expect {E A} (o : option A) : result E A :=
  match o with Some a => Ok a | None => Panic end.

Declare Scope result_scope.
Delimit Scope result_scope with result.
Notation "'let?' x ':=' c 'in' k" := (rbind c (fun x => k))
  (at level 10, x name, c at level 100, k at level 200) : result_scope.
Notation "'let?' ' p ':=' c 'in' k" := (rbind c (fun x => match x with p => k end))
  (at level 10, p strict pattern, c at level 100, k at level 200) : result_scope.

Lemma rbind_Ok_inv {E A B} (c : result E A) (k : A -> result E B) b :
  rbind c k = Ok b -> exists a, c = Ok a /\ k a = Ok b.
Proof. destruct c; naive_solver. Qed.

Lemma rmap_Ok_inv {E A B} (f : A -> B) (c : result E A) b :
  rmap f c = Ok b -> exists a, c = Ok a /\ f a = b.
Proof. destruct c; naive_solver. Qed.

Lemma ok_or_Ok {E A} (o : option A) (e : E) a : ok_or o e = Ok a <-> o = Some a.
Proof. destruct o; naive_solver. Qed.

(** To state what a stateful computation returns without its final state. *)
Lemma pair_of_snd {A B} (p : A * B) b : snd p = b -> p = (fst p, b).
Proof. by intros <-; destruct p. Qed.

Lemma default_is_Some {A} (d : A) (o : option A) : bool_decide (is_Some o) = true -> o = Some (default d o).
Proof. intros Ho. apply bool_decide_eq_true in Ho as [a ->]. done. Qed.

Definition is_ok {E A} (r : result E A) : bool := match r with Ok _ => true | _ => false end.
Definition ok_default {E A} (d : A) (r : result E A) : A := match r with Ok a => a | _ => d end.

Lemma ok_default_is_ok {E A} (d : A) (r : result E A) : is_ok r = true -> r = Ok (ok_default d r).
Proof. by destruct r. Qed.

(** [monad_inv H] splits a hypothesis [c = Ok _] along the binds of [c]. *)
Ltac monad_inv H :=
  lazymatch type of H with
  | rbind _ _ = Ok _ =>
      let a := fresh "a" in let H1 := fresh H in let H2 := fresh H in
      apply rbind_Ok_inv in H as (a & H1 & H2); cbv beta in H2;
      monad_inv H1; monad_inv H2
  | rmap _ _ = Ok _ =>
      let a := fresh "a" in let H1 := fresh H in let H2 := fresh H in
      apply rmap_Ok_inv in H as (a & H1 & H2); monad_inv H1
  | ok_or _ _ = Ok _ => apply ok_or_Ok in H
  | _ => idtac
  end.

(** [monad_simp] does so for all hypotheses, and splits the pairs. *)
Ltac monad_simp :=
  repeat match goal with
    | H : rbind _ _ = Ok _ |- _ =>
        let a := fresh "a" in let H1 := fresh "Hm" in
        apply rbind_Ok_inv in H as (a & H1 & H); cbv beta in H;
        lazymatch type of a with prod _ _ => destruct a | _ => idtac end
    | H : ok_or _ _ = Ok _ |- _ => apply ok_or_Ok in H
    | H : Ok _ = Ok _ |- _ => injection H as H
    | H : Err _ = Ok _ |- _ => discriminate H
    | H : Panic = Ok _ |- _ => discriminate H
    end.

(** * Machine integers

    An unsigned [w]-bit integer is the [Z] in [0, 2^w); the operations that can
    leave the range are written with the wrap-around of a release build. *)

Definition u8_max : Z := 255.
Definition u16_max : Z := 65535.
Definition u32_max : Z := 4294967295.
Definition u64_max : Z := 18446744073709551615.

Definition wrap (w z : Z) : Z := z mod 2 ^ w.
Definition wadd (w a b : Z) : Z := wrap w (a + b).
Definition wsub (w a b : Z) : Z := wrap w (a - b).
Definition wmul (w a b : Z) : Z := wrap w (a * b).
Definition wshl (w a k : Z) : Z := wrap w (Z.shiftl a (k mod w)).

(** [u64::div_ceil] *)
Definition div_ceil (a b : Z) : Z := if a mod b =? 0 then a / b else a / b + 1.

(** The checked conversion [try_into] to an unsigned type of width [w]. *)
Definition try_into (w z : Z) : option Z :=
  if (0 <=? z) && (z <? 2 ^ w) then Some z else None.

Definition in_width (w z : Z) : Prop := 0 <= z < 2 ^ w.

Lemma try_into_Some w z y : try_into w z = Some y <-> y = z /\ in_width w z.
Proof.
  unfold try_into, in_width.
  destruct (Z.leb_spec 0 z), (Z.ltb_spec z (2 ^ w)); simpl; split;
    [intros [= <-] | intros [-> ?] | done | intros [-> ?] | done | intros [-> ?]
    | done | intros [-> ?]]; first [done | lia].
Qed.

Lemma try_into_id w z : in_width w z -> try_into w z = Some z.
Proof. intros. by apply try_into_Some. Qed.

Lemma wrap_small w z : in_width w z -> wrap w z = z.
Proof. apply Z.mod_small. Qed.

Lemma wadd_small w a b : in_width w (a + b) -> wadd w a b = a + b.
Proof. apply wrap_small. Qed.

Lemma wmul_small w a b : in_width w (a * b) -> wmul w a b = a * b.
Proof. apply wrap_small. Qed.

Lemma wsub_wadd w a b : 0 <= w -> in_width w b -> wadd w a (wsub w b a) = b.
Proof.
  intros Hw Hb. unfold wadd, wsub, wrap.
  rewrite Zplus_mod_idemp_r. replace (a + (b - a)) with b by lia.
  by apply Z.mod_small.
Qed.

Lemma div_ceil_bounds a b : 0 <= a -> 0 < b -> a <= div_ceil a b * b < a + b.
Proof.
  intros. unfold div_ceil. pose proof (Z.div_mod a b ltac:(lia)).
  pose proof (Z.mod_pos_bound a b ltac:(lia)).
  destruct (Z.eqb_spec (a mod b) 0); nia.
Qed.

(** * Bytes *)

#[export] Instance byte_eq_dec : EqDecision byte := Strings.Byte.byte_eq_dec.

Definition byte_val (b : byte) : Z := Z.of_N (Strings.Byte.to_N b).

Definition byte_of (z : Z) : byte :=
  match Strings.Byte.of_N (Z.to_N (z mod 256)) with Some b => b | None => x00 end.

Lemma byte_val_range b : 0 <= byte_val b < 256.
Proof.
  unfold byte_val. pose proof (Strings.Byte.to_N_bounded b). lia.
Qed.

Lemma byte_val_of z : byte_val (byte_of z) = z mod 256.
Proof.
  unfold byte_val, byte_of.
  pose proof (Z.mod_pos_bound z 256 ltac:(lia)).
  destruct (Strings.Byte.of_N _) as [b|] eqn:E.
  - apply Strings.Byte.to_of_N in E. rewrite E. lia.
  - apply Strings.Byte.of_N_None_iff in E. lia.
Qed.

Lemma byte_of_val b : byte_of (byte_val b) = b.
Proof.
  unfold byte_of. rewrite Z.mod_small by apply byte_val_range.
  unfold byte_val. rewrite N2Z.id. by rewrite Strings.Byte.of_to_N.
Qed.

#[export] Instance byte_countable : Countable byte :=
  inj_countable' byte_val byte_of byte_of_val.

Lemma byte_val_inj a b : byte_val a = byte_val b -> a = b.
Proof. intros H. rewrite <-(byte_of_val a), H. apply byte_of_val. Qed.

Lemma byte_of_inj_small a b :
  0 <= a < 256 -> 0 <= b < 256 -> byte_of a = byte_of b -> a = b.
Proof.
  intros ?? H. apply (f_equal byte_val) in H. rewrite !byte_val_of in H.
  by rewrite !Z.mod_small in H by lia.
Qed.

(** The bytes of a Rust string literal. *)
Definition bytes_of_string (s : string) : list byte := String.list_byte_of_string s.

(** * Byte strings *)

Definition zlen {A} (l : list A) : Z := Z.of_nat (length l).

Definition ztake {A} (n : Z) (l : list A) : list A := take (Z.to_nat n) l.
Definition zdrop {A} (n : Z) (l : list A) : list A := drop (Z.to_nat n) l.

(** [data.get(a..)] and [data.get(a..b)]; the offsets are non-negative. *)
Definition get_from {A} (d : list A) (a : Z) : option (list A) :=
  if a <=? zlen d then Some (zdrop a d) else None.
Definition get_range {A} (d : list A) (a b : Z) : option (list A) :=
  if (a <=? b) && (b <=? zlen d) then Some (ztake (b - a) (zdrop a d)) else None.

(** [data.split_at_checked(n)] *)
Definition split_at_checked {A} (d : list A) (n : Z) : option (list A * list A) :=
  if n <=? zlen d then Some (ztake n d, zdrop n d) else None.

Definition starts_with (prefix l : list byte) : bool :=
  bool_decide (take (length prefix) l = prefix).
Definition strip_prefix (prefix l : list byte) : option (list byte) :=
  if starts_with prefix l then Some (drop (length prefix) l) else None.
Definition ends_with (suffix l : list byte) : bool :=
  bool_decide (drop (length l - length suffix) l = suffix).

Lemma zlen_nonneg {A} (l : list A) : 0 <= zlen l.
Proof. unfold zlen. lia. Qed.
Lemma zlen_app {A} (l k : list A) : zlen (l ++ k) = zlen l + zlen k.
Proof. unfold zlen. rewrite length_app. lia. Qed.
Lemma zlen_cons {A} x (l : list A) : zlen (x :: l) = 1 + zlen l.
Proof. unfold zlen. simpl. lia. Qed.
Lemma zlen_nil {A} : zlen (@nil A) = 0.
Proof. done. Qed.
Lemma zlen_zero {A} (l : list A) : zlen l = 0 -> l = [].
Proof. unfold zlen. destruct l; simpl; [done | lia]. Qed.

Lemma zdrop_app {A} (x y : list A) : zdrop (zlen x) (x ++ y) = y.
Proof. unfold zdrop, zlen. rewrite Nat2Z.id. apply drop_app_length. Qed.
Lemma ztake_app {A} (x y : list A) : ztake (zlen x) (x ++ y) = x.
Proof. unfold ztake, zlen. rewrite Nat2Z.id. apply take_app_length. Qed.
Lemma zlen_zdrop {A} n (l : list A) : 0 <= n <= zlen l -> zlen (zdrop n l) = zlen l - n.
Proof. unfold zlen, zdrop. rewrite length_drop. lia. Qed.
Lemma zlen_ztake {A} n (l : list A) : 0 <= n <= zlen l -> zlen (ztake n l) = n.
Proof. unfold zlen, ztake. rewrite length_take. lia. Qed.
Lemma ztake_zdrop {A} n (l : list A) : ztake n l ++ zdrop n l = l.
Proof. apply take_drop. Qed.

Lemma ztake_all {A} (l : list A) : ztake (zlen l) l = l.
Proof. unfold ztake, zlen. rewrite Nat2Z.id. apply firstn_all. Qed.

Lemma zlen_take {A} (n : nat) (l : list A) : zlen (take n l) = Z.min (Z.of_nat n) (zlen l).
Proof. unfold zlen. rewrite length_take. lia. Qed.
Lemma zlen_replicate {A} (n : nat) (x : A) : zlen (replicate n x) = Z.of_nat n.
Proof. unfold zlen. by rewrite length_replicate. Qed.

Lemma get_from_app {A} (x y : list A) n : n = zlen x -> get_from (x ++ y) n = Some y.
Proof.
  intros ->. unfold get_from. rewrite zlen_app, zdrop_app.
  pose proof (zlen_nonneg y). by rewrite (proj2 (Z.leb_le _ _)) by lia.
Qed.

Lemma get_range_app {A} (x y z : list A) a b :
  a = zlen x -> b = zlen x + zlen y -> get_range (x ++ y ++ z) a b = Some y.
Proof.
  intros -> ->. unfold get_range. rewrite !zlen_app, zdrop_app.
  pose proof (zlen_nonneg y). pose proof (zlen_nonneg z).
  rewrite !(proj2 (Z.leb_le _ _)) by lia. simpl.
  replace (zlen x + zlen y - zlen x) with (zlen y) by lia. by rewrite ztake_app.
Qed.

Lemma get_range_length {A} (d : list A) a b r :
  0 <= a -> get_range d a b = Some r -> zlen r = b - a /\ b <= zlen d /\ a <= b.
Proof.
  unfold get_range. intros Ha.
  destruct (Z.leb_spec a b), (Z.leb_spec b (zlen d)); simpl; try done.
  intros [= <-]. split; [|lia].
  rewrite zlen_ztake; [lia|]. rewrite zlen_zdrop; lia.
Qed.

Lemma get_from_length {A} (d : list A) a r :
  0 <= a -> get_from d a = Some r -> zlen r = zlen d - a /\ a <= zlen d.
Proof.
  unfold get_from. intros Ha. destruct (Z.leb_spec a (zlen d)); [|done].
  intros [= <-]. rewrite zlen_zdrop; lia.
Qed.

Lemma split_at_checked_app {A} (x y : list A) n :
  n = zlen x -> split_at_checked (x ++ y) n = Some (x, y).
Proof.
  intros ->. unfold split_at_checked. rewrite zlen_app, ztake_app, zdrop_app.
  pose proof (zlen_nonneg y). by rewrite (proj2 (Z.leb_le _ _)) by lia.
Qed.

Lemma starts_with_spec prefix l :
  starts_with prefix l = true <-> exists rest, l = prefix ++ rest.
Proof.
  unfold starts_with. rewrite bool_decide_eq_true. split.
  - intros H. exists (drop (length prefix) l). rewrite <-H at 1. by rewrite take_drop.
  - intros [rest ->]. apply take_app_length.
Qed.

Lemma strip_prefix_spec prefix l rest :
  strip_prefix prefix l = Some rest <-> l = prefix ++ rest.
Proof.
  unfold strip_prefix. destruct (starts_with prefix l) eqn:E.
  - apply starts_with_spec in E as [r ->]. rewrite drop_app_length.
    split; [by intros [= ->] | intros H; by apply app_inv_head in H as ->].
  - split; [done|]. intros ->.
    assert (starts_with prefix (prefix ++ rest) = true) by (apply starts_with_spec; eauto).
    congruence.
Qed.

(** * Little-endian integers *)

Fixpoint le_bytes (n : nat) (z : Z) : list byte :=
  match n with O => [] | S n => byte_of z :: le_bytes n (z / 256) end.

Fixpoint le_val (l : list byte) : Z :=
  match l with [] => 0 | b :: l => byte_val b + 256 * le_val l end.

Lemma length_le_bytes n z : length (le_bytes n z) = n.
Proof. revert z. induction n; intros; simpl; auto. Qed.

Lemma zlen_le_bytes n z : zlen (le_bytes n z) = Z.of_nat n.
Proof. unfold zlen. by rewrite length_le_bytes. Qed.

Lemma le_val_bytes n z : 0 <= z < 256 ^ Z.of_nat n -> le_val (le_bytes n z) = z.
Proof.
  revert z. induction n as [|n IH]; intros z Hz.
  - change (256 ^ Z.of_nat 0) with 1 in Hz. simpl. lia.
  - simpl. rewrite byte_val_of, IH.
    + pose proof (Z.div_mod z 256). lia.
    + rewrite Nat2Z.inj_succ, Z.pow_succ_r in Hz by lia.
      split; [apply Z.div_pos; lia | apply Z.div_lt_upper_bound; lia].
Qed.

Lemma le_bytes_val l : le_bytes (length l) (le_val l) = l.
Proof.
  induction l as [|b l IH]; [done|].
  change (le_bytes (length (b :: l)) (le_val (b :: l)))
    with (byte_of (byte_val b + 256 * le_val l) :: le_bytes (length l) ((byte_val b + 256 * le_val l) / 256)).
  pose proof (byte_val_range b). f_equal.
  - rewrite <-(byte_of_val b) at 2. unfold byte_of. f_equal.
    by rewrite (Z.mul_comm 256), Z_mod_plus_full.
  - rewrite (Z.mul_comm 256), Z_div_plus_full, Z.div_small, Z.add_0_l by lia. done.
Qed.

Lemma le_val_range l : 0 <= le_val l < 256 ^ zlen l.
Proof.
  induction l as [|b l IH]; [done|].
  rewrite zlen_cons, Z.pow_add_r by (pose proof (zlen_nonneg l); lia).
  pose proof (byte_val_range b). simpl. change (256 ^ 1) with 256. nia.
Qed.

#[global] Arguments le_bytes : simpl never.
#[global] Arguments le_val : simpl never.

(** Replacing an element: the others in some order. *)
Lemma insert_split {A} (l : list A) i x y :
  l !! i = Some x -> exists rest, l ≡ₚ x :: rest /\ (<[i := y]> l : list A) ≡ₚ y :: rest.
Proof.
  intros Hi. apply list_elem_of_split_length in Hi as (l1 & l2 & -> & ->). exists (l1 ++ l2).
  rewrite insert_app_r_alt, Nat.sub_diag by lia. simpl. split; by rewrite Permutation_middle.
Qed.

(** * Loops

    A [loop { .. }] or [while] is a step function on the loop's variables.
    [run_loop] runs it with fuel; when a measure decreases at every iteration,
    [S (measure s)] iterations are enough ([run_loop_total]), so the functions
    below that are defined with that fuel are total. *)

Inductive loop_step (S R : Type) : Type :=
  | Again (s : S)
  | Done (r : R).
Arguments Again {S R} s.
Arguments Done {S R} r.

Section loops.
Context {S R : Type} (step : S -> loop_step S R).

Fixpoint run_loop (fuel : nat) (s : S) : option R :=
  match fuel with
  | O => None
  | Datatypes.S fuel =>
      match step s with Again s' => run_loop fuel s' | Done r => Some r end
  end.

Definition loop_next (s s' : S) : Prop := step s = Again s'.

Context (measure : S -> nat).

Definition loop_decreases : Prop :=
  forall s s', step s = Again s' -> (measure s' < measure s)%nat.

Lemma run_loop_total (Hdec : loop_decreases) s fuel :
  (measure s < fuel)%nat -> exists r, run_loop fuel s = Some r.
Proof.
  revert s. induction fuel as [|fuel IH]; intros s Hf; [lia|]. simpl.
  destruct (step s) as [s'|r] eqn:E; [|eauto].
  apply IH. apply Hdec in E. lia.
Qed.

Lemma run_loop_more (Hdec : loop_decreases) s fuel1 fuel2 :
  (measure s < fuel1)%nat -> (measure s < fuel2)%nat ->
  run_loop fuel1 s = run_loop fuel2 s.
Proof.
  revert s fuel2. induction fuel1 as [|f1 IH]; intros s [|f2] H1 H2; try lia. simpl.
  destruct (step s) as [s'|r] eqn:E; [|done].
  apply Hdec in E. apply IH; lia.
Qed.

(** The loop with enough fuel. *)
Definition loop (s : S) : option R := run_loop (Datatypes.S (measure s)) s.

Lemma loop_unfold (Hdec : loop_decreases) s :
  loop s = match step s with Again s' => loop s' | Done r => Some r end.
Proof.
  unfold loop. simpl. destruct (step s) as [s'|r] eqn:E; [|done].
  apply Hdec in E. apply (run_loop_more Hdec s' (measure s) (Datatypes.S (measure s'))); lia.
Qed.

Lemma loop_rtc (Hdec : loop_decreases) s s' :
  rtc loop_next s s' -> loop s = loop s'.
Proof.
  induction 1 as [|s1 s2 s3 H12 _ IH]; [done|].
  rewrite loop_unfold by done. unfold loop_next in H12. by rewrite H12.
Qed.

Lemma loop_total (Hdec : loop_decreases) s : exists r, loop s = Some r.
Proof. apply run_loop_total; [done | lia]. Qed.

(** The same for loops whose measure decreases where an invariant holds. *)
Definition loop_decreases_on (I : S -> Prop) : Prop :=
  forall s s', I s -> step s = Again s' -> I s' /\ (measure s' < measure s)%nat.

Lemma run_loop_more_on I (Hdec : loop_decreases_on I) s fuel1 fuel2 :
  I s -> (measure s < fuel1)%nat -> (measure s < fuel2)%nat ->
  run_loop fuel1 s = run_loop fuel2 s.
Proof.
  revert s fuel2. induction fuel1 as [|f1 IH]; intros s [|f2] Hi H1 H2; try lia. simpl.
  destruct (step s) as [s'|r] eqn:E; [|done].
  apply Hdec in E as [Hi' E]; [|done]. apply IH; [done|lia..].
Qed.

Lemma loop_unfold_on I (Hdec : loop_decreases_on I) s :
  I s -> loop s = match step s with Again s' => loop s' | Done r => Some r end.
Proof.
  intros Hi. unfold loop. simpl. destruct (step s) as [s'|r] eqn:E; [|done].
  apply Hdec in E as [Hi' E]; [|done].
  apply (run_loop_more_on I Hdec s' (measure s) (Datatypes.S (measure s'))); [done|lia..].
Qed.

Lemma loop_total_on I (Hdec : loop_decreases_on I) s : I s -> exists r, loop s = Some r.
Proof.
  revert s. induction s as [s IH] using (induction_ltof1 _ measure). intros Hi.
  rewrite (loop_unfold_on I Hdec) by done.
  destruct (step s) as [s'|r] eqn:E; [|eauto].
  apply Hdec in E as [Hi' E]; [|done]. by apply IH.
Qed.

(** An invariant of the iterations that implies a postcondition on exit. *)
Lemma run_loop_inv (I : S -> Prop) (Q : R -> Prop) :
  (forall s s', I s -> step s = Again s' -> I s') ->
  (forall s r, I s -> step s = Done r -> Q r) ->
  forall fuel s r, I s -> run_loop fuel s = Some r -> Q r.
Proof.
  intros Hstep Hdone fuel. induction fuel as [|fuel IH]; intros s r Hi; [done|]. simpl.
  destruct (step s) eqn:E; intros; simplify_eq; eauto.
Qed.
End loops.

(** The result of a loop whose body returns a [result]: running out of fuel is
    excluded by the measure, and is mapped to [Panic] here. *)
Definition loop_result {E A} (o : option (result E A)) : result E A :=
  match o with Some r => r | None => Panic end.

(** * The common hints of the development *)

Create HintDb pe.
#[export] Hint Resolve zlen_nonneg byte_val_range : pe.
Create Rewrite HintDb pe_len.
#[export] Hint Rewrite @zlen_app @zlen_cons @zlen_nil zlen_le_bytes @zlen_replicate : pe_len.

(** Equality of concatenations up to associativity. *)
Ltac app_norm := repeat (rewrite <-app_assoc || (progress simpl)).
Ltac app_eq := app_norm; reflexivity.

(** Lengths of concatenations, then linear arithmetic. *)
Ltac pose_zlen l :=
  lazymatch goal with
  | _ : 0 <= zlen l |- _ => fail
  | _ => pose proof (zlen_nonneg l)
  end.
Ltac len_lia :=
  autorewrite with pe_len in *;
  repeat match goal with
    | |- context [zlen ?l] => pose_zlen l
    | _ : context [zlen ?l] |- _ => pose_zlen l
    end; lia.
