(* ===== verification/MemFile.v ===== *)
(** A seekable file in memory: the bytes of the file and the position of the
    cursor, with the lemmas that say what a read finds after a write.  The erofs
    builder writes its image to one, the io file between host and guest is one. *)
From stdpp Require Import option base list numbers.
From Stdlib Require Import ZArith Lia.
From S2P Require Import Prelude.
#[local] Open Scope Z_scope.

(** The bytes of the file and the position of the next read or write. *)
Record Out := { o_bytes : list byte; o_pos : Z }.

Definition seek (pos : Z) (o : Out) : Out := {| o_bytes := o_bytes o; o_pos := pos |}.

(** A write past the end leaves a hole of zeros. *)
Definition put (pos : Z) (data bytes : list byte) : list byte :=
  ztake pos bytes ++ replicate (Z.to_nat (pos - zlen bytes)) x00 ++ data ++
  zdrop (pos + zlen data) bytes.

Definition write_all (data : list byte) (o : Out) : Out :=
  {| o_bytes := if decide (data = []) then o_bytes o else put (o_pos o) data (o_bytes o);
     o_pos := o_pos o + zlen data |}.

(** * Slices *)

Lemma ztake_app_le {A} n (x y : list A) : n <= zlen x -> ztake n (x ++ y) = ztake n x.
Proof. unfold ztake, zlen. intros. rewrite take_app_le by lia. done. Qed.
Lemma zdrop_app_ge {A} n (x y : list A) : zlen x <= n -> zdrop n (x ++ y) = zdrop (n - zlen x) y.
Proof.
  unfold zdrop, zlen. intros. rewrite drop_app_ge by lia. f_equal. lia.
Qed.
Lemma zdrop_zdrop {A} a b (l : list A) : 0 <= a -> 0 <= b -> zdrop a (zdrop b l) = zdrop (b + a) l.
Proof. unfold zdrop. intros. rewrite drop_drop. f_equal. lia. Qed.
Lemma zdrop_ge {A} n (l : list A) : zlen l <= n -> zdrop n l = [].
Proof. unfold zdrop, zlen. intros. apply drop_ge. lia. Qed.
Lemma zdrop_0 {A} (l : list A) : zdrop 0 l = l.
Proof. done. Qed.
Lemma ztake_ge {A} n (l : list A) : zlen l <= n -> ztake n l = l.
Proof. unfold ztake, zlen. intros. apply take_ge. lia. Qed.

(** What lies before the position of a write. *)
Definition put_prefix (pos : Z) (bytes : list byte) : list byte :=
  ztake pos bytes ++ replicate (Z.to_nat (pos - zlen bytes)) x00.

Lemma put_split pos data bytes :
  put pos data bytes = put_prefix pos bytes ++ data ++ zdrop (pos + zlen data) bytes.
Proof. unfold put, put_prefix. by rewrite <-app_assoc. Qed.

Lemma zlen_put_prefix pos bytes : 0 <= pos -> zlen (put_prefix pos bytes) = pos.
Proof.
  intros. unfold put_prefix. rewrite zlen_app, zlen_replicate. unfold ztake, zlen.
  rewrite length_take. lia.
Qed.

Lemma put_put pos d1 d2 bytes :
  0 <= pos -> put (pos + zlen d1) d2 (put pos d1 bytes) = put pos (d1 ++ d2) bytes.
Proof.
  intros Hp. rewrite (put_split _ d2), (put_split _ (d1 ++ d2)). unfold put_prefix at 1.
  rewrite !put_split.
  pose proof (zlen_put_prefix pos bytes Hp) as Hl.
  pose proof (zlen_nonneg d1). pose proof (zlen_nonneg d2).
  pose proof (zlen_nonneg (zdrop (pos + zlen d1) bytes)).
  rewrite (app_assoc (put_prefix _ _) d1).
  rewrite (ztake_app_le _ (put_prefix pos bytes ++ d1)) by (rewrite zlen_app; lia).
  rewrite ztake_ge by (rewrite zlen_app; lia).
  replace (Z.to_nat _) with O by (rewrite !zlen_app; lia). simpl. rewrite app_nil_r.
  rewrite zdrop_app_ge, zlen_app, Hl by (rewrite zlen_app; lia).
  rewrite zdrop_zdrop by lia.
  replace (pos + zlen d1 + (pos + zlen d1 + zlen d2 - (pos + zlen d1)))
    with (pos + zlen (d1 ++ d2)) by (rewrite zlen_app; lia).
  by rewrite <-!app_assoc.
Qed.

Lemma put_end data bytes : put (zlen bytes) data bytes = bytes ++ data.
Proof.
  unfold put. pose proof (zlen_nonneg data).
  rewrite ztake_ge, zdrop_ge, Z.sub_diag by lia. simpl. by rewrite app_nil_r.
Qed.

Lemma put_begin x y r : zlen x = zlen y -> put 0 y (x ++ r) = y ++ r.
Proof.
  intros Hl. unfold put. rewrite zlen_app. pose proof (zlen_nonneg x). pose proof (zlen_nonneg r).
  replace (Z.to_nat (0 - (zlen x + zlen r))) with O by lia.
  by rewrite Z.add_0_l, <-Hl, zdrop_app.
Qed.

Lemma write_all_app d1 d2 o :
  0 <= o_pos o -> write_all d2 (write_all d1 o) = write_all (d1 ++ d2) o.
Proof.
  intros Hp. unfold write_all. simpl. f_equal; [|rewrite zlen_app; lia].
  destruct (decide (d1 = [])) as [->|H1]; simpl.
  { rewrite Z.add_0_r. done. }
  destruct (decide (d2 = [])) as [->|H2]; [rewrite app_nil_r; by rewrite decide_False|].
  rewrite decide_False by (by destruct d1). by apply put_put.
Qed.

Lemma write_all_nil o : write_all [] o = o.
Proof. destruct o. unfold write_all. simpl. by rewrite Z.add_0_r. Qed.

(** Reading where a write went, and elsewhere. *)
Lemma put_read pos data bytes :
  0 <= pos -> get_range (put pos data bytes) pos (pos + zlen data) = Some data.
Proof.
  intros. rewrite put_split. apply get_range_app; rewrite zlen_put_prefix; lia.
Qed.

Lemma get_range_prefix {A} (x y : list A) a b :
  0 <= a -> b <= zlen x -> get_range (x ++ y) a b = get_range x a b.
Proof.
  intros Ha Hb. unfold get_range. rewrite zlen_app. pose proof (zlen_nonneg y).
  destruct (Z.leb_spec a b); simpl; [|done].
  rewrite !(proj2 (Z.leb_le _ _)) by lia. f_equal.
  unfold ztake, zdrop, zlen in *. rewrite drop_app_le, take_app_le by (rewrite ?length_drop; lia). done.
Qed.

(** A slice is what lies between a prefix and a suffix. *)
Lemma get_range_Some_inv {A} (d : list A) a b r :
  0 <= a -> get_range d a b = Some r ->
  exists pre post, d = pre ++ r ++ post /\ zlen pre = a /\ b = a + zlen r.
Proof.
  intros Ha H. pose proof (get_range_length _ _ _ _ Ha H) as (Hl & Hb & Hab).
  unfold get_range in H. rewrite !(proj2 (Z.leb_le _ _)) in H by lia. simpl in H. injection H as <-.
  exists (ztake a d), (zdrop (b - a) (zdrop a d)). split_and!; [|by apply zlen_ztake; lia|lia].
  by rewrite !ztake_zdrop.
Qed.

Lemma put_read_below pos data bytes a b :
  0 <= a -> b <= pos -> b <= zlen bytes ->
  get_range (put pos data bytes) a b = get_range bytes a b.
Proof.
  intros Ha Hb Hl. rewrite put_split, get_range_prefix.
  - unfold put_prefix. rewrite get_range_prefix.
    + rewrite <-(ztake_zdrop pos bytes) at 2. rewrite get_range_prefix; [done..|].
      unfold ztake, zlen in *. rewrite length_take. lia.
    + done.
    + unfold ztake, zlen in *. rewrite length_take. lia.
  - done.
  - destruct (Z.leb_spec 0 pos); [rewrite zlen_put_prefix; lia|].
    pose proof (zlen_nonneg (put_prefix pos bytes)). lia.
Qed.

Lemma get_range_suffix {A} (x y : list A) a b :
  zlen x <= a -> get_range (x ++ y) a b = get_range y (a - zlen x) (b - zlen x).
Proof.
  intros Ha. unfold get_range. rewrite zlen_app. pose proof (zlen_nonneg y).
  pose proof (zlen_nonneg x).
  replace (a - zlen x <=? b - zlen x) with (a <=? b)
    by (destruct (Z.leb_spec a b), (Z.leb_spec (a - zlen x) (b - zlen x)); lia || done).
  replace (b - zlen x <=? zlen y) with (b <=? zlen x + zlen y)
    by (destruct (Z.leb_spec b (zlen x + zlen y)), (Z.leb_spec (b - zlen x) (zlen y)); lia || done).
  rewrite zdrop_app_ge by lia. by replace (b - zlen x - (a - zlen x)) with (b - a) by lia.
Qed.

Lemma get_range_zdrop {A} (d : list A) k a b :
  0 <= k <= zlen d -> k <= a -> get_range d a b = get_range (zdrop k d) (a - k) (b - k).
Proof.
  intros Hk Ha. rewrite <-(ztake_zdrop k d) at 1.
  rewrite get_range_suffix; by rewrite zlen_ztake by lia.
Qed.

Lemma put_read_above pos data bytes a b :
  0 <= pos -> pos + zlen data <= a -> a <= b -> b <= zlen bytes ->
  get_range (put pos data bytes) a b = get_range bytes a b.
Proof.
  intros Hp Ha Hab Hb. rewrite put_split, app_assoc. pose proof (zlen_nonneg data).
  pose proof (zlen_put_prefix pos bytes Hp) as Hl.
  rewrite get_range_suffix by (rewrite zlen_app; lia). rewrite zlen_app, Hl.
  symmetry. apply get_range_zdrop; lia.
Qed.

Lemma zlen_put pos data bytes :
  0 <= pos -> zlen (put pos data bytes) = Z.max (pos + zlen data) (zlen bytes).
Proof.
  intros Hp. rewrite put_split, !zlen_app, zlen_put_prefix by done.
  pose proof (zlen_nonneg data). pose proof (zlen_nonneg bytes).
  destruct (Z.leb_spec (pos + zlen data) (zlen bytes)).
  - rewrite zlen_zdrop by lia. lia.
  - rewrite zdrop_ge by lia. change (zlen (@nil byte)) with 0. lia.
Qed.

