(* ===== verification/BTree.v ===== *)
(** The ordered maps of the Rust standard library.

    [BTreeMap<K, V>] with byte-string keys ([OsString], [Box<[u8]>]) is a list
    of bindings in strictly increasing key order.  [OsString] compares like its
    bytes, lexicographically.  The file gives the order, the operations the
    sources use ([get], [insert], [range(..=k).next_back()]) and the lemmas the
    components need: insertion keeps the order, lookups after an insertion,
    and the characterisation of the greatest key not above a bound. *)
From stdpp Require Import base list numbers strings sorting.
From Stdlib Require Import ZArith Lia.
From S2P Require Import Prelude.
#[local] Open Scope Z_scope.

Abbreviation bstr := (list byte).

(** * The order of byte strings *)

Fixpoint bcompare (a b : bstr) : comparison :=
  match a, b with
  | [], [] => Eq
  | [], _ :: _ => Lt
  | _ :: _, [] => Gt
  | x :: a, y :: b =>
      match byte_val x ?= byte_val y with Eq => bcompare a b | c => c end
  end.

Definition blt (a b : bstr) : Prop := bcompare a b = Lt.
Definition ble (a b : bstr) : Prop := a = b \/ blt a b.

Lemma bcompare_refl a : bcompare a a = Eq.
Proof. induction a; simpl; [done|]. by rewrite Z.compare_refl. Qed.

Lemma bcompare_eq a b : bcompare a b = Eq -> a = b.
Proof.
  revert b. induction a as [|x a IH]; intros [|y b]; simpl; try done.
  destruct (byte_val x ?= byte_val y) eqn:E; try done.
  apply Z.compare_eq in E. apply byte_val_inj in E as ->. intros H. f_equal. auto.
Qed.

Lemma bcompare_antisym a b : bcompare b a = CompOpp (bcompare a b).
Proof.
  revert b. induction a as [|x a IH]; intros [|y b]; simpl; try done.
  rewrite (Z.compare_antisym (byte_val x)).
  destruct (byte_val x ?= byte_val y); simpl; auto.
Qed.

Lemma bcompare_gt a b : bcompare a b = Gt <-> blt b a.
Proof. unfold blt. rewrite (bcompare_antisym a b). destruct (bcompare a b); simpl; naive_solver. Qed.

Lemma blt_trans a b c : blt a b -> blt b c -> blt a c.
Proof.
  unfold blt. revert b c. induction a as [|x a IH]; intros [|y b] [|z c]; simpl; try done.
  destruct (Z.compare_spec (byte_val x) (byte_val y)),
           (Z.compare_spec (byte_val y) (byte_val z)),
           (Z.compare_spec (byte_val x) (byte_val z));
    intros; try done; try lia; eauto.
Qed.

Lemma blt_irrefl a : ~ blt a a.
Proof. unfold blt. by rewrite bcompare_refl. Qed.

Lemma blt_asym a b : blt a b -> ~ blt b a.
Proof. intros H1 H2. by apply (blt_irrefl a), (blt_trans _ b). Qed.

Lemma ble_blt_trans a b c : ble a b -> blt b c -> blt a c.
Proof. intros [->|]; eauto using blt_trans. Qed.

Lemma blt_total a b : blt a b \/ a = b \/ blt b a.
Proof.
  destruct (bcompare a b) eqn:E; [right; left | left | right; right].
  - by apply bcompare_eq.
  - done.
  - by apply bcompare_gt.
Qed.

Lemma bcompare_app p a b : bcompare (p ++ a) (p ++ b) = bcompare a b.
Proof. induction p; simpl; [done|]. by rewrite Z.compare_refl. Qed.

Lemma blt_app_cons p x a : blt p (p ++ x :: a).
Proof.
  unfold blt. rewrite <-(app_nil_r p) at 1. by rewrite bcompare_app.
Qed.

#[export] Instance blt_dec a b : Decision (blt a b).
Proof. unfold blt. solve_decision. Defined.
#[export] Instance ble_dec a b : Decision (ble a b).
Proof. unfold ble. solve_decision. Defined.

(** * Maps *)

Abbreviation btree V := (list (bstr * V)).

Section btree.
Context {V : Type}.
Implicit Types (m : btree V) (k p : bstr) (v : V).

Fixpoint bt_get k m : option V :=
  match m with
  | [] => None
  | (k', v) :: m => if decide (k = k') then Some v else bt_get k m
  end.

(** [insert]: an existing binding keeps its place and its key. *)
Fixpoint bt_insert k v m : btree V :=
  match m with
  | [] => [(k, v)]
  | (k', v') :: m' =>
      match bcompare k k' with
      | Lt => (k, v) :: m
      | Eq => (k', v) :: m'
      | Gt => (k', v') :: bt_insert k v m'
      end
  end.

(** [range((Unbounded, Included(p))).next_back()] *)
Fixpoint bt_last_le p m : option (bstr * V) :=
  match m with
  | [] => None
  | (k, v) :: m =>
      if decide (ble k p)
      then match bt_last_le p m with Some r => Some r | None => Some (k, v) end
      else None
  end.

Inductive bt_sorted : btree V -> Prop :=
  | bt_sorted_nil : bt_sorted []
  | bt_sorted_cons k v m :
      Forall (fun kv => blt k kv.1) m -> bt_sorted m -> bt_sorted ((k, v) :: m).

Lemma bt_get_below k m : Forall (fun kv => blt k kv.1) m -> bt_get k m = None.
Proof.
  induction 1 as [|[k' v'] m Hlt Hm IH]; simpl; [done|].
  rewrite decide_False; [done|]. intros ->. by apply (blt_irrefl k').
Qed.

Lemma bt_insert_get_eq k v m : bt_get k (bt_insert k v m) = Some v.
Proof.
  induction m as [|[k' v'] m IH]; simpl; [by rewrite decide_True|].
  destruct (bcompare k k') eqn:E; simpl.
  - apply bcompare_eq in E as ->. by rewrite decide_True.
  - by rewrite decide_True.
  - rewrite decide_False; [done|]. intros ->. by rewrite bcompare_refl in E.
Qed.

Lemma bt_insert_get_ne k k' v m : k' <> k -> bt_get k' (bt_insert k v m) = bt_get k' m.
Proof.
  intros Hne. induction m as [|[q w] m IH]; simpl; [by rewrite decide_False|].
  destruct (bcompare k q) eqn:E; simpl.
  - apply bcompare_eq in E as ->. by rewrite !decide_False by done.
  - by rewrite decide_False by done.
  - by rewrite IH.
Qed.

Lemma bt_insert_Forall (P : bstr * V -> Prop) k v m :
  P (k, v) -> (forall w, P (k, w) -> P (k, v)) -> Forall P m -> Forall P (bt_insert k v m).
Proof.
  intros Hk Hw. induction 1 as [|[q w] m Hq Hm IH]; simpl; [by repeat constructor|].
  destruct (bcompare k q) eqn:E; [|by repeat constructor..].
  apply bcompare_eq in E as ->. constructor; eauto.
Qed.

Lemma bt_insert_sorted k v m : bt_sorted m -> bt_sorted (bt_insert k v m).
Proof.
  induction 1 as [|q w m Hq Hm IH]; simpl; [by repeat constructor|].
  destruct (bcompare k q) eqn:E.
  - apply bcompare_eq in E as ->. by constructor.
  - constructor; [|by constructor]. constructor; [done|].
    eapply Forall_impl; [exact Hq|]. intros [] ?. simpl in *. by eapply blt_trans.
  - constructor; [|done]. apply bt_insert_Forall; eauto. by apply bcompare_gt.
Qed.

(** Inserting twice under a key is inserting once. *)
Lemma bt_insert_insert k v w m : bt_insert k w (bt_insert k v m) = bt_insert k w m.
Proof.
  induction m as [|[q x] m IH]; simpl; [by rewrite bcompare_refl|].
  destruct (bcompare k q) eqn:E; simpl; rewrite ?bcompare_refl, ?E; [done..|]. by rewrite IH.
Qed.

Lemma bt_insert_length k v m : (length (bt_insert k v m) <= S (length m))%nat.
Proof. induction m as [|[q x] m IH]; simpl; [done|]. destruct (bcompare k q); simpl; lia. Qed.

Lemma bt_get_Some_In k v m : bt_get k m = Some v -> (k, v) ∈ m.
Proof.
  induction m as [|[k' v'] m IH]; simpl; [done|].
  case_decide; [intros [= ->]; subst; by left | intros; right; auto].
Qed.

Lemma bt_sorted_In_get k v m : bt_sorted m -> (k, v) ∈ m -> bt_get k m = Some v.
Proof.
  induction 1 as [|q w m Hq Hm IH]; intros Hin; [by apply not_elem_of_nil in Hin|].
  simpl. apply elem_of_cons in Hin as [[= -> ->]|Hin]; [by rewrite decide_True|].
  rewrite decide_False; [auto|]. intros ->.
  rewrite Forall_forall in Hq. by apply Hq, blt_irrefl in Hin.
Qed.

Lemma bt_sorted_NoDup m : bt_sorted m -> NoDup m.*1.
Proof.
  induction 1 as [|q w m Hq Hm IH]; [constructor|]. simpl. constructor; [|done].
  intros ([k v] & -> & Hin)%list_elem_of_fmap. rewrite Forall_forall in Hq. by apply Hq, blt_irrefl in Hin.
Qed.

(** The result of the range query is a binding at or below the bound, and no
    other key of the map lies between it and the bound. *)
Lemma bt_last_le_Some p m k v :
  bt_sorted m -> bt_last_le p m = Some (k, v) ->
  bt_get k m = Some v /\ ble k p /\
  (forall k' w, bt_get k' m = Some w -> ble k' p -> ble k' k).
Proof.
  intros Hs. revert k v. induction Hs as [|q w m Hq Hm IH]; intros k v; simpl; [done|].
  destruct (decide (ble q p)) as [Hqp|]; [|done].
  destruct (bt_last_le p m) as [[k0 v0]|] eqn:E.
  - intros [= -> ->]. destruct (IH k v eq_refl) as (Hg & Hle & Hmax).
    assert (blt q k) as Hqk.
    { rewrite Forall_forall in Hq. by apply (Hq (k, v)), bt_get_Some_In. }
    rewrite decide_False by (intros ->; by eapply blt_irrefl).
    split_and!; [done..|]. intros k' w'. case_decide; [intros _ _; subst; by right|].
    by apply Hmax.
  - intros [= -> ->]. rewrite decide_True by done. split_and!; [done..|].
    intros k' w'. case_decide; [intros; subst; by left|]. intros Hg Hle. exfalso.
    clear IH Hq Hqp. induction Hm as [|q' w0 m Hq' Hm IH]; simpl in *; [done|].
    destruct (decide (ble q' p)) as [|Hn].
    + destruct (bt_last_le p m); done.
    + case_decide; [naive_solver|]. apply bt_get_Some_In in Hg.
      rewrite Forall_forall in Hq'. specialize (Hq' _ Hg). simpl in Hq'.
      apply Hn. destruct Hle as [->|?]; right; eauto using blt_trans.
Qed.

Lemma bt_last_le_None p m k v :
  bt_sorted m -> bt_last_le p m = None -> bt_get k m = Some v -> ~ ble k p.
Proof.
  intros Hs. induction Hs as [|q w m Hq Hm IH]; simpl; [done|].
  destruct (decide (ble q p)) as [|Hn]; [destruct (bt_last_le p m); done|].
  intros _. case_decide; [by intros; subst|]. intros Hg Hle. apply bt_get_Some_In in Hg.
  rewrite Forall_forall in Hq. specialize (Hq _ Hg). simpl in Hq.
  apply Hn. destruct Hle as [->|?]; right; eauto using blt_trans.
Qed.

End btree.
