(* ===== verification/Paths.v ===== *)
(** Unix paths: what the sources use of [std::path].

    A [Path] is a byte string.  [components] splits it at ['/'], drops empty
    parts and ["."] parts that are not at the start, and classifies the rest;
    [parent], [file_name], [PathBuf::push] and [PathBuf::pop] follow from it.
    A path built by pushing plain names is described by its list of names
    ([path_of]); on those paths [pop] undoes [push] ([path_pop_push]). *)
From stdpp Require Import base list numbers strings.
From Stdlib Require Import ZArith Lia.
From S2P Require Import Prelude BTree.

Definition slash : byte := x2f.
Definition dot : bstr := [x2e].
Definition dotdot : bstr := [x2e; x2e].

Inductive Component :=
  | RootDir
  | CurDir
  | ParentDir
  | Normal (name : bstr).

#[export] Instance Component_eq_dec : EqDecision Component.
Proof. solve_decision. Defined.

Fixpoint split_slash (l : bstr) : list bstr :=
  match l with
  | [] => [[]]
  | b :: l =>
      if decide (b = slash) then [] :: split_slash l
      else match split_slash l with s :: r => (b :: s) :: r | [] => [[b]] end
  end.

Fixpoint join_slash (segs : list bstr) : bstr :=
  match segs with
  | [] => []
  | [s] => s
  | s :: r => s ++ slash :: join_slash r
  end.

Definition body_component (seg : bstr) : option Component :=
  if decide (seg = [] \/ seg = dot) then None
  else if decide (seg = dotdot) then Some ParentDir
  else Some (Normal seg).

(** The first segment is a root when the path starts with ['/'], and a ["."]
    at the start counts. *)
Definition first_component (seg : bstr) (more : bool) : option Component :=
  if decide (seg = []) then (if more then Some RootDir else None)
  else if decide (seg = dot) then Some CurDir
  else body_component seg.

(** The segments up to and including each component, with the component. *)
Fixpoint body_prefixes (before : list bstr) (segs : list bstr)
    : list (Component * list bstr) :=
  match segs with
  | [] => []
  | s :: r =>
      let here := before ++ [s] in
      match body_component s with
      | Some c => (c, here) :: body_prefixes here r
      | None => body_prefixes here r
      end
  end.

Definition component_prefixes (p : bstr) : list (Component * list bstr) :=
  match split_slash p with
  | [] => []
  | s :: r =>
      match first_component s (negb (bool_decide (r = []))) with
      | Some c => (c, [s]) :: body_prefixes [s] r
      | None => body_prefixes [s] r
      end
  end.

Definition components (p : bstr) : list Component := (component_prefixes p).*1.

(** [Components::as_path] once the components after a prefix are consumed. *)
Definition prefix_path (x : Component * list bstr) : bstr :=
  match x with
  | (RootDir, _) => [slash]
  | (_, segs) => join_slash segs
  end.

(** [Path::parent] *)
Definition parent (p : bstr) : option bstr :=
  match rev (component_prefixes p) with
  | [] | (RootDir, _) :: _ => None
  | _ :: [] => Some []
  | _ :: x :: _ => Some (prefix_path x)
  end.

(** [Path::starts_with], on the components. *)
Definition path_starts_with (p prefix : list Component) : bool :=
  bool_decide (take (length prefix) p = prefix).

(** [Path::file_name] *)
Definition file_name (p : bstr) : option bstr :=
  match last (components p) with Some (Normal n) => Some n | _ => None end.

(** The parts before and after the last occurrence of a byte. *)
Fixpoint rsplit_at (c : byte) (l : bstr) : option (bstr * bstr) :=
  match l with
  | [] => None
  | b :: l =>
      match rsplit_at c l with
      | Some (x, y) => Some (b :: x, y)
      | None => if decide (b = c) then Some ([], l) else None
      end
  end.

(** [Path::extension] *)
Definition extension (p : bstr) : option bstr :=
  match file_name p with
  | Some n =>
      match rsplit_at x2e n with
      | Some (_ :: _, ext) => Some ext
      | _ => None
      end
  | None => None
  end.

(** [PathBuf::push]: an absolute argument replaces the path. *)
Definition path_push (p n : bstr) : bstr :=
  match n with
  | b :: _ =>
      if decide (b = slash) then n
      else if decide (p = []) then n
      else if decide (last p = Some slash) then p ++ n
      else p ++ slash :: n
  | [] =>
      if decide (p = []) then []
      else if decide (last p = Some slash) then p else p ++ [slash]
  end.

(** [PathBuf::pop] *)
Definition path_pop (p : bstr) : bstr :=
  match parent p with Some q => q | None => p end.

(** [Path::with_file_name] *)
Definition with_file_name (p n : bstr) : bstr :=
  match file_name p with
  | Some _ => path_push (path_pop p) n
  | None => path_push p n
  end.

(** * Plain names and the paths made of them *)

Definition plain_name (n : bstr) : Prop := n <> [] /\ (slash ∉ n) /\ n <> dot.

Definition path_of (names : list bstr) : bstr := join_slash names.

Lemma split_slash_no_slash s : slash ∉ s -> split_slash s = [s].
Proof.
  induction s as [|b s IH]; intros Hs; simpl; [done|].
  apply not_elem_of_cons in Hs as [Hb Hs].
  rewrite decide_False by done. by rewrite IH.
Qed.

Lemma split_slash_app_slash s r :
  slash ∉ s -> split_slash (s ++ slash :: r) = s :: split_slash r.
Proof.
  induction s as [|b s IH]; intros Hs; simpl; [done|].
  apply not_elem_of_cons in Hs as [Hb Hs].
  rewrite decide_False by done. by rewrite IH.
Qed.

Lemma split_join names :
  names <> [] -> Forall (fun n => slash ∉ n) names -> split_slash (join_slash names) = names.
Proof.
  intros Hne Hf. induction Hf as [|n ns Hn Hns IH]; [done|].
  destruct ns as [|n' ns]; simpl.
  - by apply split_slash_no_slash.
  - rewrite split_slash_app_slash by done. f_equal. by apply IH.
Qed.

Lemma join_snoc names n :
  names <> [] -> join_slash (names ++ [n]) = join_slash names ++ slash :: n.
Proof.
  intros Hne. induction names as [|m ms IH]; [done|].
  destruct ms as [|m' ms]; [done|].
  change ((m :: m' :: ms) ++ [n]) with (m :: (m' :: ms) ++ [n]).
  assert (forall x, (m' :: ms) ++ [n] = x -> join_slash (m :: x) = m ++ slash :: join_slash x) as Hx
    by (intros [|? ?] ?; naive_solver).
  rewrite (Hx _ eq_refl), IH by done. simpl. by rewrite <-app_assoc.
Qed.

Lemma body_component_plain n :
  plain_name n -> exists c, body_component n = Some c.
Proof.
  intros (H1 & H2 & H3). unfold body_component.
  rewrite decide_False by naive_solver. case_decide; eauto.
Qed.

Lemma first_component_plain n b : plain_name n -> first_component n b = body_component n.
Proof.
  intros (H1 & H2 & H3). unfold first_component. by rewrite !decide_False by done.
Qed.

Lemma body_prefixes_plain before names :
  Forall plain_name names ->
  (body_prefixes before names).*2 =
    (fun k => before ++ take (S k) names) <$> seq 0 (length names).
Proof.
  intros Hf. revert before. induction Hf as [|n ns Hn Hns IH]; intros before; simpl; [done|].
  destruct (body_component_plain n Hn) as [c ->]. simpl. f_equal.
  rewrite IH, <-fmap_S_seq, <-list_fmap_compose. apply list_fmap_ext.
  intros i k Hk. simpl. by rewrite <-app_assoc.
Qed.

Lemma component_prefixes_path_of names :
  names <> [] -> Forall plain_name names ->
  (component_prefixes (path_of names)).*2 = (fun k => take (S k) names) <$> seq 0 (length names).
Proof.
  intros Hne Hf. unfold component_prefixes, path_of.
  rewrite split_join; [|done|eapply Forall_impl; [exact Hf|by intros ? (?&?&?)]].
  destruct Hf as [|n ns Hn Hns]; [done|].
  rewrite first_component_plain by done.
  destruct (body_component_plain n Hn) as [c ->]. simpl. f_equal.
  rewrite body_prefixes_plain, <-fmap_S_seq, <-list_fmap_compose by done.
  by apply list_fmap_ext.
Qed.

Lemma body_component_not_root n c : body_component n = Some c -> c <> RootDir.
Proof. unfold body_component. repeat case_decide; naive_solver. Qed.

Lemma body_prefixes_not_root before names :
  Forall (fun x => x.1 <> RootDir) (body_prefixes before names).
Proof.
  revert before. induction names as [|n ns IH]; intros before; simpl; [constructor|].
  destruct (body_component n) eqn:E; [|apply IH].
  constructor; [|apply IH]. by eapply body_component_not_root.
Qed.

Lemma component_prefixes_not_root names :
  names <> [] -> Forall plain_name names ->
  Forall (fun x => x.1 <> RootDir) (component_prefixes (path_of names)).
Proof.
  intros Hne Hf. unfold component_prefixes, path_of.
  rewrite split_join; [|done|eapply Forall_impl; [exact Hf|by intros ? (?&?&?)]].
  destruct Hf as [|n ns Hn Hns]; [done|].
  rewrite first_component_plain by done.
  destruct (body_component_plain n Hn) as [c E]. rewrite E.
  constructor; [by eapply body_component_not_root|apply body_prefixes_not_root].
Qed.

(** Popping the path of [names ++ [n]] gives the path of [names]. *)
Lemma parent_path_of names n :
  Forall plain_name (names ++ [n]) -> parent (path_of (names ++ [n])) = Some (path_of names).
Proof.
  intros Hf. unfold parent.
  assert (names ++ [n] <> []) as Hne by (by destruct names).
  pose proof (component_prefixes_path_of _ Hne Hf) as H2.
  pose proof (component_prefixes_not_root _ Hne Hf) as H1.
  revert H1 H2. generalize (component_prefixes (path_of (names ++ [n]))). intros l H1 H2.
  rewrite length_app, seq_app, fmap_app in H2. simpl in H2.
  destruct l as [|[c s] l _] using rev_ind.
  { apply (f_equal length) in H2. rewrite length_app in H2. simpl in H2. lia. }
  rewrite fmap_app in H2. simpl in H2. apply app_inj_tail in H2 as [H2 Hs].
  rewrite rev_app_distr. simpl.
  apply Forall_app in H1 as [H1 Hc]. inversion_clear Hc as [|? ? Hc' _].
  destruct names as [|m ms _] using rev_ind.
  { simpl in H2. apply fmap_nil_inv in H2 as ->. simpl. by destruct c. }
  rewrite length_app, seq_app, fmap_app in H2. simpl in H2.
  destruct l as [|[c' s'] l _] using rev_ind.
  { apply (f_equal length) in H2. rewrite length_app in H2. simpl in H2. lia. }
  rewrite fmap_app in H2. simpl in H2. apply app_inj_tail in H2 as [_ Hs'].
  rewrite rev_app_distr. simpl.
  apply Forall_app in H1 as [_ H1]. inversion_clear H1 as [|? ? Hc'' _]. simpl in Hc', Hc''.
  rewrite take_app_le in Hs' by (rewrite length_app; simpl; lia).
  rewrite take_ge in Hs' by (rewrite length_app; simpl; lia). subst s'.
  destruct c; try done; by destruct c'.
Qed.

Lemma last_join_not_slash names :
  names <> [] -> Forall plain_name names ->
  join_slash names <> [] /\ last (join_slash names) <> Some slash.
Proof.
  intros Hne Hf. destruct names as [|n ns _] using rev_ind; [done|].
  apply Forall_app in Hf as [Hns Hn]. inversion_clear Hn as [|? ? (H1 & H2 & _) _].
  assert (last n <> Some slash /\ exists x, last n = Some x) as [Hl [x Hx]].
  { destruct n as [|b n _] using rev_ind; [done|]. rewrite last_snoc.
    split; [|eauto]. intros [= ->]. apply H2, elem_of_app. right. by left. }
  destruct ns as [|m ms]; [simpl; by destruct n|].
  rewrite join_snoc by done. split; [by destruct (join_slash (m :: ms))|].
  rewrite last_app. rewrite last_cons, Hx. naive_solver.
Qed.

(** Pushing a plain name onto a path of plain names appends the name. *)
Lemma path_push_path_of names n :
  Forall plain_name names -> plain_name n -> path_push (path_of names) n = path_of (names ++ [n]).
Proof.
  intros Hf (H1 & H2 & H3). unfold path_push, path_of.
  destruct n as [|b n]; [done|]. apply not_elem_of_cons in H2 as [Hb _].
  rewrite decide_False by done.
  destruct (decide (names = [])) as [->|Hne]; [done|].
  destruct (last_join_not_slash names Hne Hf).
  rewrite !decide_False by done. by rewrite join_snoc.
Qed.

Lemma path_pop_path_of names n :
  Forall plain_name (names ++ [n]) -> path_pop (path_of (names ++ [n])) = path_of names.
Proof. intros Hf. unfold path_pop. by rewrite parent_path_of. Qed.

Lemma path_pop_push names n :
  Forall plain_name names -> plain_name n ->
  path_pop (path_push (path_of names) n) = path_of names.
Proof.
  intros. rewrite path_push_path_of by done.
  apply path_pop_path_of. apply Forall_app; auto.
Qed.

(** The components of a path of plain names are these names. *)
Definition component_of (n : bstr) : Component :=
  if decide (n = dotdot) then ParentDir else Normal n.

Lemma body_component_of n : plain_name n -> body_component n = Some (component_of n).
Proof.
  intros (H1 & H2 & H3). unfold body_component, component_of.
  rewrite decide_False by naive_solver. by case_decide.
Qed.

Lemma body_prefixes_components before names :
  Forall plain_name names -> (body_prefixes before names).*1 = component_of <$> names.
Proof.
  intros Hf. revert before. induction Hf as [|n ns Hn Hns IH]; intros before; csimpl; [done|].
  rewrite body_component_of by done. csimpl. by rewrite IH.
Qed.

Lemma components_path_of names :
  Forall plain_name names -> components (path_of names) = component_of <$> names.
Proof.
  intros Hf. unfold components, component_prefixes, path_of.
  destruct (decide (names = [])) as [->|Hne]; [done|].
  rewrite split_join; [|done|eapply Forall_impl; [exact Hf|by intros ? (?&?&?)]].
  destruct Hf as [|n ns Hn Hns]; [done|].
  rewrite first_component_plain, body_component_of by done.
  csimpl. by rewrite body_prefixes_components.
Qed.

Lemma file_name_path_of names n :
  Forall plain_name (names ++ [n]) -> n <> dotdot -> file_name (path_of (names ++ [n])) = Some n.
Proof.
  intros Hf Hn. unfold file_name. rewrite components_path_of, fmap_app by done.
  simpl. rewrite last_snoc. unfold component_of. by rewrite decide_False.
Qed.

Lemma with_file_name_path_of names n m :
  Forall plain_name (names ++ [n]) -> n <> dotdot -> plain_name m ->
  with_file_name (path_of (names ++ [n])) m = path_of (names ++ [m]).
Proof.
  intros Hf Hn Hm. unfold with_file_name.
  rewrite file_name_path_of, path_pop_path_of by done.
  apply path_push_path_of; [|done]. by apply Forall_app in Hf as [? _].
Qed.
