(* ===== verification/Text.v ===== *)
(** Text as bytes: the string functions of the Rust standard library that the
    program parses with (splitting, unsigned decimal numbers) and lower-case
    hexadecimal. *)
From stdpp Require Import option base list sets numbers strings.
From Stdlib Require Import ZArith Lia.
From S2P Require Import Prelude BTree.
#[local] Open Scope Z_scope.

(** * Splitting *)

(** [str::split_once] at a character. *)
Fixpoint split_once (c : byte) (s : bstr) : option (bstr * bstr) :=
  match s with
  | [] => None
  | b :: s =>
      if decide (b = c) then Some ([], s)
      else match split_once c s with Some (l, r) => Some (b :: l, r) | None => None end
  end.

(** [str::split] at a character. *)
Fixpoint split (c : byte) (s : bstr) : list bstr :=
  match s with
  | [] => [[]]
  | b :: s =>
      if decide (b = c) then [] :: split c s
      else match split c s with p :: r => (b :: p) :: r | [] => [[b]] end
  end.

(** [str::split_once] at a string. *)
Fixpoint split_once_str (pat s : bstr) : option (bstr * bstr) :=
  match strip_prefix pat s with
  | Some r => Some ([], r)
  | None =>
      match s with
      | [] => None
      | b :: s =>
          match split_once_str pat s with Some (l, r) => Some (b :: l, r) | None => None end
      end
  end.

Lemma split_once_app c l r : c ∉ l -> split_once c (l ++ c :: r) = Some (l, r).
Proof.
  induction l as [|b l IH]; simpl; intros Hc.
  - by rewrite decide_True.
  - rewrite decide_False, IH; [done|set_solver..].
Qed.

Lemma split_not_in c s : c ∉ s -> split c s = [s].
Proof.
  induction s as [|b s IH]; [done|]. intros [Hb Hs]%not_elem_of_cons. simpl.
  rewrite decide_False by congruence. by rewrite IH.
Qed.

Lemma split_app c l r : c ∉ l -> split c (l ++ c :: r) = l :: split c r.
Proof.
  induction l as [|b l IH]; simpl; intros Hc; [by rewrite decide_True|].
  apply not_elem_of_cons in Hc as [Hb Hl]. rewrite decide_False by congruence. by rewrite IH.
Qed.

Lemma split_once_Some c s l r : split_once c s = Some (l, r) <-> s = l ++ c :: r /\ c ∉ l.
Proof.
  split; [|intros [-> ?]; by apply split_once_app].
  revert l. induction s as [|b s IH]; simpl; intros l; [done|]. case_decide as E.
  - intros [= <- ->]. subst. split; [done|]. set_solver.
  - destruct (split_once c s) as [[l' r']|]; [|done]. intros [= <- ->].
    destruct (IH l' eq_refl) as [-> ?]. split; [done|]. set_solver.
Qed.

Lemma split_once_None c s : split_once c s = None <-> c ∉ s.
Proof.
  split.
  - induction s as [|b s IH]; simpl; [set_solver|]. case_decide; [done|].
    destruct (split_once c s) as [[]|]; [done|]. intros _. specialize (IH eq_refl). set_solver.
  - intros Hc. destruct (split_once c s) as [[l r]|] eqn:E; [|done].
    apply split_once_Some in E as [-> _]. set_solver.
Qed.

(** * Decimal numbers *)

Definition digit_val (b : byte) : option Z :=
  let v := byte_val b in if (48 <=? v) && (v <=? 57) then Some (v - 48) else None.

(** [from_str] of an unsigned type of [w] bits: an optional plus sign, then at
    least one digit; a value that does not fit is an error. *)
Fixpoint parse_digits (w acc : Z) (s : bstr) : option Z :=
  match s with
  | [] => Some acc
  | b :: s =>
      match digit_val b with
      | Some d => let acc := 10 * acc + d in
                  if acc <? 2 ^ w then parse_digits w acc s else None
      | None => None
      end
  end.

Definition parse_uint (w : Z) (s : bstr) : option Z :=
  match s with
  | [] => None
  | b :: s' =>
      if decide (b = x2b)
      then (match s' with [] => None | _ => parse_digits w 0 s' end)
      else parse_digits w 0 s
  end.

(** * Hexadecimal *)

Definition hex_digit (n : Z) : byte := if n <? 10 then byte_of (48 + n) else byte_of (87 + n).

(** [hex::encode] *)
Definition hex_encode (d : list byte) : bstr :=
  flat_map (fun b => [hex_digit (byte_val b / 16); hex_digit (byte_val b mod 16)]) d.

Definition hex_val (b : byte) : option Z :=
  let v := byte_val b in
  if (48 <=? v) && (v <=? 57) then Some (v - 48)
  else if (97 <=? v) && (v <=? 102) then Some (v - 87)
  else if (65 <=? v) && (v <=? 70) then Some (v - 55)
  else None.

(** [hex::decode]: an even number of digits of either case. *)
Fixpoint hex_decode (s : bstr) : option (list byte) :=
  match s with
  | [] => Some []
  | a :: b :: s =>
      x ← hex_val a; y ← hex_val b; d ← hex_decode s; Some (byte_of (16 * x + y) :: d)
  | _ => None
  end.

Lemma hex_val_digit n : 0 <= n < 16 -> hex_val (hex_digit n) = Some n.
Proof.
  intros Hn. assert (Forall (fun k => hex_val (hex_digit k) = Some k) (seqZ 0 16)) as Hall
    by (repeat constructor).
  rewrite Forall_forall in Hall. apply Hall, elem_of_seqZ. lia.
Qed.

Lemma hex_encode_cons b d :
  hex_encode (b :: d) = hex_digit (byte_val b / 16) :: hex_digit (byte_val b mod 16) :: hex_encode d.
Proof. done. Qed.

Lemma hex_decode_encode d : hex_decode (hex_encode d) = Some d.
Proof.
  induction d as [|b d IH]; [done|]. rewrite hex_encode_cons. cbn [hex_decode].
  pose proof (byte_val_range b) as Hb. pose proof (Z.div_mod (byte_val b) 16 ltac:(lia)).
  pose proof (Z.mod_pos_bound (byte_val b) 16 ltac:(lia)).
  rewrite !hex_val_digit, IH by lia. simpl. f_equal. f_equal.
  replace (16 * (byte_val b / 16) + byte_val b mod 16) with (byte_val b) by lia. apply byte_of_val.
Qed.

Lemma length_hex_encode d : length (hex_encode d) = (2 * length d)%nat.
Proof. unfold hex_encode. induction d; simpl; lia. Qed.

(** [std::ascii::escape_default] *)
Definition escape_default (b : byte) : bstr :=
  match b with
  | x09 => [x5c; x74]
  | x0d => [x5c; x72]
  | x0a => [x5c; x6e]
  | x5c => [x5c; x5c]
  | x27 => [x5c; x27]
  | x22 => [x5c; x22]
  | _ =>
      if (0x20 <=? byte_val b) && (byte_val b <=? 0x7e) then [b]
      else [x5c; x78; hex_digit (byte_val b / 16); hex_digit (byte_val b mod 16)]
  end.

(** [[u8]::escape_ascii] *)
Definition escape_ascii (s : bstr) : bstr := flat_map escape_default s.

(** * Printing decimal numbers *)

Definition digit (d : Z) : byte := byte_of (48 + d).

(** The digits of [n], which has at most [fuel] of them. *)
Fixpoint print_digits (fuel : nat) (n : Z) : bstr :=
  match fuel with
  | O => []
  | S fuel => if n <? 10 then [digit n] else print_digits fuel (n / 10) ++ [digit (n mod 10)]
  end.

(** [format!("{n}")] of an unsigned number: 20 digits are enough for 64 bits. *)
Definition print_uint (n : Z) : bstr := print_digits 20 n.

(** The same in another base up to 16; 22 octal digits are enough for 64 bits. *)
Fixpoint print_base_digits (base : Z) (fuel : nat) (n : Z) : bstr :=
  match fuel with
  | O => []
  | S fuel =>
      if n <? base then [hex_digit n] else print_base_digits base fuel (n / base) ++ [hex_digit (n mod base)]
  end.
Definition print_base (base n : Z) : bstr := print_base_digits base 22 n.

(** [format!("{:>w}")]: spaces on the left up to the width. *)
Definition pad_left (w : nat) (s : bstr) : bstr := replicate (w - length s) x20 ++ s.

Lemma digit_val_digit d : 0 <= d < 10 -> digit_val (digit d) = Some d.
Proof.
  intros Hd. assert (Forall (fun k => digit_val (digit k) = Some k) (seqZ 0 10)) as Hall
    by (repeat constructor).
  rewrite Forall_forall in Hall. apply Hall, elem_of_seqZ. lia.
Qed.

Lemma parse_digits_app w acc l r :
  parse_digits w acc (l ++ r) = parse_digits w acc l ≫= fun a => parse_digits w a r.
Proof.
  revert acc. induction l as [|b l IH]; intros acc; simpl; [done|].
  destruct (digit_val b); [|done]. destruct (_ <? _); [|done]. apply IH.
Qed.

Lemma parse_print_digits w fuel n :
  (0 < fuel)%nat -> 0 <= n < 2 ^ w -> n < 10 ^ Z.of_nat fuel ->
  parse_digits w 0 (print_digits fuel n) = Some n.
Proof.
  revert n. induction fuel as [|fuel IH]; intros n Hf Hn Hp; [lia|]. cbn [print_digits].
  destruct (Z.ltb_spec n 10).
  - cbn [parse_digits]. rewrite digit_val_digit by lia.
    replace (10 * 0 + n) with n by lia. rewrite (proj2 (Z.ltb_lt _ _)) by lia. done.
  - assert (0 <= n / 10 < n) by (split; [apply Z.div_pos | apply Z.div_lt]; lia).
    rewrite Nat2Z.inj_succ, Z.pow_succ_r in Hp by lia.
    rewrite parse_digits_app, IH; [|destruct fuel; [simpl in Hp; lia|lia]|lia|
      apply Z.div_lt_upper_bound; lia].
    simpl. pose proof (Z.mod_pos_bound n 10 ltac:(lia)). rewrite digit_val_digit by lia.
    pose proof (Z.div_mod n 10 ltac:(lia)) as Hdm.
    replace (10 * (n / 10) + n mod 10) with n by lia. by rewrite (proj2 (Z.ltb_lt _ _)) by lia.
Qed.

Lemma print_digits_head fuel n :
  (0 < fuel)%nat -> 0 <= n -> exists d l, print_digits fuel n = digit d :: l /\ 0 <= d < 10.
Proof.
  revert n. induction fuel as [|fuel IH]; intros n Hf Hn; [lia|]. cbn [print_digits].
  destruct (Z.ltb_spec n 10); [by exists n, []|].
  pose proof (Z.mod_pos_bound n 10 ltac:(lia)).
  destruct fuel as [|fuel]; [by exists (n mod 10), []|].
  destruct (IH (n / 10) ltac:(lia)) as (d & l & -> & Hd); [apply Z.div_pos; lia|].
  by exists d, (l ++ [digit (n mod 10)]).
Qed.

Lemma parse_digits_range w acc s n :
  parse_digits w acc s = Some n -> 0 <= acc < 2 ^ w -> 0 <= n < 2 ^ w.
Proof.
  revert acc. induction s as [|b s IH]; intros acc; simpl; [by intros [= <-]|].
  destruct (digit_val b) as [d|] eqn:Ed; [|done]. unfold digit_val in Ed.
  destruct (_ && _) eqn:Eb in Ed; [|done]. apply andb_true_iff in Eb as [Eb _].
  apply Z.leb_le in Eb. injection Ed as <-. destruct (_ <? _) eqn:El; [|done].
  apply Z.ltb_lt in El. intros H Hacc. apply (IH _ H). lia.
Qed.

Lemma parse_uint_range w s n : 0 <= w -> parse_uint w s = Some n -> 0 <= n < 2 ^ w.
Proof.
  intros Hw. assert (0 <= 0 < 2 ^ w) by (split; [done|by apply Z.pow_pos_nonneg]).
  unfold parse_uint. repeat (case_match; try done); intros; by eapply parse_digits_range.
Qed.

Lemma parse_print w n : 0 <= n < 2 ^ w -> w <= 64 -> parse_uint w (print_uint n) = Some n.
Proof.
  intros Hn Hw. unfold print_uint.
  assert (n < 10 ^ Z.of_nat 20) as Hb.
  { assert (2 ^ 64 < 10 ^ Z.of_nat 20) by (apply Z.ltb_lt; vm_compute; reflexivity).
    destruct (Z.leb_spec 0 w); [|rewrite Z.pow_neg_r in Hn by lia; lia].
    pose proof (Z.pow_le_mono_r 2 w 64 ltac:(lia) Hw). lia. }
  destruct (print_digits_head 20 n ltac:(lia) ltac:(lia)) as (d & l & Hp & Hd).
  pose proof (parse_print_digits w 20 n ltac:(lia) Hn Hb) as Hr.
  revert Hp Hr. generalize (print_digits 20 n). intros p -> Hr.
  unfold parse_uint. rewrite decide_False; [exact Hr|].
  intros E. apply (f_equal digit_val) in E. by rewrite digit_val_digit in E.
Qed.

(** Printed numbers contain digits only. *)
Lemma print_uint_no b n : digit_val b = None -> 0 <= n -> b ∉ print_uint n.
Proof.
  intros Hb. unfold print_uint. generalize 20%nat as fuel. intros fuel. revert n.
  induction fuel as [|fuel IH]; intros n Hn; simpl; [set_solver|].
  assert (forall d, 0 <= d < 10 -> b <> digit d) as Hd.
  { intros d Hd ->. by rewrite digit_val_digit in Hb. }
  destruct (Z.ltb_spec n 10).
  - specialize (Hd n ltac:(lia)). set_solver.
  - specialize (Hd (n mod 10) (Z.mod_pos_bound n 10 ltac:(lia))).
    specialize (IH (n / 10) (Z.div_pos n 10 Hn ltac:(lia))). set_solver.
Qed.
