(* ===== verification/Pearchive.v ===== *)
(** The archive format of [pearchive] (src/pearchive/src/lib.rs).

    An archive is a sequence of messages: a file (tag, name, NUL, 32-bit length,
    data), a directory (tag, name, NUL) whose content follows, and a pop that
    closes it.  The file models the two writers ([PackFsToWriter] over a
    directory walk, [PackMemToWriter]), the two readers ([unpack_visitor] with
    [UnpackToHashmap], and [unpack_to_dir] over an interface of directory
    operations) and proves that they agree with one reference encoding. *)
From stdpp Require Import base list gmap numbers strings relations.
From Stdlib Require Import ZArith Lia.
From S2P Require Import Prelude BTree Paths.
#[local] Open Scope Z_scope.
#[local] Open Scope result_scope.
#[local] Set Warnings "-register-all".

Definition MAX_DIR_DEPTH : Z := 32.
Definition MAX_NAME_LEN : nat := 255.

Inductive Error :=
  | Create
  | OpenAt (errno : Z)
  | Getdents
  | DirTooDeep
  | MkdirAt (errno : Z)
  | Fstat
  | OnFile
  | OnDir
  | OnPop
  | Write
  | SendFile (errno : Z)
  | Flush
  | BadName
  | BadSize
  | EmptyStack
  | BadTag
  | ArchiveTruncated
  | Chdir
  | Chroot
  | Unshare
  | Mmap
  | StackEmpty
  | BadCStr
  | SizeUnderflow.

Inductive ArchiveFormat1Tag := File | Dir | Pop.

Definition tag_byte (t : ArchiveFormat1Tag) : byte :=
  match t with File => x01 | Dir => x02 | Pop => x03 end.

(** [TryFrom<&u8>] *)
Definition tag_of_byte (b : byte) : option ArchiveFormat1Tag :=
  match b with x01 => Some File | x02 => Some Dir | x03 => Some Pop | _ => None end.

(** * Reading primitives *)

Definition read_le_u32 (input : bstr) : result Error (Z * bstr) :=
  let? '(int_bytes, rest) := ok_or (split_at_checked input 4) BadSize in
  Ok (le_val int_bytes, rest).

Fixpoint position_nul (l : bstr) : option nat :=
  match l with
  | [] => None
  | b :: l => if decide (b = x00) then Some O else S <$> position_nul l
  end.

(** The bytes of the [CStr] (its terminator included) and the rest of the
    input.  The scan starts at index 1. *)
Definition read_cstr (input : bstr) : result Error (bstr * bstr) :=
  if decide (input = []) then Err BadName
  else if decide (input = [x00]) then Err BadName
  else
    match position_nul
            (take (Nat.min (length input) (MAX_NAME_LEN + 1) - 1) (drop 1 input)) with
    | Some j => Ok (take (S (S j)) input, drop (S (S j)) input)
    | None => Err BadName
    end.

(** [CStr::to_bytes]: without the terminator. *)
Definition to_bytes (c : bstr) : bstr := take (length c - 1) c.

(** * Packing from memory *)

Record PackMemToWriter := { pm_out : bstr; pm_depth : Z }.

Module PackMem.
Definition new : PackMemToWriter := {| pm_out := []; pm_depth := 0 |}.
(** [PackMemToVec::with_vec]: the cursor is set to the end of the vector. *)
Definition with_vec (v : bstr) : PackMemToWriter := {| pm_out := v; pm_depth := 0 |}.
Definition into_inner (p : PackMemToWriter) : bstr := pm_out p.

Definition write_all (p : PackMemToWriter) (bs : bstr) : PackMemToWriter :=
  {| pm_out := pm_out p ++ bs; pm_depth := pm_depth p |}.

Definition file (p : PackMemToWriter) (name data : bstr) : result Error PackMemToWriter :=
  let? size_u32 := ok_or (try_into 32 (zlen data)) Write in
  let p := write_all p [tag_byte File] in
  let p := write_all p name in
  let p := write_all p [x00] in
  let p := write_all p (le_bytes 4 size_u32) in
  Ok (write_all p data).

Definition dir (p : PackMemToWriter) (name : bstr) : result Error PackMemToWriter :=
  if pm_depth p >? MAX_DIR_DEPTH then Err DirTooDeep
  else
    let p := {| pm_out := pm_out p; pm_depth := pm_depth p + 1 |} in
    let p := write_all p [tag_byte Dir] in
    let p := write_all p name in
    Ok (write_all p [x00]).

Definition pop (p : PackMemToWriter) : result Error PackMemToWriter :=
  if pm_depth p =? 0 then Err EmptyStack
  else
    let p := {| pm_out := pm_out p; pm_depth := pm_depth p - 1 |} in
    Ok (write_all p [tag_byte Pop]).
End PackMem.

(** * Packing a directory tree *)

(** A directory as [RawDir] lists it: the entries in listing order; [FsOther]
    is anything that is neither a regular file nor a directory. *)
Inductive fs_entry :=
  | FsFile (name data : bstr)
  | FsDir (name : bstr) (entries : list fs_entry)
  | FsOther (name : bstr).

Section fs_entry_ind.
Context (P : fs_entry -> Prop).
Hypothesis HF : forall n d, P (FsFile n d).
Hypothesis HD : forall n es, Forall P es -> P (FsDir n es).
Hypothesis HO : forall n, P (FsOther n).

Fixpoint fs_entry_ind' (e : fs_entry) : P e :=
  match e with
  | FsFile n d => HF n d
  | FsDir n es =>
      HD n es ((fix go es : Forall P es :=
                  match es with
                  | [] => Forall_nil_2 P
                  | e :: es => Forall_cons_2 P e es (fs_entry_ind' e) (go es)
                  end) es)
  | FsOther n => HO n
  end.

Lemma fs_entries_ind (es : list fs_entry) : Forall P es.
Proof. induction es; constructor; [apply fs_entry_ind' | done]. Qed.
End fs_entry_ind.

(** The visitor interface of the directory walk. *)
Class PackFsVisitor (V : Type) := {
  on_file : V -> bstr -> Z -> bstr -> result Error V;
  on_dir : V -> bstr -> result Error V;
  leave_dir : V -> result Error V;
}.

Section pack_fs.
(** [sendfile(out, in, None, count)] on a file whose unread content is given:
    the bytes transferred and the unread rest, or an errno. *)
Context (sendfile : bstr -> Z -> result Z (bstr * bstr)).

(** One iteration of the [while len > 0] loop of [sendfile_all]; the state is
    the output so far, the unread input and [len]. *)
Definition sendfile_all_step (s : bstr * bstr * Z)
    : loop_step (bstr * bstr * Z) (result Error bstr) :=
  let '(out, input, len) := s in
  if len >? 0 then
    match sendfile input len with
    | Ok (sent, input) =>
        if zlen sent <=? len then Again (out ++ sent, input, len - zlen sent)
        else Done (Err SizeUnderflow)
    | Err e => Done (Err (SendFile e))
    | Panic => Done Panic
    end
  else Done (Ok out).

Definition sendfile_all (fuel : nat) (out input : bstr) (len : Z) : option (result Error bstr) :=
  run_loop sendfile_all_step fuel (out, input, len).

Record PackFsToWriter := { pf_out : bstr; pf_depth : Z }.

Definition PackFsToWriter_new : PackFsToWriter := {| pf_out := []; pf_depth := 0 |}.

(** [on_file] flushes its header before [sendfile_all], so the file data
    follow it in the output. *)
Definition PackFs_on_file (p : PackFsToWriter) (name : bstr) (size : Z) (input : bstr)
    : result Error PackFsToWriter :=
  let? size_u32 := ok_or (try_into 32 size) Write in
  let out := pf_out p ++ [tag_byte File] ++ (name ++ [x00]) ++ le_bytes 4 size_u32 in
  let? out := loop_result (sendfile_all (S (Z.to_nat size)) out input size) in
  Ok {| pf_out := out; pf_depth := pf_depth p |}.

Definition PackFs_on_dir (p : PackFsToWriter) (name : bstr) : result Error PackFsToWriter :=
  if pf_depth p >? MAX_DIR_DEPTH then Err DirTooDeep
  else Ok {| pf_out := pf_out p ++ [tag_byte Dir] ++ (name ++ [x00]);
             pf_depth := pf_depth p + 1 |}.

Definition PackFs_leave_dir (p : PackFsToWriter) : result Error PackFsToWriter :=
  if pf_depth p =? 0 then Err EmptyStack
  else Ok {| pf_out := pf_out p ++ [tag_byte Pop]; pf_depth := pf_depth p - 1 |}.

#[export] Instance PackFsToWriter_visitor : PackFsVisitor PackFsToWriter := {
  on_file := PackFs_on_file;
  on_dir := PackFs_on_dir;
  leave_dir := PackFs_leave_dir;
}.
End pack_fs.

(** [file_size]: [fstat] of the open file. *)
Definition file_size (content : bstr) : Z := zlen content.

Fixpoint visit_entry {V} `{PackFsVisitor V} (e : fs_entry) (v : V) : result Error V :=
  match e with
  | FsFile name content => on_file v name (file_size content) content
  | FsDir name entries =>
      if decide (name = dot \/ name = dotdot) then Ok v
      else
        let? v := map_err (fun _ => OnDir) (on_dir v name) in
        let? v := (fix visit es v :=
                     match es with
                     | [] => Ok v
                     | e :: es => let? v := visit_entry e v in visit es v
                     end) entries v in
        map_err (fun _ => OnDir) (leave_dir v)
  | FsOther _ => Ok v
  end.

Fixpoint visit_dirc_rec {V} `{PackFsVisitor V} (es : list fs_entry) (v : V) : result Error V :=
  match es with
  | [] => Ok v
  | e :: es => let? v := visit_entry e v in visit_dirc_rec es v
  end.

Definition pack_dir_to_writer (sendfile : bstr -> Z -> result Z (bstr * bstr))
    (es : list fs_entry) : result Error bstr :=
  rmap pf_out
    (visit_dirc_rec (H := PackFsToWriter_visitor sendfile) es PackFsToWriter_new).

(** * Unpacking into a visitor *)

Class UnpackVisitor (V : Type) := { visit_file : V -> bstr -> bstr -> bool * V }.

Record unpack_state (V : Type) := {
  us_cur : bstr;
  us_path : bstr;
  us_depth : Z;
  us_v : V;
}.
Arguments us_cur {V}. Arguments us_path {V}. Arguments us_depth {V}. Arguments us_v {V}.

Section unpack.
Context {V : Type} `{UnpackVisitor V}.

Definition unpack_step (s : unpack_state V)
    : loop_step (unpack_state V) (V * result Error unit) :=
  match us_cur s with
  | [] => Done (us_v s, if us_depth s =? 0 then Ok tt else Err ArchiveTruncated)
  | b :: cur =>
      match tag_of_byte b with
      | Some File =>
          let fields :=
            let? '(name, cur) := read_cstr cur in
            let? '(len, cur) := read_le_u32 cur in
            if len >? zlen cur then Err ArchiveTruncated else Ok (name, len, cur) in
          match fields with
          | Ok (name, len, cur) =>
              let path := path_push (us_path s) (to_bytes name) in
              match visit_file (us_v s) path (ztake len cur) with
              | (false, v) => Done (v, Ok tt)
              | (true, v) =>
                  Again {| us_cur := zdrop len cur; us_path := path_pop path;
                           us_depth := us_depth s; us_v := v |}
              end
          | Err e => Done (us_v s, Err e)
          | Panic => Done (us_v s, Panic)
          end
      | Some Dir =>
          match read_cstr cur with
          | Ok (name, cur) =>
              Again {| us_cur := cur; us_path := path_push (us_path s) (to_bytes name);
                       us_depth := us_depth s + 1; us_v := us_v s |}
          | Err e => Done (us_v s, Err e)
          | Panic => Done (us_v s, Panic)
          end
      | Some Pop =>
          if us_depth s =? 0 then Done (us_v s, Err EmptyStack)
          else Again {| us_cur := cur; us_path := path_pop (us_path s);
                        us_depth := us_depth s - 1; us_v := us_v s |}
      | None => Done (us_v s, Err BadTag)
      end
  end.

Definition unpack_measure (s : unpack_state V) : nat := length (us_cur s).

Definition unpack_visitor (data : bstr) (v : V) : option (V * result Error unit) :=
  loop unpack_step unpack_measure
    {| us_cur := data; us_path := []; us_depth := 0; us_v := v |}.
End unpack.

#[export] Instance Component_countable : Countable Component :=
  inj_countable'
    (fun c => match c with RootDir => inl 0%nat | CurDir => inl 1%nat | ParentDir => inl 2%nat
                         | Normal n => inr n end)
    (fun x => match x with inl 0%nat => RootDir | inl 1%nat => CurDir | inl _ => ParentDir
                         | inr n => Normal n end)
    ltac:(by intros []).

(** [HashMap<PathBuf, _>]: a [PathBuf] is compared and hashed by its
    components. *)
Definition path_map := gmap (list Component) bstr.

(** [UnpackToHashmap] *)
#[export] Instance UnpackToHashmap : UnpackVisitor path_map :=
  {| visit_file m path data := (true, <[components path := data]> m) |}.

Definition unpack_to_hashmap (data : bstr) : result Error (path_map) :=
  match unpack_visitor data (∅ : path_map) with
  | Some (m, Ok _) => Ok m
  | Some (_, Err e) => Err e
  | Some (_, Panic) | None => Panic
  end.

(** * Unpacking into a directory *)

(** The directory operations of src/pearchive/src/open.rs on a file system
    [F] with directory handles [D] and open files [H]; they fail with an errno. *)
Record DirOps (F D H : Type) := {
  op_openat_w : F -> D -> bstr -> result Z (F * H);
  op_write_all : F -> H -> bstr -> result unit F;
  op_mkdirat : F -> D -> bstr -> result Z F;
  op_openpathat : F -> D -> bstr -> result Z (F * D);
}.
Arguments op_openat_w {F D H}. Arguments op_write_all {F D H}.
Arguments op_mkdirat {F D H}. Arguments op_openpathat {F D H}.

Section unpack_dir.
Context {F D H : Type} (ops : DirOps F D H).

Definition openat_w (fs : F) (d : D) (name : bstr) : result Error (F * H) :=
  map_err OpenAt (op_openat_w ops fs d name).
Definition mkdirat (fs : F) (d : D) (name : bstr) : result Error F :=
  map_err MkdirAt (op_mkdirat ops fs d name).
Definition openpathat (fs : F) (d : D) (name : bstr) : result Error (F * D) :=
  map_err OpenAt (op_openpathat ops fs d name).
Definition write_all (fs : F) (h : H) (data : bstr) : result Error F :=
  map_err (fun _ => Write) (op_write_all ops fs h data).

(** A failed step keeps the file system it has reached. *)
Definition fs_step {A} (fs : F) (c : result Error A)
    (k : A -> loop_step (bstr * list D * F) (F * result Error unit))
    : loop_step (bstr * list D * F) (F * result Error unit) :=
  match c with Ok a => k a | Err e => Done (fs, Err e) | Panic => Done (fs, Panic) end.

(** One iteration of the loop; the stack's head is its last element. *)
Definition unpack_dir_step (s : bstr * list D * F)
    : loop_step (bstr * list D * F) (F * result Error unit) :=
  let '(cur, stack, fs) := s in
  match cur with
  | [] => Done (fs, if decide (length stack = 1%nat) then Ok tt else Err ArchiveTruncated)
  | b :: cur =>
      match tag_of_byte b with
      | Some File =>
          fs_step fs (ok_or (head stack) StackEmpty) (fun parent =>
          fs_step fs (read_cstr cur) (fun '(name, cur) =>
          fs_step fs (read_le_u32 cur) (fun '(len, cur) =>
          if len >? zlen cur then Done (fs, Err ArchiveTruncated)
          else
            fs_step fs (openat_w fs parent (to_bytes name)) (fun '(fs, file) =>
            fs_step fs (write_all fs file (ztake len cur)) (fun fs =>
            Again (zdrop len cur, stack, fs))))))
      | Some Dir =>
          fs_step fs (ok_or (head stack) StackEmpty) (fun parent =>
          fs_step fs (read_cstr cur) (fun '(name, cur) =>
          fs_step fs (mkdirat fs parent (to_bytes name)) (fun fs =>
          match cur with
          | b :: cur' =>
              match tag_of_byte b with
              | Some Pop => Again (cur', stack, fs)
              | Some _ =>
                  fs_step fs (openpathat fs parent (to_bytes name)) (fun '(fs, d) =>
                  Again (cur, d :: stack, fs))
              | None => Again (cur, stack, fs)
              end
          | [] => Again (cur, stack, fs)
          end)))
      | Some Pop =>
          match stack with
          | [] => Done (fs, Err EmptyStack)
          | _ :: stack => Again (cur, stack, fs)
          end
      | None => Done (fs, Err BadTag)
      end
  end.

Definition unpack_dir_measure (s : bstr * list D * F) : nat := length s.1.1.

Definition unpack_to_dir (data : bstr) (starting_dir : D) (fs : F)
    : option (F * result Error unit) :=
  loop unpack_dir_step unpack_dir_measure (data, [starting_dir], fs).
End unpack_dir.

(** * The reference encoding *)

Fixpoint encode_entry (e : fs_entry) : bstr :=
  match e with
  | FsFile n d => tag_byte File :: (n ++ [x00]) ++ le_bytes 4 (zlen d) ++ d
  | FsDir n es =>
      if decide (n = dot \/ n = dotdot) then []
      else tag_byte Dir :: (n ++ [x00]) ++ flat_map encode_entry es ++ [tag_byte Pop]
  | FsOther _ => []
  end.
Definition encode (es : list fs_entry) : bstr := flat_map encode_entry es.

(** Names that a directory can hold and that fit the format, and file sizes
    that fit the 32-bit length. *)
Definition good_name (n : bstr) : Prop :=
  plain_name n /\ n <> dotdot /\ (x00 ∉ n) /\ (length n <= MAX_NAME_LEN)%nat.

Inductive good_entry : fs_entry -> Prop :=
  | good_file n d : good_name n -> in_width 32 (zlen d) -> good_entry (FsFile n d)
  | good_dir n es : good_name n -> Forall good_entry es -> good_entry (FsDir n es)
  | good_dots n es : n = dot \/ n = dotdot -> good_entry (FsDir n es)
  | good_other n : good_entry (FsOther n).

(** How deep directories nest. *)
Fixpoint entry_height (e : fs_entry) : Z :=
  match e with
  | FsDir n es =>
      if decide (n = dot \/ n = dotdot) then 0
      else 1 + foldr (fun e h => Z.max (entry_height e) h) 0 es
  | _ => 0
  end.
Definition height (es : list fs_entry) : Z :=
  foldr (fun e h => Z.max (entry_height e) h) 0 es.

(** The regular files of a tree with their paths below [names]. *)
Fixpoint entry_files (names : list bstr) (e : fs_entry) : list (bstr * bstr) :=
  match e with
  | FsFile n d => [(path_of (names ++ [n]), d)]
  | FsDir n es =>
      if decide (n = dot \/ n = dotdot) then [] else flat_map (entry_files (names ++ [n])) es
  | FsOther _ => []
  end.
Definition tree_files (es : list fs_entry) : list (bstr * bstr) := flat_map (entry_files []) es.

Definition hashmap_of (files : list (bstr * bstr)) : path_map :=
  fold_left (fun m kv => <[components kv.1 := kv.2]> m) files ∅.

(** What extracting a tree means: the directory operations in tree order. *)
Section install.
Context {F D H : Type} (ops : DirOps F D H).

Fixpoint install_entry (d : D) (e : fs_entry) (fs : F) : F * result Error unit :=
  match e with
  | FsFile n data =>
      match openat_w ops fs d n with
      | Ok (fs, h) =>
          match write_all ops fs h data with
          | Ok fs => (fs, Ok tt)
          | Err e => (fs, Err e)
          | Panic => (fs, Panic)
          end
      | Err e => (fs, Err e)
      | Panic => (fs, Panic)
      end
  | FsDir n es =>
      if decide (n = dot \/ n = dotdot) then (fs, Ok tt)
      else match mkdirat ops fs d n with
      | Ok fs =>
          if decide (flat_map encode_entry es = []) then (fs, Ok tt)
          else match openpathat ops fs d n with
               | Ok (fs, d') =>
                   (fix go es fs :=
                      match es with
                      | [] => (fs, Ok tt)
                      | e :: es =>
                          match install_entry d' e fs with
                          | (fs, Ok _) => go es fs
                          | r => r
                          end
                      end) es fs
               | Err e => (fs, Err e)
               | Panic => (fs, Panic)
               end
      | Err e => (fs, Err e)
      | Panic => (fs, Panic)
      end
  | FsOther _ => (fs, Ok tt)
  end.

Fixpoint install (d : D) (es : list fs_entry) (fs : F) : F * result Error unit :=
  match es with
  | [] => (fs, Ok tt)
  | e :: es =>
      match install_entry d e fs with
      | (fs, Ok _) => install d es fs
      | r => r
      end
  end.
End install.

(** * Lemmas *)

Lemma tag_of_tag_byte t : tag_of_byte (tag_byte t) = Some t.
Proof. by destruct t. Qed.

Lemma position_nul_app n rest :
  x00 ∉ n -> position_nul (n ++ x00 :: rest) = Some (length n).
Proof.
  induction n as [|b n IH]; intros Hn; simpl; [done|].
  apply not_elem_of_cons in Hn as [Hb Hn].
  rewrite decide_False by done. by rewrite IH.
Qed.

(** The scan from the second byte stops at the first NUL it meets. *)
Lemma read_cstr_scan b n rest :
  (x00 ∉ n) -> (length n < MAX_NAME_LEN)%nat ->
  read_cstr (b :: n ++ x00 :: rest) = Ok (b :: n ++ [x00], rest).
Proof.
  intros Hn Hl. unfold read_cstr.
  rewrite !decide_False by (by destruct n). simpl length.
  rewrite length_app, Nat.add_comm. simpl.
  rewrite drop_0. set (k := S (Nat.min _ _)).
  assert (length n < k)%nat as Hk by (subst k; unfold MAX_NAME_LEN in Hl; lia). clearbody k.
  assert (take k (n ++ x00 :: rest) = n ++ x00 :: take (k - length n - 1) rest) as ->.
  { rewrite take_app, (take_ge n) by lia. f_equal.
    destruct (k - length n)%nat as [|j] eqn:Ej; [lia|]. simpl. by rewrite Nat.sub_0_r. }
  rewrite position_nul_app by done.
  replace (S (length n)) with (length (n ++ [x00])) by (rewrite length_app; simpl; lia).
  replace (n ++ x00 :: rest) with ((n ++ [x00]) ++ rest) by (by rewrite <-app_assoc).
  by rewrite take_app_length, drop_app_length.
Qed.

(** A stored name is read back, with the input left after its terminator. *)
Lemma read_cstr_name n rest :
  good_name n -> read_cstr (n ++ x00 :: rest) = Ok (n ++ [x00], rest).
Proof.
  intros ((Hne & _ & _) & _ & Hn & Hl). destruct n as [|b n]; [done|]. simpl in *.
  apply not_elem_of_cons in Hn as [_ Hn]. apply read_cstr_scan; [done | lia].
Qed.

Lemma to_bytes_snoc n : to_bytes (n ++ [x00]) = n.
Proof.
  unfold to_bytes. rewrite length_app. simpl.
  replace (length n + 1 - 1)%nat with (length n) by lia. apply take_app_length.
Qed.

Lemma read_le_u32_bytes z rest :
  in_width 32 z -> read_le_u32 (le_bytes 4 z ++ rest) = Ok (z, rest).
Proof.
  intros Hz. unfold read_le_u32. rewrite split_at_checked_app by (by rewrite zlen_le_bytes).
  simpl. f_equal. f_equal. apply (le_val_bytes 4). exact Hz.
Qed.

Lemma read_cstr_Ok input c rest :
  read_cstr input = Ok (c, rest) -> input = c ++ rest /\ (2 <= length c)%nat.
Proof.
  assert (forall l j, position_nul l = Some j -> (j < length l)%nat) as Hlt.
  { induction l as [|b l IH]; intros j; simpl; [done|].
    case_decide; [intros [= <-]; lia|]. intros (i & Hi & ->)%fmap_Some. apply IH in Hi. lia. }
  unfold read_cstr. do 2 (case_decide; [done|]).
  destruct (position_nul _) as [j|] eqn:E; [|done]. intros [= <- <-].
  apply Hlt in E. rewrite length_take, length_drop in E.
  rewrite take_drop, length_take. split; [done | lia].
Qed.

Lemma read_le_u32_Ok input z rest :
  read_le_u32 input = Ok (z, rest) -> (length rest + 4 = length input)%nat.
Proof.
  unfold read_le_u32, split_at_checked. intros Hr. monad_inv Hr. destruct a as [i r].
  destruct (Z.leb_spec 4 (zlen input)); [|done]. simplify_eq.
  unfold zlen in *. unfold zdrop. rewrite length_drop. lia.
Qed.

Lemma good_name_plain n : good_name n -> plain_name n.
Proof. by intros (? & _). Qed.
Lemma good_name_not_dots n : good_name n -> ~ (n = dot \/ n = dotdot).
Proof. intros ((_ & _ & ?) & ? & _) [?|?]; done. Qed.
#[local] Hint Resolve good_name_plain good_name_not_dots : core.

(** Every iteration of the readers consumes at least one byte. *)
Lemma unpack_decreases `{UnpackVisitor V} :
  loop_decreases (unpack_step (V := V)) unpack_measure.
Proof.
  intros s s'. unfold unpack_step, unpack_measure. destruct (us_cur s) as [|b cur]; [done|].
  destruct (tag_of_byte b) as [[]|]; [..|done].
  - destruct (rbind _ _) as [[[name len] rest]| |] eqn:E; [|done..].
    destruct (visit_file _ _ _) as [[] v]; [|done]. intros [= <-]. simpl.
    monad_inv E. destruct a as [nm c1]. monad_inv E1. destruct a as [l c2].
    destruct (l >? zlen c2); [done|]. simplify_eq.
    apply read_cstr_Ok in E0 as [-> ?]. apply read_le_u32_Ok in E2.
    unfold zdrop. rewrite length_drop, length_app. lia.
  - destruct (read_cstr cur) as [[name rest]| |] eqn:E; [|done..]. intros [= <-]. simpl.
    apply read_cstr_Ok in E as [-> ?]. rewrite length_app. lia.
  - destruct (us_depth s =? 0); [done|]. intros [= <-]. simpl. lia.
Qed.

Lemma unpack_dir_decreases {F D H} (ops : DirOps F D H) :
  loop_decreases (unpack_dir_step ops) unpack_dir_measure.
Proof.
  intros [[cur stack] fs] s'. unfold unpack_dir_measure. simpl.
  destruct cur as [|b cur]; [done|]. simpl.
  destruct (tag_of_byte b) as [[]|]; unfold fs_step; [..|done].
  - destruct (ok_or _ _); [|done..].
    destruct (read_cstr cur) as [[name c1]| |] eqn:E1; [|done..].
    destruct (read_le_u32 c1) as [[len c2]| |] eqn:E2; [|done..].
    destruct (len >? zlen c2); [done|].
    destruct (openat_w _ _ _ _) as [[fs1 h]| |]; [|done..].
    destruct (write_all _ _ _ _); [|done..]. intros [= <-]. simpl.
    apply read_cstr_Ok in E1 as [-> ?]. apply read_le_u32_Ok in E2.
    unfold zdrop. rewrite length_drop, length_app. lia.
  - destruct (ok_or _ _); [|done..].
    destruct (read_cstr cur) as [[name c1]| |] eqn:E1; [|done..].
    destruct (mkdirat _ _ _ _); [|done..].
    apply read_cstr_Ok in E1 as [-> ?]. rewrite length_app.
    destruct c1 as [|b' c1]; [by intros [= <-]; simpl; lia|].
    destruct (tag_of_byte b') as [[]|];
      repeat match goal with |- context [openpathat ?o ?f ?p ?n] =>
        destruct (openpathat o f p n) as [[? ?]| |] end;
      intros; simplify_eq; simpl; lia.
  - destruct stack; [done|]. intros [= <-]. simpl. lia.
Qed.

#[local] Opaque le_bytes.

(** A visitor that goes on after every file. *)
Section unpack_steps.
Context {V : Type} `{UnpackVisitor V} (see : V -> bstr -> bstr -> V).
Context (Hsee : forall v path data, visit_file v path data = (true, see v path data)).

Definition at_state (v : V) (names : list bstr) (k : Z) (cur : bstr) : unpack_state V :=
  {| us_cur := cur; us_path := path_of names; us_depth := k; us_v := v |}.

Lemma unpack_step_file v names k n d rest :
  Forall plain_name names -> good_name n -> in_width 32 (zlen d) ->
  unpack_step (at_state v names k (encode_entry (FsFile n d) ++ rest)) =
    Again (at_state (see v (path_of (names ++ [n])) d) names k rest).
Proof.
  intros Hns Hn Hd. unfold unpack_step, at_state. simpl.
  rewrite <-!app_assoc. simpl. rewrite read_cstr_name by done. simpl.
  rewrite read_le_u32_bytes by done. simpl.
  rewrite zlen_app.
  destruct (Z.gtb_spec (zlen d) (zlen d + zlen rest)) as [Hlt|_];
    [pose proof (zlen_nonneg rest); lia|].
  rewrite ztake_app, zdrop_app, to_bytes_snoc, path_push_path_of, Hsee, path_pop_path_of; auto.
  apply Forall_app; auto.
Qed.

Lemma unpack_step_dir v names k n rest :
  Forall plain_name names -> good_name n ->
  unpack_step (at_state v names k (tag_byte Dir :: (n ++ [x00]) ++ rest)) =
    Again (at_state v (names ++ [n]) (k + 1) rest).
Proof.
  intros Hns Hn. unfold unpack_step, at_state. simpl.
  rewrite <-app_assoc. simpl. rewrite read_cstr_name by done.
  by rewrite to_bytes_snoc, path_push_path_of by auto.
Qed.
Lemma unpack_step_pop v names n k rest :
  Forall plain_name (names ++ [n]) -> 0 <= k ->
  unpack_step (at_state v (names ++ [n]) (k + 1) (tag_byte Pop :: rest)) =
    Again (at_state v names k rest).
Proof.
  intros Hns Hk. unfold unpack_step, at_state. simpl.
  destruct (Z.eqb_spec (k + 1) 0); [lia|].
  rewrite path_pop_path_of by done. by replace (k + 1 - 1) with k by lia.
Qed.

Abbreviation see_files files v := (fold_left (fun v kv => see v kv.1 kv.2) files v).

(** Reading the encoding of a tree runs through all its messages and leaves
    the path and the depth as they were. *)
Lemma unpack_entry_rtc e v names k rest :
  good_entry e -> Forall plain_name names -> 0 <= k ->
  rtc (loop_next unpack_step) (at_state v names k (encode_entry e ++ rest))
    (at_state (see_files (entry_files names e) v) names k rest).
Proof.
  revert v names k rest.
  induction e as [n d|n es IH|n] using fs_entry_ind'; intros v names k rest Hg Hns Hk.
  - inversion_clear Hg. apply rtc_once. by apply unpack_step_file.
  - simpl. case_decide as Hd; [apply rtc_refl|].
    inversion_clear Hg as [|? ? Hn Hes|? ? ?|]; [|done].
    assert (Forall plain_name (names ++ [n])) as Hns' by (apply Forall_app; auto).
    eapply rtc_l; [simpl; rewrite <-app_assoc; apply unpack_step_dir; done|].
    trans (at_state
      (see_files (flat_map (entry_files (names ++ [n])) es) v) (names ++ [n]) (k + 1)
      (tag_byte Pop :: rest)); [|apply rtc_once; by apply unpack_step_pop].
    rewrite <-app_assoc. simpl.
    clear Hd. revert v. induction es as [|e es IHes]; intros v; simpl; [apply rtc_refl|].
    apply Forall_cons in IH as [IHe IH], Hes as [He Hes].
    rewrite <-app_assoc, fold_left_app. etrans; [|by apply IHes]. apply IHe; auto; lia.
  - apply rtc_refl.
Qed.

Lemma unpack_entries_rtc es v names k rest :
  Forall good_entry es -> Forall plain_name names -> 0 <= k ->
  rtc (loop_next unpack_step) (at_state v names k (encode es ++ rest))
    (at_state (see_files (flat_map (entry_files names) es) v) names k rest).
Proof.
  intros Hg Hns Hk. revert v. induction Hg as [|e es He Hes IH]; intros v; simpl; [apply rtc_refl|].
  rewrite <-app_assoc, fold_left_app. etrans; [|apply IH]. by apply unpack_entry_rtc.
Qed.

Lemma unpack_visits es v :
  Forall good_entry es -> unpack_visitor (encode es) v = Some (see_files (tree_files es) v, Ok tt).
Proof.
  intros Hg. unfold unpack_visitor.
  pose proof (unpack_entries_rtc es v [] 0 [] Hg (Forall_nil_2 _) ltac:(lia)) as Hr.
  rewrite app_nil_r in Hr. apply (loop_rtc _ unpack_measure unpack_decreases) in Hr.
  change {| us_cur := encode es; us_path := []; us_depth := 0; us_v := v |} with (at_state v [] 0 (encode es)).
  by rewrite Hr, loop_unfold by apply unpack_decreases.
Qed.
End unpack_steps.

(** ** Packing *)

Lemma visit_entry_dir `{PackFsVisitor V} n es (v : V) :
  visit_entry (FsDir n es) v =
    if decide (n = dot \/ n = dotdot) then Ok v
    else let? v := map_err (fun _ => OnDir) (on_dir v n) in
         let? v := visit_dirc_rec es v in
         map_err (fun _ => OnDir) (leave_dir v).
Proof.
  simpl. case_decide; [done|]. destruct (map_err _ (on_dir v n)) as [w| |]; simpl; [|done..].
  f_equal. revert w. induction es as [|e es IH]; intros w; simpl; [done|].
  destruct (visit_entry e w); simpl; auto.
Qed.

Lemma height_nonneg es : 0 <= height es.
Proof. induction es; simpl; lia. Qed.

Section sendfile.
Context (sendfile : bstr -> Z -> result Z (bstr * bstr)).

(** What sendfile(2) documents for a regular file: the transferred bytes are
    the next ones of the file, at most [count], and some when any is left. *)
Definition sendfile_spec : Prop :=
  forall input count, 0 < count -> exists sent rest,
    sendfile input count = Ok (sent, rest) /\ input = sent ++ rest /\
    zlen sent <= count /\ (input <> [] -> sent <> []).

Lemma sendfile_all_run out input len fuel :
  sendfile_spec -> 0 <= len <= zlen input -> (Z.to_nat len < fuel)%nat ->
  sendfile_all sendfile fuel out input len = Some (Ok (out ++ ztake len input)).
Proof.
  intros Hsf. unfold sendfile_all. revert out input len.
  induction fuel as [|fuel IH]; intros out input len Hlen Hfuel; [lia|]. simpl.
  destruct (Z.gtb_spec len 0) as [Hpos|Hz].
  - destruct (Hsf input len) as (sent & rest & -> & -> & Hle & Hne); [lia|].
    rewrite (proj2 (Z.leb_le _ _)) by done.
    assert (0 < zlen sent).
    { destruct sent as [|b sent]; [|len_lia]. exfalso. simpl in *.
      destruct rest; [change (zlen (@nil byte)) with 0 in Hlen; lia|]. by apply Hne. }
    rewrite zlen_app in Hlen.
    rewrite IH by lia. do 2 f_equal. rewrite <-app_assoc. f_equal.
    unfold ztake, zlen in *. rewrite take_app, (take_ge sent) by lia.
    do 2 f_equal. lia.
  - replace len with 0 by lia. by rewrite app_nil_r.
Qed.

#[local] Existing Instance PackFsToWriter_visitor.

Definition packed (e : fs_entry) : Prop := forall p : PackFsToWriter,
  good_entry e -> 0 <= pf_depth p -> pf_depth p + entry_height e <= MAX_DIR_DEPTH + 1 ->
  visit_entry (H := PackFsToWriter_visitor sendfile) e p =
    Ok {| pf_out := pf_out p ++ encode_entry e; pf_depth := pf_depth p |}.

Lemma pack_entries es (p : PackFsToWriter) :
  Forall packed es -> Forall good_entry es -> 0 <= pf_depth p ->
  pf_depth p + height es <= MAX_DIR_DEPTH + 1 ->
  visit_dirc_rec (H := PackFsToWriter_visitor sendfile) es p =
    Ok {| pf_out := pf_out p ++ encode es; pf_depth := pf_depth p |}.
Proof.
  revert p. induction es as [|e es IH]; intros p Hp Hg Hd Hh; simpl.
  - rewrite app_nil_r. by destruct p.
  - apply Forall_cons in Hp as [He Hp], Hg as [Hge Hg]. simpl in Hh.
    rewrite He by (auto; lia). simpl. rewrite IH by (auto; simpl; lia). simpl.
    by rewrite <-app_assoc.
Qed.

Lemma pack_entry e : sendfile_spec -> packed e.
Proof.
  intros Hsf. induction e as [n d|n es IH|n] using fs_entry_ind'; intros p Hg Hk Hh.
  - inversion_clear Hg as [? ? Hn Hd| | |]. simpl. unfold PackFs_on_file, file_size.
    rewrite try_into_id by done. simpl.
    rewrite sendfile_all_run; [|done|pose proof (zlen_nonneg d); lia|lia]. simpl.
    rewrite ztake_all. by app_eq.
  - rewrite visit_entry_dir. simpl in *. case_decide as Hd.
    { rewrite app_nil_r. by destruct p. }
    inversion_clear Hg as [|? ? Hn Hes|? ? ?|]; [|done].
    pose proof (height_nonneg es). fold (height es) in Hh.
    unfold PackFs_on_dir, PackFs_leave_dir.
    destruct (Z.gtb_spec (pf_depth p) MAX_DIR_DEPTH) as [|_]; [lia|]. simpl.
    rewrite pack_entries by (auto; simpl; lia). simpl.
    destruct (Z.eqb_spec (pf_depth p + 1) 0); [lia|]. simpl.
    do 2 f_equal; [|lia]. by app_eq.
  - simpl. rewrite app_nil_r. by destruct p.
Qed.
End sendfile.

(** ** Extraction *)

Lemma encode_head es :
  encode es <> [] -> exists t r, encode es = tag_byte t :: r /\ t <> Pop.
Proof.
  induction es as [|e es IH]; [done|]. simpl.
  destruct e as [n d|n l|n]; simpl; [by eexists File, _| |done].
  case_decide; [done|]. by eexists Dir, _.
Qed.

Section install_lemmas.
Context {F D H : Type} (ops : DirOps F D H).
Let run := loop (unpack_dir_step ops) unpack_dir_measure.

(** The continuation of an extraction after a successful prefix. *)
Definition then_run (r : F * result Error unit) (k : F -> option (F * result Error unit))
    : option (F * result Error unit) :=
  match r with (fs, Ok _) => k fs | r => Some r end.

Definition extracted (e : fs_entry) : Prop := forall d stack rest fs,
  good_entry e ->
  run (encode_entry e ++ rest, d :: stack, fs) =
    then_run (install_entry ops d e fs) (fun fs => run (rest, d :: stack, fs)).

Lemma run_unfold s :
  run s = match unpack_dir_step ops s with Again s' => run s' | Done r => Some r end.
Proof. apply loop_unfold, unpack_dir_decreases. Qed.

Lemma extract_entries es d stack rest fs :
  Forall extracted es -> Forall good_entry es ->
  run (encode es ++ rest, d :: stack, fs) =
    then_run (install ops d es fs) (fun fs => run (rest, d :: stack, fs)).
Proof.
  intros Hes Hg. revert fs. induction Hes as [|e es He Hes IH]; intros fs; [done|].
  apply Forall_cons in Hg as [Hge Hg]. simpl. rewrite <-app_assoc, He by done.
  destruct (install_entry ops d e fs) as [fs1 [[]|er|]]; simpl; [|done..].
  by rewrite <-IH.
Qed.

Lemma install_entry_dir d n es fs :
  ~ (n = dot \/ n = dotdot) ->
  install_entry ops d (FsDir n es) fs =
    match mkdirat ops fs d n with
    | Ok fs =>
        if decide (encode es = []) then (fs, Ok tt)
        else match openpathat ops fs d n with
             | Ok (fs, d') => install ops d' es fs
             | Err e => (fs, Err e)
             | Panic => (fs, Panic)
             end
    | Err e => (fs, Err e)
    | Panic => (fs, Panic)
    end.
Proof.
  intros Hn. simpl. rewrite decide_False by done.
  destruct (mkdirat ops fs d n) as [fs1| |]; [|done..].
  change (flat_map encode_entry es) with (encode es). case_decide; [done|].
  destruct (openpathat ops fs1 d n) as [[fs2 d']| |]; [|done..].
  clear. revert fs2. induction es as [|e es IH]; intros fs2; simpl; [done|].
  destruct (install_entry ops d' e fs2) as [fs3 [| |]]; auto.
Qed.

Lemma extract_entry e : extracted e.
Proof.
  induction e as [n data|n es IH|n] using fs_entry_ind'; intros d stack rest fs Hg.
  - inversion_clear Hg as [? ? Hn Hd| | |]. rewrite run_unfold.
    simpl. rewrite <-!app_assoc. simpl. rewrite read_cstr_name by done. simpl.
    rewrite read_le_u32_bytes, to_bytes_snoc by done. simpl.
    destruct (Z.gtb_spec (zlen data) (zlen (data ++ rest))) as [Hlt|_]; [len_lia|].
    rewrite ztake_app, zdrop_app.
    destruct (openat_w ops fs d n) as [[fs1 h]| |]; simpl; [|done..].
    by destruct (write_all ops fs1 h data).
  - destruct (decide (n = dot \/ n = dotdot)) as [Hd|Hd].
    { simpl. by rewrite !decide_True by done. }
    inversion_clear Hg as [|? ? Hn Hes|? ? ?|]; [|done].
    rewrite install_entry_dir, run_unfold by done. simpl.
    rewrite decide_False by done. app_norm.
    rewrite read_cstr_name by done. simpl. rewrite to_bytes_snoc.
    destruct (mkdirat ops fs d n) as [fs1| |]; simpl; [|done..].
    fold (encode es). case_decide as He; [by rewrite He|].
    destruct (encode_head es He) as (t & r & Her & Ht).
    rewrite Her. simpl. rewrite tag_of_tag_byte. destruct t; [| |done];
      (destruct (openpathat ops fs1 d n) as [[fs2 d']| |]; simpl; [|done..];
       rewrite app_comm_cons; rewrite Her in *; change (x01) with (tag_byte File);
       change (x02) with (tag_byte Dir); rewrite <-Her, extract_entries by done;
       destruct (install ops d' es fs2) as [fs3 [[]| |]]; simpl; [|done..];
       by rewrite run_unfold).
  - done.
Qed.
End install_lemmas.

(** ** Packing from memory: the calls a client makes for a tree *)

Inductive pm_call := CallFile (name data : bstr) | CallDir (name : bstr) | CallPop.

Fixpoint entry_calls (e : fs_entry) : list pm_call :=
  match e with
  | FsFile n d => [CallFile n d]
  | FsDir n es =>
      if decide (n = dot \/ n = dotdot) then []
      else CallDir n :: flat_map entry_calls es ++ [CallPop]
  | FsOther _ => []
  end.

Definition pm_step (p : PackMemToWriter) (c : pm_call) : result Error PackMemToWriter :=
  match c with
  | CallFile n d => PackMem.file p n d
  | CallDir n => PackMem.dir p n
  | CallPop => PackMem.pop p
  end.

Fixpoint pm_run (p : PackMemToWriter) (cs : list pm_call) : result Error PackMemToWriter :=
  match cs with [] => Ok p | c :: cs => let? p := pm_step p c in pm_run p cs end.

Lemma pm_run_app p cs ds : pm_run p (cs ++ ds) = let? p := pm_run p cs in pm_run p ds.
Proof.
  revert p. induction cs as [|c cs IH]; intros p; simpl; [done|].
  destruct (pm_step p c); simpl; auto.
Qed.

Definition pm_packed (e : fs_entry) : Prop := forall p,
  good_entry e -> 0 <= pm_depth p -> pm_depth p + entry_height e <= MAX_DIR_DEPTH + 1 ->
  pm_run p (entry_calls e) =
    Ok {| pm_out := pm_out p ++ encode_entry e; pm_depth := pm_depth p |}.

Lemma pm_pack_entries es p :
  Forall pm_packed es -> Forall good_entry es -> 0 <= pm_depth p ->
  pm_depth p + height es <= MAX_DIR_DEPTH + 1 ->
  pm_run p (flat_map entry_calls es) =
    Ok {| pm_out := pm_out p ++ encode es; pm_depth := pm_depth p |}.
Proof.
  revert p. induction es as [|e es IH]; intros p Hp Hg Hd Hh; simpl.
  - rewrite app_nil_r. by destruct p.
  - apply Forall_cons in Hp as [He Hp], Hg as [Hge Hg]. simpl in Hh.
    rewrite pm_run_app, He by (auto; lia). simpl. rewrite IH by (auto; simpl; lia). simpl.
    by rewrite <-app_assoc.
Qed.

Lemma pm_pack_entry e : pm_packed e.
Proof.
  induction e as [n d|n es IH|n] using fs_entry_ind'; intros p Hg Hk Hh.
  - inversion_clear Hg as [? ? Hn Hd| | |]. simpl. unfold PackMem.file.
    rewrite try_into_id by done. unfold PackMem.write_all. by app_eq.
  - simpl in *. case_decide as Hd.
    { rewrite app_nil_r. by destruct p. }
    inversion_clear Hg as [|? ? Hn Hes|? ? ?|]; [|done].
    pose proof (height_nonneg es). fold (height es) in Hh.
    simpl. unfold PackMem.dir, PackMem.write_all.
    destruct (Z.gtb_spec (pm_depth p) MAX_DIR_DEPTH) as [|_]; [lia|]. simpl.
    rewrite pm_run_app, pm_pack_entries by (auto; simpl; lia). simpl.
    unfold PackMem.pop, PackMem.write_all. simpl.
    destruct (Z.eqb_spec (pm_depth p + 1) 0); [lia|]. simpl.
    do 2 f_equal; [|lia]. by app_eq.
  - simpl. rewrite app_nil_r. by destruct p.
Qed.

(** ** Whole trees *)

Lemma pack_dir_encodes sendfile es :
  sendfile_spec sendfile -> Forall good_entry es -> height es <= MAX_DIR_DEPTH + 1 ->
  pack_dir_to_writer sendfile es = Ok (encode es).
Proof.
  intros Hsf Hg Hh. unfold pack_dir_to_writer.
  rewrite pack_entries; [done| |done|simpl; lia..].
  eapply Forall_impl; [exact Hg|]. intros e _. by apply pack_entry.
Qed.

Lemma unpack_hashmap_encode es :
  Forall good_entry es -> unpack_to_hashmap (encode es) = Ok (hashmap_of (tree_files es)).
Proof.
  intros Hg. unfold unpack_to_hashmap. by rewrite (unpack_visits (fun m path data => <[components path := data]> m)).
Qed.

Lemma unpack_dir_encode {F D H} (ops : DirOps F D H) es d fs :
  Forall good_entry es -> unpack_to_dir ops (encode es) d fs = Some (install ops d es fs).
Proof.
intros Hg. unfold unpack_to_dir.
  rewrite <-(app_nil_r (encode es)).
  rewrite (extract_entries ops es d [] [] fs);
    [|eapply Forall_impl; [exact Hg|]; intros e _; apply extract_entry|done].
  destruct (install ops d es fs) as [fs1 [[]| |]]; [|done..].
  simpl. by rewrite loop_unfold by apply unpack_dir_decreases.
Qed.

Lemma pm_encodes v es :
  Forall good_entry es -> height es <= MAX_DIR_DEPTH + 1 ->
  rmap PackMem.into_inner (pm_run (PackMem.with_vec v) (flat_map entry_calls es)) =
    Ok (v ++ encode es).
Proof.
intros Hg Hh. rewrite pm_pack_entries; [done| |done|simpl; lia..].
  eapply Forall_impl; [exact Hg|]. intros e _. apply pm_pack_entry.
Qed.

(** * Properties *)

(** C7: packing a directory tree and unpacking the archive into a map gives
    exactly the tree's regular files, keyed by their relative paths.  The names
    are those a directory can hold (at most 255 bytes, no NUL or slash), file
    sizes fit 32 bits, directories nest at most 33 deep, and [sendfile]
    behaves as documented. *)
Theorem unpack_pack_roundtrip sendfile es :
  sendfile_spec sendfile -> Forall good_entry es -> height es <= MAX_DIR_DEPTH + 1 ->
  exists archive, pack_dir_to_writer sendfile es = Ok archive /\
    unpack_to_hashmap archive = Ok (hashmap_of (tree_files es)).
Proof.
  intros Hsf Hg Hh. exists (encode es).
  split; [by apply pack_dir_encodes | by apply unpack_hashmap_encode].
Qed.

Definition example_tree : list fs_entry :=
  [FsDir dot []; FsFile [x61] [x68; x69];
   FsDir [x62] [FsFile [x63] []; FsDir [x64] []; FsOther [x65]]].

(** The whole transfer in one call. *)
Definition sendfile_whole (input : bstr) (count : Z) : result Z (bstr * bstr) :=
  Ok (ztake count input, zdrop count input).

Lemma sendfile_whole_spec : sendfile_spec sendfile_whole.
Proof.
  intros input count Hc. unfold sendfile_whole. do 2 eexists. split_and!; [done|..].
  - by rewrite ztake_zdrop.
  - unfold ztake. rewrite zlen_take. lia.
  - intros Hne. unfold ztake. destruct input; [done|].
    destruct (Z.to_nat count) eqn:E; [lia|done].
Qed.

Lemma good_name_dec_list n :
  bool_decide (n <> [] /\ (slash ∉ n) /\ n <> dot /\ n <> dotdot /\ (x00 ∉ n)
               /\ (length n <= MAX_NAME_LEN)%nat) = true -> good_name n.
Proof. intros H%bool_decide_eq_true. unfold good_name, plain_name. naive_solver. Qed.

Lemma example_tree_good : Forall good_entry example_tree.
Proof.
  repeat first
    [ apply good_other | apply good_dots; by left
    | apply good_file; [by apply good_name_dec_list | split; vm_compute; congruence]
    | apply good_dir; [by apply good_name_dec_list |] | constructor ].
Qed.

Lemma unpack_pack_roundtrip_witness :
  exists archive, pack_dir_to_writer sendfile_whole example_tree = Ok archive /\
    unpack_to_hashmap archive = Ok (hashmap_of (tree_files example_tree)).
Proof.
  apply (unpack_pack_roundtrip sendfile_whole example_tree).
  - exact sendfile_whole_spec.
  - exact example_tree_good.
  - vm_compute. congruence.
Defined.

(** C8: extracting a packed tree into a directory performs exactly the tree's
    directory operations, in order, whatever file system they act on: every
    directory is created, opened only when something is stored in it, every
    file is opened and written with its data, and the first failing operation
    ends the extraction with its error and the file system reached so far. *)
Theorem unpack_to_dir_installs {F D H} (ops : DirOps F D H) es d fs :
  Forall good_entry es -> unpack_to_dir ops (encode es) d fs = Some (install ops d es fs).
Proof.
  apply unpack_dir_encode.
Qed.

(** A log of the operations as the file system. *)
Definition log_ops : DirOps (list (bstr * bstr)) bstr bstr := {|
  op_openat_w fs d n := Ok (fs, path_push d n);
  op_write_all fs h data := Ok (fs ++ [(h, data)]);
  op_mkdirat fs d n := Ok (fs ++ [(path_push d n, [slash])]);
  op_openpathat fs d n := Ok (fs, path_push d n);
|}.

Lemma unpack_to_dir_installs_witness :
  unpack_to_dir log_ops (encode example_tree) [] [] =
    Some (install log_ops [] example_tree []).
Proof.
  apply (unpack_to_dir_installs log_ops example_tree [] []). exact example_tree_good.
Defined.

(** A client of [PackMemToVec] that describes a tree with [file], [dir] and
    [pop] calls appends the same encoding to its vector and ends at the depth
    it started from. *)
Theorem pack_mem_encodes v es :
  Forall good_entry es -> height es <= MAX_DIR_DEPTH + 1 ->
  rmap PackMem.into_inner (pm_run (PackMem.with_vec v) (flat_map entry_calls es)) =
    Ok (v ++ encode es).
Proof.
  apply pm_encodes.
Qed.

Lemma pack_mem_encodes_witness :
  rmap PackMem.into_inner
    (pm_run (PackMem.with_vec [x2a]) (flat_map entry_calls example_tree)) =
    Ok ([x2a] ++ encode example_tree).
Proof.
  apply (pack_mem_encodes [x2a] example_tree);
    [exact example_tree_good | vm_compute; congruence].
Defined.

(** On every byte string both readers end, within one iteration per byte,
    and return a value: no input makes them loop or panic. *)
Theorem unpack_total `{UnpackVisitor V} {F D H'} (ops : DirOps F D H') data (v : V) d fs :
  (exists v' r, unpack_visitor data v = Some (v', r) /\ r <> Panic) /\
  (exists fs' r, unpack_to_dir ops data d fs = Some (fs', r)).
Proof.
  split.
  - unfold unpack_visitor.
    destruct (loop_total _ _ unpack_decreases
      {| us_cur := data; us_path := []; us_depth := 0; us_v := v |}) as [[v' r] Hr].
    exists v', r. split; [done|]. revert Hr.
    apply (run_loop_inv unpack_step (fun _ => True) (fun x => x.2 <> Panic)); [done| |done].
    intros s [v1 r1] _. unfold unpack_step. destruct (us_cur s) as [|b cur].
    { intros [= <- <-]. simpl. by destruct (us_depth s =? 0). }
    destruct (tag_of_byte b) as [[]|]; [| | |by intros [= <- <-]].
    + destruct (rbind (read_cstr cur) _) as [[[n len] c]|e|] eqn:E.
      * destruct (visit_file _ _ _) as [[] v2]; [done|]. by intros [= <- <-].
      * by intros [= <- <-].
      * exfalso. revert E. unfold read_cstr, read_le_u32, rbind, ok_or.
        repeat case_match; done.
    + unfold read_cstr. repeat case_match; intros; simplify_eq; done.
    + case_match; intros; simplify_eq; done.
  - destruct (loop_total _ _ (unpack_dir_decreases ops) (data, [d], fs)) as [[fs' r] Hr].
    by exists fs', r.
Qed.

(** The length loop of [sendfile_all] copies the announced number of bytes
    when the file has them; when the file has become shorter, [sendfile]
    reports 0 at the end of the file and the loop never ends. *)
Theorem sendfile_all_behaviour sendfile out input len :
  sendfile_spec sendfile -> 0 <= len ->
  (len <= zlen input ->
   sendfile_all sendfile (S (Z.to_nat len)) out input len = Some (Ok (out ++ ztake len input))) /\
  (zlen input < len -> forall fuel, sendfile_all sendfile fuel out input len = None).
Proof.
  intros Hsf Hlen. split; [intros; apply sendfile_all_run; auto; lia|].
  intros Hshort fuel. unfold sendfile_all. revert out input len Hlen Hshort.
  induction fuel as [|fuel IH]; intros out input len Hlen Hshort; simpl; [done|].
  destruct (Z.gtb_spec len 0) as [Hpos|]; [|len_lia].
  destruct (Hsf input len Hpos) as (sent & rest & -> & -> & Hle & _).
  rewrite (proj2 (Z.leb_le _ _)) by done. rewrite zlen_app in Hshort.
  apply IH; len_lia.
Qed.

Lemma sendfile_all_behaviour_witness :
  (3 <= zlen [x01; x02; x03] ->
   sendfile_all sendfile_whole 4 [] [x01; x02; x03] 3 = Some (Ok ([] ++ [x01; x02; x03]))) /\
  (zlen [x01; x02; x03] < 3 ->
   forall fuel, sendfile_all sendfile_whole fuel [] [x01; x02; x03] 3 = None).
Proof.
  apply (sendfile_all_behaviour sendfile_whole [] [x01; x02; x03] 3);
    [exact sendfile_whole_spec | lia].
Defined.

(** [read_cstr] starts its search for the terminator at the second byte:
    an archive whose stored name starts with NUL is accepted and yields a
    [CStr] with an interior NUL, although the function builds it with
    [from_bytes_with_nul_unchecked], whose contract excludes that. *)
Theorem read_cstr_interior_nul n rest :
  (x00 ∉ n) -> (length n < MAX_NAME_LEN)%nat ->
  read_cstr (x00 :: n ++ x00 :: rest) = Ok (x00 :: n ++ [x00], rest).
Proof.
  apply read_cstr_scan.
Qed.

Lemma read_cstr_interior_nul_witness :
  read_cstr [x00; x61; x00; x62] = Ok ([x00; x61; x00], [x62]).
Proof.
  apply (read_cstr_interior_nul [x61] [x62]).
  - apply (bool_decide_eq_true_1 _). reflexivity.
  - vm_compute. lia.
Defined.

(** An archive that ends right after the name of a directory is truncated;
    [unpack_visitor] reports that, [unpack_to_dir] accepts it: the directory is
    made, its closing pop is never missed. *)
Theorem unpack_dir_truncated `{UnpackVisitor V} {F D H'} (ops : DirOps F D H') n (v : V) d fs fs' :
  good_name n -> op_mkdirat ops fs d n = Ok fs' ->
  let archive := tag_byte Dir :: n ++ [x00] in
  unpack_visitor archive v = Some (v, Err ArchiveTruncated) /\
  unpack_to_dir ops archive d fs = Some (fs', Ok tt).
Proof.
  intros Hn Hm archive. subst archive. split.
  - unfold unpack_visitor. rewrite loop_unfold by apply unpack_decreases.
    unfold unpack_step at 1. simpl. rewrite read_cstr_name by done.
    by rewrite loop_unfold by apply unpack_decreases.
  - unfold unpack_to_dir. rewrite loop_unfold by apply unpack_dir_decreases.
    unfold unpack_dir_step at 1. simpl. rewrite read_cstr_name by done. simpl.
    unfold mkdirat. rewrite to_bytes_snoc, Hm. simpl.
    by rewrite loop_unfold by apply unpack_dir_decreases.
Qed.

Lemma unpack_dir_truncated_witness :
  unpack_visitor [x02; x61; x00] (∅ : path_map) = Some (∅, Err ArchiveTruncated) /\
  unpack_to_dir log_ops [x02; x61; x00] [] [] = Some ([([x61], [slash])], Ok tt).
Proof.
  apply (unpack_dir_truncated log_ops [x61] (∅ : path_map) [] [] [([x61], [slash])]);
    [by apply good_name_dec_list | reflexivity].
Defined.
