(* ===== verification/ErofsDisk.v ===== *)
(** Reading an erofs image (src/peerofs/src/disk.rs, src/peerofs/src/decompressor.rs).

    The on-disk structs with their byte layout (zerocopy's [try_ref_from_prefix]
    and [as_bytes] on [repr(C)] structs of little-endian, byte-aligned fields),
    the accessors of [Inode], the iterators over directory entries and extended
    attributes, and the operations of [Erofs]: inodes, data, symlinks, xattrs,
    compressed data and path lookup.  An image is the list of its bytes; offsets
    are 64-bit and wrap.  [rustix::fs::FileType] and the lz4 decompressor are
    not part of the repository and are parameters. *)
From stdpp Require Import option base list numbers strings.
From Stdlib Require Import ZArith Lia.
From S2P Require Import Prelude BTree Paths.
#[local] Open Scope Z_scope.
#[local] Open Scope result_scope.

(** * Plain structs *)

(** Reading an [n]-byte little-endian integer, or [n] raw bytes, from a prefix. *)
Definition r_int (n : nat) (d : list byte) : option (Z * list byte) :=
  if Nat.leb n (length d) then Some (le_val (take n d), drop n d) else None.
Definition r_bytes (n : nat) (d : list byte) : option (list byte * list byte) :=
  if Nat.leb n (length d) then Some (take n d, drop n d) else None.

Definition int_ok (n : nat) (z : Z) : Prop := 0 <= z < 256 ^ Z.of_nat n.
Definition bytes_ok (n : nat) (l : list byte) : Prop := length l = n.

(** A struct with a fixed layout: its size, the read of a prefix, its bytes and
    the ranges of its fields. *)
Class Pod (T : Type) := {
  size_of : Z;
  try_read_from_prefix : list byte -> option (T * list byte);
  as_bytes : T -> list byte;
  pod_ok : T -> Prop;
}.
#[global] Arguments size_of T {_}.

(** What a layout promises: reading undoes writing, what is read is in range
    and was written by these bytes, and a read succeeds exactly when the size
    is available. *)
Class PodLaws (T : Type) `{Pod T} := {
  pod_read_as_bytes (x : T) d : pod_ok x -> try_read_from_prefix (as_bytes x ++ d) = Some (x, d);
  pod_read_inv d (x : T) d' :
    try_read_from_prefix d = Some (x, d') -> pod_ok x /\ d = as_bytes x ++ d';
  pod_as_bytes_length (x : T) : pod_ok x -> zlen (as_bytes x) = size_of T;
  pod_read_defined d : size_of T <= zlen d -> is_Some (try_read_from_prefix (T := T) d);
}.

(** ** The structs of the format *)

Record Superblock := {
  magic : Z;
  checksum : Z;
  feature_compat : Z;
  blkszbits : Z;
  sb_extslots : Z;
  root_disk_id : Z;
  inos : Z;
  build_time : Z;
  build_time_nsec : Z;
  blocks : Z;
  meta_blkaddr : Z;
  xattr_blkaddr : Z;
  uuid : list byte;
  volume_name : list byte;
  feature_incompat : Z;
  available_compr_algs_or_lz4_max_distance : Z;
  extra_devices : Z;
  devt_slotoff : Z;
  dirblkbits : Z;
  xattr_prefix_count : Z;
  xattr_prefix_start : Z;
  packed_nid : Z;
  xattr_filter_reserved : Z;
  sb_reserved2 : list byte;
}.

(** [InodeInfo] keeps the union of the C struct as its four bytes. *)
Record InodeInfo := { info_data : list byte }.

Record InodeCompact := {
  ic_format_layout : Z;
  ic_xattr_count : Z;
  ic_mode : Z;
  ic_nlink : Z;
  ic_size : Z;
  ic_reserved : Z;
  ic_info : InodeInfo;
  ic_ino : Z;
  ic_uid : Z;
  ic_gid : Z;
  ic_reserved2 : Z;
}.

Record InodeExtended := {
  ie_format_layout : Z;
  ie_xattr_count : Z;
  ie_mode : Z;
  ie_reserved : Z;
  ie_size : Z;
  ie_info : InodeInfo;
  ie_ino : Z;
  ie_uid : Z;
  ie_gid : Z;
  ie_mtime : Z;
  ie_mtime_nsec : Z;
  ie_nlink : Z;
  ie_reserved2 : list byte;
}.

Record XattrHeader := { name_filter : Z; shared_count : Z; xh_reserved : list byte }.
Record XattrEntry := { name_len : Z; name_index : Z; value_size : Z }.
Record Dirent := { de_disk_id : Z; name_offset : Z; de_file_type : Z; de_reserved : Z }.
Record MapHeader := {
  fragment_offset_or_data_size : Z;
  mh_config : Z;
  mh_algorithm : Z;
  cluster_bits : Z;
}.
Record LogicalClusterIndex := {
  advise : Z;
  lci_cluster_offset : Z;
  block_addr_or_delta : list byte;
}.

#[export] Instance Superblock_pod : Pod Superblock := {
  size_of := 128;
  try_read_from_prefix d :=
    '(magic, d) ← r_int 4 d; '(checksum, d) ← r_int 4 d; '(feature_compat, d) ← r_int 4 d;
    '(blkszbits, d) ← r_int 1 d; '(sb_extslots, d) ← r_int 1 d; '(root_disk_id, d) ← r_int 2 d;
    '(inos, d) ← r_int 8 d; '(build_time, d) ← r_int 8 d; '(build_time_nsec, d) ← r_int 4 d;
    '(blocks, d) ← r_int 4 d; '(meta_blkaddr, d) ← r_int 4 d; '(xattr_blkaddr, d) ← r_int 4 d;
    '(uuid, d) ← r_bytes 16 d; '(volume_name, d) ← r_bytes 16 d;
    '(feature_incompat, d) ← r_int 4 d; '(algs, d) ← r_int 2 d;
    '(extra_devices, d) ← r_int 2 d; '(devt_slotoff, d) ← r_int 2 d;
    '(dirblkbits, d) ← r_int 1 d; '(xattr_prefix_count, d) ← r_int 1 d;
    '(xattr_prefix_start, d) ← r_int 4 d; '(packed_nid, d) ← r_int 8 d;
    '(filter, d) ← r_int 1 d; '(reserved2, d) ← r_bytes 23 d;
    Some ({| magic := magic; checksum := checksum; feature_compat := feature_compat;
             blkszbits := blkszbits; sb_extslots := sb_extslots; root_disk_id := root_disk_id;
             inos := inos; build_time := build_time; build_time_nsec := build_time_nsec;
             blocks := blocks; meta_blkaddr := meta_blkaddr; xattr_blkaddr := xattr_blkaddr;
             uuid := uuid; volume_name := volume_name; feature_incompat := feature_incompat;
             available_compr_algs_or_lz4_max_distance := algs;
             extra_devices := extra_devices; devt_slotoff := devt_slotoff;
             dirblkbits := dirblkbits; xattr_prefix_count := xattr_prefix_count;
             xattr_prefix_start := xattr_prefix_start; packed_nid := packed_nid;
             xattr_filter_reserved := filter; sb_reserved2 := reserved2 |}, d);
  as_bytes s :=
    le_bytes 4 (magic s) ++ le_bytes 4 (checksum s) ++ le_bytes 4 (feature_compat s) ++
    le_bytes 1 (blkszbits s) ++ le_bytes 1 (sb_extslots s) ++ le_bytes 2 (root_disk_id s) ++
    le_bytes 8 (inos s) ++ le_bytes 8 (build_time s) ++ le_bytes 4 (build_time_nsec s) ++
    le_bytes 4 (blocks s) ++ le_bytes 4 (meta_blkaddr s) ++ le_bytes 4 (xattr_blkaddr s) ++
    uuid s ++ volume_name s ++ le_bytes 4 (feature_incompat s) ++
    le_bytes 2 (available_compr_algs_or_lz4_max_distance s) ++
    le_bytes 2 (extra_devices s) ++ le_bytes 2 (devt_slotoff s) ++
    le_bytes 1 (dirblkbits s) ++ le_bytes 1 (xattr_prefix_count s) ++
    le_bytes 4 (xattr_prefix_start s) ++ le_bytes 8 (packed_nid s) ++
    le_bytes 1 (xattr_filter_reserved s) ++ sb_reserved2 s;
  pod_ok s :=
    int_ok 4 (magic s) /\ int_ok 4 (checksum s) /\ int_ok 4 (feature_compat s) /\
    int_ok 1 (blkszbits s) /\ int_ok 1 (sb_extslots s) /\ int_ok 2 (root_disk_id s) /\
    int_ok 8 (inos s) /\ int_ok 8 (build_time s) /\ int_ok 4 (build_time_nsec s) /\
    int_ok 4 (blocks s) /\ int_ok 4 (meta_blkaddr s) /\ int_ok 4 (xattr_blkaddr s) /\
    bytes_ok 16 (uuid s) /\ bytes_ok 16 (volume_name s) /\ int_ok 4 (feature_incompat s) /\
    int_ok 2 (available_compr_algs_or_lz4_max_distance s) /\
    int_ok 2 (extra_devices s) /\ int_ok 2 (devt_slotoff s) /\
    int_ok 1 (dirblkbits s) /\ int_ok 1 (xattr_prefix_count s) /\
    int_ok 4 (xattr_prefix_start s) /\ int_ok 8 (packed_nid s) /\
    int_ok 1 (xattr_filter_reserved s) /\ bytes_ok 23 (sb_reserved2 s);
}.

#[export] Instance InodeCompact_pod : Pod InodeCompact := {
  size_of := 32;
  try_read_from_prefix d :=
    '(format_layout, d) ← r_int 2 d; '(xattr_count, d) ← r_int 2 d; '(mode, d) ← r_int 2 d;
    '(nlink, d) ← r_int 2 d; '(size, d) ← r_int 4 d; '(reserved, d) ← r_int 4 d;
    '(info, d) ← r_bytes 4 d; '(ino, d) ← r_int 4 d; '(uid, d) ← r_int 2 d;
    '(gid, d) ← r_int 2 d; '(reserved2, d) ← r_int 4 d;
    Some ({| ic_format_layout := format_layout; ic_xattr_count := xattr_count; ic_mode := mode;
             ic_nlink := nlink; ic_size := size; ic_reserved := reserved;
             ic_info := {| info_data := info |}; ic_ino := ino; ic_uid := uid; ic_gid := gid;
             ic_reserved2 := reserved2 |}, d);
  as_bytes i :=
    le_bytes 2 (ic_format_layout i) ++ le_bytes 2 (ic_xattr_count i) ++ le_bytes 2 (ic_mode i) ++
    le_bytes 2 (ic_nlink i) ++ le_bytes 4 (ic_size i) ++ le_bytes 4 (ic_reserved i) ++
    info_data (ic_info i) ++ le_bytes 4 (ic_ino i) ++ le_bytes 2 (ic_uid i) ++
    le_bytes 2 (ic_gid i) ++ le_bytes 4 (ic_reserved2 i);
  pod_ok i :=
    int_ok 2 (ic_format_layout i) /\ int_ok 2 (ic_xattr_count i) /\ int_ok 2 (ic_mode i) /\
    int_ok 2 (ic_nlink i) /\ int_ok 4 (ic_size i) /\ int_ok 4 (ic_reserved i) /\
    bytes_ok 4 (info_data (ic_info i)) /\ int_ok 4 (ic_ino i) /\ int_ok 2 (ic_uid i) /\
    int_ok 2 (ic_gid i) /\ int_ok 4 (ic_reserved2 i);
}.

#[export] Instance InodeExtended_pod : Pod InodeExtended := {
  size_of := 64;
  try_read_from_prefix d :=
    '(format_layout, d) ← r_int 2 d; '(xattr_count, d) ← r_int 2 d; '(mode, d) ← r_int 2 d;
    '(reserved, d) ← r_int 2 d; '(size, d) ← r_int 8 d; '(info, d) ← r_bytes 4 d;
    '(ino, d) ← r_int 4 d; '(uid, d) ← r_int 4 d; '(gid, d) ← r_int 4 d;
    '(mtime, d) ← r_int 8 d; '(mtime_nsec, d) ← r_int 4 d; '(nlink, d) ← r_int 4 d;
    '(reserved2, d) ← r_bytes 16 d;
    Some ({| ie_format_layout := format_layout; ie_xattr_count := xattr_count; ie_mode := mode;
             ie_reserved := reserved; ie_size := size; ie_info := {| info_data := info |};
             ie_ino := ino; ie_uid := uid; ie_gid := gid; ie_mtime := mtime;
             ie_mtime_nsec := mtime_nsec; ie_nlink := nlink; ie_reserved2 := reserved2 |}, d);
  as_bytes i :=
    le_bytes 2 (ie_format_layout i) ++ le_bytes 2 (ie_xattr_count i) ++ le_bytes 2 (ie_mode i) ++
    le_bytes 2 (ie_reserved i) ++ le_bytes 8 (ie_size i) ++ info_data (ie_info i) ++
    le_bytes 4 (ie_ino i) ++ le_bytes 4 (ie_uid i) ++ le_bytes 4 (ie_gid i) ++
    le_bytes 8 (ie_mtime i) ++ le_bytes 4 (ie_mtime_nsec i) ++ le_bytes 4 (ie_nlink i) ++
    ie_reserved2 i;
  pod_ok i :=
    int_ok 2 (ie_format_layout i) /\ int_ok 2 (ie_xattr_count i) /\ int_ok 2 (ie_mode i) /\
    int_ok 2 (ie_reserved i) /\ int_ok 8 (ie_size i) /\ bytes_ok 4 (info_data (ie_info i)) /\
    int_ok 4 (ie_ino i) /\ int_ok 4 (ie_uid i) /\ int_ok 4 (ie_gid i) /\
    int_ok 8 (ie_mtime i) /\ int_ok 4 (ie_mtime_nsec i) /\ int_ok 4 (ie_nlink i) /\
    bytes_ok 16 (ie_reserved2 i);
}.

#[export] Instance XattrHeader_pod : Pod XattrHeader := {
  size_of := 12;
  try_read_from_prefix d :=
    '(name_filter, d) ← r_int 4 d; '(shared_count, d) ← r_int 1 d; '(reserved, d) ← r_bytes 7 d;
    Some ({| name_filter := name_filter; shared_count := shared_count; xh_reserved := reserved |}, d);
  as_bytes h := le_bytes 4 (name_filter h) ++ le_bytes 1 (shared_count h) ++ xh_reserved h;
  pod_ok h :=
    int_ok 4 (name_filter h) /\ int_ok 1 (shared_count h) /\ bytes_ok 7 (xh_reserved h);
}.

#[export] Instance XattrEntry_pod : Pod XattrEntry := {
  size_of := 4;
  try_read_from_prefix d :=
    '(name_len, d) ← r_int 1 d; '(name_index, d) ← r_int 1 d; '(value_size, d) ← r_int 2 d;
    Some ({| name_len := name_len; name_index := name_index; value_size := value_size |}, d);
  as_bytes e := le_bytes 1 (name_len e) ++ le_bytes 1 (name_index e) ++ le_bytes 2 (value_size e);
  pod_ok e := int_ok 1 (name_len e) /\ int_ok 1 (name_index e) /\ int_ok 2 (value_size e);
}.

#[export] Instance Dirent_pod : Pod Dirent := {
  size_of := 12;
  try_read_from_prefix d :=
    '(disk_id, d) ← r_int 8 d; '(name_offset, d) ← r_int 2 d; '(file_type, d) ← r_int 1 d;
    '(reserved, d) ← r_int 1 d;
    Some ({| de_disk_id := disk_id; name_offset := name_offset; de_file_type := file_type;
             de_reserved := reserved |}, d);
  as_bytes e :=
    le_bytes 8 (de_disk_id e) ++ le_bytes 2 (name_offset e) ++ le_bytes 1 (de_file_type e) ++
    le_bytes 1 (de_reserved e);
  pod_ok e :=
    int_ok 8 (de_disk_id e) /\ int_ok 2 (name_offset e) /\ int_ok 1 (de_file_type e) /\
    int_ok 1 (de_reserved e);
}.

#[export] Instance MapHeader_pod : Pod MapHeader := {
  size_of := 8;
  try_read_from_prefix d :=
    '(frag, d) ← r_int 4 d; '(config, d) ← r_int 2 d; '(algorithm, d) ← r_int 1 d;
    '(cluster_bits, d) ← r_int 1 d;
    Some ({| fragment_offset_or_data_size := frag; mh_config := config;
             mh_algorithm := algorithm; cluster_bits := cluster_bits |}, d);
  as_bytes h :=
    le_bytes 4 (fragment_offset_or_data_size h) ++ le_bytes 2 (mh_config h) ++
    le_bytes 1 (mh_algorithm h) ++ le_bytes 1 (cluster_bits h);
  pod_ok h :=
    int_ok 4 (fragment_offset_or_data_size h) /\ int_ok 2 (mh_config h) /\
    int_ok 1 (mh_algorithm h) /\ int_ok 1 (cluster_bits h);
}.

#[export] Instance LogicalClusterIndex_pod : Pod LogicalClusterIndex := {
  size_of := 8;
  try_read_from_prefix d :=
    '(advise, d) ← r_int 2 d; '(cluster_offset, d) ← r_int 2 d; '(buf, d) ← r_bytes 4 d;
    Some ({| advise := advise; lci_cluster_offset := cluster_offset;
             block_addr_or_delta := buf |}, d);
  as_bytes l := le_bytes 2 (advise l) ++ le_bytes 2 (lci_cluster_offset l) ++ block_addr_or_delta l;
  pod_ok l :=
    int_ok 2 (advise l) /\ int_ok 2 (lci_cluster_offset l) /\ bytes_ok 4 (block_addr_or_delta l);
}.

(** The structs of the chunk format and of the compression configurations. *)
Record ChunkInfo := { ck_format : Z; ck_reserved : Z }.
Record MapDataSize := { md_reserved : Z; md_data_size : Z }.
Record Lz4CompressionConfig := { max_distance : Z; max_pcluster_blocks : Z; lz4_reserved : list byte }.
Record LzmaCompressionConfig := { dict_size : Z; lzma_format : Z; lzma_reserved : list byte }.
Record DeflateCompressionConfig := { window_bits : Z; deflate_reserved : list byte }.
Record ZstdCompressionConfig := { zstd_format : Z; window_log : Z; zstd_reserved : list byte }.

#[export] Instance ChunkInfo_pod : Pod ChunkInfo := {
  size_of := 4;
  try_read_from_prefix d :=
    '(format, d) ← r_int 2 d; '(reserved, d) ← r_int 2 d; Some ({| ck_format := format; ck_reserved := reserved |}, d);
  as_bytes c := le_bytes 2 (ck_format c) ++ le_bytes 2 (ck_reserved c);
  pod_ok c := int_ok 2 (ck_format c) /\ int_ok 2 (ck_reserved c);
}.

#[export] Instance MapDataSize_pod : Pod MapDataSize := {
  size_of := 4;
  try_read_from_prefix d :=
    '(reserved, d) ← r_int 2 d; '(data_size, d) ← r_int 2 d;
    Some ({| md_reserved := reserved; md_data_size := data_size |}, d);
  as_bytes c := le_bytes 2 (md_reserved c) ++ le_bytes 2 (md_data_size c);
  pod_ok c := int_ok 2 (md_reserved c) /\ int_ok 2 (md_data_size c);
}.

#[export] Instance Lz4CompressionConfig_pod : Pod Lz4CompressionConfig := {
  size_of := 14;
  try_read_from_prefix d :=
    '(distance, d) ← r_int 2 d; '(blocks, d) ← r_int 2 d; '(reserved, d) ← r_bytes 10 d;
    Some ({| max_distance := distance; max_pcluster_blocks := blocks; lz4_reserved := reserved |}, d);
  as_bytes c := le_bytes 2 (max_distance c) ++ le_bytes 2 (max_pcluster_blocks c) ++ lz4_reserved c;
  pod_ok c := int_ok 2 (max_distance c) /\ int_ok 2 (max_pcluster_blocks c) /\ bytes_ok 10 (lz4_reserved c);
}.

#[export] Instance LzmaCompressionConfig_pod : Pod LzmaCompressionConfig := {
  size_of := 14;
  try_read_from_prefix d :=
    '(dict, d) ← r_int 4 d; '(format, d) ← r_int 2 d; '(reserved, d) ← r_bytes 8 d;
    Some ({| dict_size := dict; lzma_format := format; lzma_reserved := reserved |}, d);
  as_bytes c := le_bytes 4 (dict_size c) ++ le_bytes 2 (lzma_format c) ++ lzma_reserved c;
  pod_ok c := int_ok 4 (dict_size c) /\ int_ok 2 (lzma_format c) /\ bytes_ok 8 (lzma_reserved c);
}.

#[export] Instance DeflateCompressionConfig_pod : Pod DeflateCompressionConfig := {
  size_of := 6;
  try_read_from_prefix d :=
    '(bits, d) ← r_int 1 d; '(reserved, d) ← r_bytes 5 d;
    Some ({| window_bits := bits; deflate_reserved := reserved |}, d);
  as_bytes c := le_bytes 1 (window_bits c) ++ deflate_reserved c;
  pod_ok c := int_ok 1 (window_bits c) /\ bytes_ok 5 (deflate_reserved c);
}.

#[export] Instance ZstdCompressionConfig_pod : Pod ZstdCompressionConfig := {
  size_of := 6;
  try_read_from_prefix d :=
    '(format, d) ← r_int 1 d; '(log, d) ← r_int 1 d; '(reserved, d) ← r_bytes 4 d;
    Some ({| zstd_format := format; window_log := log; zstd_reserved := reserved |}, d);
  as_bytes c := le_bytes 1 (zstd_format c) ++ le_bytes 1 (window_log c) ++ zstd_reserved c;
  pod_ok c := int_ok 1 (zstd_format c) /\ int_ok 1 (window_log c) /\ bytes_ok 4 (zstd_reserved c);
}.

(** ** The layouts satisfy their laws *)

Lemma r_int_le n z d : int_ok n z -> r_int n (le_bytes n z ++ d) = Some (z, d).
Proof.
  intros Hz. unfold r_int. rewrite length_app, length_le_bytes.
  rewrite (proj2 (Nat.leb_le _ _)) by lia.
  rewrite take_app_length' by (by rewrite length_le_bytes).
  rewrite drop_app_length' by (by rewrite length_le_bytes).
  by rewrite le_val_bytes.
Qed.

Lemma r_bytes_app n l d : bytes_ok n l -> r_bytes n (l ++ d) = Some (l, d).
Proof.
  intros Hl. unfold r_bytes, bytes_ok in *. rewrite length_app.
  rewrite (proj2 (Nat.leb_le _ _)) by lia.
  by rewrite take_app_length', drop_app_length' by done.
Qed.

Lemma r_int_inv n d z d' : r_int n d = Some (z, d') -> int_ok n z /\ d = le_bytes n z ++ d'.
Proof.
  unfold r_int. destruct (Nat.leb_spec n (length d)); [|done]. intros [= <- <-].
  pose proof (le_val_range (take n d)) as Hr. rewrite zlen_take in Hr.
  unfold zlen in Hr. rewrite Z.min_l in Hr by lia. split; [done|].
  rewrite <-(take_drop n d) at 1. f_equal.
  rewrite <-(le_bytes_val (take n d)) at 1. by rewrite length_take_le.
Qed.

Lemma r_bytes_inv n d l d' : r_bytes n d = Some (l, d') -> bytes_ok n l /\ d = l ++ d'.
Proof.
  unfold r_bytes. destruct (Nat.leb_spec n (length d)); [|done]. intros [= <- <-].
  split; [by apply length_take_le | by rewrite take_drop].
Qed.

Lemma r_int_defined n d : Z.of_nat n <= zlen d -> exists z, r_int n d = Some (z, drop n d).
Proof.
  unfold r_int, zlen. intros. rewrite (proj2 (Nat.leb_le _ _)) by lia. eauto.
Qed.

Lemma r_bytes_defined n d : Z.of_nat n <= zlen d -> r_bytes n d = Some (take n d, drop n d).
Proof. unfold r_bytes, zlen. intros. by rewrite (proj2 (Nat.leb_le _ _)) by lia. Qed.

Lemma zlen_drop_nat {A} n (d : list A) : Z.of_nat n <= zlen d -> zlen (drop n d) = zlen d - Z.of_nat n.
Proof. unfold zlen. rewrite length_drop. lia. Qed.

#[global] Arguments r_int : simpl never.
#[global] Arguments r_bytes : simpl never.
#[local] Opaque le_bytes r_int r_bytes.

Ltac pod_read_as_bytes :=
  let x := fresh "x" in let H := fresh "Hok" in
  intros x d H; destruct x; simpl in *; destruct_and? H; rewrite <-?app_assoc;
  repeat first [rewrite r_int_le by done; simpl | rewrite r_bytes_app by done; simpl];
  repeat match goal with i : InodeInfo |- _ => destruct i end; done.

Ltac pod_read_inv :=
  intros d x d' H; simpl in H;
  repeat (apply bind_Some in H as ([? ?] & ? & H));
  simplify_eq;
  repeat match goal with
    | H : r_int _ _ = Some _ |- _ => apply r_int_inv in H as [? ?]
    | H : r_bytes _ _ = Some _ |- _ => apply r_bytes_inv in H as [? ?]
    end; subst; simpl; rewrite <-?app_assoc; split; [tauto | done].

Ltac pod_as_bytes_length :=
  intros; simpl in *; unfold bytes_ok in *; destruct_and?;
  autorewrite with pe_len; unfold zlen; lia.

Ltac pod_read_defined :=
  let H := fresh in
  intros d H; simpl in *;
  repeat match goal with
    | H : _ <= zlen ?d |- is_Some (mbind _ (?r ?n ?d)) =>
        let d' := fresh "d" in let Hd := fresh in
        pose proof (zlen_drop_nat n d ltac:(lia)) as Hd;
        lazymatch r with
        | r_int => destruct (r_int_defined n d ltac:(lia)) as [? ->]
        | r_bytes => rewrite (r_bytes_defined n d) by lia
        end; simpl;
        generalize dependent (drop n d); intros d' Hd;
        let Hd' := fresh in
        eassert (_ <= zlen d') as Hd' by (rewrite Hd; apply Z.sub_le_mono_r, H);
        simpl in Hd'; clear H Hd
    end; eauto.

Ltac pod_laws :=
  constructor; [pod_read_as_bytes | pod_read_inv | pod_as_bytes_length | pod_read_defined].

#[export] Instance Superblock_laws : PodLaws Superblock.
Proof. pod_laws. Qed.
#[export] Instance InodeCompact_laws : PodLaws InodeCompact.
Proof. pod_laws. Qed.
#[export] Instance InodeExtended_laws : PodLaws InodeExtended.
Proof. pod_laws. Qed.
#[export] Instance XattrHeader_laws : PodLaws XattrHeader.
Proof. pod_laws. Qed.
#[export] Instance XattrEntry_laws : PodLaws XattrEntry.
Proof. pod_laws. Qed.
#[export] Instance Dirent_laws : PodLaws Dirent.
Proof. pod_laws. Qed.
#[export] Instance MapHeader_laws : PodLaws MapHeader.
Proof. pod_laws. Qed.
#[export] Instance LogicalClusterIndex_laws : PodLaws LogicalClusterIndex.
Proof. pod_laws. Qed.
#[export] Instance ChunkInfo_laws : PodLaws ChunkInfo.
Proof. pod_laws. Qed.
#[export] Instance MapDataSize_laws : PodLaws MapDataSize.
Proof. pod_laws. Qed.
#[export] Instance Lz4CompressionConfig_laws : PodLaws Lz4CompressionConfig.
Proof. pod_laws. Qed.
#[export] Instance LzmaCompressionConfig_laws : PodLaws LzmaCompressionConfig.
Proof. pod_laws. Qed.
#[export] Instance DeflateCompressionConfig_laws : PodLaws DeflateCompressionConfig.
Proof. pod_laws. Qed.
#[export] Instance ZstdCompressionConfig_laws : PodLaws ZstdCompressionConfig.
Proof. pod_laws. Qed.

#[global] Arguments try_read_from_prefix : simpl never.
#[global] Arguments as_bytes : simpl never.

(** * Constants, errors and small enums *)

Definition EROFS_SUPER_OFFSET : Z := 1024.
Definition EROFS_SUPER_MAGIG_V1 : Z := 0xe0f5e1e2.
Definition INODE_ALIGNMENT : Z := 32.
Definition EROFS_NULL_ADDR : Z := u32_max.

Inductive Layout := FlatPlain | CompressedFull | FlatInline | CompressedCompact | ChunkBased.
#[export] Instance Layout_eq_dec : EqDecision Layout.
Proof. solve_decision. Defined.

Inductive CompressionType := Lz4 | Lzma | Deflate | Zstd.

Inductive Error :=
  | BadSuperblock | BadMagic | BadConversion | BadCStr | Oob | NotDir | NotSymlink
  | NotRegDirLink | DirentBadSize | BadFileType | InodeTooBig | NotExpectingBlockData
  | BlockLenShouldBeZero | NotCompressed | NotCompressedFull | InvalidXattrPrefix
  | BuiltinPrefixTooBig | XattrPrefixTableNotHandled | Decompress | LciMalformed | Write
  | Underflow | UnknownCompression | Head2NotSupported
  | CompressionNotSupported (t : CompressionType) | LayoutNotHandled (l : Layout).

(** [rustix::fs::FileType], and its conversions from and to a raw mode. *)
Module FileType.
Inductive t :=
RegularFile | Directory | Symlink | Fifo | Socket | CharacterDevice | BlockDevice | Unknown.
#[global] Instance eq_dec : EqDecision t.
Proof. solve_decision. Defined.
End FileType.

Class RustixFileType := {
  from_raw_mode : Z -> FileType.t;
  as_raw_mode : FileType.t -> Z;
}.

Module DirentFileType.
Inductive t :=
Unknown | RegularFile | Directory | CharacterDevice | BlockDevice | Fifo | Socket | Symlink.
#[global] Instance eq_dec : EqDecision t.
Proof. solve_decision. Defined.

(** [x as u8] *)
Definition to_u8 (x : t) : Z :=
match x with
| Unknown => 0 | RegularFile => 1 | Directory => 2 | CharacterDevice => 3
| BlockDevice => 4 | Fifo => 5 | Socket => 6 | Symlink => 7
end.

Definition try_from (x : Z) : result Error t :=
match x with
| 0 => Ok Unknown | 1 => Ok RegularFile | 2 => Ok Directory | 3 => Ok CharacterDevice
| 4 => Ok BlockDevice | 5 => Ok Fifo | 6 => Ok Socket | 7 => Ok Symlink
| _ => Err BadFileType
end.
End DirentFileType.

(** [x as u16] *)
Definition Layout_to_u16 (l : Layout) : Z :=
  match l with
  | FlatPlain => 0 | CompressedFull => 1 | FlatInline => 2 | CompressedCompact => 3
  | ChunkBased => 4
  end.

Definition Layout_try_from (x : Z) : option Layout :=
  match x with
  | 0 => Some FlatPlain | 1 => Some CompressedFull | 2 => Some FlatInline
  | 3 => Some CompressedCompact | 4 => Some ChunkBased | _ => None
  end.

Definition is_compressed (l : Layout) : bool :=
  match l with CompressedFull | CompressedCompact => true | _ => false end.

Definition CompressionType_try_from (x : Z) : result Error CompressionType :=
  match x with
  | 0 => Ok Lz4 | 1 => Ok Lzma | 2 => Ok Deflate | 3 => Ok Zstd
  | _ => Err UnknownCompression
  end.

(** * Arithmetic helpers *)

Definition div_mod_u16 (a b : Z) : Z * Z := (a / b, a mod b).

Definition compute_block_tail_len (block_size size : Z) : Z * Z :=
  let num_blocks := size / block_size in
  let block_len := wmul 64 num_blocks block_size in
  let tail_len := wsub 64 size block_len in
  (block_len, tail_len).

Definition round_up_to (n x : Z) : Z :=
  if x =? 0 then n else wmul 64 (div_ceil x n) n.

Record XattrCountAndPadding := { cp_xattr_count : Z; cp_padding : Z }.

Definition xattr_entry_len (e : XattrEntry) : Z := name_len e + value_size e + size_of XattrEntry.

Definition xattr_count (x : list XattrEntry) : XattrCountAndPadding :=
  let len := foldr (fun e acc => wadd 64 (xattr_entry_len e) acc) 0 x in
  if len =? 0 then {| cp_xattr_count := 0; cp_padding := 0 |}
  else
    let padded := round_up_to (size_of XattrEntry) len in
    let padding := wsub 64 padded len in
    let xattr_count := padded / 4 + 1 in
    {| cp_xattr_count := xattr_count; cp_padding := padding |}.

Definition xattr_count_to_len (count : Z) : Z :=
  if count =? 0 then 0
  else size_of XattrHeader + (count - 1) * size_of XattrEntry.

Definition XATTR_BUILTIN_PREFIX_TABLE : list bstr :=
  bytes_of_string <$>
    ["user."; "system.posix_acl_access"; "system.posix_acl_default"; "trusted"; "";
     "security."]%string.

Definition XattrBuiltinPrefix_MAX : Z := 7.

(** The id and the length of the first prefix of the table that the key has. *)
Fixpoint find_prefix (i : Z) (table : list bstr) (key : bstr) : option (Z * Z) :=
  match table with
  | [] => None
  | prefix :: table =>
      if starts_with prefix key then Some (wrap 8 (i + 1), wrap 8 (zlen prefix))
      else find_prefix (i + 1) table key
  end.
Definition xattr_builtin_prefix (key : bstr) : option (Z * Z) :=
  find_prefix 0 XATTR_BUILTIN_PREFIX_TABLE key.

Definition crc32c_poly : Z := 0x82F63B78.

(** One of the eight rounds for a byte. *)
Definition crc32c_round (crc : Z) : Z :=
  Z.lxor (Z.shiftr crc 1) (if Z.land crc 1 =? 0 then 0 else crc32c_poly).
Definition crc32c_byte (crc : Z) (x : byte) : Z :=
  Nat.iter 8 crc32c_round (Z.lxor crc (byte_val x)).
#[global] Arguments crc32c_byte : simpl never.
Definition crc32c (data : list byte) : Z := fold_left crc32c_byte data u32_max.

(** * Inodes *)

Definition new_raw_blkaddr (block : Z) : InodeInfo := {| info_data := le_bytes 4 block |}.
Definition raw_blkaddr (i : InodeInfo) : Z := le_val (info_data i).

Inductive Inode := Compact (id : Z) (x : InodeCompact) | Extended (id : Z) (x : InodeExtended).
Inductive InodeType := CompactType | ExtendedType.

Definition get_format (format_layout : Z) : Z := Z.land format_layout 1.
Definition get_layout (format_layout : Z) : result Error Layout :=
  ok_or (Layout_try_from (Z.land (Z.shiftr format_layout 1) 7)) BadConversion.

Definition format_layout (typ : InodeType) (layout : Layout) : Z :=
  let format := match typ with CompactType => 0 | ExtendedType => 1 end in
  Z.lor format (wshl 16 (Layout_to_u16 layout) 1).

Definition Inode_new (disk_id : Z) (data : list byte) : result Error Inode :=
  let? '(format_layout, _) := ok_or (r_int 2 data) BadConversion in
  let? _ := get_layout format_layout in
  match get_format format_layout with
  | 0 => let? '(inode, _) := ok_or (try_read_from_prefix data) BadConversion in
         Ok (Compact disk_id inode)
  | 1 => let? '(inode, _) := ok_or (try_read_from_prefix data) BadConversion in
         Ok (Extended disk_id inode)
  | _ => Panic
  end.

Definition mode (i : Inode) : Z :=
  match i with Compact _ x => ic_mode x | Extended _ x => ie_mode x end.
Definition data_size (i : Inode) : Z :=
  match i with Compact _ x => ic_size x | Extended _ x => ie_size x end.
Definition disk_id (i : Inode) : Z :=
  match i with Compact id _ | Extended id _ => id end.
Definition inode_size (i : Inode) : Z :=
  match i with Compact _ _ => size_of InodeCompact | Extended _ _ => size_of InodeExtended end.
Definition inode_xattr_count (i : Inode) : Z :=
  match i with Compact _ x => ic_xattr_count x | Extended _ x => ie_xattr_count x end.
Definition xattr_len (i : Inode) : option Z :=
  let len := xattr_count_to_len (inode_xattr_count i) in
  if len =? 0 then None else Some len.
Definition ino (i : Inode) : Z :=
  match i with Compact _ x => ic_ino x | Extended _ x => ie_ino x end.
Definition uid (i : Inode) : Z :=
  match i with Compact _ x => ic_uid x | Extended _ x => ie_uid x end.
Definition gid (i : Inode) : Z :=
  match i with Compact _ x => ic_gid x | Extended _ x => ie_gid x end.
Definition link_count (i : Inode) : Z :=
  match i with Compact _ x => ic_nlink x | Extended _ x => ie_nlink x end.
Definition inode_format_layout (i : Inode) : Z :=
  match i with Compact _ x => ic_format_layout x | Extended _ x => ie_format_layout x end.
Definition inode_info (i : Inode) : InodeInfo :=
  match i with Compact _ x => ic_info x | Extended _ x => ie_info x end.

(** The layout was validated by [Inode_new]; an inode built otherwise panics. *)
Definition layout (i : Inode) : result Error Layout :=
  match get_layout (inode_format_layout i) with Ok l => Ok l | _ => Panic end.

Definition raw_block_addr (i : Inode) : Z := raw_blkaddr (inode_info i).
Definition raw_compressed_blocks (i : Inode) : Z := raw_blkaddr (inode_info i).

Section file_types.
Context `{RustixFileType}.
Definition file_type (i : Inode) : FileType.t := from_raw_mode (mode i).

Definition block_addr (i : Inode) : result Error Z :=
  match file_type i with
  | FileType.RegularFile | FileType.Directory | FileType.Symlink => Ok (raw_block_addr i)
  | _ => Err NotRegDirLink
  end.
End file_types.

(** * Directory entries *)

Record DirentItem := {
  item_disk_id : Z;
  item_file_type : DirentFileType.t;
  item_name : bstr;
}.

Record DirentsIterator := {
  di_data : list byte;
  di_remaining : option (list byte);
  di_i : Z;
  di_count : Z;
  di_block_size : Z;
}.

(** The iterator changes even when it fails: the new state comes with the
    result. *)
Definition reset_count (s : DirentsIterator) : DirentsIterator * result Error unit :=
  let s := if decide (di_data s = []) then
             {| di_data := default [] (di_remaining s); di_remaining := None; di_i := di_i s;
                di_count := di_count s; di_block_size := di_block_size s |}
           else s in
  if decide (di_data s = []) then
    ({| di_data := di_data s; di_remaining := di_remaining s; di_i := 0; di_count := 0;
        di_block_size := di_block_size s |}, Ok tt)
  else
    match try_read_from_prefix (di_data s) with
    | None => (s, Err BadConversion)
    | Some (dirent, _) =>
        let '(count, rem) := div_mod_u16 (name_offset dirent) (size_of Dirent) in
        if negb (rem =? 0) then (s, Err DirentBadSize)
        else ({| di_data := di_data s; di_remaining := di_remaining s; di_i := 0;
                 di_count := count; di_block_size := di_block_size s |}, Ok tt)
    end.

Definition DirentsIterator_new (data : list byte * list byte) (block_size : Z)
    : result Error DirentsIterator :=
  let '(block, tail) := data in
  let '(ret, r) :=
    reset_count {| di_data := block; di_remaining := Some tail; di_i := 0; di_count := 0;
                   di_block_size := block_size |} in
  let? _ := r in Ok ret.

Definition get_dirent (s : DirentsIterator) (i : Z) : result Error Dirent :=
  let offset := wmul 64 i (size_of Dirent) in
  let? d := ok_or (get_from (di_data s) offset) Oob in
  let? '(dirent, _) := ok_or (try_read_from_prefix d) BadConversion in
  Ok dirent.

(** [&slice[..i]] for the position [i] of the first zero, or the slice. *)
Fixpoint until_nul (l : bstr) : bstr :=
  match l with
  | [] => []
  | b :: l => if decide (b = x00) then [] else b :: until_nul l
  end.

Definition dirents_next_impl (s : DirentsIterator) : DirentsIterator * result Error DirentItem :=
  match get_dirent s (di_i s) with
  | Err e => (s, Err e)
  | Panic => (s, Panic)
  | Ok dirent =>
      match DirentFileType.try_from (de_file_type dirent) with
      | Err e => (s, Err e)
      | Panic => (s, Panic)
      | Ok file_type =>
          let item name :=
            {| item_disk_id := de_disk_id dirent; item_file_type := file_type;
               item_name := name |} in
          let off := name_offset dirent in
          if di_i s + 1 <? di_count s then
            match get_dirent s (wadd 16 (di_i s) 1) with
            | Err e => (s, Err e)
            | Panic => (s, Panic)
            | Ok next_dirent =>
                let name_len := wsub 64 (name_offset next_dirent) off in
                ({| di_data := di_data s; di_remaining := di_remaining s;
                    di_i := wadd 16 (di_i s) 1; di_count := di_count s;
                    di_block_size := di_block_size s |},
                 let? name := ok_or (get_range (di_data s) off (wadd 64 off name_len)) Oob in
                 Ok (item name))
            end
          else
            let block_end := Z.min (zlen (di_data s)) (di_block_size s) in
            match get_range (di_data s) off block_end with
            | None => (s, Err Oob)
            | Some slice =>
                let '(s, r) :=
                  reset_count {| di_data := zdrop block_end (di_data s);
                                 di_remaining := di_remaining s; di_i := di_i s;
                                 di_count := di_count s; di_block_size := di_block_size s |} in
                (s, let? _ := r in Ok (item (until_nul slice)))
            end
      end
  end.

Definition dirents_next (s : DirentsIterator) : option (DirentsIterator * result Error DirentItem) :=
  if di_i s <? di_count s then Some (dirents_next_impl s) else None.

Definition dirents_measure (s : DirentsIterator) : nat :=
  Z.to_nat ((zlen (di_data s) + zlen (default [] (di_remaining s))) * 65536
            + (di_count s - di_i s)).

(** [for item in dirents.iter()? { let item = item?; if item.name == name {..} }] *)
Definition find_dirent_step (name : bstr) (s : DirentsIterator)
    : loop_step DirentsIterator (result Error (option DirentItem)) :=
  match dirents_next s with
  | None => Done (Ok None)
  | Some (_, Err e) => Done (Err e)
  | Some (_, Panic) => Done Panic
  | Some (s, Ok item) =>
      if decide (item_name item = name) then Done (Ok (Some item)) else Again s
  end.
Definition find_dirent (name : bstr) (s : DirentsIterator) : result Error (option DirentItem) :=
  loop_result (loop (find_dirent_step name) dirents_measure s).

(** All the items, for a consumer that stops at the first error. *)
Definition collect_dirents_step (x : DirentsIterator * list DirentItem)
    : loop_step (DirentsIterator * list DirentItem) (result Error (list DirentItem)) :=
  let '(s, acc) := x in
  match dirents_next s with
  | None => Done (Ok acc)
  | Some (_, Err e) => Done (Err e)
  | Some (_, Panic) => Done Panic
  | Some (s, Ok item) => Again (s, acc ++ [item])
  end.
Definition collect_dirents (s : DirentsIterator) : result Error (list DirentItem) :=
  loop_result (loop collect_dirents_step (fun x => dirents_measure x.1) (s, [])).

(** * Extended attributes *)

Inductive XattrPrefix := Builtin (i : Z) | Table (i : Z).

Definition XattrPrefix_try_from (x : Z) : result Error (option XattrPrefix) :=
  if x =? 0 then Ok None
  else if negb (Z.land x 0x80 =? 0) then Ok (Some (Table (Z.land x 0x7f)))
  else if x <? XattrBuiltinPrefix_MAX then Ok (Some (Builtin x))
  else Err InvalidXattrPrefix.

Record Xattrs := { xa_header : XattrHeader; xa_data : list byte; xa_shared_data : list byte }.

Record XattrItem := { xi_prefix : option XattrPrefix; xi_name : bstr; xi_value : bstr }.

Record XattrsIterator := {
  xs_data : list byte;
  xs_shared_data : list byte;
  xs_shared_remaining : Z;
}.

Definition xattrs_iter (x : Xattrs) : XattrsIterator :=
  {| xs_data := xa_data x; xs_shared_data := xa_shared_data x;
     xs_shared_remaining := shared_count (xa_header x) |}.

Definition next_shared (s : XattrsIterator) : XattrsIterator * result Error XattrItem :=
  let s := {| xs_data := xs_data s; xs_shared_data := xs_shared_data s;
              xs_shared_remaining := wsub 8 (xs_shared_remaining s) 1 |} in
  match r_int 4 (xs_data s) with
  | None => (s, Err BadConversion)
  | Some (index, data) =>
      ({| xs_data := data; xs_shared_data := xs_shared_data s;
          xs_shared_remaining := xs_shared_remaining s |},
       let offset := wmul 64 index 4 in
       let? sdata := ok_or (get_from (xs_shared_data s) offset) Oob in
       let? '(entry, sdata) := ok_or (try_read_from_prefix (T := XattrEntry) sdata) BadConversion in
       let? '(name, sdata) := ok_or (split_at_checked sdata (name_len entry)) Oob in
       let? '(value, _) := ok_or (split_at_checked sdata (value_size entry)) Oob in
       let? prefix := XattrPrefix_try_from (name_index entry) in
       Ok {| xi_prefix := prefix; xi_name := name; xi_value := value |})
  end.

Definition next_unshared (s : XattrsIterator) : XattrsIterator * result Error XattrItem :=
  match try_read_from_prefix (T := XattrEntry) (xs_data s) with
  | None => (s, Err BadConversion)
  | Some (entry, data) =>
      match get_range data 0 (name_len entry) with
      | None => (s, Err Oob)
      | Some name =>
          match get_range data (name_len entry) (name_len entry + value_size entry) with
          | None => (s, Err Oob)
          | Some value =>
              let offset := round_up_to (size_of XattrEntry) (name_len entry + value_size entry) in
              match get_from data offset with
              | None => (s, Err Oob)
              | Some rest =>
                  let rest := if zlen rest <? size_of XattrEntry then [] else rest in
                  ({| xs_data := rest; xs_shared_data := xs_shared_data s;
                      xs_shared_remaining := xs_shared_remaining s |},
                   let? prefix := XattrPrefix_try_from (name_index entry) in
                   Ok {| xi_prefix := prefix; xi_name := name; xi_value := value |})
              end
          end
      end
  end.

Definition xattrs_next (s : XattrsIterator) : option (XattrsIterator * result Error XattrItem) :=
  if 0 <? xs_shared_remaining s then Some (next_shared s)
  else if decide (xs_data s = []) then None
  else Some (next_unshared s).

Definition xattrs_measure (s : XattrsIterator) : nat :=
  (length (xs_data s) + Z.to_nat (xs_shared_remaining s))%nat.

Definition collect_xattrs_step (x : XattrsIterator * list XattrItem)
    : loop_step (XattrsIterator * list XattrItem) (result Error (list XattrItem)) :=
  let '(s, acc) := x in
  match xattrs_next s with
  | None => Done (Ok acc)
  | Some (_, Err e) => Done (Err e)
  | Some (_, Panic) => Done Panic
  | Some (s, Ok item) => Again (s, acc ++ [item])
  end.
Definition collect_xattrs (s : XattrsIterator) : result Error (list XattrItem) :=
  loop_result (loop collect_xattrs_step (fun x => xattrs_measure x.1) (s, [])).

(** * The image *)

Record Erofs := { img : list byte; sb : Superblock }.

Definition Erofs_new (data : list byte) : result Error Erofs :=
  let? d := ok_or (get_from data EROFS_SUPER_OFFSET) Oob in
  let? '(sb, _) := ok_or (try_read_from_prefix d) BadConversion in
  if negb (magic sb =? EROFS_SUPER_MAGIG_V1) then Err BadMagic
  else Ok {| img := data; sb := sb |}.

Section erofs.
Context `{RustixFileType}.
Implicit Types (e : Erofs) (inode : Inode).

Definition block_size e : Z := wshl 64 1 (blkszbits (sb e)).
Definition block_offset e (block : Z) : Z := wshl 64 block (blkszbits (sb e)).
Definition raw_inode_offset e (disk_id : Z) : Z :=
  wadd 64 (block_offset e (meta_blkaddr (sb e))) (32 * disk_id).
Definition inode_offset e inode : Z := raw_inode_offset e (disk_id inode).
Definition inode_end e inode : Z :=
  wadd 64 (wadd 64 (inode_offset e inode) (inode_size inode)) (default 0 (xattr_len inode)).

Definition compute_checksum e : result Error Z :=
  let? rest := ok_or (get_range (img e) (EROFS_SUPER_OFFSET + 8) (block_size e)) Oob in
  Ok (crc32c (le_bytes 4 (magic (sb e)) ++ le_bytes 4 0 ++ rest)).
Definition check_checksum e : result Error bool :=
  let? c := compute_checksum e in Ok (c =? checksum (sb e)).

Definition get_inode e (disk_id : Z) : result Error Inode :=
  let? d := ok_or (get_from (img e) (raw_inode_offset e disk_id)) Oob in
  Inode_new disk_id d.
Definition get_inode_from_dirent e (dirent : DirentItem) : result Error Inode :=
  let? id := ok_or (try_into 32 (item_disk_id dirent)) InodeTooBig in
  get_inode e id.
Definition get_root_inode e : result Error Inode := get_inode e (root_disk_id (sb e)).

Definition get_data e inode : result Error (list byte * list byte) :=
  let? l := layout inode in
  match l with
  | FlatInline =>
      let block_addr := raw_block_addr inode in
      let '(block_len, tail_len) := compute_block_tail_len (block_size e) (data_size inode) in
      let data_begin := inode_end e inode in
      let? tail := ok_or (get_range (img e) data_begin (wadd 64 data_begin tail_len)) Oob in
      let? block :=
        if block_addr =? 0xffffffff then
          if negb (block_len =? 0) then Err BlockLenShouldBeZero else Ok []
        else
          let data_begin := block_offset e (raw_block_addr inode) in
          ok_or (get_range (img e) data_begin (wadd 64 data_begin block_len)) Oob in
      Ok (block, tail)
  | FlatPlain =>
      let data_len := data_size inode in
      if data_len =? 0 then Ok ([], [])
      else
        let data_begin := block_offset e (raw_block_addr inode) in
        let? x := ok_or (get_range (img e) data_begin (wadd 64 data_begin data_len)) Oob in
        Ok (x, [])
  | layout => Err (LayoutNotHandled layout)
  end.

(** [Dirents]: the data and the block size to iterate with. *)
Definition get_dirents e inode : result Error (list byte * list byte * Z) :=
  if decide (file_type inode = FileType.Directory) then
    let? data := get_data e inode in
    Ok (data, block_size e)
  else Err NotDir.

Definition xattr_shared_data e : result Error (list byte) :=
  ok_or (get_from (img e) (block_offset e (xattr_blkaddr (sb e)))) Oob.

Definition get_xattrs e inode : result Error (option Xattrs) :=
  match xattr_len inode with
  | Some size =>
      let offset := wadd 64 (inode_offset e inode) (inode_size inode) in
      let? data := ok_or (get_range (img e) offset (wadd 64 offset size)) Oob in
      let? shared_data := xattr_shared_data e in
      let? '(header, data) := ok_or (try_read_from_prefix data) BadConversion in
      Ok (Some {| xa_header := header; xa_data := data; xa_shared_data := shared_data |})
  | None => Ok None
  end.

Definition get_xattr_prefix (item : XattrItem) : result Error bstr :=
  match xi_prefix item with
  | None => Ok []
  | Some (Builtin i) =>
      ok_or (XATTR_BUILTIN_PREFIX_TABLE !! Z.to_nat (i - 1)) BuiltinPrefixTooBig
  | _ => Err XattrPrefixTableNotHandled
  end.

Definition get_symlink e inode : result Error (list byte) :=
  if decide (file_type inode = FileType.Symlink) then
    let? '(block, tail) := get_data e inode in
    if decide (block = []) then Ok tail else Err NotExpectingBlockData
  else Err NotSymlink.

(** ** Lookup *)

(** A component as [Path]'s iterator gives it. *)
Definition component_bytes (c : Component) : bstr :=
  match c with
  | RootDir => [slash] | CurDir => dot | ParentDir => dotdot | Normal n => n
  end.

Fixpoint lookup_from e (cur : Inode) (comps : list Component) : result Error (option Inode) :=
  match comps with
  | [] => Ok (Some cur)
  | c :: comps =>
      let? '(data, block_size) := get_dirents e cur in
      let? it := DirentsIterator_new data block_size in
      let? item := find_dirent (component_bytes c) it in
      match item with
      | Some item =>
          let? next := get_inode_from_dirent e item in
          lookup_from e next comps
      | None => Ok None
      end
  end.

Definition lookup e (p : bstr) : result Error (option Inode) :=
  let? root := get_root_inode e in
  lookup_from e root (components p).
End erofs.

(** * Compressed files *)

Inductive LogicalClusterType := Plain | Head1 | NonHead | Head2.

Definition lci_typ (l : LogicalClusterIndex) : LogicalClusterType :=
  match Z.land (advise l) 3 with 0 => Plain | 1 => Head1 | 2 => NonHead | _ => Head2 end.
Definition cluster_offset (l : LogicalClusterIndex) : Z := lci_cluster_offset l.
Definition lci_block_addr (l : LogicalClusterIndex) : Z := le_val (block_addr_or_delta l).
(** [delta()[1]], the second pair of bytes. *)
Definition lci_delta1 (l : LogicalClusterIndex) : Z := le_val (take 2 (drop 2 (block_addr_or_delta l))).

Definition is_head (l : LogicalClusterIndex) : bool :=
  match lci_typ l with Head1 | Head2 => true | _ => false end.

Definition compression_type_1 (h : MapHeader) : result Error CompressionType :=
  CompressionType_try_from (Z.land (mh_algorithm h) 15).
Definition compression_type_2 (h : MapHeader) : result Error CompressionType :=
  CompressionType_try_from (Z.land (Z.shiftr (mh_algorithm h) 4) 15).
Definition cluster_size_bits (h : MapHeader) : Z := Z.land (cluster_bits h) 7.

(** [ref_from_prefix_with_elems]: [n] structs from a prefix. *)
Fixpoint read_elems {T} `{Pod T} (n : nat) (d : list byte) : option (list T) :=
  match n with
  | O => Some []
  | S n => '(x, d) ← try_read_from_prefix d; xs ← read_elems n d; Some (x :: xs)
  end.

Definition usize_max : Z := u64_max.
Definition isize_max : Z := 9223372036854775807.

(** [buf.resize(n, 0)]; a capacity over [isize::MAX] panics. *)
Definition resize {E} (buf : list byte) (n : Z) : result E (list byte) :=
  if isize_max <? n then Panic
  else Ok (take (Z.to_nat n) buf ++ replicate (Z.to_nat (n - zlen buf)) x00).

Section compressed.
(** The decompressor of the build's configuration: the [lz4] feature decides
    whether there is one.  A call gets the source, the destination buffer and
    the original size, and returns the number of bytes with the new buffer. *)
Context (lz4 : option (list byte -> list byte -> Z -> option (Z * list byte))).
Implicit Types (e : Erofs) (inode : Inode).

Definition get_decompressor (t : CompressionType)
    : result Error (list byte -> list byte -> Z -> option (Z * list byte)) :=
  match t, lz4 with
  | Lz4, Some f => Ok f
  | t, _ => Err (CompressionNotSupported t)
  end.

Definition get_map_header e inode : result Error MapHeader :=
  let? l := layout inode in
  if negb (is_compressed l) then Err NotCompressed
  else
    let start := round_up_to 8 (inode_end e inode) in
    let? d := ok_or (get_from (img e) start) Oob in
    let? '(x, _) := ok_or (try_read_from_prefix d) BadConversion in
    Ok x.

Definition get_logical_cluster_indices e inode : result Error (list LogicalClusterIndex) :=
  let? l := layout inode in
  if decide (l = CompressedFull) then
    let n := div_ceil (data_size inode) (block_size e) in
    let start :=
      wadd 64 (wadd 64 (round_up_to 8 (inode_end e inode)) (size_of MapHeader)) 8 in
    let? data := ok_or (get_from (img e) start) Oob in
    (* a count that cannot fit is refused before any element is read *)
    if zlen data <? n * size_of LogicalClusterIndex then Err BadConversion
    else ok_or (read_elems (Z.to_nat n) data) BadConversion
  else Err NotCompressedFull.

(** The index of the next head, if there is one, and the length to decompress. *)
Definition pcluster_len (lcis : list LogicalClusterIndex) (i : nat) (block_len file_size : Z)
    : result Error (option nat * Z) :=
  let? cur := ok_or (lcis !! i) Oob in
  let? next := ok_or (lcis !! (i + 1)%nat) Oob in
  let with_head (j : nat) (next_head : LogicalClusterIndex) :=
    let len := wsub 64 (wadd 64 (wmul 64 (Z.of_nat j - Z.of_nat i) block_len)
                                (cluster_offset next_head)) (cluster_offset cur) in
    Ok (Some j, len) in
  match lci_typ next with
  | Head1 | Head2 | Plain => with_head (i + 1)%nat next
  | NonHead =>
      let n := Z.to_nat (lci_delta1 next) in
      match lcis !! (i + 1 + n)%nat with
      | None =>
          if decide ((i + 1 + n)%nat = length lcis) then
            let used := wadd 64 (wmul 64 (Z.of_nat i) block_len) (cluster_offset cur) in
            if file_size <? used then Err Underflow else Ok (None, file_size - used)
          else Err Oob
      | Some next_head => with_head (i + 1 + n)%nat next_head
      end
  end.

(** The loop's variables: the index, the decompression buffer and what was
    written. *)
Definition lci_step e (decompress : list byte -> list byte -> Z -> option (Z * list byte))
    (lcis : list LogicalClusterIndex) (block_len file_size : Z)
    (s : option nat * list byte * list byte)
    : loop_step (option nat * list byte * list byte) (result Error (list byte)) :=
  let '(i_, buf, out) := s in
  match i_ with
  | None => Done (Ok out)
  | Some i =>
      match lcis !! i with
      | None => Done (Err Oob)
      | Some cur =>
          match lci_typ cur with
          | Head1 =>
              let data_begin := block_offset e (lci_block_addr cur) in
              let r :=
                let? data := ok_or (get_range (img e) data_begin (wadd 64 data_begin block_len)) Oob in
                let? '(next_i, decompress_len) := pcluster_len lcis i block_len file_size in
                let? buf := if zlen buf <? decompress_len then resize buf decompress_len
                            else Ok buf in
                let? '(n, buf) := ok_or (decompress data buf decompress_len) Decompress in
                let? written := expect (get_range buf 0 n) in
                Ok (next_i, buf, out ++ written) in
              match r with
              | Ok s => Again s
              | Err er => Done (Err er)
              | Panic => Done Panic
              end
          | Plain =>
              let block_addr := lci_block_addr cur in
              if block_addr =? 0 then
                if decide ((i + 1)%nat = length lcis) then Done (Ok out)
                else Done (Err LciMalformed)
              else
                let data_begin := block_offset e block_addr in
                let r :=
                  let? next := ok_or (lcis !! (i + 1)%nat) Oob in
                  let data_len :=
                    wsub 64 (wadd 64 block_len (cluster_offset next)) (cluster_offset cur) in
                  let? data := ok_or (get_range (img e) data_begin (wadd 64 data_begin data_len)) Oob in
                  Ok (Some (i + 1)%nat, buf, out ++ data) in
                match r with
                | Ok s => Again s
                | Err er => Done (Err er)
                | Panic => Done Panic
                end
          | Head2 => Done (Err Head2NotSupported)
          | NonHead => Done (Err LciMalformed)
          end
      end
  end.

Definition lci_measure (lcis : list LogicalClusterIndex) (s : option nat * list byte * list byte)
    : nat :=
  match s.1.1 with None => 0%nat | Some i => S (length lcis - i) end.

(** The writer is an in-memory vector: the result is what was written. *)
Definition get_compressed_data e inode : result Error (list byte) :=
  let? map_header := get_map_header e inode in
  let? t := compression_type_1 map_header in
  let? decompressor_1 := get_decompressor t in
  let block_len := wshl 64 1 (wadd 8 (blkszbits (sb e)) (cluster_size_bits map_header)) in
  let file_size := data_size inode in
  let? lcis := get_logical_cluster_indices e inode in
  if decide (lcis = []) then Ok []
  else
    loop_result (loop (lci_step e decompressor_1 lcis block_len file_size) (lci_measure lcis)
                      (Some O, [], [])).
End compressed.

(** * Lemmas *)

(** Reading never panics. *)
Lemma ok_or_not_panic {E A} (o : option A) (e : E) : ok_or o e <> Panic.
Proof. by destruct o. Qed.

Lemma rbind_not_panic {E A B} (c : result E A) (k : A -> result E B) :
  c <> Panic -> (forall a, c = Ok a -> k a <> Panic) -> rbind c k <> Panic.
Proof. destruct c; simpl; auto. Qed.

(** [no_panic] walks through the binds of a computation. *)
Create HintDb no_panic.
#[export] Hint Resolve ok_or_not_panic : no_panic.
Ltac no_panic_step :=
  match goal with
  | |- Ok _ <> Panic => done
  | |- Err _ <> Panic => done
  | |- rbind _ _ <> Panic => apply rbind_not_panic; [|let a := fresh "a" in intros a ?]
  | |- (if ?b then _ else _) <> Panic => destruct b eqn:?
  | |- (let '(_, _) := ?x in _) <> Panic => destruct x eqn:?
  | |- match ?x with _ => _ end <> Panic => destruct x eqn:?
  | |- _ => solve [eauto with no_panic]
  end.
Ltac no_panic := repeat no_panic_step.

Lemma DirentFileType_try_from_no_panic x : DirentFileType.try_from x <> Panic.
Proof. unfold DirentFileType.try_from. no_panic. Qed.
Lemma XattrPrefix_try_from_no_panic x : XattrPrefix_try_from x <> Panic.
Proof. unfold XattrPrefix_try_from. no_panic. Qed.
Lemma get_dirent_no_panic s i : get_dirent s i <> Panic.
Proof. unfold get_dirent. no_panic. Qed.
#[export] Hint Resolve DirentFileType_try_from_no_panic XattrPrefix_try_from_no_panic
  get_dirent_no_panic : no_panic.

Lemma reset_count_no_panic s : (reset_count s).2 <> Panic.
Proof. unfold reset_count, div_mod_u16. repeat case_match; done. Qed.

Lemma DirentsIterator_new_no_panic d bs : DirentsIterator_new d bs <> Panic.
Proof.
  unfold DirentsIterator_new. destruct d as [block tail].
  destruct (reset_count _) as [s r] eqn:E.
  pose proof (reset_count_no_panic
    {| di_data := block; di_remaining := Some tail; di_i := 0; di_count := 0; di_block_size := bs |}) as H.
  rewrite E in H. simpl in H. no_panic.
Qed.

Lemma dirents_next_no_panic s s' : dirents_next s <> Some (s', Panic).
Proof.
  unfold dirents_next, dirents_next_impl.
  destruct (di_i s <? di_count s); [|done].
  destruct (get_dirent s (di_i s)) as [d| |] eqn:E1; [|done|by apply get_dirent_no_panic in E1].
  destruct (DirentFileType.try_from _) as [ft| |] eqn:E2;
    [|done|by apply DirentFileType_try_from_no_panic in E2].
  destruct (di_i s + 1 <? di_count s).
  - destruct (get_dirent s (wadd 16 (di_i s) 1)) as [d'| |] eqn:E3; [|done|by apply get_dirent_no_panic in E3].
    destruct (get_range _ _ _); simpl; intros ?; simplify_eq.
  - destruct (get_range _ _ _) as [sl|]; [|done].
    destruct (reset_count _) as [s2 r] eqn:E4.
    apply (f_equal snd) in E4. simpl in E4.
    destruct r; simpl; intros ?; simplify_eq. by apply reset_count_no_panic in E4.
Qed.

Lemma pod_first_field {T} `{PodLaws T} (f : T -> Z) d x d' :
  try_read_from_prefix d = Some (x, d') -> (exists z, as_bytes x = le_bytes 2 (f x) ++ z) ->
  (pod_ok x -> int_ok 2 (f x)) -> exists r, r_int 2 d = Some (f x, r).
Proof.
  intros Hx [z Hz] Hok. apply pod_read_inv in Hx as [Hp ->].
  rewrite Hz, <-app_assoc, r_int_le; eauto.
Qed.

Lemma Inode_new_inv id d i :
  Inode_new id d = Ok i ->
  disk_id i = id /\ (exists l, get_layout (inode_format_layout i) = Ok l) /\
  match i with
  | Compact _ x => exists d', try_read_from_prefix d = Some (x, d')
  | Extended _ x => exists d', try_read_from_prefix d = Some (x, d')
  end.
Proof.
  unfold Inode_new. destruct (r_int 2 d) as [[fl d1]|] eqn:Hr; [|done]. simpl.
  destruct (get_layout fl) as [l| |] eqn:Hl; [|done..]. simpl.
  destruct (get_format fl) as [|[]|]; try done.
  - destruct (try_read_from_prefix (T := InodeCompact) d) as [[x d']|] eqn:Hx; [|done]. simpl.
    intros Hi. injection Hi as <-. simpl. split; [done|split; [|eauto]].
    destruct (pod_first_field ic_format_layout d x d' Hx) as [r Hr']; [by eexists|simpl; tauto|].
    rewrite Hr' in Hr. naive_solver.
  - destruct (try_read_from_prefix (T := InodeExtended) d) as [[x d']|] eqn:Hx; [|done]. simpl.
    intros Hi. injection Hi as <-. simpl. split; [done|split; [|eauto]].
    destruct (pod_first_field ie_format_layout d x d' Hx) as [r Hr']; [by eexists|simpl; tauto|].
    rewrite Hr' in Hr. naive_solver.
Qed.

Lemma layout_no_panic id d i : Inode_new id d = Ok i -> layout i <> Panic.
Proof.
  intros (_ & [l Hl] & _)%Inode_new_inv. unfold layout. by rewrite Hl.
Qed.

(** Progress of the iterators. *)
Lemma name_offset_range d x d' :
  try_read_from_prefix d = Some (x, d') -> 0 <= name_offset x < 65536 /\ zlen d >= 12.
Proof.
  intros Hx. pose proof Hx as Hx'. apply pod_read_inv in Hx as [Hok ->].
  pose proof (pod_as_bytes_length x Hok) as Hl. simpl in Hl.
  split; [|simpl in Hl |- *; len_lia]. simpl in Hok. unfold int_ok in Hok.
  change (256 ^ Z.of_nat 2) with 65536 in Hok. tauto.
Qed.

Lemma reset_count_progress s s' :
  reset_count s = (s', Ok tt) ->
  di_block_size s' = di_block_size s /\ 0 <= di_i s' <= di_count s' /\ di_count s' < 65536 /\
  zlen (di_data s') + zlen (default [] (di_remaining s')) =
    zlen (di_data s) + zlen (default [] (di_remaining s)).
Proof.
  unfold reset_count, div_mod_u16. destruct s as [data rem i c bs]; simpl.
  destruct (decide (data = [])) as [->|Hne]; simpl.
  - destruct (decide (default [] rem = [])) as [E|E]; simpl.
    + intros [= <-]. simpl. rewrite E. len_lia.
    + destruct (try_read_from_prefix _) as [[x d']|] eqn:Hx; [|done].
      destruct (_ =? 0); simpl; [|done]. intros [= <-]. simpl.
      apply name_offset_range in Hx as [? _].
      pose proof (Z.div_pos (name_offset x) 12). pose proof (Z.div_le_upper_bound (name_offset x) 12 65535).
      len_lia.
  - destruct (decide (data = [])); [done|].
    destruct (try_read_from_prefix _) as [[x d']|] eqn:Hx; [|done].
    destruct (_ =? 0); simpl; [|done]. intros [= <-]. simpl.
    apply name_offset_range in Hx as [? _].
    pose proof (Z.div_pos (name_offset x) 12). pose proof (Z.div_le_upper_bound (name_offset x) 12 65535).
    lia.
Qed.

Lemma get_dirent_nonempty s i x : get_dirent s i = Ok x -> 0 < zlen (di_data s).
Proof.
  unfold get_dirent. intros H. monad_inv H. destruct a0 as [y d']. apply name_offset_range in H2.
  unfold get_from in H0. destruct (_ <=? _); [|done]. simplify_eq.
  assert (zlen (zdrop (wmul 64 i (size_of Dirent)) (di_data s)) <= zlen (di_data s)).
  { unfold zlen, zdrop. rewrite length_drop. lia. }
  lia.
Qed.

Definition dirents_inv (s : DirentsIterator) : Prop :=
  0 < di_block_size s /\ 0 <= di_i s /\ di_count s < 65536.

Lemma dirents_next_progress s s' item :
  dirents_inv s -> dirents_next s = Some (s', Ok item) ->
  dirents_inv s' /\ (dirents_measure s' < dirents_measure s)%nat.
Proof.
  intros (Hb & H0 & Hc). unfold dirents_next, dirents_next_impl.
  destruct (Z.ltb_spec (di_i s) (di_count s)) as [Hi|]; [|done].
  destruct (get_dirent s (di_i s)) as [d| |] eqn:E1; [|done..].
  apply get_dirent_nonempty in E1. unfold dirents_inv, dirents_measure.
  destruct (DirentFileType.try_from _) as [ft| |]; [|done..].
  destruct (Z.ltb_spec (di_i s + 1) (di_count s)).
  - destruct (get_dirent s (wadd 16 (di_i s) 1)) as [d'| |]; [|done..]. intros [= <- _]. simpl.
    rewrite wadd_small by (unfold in_width; lia). len_lia.
  - destruct (get_range _ _ _) as [sl|]; [|done].
    destruct (reset_count _) as [s2 r] eqn:E4. destruct r as [[]| |]; [|done..].
    intros [= -> _]. apply reset_count_progress in E4 as (? & ? & ? & Hl). simpl in *.
    rewrite zlen_zdrop in Hl by lia. len_lia.
Qed.

Lemma DirentsIterator_new_inv d bs s :
  0 < bs -> DirentsIterator_new d bs = Ok s -> dirents_inv s.
Proof.
  unfold DirentsIterator_new. destruct d as [block tail]. intros Hb.
  destruct (reset_count _) as [s1 r] eqn:E. destruct r as [[]| |]; [|done..].
  intros [= <-]. apply reset_count_progress in E as (? & ? & ? & _). simpl in *.
  unfold dirents_inv. lia.
Qed.

Lemma find_dirent_decreases name :
  loop_decreases_on (find_dirent_step name) dirents_measure dirents_inv.
Proof.
  intros s s' Hi. unfold find_dirent_step.
  destruct (dirents_next s) as [[s1 [item|e|]]|] eqn:E; [|done..].
  destruct (decide _); [done|]. intros [= ->]. by eapply dirents_next_progress.
Qed.

Lemma collect_dirents_decreases :
  loop_decreases_on collect_dirents_step (fun x => dirents_measure x.1) (fun x => dirents_inv x.1).
Proof.
  intros [s acc] [s' acc'] Hi. simpl.
  destruct (dirents_next s) as [[s1 [item|e|]]|] eqn:E; [|done..].
  intros [= -> _]. by eapply dirents_next_progress.
Qed.

Lemma find_dirent_no_panic name s : dirents_inv s -> find_dirent name s <> Panic.
Proof.
  intros Hi. unfold find_dirent.
  destruct (loop_total_on _ _ _ (find_dirent_decreases name) s Hi) as [r Hr].
  rewrite Hr. simpl.
  apply (run_loop_inv (find_dirent_step name) (fun _ => True) (fun r => r <> Panic))
    with (fuel := S (dirents_measure s)) (s := s); [done| |done|exact Hr].
  intros s1 r1 _. unfold find_dirent_step.
  destruct (dirents_next s1) as [[s2 [item|e|]]|] eqn:E; simpl.
  - destruct (decide _); [|done]. by intros [= <-].
  - by intros [= <-].
  - by apply dirents_next_no_panic in E.
  - by intros [= <-].
Qed.

Lemma block_size_pos e : 0 < block_size e <= 2 ^ 63.
Proof.
  unfold block_size, wshl, wrap. pose proof (Z.mod_pos_bound (blkszbits (sb e)) 64 ltac:(lia)).
  rewrite Z.shiftl_1_l. rewrite Z.mod_small.
  - split; [apply Z.pow_pos_nonneg; lia | apply Z.pow_le_mono_r; lia].
  - split; [apply Z.pow_nonneg; lia | apply Z.pow_lt_mono_r; lia].
Qed.

Section lookup_lemmas.
Context `{RustixFileType}.

Lemma get_data_no_panic e id d i : Inode_new id d = Ok i -> get_data e i <> Panic.
Proof.
  intros Hi. apply layout_no_panic in Hi. unfold get_data.
  apply rbind_not_panic; [done|]. intros l _.
  destruct l; no_panic.
Qed.

Lemma get_inode_new e id i : get_inode e id = Ok i -> exists d, Inode_new id d = Ok i.
Proof. unfold get_inode. intros H1. monad_inv H1. eauto. Qed.

Lemma Inode_new_no_panic id d : Inode_new id d <> Panic.
Proof.
  unfold Inode_new. apply rbind_not_panic; [apply ok_or_not_panic|]. intros [fl d1] _.
  apply rbind_not_panic; [apply ok_or_not_panic|]. intros l _.
  unfold get_format. change 1 with (Z.ones 1). rewrite Z.land_ones by lia.
  pose proof (Z.mod_pos_bound fl (2 ^ 1) ltac:(lia)).
  assert (fl mod 2 ^ 1 = 0 \/ fl mod 2 ^ 1 = 1) as [->| ->] by lia; no_panic.
Qed.

Lemma get_inode_no_panic e id : get_inode e id <> Panic.
Proof. unfold get_inode. no_panic. apply Inode_new_no_panic. Qed.

Lemma lookup_from_no_panic e comps cur id d :
  Inode_new id d = Ok cur -> lookup_from e cur comps <> Panic.
Proof.
  revert cur id d. induction comps as [|c comps IH]; intros cur id d Hcur; simpl; [done|].
  apply rbind_not_panic.
  { unfold get_dirents. no_panic. by eapply get_data_no_panic. }
  intros [data bs] Hd.
  assert (bs = block_size e) as ->.
  { unfold get_dirents in Hd. destruct (decide _); [|done]. monad_inv Hd. by simplify_eq. }
  apply rbind_not_panic; [apply DirentsIterator_new_no_panic|]. intros it Hit.
  apply DirentsIterator_new_inv in Hit; [|apply block_size_pos].
  apply rbind_not_panic; [by apply find_dirent_no_panic|]. intros [item|] _; [|done].
  unfold get_inode_from_dirent. destruct (try_into _ _) as [id'|]; simpl; [|done].
  apply rbind_not_panic; [apply get_inode_no_panic|]. intros i' Hi'.
  apply get_inode_new in Hi' as [d' Hd']. by eapply IH.
Qed.
End lookup_lemmas.

(** [find_dirent] is the first match among the items. *)
Lemma collect_dirents_unfold s acc :
  dirents_inv s ->
  loop collect_dirents_step (fun x => dirents_measure x.1) (s, acc) =
    match dirents_next s with
    | None => Some (Ok acc)
    | Some (_, Err e) => Some (Err e)
    | Some (_, Panic) => Some Panic
    | Some (s, Ok item) => loop collect_dirents_step (fun x => dirents_measure x.1) (s, acc ++ [item])
    end.
Proof.
  intros Hi. rewrite (loop_unfold_on _ _ _ collect_dirents_decreases) by done. simpl.
  by destruct (dirents_next s) as [[s' []]|].
Qed.

Lemma find_dirent_unfold name s :
  dirents_inv s ->
  find_dirent name s =
    match dirents_next s with
    | None => Ok None
    | Some (_, Err e) => Err e
    | Some (_, Panic) => Panic
    | Some (s, Ok item) => if decide (item_name item = name) then Ok (Some item) else find_dirent name s
    end.
Proof.
  intros Hi. unfold find_dirent.
  rewrite (loop_unfold_on _ _ _ (find_dirent_decreases name)) by done.
  unfold find_dirent_step at 1.
  destruct (dirents_next s) as [[s' []]|]; [|done..]. by destruct (decide _).
Qed.

Definition first_named (name : bstr) (items : list DirentItem) : option DirentItem :=
  snd <$> list_find (fun item => item_name item = name) items.

Lemma collect_find s acc items name :
  dirents_inv s ->
  loop collect_dirents_step (fun x => dirents_measure x.1) (s, acc) = Some (Ok items) ->
  exists new, items = acc ++ new /\ find_dirent name s = Ok (first_named name new).
Proof.
  remember (dirents_measure s) as n eqn:Hn. revert s acc Hn.
  induction n as [n IH] using lt_wf_ind. intros s acc -> Hi.
  rewrite collect_dirents_unfold, find_dirent_unfold by done.
  destruct (dirents_next s) as [[s' [item|e|]]|] eqn:E; [|done..|].
  - intros Hl. pose proof E as E'. apply dirents_next_progress in E' as [Hi' Hm]; [|done].
    apply (IH _ Hm s' _ eq_refl Hi') in Hl as (new & -> & Hf).
    exists (item :: new). rewrite <-app_assoc. split; [done|].
    unfold first_named. simpl. destruct (decide _); [done|].
    rewrite Hf. unfold first_named. by destruct (list_find _ new) as [[]|].
  - intros [= <-]. exists []. by rewrite app_nil_r.
Qed.

(** ** Extended attributes *)

Lemma xattrs_next_progress s s' item :
  xattrs_next s = Some (s', Ok item) -> (xattrs_measure s' < xattrs_measure s)%nat.
Proof.
  unfold xattrs_next, xattrs_measure. destruct (Z.ltb_spec 0 (xs_shared_remaining s)) as [Hs|Hs].
  - intros [= E]. unfold next_shared in E. simpl in E.
    destruct (r_int 4 (xs_data s)) as [[index d]|] eqn:Er; [|done].
    apply (f_equal fst) in E. simpl in E. subst s'. simpl. apply r_int_inv in Er as [_ ->].
    rewrite length_app. unfold wsub, wrap.
    pose proof (Z.mod_le (xs_shared_remaining s - 1) (2 ^ 8) ltac:(lia) ltac:(lia)).
    pose proof (Z.mod_pos_bound (xs_shared_remaining s - 1) (2 ^ 8) ltac:(lia)). lia.
  - destruct (decide _); [done|]. intros [= E]. unfold next_unshared in E.
    destruct (try_read_from_prefix _) as [[entry d]|] eqn:Er; [|done].
    apply pod_read_inv in Er as [Hok Hd]. apply pod_as_bytes_length in Hok as Hlen.
    do 2 (destruct (get_range _ _ _); [|done]).
    destruct (get_from d _) as [r|] eqn:Eg; [|done].
    apply (f_equal fst) in E. simpl in E. subst s'. simpl. rewrite Hd, length_app.
    unfold zlen in Hlen. change (size_of XattrEntry) with 4 in Hlen.
    unfold get_from in Eg. destruct (_ <=? _); [|done]. injection Eg as <-.
    destruct (_ <? _); [simpl; lia|]. unfold zdrop. rewrite length_drop. lia.
Qed.

Lemma next_shared_no_panic s : (next_shared s).2 <> Panic.
Proof. unfold next_shared. simpl. destruct (r_int _ _) as [[index d]|]; simpl; [no_panic|done]. Qed.

Lemma next_unshared_no_panic s : (next_unshared s).2 <> Panic.
Proof.
  unfold next_unshared. destruct (try_read_from_prefix _) as [[entry d]|]; [|done].
  do 2 (destruct (get_range _ _ _); [|done]). destruct (get_from _ _); simpl; [no_panic|done].
Qed.

Lemma xattrs_next_no_panic s s' : xattrs_next s <> Some (s', Panic).
Proof.
  unfold xattrs_next. destruct (_ <? _); [|destruct (decide _); [done|]]; intros [= E];
    apply (f_equal snd) in E; [by apply next_shared_no_panic in E|by apply next_unshared_no_panic in E].
Qed.

(** Collecting the attributes ends: the fuel is never used up. *)
Lemma collect_xattrs_no_panic s : collect_xattrs s <> Panic.
Proof.
  assert (loop_decreases collect_xattrs_step (fun x => xattrs_measure x.1)) as Hdec.
  { intros [s1 acc] [s2 acc2]. simpl. destruct (xattrs_next s1) as [[s3 [item|e|]]|] eqn:E; [|done..].
    intros [= -> _]. by eapply xattrs_next_progress. }
  unfold collect_xattrs. destruct (loop_total _ _ Hdec (s, [])) as [r Hr]. rewrite Hr. simpl.
  eapply (run_loop_inv collect_xattrs_step (fun _ => True) (fun r => r <> Panic)); [done| |done|exact Hr].
  intros [s1 acc] r1 _. simpl. destruct (xattrs_next s1) as [[s3 [item|e|]]|] eqn:E; [done|by intros [= <-]| |by intros [= <-]].
  by apply xattrs_next_no_panic in E.
Qed.

(** ** Compressed data *)

Lemma lci_decreases e dec lcis bl fs :
  loop_decreases (lci_step e dec lcis bl fs) (lci_measure lcis).
Proof.
  intros [[i_ buf] out] [[i_' buf'] out']. unfold lci_step, lci_measure. simpl.
  destruct i_ as [i|]; [|done].
  destruct (lcis !! i) as [cur|] eqn:Hi; [|done]. apply lookup_lt_Some in Hi.
  destruct (lci_typ cur); [..|done|done].
  - destruct (_ =? 0); [by destruct (decide _)|].
    destruct (rbind _ _) as [s| |] eqn:Hr; [|done..]. intros [= ->].
    monad_simp. subst. lia.
  - destruct (rbind _ _) as [s| |] eqn:Hr; [|done..]. intros [= ->].
    monad_simp. subst. destruct i_' as [j|]; [|lia].
    enough (i < j)%nat by lia.
    match goal with H : pcluster_len _ _ _ _ = _ |- _ => revert H end. clear.
    unfold pcluster_len. intros H. monad_simp. revert H.
    destruct (lci_typ a0); try (intros ?; simplify_eq; lia).
    destruct (lcis !! (i + 1 + _)%nat); [intros ?; simplify_eq; lia|].
    destruct (decide _); [|done]. by destruct (_ <? _).
Qed.

(** The decompressor's documented contract: it fills at most the buffer. *)
Definition decompressor_ok (dec : list byte -> list byte -> Z -> option (Z * list byte)) : Prop :=
  forall src dst n k dst', dec src dst n = Some (k, dst') -> 0 <= k <= zlen dst'.

(** ** Checksums *)

Lemma lxor_range w a b : 0 <= w -> 0 <= a < 2 ^ w -> 0 <= b < 2 ^ w -> 0 <= Z.lxor a b < 2 ^ w.
Proof.
  intros Hw [Ha Ha'] [Hb Hb']. assert (0 <= Z.lxor a b) as Hn by (apply Z.lxor_nonneg; lia).
  split; [done|]. apply Z.bounded_iff_bits_nonneg; [done..|]. intros l Hl.
  rewrite Z.bounded_iff_bits_nonneg in Ha', Hb' by done.
  by rewrite Z.lxor_spec, Ha', Hb' by done.
Qed.

Lemma land_1_odd a : (Z.land a 1 =? 0) = negb (Z.odd a).
Proof.
  change 1 with (Z.ones 1). rewrite Z.land_ones by lia. change (2 ^ 1) with 2.
  rewrite Zmod_odd. by destruct (Z.odd a).
Qed.

Lemma shiftr_1_range a : 0 <= a < 2 ^ 32 -> 0 <= Z.shiftr a 1 < 2 ^ 31.
Proof.
  intros [? ?]. rewrite Z.shiftr_div_pow2 by lia.
  split; [apply Z.div_pos; lia | apply Z.div_lt_upper_bound; lia].
Qed.

Lemma crc32c_round_range a : 0 <= a < 2 ^ 32 -> 0 <= crc32c_round a < 2 ^ 32.
Proof.
  intros Ha. unfold crc32c_round. apply lxor_range; [lia| |].
  - pose proof (shiftr_1_range a Ha). lia.
  - destruct (_ =? 0); unfold crc32c_poly; lia.
Qed.

(** The polynomial's top bit keeps the bit shifted out, so no round loses
    information. *)
Lemma crc32c_round_top a : 0 <= a < 2 ^ 32 -> Z.testbit (crc32c_round a) 31 = Z.odd a.
Proof.
  intros Ha. unfold crc32c_round. rewrite Z.lxor_spec, land_1_odd.
  pose proof (shiftr_1_range a Ha) as [H1 H2].
  rewrite Z.bounded_iff_bits_nonneg in H2 by lia. rewrite H2 by lia.
  by destruct (Z.odd a).
Qed.

Lemma crc32c_round_inj a b :
  0 <= a < 2 ^ 32 -> 0 <= b < 2 ^ 32 -> crc32c_round a = crc32c_round b -> a = b.
Proof.
  intros Ha Hb He.
  assert (Z.odd a = Z.odd b) as Ho.
  { rewrite <-crc32c_round_top, <-(crc32c_round_top b) by done. by rewrite He. }
  unfold crc32c_round in He. rewrite !land_1_odd, Ho in He.
  apply (f_equal (fun x => Z.lxor x (if negb (Z.odd b) then 0 else crc32c_poly))) in He.
  rewrite !Z.lxor_assoc, Z.lxor_nilpotent, !Z.lxor_0_r in He.
  rewrite !Z.shiftr_div_pow2 in He by lia. change (2 ^ 1) with 2 in He.
  pose proof (Z.div_mod a 2). pose proof (Z.div_mod b 2). rewrite !Zmod_odd, Ho in *. lia.
Qed.

Lemma iter_inj {A} (P : A -> Prop) (f : A -> A) n :
  (forall a, P a -> P (f a)) -> (forall a b, P a -> P b -> f a = f b -> a = b) ->
  (forall a, P a -> P (Nat.iter n f a)) /\
  forall a b, P a -> P b -> Nat.iter n f a = Nat.iter n f b -> a = b.
Proof. intros Hp Hf. induction n as [|n [IHp IH]]; simpl; [done|]. split; eauto. Qed.

Definition is_u32 (z : Z) : Prop := 0 <= z < 2 ^ 32.

Lemma crc32c_iter n :
  (forall a, is_u32 a -> is_u32 (Nat.iter n crc32c_round a)) /\
  forall a b, is_u32 a -> is_u32 b ->
    Nat.iter n crc32c_round a = Nat.iter n crc32c_round b -> a = b.
Proof. apply iter_inj; [exact crc32c_round_range | exact crc32c_round_inj]. Qed.

Lemma lxor_byte_u32 a x : is_u32 a -> is_u32 (Z.lxor a (byte_val x)).
Proof. intros Ha. pose proof (byte_val_range x). apply lxor_range; [lia|exact Ha|lia]. Qed.

Lemma crc32c_byte_range a x : is_u32 a -> is_u32 (crc32c_byte a x).
Proof. intros Ha. exact (proj1 (crc32c_iter 8) _ (lxor_byte_u32 a x Ha)). Qed.

Lemma crc32c_byte_inj a b x y :
  is_u32 a -> is_u32 b -> crc32c_byte a x = crc32c_byte b y ->
  Z.lxor a (byte_val x) = Z.lxor b (byte_val y).
Proof.
  intros Ha Hb. exact (proj2 (crc32c_iter 8) _ _ (lxor_byte_u32 a x Ha) (lxor_byte_u32 b y Hb)).
Qed.

Lemma lxor_cancel_r a b c : Z.lxor a c = Z.lxor b c -> a = b.
Proof.
  intros H%(f_equal (fun x => Z.lxor x c)).
  by rewrite !Z.lxor_assoc, Z.lxor_nilpotent, !Z.lxor_0_r in H.
Qed.

(** Folds of a function that keeps [P] and is injective on it. *)
Lemma fold_left_keeps {A B} (P : A -> Prop) (f : A -> B -> A) l a :
  (forall a x, P a -> P (f a x)) -> P a -> P (fold_left f l a).
Proof. intros Hf. revert a. induction l; simpl; auto. Qed.

Lemma fold_left_inj {A B} (P : A -> Prop) (f : A -> B -> A) l a b :
  (forall a x, P a -> P (f a x)) ->
  (forall a b x, P a -> P b -> f a x = f b x -> a = b) ->
  P a -> P b -> fold_left f l a = fold_left f l b -> a = b.
Proof. intros Hp Hf. revert a b. induction l; simpl; eauto. Qed.

Lemma fold_left_mid {A B} (f : A -> B -> A) pre x post a :
  fold_left f (pre ++ x :: post) a = fold_left f post (f (fold_left f pre a) x).
Proof. by rewrite fold_left_app. Qed.

Lemma lxor_cancel_l a b c : Z.lxor c a = Z.lxor c b -> a = b.
Proof. rewrite !(Z.lxor_comm c). apply lxor_cancel_r. Qed.

Lemma crc32c_fold_range l a : is_u32 a -> is_u32 (fold_left crc32c_byte l a).
Proof. apply (fold_left_keeps is_u32 crc32c_byte), crc32c_byte_range. Qed.

Lemma crc32c_fold_inj l a b :
  is_u32 a -> is_u32 b ->
  fold_left crc32c_byte l a = fold_left crc32c_byte l b -> a = b.
Proof.
  apply (fold_left_inj is_u32 crc32c_byte); [exact crc32c_byte_range|].
  intros a' b' x Ha Hb H. exact (lxor_cancel_r _ _ _ (crc32c_byte_inj _ _ _ _ Ha Hb H)).
Qed.

(** ** Sizes *)

Lemma compute_block_tail_len_spec bs size :
  0 < bs < 2 ^ 64 -> in_width 64 size ->
  let '(b, t) := compute_block_tail_len bs size in
  b = size / bs * bs /\ t = size mod bs /\ b + t = size /\ 0 <= b /\ 0 <= t < bs.
Proof.
  intros Hb Hs. unfold compute_block_tail_len, in_width in *.
  pose proof (Z.div_mod size bs ltac:(lia)). pose proof (Z.mod_pos_bound size bs ltac:(lia)).
  pose proof (Z.div_pos size bs ltac:(lia) ltac:(lia)).
  rewrite wmul_small by (unfold in_width; nia).
  unfold wsub. rewrite wrap_small by (unfold in_width; nia). nia.
Qed.

Lemma data_size_range id d i : Inode_new id d = Ok i -> in_width 64 (data_size i).
Proof.
  intros (_ & _ & Hi)%Inode_new_inv. unfold in_width.
  destruct i as [? x|? x]; destruct Hi as [d' Hx]; apply pod_read_inv in Hx as [Hok _];
    simpl in Hok; unfold int_ok in Hok; simpl in *; lia.
Qed.

Lemma get_range_wadd {A} (d : list A) a n r :
  in_width 64 a -> in_width 64 n -> get_range d a (wadd 64 a n) = Some r -> zlen r = n.
Proof.
  intros Ha Hn Hr. apply get_range_length in Hr as (Hl & _ & Hle); [|apply Ha].
  unfold in_width, wadd, wrap in *. change (2 ^ 64) with 18446744073709551616 in *.
  pose proof (Z.mod_small (a + n) 18446744073709551616).
  pose proof (Z_mod_plus_full (a + n - 18446744073709551616) 1 18446744073709551616).
  pose proof (Z.mod_small (a + n - 18446744073709551616) 18446744073709551616).
  destruct (Z.ltb_spec (a + n) 18446744073709551616); [lia|].
  replace (a + n) with (a + n - 18446744073709551616 + 1 * 18446744073709551616) in Hle, Hl by lia.
  lia.
Qed.

Lemma wadd_in_width w a b : 0 <= w -> in_width w (wadd w a b).
Proof. intros. unfold in_width, wadd, wrap. apply Z.mod_pos_bound, Z.pow_pos_nonneg; lia. Qed.
Lemma wshl_in_width w a b : 0 <= w -> in_width w (wshl w a b).
Proof. intros. unfold in_width, wshl, wrap. apply Z.mod_pos_bound, Z.pow_pos_nonneg; lia. Qed.

(** ** Layouts of inodes *)

Lemma format_layout_inv t l :
  get_layout (format_layout t l) = Ok l /\
  get_format (format_layout t l) = (match t with CompactType => 0 | ExtendedType => 1 end) /\
  int_ok 2 (format_layout t l).
Proof. destruct t, l; vm_compute; intuition congruence. Qed.

Lemma Inode_new_extended id x rest l :
  pod_ok x -> ie_format_layout x = format_layout ExtendedType l ->
  Inode_new id (as_bytes x ++ rest) = Ok (Extended id x).
Proof.
  intros Hok Hl. destruct (format_layout_inv ExtendedType l) as (H1 & H2 & H3).
  unfold Inode_new.
  destruct (pod_first_field ie_format_layout _ _ _ (pod_read_as_bytes x rest Hok)) as [r Hr];
    [by eexists | simpl; tauto|].
  rewrite Hr. simpl. rewrite Hl, H1. simpl. rewrite H2. by rewrite pod_read_as_bytes.
Qed.

Lemma Inode_new_compact id x rest l :
  pod_ok x -> ic_format_layout x = format_layout CompactType l ->
  Inode_new id (as_bytes x ++ rest) = Ok (Compact id x).
Proof.
  intros Hok Hl. destruct (format_layout_inv CompactType l) as (H1 & H2 & H3).
  unfold Inode_new.
  destruct (pod_first_field ic_format_layout _ _ _ (pod_read_as_bytes x rest Hok)) as [r Hr];
    [by eexists | simpl; tauto|].
  rewrite Hr. simpl. rewrite Hl, H1. simpl. rewrite H2. by rewrite pod_read_as_bytes.
Qed.

(** ** Panics of the read of compressed data *)

Lemma lci_step_panic e dec lcis bl fs s :
  decompressor_ok dec -> zlen (img e) < 2 ^ 46 -> in_width 64 bl -> lci_step e dec lcis bl fs s = Done Panic ->
  exists i next len, pcluster_len lcis i bl fs = Ok (next, len) /\ isize_max < len /\ 0 <= bl < 2 ^ 46.
Proof.
  intros Hdec He Hbl. destruct s as [[i_ buf] out]. unfold lci_step.
  destruct i_ as [i|]; [|done]. destruct (lcis !! i) as [cur|]; [|done].
  destruct (lci_typ cur); [..|done|done].
  - destruct (_ =? 0); [by destruct (decide _)|].
    destruct (lcis !! (i + 1)%nat); simpl; [|done]. by destruct (get_range _ _ _).
  - destruct (get_range _ _ _) as [data|] eqn:Hg; simpl; [|done].
    assert (0 <= bl < 2 ^ 46) as Hbl46.
    { pose proof (wshl_in_width 64 (lci_block_addr cur) (blkszbits (sb e)) ltac:(lia)) as Ha.
      pose proof (get_range_length _ _ _ _ (proj1 Ha) Hg) as (Hlen & Hle & _).
      apply get_range_wadd in Hg; [|done|done]. pose proof (proj1 Ha). unfold block_offset in *.
      unfold in_width in *. lia. }
    destruct (pcluster_len lcis i bl fs) as [[next len]| |] eqn:E; simpl; [|done|].
    + unfold resize. destruct (Z.ltb_spec isize_max len); [by eauto 6|].
      intros Hp. exfalso. revert Hp.
      destruct (zlen buf <? len); simpl.
      all: destruct (dec _ _ _) as [[k b]|] eqn:Ed; simpl; [|done]; apply Hdec in Ed;
        unfold get_range; rewrite (proj2 (Z.leb_le 0 k)), (proj2 (Z.leb_le k (zlen b))) by lia; done.
    + exfalso. revert E. unfold pcluster_len.
      destruct (lcis !! i); simpl; [|done]. destruct (lcis !! (i + 1)%nat) as [nx|]; simpl; [|done].
      destruct (lci_typ nx); try done. destruct (lcis !! _); [done|].
      destruct (decide _); [|done]. by destruct (_ <? _).
Qed.

(** A cluster that begins further into its block than the next head is away. *)
Definition cluster_underflow (lcis : list LogicalClusterIndex) (block_len : Z) : Prop :=
  exists i j cur next, lcis !! i = Some cur /\ lcis !! j = Some next /\ (i < j)%nat /\
    (Z.of_nat j - Z.of_nat i) * block_len + cluster_offset next < cluster_offset cur.

Lemma lci_offset_range l : pod_ok l -> 0 <= cluster_offset l < 65536.
Proof. intros (_ & H & _). exact H. Qed.

Lemma lci_delta1_range l : pod_ok l -> 0 <= lci_delta1 l < 65536.
Proof.
  intros (_ & _ & H). unfold lci_delta1. pose proof (le_val_range (take 2 (drop 2 (block_addr_or_delta l)))) as Hr.
  unfold zlen in Hr. rewrite length_take, length_drop, H in Hr. exact Hr.
Qed.

(** The length to the next head, without overflow. *)
Lemma with_head_huge lcis i j bl cur next :
  Forall pod_ok lcis -> 0 <= bl < 2 ^ 46 -> lcis !! i = Some cur -> lcis !! j = Some next ->
  (i < j)%nat -> Z.of_nat j <= Z.of_nat i + 65536 ->
  isize_max < wsub 64 (wadd 64 (wmul 64 (Z.of_nat j - Z.of_nat i) bl) (cluster_offset next)) (cluster_offset cur) ->
  cluster_underflow lcis bl.
Proof.
  intros Hok Hbl Hc Hn Hj Hj2 Hbig. exists i, j, cur, next. split_and!; [done|done|lia|].
  rewrite Forall_forall in Hok. pose proof (lci_offset_range _ (Hok _ (list_elem_of_lookup_2 _ _ _ Hc))) as Hoc.
  pose proof (lci_offset_range _ (Hok _ (list_elem_of_lookup_2 _ _ _ Hn))) as Hon.
  change (2 ^ 46) with 70368744177664 in Hbl. set (k := Z.of_nat j - Z.of_nat i) in *.
  assert (0 <= k <= 65536) as Hk by lia. clearbody k.
  assert (0 <= k * bl <= 65536 * 70368744177664) as Hm.
  { split; [nia|]. apply Z.mul_le_mono_nonneg; lia. }
  rewrite wmul_small in Hbig by (unfold in_width; lia). rewrite wadd_small in Hbig by (unfold in_width; lia).
  destruct (Z.lt_ge_cases (k * bl + cluster_offset next) (cluster_offset cur)); [done|].
  unfold wsub in Hbig. rewrite wrap_small in Hbig by (unfold in_width; lia). unfold isize_max in Hbig. lia.
Qed.

Lemma pcluster_len_huge lcis i bl fs next len :
  Forall pod_ok lcis -> 0 <= bl < 2 ^ 46 -> pcluster_len lcis i bl fs = Ok (next, len) -> isize_max < len ->
  isize_max < fs \/ cluster_underflow lcis bl.
Proof.
  intros Hok Hbl. unfold pcluster_len. destruct (lcis !! i) as [cur|] eqn:Hc; simpl; [|done].
  destruct (lcis !! (i + 1)%nat) as [nx|] eqn:Hn; simpl; [|done].
  pose proof Hok as Hok'. rewrite Forall_forall in Hok'.
  pose proof (lci_offset_range _ (Hok' _ (list_elem_of_lookup_2 _ _ _ Hc))) as Hoc.
  pose proof (lci_delta1_range _ (Hok' _ (list_elem_of_lookup_2 _ _ _ Hn))) as Hd.
  destruct (lci_typ nx).
  1,2,4: intros [= <- <-] Hbig; right; by apply (with_head_huge lcis i (i + 1) bl cur nx); [| | | |lia|lia|].
  destruct (lcis !! (i + 1 + _)%nat) as [nh|] eqn:Hh.
  - intros [= <- <-] Hbig. right. by apply (with_head_huge lcis i (i + 1 + Z.to_nat (lci_delta1 nx)) bl cur nh); [| | | |lia|lia|].
  - destruct (decide _); [|done]. destruct (Z.ltb_spec fs (wadd 64 (wmul 64 (Z.of_nat i) bl) (cluster_offset cur))); [done|].
    intros [= <- <-] Hbig. left. assert (0 <= wadd 64 (wmul 64 (Z.of_nat i) bl) (cluster_offset cur)); [|lia].
    unfold wadd, wrap. apply Z.mod_pos_bound. lia.
Qed.

Lemma read_elems_ok {T} `{PodLaws T} n d (l : list T) : read_elems n d = Some l -> Forall pod_ok l.
Proof.
  revert d l. induction n as [|n IH]; intros d l; simpl; [by intros [= <-]|].
  destruct (try_read_from_prefix d) as [[x d']|] eqn:E; [|done]. simpl.
  destruct (read_elems n d') as [xs|] eqn:Er; [|done]. intros [= <-].
  constructor; [by apply pod_read_inv in E as [? _]|by eapply IH].
Qed.

Lemma get_lcis_ok e inode lcis : get_logical_cluster_indices e inode = Ok lcis -> Forall pod_ok lcis.
Proof.
  unfold get_logical_cluster_indices. destruct (layout inode); simpl; [|done|done].
  destruct (decide _); [|done]. destruct (get_from _ _) as [d|]; simpl; [|done]. destruct (_ <? _); [done|].
  destruct (read_elems _ d) as [l|] eqn:E; simpl; [|done]. intros [= <-]. exact (read_elems_ok _ _ _ E).
Qed.

(** * Properties *)

(** The file types of Linux: the conversions [rustix] documents. *)
Definition S_IFMT : Z := 0xF000.
#[export] Instance linux_file_types : RustixFileType := {
  from_raw_mode m :=
    match Z.land m S_IFMT with
    | 0x8000 => FileType.RegularFile | 0x4000 => FileType.Directory
    | 0xA000 => FileType.Symlink | 0x1000 => FileType.Fifo | 0xC000 => FileType.Socket
    | 0x2000 => FileType.CharacterDevice | 0x6000 => FileType.BlockDevice
    | _ => FileType.Unknown
    end;
  as_raw_mode t :=
    match t with
    | FileType.RegularFile => 0x8000 | FileType.Directory => 0x4000
    | FileType.Symlink => 0xA000 | FileType.Fifo => 0x1000 | FileType.Socket => 0xC000
    | FileType.CharacterDevice => 0x2000 | FileType.BlockDevice => 0x6000
    | FileType.Unknown => S_IFMT
    end;
}.

(** C9: path lookup returns on every image, however malformed: for all image
    bytes, superblocks, paths and conversions of raw modes it ends with an
    inode, nothing or an error, and no index, [expect] or loop gets stuck. *)
Theorem lookup_never_panics `{RustixFileType} e p : lookup e p <> Panic.
Proof.
  unfold lookup. apply rbind_not_panic; [apply get_inode_no_panic|].
  intros root [d Hd]%get_inode_new. by eapply lookup_from_no_panic.
Qed.

(** The linear search of a directory is the search of its items: when the
    iterator delivers [items], looking for a name gives the first of them with
    that name. *)
Theorem find_dirent_first data bs s items name :
  0 < bs -> DirentsIterator_new data bs = Ok s -> collect_dirents s = Ok items ->
  find_dirent name s = Ok (first_named name items).
Proof.
  intros Hb Hs Hc. apply DirentsIterator_new_inv in Hs; [|done].
  unfold collect_dirents in Hc.
  destruct (loop _ _ _) as [r|] eqn:E; [|done]. simpl in Hc. subst r.
  by destruct (collect_find _ _ _ name Hs E) as (new & -> & ->).
Qed.

Definition example_dirents : list byte :=
  as_bytes {| de_disk_id := 36; name_offset := 24; de_file_type := 2; de_reserved := 0 |} ++
  as_bytes {| de_disk_id := 37; name_offset := 25; de_file_type := 1; de_reserved := 0 |} ++
  bytes_of_string "." ++ bytes_of_string "file".
Definition example_iter : DirentsIterator :=
  {| di_data := example_dirents; di_remaining := Some []; di_i := 0; di_count := 2;
     di_block_size := 4096 |}.
Definition example_items : list DirentItem :=
  [{| item_disk_id := 36; item_file_type := DirentFileType.Directory; item_name := dot |};
   {| item_disk_id := 37; item_file_type := DirentFileType.RegularFile;
      item_name := bytes_of_string "file" |}].

Lemma find_dirent_first_witness :
  find_dirent (bytes_of_string "file") example_iter =
    Ok (first_named (bytes_of_string "file") example_items).
Proof.
  apply (find_dirent_first (example_dirents, []) 4096).
  - lia.
  - vm_compute. reflexivity.
  - vm_compute. reflexivity.
Defined.

(** The block and tail slices of a file together have exactly the size the
    inode states, for both flat layouts. *)
Theorem get_data_size `{RustixFileType} e id i block tail :
  get_inode e id = Ok i -> get_data e i = Ok (block, tail) ->
  zlen block + zlen tail = data_size i.
Proof.
  intros [d Hd]%get_inode_new Hg. apply data_size_range in Hd. unfold get_data in Hg. monad_simp.
  pose proof (block_size_pos e).
  pose proof (compute_block_tail_len_spec (block_size e) (data_size i) ltac:(lia) Hd) as Hs.
  destruct a; try done.
  - destruct (Z.eqb_spec (data_size i) 0); [by simplify_eq|].
    monad_simp. simplify_eq.
    apply get_range_wadd in Hm0; [|by apply wshl_in_width|done]. change (zlen (@nil byte)) with 0. lia.
  - destruct (compute_block_tail_len _ _) as [bl tl]. monad_simp. simplify_eq.
    destruct Hs as (_ & _ & Hsum & Hb & Ht). unfold in_width in Hd.
    apply get_range_wadd in Hm0; [|by apply wadd_in_width|unfold in_width; lia].
    destruct (_ =? 4294967295).
    + destruct (Z.eqb_spec bl 0); [|done]. simpl in Hm1. injection Hm1 as <-. rewrite zlen_nil. lia.
    + apply ok_or_Ok, get_range_wadd in Hm1; [lia|by apply wshl_in_width|unfold in_width; lia].
Qed.

(** A small image: blocks of 512 bytes, the inodes in block 3, one file with
    five bytes behind its inode. *)
Definition example_sb : Superblock :=
  {| magic := EROFS_SUPER_MAGIG_V1; checksum := 0; feature_compat := 0; blkszbits := 9;
     sb_extslots := 0; root_disk_id := 0; inos := 1; build_time := 0; build_time_nsec := 0;
     blocks := 0; meta_blkaddr := 3; xattr_blkaddr := 0; uuid := replicate 16 x00;
     volume_name := replicate 16 x00; feature_incompat := 0;
     available_compr_algs_or_lz4_max_distance := 0; extra_devices := 0; devt_slotoff := 0;
     dirblkbits := 0; xattr_prefix_count := 0; xattr_prefix_start := 0; packed_nid := 0;
     xattr_filter_reserved := 0; sb_reserved2 := replicate 23 x00 |}.
Definition example_inode : InodeExtended :=
  {| ie_format_layout := format_layout ExtendedType FlatInline; ie_xattr_count := 0;
     ie_mode := 0x81A4; ie_reserved := 0; ie_size := 5; ie_info := new_raw_blkaddr EROFS_NULL_ADDR;
     ie_ino := 0; ie_uid := 0; ie_gid := 0; ie_mtime := 0; ie_mtime_nsec := 0; ie_nlink := 1;
     ie_reserved2 := replicate 16 x00 |}.
Definition example_image : Erofs :=
  {| img := replicate 1024 x00 ++ as_bytes example_sb ++ replicate 384 x00 ++
            as_bytes example_inode ++ bytes_of_string "hello";
     sb := example_sb |}.

Lemma get_data_size_witness :
  zlen (@nil byte) + zlen (bytes_of_string "hello") = data_size (Extended 0 example_inode).
Proof.
  apply (get_data_size example_image 0); vm_compute; reflexivity.
Defined.

(** Opening an image reads back the superblock that was written at its
    place, whatever surrounds it, exactly when the magic number is right. *)
Theorem superblock_roundtrip pre s post :
  zlen pre = EROFS_SUPER_OFFSET -> pod_ok s ->
  Erofs_new (pre ++ as_bytes s ++ post) =
    if magic s =? EROFS_SUPER_MAGIG_V1
    then Ok {| img := pre ++ as_bytes s ++ post; sb := s |} else Err BadMagic.
Proof.
  intros Hp Hs. unfold Erofs_new. rewrite get_from_app by done. simpl.
  rewrite pod_read_as_bytes by done. simpl. by destruct (magic s =? _).
Qed.

Lemma superblock_roundtrip_witness :
  Erofs_new (replicate 1024 x00 ++ as_bytes example_sb ++ []) =
    Ok {| img := replicate 1024 x00 ++ as_bytes example_sb ++ []; sb := example_sb |}.
Proof.
  apply (superblock_roundtrip (replicate 1024 x00) example_sb []).
  - reflexivity.
  - vm_compute. intuition congruence.
Defined.

(** An inode of either size is read back from its bytes whatever follows
    them, when its format field was made by [format_layout]; and that field's
    layout and size flag are the ones it was made from. *)
Theorem inode_roundtrip id (i : Inode) l rest :
  match i with
  | Compact id' x => id' = id /\ pod_ok x /\ ic_format_layout x = format_layout CompactType l
  | Extended id' x => id' = id /\ pod_ok x /\ ie_format_layout x = format_layout ExtendedType l
  end ->
  let bytes := match i with Compact _ x => as_bytes x | Extended _ x => as_bytes x end in
  Inode_new id (bytes ++ rest) = Ok i /\ layout i = Ok l /\ zlen bytes = inode_size i.
Proof.
  destruct i as [id' x|id' x]; intros (-> & Hok & Hl); simpl.
  - split; [by eapply Inode_new_compact|]. unfold layout. simpl. rewrite Hl.
    destruct (format_layout_inv CompactType l) as [-> _]. split; [done|]. by rewrite pod_as_bytes_length.
  - split; [by eapply Inode_new_extended|]. unfold layout. simpl. rewrite Hl.
    destruct (format_layout_inv ExtendedType l) as [-> _]. split; [done|]. by rewrite pod_as_bytes_length.
Qed.

Lemma inode_roundtrip_witness :
  Inode_new 7 (as_bytes example_inode ++ [x00]) = Ok (Extended 7 example_inode).
Proof.
  apply (inode_roundtrip 7 (Extended 7 example_inode) FlatInline [x00]).
  split; [reflexivity|]. split; [vm_compute; intuition congruence|reflexivity].
Defined.

(** The checksum detects every corruption of a single byte: two blocks that
    differ in exactly one byte have different checksums. *)
Theorem crc32c_detects pre x y post :
  x <> y -> crc32c (pre ++ x :: post) <> crc32c (pre ++ y :: post).
Proof.
  intros Hxy H. unfold crc32c in H. rewrite !fold_left_mid in H.
  assert (is_u32 u32_max) as H0 by (unfold is_u32, u32_max; lia).
  pose proof (crc32c_fold_range pre u32_max H0) as Hu. revert H Hu.
  generalize (fold_left crc32c_byte pre u32_max). intros c H Hu.
  apply (crc32c_fold_inj post _ _ (crc32c_byte_range _ x Hu) (crc32c_byte_range _ y Hu)) in H.
  apply (crc32c_byte_inj _ _ _ _ Hu Hu) in H.
  by apply lxor_cancel_l, byte_val_inj in H.
Qed.

Lemma crc32c_detects_witness : crc32c [x61; x62] <> crc32c [x61; x63].
Proof. apply (crc32c_detects [x61] x62 x63 []). done. Defined.

(** The check value of CRC-32C, without the final inversion. *)
Example crc32c_check_value : crc32c (bytes_of_string "123456789") = Z.lxor 0xE3069283 u32_max.
Proof. vm_compute. reflexivity. Qed.

(** C37: reading a compressed file ends.  For every image of less than 64 TiB, every
    inode that was read from it and a decompressor that keeps its contract, the loop
    over the logical clusters ends whatever they hold, and the whole read panics
    only when the inode claims a size over [isize::MAX] or a cluster begins more
    than its distance to a later one behind it, so that the length between the two
    underflows. *)
Theorem get_compressed_data_ends lz4 e id inode :
  (forall dec, lz4 = Some dec -> decompressor_ok dec) -> zlen (img e) < 2 ^ 46 -> get_inode e id = Ok inode ->
  (forall dec lcis bl fs, exists r, loop (lci_step e dec lcis bl fs) (lci_measure lcis) (Some O, [], []) = Some r) /\
  (get_compressed_data lz4 e inode = Panic ->
     exists header lcis, get_map_header e inode = Ok header /\ get_logical_cluster_indices e inode = Ok lcis /\
       (isize_max < data_size inode \/
        cluster_underflow lcis (wshl 64 1 (wadd 8 (blkszbits (sb e)) (cluster_size_bits header))))).
Proof.
  intros Hdec He Hi. split; [intros; apply loop_total, lci_decreases|].
  apply get_inode_new in Hi as [d Hi]. apply layout_no_panic in Hi as Hl. apply data_size_range in Hi.
  unfold get_compressed_data. destruct (get_map_header e inode) as [h| |] eqn:Hh; simpl; [|done|].
  2: { unfold get_map_header in Hh. destruct (layout inode); simpl in Hh; [|done|done].
       destruct (negb _); [done|]. destruct (get_from _ _); simpl in Hh; [|done].
       by destruct (try_read_from_prefix _) as [[? ?]|]. }
  destruct (compression_type_1 h) as [t| |] eqn:Ht; simpl; [|done|].
  2: { unfold compression_type_1, CompressionType_try_from in Ht. by repeat case_match. }
  destruct (get_decompressor lz4 t) as [dec| |] eqn:Hd; simpl; [|done|by destruct t, lz4].
  assert (decompressor_ok dec) as Hok by (destruct t, lz4; simplify_eq/=; by apply Hdec).
  destruct (get_logical_cluster_indices e inode) as [lcis| |] eqn:Hc; simpl; [|done|].
  2: { unfold get_logical_cluster_indices in Hc. destruct (layout inode); simpl in Hc; [|done|done].
       destruct (decide _); [|done]. destruct (get_from _ _); simpl in Hc; [|done].
       destruct (_ <? _); [done|]. by destruct (read_elems _ _). }
  apply get_lcis_ok in Hc as Hpod. destruct (decide (lcis = [])); [done|].
  set (bl := wshl 64 1 _). intros Hp. exists h, lcis. split; [done|]. split; [done|].
  destruct (loop_total _ _ (lci_decreases e dec lcis bl (data_size inode)) (Some O, [], [])) as [r Hr].
  rewrite Hr in Hp. simpl in Hp. subst r. revert Hr. intros Hr.
  apply (run_loop_inv (lci_step e dec lcis bl (data_size inode)) (fun _ => True)
    (fun r => r = Panic -> isize_max < data_size inode \/ cluster_underflow lcis bl))
    with (fuel := S (lci_measure lcis (Some O, [], []))) (s := (Some O, [], [])) (r := Panic); [done| |done|exact Hr|done].
  intros s r' _ Hs ->. apply lci_step_panic in Hs as (i & next & len & Hlen & Hbig & Hbl); [|done|done|by apply wshl_in_width].
  by eapply pcluster_len_huge.
Qed.

(** A file in two clusters, whose first begins [offset] bytes into its block. *)
Definition example_lci (advise offset addr : Z) : LogicalClusterIndex :=
  {| advise := advise; lci_cluster_offset := offset; block_addr_or_delta := le_bytes 4 addr |}.
Definition example_compressed_inode : InodeExtended :=
  {| ie_format_layout := format_layout ExtendedType CompressedFull; ie_xattr_count := 0;
     ie_mode := 0x81A4; ie_reserved := 0; ie_size := 700; ie_info := new_raw_blkaddr 0;
     ie_ino := 0; ie_uid := 0; ie_gid := 0; ie_mtime := 0; ie_mtime_nsec := 0; ie_nlink := 1;
     ie_reserved2 := replicate 16 x00 |}.
Definition example_compressed (offset : Z) : Erofs :=
  {| img := replicate 1024 x00 ++ as_bytes example_sb ++ replicate 384 x00 ++
            as_bytes example_compressed_inode ++
            as_bytes {| fragment_offset_or_data_size := 0; mh_config := 0; mh_algorithm := 0; cluster_bits := 0 |} ++
            replicate 8 x00 ++ as_bytes (example_lci 1 offset 1) ++ as_bytes (example_lci 0 0 0);
     sb := example_sb |}.
Definition example_lz4 (src dst : list byte) (n : Z) : option (Z * list byte) :=
  Some (zlen dst, dst).

Lemma get_compressed_data_ends_witness :
  get_compressed_data (Some example_lz4) (example_compressed 12) (Extended 0 example_compressed_inode) =
    Ok (replicate 500 x00) /\
  cluster_underflow [example_lci 1 600 1; example_lci 0 0 0] 512.
Proof.
  split; [vm_compute; reflexivity|].
  destruct (get_compressed_data_ends (Some example_lz4) (example_compressed 600) 0 (Extended 0 example_compressed_inode))
    as [_ H].
  - intros dec [= <-] src dst n k dst' [= <- <-]. pose proof (zlen_nonneg dst). lia.
  - vm_compute. reflexivity.
  - vm_compute. reflexivity.
  - destruct H as (h & lcis & Hh & Hl & H); [vm_compute; reflexivity|].
    vm_compute in Hh. injection Hh as <-. vm_compute in Hl. injection Hl as <-.
    destruct H as [H|H]; [vm_compute in H; discriminate H|exact H].
Defined.

(** The prefix table shadows its own last entry: the empty prefix of entry
    5 matches every key, so no key is without a builtin prefix and no key gets
    the id of [security.]. *)
Theorem security_prefix_unreachable key :
  exists id len, xattr_builtin_prefix key = Some (id, len) /\ 1 <= id <= 5.
Proof.
  unfold xattr_builtin_prefix, XATTR_BUILTIN_PREFIX_TABLE. cbn [fmap list_fmap find_prefix].
  destruct (starts_with _ key); [eexists _, _; split; [reflexivity|by vm_compute]|].
  destruct (starts_with _ key); [eexists _, _; split; [reflexivity|by vm_compute]|].
  destruct (starts_with _ key); [eexists _, _; split; [reflexivity|by vm_compute]|].
  destruct (starts_with _ key); [eexists _, _; split; [reflexivity|by vm_compute]|].
  eexists _, _. split; [reflexivity|by vm_compute].
Qed.
