(* ===== verification/ErofsBuild.v ===== *)
(** Building an erofs image (src/peerofs/src/build.rs).

    The builder keeps the directory tree in memory, writes file contents to the
    output as they arrive, and at the end writes the inodes and the directory
    entries in four walks over the tree.  The file models the tree and its path
    lookup, the walks and their visitors, [write_inode], hard links, and the
    builder's operations.  The output is a seekable in-memory file whose writes
    do not fail; arithmetic is that of a release build. *)
From stdpp Require Import option base list numbers strings.
From Stdlib Require Import ZArith Lia.
From S2P Require Import Prelude MemFile BTree Paths ErofsDisk.
#[local] Open Scope Z_scope.
#[local] Open Scope result_scope.

(** * Data *)

Inductive Error :=
  | FileExists | BadFilename | EmptyPath | EmptyFilename | NotADir | BlockNoTooBig
  | MetaBlockTooBig | FileBlockTooBig | InodeTooBig | NoMetaBlock | AddrLessThanMetaBlock
  | AddrNotAligned | DiskIdTooBig | NoDiskId | NoRootDiskId | RootDiskIdTooBig | NoStartBlock
  | IterFail | NameOffsetTooBig | UidGidTooBig | HardlinkToDir | HardlinkNotResolved
  | HardlinkMultiNotHandled | UnhandledPrefixComponent | PathWithDotDot | WeirdPath
  | PathTrailingSlash | InsertFailed | UpsertFailed | MaxDepthExceeded | XattrKeyTooLong
  | XattrValueTooLong | TooManyXattrs | ModeShouldFitInU16
  | DirDiskIdMismatch (expected : option Z) (got : Z) | MaxSizeExceeded | Oob
  | Other (msg : string) | Io.

Definition MAX_DEPTH : nat := 32.

Record Stats := {
  files : Z;
  symlinks : Z;
  dirs : Z;
  tails : Z;
  tail_size : Z;
  block_end_padding : Z;
}.
Definition Stats_default : Stats :=
  {| files := 0; symlinks := 0; dirs := 0; tails := 0; tail_size := 0; block_end_padding := 0 |}.

Record BuilderConfig := { max_file_size : option Z; increment_uid_gid : option Z }.

Definition XattrMap := btree bstr.

Record Meta := { m_uid : Z; m_gid : Z; m_mtime : Z; m_mode : Z; m_xattrs : XattrMap }.
Definition Meta_default : Meta :=
  {| m_uid := 0; m_gid := 0; m_mtime := 0; m_mode := 493 (* 0o755 *); m_xattrs := [] |}.

(** The structs [File] and [Symlink], which have the same fields. *)
Record Leaf := {
  l_meta : Meta;
  l_start_block : Z;
  l_n_links : Z;
  l_len : Z;
  l_tail : option bstr;
  l_disk_id : option Z;
}.

(** What a directory holds besides its children. *)
Record DirInfo := {
  d_meta : Meta;
  d_disk_id : option Z;
  d_start_block : Z;
  d_n_dirents_per_block : list Z;
  d_total_size : Z;
}.

Inductive Dirent :=
  | File (f : Leaf)
  | SubDir (d : Dir)
  | Symlink (s : Leaf)
  | Dot
  | DotDot
with Dir :=
  | mk_dir (children : list (bstr * Dirent)) (info : DirInfo).

Definition d_children (d : Dir) : btree Dirent := match d with mk_dir c _ => c end.
Definition d_info (d : Dir) : DirInfo := match d with mk_dir _ i => i end.
Definition set_children (c : btree Dirent) (d : Dir) : Dir := mk_dir c (d_info d).
Definition set_dir_meta (m : Meta) (d : Dir) : Dir :=
  mk_dir (d_children d)
    {| d_meta := m; d_disk_id := d_disk_id (d_info d); d_start_block := d_start_block (d_info d);
       d_n_dirents_per_block := d_n_dirents_per_block (d_info d);
       d_total_size := d_total_size (d_info d) |}.
Definition set_dir_disk_id (x : option Z) (d : Dir) : Dir :=
  mk_dir (d_children d)
    {| d_meta := d_meta (d_info d); d_disk_id := x; d_start_block := d_start_block (d_info d);
       d_n_dirents_per_block := d_n_dirents_per_block (d_info d);
       d_total_size := d_total_size (d_info d) |}.
Definition set_leaf_disk_id (x : option Z) (f : Leaf) : Leaf :=
  {| l_meta := l_meta f; l_start_block := l_start_block f; l_n_links := l_n_links f;
     l_len := l_len f; l_tail := l_tail f; l_disk_id := x |}.
Definition set_leaf_n_links (x : Z) (f : Leaf) : Leaf :=
  {| l_meta := l_meta f; l_start_block := l_start_block f; l_n_links := x;
     l_len := l_len f; l_tail := l_tail f; l_disk_id := l_disk_id f |}.

Definition Dir_default : Dir :=
  mk_dir (bt_insert dotdot DotDot (bt_insert dot Dot []))
    {| d_meta := Meta_default; d_disk_id := None; d_start_block := EROFS_NULL_ADDR;
       d_n_dirents_per_block := []; d_total_size := 0 |}.

Definition dirent_file_type (d : Dirent) : DirentFileType.t :=
  match d with
  | File _ => DirentFileType.RegularFile
  | Symlink _ => DirentFileType.Symlink
  | Dot | DotDot | SubDir _ => DirentFileType.Directory
  end.

Record Builder := {
  b_root : option Dir;
  b_increment_uid_gid : option Z;
  b_writer : Out;
  b_superblock : Superblock;
  b_block_size_bits : Z;
  b_cur_data_block : Z;
  b_meta_block : option Z;
  b_name_buf : bstr;
  b_n_dirs : Z;
  b_n_inodes : Z;
  b_links : list (bstr * bstr * Meta);
  b_inode_addr : Z;
  b_stats : Stats;
  b_max_depth : nat;
  b_max_file_size : Z;
  b_cur_file_size : Z;
}.

(** Field updates. *)
Definition set_root (x : option Dir) (b : Builder) : Builder :=
  {| b_root := x; b_increment_uid_gid := b_increment_uid_gid b; b_writer := b_writer b;
     b_superblock := b_superblock b; b_block_size_bits := b_block_size_bits b;
     b_cur_data_block := b_cur_data_block b; b_meta_block := b_meta_block b;
     b_name_buf := b_name_buf b; b_n_dirs := b_n_dirs b; b_n_inodes := b_n_inodes b;
     b_links := b_links b; b_inode_addr := b_inode_addr b; b_stats := b_stats b;
     b_max_depth := b_max_depth b; b_max_file_size := b_max_file_size b;
     b_cur_file_size := b_cur_file_size b |}.
Definition set_writer (x : Out) (b : Builder) : Builder :=
  {| b_root := b_root b; b_increment_uid_gid := b_increment_uid_gid b; b_writer := x;
     b_superblock := b_superblock b; b_block_size_bits := b_block_size_bits b;
     b_cur_data_block := b_cur_data_block b; b_meta_block := b_meta_block b;
     b_name_buf := b_name_buf b; b_n_dirs := b_n_dirs b; b_n_inodes := b_n_inodes b;
     b_links := b_links b; b_inode_addr := b_inode_addr b; b_stats := b_stats b;
     b_max_depth := b_max_depth b; b_max_file_size := b_max_file_size b;
     b_cur_file_size := b_cur_file_size b |}.
Definition set_superblock (x : Superblock) (b : Builder) : Builder :=
  {| b_root := b_root b; b_increment_uid_gid := b_increment_uid_gid b; b_writer := b_writer b;
     b_superblock := x; b_block_size_bits := b_block_size_bits b;
     b_cur_data_block := b_cur_data_block b; b_meta_block := b_meta_block b;
     b_name_buf := b_name_buf b; b_n_dirs := b_n_dirs b; b_n_inodes := b_n_inodes b;
     b_links := b_links b; b_inode_addr := b_inode_addr b; b_stats := b_stats b;
     b_max_depth := b_max_depth b; b_max_file_size := b_max_file_size b;
     b_cur_file_size := b_cur_file_size b |}.
Definition set_cur_data_block (x : Z) (b : Builder) : Builder :=
  {| b_root := b_root b; b_increment_uid_gid := b_increment_uid_gid b; b_writer := b_writer b;
     b_superblock := b_superblock b; b_block_size_bits := b_block_size_bits b;
     b_cur_data_block := x; b_meta_block := b_meta_block b; b_name_buf := b_name_buf b;
     b_n_dirs := b_n_dirs b; b_n_inodes := b_n_inodes b; b_links := b_links b;
     b_inode_addr := b_inode_addr b; b_stats := b_stats b; b_max_depth := b_max_depth b;
     b_max_file_size := b_max_file_size b; b_cur_file_size := b_cur_file_size b |}.
Definition set_meta_block (x : option Z) (b : Builder) : Builder :=
  {| b_root := b_root b; b_increment_uid_gid := b_increment_uid_gid b; b_writer := b_writer b;
     b_superblock := b_superblock b; b_block_size_bits := b_block_size_bits b;
     b_cur_data_block := b_cur_data_block b; b_meta_block := x; b_name_buf := b_name_buf b;
     b_n_dirs := b_n_dirs b; b_n_inodes := b_n_inodes b; b_links := b_links b;
     b_inode_addr := b_inode_addr b; b_stats := b_stats b; b_max_depth := b_max_depth b;
     b_max_file_size := b_max_file_size b; b_cur_file_size := b_cur_file_size b |}.
Definition set_name_buf (x : bstr) (b : Builder) : Builder :=
  {| b_root := b_root b; b_increment_uid_gid := b_increment_uid_gid b; b_writer := b_writer b;
     b_superblock := b_superblock b; b_block_size_bits := b_block_size_bits b;
     b_cur_data_block := b_cur_data_block b; b_meta_block := b_meta_block b; b_name_buf := x;
     b_n_dirs := b_n_dirs b; b_n_inodes := b_n_inodes b; b_links := b_links b;
     b_inode_addr := b_inode_addr b; b_stats := b_stats b; b_max_depth := b_max_depth b;
     b_max_file_size := b_max_file_size b; b_cur_file_size := b_cur_file_size b |}.
Definition set_n_dirs (x : Z) (b : Builder) : Builder :=
  {| b_root := b_root b; b_increment_uid_gid := b_increment_uid_gid b; b_writer := b_writer b;
     b_superblock := b_superblock b; b_block_size_bits := b_block_size_bits b;
     b_cur_data_block := b_cur_data_block b; b_meta_block := b_meta_block b;
     b_name_buf := b_name_buf b; b_n_dirs := x; b_n_inodes := b_n_inodes b; b_links := b_links b;
     b_inode_addr := b_inode_addr b; b_stats := b_stats b; b_max_depth := b_max_depth b;
     b_max_file_size := b_max_file_size b; b_cur_file_size := b_cur_file_size b |}.
Definition set_n_inodes (x : Z) (b : Builder) : Builder :=
  {| b_root := b_root b; b_increment_uid_gid := b_increment_uid_gid b; b_writer := b_writer b;
     b_superblock := b_superblock b; b_block_size_bits := b_block_size_bits b;
     b_cur_data_block := b_cur_data_block b; b_meta_block := b_meta_block b;
     b_name_buf := b_name_buf b; b_n_dirs := b_n_dirs b; b_n_inodes := x; b_links := b_links b;
     b_inode_addr := b_inode_addr b; b_stats := b_stats b; b_max_depth := b_max_depth b;
     b_max_file_size := b_max_file_size b; b_cur_file_size := b_cur_file_size b |}.
Definition set_links (x : list (bstr * bstr * Meta)) (b : Builder) : Builder :=
  {| b_root := b_root b; b_increment_uid_gid := b_increment_uid_gid b; b_writer := b_writer b;
     b_superblock := b_superblock b; b_block_size_bits := b_block_size_bits b;
     b_cur_data_block := b_cur_data_block b; b_meta_block := b_meta_block b;
     b_name_buf := b_name_buf b; b_n_dirs := b_n_dirs b; b_n_inodes := b_n_inodes b;
     b_links := x; b_inode_addr := b_inode_addr b; b_stats := b_stats b;
     b_max_depth := b_max_depth b; b_max_file_size := b_max_file_size b;
     b_cur_file_size := b_cur_file_size b |}.
Definition set_inode_addr (x : Z) (b : Builder) : Builder :=
  {| b_root := b_root b; b_increment_uid_gid := b_increment_uid_gid b; b_writer := b_writer b;
     b_superblock := b_superblock b; b_block_size_bits := b_block_size_bits b;
     b_cur_data_block := b_cur_data_block b; b_meta_block := b_meta_block b;
     b_name_buf := b_name_buf b; b_n_dirs := b_n_dirs b; b_n_inodes := b_n_inodes b;
     b_links := b_links b; b_inode_addr := x; b_stats := b_stats b; b_max_depth := b_max_depth b;
     b_max_file_size := b_max_file_size b; b_cur_file_size := b_cur_file_size b |}.
Definition set_stats (x : Stats) (b : Builder) : Builder :=
  {| b_root := b_root b; b_increment_uid_gid := b_increment_uid_gid b; b_writer := b_writer b;
     b_superblock := b_superblock b; b_block_size_bits := b_block_size_bits b;
     b_cur_data_block := b_cur_data_block b; b_meta_block := b_meta_block b;
     b_name_buf := b_name_buf b; b_n_dirs := b_n_dirs b; b_n_inodes := b_n_inodes b;
     b_links := b_links b; b_inode_addr := b_inode_addr b; b_stats := x;
     b_max_depth := b_max_depth b; b_max_file_size := b_max_file_size b;
     b_cur_file_size := b_cur_file_size b |}.

(** * The tree *)

(** [get_or_create_dir]: the sub-directory and the directory that holds it. *)
Definition get_or_create_dir (name : bstr) (d : Dir) : result Error (Dir * Dir) :=
  match bt_get name (d_children d) with
  | Some (SubDir sub) => Ok (sub, d)
  | Some _ => Err NotADir
  | None => Ok (Dir_default, set_children (bt_insert name (SubDir Dir_default) (d_children d)) d)
  end.

Definition get_dir (name : bstr) (d : Dir) : result Error Dir :=
  match bt_get name (d_children d) with
  | Some (SubDir sub) => Ok sub
  | _ => Err NotADir
  end.

(** [lookup_impl] returns a mutable reference into the tree.  Here the rest of
    the operation is passed in: [k] gets the directory and the final name and
    returns its result with the updated directory, which is put back along the
    path.  The recursion is on the path's components. *)
Section lookup.
Context {A : Type} (create : bool) (k : Dir -> option bstr -> result Error (A * Dir)).

Fixpoint lookup_components (comps : list Component) (cur : Dir) : result Error (A * Dir) :=
  match comps with
  | [] => k cur None
  | [Normal name] => k cur (Some name)
  | [CurDir] => k cur None
  | [_] => Err WeirdPath
  | c :: comps =>
      match c with
      | CurDir | RootDir => lookup_components comps cur
      | ParentDir => Err PathWithDotDot
      | Normal name =>
          let? '(sub, cur) :=
            if create then get_or_create_dir name cur
            else rmap (fun sub => (sub, cur)) (get_dir name cur) in
          let? '(a, sub) := lookup_components comps sub in
          Ok (a, set_children (bt_insert name (SubDir sub) (d_children cur)) cur)
      end
  end.

Definition lookup_impl (root : Dir) (path : bstr) : result Error (A * Dir) :=
  if decide (path = []) then Err EmptyPath
  else if decide (path = dot \/ path = dot ++ [slash] \/ path = [slash]) then k root None
  else lookup_components (components path) root.
End lookup.

Definition root_insert (path : bstr) (entry : Dirent) (root : Dir) : result Error Dir :=
  rmap snd (lookup_impl true (fun dir name =>
    match name with
    | Some name => Ok (tt, set_children (bt_insert name entry (d_children dir)) dir)
    | None => Err InsertFailed
    end) root path).

Definition root_add_file (path : bstr) (file : Leaf) (root : Dir) : result Error Dir :=
  if ends_with [slash] path then Err PathTrailingSlash
  else root_insert path (File file) root.

Definition root_add_symlink (path : bstr) (symlink : Leaf) (root : Dir) : result Error Dir :=
  if ends_with [slash] path then Err PathTrailingSlash
  else root_insert path (Symlink symlink) root.

Definition root_upsert_dir (path : bstr) (meta : Meta) (root : Dir) : result Error Dir :=
  rmap snd (lookup_impl true (fun dir name =>
    match name with
    | None => Ok (tt, set_dir_meta meta dir)
    | Some name =>
        let? '(sub, dir) := get_or_create_dir name dir in
        Ok (tt, set_children (bt_insert name (SubDir (set_dir_meta meta sub)) (d_children dir)) dir)
    end) root path).

(** [Root::get], with the update of the entry it found. *)
Definition root_get_mut {A} (path : bstr) (f : Dirent -> result Error (A * Dirent)) (root : Dir)
    : result Error (option A * Dir) :=
  lookup_impl false (fun dir name =>
    match name with
    | Some name =>
        match bt_get name (d_children dir) with
        | Some entry =>
            let? '(a, entry) := f entry in
            Ok (Some a, set_children (bt_insert name entry (d_children dir)) dir)
        | None => Ok (None, dir)
        end
    | None => Ok (None, dir)
    end) root path.

(** * Directory entries *)

(** The loop over the names: the counts of the full blocks, and the count and
    length of the block being filled. *)
Definition prepare_name (block_size : Z) (s : list Z * Z * Z) (name : bstr) : list Z * Z * Z :=
  let '(per_block, count, len) := s in
  let name_start := wadd 64 len (size_of ErofsDisk.Dirent) in
  let additional_len := wadd 64 (size_of ErofsDisk.Dirent) (zlen name) in
  let next_len := wadd 64 len additional_len in
  if (block_size <? next_len) || (u16_max <? name_start)
  then (per_block ++ [count], 1, additional_len)
  else (per_block, wadd 16 count 1, next_len).

Definition prepare_dirent_data (block_size start_block : Z) (d : Dir) : result Error (Z * Dir) :=
  let? start := ok_or (try_into 32 start_block) BlockNoTooBig in
  let info := d_info d in
  let '(per_block, count, len) :=
    fold_left (prepare_name block_size) (d_children d).*1 (d_n_dirents_per_block info, 0, 0) in
  let total_size := wmul 64 block_size (zlen per_block) in
  let '(per_block, total_size) :=
    if negb (count =? 0) then (per_block ++ [count], wadd 64 total_size len)
    else (per_block, total_size) in
  if negb (zlen (d_children d) =? foldr Z.add 0 per_block) then Panic
  else
    Ok (zlen per_block,
        mk_dir (d_children d)
          {| d_meta := d_meta info; d_disk_id := d_disk_id info; d_start_block := start;
             d_n_dirents_per_block := per_block; d_total_size := total_size |}).

(** * Inodes *)

Section mode.
Context `{RustixFileType}.

Definition make_mode (typ : FileType.t) (mode : Z) : result Error Z :=
  let result := Z.lor (as_raw_mode typ) mode in
  if u16_max <? result then Err ModeShouldFitInU16 else Ok result.

Definition make_inode (typ : FileType.t) (size start_block : Z) (meta : Meta)
    (tail : option bstr) (n_links : Z) : result Error InodeExtended :=
  let layout := match tail with Some _ => FlatInline | None => FlatPlain end in
  let? mode := make_mode typ (m_mode meta) in
  Ok {| ie_format_layout := format_layout ExtendedType layout; ie_xattr_count := 0;
        ie_mode := mode; ie_reserved := 0; ie_size := size;
        ie_info := new_raw_blkaddr start_block; ie_ino := 0; ie_uid := m_uid meta;
        ie_gid := m_gid meta; ie_mtime := m_mtime meta; ie_mtime_nsec := 0;
        ie_nlink := n_links; ie_reserved2 := replicate 16 x00 |}.
End mode.

Definition make_xattr_entry (kv : bstr * bstr) : result Error (Z * XattrEntry) :=
  let '(key, value) := kv in
  let '(prefix_id, prefix_len) := default (0, 0) (xattr_builtin_prefix key) in
  if zlen key <? prefix_len then Panic
  else
    let? name_len := ok_or (try_into 8 (zlen key - prefix_len)) XattrKeyTooLong in
    let? value_size := ok_or (try_into 16 (zlen value)) XattrValueTooLong in
    Ok (prefix_len,
        {| name_len := name_len; name_index := prefix_id; value_size := value_size |}).

Fixpoint make_xattr_entries (xattrs : XattrMap) : result Error (list (Z * XattrEntry)) :=
  match xattrs with
  | [] => Ok []
  | kv :: xattrs =>
      let? e := make_xattr_entry kv in
      let? es := make_xattr_entries xattrs in
      Ok (e :: es)
  end.

Definition size_tail_len (len block_size_bits : Z) : Z * Z * Z :=
  let block_size := wshl 64 1 block_size_bits in
  let n_blocks := len / block_size in
  let tail_len := len mod block_size in
  if block_size / 2 <? tail_len then (n_blocks + 1, len, 0)
  else (n_blocks, wmul 64 n_blocks block_size, tail_len).

(** * The builder *)

Definition Superblock_zeroed : Superblock :=
  {| magic := 0; checksum := 0; feature_compat := 0; blkszbits := 0; sb_extslots := 0;
     root_disk_id := 0; inos := 0; build_time := 0; build_time_nsec := 0; blocks := 0;
     meta_blkaddr := 0; xattr_blkaddr := 0; uuid := replicate 16 x00;
     volume_name := replicate 16 x00; feature_incompat := 0;
     available_compr_algs_or_lz4_max_distance := 0; extra_devices := 0; devt_slotoff := 0;
     dirblkbits := 0; xattr_prefix_count := 0; xattr_prefix_start := 0; packed_nid := 0;
     xattr_filter_reserved := 0; sb_reserved2 := replicate 23 x00 |}.

Definition XattrHeader_zeroed : XattrHeader :=
  {| name_filter := 0; shared_count := 0; xh_reserved := replicate 7 x00 |}.

Definition b_block_size (b : Builder) : Z := wshl 64 1 (b_block_size_bits b).
Definition b_block_no (b : Builder) (addr : Z) : Z := addr / b_block_size b.
Definition b_block_addr (b : Builder) (block : Z) : Z := wmul 64 block (b_block_size b).

Definition Builder_new (writer : Out) (config : BuilderConfig) : Builder :=
  let ret :=
    {| b_root := Some Dir_default; b_increment_uid_gid := increment_uid_gid config;
       b_writer := writer; b_superblock := Superblock_zeroed; b_block_size_bits := 12;
       b_cur_data_block := 1; b_meta_block := None; b_name_buf := []; b_n_dirs := 0;
       b_n_inodes := 0; b_links := []; b_inode_addr := 0; b_stats := Stats_default;
       b_max_depth := MAX_DEPTH; b_max_file_size := default u64_max (max_file_size config);
       b_cur_file_size := 0 |} in
  set_writer (seek (b_block_addr ret (b_cur_data_block ret)) (b_writer ret)) ret.

Definition b_write (data : list byte) (b : Builder) : Builder :=
  set_writer (write_all data (b_writer b)) b.

Definition seek_block (block : Z) (b : Builder) : Builder :=
  if negb (b_cur_data_block b =? block) then
    set_cur_data_block block (set_writer (seek (b_block_addr b block) (b_writer b)) b)
  else b.

Definition add_padding (n : Z) (s : Stats) : Stats :=
  {| files := files s; symlinks := symlinks s; dirs := dirs s; tails := tails s;
     tail_size := tail_size s; block_end_padding := wadd 64 (block_end_padding s) n |}.

(** Zeros up to the alignment; the number written comes back. *)
Definition zero_fill (written alignment : Z) (b : Builder) : Z * Builder :=
  let rem := written mod alignment in
  if negb (rem =? 0) then
    let n := alignment - rem in
    (n, b_write (replicate (Z.to_nat n) x00) (set_stats (add_padding n (b_stats b)) b))
  else (0, b).

Definition zero_fill_block (written : Z) (b : Builder) : Z * Builder :=
  zero_fill written (b_block_size b) b.

Definition addr_to_disk_id (addr : Z) (b : Builder) : result Error Z :=
  let? meta_block := ok_or (b_meta_block b) NoMetaBlock in
  let meta_addr := b_block_addr b meta_block in
  if addr <? meta_addr then Err AddrLessThanMetaBlock
  else
    let offset := addr - meta_addr in
    if negb (offset mod INODE_ALIGNMENT =? 0) then Err AddrNotAligned
    else ok_or (try_into 32 (offset / INODE_ALIGNMENT)) DiskIdTooBig.

Definition hook_meta (b : Builder) (meta : Meta) : result Error Meta :=
  match b_increment_uid_gid b with
  | Some inc =>
      let? uid := ok_or (try_into 32 (m_uid meta + inc)) UidGidTooBig in
      let? gid := ok_or (try_into 32 (m_gid meta + inc)) UidGidTooBig in
      Ok {| m_uid := uid; m_gid := gid; m_mtime := m_mtime meta; m_mode := m_mode meta;
            m_xattrs := m_xattrs meta |}
  | None => Ok meta
  end.

(** [u64::saturating_add] *)
Definition saturating_add (w a b : Z) : Z := Z.min (a + b) (2 ^ w - 1).

(** The blocks of a file's contents: [io::copy] of at most [block_len] bytes,
    then zeros up to the block size. *)
Definition write_blocks (n_blocks block_len : Z) (data : list byte) (b : Builder) : Builder :=
  let b := b_write (ztake block_len data) b in
  let b := set_cur_data_block (wadd 64 (b_cur_data_block b) n_blocks) b in
  (zero_fill_block block_len b).2.

Definition start_block_of (b : Builder) (block_len : Z) : result Error Z :=
  if 0 <? block_len then ok_or (try_into 32 (b_cur_data_block b)) BlockNoTooBig
  else Ok EROFS_NULL_ADDR.

Definition with_root (f : Dir -> result Error Dir) (b : Builder) : result Error Builder :=
  match b_root b with
  | Some root => let? root := f root in Ok (set_root (Some root) b)
  | None => Panic
  end.

(** [contents] is what the reader still has; [read_exact] fails when the tail
    is not there. *)
Definition add_file (path : bstr) (meta : Meta) (len : Z) (contents : list byte) (b : Builder)
    : result Error Builder :=
  if b_max_file_size b <=? saturating_add 64 (b_cur_file_size b) len then Err MaxSizeExceeded
  else
    let '(n_blocks, block_len, tail_len) := size_tail_len len (b_block_size_bits b) in
    let? start_block := start_block_of b block_len in
    let b := if 0 <? block_len then write_blocks n_blocks block_len contents b else b in
    let rest := if 0 <? block_len then zdrop block_len contents else contents in
    let? tail :=
      if 0 <? tail_len then
        if zlen rest <? tail_len then Err Io else Ok (Some (ztake tail_len rest))
      else Ok None in
    let? meta := hook_meta b meta in
    let file := {| l_meta := meta; l_start_block := start_block; l_n_links := 1; l_len := len;
                   l_tail := tail; l_disk_id := None |} in
    with_root (root_add_file path file) b.

Definition upsert_dir (path : bstr) (meta : Meta) (b : Builder) : result Error Builder :=
  let? meta := hook_meta b meta in
  with_root (root_upsert_dir path meta) b.

Definition add_symlink (path link : bstr) (meta : Meta) (b : Builder) : result Error Builder :=
  let len := zlen link in
  let '(n_blocks, block_len, tail_len) := size_tail_len len (b_block_size_bits b) in
  let? start_block := start_block_of b block_len in
  let b := if 0 <? block_len then write_blocks n_blocks block_len link b else b in
  let tail := if 0 <? tail_len then Some (zdrop block_len link) else None in
  let? meta := hook_meta b meta in
  let symlink := {| l_meta := meta; l_start_block := start_block; l_n_links := 1; l_len := len;
                    l_tail := tail; l_disk_id := None |} in
  with_root (root_add_symlink path symlink) b.

Definition add_link (path target : bstr) (meta : Meta) (b : Builder) : Builder :=
  set_links (b_links b ++ [(path, target, meta)]) b.

(** ** Hard links *)

(** The target's contents, with one more link on it. *)
Definition link_target (d : Dirent) : result Error ((Z * Z * option bstr) * Dirent) :=
  match d with
  | File f =>
      Ok ((l_start_block f, l_len f, l_tail f), File (set_leaf_n_links (wadd 32 (l_n_links f) 1) f))
  | Symlink s =>
      Ok ((l_start_block s, l_len s, l_tail s), Symlink (set_leaf_n_links (wadd 32 (l_n_links s) 1) s))
  | Dot | DotDot | SubDir _ => Err HardlinkToDir
  end.

Fixpoint resolve_link_list (links : list (bstr * bstr * Meta)) (root : Dir) : result Error Dir :=
  match links with
  | [] => Ok root
  | (path, target, meta) :: links =>
      let? '(found, root) := root_get_mut target link_target root in
      let? '(start_block, len, tail) := ok_or found HardlinkNotResolved in
      let? root := root_add_file path
        {| l_meta := meta; l_start_block := start_block; l_n_links := 2; l_len := len;
           l_tail := tail; l_disk_id := None |} root in
      resolve_link_list links root
  end.

Definition resolve_links (b : Builder) : result Error Builder :=
  with_root (resolve_link_list (b_links b)) (set_links [] b).

(** ** Inodes *)

(** The xattrs of an inode: the header, then entry, name without prefix and
    value of each, then the padding. *)
Fixpoint write_xattr_entries (entries : list (Z * XattrEntry)) (xattrs : XattrMap) (b : Builder)
    : result Error Builder :=
  match entries, xattrs with
  | (prefix_len, entry) :: entries, (key, value) :: xattrs =>
      let b := b_write (as_bytes entry) b in
      let? name := ok_or (get_from key prefix_len) Oob in
      let b := b_write name b in
      let b := b_write value b in
      write_xattr_entries entries xattrs b
  | _, _ => Ok b
  end.

Definition write_xattrs (entries : list (Z * XattrEntry)) (padding : Z) (xattrs : XattrMap)
    (b : Builder) : result Error Builder :=
  if decide (xattrs = []) then Ok b
  else
    let b := b_write (as_bytes XattrHeader_zeroed) b in
    let? b := write_xattr_entries entries xattrs b in
    Ok (b_write (replicate (Z.to_nat padding) x00) b).

Definition set_xattr_count (n : Z) (i : InodeExtended) : InodeExtended :=
  {| ie_format_layout := ie_format_layout i; ie_xattr_count := n; ie_mode := ie_mode i;
     ie_reserved := ie_reserved i; ie_size := ie_size i; ie_info := ie_info i;
     ie_ino := ie_ino i; ie_uid := ie_uid i; ie_gid := ie_gid i; ie_mtime := ie_mtime i;
     ie_mtime_nsec := ie_mtime_nsec i; ie_nlink := ie_nlink i; ie_reserved2 := ie_reserved2 i |}.

Definition count_tail (tail : bstr) (s : Stats) : Stats :=
  {| files := files s; symlinks := symlinks s; dirs := dirs s; tails := wadd 64 (tails s) 1;
     tail_size := wadd 64 (tail_size s) (zlen tail); block_end_padding := block_end_padding s |}.

Definition tail_bytes (tail : option bstr) : bstr := default [] tail.

(** Move to the next block when inode, xattrs and tail would reach past the
    current one. *)
Definition advance_inode_addr (total_len : Z) (b : Builder) : Builder :=
  let block_no1 := b_block_no b (b_inode_addr b) in
  let block_no2 := b_block_no b (wadd 64 (b_inode_addr b) total_len) in
  if negb (block_no1 =? block_no2) then
    let '(_, b) := zero_fill_block (b_inode_addr b) b in
    set_inode_addr (b_block_addr b block_no2) b
  else b.

(** The check before and after an inode, in builds with debug assertions. *)
Definition check_writer_alignment (b : Builder) : result Error unit :=
  let cur := o_pos (b_writer b) in
  if negb (cur =? b_inode_addr b) then Panic
  else if negb (cur mod INODE_ALIGNMENT =? 0) then Panic else Ok tt.

(** The builder only makes extended inodes. *)
Definition write_inode (inode : InodeExtended) (tail : option bstr) (xattrs : XattrMap)
    (b : Builder) : result Error (Z * Builder) :=
  let b := set_n_inodes (wadd 64 (b_n_inodes b) 1) b in
  let? xattr_entries := make_xattr_entries xattrs in
  let cp := xattr_count xattr_entries.*2 in
  let? count := ok_or (try_into 16 (cp_xattr_count cp)) TooManyXattrs in
  let xattr_len := xattr_count_to_len count in
  let inode := set_xattr_count count inode in
  let data := as_bytes inode in
  let total_len := zlen data + xattr_len + zlen (tail_bytes tail) in
  if b_block_size b <? total_len then Err InodeTooBig
  else
    let b := advance_inode_addr total_len b in
    let? disk_id := addr_to_disk_id (b_inode_addr b) b in
    let b := b_write data b in
    let? b := write_xattrs xattr_entries (cp_padding cp) xattrs b in
    let b := match tail with
             | Some tail => b_write tail (set_stats (count_tail tail (b_stats b)) b)
             | None => b
             end in
    let '(padding, b) := zero_fill total_len INODE_ALIGNMENT b in
    Ok (disk_id, set_inode_addr (wadd 64 (b_inode_addr b) (total_len + padding)) b).

(** * Walking the tree *)

Class TreeVisitor (V : Type) := {
  on_file : V -> Leaf -> result Error (V * Leaf);
  on_symlink : V -> Leaf -> result Error (V * Leaf);
  on_dir_exit : V -> Dir -> result Error (V * Dir);
  on_dir_enter : V -> Dir -> result Error (V * Dir);
}.

Section walk.
Context {V : Type} `{TreeVisitor V}.

Section children.
Context (recur : V -> Dir -> result Error (V * Dir)).
Fixpoint walk_children (v : V) (children : btree Dirent) : result Error (V * btree Dirent) :=
  match children with
  | [] => Ok (v, [])
  | (name, child) :: children =>
      let? '(v, child) :=
        match child with
        | File f => let? '(v, f) := on_file v f in Ok (v, File f)
        | Symlink s => let? '(v, s) := on_symlink v s in Ok (v, Symlink s)
        | SubDir d => let? '(v, d) := recur v d in Ok (v, SubDir d)
        | Dot | DotDot => Ok (v, child)
        end in
      let? '(v, children) := walk_children v children in
      Ok (v, (name, child) :: children)
  end.
End children.

(** [levels] is [max_depth - depth]. *)
Fixpoint walk_recur (levels : nat) (v : V) (dir : Dir) : result Error (V * Dir) :=
  match levels with
  | O => Err MaxDepthExceeded
  | S levels =>
      let? '(v, dir) := on_dir_enter v dir in
      let? '(v, children) := walk_children (walk_recur levels) v (d_children dir) in
      on_dir_exit v (set_children children dir)
  end.

Definition walk_tree (dir : Dir) (v : V) (max_depth : nat) : result Error (V * Dir) :=
  walk_recur max_depth v dir.
End walk.

(** ** The visitors *)

Record PrepareDirents := { pd_builder : Builder }.
Record WriteDirInodes := { wdi_builder : Builder }.
Record WriteInodes := { wi_builder : Builder }.
Record WriteDirents := { wd_builder : Builder; wd_parents : list Z }.

Definition count_dir (s : Stats) : Stats :=
  {| files := files s; symlinks := symlinks s; dirs := wadd 64 (dirs s) 1; tails := tails s;
     tail_size := tail_size s; block_end_padding := block_end_padding s |}.
Definition count_file (s : Stats) : Stats :=
  {| files := wadd 64 (files s) 1; symlinks := symlinks s; dirs := dirs s; tails := tails s;
     tail_size := tail_size s; block_end_padding := block_end_padding s |}.
Definition count_symlink (s : Stats) : Stats :=
  {| files := files s; symlinks := wadd 64 (symlinks s) 1; dirs := dirs s; tails := tails s;
     tail_size := tail_size s; block_end_padding := block_end_padding s |}.

Definition prepare_on_dir_enter (b : Builder) (dir : Dir) : result Error (Builder * Dir) :=
  let? '(n_blocks, dir) := prepare_dirent_data (b_block_size b) (b_cur_data_block b) dir in
  let b := set_n_dirs (wadd 64 (b_n_dirs b) 1) b in
  let b := set_stats (count_dir (b_stats b)) b in
  let b := set_cur_data_block (wadd 64 (b_cur_data_block b) n_blocks) b in
  Ok (b, dir).

#[export] Instance visit_prepare : TreeVisitor PrepareDirents := {
  on_file v f := Ok (v, f);
  on_symlink v s := Ok (v, s);
  on_dir_exit v d := Ok (v, d);
  on_dir_enter v d :=
    let? '(b, d) := prepare_on_dir_enter (pd_builder v) d in Ok ({| pd_builder := b |}, d);
}.

Section visitors.
Context `{RustixFileType}.

Definition write_dir_inode (b : Builder) (dir : Dir) : result Error (Builder * Dir) :=
  let info := d_info dir in
  let? inode := make_inode FileType.Directory (d_total_size info) (d_start_block info)
                  (d_meta info) None 1 in
  let? '(disk_id, b) := write_inode inode None (m_xattrs (d_meta info)) b in
  match d_disk_id info with
  | Some _ => Panic
  | None => Ok (b, set_dir_disk_id (Some disk_id) dir)
  end.

Definition write_leaf_inode (typ : FileType.t) (b : Builder) (f : Leaf)
    : result Error (Builder * Leaf) :=
  let? inode := make_inode typ (l_len f) (l_start_block f) (l_meta f) (l_tail f) (l_n_links f) in
  let? '(disk_id, b) := write_inode inode (l_tail f) (m_xattrs (l_meta f)) b in
  match l_disk_id f with
  | Some _ => Panic
  | None => Ok (b, set_leaf_disk_id (Some disk_id) f)
  end.

#[export] Instance visit_dir_inodes : TreeVisitor WriteDirInodes := {
  on_file v f := Ok (v, f);
  on_symlink v s := Ok (v, s);
  on_dir_exit v d := Ok (v, d);
  on_dir_enter v d :=
    let? '(b, d) := write_dir_inode (wdi_builder v) d in Ok ({| wdi_builder := b |}, d);
}.

#[export] Instance visit_inodes : TreeVisitor WriteInodes := {
  on_file v f :=
    let b := wi_builder v in
    let b := set_stats (count_file (b_stats b)) b in
    let? '(b, f) := write_leaf_inode FileType.RegularFile b f in
    Ok ({| wi_builder := b |}, f);
  on_symlink v s :=
    let b := wi_builder v in
    let b := set_stats (count_symlink (b_stats b)) b in
    let? '(b, s) := write_leaf_inode FileType.Symlink b s in
    Ok ({| wi_builder := b |}, s);
  on_dir_exit v d := Ok (v, d);
  on_dir_enter v d := Ok (v, d);
}.
End visitors.

Definition child_disk_id (dir_id : option Z) (parents : list Z) (child : Dirent) : option Z :=
  match child with
  | File f => l_disk_id f
  | SubDir d => d_disk_id (d_info d)
  | Symlink s => l_disk_id s
  | Dot => dir_id
  | DotDot => match list.last parents with Some p => Some p | None => dir_id end
  end.

(** One block: [count] entries are written and their names collected. *)
Fixpoint write_block_dirents (count : nat) (dir_id : option Z) (parents : list Z)
    (name_offset : Z) (children : btree Dirent) (b : Builder)
    : result Error (btree Dirent * Builder) :=
  match count with
  | O => Ok (children, b)
  | S count =>
      match children with
      | [] => Panic
      | (name, child) :: children =>
          let? disk_id := ok_or (child_disk_id dir_id parents child) NoDiskId in
          let? off := ok_or (try_into 16 name_offset) NameOffsetTooBig in
          let dirent := {| de_disk_id := disk_id; ErofsDisk.name_offset := off;
                           de_file_type := DirentFileType.to_u8 (dirent_file_type child);
                           de_reserved := 0 |} in
          let b := b_write (as_bytes dirent) b in
          let b := set_name_buf (b_name_buf b ++ name) b in
          write_block_dirents count dir_id parents (name_offset + zlen name) children b
      end
  end.

Fixpoint write_dirent_blocks (counts : list Z) (dir_id : option Z) (parents : list Z)
    (children : btree Dirent) (b : Builder) : result Error Builder :=
  match counts with
  | [] => Ok b
  | count :: counts =>
      let name_offset := count * size_of ErofsDisk.Dirent in
      let? '(children, b) :=
        write_block_dirents (Z.to_nat count) dir_id parents name_offset children b in
      let b := b_write (b_name_buf b) b in
      let written := count * size_of ErofsDisk.Dirent + zlen (b_name_buf b) in
      let b := (zero_fill_block written b).2 in
      let b := set_cur_data_block (wadd 64 (b_cur_data_block b) 1) b in
      write_dirent_blocks counts dir_id parents children (set_name_buf [] b)
  end.

Definition write_dirents_on_enter (v : WriteDirents) (dir : Dir) : result Error (WriteDirents * Dir) :=
  let info := d_info dir in
  let b := seek_block (d_start_block info) (wd_builder v) in
  let? b := write_dirent_blocks (d_n_dirents_per_block info) (d_disk_id info) (wd_parents v)
              (d_children dir) b in
  let? id := ok_or (d_disk_id info) NoDiskId in
  Ok ({| wd_builder := b; wd_parents := wd_parents v ++ [id] |}, dir).

#[export] Instance visit_dirents : TreeVisitor WriteDirents := {
  on_file v f := Ok (v, f);
  on_symlink v s := Ok (v, s);
  on_dir_exit v d :=
    Ok ({| wd_builder := wd_builder v; wd_parents := take (length (wd_parents v) - 1) (wd_parents v) |}, d);
  on_dir_enter := write_dirents_on_enter;
}.

(** * Finishing *)

Section finalize.
Context `{RustixFileType}.

Definition write_inodes (b : Builder) : result Error Builder :=
  match b_root b with
  | None => Panic
  | Some root =>
      let b := set_root None b in
      let max_depth := b_max_depth b in
      let? '(v, root) := walk_tree root {| pd_builder := b |} max_depth in
      let b := pd_builder v in
      let meta_block := b_cur_data_block b in
      let b := set_meta_block (Some meta_block) b in
      let b := set_inode_addr (b_block_addr b meta_block) b in
      let b := set_writer (seek (b_inode_addr b) (b_writer b)) b in
      let? '(v, root) := walk_tree root {| wdi_builder := b |} max_depth in
      let? '(v, root) := walk_tree root {| wi_builder := wdi_builder v |} max_depth in
      let? '(v, root) :=
        walk_tree root {| wd_builder := wi_builder v; wd_parents := [] |} max_depth in
      Ok (set_root (Some root) (wd_builder v))
  end.

Definition fill_superblock (bits meta root_id n_inodes : Z) (s : Superblock) : Superblock :=
  {| magic := EROFS_SUPER_MAGIG_V1; checksum := checksum s; feature_compat := feature_compat s;
     blkszbits := bits; sb_extslots := sb_extslots s; root_disk_id := root_id;
     inos := n_inodes; build_time := build_time s; build_time_nsec := build_time_nsec s;
     blocks := blocks s; meta_blkaddr := meta; xattr_blkaddr := xattr_blkaddr s;
     uuid := uuid s; volume_name := volume_name s; feature_incompat := feature_incompat s;
     available_compr_algs_or_lz4_max_distance := available_compr_algs_or_lz4_max_distance s;
     extra_devices := extra_devices s; devt_slotoff := devt_slotoff s;
     dirblkbits := dirblkbits s; xattr_prefix_count := xattr_prefix_count s;
     xattr_prefix_start := xattr_prefix_start s; packed_nid := packed_nid s;
     xattr_filter_reserved := xattr_filter_reserved s; sb_reserved2 := sb_reserved2 s |}.

Definition write_superblock (b : Builder) : result Error Builder :=
  let? meta := ok_or (b_meta_block b) NoMetaBlock in
  let? meta := ok_or (try_into 32 meta) MetaBlockTooBig in
  let? root := expect (b_root b) in
  let? root_id := ok_or (d_disk_id (d_info root)) NoRootDiskId in
  let? root_id := ok_or (try_into 16 root_id) RootDiskIdTooBig in
  let sb := fill_superblock (b_block_size_bits b) meta root_id (b_n_inodes b) (b_superblock b) in
  let b := set_superblock sb b in
  let b := set_writer (seek EROFS_SUPER_OFFSET (b_writer b)) b in
  Ok (b_write (as_bytes (b_superblock b)) b).

Definition finalize (b : Builder) : result Error Builder :=
  let? b := resolve_links b in
  let? b := write_inodes b in
  write_superblock b.

Definition into_inner (b : Builder) : result Error (Stats * list byte) :=
  let? b := finalize b in
  Ok (b_stats b, o_bytes (b_writer b)).
End finalize.

(** * The output *)

(** Successive writes of the builder are one write. *)
Lemma b_write_app d1 d2 b :
  0 <= o_pos (b_writer b) -> b_write d2 (b_write d1 b) = b_write (d1 ++ d2) b.
Proof.
  intros Hp. unfold b_write, set_writer. simpl. by rewrite write_all_app.
Qed.

Lemma b_write_nil b : b_write [] b = b.
Proof. destruct b. unfold b_write, set_writer. simpl. by rewrite write_all_nil. Qed.

Lemma b_write_pos d b : o_pos (b_writer (b_write d b)) = o_pos (b_writer b) + zlen d.
Proof. done. Qed.

(** * The tree as a finite map from paths *)

(** The entry under a list of names. *)
Fixpoint tree_get (names : list bstr) (d : Dir) : option Dirent :=
  match names with
  | [] => None
  | [n] => bt_get n (d_children d)
  | n :: names =>
      match bt_get n (d_children d) with
      | Some (SubDir sub) => tree_get names sub
      | _ => None
      end
  end.

Definition normal_name (n : bstr) : Prop := plain_name n /\ n <> dotdot.

Lemma tree_get_cons n m ns d :
  tree_get (n :: m :: ns) d =
    match bt_get n (d_children d) with Some (SubDir sub) => tree_get (m :: ns) sub | _ => None end.
Proof. done. Qed.

Lemma lookup_components_cons {A} create (k : Dir -> option bstr -> result Error (A * Dir)) n c comps cur :
  lookup_components create k (Normal n :: c :: comps) cur =
    let? '(sub, cur) :=
      if create then get_or_create_dir n cur else rmap (fun sub => (sub, cur)) (get_dir n cur) in
    let? '(a, sub) := lookup_components create k (c :: comps) sub in
    Ok (a, set_children (bt_insert n (SubDir sub) (d_children cur)) cur).
Proof. done. Qed.

Definition insert_entry (entry : Dirent) (dir : Dir) (name : option bstr) : result Error (unit * Dir) :=
  match name with
  | Some name => Ok (tt, set_children (bt_insert name entry (d_children dir)) dir)
  | None => Err InsertFailed
  end.

Lemma get_or_create_dir_get n d sub d' :
  get_or_create_dir n d = Ok (sub, d') ->
  (forall m, m <> n -> bt_get m (d_children d') = bt_get m (d_children d)) /\
  (bt_get n (d_children d) = Some (SubDir sub) \/
   bt_get n (d_children d) = None /\ sub = Dir_default).
Proof.
  unfold get_or_create_dir. destruct (bt_get n (d_children d)) as [[]|] eqn:E; try done.
  - intros [= <- <-]. auto.
  - intros [= <- <-]. simpl. split; [|auto]. intros m Hm. by rewrite bt_insert_get_ne.
Qed.

(** Nothing but the two dot entries is in a new directory. *)
Lemma tree_get_default ns : Forall normal_name ns -> tree_get ns Dir_default = None.
Proof.
  intros Hf. destruct Hf as [|n ns [(H1 & H2 & H3) H4] Hf]; [done|].
  assert (bt_get n (d_children Dir_default) = None) as Hn.
  { change (d_children Dir_default) with (bt_insert dotdot DotDot (bt_insert dot Dot [])). rewrite !bt_insert_get_ne by done. done. }
  destruct ns; [exact Hn|]. by rewrite tree_get_cons, Hn.
Qed.

Lemma insert_components names entry root root' :
  names <> [] ->
  lookup_components true (insert_entry entry) (Normal <$> names) root = Ok (tt, root') ->
  tree_get names root' = Some entry /\
  forall ns, Forall normal_name ns -> ~ names `prefix_of` ns -> ~ ns `prefix_of` names ->
    tree_get ns root' = tree_get ns root.
Proof.
  intros Hne. revert root root'. induction names as [|n names IH]; [done|]. intros root root'.
  destruct names as [|m names].
  { simpl. intros [= <-]. simpl. rewrite bt_insert_get_eq. split; [done|].
    intros [|n' ns] Hns Hp1 Hp2; [done|].
    assert (n' <> n) by (intros ->; apply Hp1; by exists ns).
    destruct ns; simpl; by rewrite bt_insert_get_ne. }
  rewrite !fmap_cons, lookup_components_cons, <-fmap_cons. intros H. monad_simp. destruct u.
  destruct (get_or_create_dir_get _ _ _ _ Hm) as [Hother Hsub].
  apply (IH ltac:(done)) in Hm0 as [Hget Hframe]. subst root'. split.
  { rewrite tree_get_cons. simpl. by rewrite bt_insert_get_eq. }
  intros [|n' ns] Hns Hp1 Hp2; [done|].
  destruct (decide (n' = n)) as [->|Hn'].
  - apply Forall_cons in Hns as [_ Hns]. destruct ns as [|m' ns].
    { exfalso. apply Hp2. by eexists. }
    rewrite !tree_get_cons. cbn [set_children d_children]. rewrite bt_insert_get_eq.
    rewrite Hframe; [|done| |].
    + destruct Hsub as [->|[-> ->]]; [done|]. by apply tree_get_default.
    + intros Hp. apply Hp1. by apply prefix_cons.
    + intros Hp. apply Hp2. by apply prefix_cons.
  - destruct ns as [|m' ns]; rewrite ?tree_get_cons; simpl; rewrite bt_insert_get_ne by done;
      by rewrite Hother.
Qed.

Definition get_entry {A} (f : Dirent -> result Error (A * Dirent)) (dir : Dir) (name : option bstr)
    : result Error (option A * Dir) :=
  match name with
  | Some name =>
      match bt_get name (d_children dir) with
      | Some entry =>
          let? '(a, entry) := f entry in
          Ok (Some a, set_children (bt_insert name entry (d_children dir)) dir)
      | None => Ok (None, dir)
      end
  | None => Ok (None, dir)
  end.

Lemma get_components {A} (f : Dirent -> result Error (A * Dirent)) names root r root' :
  names <> [] ->
  lookup_components false (get_entry f) (Normal <$> names) root = Ok (r, root') ->
  (forall a, r = Some a -> exists entry entry', tree_get names root = Some entry /\
     f entry = Ok (a, entry') /\ tree_get names root' = Some entry') /\
  (r = None -> tree_get names root = None) /\
  forall ns, ~ names `prefix_of` ns -> ~ ns `prefix_of` names -> tree_get ns root' = tree_get ns root.
Proof.
  intros Hne. revert root root'. induction names as [|n names IH]; [done|]. intros root root'.
  destruct names as [|m names].
  { simpl. destruct (bt_get n (d_children root)) as [entry|] eqn:E; [|intros [= <- <-]; by rewrite E].
    destruct (f entry) as [[a entry']| |] eqn:Ef; simpl; [|done..]. intros [= <- <-]. simpl.
    split; [|split; [done|]].
    - intros a' [= <-]. exists entry, entry'. by rewrite bt_insert_get_eq.
    - intros [|n' ns] Hp1 Hp2; [done|].
      assert (n' <> n) by (intros ->; apply Hp1; by exists ns).
      destruct ns; simpl; by rewrite bt_insert_get_ne. }
  rewrite !fmap_cons, lookup_components_cons, <-fmap_cons. intros H.
  unfold get_dir in H. destruct (bt_get n (d_children root)) as [[| sub | | |]|] eqn:E; try done.
  simpl rmap in H. cbn [rbind] in H. monad_simp. simplify_eq.
  rename d into sub'. rename Hm into Hm0. apply (IH ltac:(done)) in Hm0 as (Hs & Hn & Hframe).
  rewrite !tree_get_cons, E. cbn [set_children d_children]. rewrite bt_insert_get_eq.
  split; [done|]. split; [done|].
  intros [|n' ns] Hp1 Hp2; [done|]. destruct (decide (n' = n)) as [->|Hn'].
  - destruct ns as [|m' ns]; [exfalso; apply Hp2; by eexists|].
    rewrite !tree_get_cons. cbn [set_children d_children]. rewrite bt_insert_get_eq, E.
    apply Hframe; intros Hp; [apply Hp1 | apply Hp2]; by apply prefix_cons.
  - destruct ns as [|m' ns]; rewrite ?tree_get_cons; simpl; by rewrite bt_insert_get_ne.
Qed.

(** Paths made of normal names take the general case of [lookup_impl]. *)
Lemma lookup_impl_path_of {A} create (k : Dir -> option bstr -> result Error (A * Dir)) names root :
  names <> [] -> Forall normal_name names ->
  lookup_impl create k root (path_of names) = lookup_components create k (Normal <$> names) root.
Proof.
  intros Hne Hn. assert (Forall plain_name names) as Hp by (eapply Forall_impl; [exact Hn|by intros ? []]).
  destruct (last_join_not_slash names Hne Hp) as [H1 H2]. unfold lookup_impl.
  change (join_slash names) with (path_of names) in *.
  rewrite decide_False by done. rewrite decide_False.
  - rewrite components_path_of by done. f_equal. clear -Hn.
    induction Hn as [|n ns [_ Hd] _ IH]; [done|]. csimpl. rewrite IH. unfold component_of.
    by rewrite decide_False.
  - intros [E|[E|E]]; rewrite E in H2; [|done..].
    destruct names as [|n [|m names]]; [done| |].
    + simpl in E. apply Forall_cons in Hp as [(_ & _ & Hd) _]. done.
    + apply (f_equal length) in E. unfold path_of in E. simpl in E. rewrite length_app in E. simpl in E.
      apply Forall_cons in Hp as [(Hn0 & _) _]. destruct n; [done|]. simpl in E. lia.
Qed.

Lemma path_of_no_trailing_slash names :
  names <> [] -> Forall normal_name names -> ends_with [slash] (path_of names) = false.
Proof.
  intros Hne Hn. assert (Forall plain_name names) as Hp by (eapply Forall_impl; [exact Hn|by intros ? []]).
  destruct (last_join_not_slash names Hne Hp) as [H1 H2].
  unfold ends_with. apply bool_decide_eq_false. intros E. apply H2.
  change (join_slash names) with (path_of names). destruct (path_of names) as [|b l _] using rev_ind; [done|].
  rewrite length_app, Nat.add_sub, drop_app_length in E. injection E as ->. by rewrite last_snoc.
Qed.

(** * Properties *)

(** The tree is a map from paths: after inserting an entry under a path of
    normal names, that path holds the entry, and every path that is neither
    above nor below it holds what it held before. *)
Theorem root_insert_get names entry root root' :
  names <> [] -> Forall normal_name names ->
  root_insert (path_of names) entry root = Ok root' ->
  tree_get names root' = Some entry /\
  forall ns, Forall normal_name ns -> ~ names `prefix_of` ns -> ~ ns `prefix_of` names ->
    tree_get ns root' = tree_get ns root.
Proof.
  intros Hne Hn. unfold root_insert. rewrite lookup_impl_path_of by done.
  intros H. apply rmap_Ok_inv in H as ([[] r] & H & <-). by apply insert_components.
Qed.

Definition example_leaf : Leaf :=
  {| l_meta := Meta_default; l_start_block := EROFS_NULL_ADDR; l_n_links := 1; l_len := 3;
     l_tail := Some [x61; x62; x63]; l_disk_id := None |}.

Lemma normal_name_b n : bool_decide (n <> [] /\ (slash ∉ n) /\ n <> dot /\ n <> dotdot) = true -> normal_name n.
Proof. intros (?&?&?&?)%bool_decide_eq_true. by repeat split. Qed.

Lemma root_insert_get_witness :
  exists root', root_insert (path_of [[x64]; [x66]]) (File example_leaf) Dir_default = Ok root' /\
    tree_get [[x64]; [x66]] root' = Some (File example_leaf).
Proof.
  eexists. split; [vm_compute; reflexivity|].
  refine (proj1 (root_insert_get [[x64]; [x66]] (File example_leaf) Dir_default _ _ _ _)).
  - done.
  - repeat constructor; apply normal_name_b; reflexivity.
  - vm_compute. reflexivity.
Defined.

(** Resolving a hard link to a file gives the new path the target's blocks,
    length and tail with a link count of two, counts one more link on the
    target, and changes nothing else. *)
Theorem hardlink_resolved path target meta root root' f :
  path <> [] -> Forall normal_name path -> target <> [] -> Forall normal_name target ->
  ~ path `prefix_of` target -> ~ target `prefix_of` path ->
  tree_get target root = Some (File f) ->
  resolve_link_list [(path_of path, path_of target, meta)] root = Ok root' ->
  tree_get path root' =
    Some (File {| l_meta := meta; l_start_block := l_start_block f; l_n_links := 2;
                  l_len := l_len f; l_tail := l_tail f; l_disk_id := None |}) /\
  tree_get target root' = Some (File (set_leaf_n_links (wadd 32 (l_n_links f) 1) f)) /\
  forall ns, Forall normal_name ns -> ~ path `prefix_of` ns -> ~ ns `prefix_of` path ->
    ~ target `prefix_of` ns -> ~ ns `prefix_of` target -> tree_get ns root' = tree_get ns root.
Proof.
  intros Hpn Hpf Htn Htf Hpt Htp Hf. simpl. unfold root_get_mut.
  rewrite lookup_impl_path_of by done. change (fun dir name => _) with (get_entry link_target).
  intros H. monad_simp. destruct p as [start len]. monad_simp. subst.
  apply get_components in Hm as (Hs & _ & Hframe); [|done].
  destruct (Hs _ eq_refl) as (entry & entry' & Hg & Hl & Hg').
  rewrite Hf in Hg. injection Hg as <-. simpl in Hl. injection Hl as <- <- <- <-.
  unfold root_add_file in Hm1. rewrite path_of_no_trailing_slash in Hm1 by done.
  unfold root_insert in Hm1. rewrite lookup_impl_path_of in Hm1 by done.
  apply rmap_Ok_inv in Hm1 as ([[] r] & Hi & Hr). simpl in Hr. subst r.
  apply insert_components in Hi as [Hp Hframe2]; [|done]. split; [done|]. split.
  - by rewrite Hframe2.
  - intros ns Hns H1 H2 H3 H4. by rewrite Hframe2, Hframe.
Qed.

Lemma hardlink_resolved_witness :
  exists root root', tree_get [[x61]] root = Some (File example_leaf) /\
    resolve_link_list [(path_of [[x62]], path_of [[x61]], Meta_default)] root = Ok root' /\
    tree_get [[x62]] root' =
      Some (File {| l_meta := Meta_default; l_start_block := EROFS_NULL_ADDR; l_n_links := 2;
                    l_len := 3; l_tail := Some [x61; x62; x63]; l_disk_id := None |}).
Proof.
  eexists (set_children (bt_insert [x61] (File example_leaf) (d_children Dir_default)) Dir_default), _.
  split; [vm_compute; reflexivity|]. split; [vm_compute; reflexivity|].
  refine (proj1 (hardlink_resolved [[x62]] [[x61]] Meta_default
    (set_children (bt_insert [x61] (File example_leaf) (d_children Dir_default)) Dir_default)
    _ example_leaf _ _ _ _ _ _ _ _)).
  - done.
  - repeat constructor; apply normal_name_b; reflexivity.
  - done.
  - repeat constructor; apply normal_name_b; reflexivity.
  - by intros [? [=]].
  - by intros [? [=]].
  - vm_compute. reflexivity.
  - vm_compute. reflexivity.
Defined.

(** ** File contents *)

Lemma size_tail_len_12 len :
  0 <= len < 2 ^ 63 ->
  let '(n, block_len, tail_len) := size_tail_len len 12 in
  block_len + tail_len = len /\ 0 <= tail_len <= 2048 /\ 0 <= block_len <= n * 4096 /\
  n * 4096 < block_len + 4096 /\ (tail_len <> 0 \/ len mod 4096 <= 2048 -> block_len = len / 4096 * 4096) /\
  n * 4096 = block_len + (if block_len mod 4096 =? 0 then 0 else 4096 - block_len mod 4096).
Proof.
  intros Hl. unfold size_tail_len. change (wshl 64 1 12) with 4096. change (4096 / 2) with 2048.
  pose proof (Z.div_mod len 4096 ltac:(lia)). pose proof (Z.mod_pos_bound len 4096 ltac:(lia)).
  pose proof (Z.div_pos len 4096 ltac:(lia) ltac:(lia)).
  destruct (Z.ltb_spec 2048 (len mod 4096)).
  - split; [lia|]. split; [lia|]. split; [lia|]. split; [lia|]. split; [lia|].
    destruct (Z.eqb_spec (len mod 4096) 0); lia.
  - rewrite wmul_small by (unfold in_width; lia).
    split; [lia|]. split; [lia|]. split; [lia|]. split; [lia|]. split; [done|].
    rewrite Z.mod_mul by lia. simpl. lia.
Qed.

(** The builder between two files: the writer is at the next data block. *)
Definition data_cursor (b : Builder) : Prop :=
  b_block_size_bits b = 12 /\ 0 <= b_cur_data_block b < 2 ^ 40 /\
  o_pos (b_writer b) = b_cur_data_block b * 4096.

Lemma write_blocks_spec b n block_len data :
  data_cursor b -> 0 < block_len <= zlen data -> 0 <= n < 2 ^ 40 ->
  n * 4096 = block_len + (if block_len mod 4096 =? 0 then 0 else 4096 - block_len mod 4096) ->
  let b' := write_blocks n block_len data b in
  b_cur_data_block b' = b_cur_data_block b + n /\ b_block_size_bits b' = 12 /\
  o_pos (b_writer b') = b_cur_data_block b' * 4096 /\
  get_range (o_bytes (b_writer b')) (b_cur_data_block b * 4096) (b_cur_data_block b * 4096 + block_len)
    = Some (ztake block_len data) /\
  b_root b' = b_root b /\ b_increment_uid_gid b' = b_increment_uid_gid b /\
  b_cur_file_size b' = b_cur_file_size b.
Proof.
  intros (Hb & Hc & Hp) Hl Hn Hpad. unfold write_blocks, zero_fill_block.
  set (b1 := set_cur_data_block _ _).
  assert (b_block_size b1 = 4096) as -> by (unfold b_block_size; simpl; by rewrite Hb).
  assert (zlen (ztake block_len data) = block_len) as Hzl by (apply zlen_ztake; lia).
  assert (b_cur_data_block b1 = b_cur_data_block b + n) as Hc1
    by (simpl; apply wadd_small; unfold in_width; lia).
  assert (b_writer b1 = write_all (ztake block_len data) (b_writer b)) as Hw1 by done.
  assert (forall z, get_range (o_bytes (write_all z (b_writer b1))) (b_cur_data_block b * 4096)
    (b_cur_data_block b * 4096 + block_len) = Some (ztake block_len data)) as Hr.
  { intros z. rewrite Hw1, write_all_app by lia. unfold write_all. simpl o_bytes. rewrite decide_False.
    - rewrite put_split, <-app_assoc, Hp. apply get_range_app; rewrite zlen_put_prefix; lia.
    - intros H0. apply (f_equal zlen) in H0. rewrite zlen_app in H0. len_lia. }
  unfold zero_fill. destruct (Z.eqb_spec (block_len mod 4096) 0); cbn [negb snd].
  - split; [done|]. split; [exact Hb|]. split; [|split; [|done]].
    + rewrite Hc1, Hw1. simpl. lia.
    + specialize (Hr []). by rewrite write_all_nil in Hr.
  - split; [exact Hc1|]. split; [exact Hb|]. split; [|split; [exact (Hr _)|done]].
    change (b_cur_data_block (b_write _ _)) with (b_cur_data_block b1).
    rewrite Hc1, b_write_pos. change (b_writer (set_stats _ b1)) with (b_writer b1). rewrite Hw1. simpl.
    rewrite zlen_replicate. pose proof (Z.mod_pos_bound block_len 4096). lia.
Qed.

(** The contents of a file are its blocks, found at the start block, followed
    by the tail kept in memory. *)
Definition stored (bytes : list byte) (f : Leaf) (contents : list byte) : Prop :=
  l_len f = zlen contents /\ l_tail f <> Some [] /\
  exists block, block ++ default [] (l_tail f) = contents /\
    (l_tail f <> None \/ zlen contents mod 4096 <= 2048 -> zlen block = zlen contents / 4096 * 4096) /\
    if decide (block = []) then l_start_block f = EROFS_NULL_ADDR
    else 0 <= l_start_block f < EROFS_NULL_ADDR /\
      get_range bytes (l_start_block f * 4096) (l_start_block f * 4096 + zlen block) = Some block.

Lemma stored_parts b n block_len tail_len start contents meta :
  data_cursor b -> b_cur_data_block b < EROFS_NULL_ADDR -> zlen contents < 2 ^ 40 ->
  size_tail_len (zlen contents) 12 = (n, block_len, tail_len) ->
  start_block_of b block_len = Ok start ->
  let b' := if 0 <? block_len then write_blocks n block_len contents b else b in
  let f := {| l_meta := meta; l_start_block := start; l_n_links := 1; l_len := zlen contents;
              l_tail := if 0 <? tail_len then Some (zdrop block_len contents) else None;
              l_disk_id := None |} in
  stored (o_bytes (b_writer b')) f contents /\
  b_block_size_bits b' = 12 /\ o_pos (b_writer b') = b_cur_data_block b' * 4096 /\
  b_cur_data_block b' = b_cur_data_block b + (if 0 <? block_len then n else 0) /\
  b_root b' = b_root b /\ b_increment_uid_gid b' = b_increment_uid_gid b /\
  b_cur_file_size b' = b_cur_file_size b /\
  (if 0 <? block_len then zdrop block_len contents else contents) = zdrop block_len contents /\
  (0 < tail_len -> ztake tail_len (zdrop block_len contents) = zdrop block_len contents /\
     zlen (zdrop block_len contents) = tail_len).
Proof.
  intros Hcur Hmax Hlen Hst Hsb. pose proof (zlen_nonneg contents) as Hc0.
  pose proof (size_tail_len_12 (zlen contents) ltac:(lia)) as Hs. rewrite Hst in Hs.
  destruct Hs as (Hsum & Ht & Hb & Hn & Hfl & Hpad). pose proof Hcur as (Hbits & Hcd & Hpos).
  assert (zlen (zdrop block_len contents) = tail_len) as Hzd by (rewrite zlen_zdrop; lia).
  assert (0 < tail_len -> ztake tail_len (zdrop block_len contents) = zdrop block_len contents /\
     zlen (zdrop block_len contents) = tail_len) as Htk
    by (intros; split; [apply ztake_ge; lia|done]).
  unfold start_block_of, EROFS_NULL_ADDR, u32_max in *. simpl.
  assert ((if 0 <? tail_len then Some (zdrop block_len contents) else None) <> None \/ zlen contents mod 4096 <= 2048 ->
    block_len = zlen contents / 4096 * 4096) as Htl
    by (intros [HP|HP]; apply Hfl; [destruct (Z.ltb_spec 0 tail_len); [lia|done]|by right]).
  assert ((if 0 <? tail_len then Some (zdrop block_len contents) else None) <> Some []) as Hns.
  { destruct (Z.ltb_spec 0 tail_len); [|done]. intros [= H0]. rewrite H0 in Hzd.
    change (zlen (@nil byte)) with 0 in Hzd. lia. }
  assert (default [] (if 0 <? tail_len then Some (zdrop block_len contents) else None)
    = zdrop block_len contents) as Hdef.
  { destruct (Z.ltb_spec 0 tail_len); [done|]. simpl. symmetry. apply zlen_zero. lia. }
  destruct (Z.ltb_spec 0 block_len) as [Hbl|Hbl].
  - rewrite try_into_id in Hsb by (unfold in_width; lia). injection Hsb as <-.
    destruct (write_blocks_spec b n block_len contents Hcur ltac:(lia) ltac:(lia) Hpad)
      as (H1 & H2 & H3 & H4 & H5 & H6 & H7).
    split; [|repeat split; try done; by apply Htk].
    split; [done|]. split; [done|]. exists (ztake block_len contents). simpl l_tail.
    rewrite Hdef, ztake_zdrop. split; [done|].
    assert (zlen (ztake block_len contents) = block_len) as Hzt by (apply zlen_ztake; lia).
    split; [by rewrite Hzt|].
    destruct (decide _) as [E|_]; [exfalso; rewrite E in Hzt; change (zlen (@nil byte)) with 0 in Hzt; lia|].
    cbn [l_start_block]. rewrite Hzt. unfold EROFS_NULL_ADDR, u32_max. split; [lia|exact H4].
  - injection Hsb as <-. assert (block_len = 0) as -> by lia.
    split; [|repeat split; try done; [lia|by apply Htk..]].
    split; [done|]. split; [done|]. exists []. simpl l_tail. rewrite Hdef. split; [done|].
    split; [exact Htl|].
    by rewrite decide_True.
Qed.

Lemma add_file_spec path meta contents b b' root :
  path <> [] -> Forall normal_name path -> data_cursor b -> b_cur_data_block b < EROFS_NULL_ADDR ->
  zlen contents < 2 ^ 40 -> b_root b = Some root ->
  add_file (path_of path) meta (zlen contents) contents b = Ok b' ->
  exists root' f, b_root b' = Some root' /\ tree_get path root' = Some (File f) /\
    hook_meta b meta = Ok (l_meta f) /\
    stored (o_bytes (b_writer b')) f contents /\
    o_pos (b_writer b') = b_cur_data_block b' * 4096 /\
    b_cur_data_block b <= b_cur_data_block b' /\
    forall ns, Forall normal_name ns -> ~ path `prefix_of` ns -> ~ ns `prefix_of` path ->
      tree_get ns root' = tree_get ns root.
Proof.
  intros Hne Hn Hcur Hmax Hlen Hroot. pose proof Hcur as (Hbits & _). unfold add_file.
  destruct (b_max_file_size b <=? _); [done|]. rewrite Hbits.
  destruct (size_tail_len (zlen contents) 12) as [[n block_len] tail_len] eqn:Hst.
  destruct (start_block_of b block_len) as [start| |] eqn:Hsb; [|done..]. cbn [rbind].
  destruct (stored_parts b n block_len tail_len start contents meta Hcur Hmax Hlen Hst Hsb)
    as (_ & _ & Hpos & Hcd & Hr & Hi & _ & Hrest & Htail).
  pose proof (fun m => proj1 (stored_parts b n block_len tail_len start contents m Hcur Hmax Hlen Hst Hsb)) as Hsto.
  rewrite Hrest. set (b1 := if 0 <? block_len then _ else b) in *. cbv zeta in Hsto.
  pose proof (size_tail_len_12 (zlen contents)) as Hs. rewrite Hst in Hs.
  pose proof (zlen_nonneg contents). destruct Hs as (_ & _ & Hb0 & Hn0 & _); [lia|].
  set (tail := if 0 <? tail_len then Some (zdrop block_len contents) else None) in *.
  assert ((if 0 <? tail_len then
             if zlen (zdrop block_len contents) <? tail_len then Err Io
             else Ok (Some (ztake tail_len (zdrop block_len contents)))
           else Ok None) = Ok tail) as ->.
  { unfold tail. destruct (Z.ltb_spec 0 tail_len); [|done]. destruct (Htail ltac:(done)) as [-> ->].
    by rewrite Z.ltb_irrefl. }
  cbn [rbind]. assert (hook_meta b1 meta = hook_meta b meta) as -> by (unfold hook_meta; by rewrite Hi).
  destruct (hook_meta b meta) as [m| |] eqn:Hhm; [|done..]. cbn [rbind].
  unfold with_root. rewrite Hr, Hroot. unfold root_add_file. rewrite path_of_no_trailing_slash by done.
  unfold root_insert. rewrite lookup_impl_path_of by done. intros Hres. monad_simp.
  apply rmap_Ok_inv in Hm as ([[] root'] & Hm & <-). subst b'.
  apply insert_components in Hm as [Hget Hframe]; [|done].
  eexists _, _. split; [done|]. split; [exact Hget|]. split; [done|].
  split; [apply Hsto|]. split; [exact Hpos|]. split; [|done].
  change (b_cur_data_block b <= b_cur_data_block b1). rewrite Hcd. destruct (0 <? block_len) eqn:Eb; lia.
Qed.

(** A file that [add_file] accepts is stored completely: the path holds a
    file whose blocks on the output and whose tail in memory are exactly the
    contents that were given, the writer is at the next free block, and the
    other paths of the tree are unchanged. *)
Theorem add_file_stored path meta contents b b' root :
  path <> [] -> Forall normal_name path -> data_cursor b -> b_cur_data_block b < EROFS_NULL_ADDR ->
  zlen contents < 2 ^ 40 -> b_root b = Some root ->
  add_file (path_of path) meta (zlen contents) contents b = Ok b' ->
  exists root' f, b_root b' = Some root' /\ tree_get path root' = Some (File f) /\
    hook_meta b meta = Ok (l_meta f) /\
    stored (o_bytes (b_writer b')) f contents /\
    o_pos (b_writer b') = b_cur_data_block b' * 4096 /\
    b_cur_data_block b <= b_cur_data_block b' /\
    forall ns, Forall normal_name ns -> ~ path `prefix_of` ns -> ~ ns `prefix_of` path ->
      tree_get ns root' = tree_get ns root.
Proof. apply add_file_spec. Qed.

Definition start_builder (limit inc : option Z) : Builder :=
  Builder_new {| o_bytes := []; o_pos := 0 |} {| max_file_size := limit; increment_uid_gid := inc |}.

Definition added (limit : option Z) (path : bstr) (contents : list byte) : Builder :=
  match add_file path Meta_default (zlen contents) contents (start_builder limit None) with
  | Ok b => b
  | _ => start_builder limit None
  end.

Lemma add_file_stored_witness :
  exists root' f, b_root (added None (path_of [[x66]]) [x61; x62]) = Some root' /\
    tree_get [[x66]] root' = Some (File f) /\
    stored (o_bytes (b_writer (added None (path_of [[x66]]) [x61; x62]))) f [x61; x62].
Proof.
  destruct (add_file_stored [[x66]] Meta_default [x61; x62] (start_builder None None)
    (added None (path_of [[x66]]) [x61; x62]) Dir_default) as (root' & f & H1 & H2 & _ & H4 & _).
  - done.
  - repeat constructor; apply normal_name_b; reflexivity.
  - vm_compute. intuition congruence.
  - vm_compute. reflexivity.
  - vm_compute. reflexivity.
  - reflexivity.
  - vm_compute. reflexivity.
  - exists root', f. split; [exact H1|]. split; [exact H2|exact H4].
Defined.

(** The size limit is not a limit on the image: [add_file] compares the
    limit with a running total that it never increases, so files whose sizes sum
    to more than the limit are all accepted. *)
Theorem size_limit_not_cumulative :
  (forall path meta len contents b b', add_file path meta len contents b = Ok b' ->
     b_cur_file_size b' = b_cur_file_size b) /\
  exists b1 b2,
    add_file [x61] Meta_default 8 (replicate 8 x00) (start_builder (Some 10) None) = Ok b1 /\
    add_file [x62] Meta_default 8 (replicate 8 x00) b1 = Ok b2.
Proof.
  split.
  - intros path meta len contents b b'. unfold add_file. destruct (_ <=? _); [done|].
    destruct (size_tail_len _ _) as [[n bl] tl]. intros H. monad_simp.
    assert (b_cur_file_size (if 0 <? bl then write_blocks n bl contents b else b) = b_cur_file_size b) as <-.
    { destruct (0 <? bl); [|done]. unfold write_blocks, zero_fill_block, zero_fill. by destruct (negb _). }
    revert H. unfold with_root. destruct (b_root _); [|done]. intros H. monad_simp. by subst.
  - eexists _, _. split; [vm_compute; reflexivity|vm_compute; reflexivity].
Qed.

(** Hard links bypass the uid/gid shift: with a shift configured, a file's
    owner is shifted when it is added, while a hard link to it keeps the
    unshifted owner of its own tar header; and a hard link to a symlink turns
    into a regular file. *)
Theorem hardlink_meta_unshifted :
  exists b root,
    (let? b := add_file [x61] Meta_default 1 [x00] (start_builder None (Some 1000)) in
     let? b := add_symlink [x73] [x61] Meta_default b in
     resolve_links (add_link [x6c] [x73] Meta_default (add_link [x62] [x61] Meta_default b)))%result = Ok b /\
    b_root b = Some root /\
    (forall f, tree_get [[x61]] root = Some (File f) -> m_uid (l_meta f) = 1000) /\
    (exists f, tree_get [[x62]] root = Some (File f) /\ m_uid (l_meta f) = 0) /\
    (exists s f, tree_get [[x73]] root = Some (Symlink s) /\ tree_get [[x6c]] root = Some (File f)).
Proof.
  eexists _, _. split; [vm_compute; reflexivity|]. split; [vm_compute; reflexivity|].
  split; [intros f; vm_compute; by intros [= <-]|].
  split; [eexists; split; vm_compute; reflexivity|].
  eexists _, _. split; vm_compute; reflexivity.
Qed.
