(* ===== verification/ErofsTree.v ===== *)
(** The well-formedness of the tree that the image builder makes
    (src/peerofs/src/build.rs).

    Every directory of the tree is an ordered map that has the entries for itself
    and its parent under their names only, and names that a path component can
    have otherwise.  Every operation of the builder keeps this, which is what the
    layout of the directory blocks relies on. *)
From stdpp Require Import base list numbers strings.
From Stdlib Require Import ZArith Lia.
From S2P Require Import Prelude MemFile BTree Paths ErofsDisk ErofsBuild.
#[local] Open Scope Z_scope.
#[local] Open Scope result_scope.

(** * The invariant *)

(** The names of ordinary entries. *)
Definition entry_name (n : bstr) : Prop := plain_name n /\ n <> dotdot.

Inductive tree_ok : Dir -> Prop :=
  | tree_ok_dir c i :
      bt_sorted c -> bt_get dot c = Some Dot -> bt_get dotdot c = Some DotDot ->
      (forall n e, bt_get n c = Some e -> entry_ok n e) -> tree_ok (mk_dir c i)
with entry_ok : bstr -> Dirent -> Prop :=
  | entry_ok_dot : entry_ok dot Dot
  | entry_ok_dotdot : entry_ok dotdot DotDot
  | entry_ok_file n f : entry_name n -> entry_ok n (File f)
  | entry_ok_symlink n s : entry_name n -> entry_ok n (Symlink s)
  | entry_ok_dir n d : entry_name n -> tree_ok d -> entry_ok n (SubDir d).

Definition builder_ok (b : Builder) : Prop := exists root, b_root b = Some root /\ tree_ok root.

(** * Names *)

Lemma split_slash_no_slash_in p s : s ∈ split_slash p -> slash ∉ s.
Proof.
  revert s. induction p as [|b p IH]; intros s; simpl.
  - rewrite list_elem_of_singleton. intros ->. apply not_elem_of_nil.
  - destruct (decide (b = slash)) as [->|Hb].
    + intros [->|Hs]%elem_of_cons; [apply not_elem_of_nil|by apply IH].
    + destruct (split_slash p) as [|t r]; simpl.
      * rewrite list_elem_of_singleton. intros ->. by rewrite list_elem_of_singleton.
      * intros [->|Hs]%elem_of_cons; [|by apply IH; right].
        intros [?|Hin]%elem_of_cons; [done|]. revert Hin. apply IH. by left.
Qed.

Lemma body_component_entry_name s n : slash ∉ s -> body_component s = Some (Normal n) -> entry_name n.
Proof.
  unfold body_component. intros Hs. case_decide as H1; [done|]. case_decide as H2; [done|]. intros [= <-].
  split; [|done]. unfold plain_name. split_and!; [by intros ->; apply H1; left|done|by intros ->; apply H1; right].
Qed.

Lemma body_prefixes_names before segs n :
  (forall s, s ∈ segs -> slash ∉ s) -> Normal n ∈ (body_prefixes before segs).*1 -> entry_name n.
Proof.
  revert before. induction segs as [|s segs IH]; intros before Hs; simpl; [by intros ?%elem_of_nil|].
  assert (forall s', s' ∈ segs -> slash ∉ s') as Hs' by (intros; apply Hs; by right).
  destruct (body_component s) as [c|] eqn:E; simpl; [|by apply IH].
  intros [<-|Hin]%elem_of_cons; [|by eapply IH].
  apply (body_component_entry_name s); [apply Hs; by left|done].
Qed.

Lemma components_names p n : Normal n ∈ components p -> entry_name n.
Proof.
  unfold components, component_prefixes. pose proof (split_slash_no_slash_in p) as Hs.
  destruct (split_slash p) as [|s segs]; [by intros ?%elem_of_nil|].
  assert (forall s', s' ∈ segs -> slash ∉ s') as Hs' by (intros; apply Hs; by right).
  destruct (first_component _ _) as [c|] eqn:E; simpl; [|by apply body_prefixes_names].
  intros [<-|Hin]%elem_of_cons; [|by eapply body_prefixes_names].
  unfold first_component in E. case_decide; [by destruct (negb _)|]. case_decide; [done|].
  apply (body_component_entry_name s); [apply Hs; by left|done].
Qed.

(** * The operations on directories *)

Lemma Dir_default_ok : tree_ok Dir_default.
Proof.
  constructor; [by apply bt_insert_sorted, bt_insert_sorted; constructor|reflexivity|reflexivity|].
  intros n e. unfold dotdot, dot. simpl. repeat case_decide; intros [= <-]; subst; constructor.
Qed.

Lemma tree_ok_inv d : tree_ok d ->
  bt_sorted (d_children d) /\ bt_get dot (d_children d) = Some Dot /\
  bt_get dotdot (d_children d) = Some DotDot /\ forall n e, bt_get n (d_children d) = Some e -> entry_ok n e.
Proof. by intros []. Qed.

Lemma entry_name_not_special n : entry_name n -> n <> dot /\ n <> dotdot.
Proof. by intros [(? & ? & ?) ?]. Qed.

Lemma insert_ok n e d :
  tree_ok d -> entry_name n -> entry_ok n e -> tree_ok (set_children (bt_insert n e (d_children d)) d).
Proof.
  intros (Hs & Hd & Hdd & He)%tree_ok_inv Hn Hok. destruct (entry_name_not_special n Hn).
  constructor; [by apply bt_insert_sorted|by rewrite bt_insert_get_ne|by rewrite bt_insert_get_ne|].
  intros m x. destruct (decide (m = n)) as [->|]; [rewrite bt_insert_get_eq; by intros [= <-]|].
  rewrite bt_insert_get_ne by done. apply He.
Qed.

Lemma set_dir_meta_ok m d : tree_ok d -> tree_ok (set_dir_meta m d).
Proof. by intros (? & ? & ? & ?)%tree_ok_inv. Qed.

Lemma sub_dir_ok n sub d : tree_ok d -> bt_get n (d_children d) = Some (SubDir sub) -> tree_ok sub /\ entry_name n.
Proof. intros (_ & _ & _ & He)%tree_ok_inv Hg. apply He in Hg. by inversion Hg. Qed.

Lemma get_or_create_dir_ok n d sub d' :
  tree_ok d -> entry_name n -> get_or_create_dir n d = Ok (sub, d') -> tree_ok sub /\ tree_ok d'.
Proof.
  intros Hd Hn. unfold get_or_create_dir. destruct (bt_get n (d_children d)) as [[]|] eqn:E; try done.
  - intros [= <- <-]. by destruct (sub_dir_ok _ _ _ Hd E).
  - intros [= <- <-]. split; [apply Dir_default_ok|]. apply insert_ok; [done..|].
    constructor; [done|apply Dir_default_ok].
Qed.

(** A continuation that keeps the tree, in the directory it is given. *)
Definition keeps {A} (k : Dir -> option bstr -> result Error (A * Dir)) : Prop :=
  forall d name a d', tree_ok d -> (forall n, name = Some n -> entry_name n) -> k d name = Ok (a, d') -> tree_ok d'.

Lemma lookup_components_ok {A} create (k : Dir -> option bstr -> result Error (A * Dir)) comps d a d' :
  keeps k -> (forall n, Normal n ∈ comps -> entry_name n) -> tree_ok d ->
  lookup_components create k comps d = Ok (a, d') -> tree_ok d'.
Proof.
  intros Hk. revert d a d'. induction comps as [|c comps IH]; intros d a d' Hn Hd E.
  { by apply (Hk d None a d'). }
  assert (forall n, Normal n ∈ comps -> entry_name n) as Hn' by (intros; apply Hn; by right).
  destruct comps as [|c2 comps].
  - destruct c as [| | |n]; simpl in E; try discriminate E; [by apply (Hk d None a d')|].
    apply (Hk d (Some n) a d' Hd); [|done]. intros m [= <-]. apply Hn. by left.
  - destruct c as [| | |n]; [by eapply IH|by eapply IH|discriminate E|].
    assert (entry_name n) as Hnn by (apply Hn; by left).
    rewrite lookup_components_cons in E. apply rbind_Ok_inv in E as ([sub cur] & E1 & E).
    apply rbind_Ok_inv in E as ([a' sub'] & E2 & [= <- <-]).
    assert (tree_ok sub /\ tree_ok cur) as [Hsub Hcur].
    { destruct create; [by eapply get_or_create_dir_ok|]. apply rmap_Ok_inv in E1 as (s & Hg & [= -> ->]).
      unfold get_dir in Hg. destruct (bt_get n (d_children cur)) as [[]|] eqn:Eg; try done.
      injection Hg as ->. by destruct (sub_dir_ok _ _ _ Hd Eg). }
    apply insert_ok; [done..|]. constructor; [done|]. eapply IH; [exact Hn'|exact Hsub|exact E2].
Qed.

Lemma lookup_impl_ok {A} create (k : Dir -> option bstr -> result Error (A * Dir)) root path a root' :
  keeps k -> tree_ok root -> lookup_impl create k root path = Ok (a, root') -> tree_ok root'.
Proof.
  intros Hk Hr. unfold lookup_impl. case_decide; [done|].
  case_decide; [intros E; by apply (Hk root None a root')|].
  apply lookup_components_ok; [done| |done]. intros n. apply components_names.
Qed.

Lemma root_insert_ok path e root root' :
  (forall n, entry_name n -> entry_ok n e) -> tree_ok root -> root_insert path e root = Ok root' -> tree_ok root'.
Proof.
  intros He Hr E. unfold root_insert in E. apply rmap_Ok_inv in E as ([[] r] & E & <-).
  eapply lookup_impl_ok; [|done|exact E]. intros d [n|] a d' Hd Hn; [|done]. intros [= <- <-].
  apply insert_ok; [done|by apply Hn|]. apply He. by apply Hn.
Qed.

Lemma root_add_file_ok path f root root' : tree_ok root -> root_add_file path f root = Ok root' -> tree_ok root'.
Proof.
  intros Hr. unfold root_add_file. destruct (ends_with _ _); [done|]. apply root_insert_ok; [by constructor|done].
Qed.

Lemma root_add_symlink_ok path s root root' : tree_ok root -> root_add_symlink path s root = Ok root' -> tree_ok root'.
Proof.
  intros Hr. unfold root_add_symlink. destruct (ends_with _ _); [done|]. apply root_insert_ok; [by constructor|done].
Qed.

Lemma root_upsert_dir_ok path m root root' : tree_ok root -> root_upsert_dir path m root = Ok root' -> tree_ok root'.
Proof.
  intros Hr E. unfold root_upsert_dir in E. apply rmap_Ok_inv in E as ([[] r] & E & <-).
  eapply lookup_impl_ok; [|done|exact E]. intros d [n|] a d' Hd Hn Ek.
  - assert (entry_name n) as Hnn by (by apply Hn). apply rbind_Ok_inv in Ek as ([sub d1] & Eg & [= <- <-]).
    destruct (get_or_create_dir_ok _ _ _ _ Hd Hnn Eg). apply insert_ok; [done..|].
    constructor; [done|by apply set_dir_meta_ok].
  - injection Ek as <- <-. by apply set_dir_meta_ok.
Qed.

Lemma root_get_mut_ok {A} path (f : Dirent -> result Error (A * Dirent)) root a root' :
  (forall n e a e', entry_ok n e -> f e = Ok (a, e') -> entry_name n /\ entry_ok n e') ->
  tree_ok root -> root_get_mut path f root = Ok (a, root') -> tree_ok root'.
Proof.
  intros Hf Hr. apply lookup_impl_ok; [|done]. intros d [n|] x d' Hd Hn; [|by intros [= _ <-]].
  destruct (bt_get n (d_children d)) as [e|] eqn:Eg; [|by intros [= _ <-]].
  intros E. apply rbind_Ok_inv in E as ([y e'] & Ef & [= _ <-]).
  apply tree_ok_inv in Hd as Hd'. destruct Hd' as (_ & _ & _ & He). destruct (Hf n e y e' (He _ _ Eg) Ef).
  by apply insert_ok.
Qed.

Lemma resolve_link_list_ok links root root' :
  tree_ok root -> resolve_link_list links root = Ok root' -> tree_ok root'.
Proof.
  revert root. induction links as [|[[path target] meta] links IH]; intros root Hr; simpl; [by intros [= <-]|].
  intros E. apply rbind_Ok_inv in E as ([found r1] & E1 & E).
  apply rbind_Ok_inv in E as ([[sb l] t] & _ & E). apply rbind_Ok_inv in E as (r2 & E2 & E).
  apply (IH r2); [|done]. eapply root_add_file_ok; [|exact E2].
  eapply root_get_mut_ok; [|exact Hr|exact E1]. intros n e x e' He. unfold link_target.
  destruct e; try done; inversion He; subst; intros [= _ <-]; (split; [done|by constructor]).
Qed.

(** * The builder *)

Lemma with_root_ok f b b' :
  (forall r r', tree_ok r -> f r = Ok r' -> tree_ok r') -> builder_ok b -> with_root f b = Ok b' -> builder_ok b'.
Proof.
  intros Hf (root & Hb & Hr). unfold with_root. rewrite Hb. intros E.
  apply rbind_Ok_inv in E as (r' & E & [= <-]). exists r'. split; [done|]. by eapply Hf.
Qed.

Lemma builder_ok_root b b' : b_root b' = b_root b -> builder_ok b -> builder_ok b'.
Proof. intros Hr (root & Hb & Ht). exists root. by rewrite Hr. Qed.

Lemma write_blocks_root n l data b : b_root (write_blocks n l data b) = b_root b.
Proof. unfold write_blocks, zero_fill_block, zero_fill. by destruct (negb _). Qed.

(** The operations that build the tree. *)
Inductive BuildOp :=
  | AddFile (path : bstr) (meta : Meta) (len : Z) (contents : list byte)
  | UpsertDir (path : bstr) (meta : Meta)
  | AddSymlink (path link : bstr) (meta : Meta)
  | AddLink (path target : bstr) (meta : Meta)
  | ResolveLinks.

Definition build_step (op : BuildOp) (b : Builder) : result Error Builder :=
  match op with
  | AddFile path meta len contents => add_file path meta len contents b
  | UpsertDir path meta => upsert_dir path meta b
  | AddSymlink path link meta => add_symlink path link meta b
  | AddLink path target meta => Ok (add_link path target meta b)
  | ResolveLinks => resolve_links b
  end.

Fixpoint build_steps (ops : list BuildOp) (b : Builder) : result Error Builder :=
  match ops with [] => Ok b | op :: ops => let? b := build_step op b in build_steps ops b end.

Lemma build_step_ok op b b' : builder_ok b -> build_step op b = Ok b' -> builder_ok b'.
Proof.
  intros Hb. destruct op as [path meta len contents|path meta|path link meta|path target meta|]; simpl.
  - unfold add_file. destruct (_ <=? _); [done|]. destruct (size_tail_len _ _) as [[nb bl] tl].
    intros E. apply rbind_Ok_inv in E as (sb & _ & E). apply rbind_Ok_inv in E as (tail & _ & E).
    apply rbind_Ok_inv in E as (m & _ & E). eapply with_root_ok; [| |exact E].
    + intros r r'. apply root_add_file_ok.
    + destruct (0 <? bl); [|done]. by apply (builder_ok_root b), Hb; apply write_blocks_root.
  - unfold upsert_dir. intros E. apply rbind_Ok_inv in E as (m & _ & E).
    eapply with_root_ok; [|done|exact E]. intros r r'. apply root_upsert_dir_ok.
  - unfold add_symlink. destruct (size_tail_len _ _) as [[nb bl] tl].
    intros E. apply rbind_Ok_inv in E as (sb & _ & E). apply rbind_Ok_inv in E as (m & _ & E).
    eapply with_root_ok; [| |exact E].
    + intros r r'. apply root_add_symlink_ok.
    + destruct (0 <? bl); [|done]. by apply (builder_ok_root b), Hb; apply write_blocks_root.
  - intros [= <-]. by apply (builder_ok_root b).
  - unfold resolve_links. apply with_root_ok; [|by apply (builder_ok_root b)].
    intros r r'. apply resolve_link_list_ok.
Qed.

(** * Properties *)

(** C25: the tree of the builder is well-formed.  In every builder that the
    operations reach from a new one, each directory of the tree has its entries
    in strictly increasing order of their names, the entries for itself and its
    parent under their own names only, and every other entry under a name without
    a slash that is not one of the special names. *)
Theorem builder_tree_ok writer config ops b :
  build_steps ops (Builder_new writer config) = Ok b -> builder_ok b.
Proof.
  assert (builder_ok (Builder_new writer config)) as H0
    by (exists Dir_default; split; [done|apply Dir_default_ok]).
  revert H0. generalize (Builder_new writer config) as b0. induction ops as [|op ops IH]; intros b0 H0; simpl.
  - by intros [= <-].
  - intros E. apply rbind_Ok_inv in E as (b1 & E1 & E). apply (IH b1); [|done]. by eapply build_step_ok.
Qed.

Definition example_ops : list BuildOp :=
  [UpsertDir (bytes_of_string "b/") Meta_default; AddFile (bytes_of_string "b/./x") Meta_default 2 [x61; x62];
   AddFile (bytes_of_string "/a/y") Meta_default 0 []; AddSymlink (bytes_of_string "c") (bytes_of_string "a/y") Meta_default;
   AddLink (bytes_of_string "a/z") (bytes_of_string "b/x") Meta_default; ResolveLinks].
Definition example_builder : Builder :=
  ok_default (Builder_new {| o_bytes := []; o_pos := 0 |} {| max_file_size := None; increment_uid_gid := None |})
    (build_steps example_ops
      (Builder_new {| o_bytes := []; o_pos := 0 |} {| max_file_size := None; increment_uid_gid := None |})).

Lemma builder_tree_ok_witness :
  ((fun d => (d_children d).*1) <$> b_root example_builder) =
    Some [dot; dotdot; bytes_of_string "a"; bytes_of_string "b"; bytes_of_string "c"] /\
  builder_ok example_builder.
Proof.
  split; [vm_compute; reflexivity|].
  apply (builder_tree_ok {| o_bytes := []; o_pos := 0 |} {| max_file_size := None; increment_uid_gid := None |}
    example_ops).
  apply ok_default_is_ok. vm_compute. reflexivity.
Defined.
