(* ===== verification/ErofsImage.v ===== *)
(** What the builder writes is what the reader reads: the two sides of
    src/peerofs/src/build.rs and src/peerofs/src/disk.rs against each other.

    The layout of directory entries is stated as a pure encoding of groups of
    items into blocks; the builder's passes produce this encoding and the
    reader's iterator decodes it.  An inode written by [write_inode] is found by
    [get_inode] under the disk id it got, with its tail. *)
From stdpp Require Import option base list numbers strings.
From Stdlib Require Import ZArith Lia.
From S2P Require Import Prelude MemFile BTree Paths ErofsDisk ErofsBuild.
#[local] Open Scope Z_scope.
#[local] Open Scope result_scope.

(** * The encoding of directory entries *)

Definition dirent_of (off : Z) (it : DirentItem) : ErofsDisk.Dirent :=
  {| de_disk_id := item_disk_id it; name_offset := off;
     de_file_type := DirentFileType.to_u8 (item_file_type it); de_reserved := 0 |}.

Fixpoint dirents_bytes (off : Z) (g : list DirentItem) : list byte :=
  match g with
  | [] => []
  | it :: g => as_bytes (dirent_of off it) ++ dirents_bytes (off + zlen (item_name it)) g
  end.

Definition names (g : list DirentItem) : list byte := concat (item_name <$> g).

(** The entries of one block, then their names. *)
Definition group_bytes (g : list DirentItem) : list byte :=
  dirents_bytes (12 * zlen g) g ++ names g.

Definition zeros (n : Z) : list byte := replicate (Z.to_nat n) x00.
Definition pad (bs : Z) (l : list byte) : list byte := l ++ zeros (bs - zlen l).

(** The blocks of a directory, the last one not padded. *)
Fixpoint blocks_bytes (bs : Z) (gs : list (list DirentItem)) : list byte :=
  match gs with
  | [] => []
  | [g] => group_bytes g
  | g :: gs => pad bs (group_bytes g) ++ blocks_bytes bs gs
  end.

Definition item_ok (it : DirentItem) : Prop := in_width 32 (item_disk_id it) /\ x00 ∉ item_name it.
Definition group_ok (bs : Z) (g : list DirentItem) : Prop :=
  g <> [] /\ Forall item_ok g /\ zlen (group_bytes g) <= bs.

(** * Decoding *)

#[local] Opaque le_bytes.
Lemma zlen_as_bytes_dirent (x : ErofsDisk.Dirent) : zlen (as_bytes x) = 12.
Proof. unfold as_bytes. simpl. by autorewrite with pe_len. Qed.

Lemma zlen_as_bytes_entry (e : XattrEntry) : zlen (as_bytes e) = 4.
Proof. unfold as_bytes. simpl. by autorewrite with pe_len. Qed.
#[local] Opaque as_bytes.

Lemma dirent_of_ok off it : 0 <= off < 65536 -> item_ok it -> pod_ok (dirent_of off it).
Proof.
  intros Hoff [Hid _]. unfold in_width in Hid. simpl. unfold int_ok.
  change (256 ^ Z.of_nat 8) with (2 ^ 64). change (256 ^ Z.of_nat 2) with 65536.
  change (256 ^ Z.of_nat 1) with 256.
  destruct (item_file_type it); simpl; lia.
Qed.

Lemma names_app g1 g2 : names (g1 ++ g2) = names g1 ++ names g2.
Proof. unfold names. by rewrite fmap_app, concat_app. Qed.
Lemma names_single it : names [it] = item_name it.
Proof. unfold names. simpl. apply app_nil_r. Qed.
Lemma names_cons it g : names (it :: g) = item_name it ++ names g.
Proof. done. Qed.

Lemma dirents_bytes_app off g1 g2 :
  dirents_bytes off (g1 ++ g2) = dirents_bytes off g1 ++ dirents_bytes (off + zlen (names g1)) g2.
Proof.
  revert off. induction g1 as [|it g1 IH]; intros off; simpl.
  - by rewrite Z.add_0_r.
  - rewrite IH, <-app_assoc, names_cons, zlen_app. by rewrite Z.add_assoc.
Qed.

Lemma zlen_dirents_bytes off g : zlen (dirents_bytes off g) = 12 * zlen g.
Proof.
  revert off. induction g as [|it g IH]; intros off; simpl; [done|].
  rewrite zlen_app, zlen_cons, IH, zlen_as_bytes_dirent. lia.
Qed.

Lemma zlen_group_bytes g : zlen (group_bytes g) = 12 * zlen g + zlen (names g).
Proof. unfold group_bytes. by rewrite zlen_app, zlen_dirents_bytes. Qed.

Lemma try_from_to_u8 t : DirentFileType.try_from (DirentFileType.to_u8 t) = Ok t.
Proof. by destruct t. Qed.

Definition iter_at (data : list byte) rem (i count bs : Z) : DirentsIterator :=
  {| di_data := data; di_remaining := rem; di_i := i; di_count := count; di_block_size := bs |}.

Section group.
Context (bs : Z) (Hbs : 0 < bs < 65536).

Lemma get_dirent_group g1 it g2 tl rem i count :
  zlen (group_bytes (g1 ++ it :: g2)) <= bs -> item_ok it ->
  get_dirent (iter_at (group_bytes (g1 ++ it :: g2) ++ tl) rem i count bs) (zlen g1) =
    Ok (dirent_of (12 * zlen (g1 ++ it :: g2) + zlen (names g1)) it).
Proof.
  intros Hs Hit. rewrite zlen_group_bytes, names_app, names_cons in Hs.
  unfold get_dirent, iter_at. simpl di_data. unfold group_bytes.
  rewrite dirents_bytes_app. simpl dirents_bytes.
  pose proof (zlen_nonneg (names g1)). pose proof (zlen_nonneg (names g2)).
  pose proof (zlen_nonneg (item_name it)). pose proof (zlen_nonneg g1). pose proof (zlen_nonneg g2).
  assert (zlen (g1 ++ it :: g2) = zlen g1 + 1 + zlen g2) as Hl by len_lia.
  rewrite !zlen_app in Hs. rewrite zlen_cons in Hs. change (size_of ErofsDisk.Dirent) with 12.
  rewrite wmul_small by (unfold in_width; lia).
  rewrite <-!app_assoc. rewrite get_from_app by (rewrite zlen_dirents_bytes; lia). simpl rbind.
  rewrite pod_read_as_bytes; [done|]. apply dirent_of_ok; [|done]. rewrite Hl. lia.
Qed.

Lemma names_range g1 it g2 tl :
  get_range (group_bytes (g1 ++ it :: g2) ++ tl)
    (12 * zlen (g1 ++ it :: g2) + zlen (names g1))
    (12 * zlen (g1 ++ it :: g2) + zlen (names g1) + zlen (item_name it)) = Some (item_name it).
Proof.
  unfold group_bytes. rewrite names_app, names_cons.
  rewrite <-!app_assoc, (app_assoc (dirents_bytes _ _)).
  apply get_range_app; rewrite ?zlen_app, ?zlen_dirents_bytes, ?zlen_app, ?zlen_cons; lia.
Qed.

(** An item that is not the last of its block. *)
Lemma next_inner g1 it it2 g2 tl rem :
  let g := g1 ++ it :: it2 :: g2 in
  zlen (group_bytes g) <= bs -> item_ok it -> item_ok it2 ->
  dirents_next (iter_at (group_bytes g ++ tl) rem (zlen g1) (zlen g) bs) =
    Some (iter_at (group_bytes g ++ tl) rem (zlen g1 + 1) (zlen g) bs, Ok it).
Proof.
  intros g Hs Hit Hit2. pose proof Hs as Hs'. rewrite zlen_group_bytes in Hs'.
  pose proof (zlen_nonneg g1). pose proof (zlen_nonneg g2). pose proof (zlen_nonneg (names g)).
  assert (zlen g = zlen g1 + 2 + zlen g2) as Hl by (unfold g; len_lia).
  unfold dirents_next, dirents_next_impl.
  change (di_i (iter_at ?d ?r ?i ?c ?b)) with i. change (di_count (iter_at ?d ?r ?i ?c ?b)) with c.
  rewrite (proj2 (Z.ltb_lt _ _)) by lia.
  unfold g at 1. rewrite (get_dirent_group g1 it (it2 :: g2)) by done.
  cbn [de_file_type dirent_of]. rewrite try_from_to_u8.
  rewrite (proj2 (Z.ltb_lt _ _)) by lia.
  rewrite wadd_small by (unfold in_width; lia).
  assert (g = (g1 ++ [it]) ++ it2 :: g2) as Hg by (unfold g; by rewrite <-app_assoc).
  assert (get_dirent (iter_at (group_bytes g ++ tl) rem (zlen g1) (zlen g) bs) (zlen g1 + 1)
    = Ok (dirent_of (12 * zlen g + zlen (names g1) + zlen (item_name it)) it2)) as ->.
  { rewrite Hg at 1. replace (zlen g1 + 1) with (zlen (g1 ++ [it])) by len_lia.
    rewrite (get_dirent_group (g1 ++ [it]) it2 g2); [|by rewrite <-Hg|done].
    rewrite <-Hg. do 2 f_equal. rewrite names_app, zlen_app. simpl. rewrite names_cons, app_nil_r. lia. }
  cbn [name_offset dirent_of].
  assert (zlen (names g1) + zlen (item_name it) <= zlen (names g)) as Hn.
  { unfold g. rewrite names_app, names_cons, !zlen_app. pose proof (zlen_nonneg (names (it2 :: g2))). lia. }
  pose proof (zlen_nonneg (names g1)). pose proof (zlen_nonneg (item_name it)).
  do 3 f_equal. rewrite wsub_wadd by (unfold in_width; lia).
  change (di_data (iter_at ?d ?r ?i ?c ?b)) with d.
  unfold g. rewrite (names_range g1 it (it2 :: g2)). simpl. f_equal. by destruct it.
Qed.

Lemma until_nul_pad name n : x00 ∉ name -> until_nul (name ++ zeros n) = name.
Proof.
  intros Hn. induction name as [|b name IH]; simpl.
  - unfold zeros. destruct (Z.to_nat n); done.
  - rewrite decide_False by (intros ->; apply Hn; by left). f_equal. apply IH.
    intros H. apply Hn. by right.
Qed.

(** The last item of a block: the iterator moves on to what follows it. *)
Lemma next_last g1 it n rest rem :
  let g := g1 ++ [it] in
  zlen (group_bytes g) <= bs -> item_ok it -> 0 <= n ->
  (zlen (group_bytes g) + n = bs \/ (n = 0 /\ rest = [])) ->
  dirents_next (iter_at (group_bytes g ++ zeros n ++ rest) rem (zlen g1) (zlen g) bs) =
    Some (let '(s, r) := reset_count (iter_at rest rem (zlen g1) (zlen g) bs) in
          (s, let? _ := r in Ok it)).
Proof.
  intros g Hs Hit Hn Hend. pose proof Hs as Hs'. rewrite zlen_group_bytes in Hs'.
  pose proof (zlen_nonneg g1). pose proof (zlen_nonneg (names g)).
  assert (zlen g = zlen g1 + 1) as Hl by (unfold g; len_lia).
  assert (zlen (zeros n) = n) as Hz by (unfold zeros; rewrite zlen_replicate; lia).
  unfold dirents_next, dirents_next_impl.
  change (di_i (iter_at ?d ?r ?i ?c ?b)) with i. change (di_count (iter_at ?d ?r ?i ?c ?b)) with c.
  rewrite (proj2 (Z.ltb_lt _ _)) by lia.
  unfold g at 1. rewrite (get_dirent_group g1 it []) by done.
  cbn [de_file_type dirent_of]. rewrite try_from_to_u8.
  rewrite (proj2 (Z.ltb_ge _ _)) by lia.
  change (di_data (iter_at ?d ?r ?i ?c ?b)) with d.
  change (di_block_size (iter_at ?d ?r ?i ?c ?b)) with b.
  change (di_remaining (iter_at ?d ?r ?i ?c ?b)) with r.
  assert (Z.min (zlen (group_bytes g ++ zeros n ++ rest)) bs = zlen (group_bytes g) + n) as ->.
  { rewrite !zlen_app. pose proof (zlen_nonneg rest).
    destruct Hend as [He|[-> ->]]; [lia|]. change (zlen (@nil byte)) with 0. lia. }
  cbn [name_offset dirent_of].
  assert (get_range (group_bytes g ++ zeros n ++ rest) (12 * zlen (g1 ++ [it]) + zlen (names g1))
            (zlen (group_bytes g) + n) = Some (item_name it ++ zeros n)) as ->.
  { unfold group_bytes, g. rewrite names_app, names_single.
    rewrite <-!app_assoc, (app_assoc (item_name it)), (app_assoc (dirents_bytes _ _)).
    apply get_range_app; rewrite !zlen_app, !zlen_dirents_bytes, ?zlen_app; [lia|].
    rewrite Hz. lia. }
  rewrite (app_assoc (group_bytes g)), zdrop_app_ge by (rewrite zlen_app; lia).
  rewrite zlen_app, Hz, Z.sub_diag, zdrop_0.
  change {| di_data := rest; di_remaining := rem; di_i := zlen g1; di_count := zlen g;
            di_block_size := bs |} with (iter_at rest rem (zlen g1) (zlen g) bs).
  destruct (reset_count _) as [s r]. do 2 f_equal.
  rewrite until_nul_pad by apply Hit. destruct r; simpl; [|done..]. f_equal. by destruct it.
Qed.
End group.

Definition collect_from (s : DirentsIterator) (acc : list DirentItem)
    : option (result ErofsDisk.Error (list DirentItem)) :=
  loop collect_dirents_step (fun x => dirents_measure x.1) (s, acc).

Lemma group_len_bound bs g : 0 < bs < 65536 -> zlen (group_bytes g) <= bs -> 0 <= zlen g < 65536.
Proof.
  intros Hb. rewrite zlen_group_bytes. pose proof (zlen_nonneg g). pose proof (zlen_nonneg (names g)).
  lia.
Qed.

(** The items of one block are delivered in order; then the iterator is where
    [reset_count] puts it on the rest. *)
Lemma collect_group bs g1 g2 n rest rem acc s' :
  0 < bs < 65536 -> let g := g1 ++ g2 in
  g2 <> [] -> Forall item_ok g2 -> zlen (group_bytes g) <= bs -> 0 <= n ->
  (zlen (group_bytes g) + n = bs \/ (n = 0 /\ rest = [])) ->
  (forall i c, reset_count (iter_at rest rem i c bs) = (s', Ok tt)) ->
  collect_from (iter_at (group_bytes g ++ zeros n ++ rest) rem (zlen g1) (zlen g) bs) acc =
    collect_from s' (acc ++ g2).
Proof.
  intros Hbs g Hne Hok Hs Hn Hend Hr. subst g.
  revert g1 acc Hs Hend. induction g2 as [|it g2 IH]; [done|]. intros g1 acc Hs Hend.
  apply Forall_cons in Hok as [Hit Hok].
  pose proof (group_len_bound _ _ Hbs Hs) as Hl. pose proof (zlen_nonneg g1).
  unfold collect_from. rewrite collect_dirents_unfold by (unfold dirents_inv; simpl; lia).
  destruct g2 as [|it2 g2].
  - rewrite next_last by done. by rewrite Hr.
  - assert (item_ok it2) as Hit2 by (by apply Forall_cons in Hok as [? _]).
    rewrite next_inner by done.
    replace (zlen g1 + 1) with (zlen (g1 ++ [it])) by len_lia.
    assert (g1 ++ it :: it2 :: g2 = (g1 ++ [it]) ++ it2 :: g2) as Hg by (by rewrite <-app_assoc).
    rewrite Hg in *. rewrite (app_assoc acc [it] _ : acc ++ it :: it2 :: g2 = _).
    by apply (IH ltac:(done) Hok (g1 ++ [it])).
Qed.

Definition start_iter (bs : Z) rem (gs : list (list DirentItem)) : DirentsIterator :=
  iter_at (blocks_bytes bs gs) rem 0 (zlen (default [] (head gs))) bs.

Lemma blocks_bytes_cons bs g gs :
  exists n rest, blocks_bytes bs (g :: gs) = group_bytes g ++ zeros n ++ rest /\
    rest = blocks_bytes bs gs /\
    (zlen (group_bytes g) <= bs -> 0 <= n /\
      (zlen (group_bytes g) + n = bs \/ (n = 0 /\ rest = []))).
Proof.
  destruct gs as [|g' gs].
  - exists 0, []. simpl. rewrite app_nil_r. split; [done|]. split; [done|]. intros. split; [lia|by right].
  - exists (bs - zlen (group_bytes g)), (blocks_bytes bs (g' :: gs)).
    change (blocks_bytes bs (g :: g' :: gs)) with (pad bs (group_bytes g) ++ blocks_bytes bs (g' :: gs)).
    unfold pad. rewrite <-app_assoc. split; [done|]. split; [done|]. intros. lia.
Qed.

(** At the start of a block the count is found from the first name offset. *)
Lemma reset_count_blocks bs gs rem :
  0 < bs < 65536 -> Forall (group_ok bs) gs -> default [] rem = [] ->
  exists rem', default [] rem' = [] /\ forall i c,
    reset_count (iter_at (blocks_bytes bs gs) rem i c bs) = (start_iter bs rem' gs, Ok tt).
Proof.
  intros Hbs Hok Hrem. destruct gs as [|g gs].
  { exists None. split; [done|]. intros i c. unfold reset_count. simpl. by rewrite Hrem. }
  exists rem. split; [done|]. intros i c.
  apply Forall_cons in Hok as [(Hne & Hit & Hs) _].
  destruct (blocks_bytes_cons bs g gs) as (n & rest & Hb & _ & _).
  destruct g as [|it g]; [done|]. apply Forall_cons in Hit as [Hit _].
  unfold start_iter. rewrite Hb. unfold group_bytes. simpl dirents_bytes. rewrite <-!app_assoc.
  pose proof (group_len_bound _ _ Hbs Hs) as Hl. rewrite zlen_group_bytes in Hs.
  pose proof (zlen_nonneg (names (it :: g))).
  assert (forall l, as_bytes (dirent_of (12 * zlen (it :: g)) it) ++ l <> []) as Hd.
  { intros l H0. apply (f_equal zlen) in H0. rewrite zlen_app, zlen_as_bytes_dirent in H0. len_lia. }
  unfold reset_count, iter_at. simpl di_data.
  rewrite (decide_False _ _ (Hd _)). rewrite (decide_False _ _ (Hd _)).
  simpl di_data. rewrite pod_read_as_bytes by (apply dirent_of_ok; [lia|done]).
  unfold div_mod_u16. cbn [name_offset dirent_of]. change (size_of ErofsDisk.Dirent) with 12.
  rewrite (Z.mul_comm 12), Z.mod_mul, Z.div_mul by lia. done.
Qed.

Lemma collect_blocks bs gs rem acc :
  0 < bs < 65536 -> Forall (group_ok bs) gs -> default [] rem = [] ->
  collect_from (start_iter bs rem gs) acc = Some (Ok (acc ++ concat gs)).
Proof.
  intros Hbs Hok. revert rem acc. induction Hok as [|g gs (Hne & Hit & Hs) Hok IH]; intros rem acc Hrem.
  { unfold collect_from. rewrite collect_dirents_unfold by (unfold dirents_inv; simpl; change (zlen (@nil DirentItem)) with 0; lia).
    simpl. by rewrite app_nil_r. }
  destruct (blocks_bytes_cons bs g gs) as (n & rest & Hb & -> & Hn).
  destruct (Hn Hs) as [Hn0 Hend].
  destruct (reset_count_blocks bs gs rem Hbs Hok Hrem) as (rem' & Hrem' & Hr).
  unfold start_iter. rewrite Hb. simpl.
  etrans; [apply (collect_group bs [] g n _ rem acc _ Hbs Hne Hit Hs Hn0 Hend Hr)|].
  by rewrite IH, app_assoc.
Qed.

(** The reader's view of an encoded directory. *)
Lemma decode_blocks bs gs :
  0 < bs < 65536 -> Forall (group_ok bs) gs ->
  exists s, DirentsIterator_new (blocks_bytes bs gs, []) bs = Ok s /\
    collect_dirents s = Ok (concat gs).
Proof.
  intros Hbs Hok. destruct (reset_count_blocks bs gs (Some []) Hbs Hok eq_refl) as (rem & Hrem & Hr).
  exists (start_iter bs rem gs). split.
  - unfold DirentsIterator_new. specialize (Hr 0 0). unfold iter_at in Hr. by rewrite Hr.
  - unfold collect_dirents. pose proof (collect_blocks bs gs rem [] Hbs Hok Hrem) as Hc.
    unfold collect_from in Hc. by rewrite Hc.
Qed.

(** * Encoding: the builder's passes *)

(** The item a child becomes. *)
Definition item_of (dir_id : option Z) (parents : list Z) (c : bstr * Dirent) : option DirentItem :=
  id ← child_disk_id dir_id parents c.2;
  Some {| item_disk_id := id; item_file_type := dirent_file_type c.2; item_name := c.1 |}.

Lemma set_name_buf_write x d b : set_name_buf x (b_write d b) = b_write d (set_name_buf x b).
Proof. done. Qed.

Lemma write_block_dirents_spec count dir_id parents off children b rest b' :
  0 <= o_pos (b_writer b) ->
  write_block_dirents count dir_id parents off children b = Ok (rest, b') ->
  exists g, mapM (item_of dir_id parents) (take count children) = Some g /\
    rest = drop count children /\ length g = count /\
    b' = set_name_buf (b_name_buf b ++ names g) (b_write (dirents_bytes off g) b).
Proof.
  revert off children b. induction count as [|count IH]; intros off children b Hp; simpl.
  { intros [= <- <-]. exists []. simpl. rewrite b_write_nil, app_nil_r. by destruct b. }
  destruct children as [|[name child] children]; [done|].
  destruct (child_disk_id dir_id parents child) as [id|] eqn:Hid; simpl; [|done].
  destruct (try_into 16 off) as [off'|] eqn:Hoff; simpl; [|done].
  apply try_into_Some in Hoff as [-> _]. intros Hw.
  apply IH in Hw as (g & Hg & -> & Hl & ->); [|simpl; rewrite zlen_as_bytes_dirent; lia].
  exists ({| item_disk_id := id; item_file_type := dirent_file_type child; item_name := name |} :: g).
  set (it := {| item_disk_id := id |}).
  assert (item_of dir_id parents (name, child) = Some it) as Hi by (unfold item_of; simpl; by rewrite Hid).
  change (take (S count) ((name, child) :: children)) with ((name, child) :: take count children).
  simpl mapM. rewrite Hi. simpl. rewrite Hg. simpl.
  split; [done|]. split; [done|]. split; [by rewrite Hl|].
  rewrite set_name_buf_write, !set_name_buf_write. rewrite <-b_write_app by done. simpl.
  rewrite names_cons. simpl. by rewrite app_assoc.
Qed.

(** Zeros up to the next multiple, as [zero_fill] writes them. *)
Definition pad_full (bs : Z) (l : list byte) : list byte :=
  l ++ zeros (if zlen l mod bs =? 0 then 0 else bs - zlen l mod bs).

Lemma pad_full_pad bs l : 0 < zlen l <= bs -> pad_full bs l = pad bs l.
Proof.
  intros Hl. unfold pad_full, pad. f_equal. f_equal.
  destruct (decide (zlen l = bs)) as [E|E].
  - rewrite E, Z.mod_same by lia. simpl. lia.
  - rewrite Z.mod_small by lia. destruct (Z.eqb_spec (zlen l) 0); lia.
Qed.

Lemma zero_fill_writer written alignment b :
  0 <= o_pos (b_writer b) ->
  b_writer (zero_fill written alignment b).2 =
    write_all (zeros (if written mod alignment =? 0 then 0 else alignment - written mod alignment))
      (b_writer b) /\
  b_name_buf (zero_fill written alignment b).2 = b_name_buf b /\
  b_block_size_bits (zero_fill written alignment b).2 = b_block_size_bits b /\
  b_cur_data_block (zero_fill written alignment b).2 = b_cur_data_block b.
Proof.
  intros Hp. unfold zero_fill. destruct (written mod alignment =? 0); simpl; [|done].
  by rewrite write_all_nil.
Qed.

Definition group_counts (gs : list (list DirentItem)) : list Z := zlen <$> gs.

Lemma mapM_take_drop {A B} (f : A -> option B) n l x y :
  mapM f (take n l) = Some x -> mapM f (drop n l) = Some y -> mapM f l = Some (x ++ y).
Proof.
  intros Hx Hy. apply mapM_Some in Hx, Hy. apply mapM_Some.
  rewrite <-(take_drop n l). by apply Forall2_app.
Qed.

Lemma write_dirent_blocks_spec counts dir_id parents children b b' :
  Forall (fun c => 0 <= c) counts -> foldr Z.add 0 counts = zlen children ->
  0 <= o_pos (b_writer b) -> b_name_buf b = [] ->
  write_dirent_blocks counts dir_id parents children b = Ok b' ->
  exists gs, group_counts gs = counts /\
    mapM (item_of dir_id parents) children = Some (concat gs) /\
    b_writer b' = write_all (concat ((fun g => pad_full (b_block_size b) (group_bytes g)) <$> gs))
                    (b_writer b).
Proof.
  revert children b. induction counts as [|c counts IH]; intros children b Hc Hsum Hp Hnb; simpl.
  { intros [= <-]. exists []. simpl in *. symmetry in Hsum. apply zlen_zero in Hsum as ->.
    by rewrite write_all_nil. }
  apply Forall_cons in Hc as [Hc0 Hc].
  destruct (write_block_dirents _ _ _ _ _ _) as [[rest b1]| |] eqn:E; simpl; [|done..].
  apply write_block_dirents_spec in E as (g & Hg & -> & Hl & ->); [|done]. rewrite Hnb.
  assert (zlen g = c) as Hgc by (unfold zlen; lia).
  change (size_of ErofsDisk.Dirent) with 12.
  set (b1 := set_name_buf ([] ++ names g) (b_write (dirents_bytes (c * 12) g) b)).
  set (b2 := b_write (b_name_buf b1) b1).
  assert (b_writer b2 = write_all (group_bytes g) (b_writer b)) as Hw2.
  { trans (write_all (names g) (write_all (dirents_bytes (c * 12) g) (b_writer b)));
      [done|]. rewrite write_all_app by done. unfold group_bytes. rewrite Hgc. by rewrite (Z.mul_comm c). }
  assert (0 <= o_pos (b_writer b2)) as Hp2.
  { rewrite Hw2. simpl. pose proof (zlen_nonneg (group_bytes g)). lia. }
  set (written := c * 12 + zlen (b_name_buf b1)).
  assert (written = zlen (group_bytes g)) as Hwr.
  { unfold written, b2, b1. simpl. rewrite zlen_group_bytes, Hgc.
    lia. }
  unfold zero_fill_block.
  destruct (zero_fill_writer written (b_block_size b2) b2 Hp2) as (Hw3 & Hn3 & Hb3 & Hd3).
  set (b3 := (zero_fill written (b_block_size b2) b2).2) in *. clearbody b3.
  intros Hrest.
  assert (zlen (zeros (if written mod b_block_size b2 =? 0 then 0
                       else b_block_size b2 - written mod b_block_size b2)) >= 0) as Hz
    by (apply Z.le_ge, zlen_nonneg).
  apply IH in Hrest as (gs & Hgs & Hm & Hwf); [|done| | |done].
  2: { pose proof (length_mapM _ _ _ Hg) as Hlen. rewrite length_take in Hlen. unfold zlen in *.
       rewrite length_drop. simpl in Hsum. lia. }
  2: { change (0 <= o_pos (b_writer b3)). rewrite Hw3. cbn [o_pos write_all]. lia. }
  exists (g :: gs). split; [unfold group_counts in *; csimpl; by rewrite Hgc, Hgs|].
  split; [csimpl; by eapply mapM_take_drop|].
  assert (b_block_size b3 = b_block_size b) as Hbs3 by (unfold b_block_size; by rewrite Hb3).
  change (b_block_size (set_name_buf [] (set_cur_data_block ?n b3))) with (b_block_size b3) in Hwf.
  change (b_writer (set_name_buf [] (set_cur_data_block ?n b3))) with (b_writer b3) in Hwf.
  rewrite Hwf, Hw3, Hw2, Hbs3. rewrite (write_all_app (group_bytes g)) by done.
  rewrite write_all_app by done. csimpl. do 2 f_equal.
  unfold pad_full. rewrite <-Hwr. change (b_block_size b2) with (b_block_size b). done.
Qed.

(** ** Packing names into blocks *)

Definition names_size (g : list bstr) : Z := foldr (fun n acc => 12 + zlen n + acc) 0 g.

Lemma names_size_app g h : names_size (g ++ h) = names_size g + names_size h.
Proof. induction g as [|n g IH]; simpl; [done|]. rewrite IH. lia. Qed.
Lemma names_size_bound g : 12 * zlen g <= names_size g.
Proof.
  induction g as [|n g IH]; simpl; [done|]. rewrite zlen_cons. pose proof (zlen_nonneg n). lia.
Qed.

(** The state of the pass: full groups, and the group being filled. *)
Definition pack_state (full : list (list bstr)) (cur : list bstr) : list Z * Z * Z :=
  (zlen <$> full, zlen cur, names_size cur).

Definition fits (bs : Z) (g : list bstr) : Prop := g <> [] /\ names_size g <= bs.

Lemma prepare_name_spec bs full cur name :
  12 < bs <= 32768 -> 12 + zlen name <= bs -> Forall (fits bs) full -> names_size cur <= bs ->
  exists full' cur', prepare_name bs (pack_state full cur) name = pack_state full' cur' /\
    concat full' ++ cur' = concat full ++ cur ++ [name] /\
    Forall (fits bs) full' /\ fits bs cur'.
Proof.
  intros Hbs Hn Hfull Hcur. pose proof (names_size_bound cur). pose proof (zlen_nonneg cur).
  pose proof (zlen_nonneg name). unfold prepare_name, pack_state.
  change (size_of ErofsDisk.Dirent) with 12.
  rewrite !(wadd_small 64) by (unfold in_width; rewrite ?wadd_small; unfold in_width; lia).
  unfold u16_max. rewrite (proj2 (Z.ltb_ge 65535 _)), orb_false_r by lia.
  destruct (Z.ltb_spec bs (names_size cur + (12 + zlen name))).
  - exists (full ++ [cur]), [name]. split; [|split; [|split]].
    + rewrite fmap_app. assert (names_size [name] = 12 + zlen name) as -> by (simpl; lia). done.
    + rewrite concat_app. simpl. by rewrite app_nil_r, app_assoc.
    + apply Forall_app. split; [done|]. constructor; [|constructor]. split; [|done].
      intros ->. simpl in *. lia.
    + split; [done|]. simpl. lia.
  - exists full, (cur ++ [name]). split; [|split; [|split]].
    + rewrite wadd_small by (unfold in_width; lia). do 2 f_equal; [f_equal|].
      * len_lia.
      * rewrite names_size_app. simpl. lia.
    + done.
    + done.
    + split; [by destruct cur|]. rewrite names_size_app. simpl. lia.
Qed.

Lemma prepare_fold bs ns full cur :
  12 < bs <= 32768 -> Forall (fun n => 12 + zlen n <= bs) ns ->
  Forall (fits bs) full -> (cur = [] /\ ns <> [] \/ fits bs cur) ->
  exists full' cur', fold_left (prepare_name bs) ns (pack_state full cur) = pack_state full' cur' /\
    concat full' ++ cur' = concat full ++ cur ++ ns /\
    Forall (fits bs) full' /\ fits bs cur'.
Proof.
  intros Hbs Hns. revert full cur. induction Hns as [|n ns Hn Hns IH]; intros full cur Hfull Hcur.
  - exists full, cur. simpl. rewrite app_nil_r. destruct Hcur as [[_ ?]|?]; done.
  - destruct (prepare_name_spec bs full cur n) as (full1 & cur1 & He & Hc & Hf1 & Hc1); [done..| |].
    { destruct Hcur as [[-> _]|[_ ?]]; [simpl; lia|done]. }
    cbn [fold_left]. rewrite He.
    destruct (IH full1 cur1 Hf1 (or_intror Hc1)) as (full2 & cur2 & He2 & Hc2 & Hf2 & Hcur2).
    exists full2, cur2. split; [done|]. split; [|done].
    by rewrite Hc2, app_assoc, Hc, <-!app_assoc.
Qed.

Lemma sum_zlen_concat {A} (gs : list (list A)) : foldr Z.add 0 (zlen <$> gs) = zlen (concat gs).
Proof. induction gs as [|g gs IH]; csimpl; [done|]. by rewrite IH, zlen_app. Qed.

(** The pass cannot fail once the start block fits, and its groups are a
    partition of the names into blocks. *)
Lemma prepare_dirent_data_spec bs start d :
  12 < bs <= 32768 -> in_width 32 start ->
  d_children d <> [] -> d_n_dirents_per_block (d_info d) = [] ->
  Forall (fun n => 12 + zlen n <= bs) (d_children d).*1 ->
  zlen (d_children d) * bs < 2 ^ 63 ->
  exists full cur d',
    prepare_dirent_data bs start d = Ok (zlen full + 1, d') /\
    concat full ++ cur = (d_children d).*1 /\ Forall (fits bs) (full ++ [cur]) /\
    d_children d' = d_children d /\ d_start_block (d_info d') = start /\
    d_n_dirents_per_block (d_info d') = zlen <$> full ++ [cur] /\
    d_total_size (d_info d') = bs * zlen full + names_size cur.
Proof.
  intros Hbs Hstart Hne Hper Hns Hsz. unfold prepare_dirent_data. rewrite try_into_id by done. simpl rbind.
  rewrite Hper. destruct (prepare_fold bs (d_children d).*1 [] []) as (full & cur & He & Hc & Hf & Hcur);
    [done..| |].
  { left. split; [done|]. by destruct (d_children d). }
  change ([], 0, 0) with (pack_state [] []). rewrite He. unfold pack_state.
  assert (0 < zlen cur) as Hpos.
  { destruct Hcur as [? _]. destruct cur; [done|]. rewrite zlen_cons. pose proof (zlen_nonneg cur). lia. }
  destruct (Z.eqb_spec (zlen cur) 0); [lia|]. simpl negb.
  assert (foldr Z.add 0 ((zlen <$> full) ++ [zlen cur]) = zlen (d_children d)) as Hsum.
  { change [zlen cur] with (zlen <$> [cur]). rewrite <-fmap_app, sum_zlen_concat, concat_app.
    simpl. rewrite app_nil_r, Hc. unfold zlen. simpl. by rewrite length_fmap. }
  assert (zlen full <= zlen (d_children d) - 1) as Hfl.
  { rewrite <-Hsum. clear -Hf Hpos. induction Hf as [|g full [Hg _] _ IH]; csimpl.
    - change (zlen (@nil (list bstr))) with 0. lia.
    - destruct g; [done|]. rewrite !zlen_cons. pose proof (zlen_nonneg g). lia. }
  pose proof (zlen_nonneg full). pose proof (names_size_bound cur). destruct Hcur as [Hcne Hcs].
  assert (zlen (zlen <$> full) = zlen full) as Hlf by (unfold zlen at 1 3; by rewrite length_fmap).
  rewrite Hsum, Z.eqb_refl. simpl negb.
  exists full, cur. eexists. split; [|split; [done|]].
  - f_equal. f_equal. rewrite zlen_app. rewrite Hlf. done.
  - cbn [d_children d_info d_start_block d_n_dirents_per_block d_total_size].
    split; [apply Forall_app; split; [done|constructor; [done|constructor]]|].
    split; [done|]. split; [done|]. split; [by rewrite fmap_app|].
    rewrite Hlf, wmul_small by (unfold in_width; nia).
    apply wadd_small. unfold in_width. nia.
Qed.

(** ** Putting the passes together *)

Lemma partition_inj {A} (xs ys : list (list A)) :
  zlen <$> xs = zlen <$> ys -> concat xs = concat ys -> xs = ys.
Proof.
  revert ys. induction xs as [|x xs IH]; intros [|y ys] Hl Hc; try done. csimpl in *.
  injection Hl as Hl1 Hl2. apply app_inj_1 in Hc as [-> Hc]; [|unfold zlen in Hl1; lia].
  f_equal. by apply IH.
Qed.

Lemma group_bytes_size g : zlen (group_bytes g) = names_size (item_name <$> g).
Proof.
  rewrite zlen_group_bytes. induction g as [|it g IH]; [done|].
  csimpl. rewrite <-IH, names_cons, zlen_app, zlen_cons. lia.
Qed.

Lemma group_bytes_pos g : g <> [] -> 0 < zlen (group_bytes g).
Proof.
  intros. rewrite zlen_group_bytes. destruct g; [done|]. rewrite zlen_cons.
  pose proof (zlen_nonneg g). pose proof (zlen_nonneg (names (d :: g))). lia.
Qed.

(** The written blocks are the encoding, followed by the last block's zeros. *)
Lemma written_blocks bs gs :
  Forall (group_ok bs) gs ->
  exists n, concat ((fun g => pad_full bs (group_bytes g)) <$> gs) = blocks_bytes bs gs ++ zeros n.
Proof.
  induction 1 as [|g gs (Hne & _ & Hs) Hok IH]; [by exists 0|]. csimpl.
  rewrite pad_full_pad by (split; [by apply group_bytes_pos|done]).
  destruct IH as [n ->]. destruct gs as [|g' gs].
  - exists (bs - zlen (group_bytes g) + Z.max 0 n). unfold pad, zeros. simpl. rewrite <-app_assoc.
    f_equal. rewrite <-replicate_add. f_equal. lia.
  - exists n. by rewrite app_assoc.
Qed.

Lemma zlen_blocks_bytes bs gs g :
  Forall (group_ok bs) (gs ++ [g]) ->
  zlen (blocks_bytes bs (gs ++ [g])) = bs * zlen gs + zlen (group_bytes g).
Proof.
  induction gs as [|g' gs IH]; intros Hok.
  { change (zlen (@nil (list DirentItem))) with 0. simpl. lia. }
  apply Forall_cons in Hok as [(_ & _ & Hs) Hok]. specialize (IH Hok).
  assert (blocks_bytes bs ((g' :: gs) ++ [g]) = pad bs (group_bytes g') ++ blocks_bytes bs (gs ++ [g])) as ->
    by (by destruct gs).
  rewrite zlen_app, IH, zlen_cons. unfold pad, zeros. rewrite zlen_app, zlen_replicate. lia.
Qed.

(** What [mapM] of [item_of] gives for the names. *)
Lemma items_names dir_id parents children items :
  mapM (item_of dir_id parents) children = Some items -> item_name <$> items = children.*1.
Proof.
  rewrite mapM_Some. induction 1 as [|c it cs its Hi _ IH]; [done|]. csimpl. f_equal; [|done].
  unfold item_of in Hi. destruct (child_disk_id _ _ _); [|done]. by injection Hi as <-.
Qed.

Lemma items_ok dir_id parents children items :
  (forall c id, c ∈ children -> child_disk_id dir_id parents c.2 = Some id -> in_width 32 id) ->
  Forall (fun n => x00 ∉ n) children.*1 ->
  mapM (item_of dir_id parents) children = Some items -> Forall item_ok items.
Proof.
  intros Hid Hn Hm. apply mapM_Some in Hm.
  induction Hm as [|c it cs its Hi _ IH]; [constructor|].
  csimpl in Hn. apply Forall_cons in Hn as [Hn1 Hn]. constructor.
  - unfold item_of in Hi. destruct (child_disk_id _ _ _) as [id|] eqn:E; [|done]. injection Hi as <-.
    split; [|done]. simpl. eapply Hid; [by left|done].
  - apply IH; [|done]. intros. eapply Hid; [by right|done].
Qed.

Lemma groups_ok bs (gs : list (list DirentItem)) (ns : list (list bstr)) :
  (fun g : list DirentItem => item_name <$> g) <$> gs = ns -> Forall (fits bs) ns -> Forall item_ok (concat gs) ->
  Forall (group_ok bs) gs.
Proof.
  intros <- Hf. induction gs as [|g gs IH]; [constructor|]. csimpl in *.
  apply Forall_cons in Hf as [[Hne Hs] Hf]. intros [Hg Hgs]%Forall_app.
  constructor; [|by apply IH]. split; [by destruct g|]. split; [done|]. by rewrite group_bytes_size.
Qed.

(** The builder is at the directory's blocks, or will seek there. *)
Definition can_write_at (start : Z) (b : Builder) : Prop :=
  b_block_size_bits b = 12 /\ b_name_buf b = [] /\
  (b_cur_data_block b = start -> o_pos (b_writer b) = start * 4096).

Lemma seek_block_spec start b :
  in_width 32 start -> can_write_at start b ->
  let b' := seek_block start b in
  o_pos (b_writer b') = start * 4096 /\ b_block_size b' = 4096 /\ b_name_buf b' = [] /\
  o_bytes (b_writer b') = o_bytes (b_writer b) /\ b_cur_data_block b' = start /\
  b_block_size_bits b' = 12 /\ b_meta_block b' = b_meta_block b /\
  b_superblock b' = b_superblock b /\ b_n_inodes b' = b_n_inodes b.
Proof.
  intros Hs (Hb & Hn & Hp). unfold seek_block.
  assert (b_block_size b = 4096) as Hbs by (unfold b_block_size; by rewrite Hb).
  destruct (Z.eqb_spec (b_cur_data_block b) start) as [He|He]; simpl.
  - split; [by apply Hp|]. done.
  - unfold b_block_addr. rewrite Hbs. unfold in_width in Hs.
    rewrite wmul_small by (unfold in_width; lia). done.
Qed.

(** ** The blocks of one directory *)

(** The layout that the packing pass gives a directory: its names in groups of
    one block each, the counts, the start block and the size. *)
Definition dir_layout (start : Z) (d : Dir) : Prop :=
  exists full cur, concat full ++ cur = (d_children d).*1 /\ Forall (fits 4096) (full ++ [cur]) /\
    d_start_block (d_info d) = start /\
    d_n_dirents_per_block (d_info d) = zlen <$> full ++ [cur] /\
    d_total_size (d_info d) = 4096 * zlen full + names_size cur.

(** Nothing of the layout depends on disk ids, metadata or the children. *)
Definition same_layout (d1 d2 : Dir) : Prop :=
  (d_children d2).*1 = (d_children d1).*1 /\
  d_start_block (d_info d2) = d_start_block (d_info d1) /\
  d_n_dirents_per_block (d_info d2) = d_n_dirents_per_block (d_info d1) /\
  d_total_size (d_info d2) = d_total_size (d_info d1).

Lemma dir_layout_same start d1 d2 : same_layout d1 d2 -> dir_layout start d1 -> dir_layout start d2.
Proof.
  intros (Hk & Hs & Hn & Ht) (full & cur & H1 & H2 & H3 & H4 & H5). exists full, cur.
  by rewrite Hk, Hs, Hn, Ht.
Qed.

(** The entries of a directory are read back from its blocks. *)
Definition dirents_at (bytes : list byte) (start size : Z) (items : list DirentItem) : Prop :=
  exists data s, get_range bytes (start * 4096) (start * 4096 + size) = Some data /\
    DirentsIterator_new (data, []) 4096 = Ok s /\ collect_dirents s = Ok items.

(** What the pass over the entries does to the builder besides writing. *)
Lemma write_block_dirents_fields count dir_id parents off children b rest b' :
  write_block_dirents count dir_id parents off children b = Ok (rest, b') ->
  b_block_size_bits b' = b_block_size_bits b /\ b_cur_data_block b' = b_cur_data_block b /\
  b_meta_block b' = b_meta_block b /\ b_superblock b' = b_superblock b /\ b_n_inodes b' = b_n_inodes b.
Proof.
  revert off children b. induction count as [|count IH]; intros off children b; simpl; [by intros [= _ <-]|].
  destruct children as [|[name child] children]; [done|]. intros H. monad_simp. by apply IH in H.
Qed.

Lemma write_dirent_blocks_fields counts dir_id parents children b b' :
  write_dirent_blocks counts dir_id parents children b = Ok b' ->
  0 <= b_cur_data_block b -> b_cur_data_block b + zlen counts < 2 ^ 64 -> b_name_buf b = [] ->
  b_block_size_bits b' = b_block_size_bits b /\ b_cur_data_block b' = b_cur_data_block b + zlen counts /\
  b_meta_block b' = b_meta_block b /\ b_superblock b' = b_superblock b /\ b_n_inodes b' = b_n_inodes b /\
  b_name_buf b' = [].
Proof.
  revert children b. induction counts as [|c counts IH]; intros children b; simpl.
  { intros [= <-] _ _ ?. rewrite zlen_nil, Z.add_0_r. by split_and!. }
  intros H H0 H1 Hn. rewrite zlen_cons in H1 |- *. pose proof (zlen_nonneg counts). monad_simp.
  apply write_block_dirents_fields in Hm as (F1 & F2 & F3 & F4 & F5).
  assert (forall w, let b1 := (zero_fill_block w (b_write (b_name_buf b0) b0)).2 in
    b_block_size_bits b1 = b_block_size_bits b /\ b_cur_data_block b1 = b_cur_data_block b /\
    b_meta_block b1 = b_meta_block b /\ b_superblock b1 = b_superblock b /\ b_n_inodes b1 = b_n_inodes b) as Hz
    by (intros w; unfold zero_fill_block, zero_fill; destruct (negb _); done).
  specialize (Hz (c * size_of ErofsDisk.Dirent + zlen (b_name_buf b0))).
  set (b1 := (zero_fill_block _ _).2) in *. clearbody b1. destruct Hz as (G1 & G2 & G3 & G4 & G5).
  assert (wadd 64 (b_cur_data_block b) 1 = b_cur_data_block b + 1) as Hc by (apply wadd_small; unfold in_width; lia).
  apply IH in H as (J1 & J2 & J3 & J4 & J5 & J6); [|cbn; rewrite ?G2, ?Hc; (done || lia)..].
  cbn in J1, J2, J3, J4, J5. rewrite G2, Hc in J2. split_and!; (congruence || lia).
Qed.

(** The groups that the entries are written in are those of the layout. *)
Lemma layout_groups start d parents gs :
  dir_layout start d -> Forall (fun n => x00 ∉ n) (d_children d).*1 ->
  (forall c id, c ∈ d_children d ->
     child_disk_id (d_disk_id (d_info d)) parents c.2 = Some id -> in_width 32 id) ->
  group_counts gs = d_n_dirents_per_block (d_info d) ->
  mapM (item_of (d_disk_id (d_info d)) parents) (d_children d) = Some (concat gs) ->
  gs <> [] /\ Forall (group_ok 4096) gs /\ zlen (blocks_bytes 4096 gs) = d_total_size (d_info d).
Proof.
  intros (full & cur & Hkeys & Hfits & _ & Hn & Ht) Hnul Hids Hgs Hm. rewrite Hn in Hgs.
  pose proof (items_names _ _ _ _ Hm) as Hin.
  assert ((fun g : list DirentItem => item_name <$> g) <$> gs = full ++ [cur]) as Hgn.
  { apply partition_inj.
    - rewrite <-Hgs. unfold group_counts. rewrite <-list_fmap_compose. apply list_fmap_ext.
      intros i g _. simpl. unfold zlen. by rewrite length_fmap.
    - rewrite concat_app. simpl. rewrite app_nil_r, Hkeys, <-Hin. clear.
      induction gs as [|g gs IH]; [done|]. csimpl. by rewrite fmap_app, IH. }
  assert (Forall item_ok (concat gs)) as Hio by (by eapply items_ok).
  pose proof (groups_ok 4096 gs _ Hgn Hfits Hio) as Hok.
  split; [intros ->; by destruct full|]. split; [done|].
  rewrite Ht. destruct gs as [|g gs _] using rev_ind; [by destruct full|].
  rewrite fmap_app in Hgn. apply app_inj_tail in Hgn as [Hf Hg].
  rewrite zlen_blocks_bytes, group_bytes_size, Hg by done. rewrite <-Hf. unfold zlen.
  by rewrite length_fmap.
Qed.

Lemma zlen_pad_full_blocks gs :
  Forall (group_ok 4096) gs ->
  zlen (concat ((fun g => pad_full 4096 (group_bytes g)) <$> gs)) = zlen gs * 4096.
Proof.
  induction 1 as [|g gs (Hne & _ & Hs) _ IH]; [done|]. csimpl. rewrite zlen_app, IH, zlen_cons.
  pose proof (group_bytes_pos g Hne). rewrite pad_full_pad by lia. unfold pad, zeros.
  rewrite zlen_app, zlen_replicate. lia.
Qed.

(** Where an encoded directory was written, it is read back. *)
Lemma written_dirents_at gs start o :
  0 <= start -> Forall (group_ok 4096) gs -> gs <> [] ->
  dirents_at (o_bytes (write_all (concat ((fun g => pad_full 4096 (group_bytes g)) <$> gs))
    (seek (start * 4096) o))) start (zlen (blocks_bytes 4096 gs)) (concat gs).
Proof.
  intros Hs Hok Hne. pose proof (zlen_pad_full_blocks gs Hok) as Hz.
  destruct (written_blocks 4096 gs Hok) as [n Hwb].
  destruct (decode_blocks 4096 gs ltac:(lia) Hok) as (s & Hi & Hcol).
  exists (blocks_bytes 4096 gs), s. split; [|done]. unfold write_all. simpl o_bytes. rewrite decide_False.
  - rewrite Hwb, put_split, <-app_assoc. apply get_range_app; rewrite zlen_put_prefix; lia.
  - intros H0. rewrite H0 in Hz. destruct gs; [done|]. rewrite zlen_cons in Hz. len_lia.
Qed.

(** Writing the entries of a laid out directory: the blocks decode to the items
    of the children, and the writer is behind the last block. *)
Lemma write_dirents_spec start d b parents v' d' :
  in_width 32 start -> dir_layout start d -> zlen (d_children d) < 2 ^ 32 ->
  Forall (fun n => x00 ∉ n) (d_children d).*1 -> can_write_at start b ->
  (forall c id, c ∈ d_children d ->
     child_disk_id (d_disk_id (d_info d)) parents c.2 = Some id -> in_width 32 id) ->
  write_dirents_on_enter {| wd_builder := b; wd_parents := parents |} d = Ok (v', d') ->
  let n := zlen (d_n_dirents_per_block (d_info d)) in
  exists id items data, d' = d /\ d_disk_id (d_info d) = Some id /\ wd_parents v' = parents ++ [id] /\
    mapM (item_of (d_disk_id (d_info d)) parents) (d_children d) = Some items /\
    dirents_at (o_bytes (b_writer (wd_builder v'))) start (d_total_size (d_info d)) items /\
    b_writer (wd_builder v') = write_all data (seek (start * 4096) (b_writer b)) /\
    zlen data = n * 4096 /\ b_cur_data_block (wd_builder v') = start + n /\
    b_name_buf (wd_builder v') = [] /\ b_block_size_bits (wd_builder v') = 12 /\
    b_meta_block (wd_builder v') = b_meta_block b /\ b_superblock (wd_builder v') = b_superblock b /\
    b_n_inodes (wd_builder v') = b_n_inodes b.
Proof.
  intros Hstart Hlay Hlen Hnul Hb Hids Hw. unfold write_dirents_on_enter in Hw. cbn [wd_builder wd_parents] in Hw.
  pose proof Hlay as (full & cur & Hkeys & Hfits & Hs & Hn & Ht). rewrite Hs in Hw.
  destruct (seek_block_spec start b Hstart Hb) as (Hpos & Hbs & Hnb & Hsb & Hcd & F1 & F2 & F3 & F4).
  set (b1 := seek_block start b) in *. unfold in_width in Hstart.
  destruct (write_dirent_blocks _ _ _ _ _) as [b2| |] eqn:E; [|done..]. simpl rbind in Hw.
  destruct (d_disk_id (d_info d)) as [id|] eqn:Hid; [|done]. simpl in Hw. injection Hw as <- <-.
  cbn [wd_builder wd_parents].
  assert (foldr Z.add 0 (d_n_dirents_per_block (d_info d)) = zlen (d_children d)) as Hsum.
  { rewrite Hn, sum_zlen_concat, concat_app. simpl. rewrite app_nil_r, Hkeys. unfold zlen. by rewrite length_fmap. }
  assert (zlen (d_n_dirents_per_block (d_info d)) <= zlen (d_children d)) as Hcnt.
  { rewrite <-Hsum, Hn. clear -Hfits. induction Hfits as [|g gs [Hg _] _ IH]; [done|]. csimpl.
    rewrite zlen_cons. destruct g; [done|]. rewrite zlen_cons. pose proof (zlen_nonneg g). lia. }
  pose proof (write_dirent_blocks_fields _ _ _ _ _ _ E ltac:(lia) ltac:(lia) Hnb) as (G1 & G2 & G3 & G4 & G5 & G6).
  apply write_dirent_blocks_spec in E as (gs & Hgs & Hm & Hwr); [| |done|lia|done].
  2: { rewrite Hn. apply Forall_fmap, Forall_true. intros x. apply zlen_nonneg. }
  rewrite <-Hid in Hm, Hids. destruct (layout_groups _ _ _ _ Hlay Hnul Hids Hgs Hm) as (Hne & Hok & Hsz).
  rewrite Hbs in Hwr.
  assert (b_writer b1 = seek (start * 4096) (b_writer b)) as Hsk.
  { destruct (b_writer b1) as [bs ps]. unfold seek. simpl in *. by subst. }
  rewrite Hsk in Hwr. eexists id, (concat gs), _. split; [done|]. split; [done|]. split; [done|].
  rewrite Hid in Hm. split; [exact Hm|]. split; [|split; [exact Hwr|]].
  - rewrite Hwr, <-Hsz. apply written_dirents_at; [lia|done..].
  - rewrite zlen_pad_full_blocks by done. split_and!; try congruence.
    + rewrite <-Hgs. unfold group_counts, zlen. by rewrite length_fmap.
Qed.

(** * Properties *)

(** A directory written by the builder is read back by the iterator.  The
    packing pass lays the names of any directory out in blocks and does not
    panic; when the entries are later written at the reserved blocks, with the
    disk ids the inodes got in between, the bytes of the reserved size decode to
    exactly the directory's entries: same order, names, types and ids. *)
Theorem dirents_roundtrip start d :
  in_width 32 start -> d_children d <> [] -> d_n_dirents_per_block (d_info d) = [] ->
  Forall (fun n => 12 + zlen n <= 4096 /\ x00 ∉ n) (d_children d).*1 ->
  zlen (d_children d) < 2 ^ 32 ->
  exists n d1, prepare_dirent_data 4096 start d = Ok (n, d1) /\
    forall d2 b parents v' d2',
    same_layout d1 d2 -> can_write_at start b ->
    (forall c id, c ∈ d_children d2 ->
       child_disk_id (d_disk_id (d_info d2)) parents c.2 = Some id -> in_width 32 id) ->
    write_dirents_on_enter {| wd_builder := b; wd_parents := parents |} d2 = Ok (v', d2') ->
    exists data s items,
      get_range (o_bytes (b_writer (wd_builder v'))) (start * 4096)
        (start * 4096 + d_total_size (d_info d2)) = Some data /\
      DirentsIterator_new (data, []) 4096 = Ok s /\
      mapM (item_of (d_disk_id (d_info d2)) parents) (d_children d2) = Some items /\
      collect_dirents s = Ok items.
Proof.
  intros Hstart Hne Hper Hns Hlen. apply Forall_and in Hns as [Hns Hnul].
  destruct (prepare_dirent_data_spec 4096 start d) as
    (full & cur & d1 & Hp & Hconc & Hfits & Hc1 & Hs1 & Hn1 & Ht1); [lia|done..|lia|].
  exists (zlen full + 1), d1. split; [done|].
  intros d2 b parents v' d2' Hsame Hb Hids Hw.
  assert (dir_layout start d2) as Hlay.
  { apply (dir_layout_same _ d1); [done|]. exists full, cur. by rewrite Hc1. }
  pose proof Hsame as (Hk & _). rewrite Hc1 in Hk.
  assert (zlen (d_children d2) = zlen (d_children d)) as Hl2.
  { unfold zlen. rewrite <-!(length_fmap fst). by rewrite Hk. }
  destruct (write_dirents_spec start d2 b parents v' d2') as
    (id & items & dt & _ & _ & _ & Hm & (data & s & Hr & Hi & Hcol) & _); try done.
  - by rewrite Hl2.
  - by rewrite Hk.
  - by exists data, s, items.
Qed.

Definition example_dir (n : Z) (blocks : list Z) (total : Z) (id : option Z) (child : option Z) : Dir :=
  mk_dir [(dot, Dot); (dotdot, DotDot);
          (bytes_of_string "file",
           File {| l_meta := Meta_default; l_start_block := EROFS_NULL_ADDR; l_n_links := 1;
                   l_len := 0; l_tail := None; l_disk_id := child |})]
    {| d_meta := Meta_default; d_disk_id := id; d_start_block := n;
       d_n_dirents_per_block := blocks; d_total_size := total |}.

Lemma dirents_roundtrip_witness :
  exists n d1, prepare_dirent_data 4096 1 (example_dir EROFS_NULL_ADDR [] 0 None None) = Ok (n, d1) /\
    same_layout d1 (example_dir 1 [3] 43 (Some 0) (Some 2)) /\
    forall b v' d2', can_write_at 1 b ->
    write_dirents_on_enter {| wd_builder := b; wd_parents := [] |}
      (example_dir 1 [3] 43 (Some 0) (Some 2)) = Ok (v', d2') ->
    exists data s items,
      get_range (o_bytes (b_writer (wd_builder v'))) (1 * 4096) (1 * 4096 + 43) = Some data /\
      DirentsIterator_new (data, []) 4096 = Ok s /\
      mapM (item_of (Some 0) []) (d_children (example_dir 1 [3] 43 (Some 0) (Some 2))) = Some items /\
      collect_dirents s = Ok items.
Proof.
  destruct (dirents_roundtrip 1 (example_dir EROFS_NULL_ADDR [] 0 None None)) as (n & d1 & Hp & H).
  - done.
  - done.
  - done.
  - repeat constructor; apply (bool_decide_unpack _); reflexivity.
  - done.
  - exists n, d1. split; [exact Hp|]. vm_compute in Hp. injection Hp as <- <-.
    assert (same_layout (example_dir 1 [3] 43 None None) (example_dir 1 [3] 43 (Some 0) (Some 2))) as Hs
      by done.
    split; [exact Hs|]. intros b v' d2' Hb Hw.
    apply (H _ b [] v' d2' Hs Hb); [|exact Hw].
    intros c id Hc Hid. simpl in Hc. rewrite !elem_of_cons, elem_of_nil in Hc.
    destruct Hc as [->|[->|[->|[]]]]; vm_compute in Hid; injection Hid as <-; done.
Defined.

(** * Inodes *)

Definition xattr_bytes (entries : list (Z * XattrEntry)) (xattrs : XattrMap) : list byte :=
  concat (zip_with (fun e kv => as_bytes e.2 ++ zdrop e.1 kv.1 ++ kv.2) entries xattrs).

Lemma write_xattr_entries_spec entries xattrs b b' :
  0 <= o_pos (b_writer b) ->
  write_xattr_entries entries xattrs b = Ok b' -> b' = b_write (xattr_bytes entries xattrs) b.
Proof.
  revert xattrs b. induction entries as [|[pl e] entries IH]; intros xattrs b Hp; simpl.
  { intros [= <-]. by rewrite b_write_nil. }
  destruct xattrs as [|[key value] xattrs]; [intros [= <-]; by rewrite b_write_nil|].
  unfold get_from. destruct (_ <=? _); simpl; [|done]. intros Hw.
  apply IH in Hw as ->.
  - rewrite (b_write_app (as_bytes e)), (b_write_app (as_bytes e ++ _)),
      (b_write_app ((as_bytes e ++ _) ++ _)) by done.
    unfold xattr_bytes. simpl. by rewrite <-!app_assoc.
  - rewrite !b_write_pos. pose proof (zlen_nonneg (as_bytes e)). pose proof (zlen_nonneg value).
    pose proof (zlen_nonneg (zdrop pl key)). lia.
Qed.

Definition entries_size (entries : list (Z * XattrEntry)) : Z :=
  foldr (fun e acc => xattr_entry_len e.2 + acc) 0 entries.

Lemma find_prefix_range i t key id len :
  find_prefix i t key = Some (id, len) -> 0 <= len /\ 0 <= id < 256.
Proof.
  revert i. induction t as [|p t IH]; intros i; simpl; [done|].
  destruct (starts_with p key); [|apply IH]. intros [= <- <-].
  unfold wrap. change 256 with (2 ^ 8). split; [apply Z.mod_pos_bound; lia | by apply Z.mod_pos_bound].
Qed.

Lemma make_xattr_entry_spec key value pl e :
  make_xattr_entry (key, value) = Ok (pl, e) ->
  0 <= pl <= zlen key /\ name_len e = zlen key - pl /\ value_size e = zlen value /\
  pod_ok e /\ xattr_entry_len e <= 65795.
Proof.
  unfold make_xattr_entry. destruct (default (0, 0) (xattr_builtin_prefix key)) as [id len] eqn:Hd.
  assert (0 <= len /\ 0 <= id < 256) as [Hlen Hid].
  { destruct (xattr_builtin_prefix key) as [[id' len']|] eqn:Hx; simpl in Hd; injection Hd as <- <-;
      [by apply find_prefix_range in Hx|lia]. }
  destruct (Z.ltb_spec (zlen key) len); [done|]. intros Hm. monad_simp. simplify_eq.
  apply try_into_Some in Hm0 as [-> H1]. apply try_into_Some in Hm1 as [-> H2].
  unfold in_width in *. simpl. unfold xattr_entry_len, int_ok. simpl. lia.
Qed.

Lemma make_xattr_entries_spec xattrs entries :
  make_xattr_entries xattrs = Ok entries ->
  Forall2 (fun kv e => make_xattr_entry kv = Ok e) xattrs entries.
Proof.
  revert entries. induction xattrs as [|kv xattrs IH]; intros entries; simpl.
  - intros [= <-]. constructor.
  - intros H. monad_simp. subst. constructor; eauto.
Qed.

Lemma zlen_xattr_bytes xattrs entries :
  make_xattr_entries xattrs = Ok entries ->
  zlen (xattr_bytes entries xattrs) = entries_size entries /\
  0 <= entries_size entries <= 65795 * zlen xattrs /\ (xattrs <> [] -> 0 < entries_size entries).
Proof.
  intros Hm%make_xattr_entries_spec. induction Hm as [|[key value] [pl e] xattrs entries He Hm IH].
  { split; [done|]. change (zlen (@nil (bstr * bstr))) with 0. simpl. by split; [lia|]. }
  apply make_xattr_entry_spec in He as (Hpl & Hnl & Hvs & Hok & Hmax).
  destruct IH as (IH & [IH0 IH1] & _). unfold xattr_bytes, entries_size in *. simpl.
  rewrite !zlen_app, IH, zlen_as_bytes_entry, zlen_zdrop, zlen_cons by done.
  unfold xattr_entry_len in *. change (size_of XattrEntry) with 4 in *.
  pose proof (zlen_nonneg value). lia.
Qed.

(** The count written into the inode is the length of what is written behind
    it. *)
Lemma xattr_count_spec xattrs entries :
  make_xattr_entries xattrs = Ok entries -> zlen xattrs < 2 ^ 32 ->
  let cp := xattr_count entries.*2 in
  0 <= cp_padding cp < 4 /\
  xattr_count_to_len (cp_xattr_count cp) =
    (if decide (xattrs = []) then 0 else 12 + entries_size entries + cp_padding cp) /\
  0 <= cp_xattr_count cp /\ (cp_xattr_count cp = 0 <-> xattrs = []).
Proof.
  intros Hm Hl. pose proof (zlen_xattr_bytes _ _ Hm) as (_ & [H0 H1] & Hpos).
  pose proof (zlen_nonneg xattrs).
  assert (foldr (fun e acc => wadd 64 (xattr_entry_len e) acc) 0 entries.*2 = entries_size entries) as Hf.
  { assert (entries_size entries < 2 ^ 64) as Hlt by lia. clear -Hm Hlt.
    apply make_xattr_entries_spec in Hm. unfold entries_size in *.
    induction Hm as [|[key value] [pl e] xattrs entries He Hm IH]; [done|]. csimpl in *.
    apply make_xattr_entry_spec in He as (_ & Hnl & Hvs & Hok & _). simpl in Hok.
    unfold int_ok in Hok. unfold xattr_entry_len in *. change (size_of XattrEntry) with 4 in *.
    assert (0 <= foldr (fun e acc => name_len e.2 + value_size e.2 + 4 + acc) 0 entries).
    { clear -Hm. induction Hm as [|[key value] [pl e] xattrs entries He Hm IH]; [done|]. simpl.
      apply make_xattr_entry_spec in He as (_ & _ & _ & Hok & _). simpl in Hok. unfold int_ok in Hok. lia. }
    rewrite IH by lia. apply wadd_small. unfold in_width. lia. }
  unfold xattr_count. rewrite Hf. change (size_of XattrEntry) with 4.
  destruct (decide (xattrs = [])) as [->|Hne].
  { assert (entries = []) as -> by (by simpl in Hm; injection Hm). simpl. split; [lia|]. by split. }
  specialize (Hpos Hne). destruct (Z.eqb_spec (entries_size entries) 0); [lia|].
  unfold round_up_to. destruct (Z.eqb_spec (entries_size entries) 0); [lia|].
  pose proof (div_ceil_bounds (entries_size entries) 4 ltac:(lia) ltac:(lia)) as Hc.
  rewrite wmul_small by (unfold in_width; lia).
  unfold wsub. rewrite wrap_small by (unfold in_width; lia). simpl.
  rewrite Z.div_mul by lia. unfold xattr_count_to_len.
  change (size_of XattrHeader) with 12. change (size_of XattrEntry) with 4.
  destruct (Z.eqb_spec (div_ceil (entries_size entries) 4 + 1) 0); [lia|].
  split; [lia|]. split; [lia|]. split; [lia|]. split; [lia|done].
Qed.

(** ** Writing an inode *)

(** The builder between two inodes: the writer is at the inode address, which
    is aligned and inside the meta area. *)
Definition inode_cursor (mb : Z) (b : Builder) : Prop :=
  b_block_size_bits b = 12 /\ b_meta_block b = Some mb /\ in_width 32 mb /\
  o_pos (b_writer b) = b_inode_addr b /\ b_inode_addr b mod 32 = 0 /\
  mb * 4096 <= b_inode_addr b < 2 ^ 62.

(** The one case the code gets wrong: see [full_block_inode_lost]. *)
Definition exactly_one_block (total : Z) (b : Builder) : Prop :=
  b_inode_addr b mod 4096 = 0 /\ total = 4096.

Lemma block_no_4096 b addr : b_block_size_bits b = 12 -> b_block_no b addr = addr / 4096.
Proof. intros Hb. unfold b_block_no, b_block_size. by rewrite Hb. Qed.

Lemma advance_spec mb total b :
  inode_cursor mb b -> 0 < total <= 4096 -> ~ exactly_one_block total b ->
  let b' := advance_inode_addr total b in
  exists pre, 0 <= pre /\ b_writer b' = write_all (zeros pre) (b_writer b) /\
    b_inode_addr b' = b_inode_addr b + pre /\ b_inode_addr b' mod 32 = 0 /\
    b_inode_addr b' mod 4096 + total <= 4096 /\ b_inode_addr b' < 2 ^ 62 + 4096 /\
    b_block_size_bits b' = 12 /\ b_meta_block b' = Some mb.
Proof.
  intros (Hb & Hm & Hmb & Hp & Ha & Hlo & Hhi) Ht Hfull. unfold in_width in Hmb.
  unfold advance_inode_addr. rewrite !block_no_4096 by done.
  rewrite wadd_small by (unfold in_width; lia).
  set (a := b_inode_addr b) in *.
  pose proof (Z.div_mod a 4096 ltac:(lia)) as Hdm. pose proof (Z.mod_pos_bound a 4096 ltac:(lia)).
  set (q := a / 4096) in *. set (r := a mod 4096) in *.
  destruct (Z.eqb_spec q ((a + total) / 4096)) as [He|He]; simpl.
  { exists 0. rewrite Z.add_0_r, write_all_nil.
    pose proof (Z.div_mod (a + total) 4096 ltac:(lia)).
    pose proof (Z.mod_pos_bound (a + total) 4096 ltac:(lia)). fold a. fold r. repeat split; try done; lia. }
  assert (r <> 0) as Hr.
  { intros Hr. destruct (decide (total = 4096)) as [->|Hne]; [by apply Hfull|].
    apply He. apply Z.div_unique with (r := total); lia. }
  assert ((a + total) / 4096 = q + 1) as ->.
  { symmetry. apply Z.div_unique with (r := r + total - 4096); [|lia].
    destruct (Z.leb_spec 4096 (r + total)); [lia|]. exfalso. apply He.
    apply Z.div_unique with (r := r + total); lia. }
  unfold zero_fill_block.
  assert (b_block_size b = 4096) as Hbs by (unfold b_block_size; by rewrite Hb).
  rewrite Hbs. unfold zero_fill. fold r. destruct (Z.eqb_spec r 0); [done|]. simpl.
  exists (4096 - r). split; [lia|]. split; [done|].
  unfold b_block_addr. change (b_block_size (b_write ?x (set_stats ?y b))) with (b_block_size b).
  rewrite Hbs, wmul_small by (unfold in_width; lia).
  split; [lia|]. split; [|split; [|split; [lia|done]]].
  - replace ((q + 1) * 4096) with ((q + 1) * 128 * 32) by lia. by apply Z.mod_mul.
  - rewrite Z.mod_mul by lia. lia.
Qed.

Definition inode_chunk (inode : InodeExtended) (xb : list byte) (tail : option bstr) : list byte :=
  as_bytes inode ++ xb ++ tail_bytes tail.

Lemma set_xattr_count_ok n i : int_ok 2 n -> pod_ok i -> pod_ok (set_xattr_count n i).
Proof. intros Hn Hi. simpl in *. tauto. Qed.

Lemma write_xattrs_spec xattrs entries padding b b' :
  0 <= o_pos (b_writer b) ->
  write_xattrs entries padding xattrs b = Ok b' ->
  b' = b_write (if decide (xattrs = []) then [] else
    as_bytes XattrHeader_zeroed ++ xattr_bytes entries xattrs ++ zeros padding) b.
Proof.
  intros Hp. unfold write_xattrs. destruct (decide (xattrs = [])).
  { intros [= <-]. by rewrite b_write_nil. }
  intros H. monad_simp. subst.
  apply write_xattr_entries_spec in Hm as ->.
  - rewrite (b_write_app (as_bytes XattrHeader_zeroed)), b_write_app by done.
    by rewrite <-app_assoc.
  - rewrite b_write_pos. pose proof (zlen_nonneg (as_bytes XattrHeader_zeroed)). lia.
Qed.

Lemma zero_fill_fields w a b :
  let b' := (zero_fill w a b).2 in
  b_inode_addr b' = b_inode_addr b /\ b_meta_block b' = b_meta_block b /\
  (zero_fill w a b).1 = (if w mod a =? 0 then 0 else a - w mod a).
Proof. unfold zero_fill. by destruct (w mod a =? 0). Qed.

Lemma addr_to_disk_id_spec mb addr b id :
  b_block_size_bits b = 12 -> b_meta_block b = Some mb -> in_width 32 mb ->
  addr_to_disk_id addr b = Ok id -> addr = mb * 4096 + 32 * id /\ in_width 32 id.
Proof.
  intros Hb Hm Hmb. unfold addr_to_disk_id. rewrite Hm. simpl. unfold b_block_addr.
  assert (b_block_size b = 4096) as -> by (unfold b_block_size; by rewrite Hb).
  unfold in_width in Hmb. rewrite wmul_small by (unfold in_width; lia).
  destruct (Z.ltb_spec addr (mb * 4096)); [done|].
  destruct (Z.eqb_spec ((addr - mb * 4096) mod INODE_ALIGNMENT) 0) as [E|]; simpl; [|done].
  rewrite ok_or_Ok. intros [-> Hid]%try_into_Some. split; [|done].
  unfold INODE_ALIGNMENT in *. pose proof (Z.div_mod (addr - mb * 4096) 32). lia.
Qed.

Lemma zlen_as_bytes_header : zlen (as_bytes XattrHeader_zeroed) = 12.
Proof. by vm_compute. Qed.

Lemma zlen_zeros n : 0 <= n -> zlen (zeros n) = n.
Proof. intros. unfold zeros. rewrite zlen_replicate. lia. Qed.

(** The bytes of an inode with its xattrs and tail. *)
Definition inode_total (xattrs : XattrMap) (tail : option bstr) : Z :=
  match make_xattr_entries xattrs with
  | Ok entries =>
      64 + xattr_count_to_len (cp_xattr_count (xattr_count entries.*2)) + zlen (tail_bytes tail)
  | _ => 0
  end.

(** The padding of [zero_fill] reaches the next multiple. *)
Lemma padding_aligns w a :
  0 < a -> let p := if w mod a =? 0 then 0 else a - w mod a in 0 <= p < a /\ (w + p) mod a = 0.
Proof.
  intros Ha. pose proof (Z.mod_pos_bound w a Ha). pose proof (Z.div_mod w a ltac:(lia)).
  destruct (Z.eqb_spec (w mod a) 0); simpl; [rewrite Z.add_0_r; lia|].
  split; [lia|]. replace (w + (a - w mod a)) with ((w / a + 1) * a) by lia. apply Z.mod_mul; lia.
Qed.

(** The bytes that [write_xattrs] writes, and their number. *)
Definition xattr_part (xattrs : XattrMap) (entries : list (Z * XattrEntry)) (padding : Z) : list byte :=
  if decide (xattrs = []) then [] else
    as_bytes XattrHeader_zeroed ++ xattr_bytes entries xattrs ++ zeros padding.

Lemma zlen_xattr_part xattrs entries :
  make_xattr_entries xattrs = Ok entries -> zlen xattrs < 2 ^ 32 ->
  zlen (xattr_part xattrs entries (cp_padding (xattr_count entries.*2))) =
    xattr_count_to_len (cp_xattr_count (xattr_count entries.*2)).
Proof.
  intros He Hx. destruct (xattr_count_spec xattrs entries He Hx) as (Hpad & Hlen & Hc0 & _).
  destruct (zlen_xattr_bytes _ _ He) as (Hxl & _ & _).
  rewrite Hlen. unfold xattr_part. repeat case_decide; try done.
  rewrite !zlen_app, zlen_as_bytes_header, Hxl, zlen_zeros by lia. lia.
Qed.

(** Writing an inode, its xattrs and its tail one after the other. *)
Lemma write_chunk inode xattrs entries padding tail b b3 :
  0 <= o_pos (b_writer b) ->
  write_xattrs entries padding xattrs (b_write (as_bytes inode) b) = Ok b3 ->
  let b4 := match tail with
            | Some tail => b_write tail (set_stats (count_tail tail (b_stats b3)) b3)
            | None => b3
            end in
  b_writer b4 = write_all (inode_chunk inode (xattr_part xattrs entries padding) tail) (b_writer b) /\
  b_inode_addr b4 = b_inode_addr b /\ 0 <= o_pos (b_writer b4).
Proof.
  intros Hp Hwx b4.
  apply write_xattrs_spec in Hwx; [|rewrite b_write_pos; pose proof (zlen_nonneg (as_bytes inode)); lia].
  fold (xattr_part xattrs entries padding) in Hwx. rewrite b_write_app in Hwx by done.
  assert (b_writer b4 = write_all (inode_chunk inode (xattr_part xattrs entries padding) tail) (b_writer b)) as Hw.
  { unfold b4, inode_chunk. rewrite Hwx. destruct tail as [t|]; simpl.
    - rewrite write_all_app by done. by rewrite <-app_assoc.
    - by rewrite app_nil_r. }
  split; [done|]. split.
  - unfold b4. rewrite Hwx. by destruct tail.
  - rewrite Hw. simpl. pose proof (zlen_nonneg (inode_chunk inode (xattr_part xattrs entries padding) tail)). lia.
Qed.

(** What [write_inode] does to the output and to the cursor. *)
Lemma write_inode_spec mb inode tail xattrs b id b' :
  inode_cursor mb b -> pod_ok inode -> zlen xattrs < 2 ^ 32 ->
  write_inode inode tail xattrs b = Ok (id, b') ->
  exists count xb, let inode' := set_xattr_count count inode in
  let total := inode_total xattrs tail in
  pod_ok inode' /\ zlen xb = xattr_count_to_len count /\
  total = zlen (inode_chunk inode' xb tail) /\ 64 <= total <= 4096 /\
  (~ exactly_one_block total b ->
   exists pre pad, 0 <= pre /\ 0 <= pad < 32 /\
     b_writer b' = write_all (zeros pre ++ inode_chunk inode' xb tail ++ zeros pad) (b_writer b) /\
     b_inode_addr b + pre = mb * 4096 + 32 * id /\ in_width 32 id /\
     b_inode_addr b' = b_inode_addr b + pre + total + pad /\ b_inode_addr b' mod 32 = 0 /\
     (mb * 4096 + 32 * id) mod 4096 + total <= 4096).
Proof.
  intros Hcur Hok Hx Hw. pose proof Hcur as (Hb & Hm & Hmb & Hp & Ha & Hlo & Hhi).
  unfold write_inode in Hw. set (b1 := set_n_inodes _ b) in Hw.
  assert (inode_cursor mb b1) as Hcur1 by exact Hcur.
  destruct (make_xattr_entries xattrs) as [entries| |] eqn:He; [|done..]. simpl rbind in Hw.
  pose proof (zlen_xattr_part xattrs entries He Hx) as Hxb.
  assert (inode_total xattrs tail =
    64 + xattr_count_to_len (cp_xattr_count (xattr_count entries.*2)) + zlen (tail_bytes tail)) as Hit
    by (unfold inode_total; by rewrite He).
  set (cp := xattr_count entries.*2) in *. clearbody cp.
  destruct (try_into 16 (cp_xattr_count cp)) as [count|] eqn:Hc; [|done]. simpl rbind in Hw.
  apply try_into_Some in Hc as [-> Hc].
  set (count := cp_xattr_count cp) in *. clearbody count.
  assert (pod_ok (set_xattr_count count inode)) as Hok' by (apply set_xattr_count_ok; done).
  set (xb := xattr_part xattrs entries (cp_padding cp)) in *.
  pose proof (pod_as_bytes_length _ Hok') as Hil. change (size_of InodeExtended) with 64 in Hil.
  set (total := zlen (as_bytes (set_xattr_count count inode)) + xattr_count_to_len count
                + zlen (tail_bytes tail)) in Hw.
  assert (total = zlen (inode_chunk (set_xattr_count count inode) xb tail)) as Htot.
  { unfold total, inode_chunk. rewrite !zlen_app. lia. }
  assert (64 <= total) as Ht64.
  { unfold total. rewrite <-Hxb, Hil. pose proof (zlen_nonneg xb). pose proof (zlen_nonneg (tail_bytes tail)). lia. }
  assert (b_block_size b1 = 4096) as Hbs by (unfold b_block_size; simpl; by rewrite Hb).
  rewrite Hbs in Hw. destruct (Z.ltb_spec 4096 total); [done|].
  assert (inode_total xattrs tail = total) as -> by (unfold total; lia).
  exists count, xb. split; [done|]. split; [done|]. split; [done|]. split; [lia|].
  intros Hfull.
  destruct (advance_spec mb total b1 Hcur1 ltac:(lia) Hfull)
    as (pre & Hpre & Hw1 & Ha1 & Hal & Hfit & Hhi1 & Hb1 & Hm1).
  set (b2 := advance_inode_addr total b1) in *. clearbody b2.
  change (b_inode_addr b1) with (b_inode_addr b) in Ha1.
  change (b_writer b1) with (b_writer b) in Hw1.
  destruct (addr_to_disk_id _ b2) as [id'| |] eqn:Hid; [|done..]. simpl rbind in Hw.
  apply (addr_to_disk_id_spec mb _ _ _ Hb1 Hm1 Hmb) in Hid as [Hid Hidw].
  unfold in_width in Hmb.
  assert (0 <= o_pos (b_writer b2)) as Hp2.
  { rewrite Hw1. simpl. rewrite Hp. pose proof (zlen_nonneg (zeros pre)). lia. }
  destruct (write_xattrs _ _ _ _) as [b3| |] eqn:Hwx; [|done..]. simpl rbind in Hw.
  pose proof (write_chunk _ _ _ _ tail _ _ Hp2 Hwx) as (Hw4 & Ha4 & Hp4). fold xb in Hw4.
  set (b4 := match tail with Some t => _ | None => b3 end) in *.
  clearbody b4. clear Hwx b3.
  destruct (zero_fill_writer total INODE_ALIGNMENT b4 Hp4) as (Hw5 & _ & _ & _).
  destruct (zero_fill_fields total INODE_ALIGNMENT b4) as (Ha5 & _ & Hn5).
  destruct (zero_fill total INODE_ALIGNMENT b4) as [padding b5]. simpl in *.
  injection Hw as <- <-. unfold INODE_ALIGNMENT in *.
  destruct (padding_aligns total 32 ltac:(lia)) as [Hpd Hpm]. rewrite <-Hn5 in Hpd, Hpm.
  cbn [b_writer b_inode_addr set_inode_addr].
  exists pre, padding. split; [done|]. split; [lia|].
  split; [|split; [lia|split; [done|]]].
  - rewrite Hw5, Hw4, Hw1, <-Hn5. rewrite (write_all_app (zeros pre)) by lia.
    rewrite write_all_app by lia. by rewrite <-app_assoc.
  - rewrite wadd_small by (unfold in_width; lia). split; [lia|]. split.
    + rewrite Ha5, Ha4. rewrite Z.add_mod, Hal, Hpm by lia. done.
    + by rewrite <-Hid.
Qed.

(** Reading at the place of a chunk. *)
Lemma raw_inode_offset_4096 e mb id :
  blkszbits (sb e) = 12 -> meta_blkaddr (sb e) = mb -> in_width 32 mb -> in_width 32 id ->
  raw_inode_offset e id = mb * 4096 + 32 * id.
Proof.
  intros Hb <- Hm Hid. unfold raw_inode_offset, block_offset, wshl. rewrite Hb.
  unfold in_width in *. change (12 mod 64) with 12. rewrite Z.shiftl_mul_pow2 by lia.
  rewrite wrap_small by (unfold in_width; lia).
  rewrite wadd_small by (unfold in_width; lia). lia.
Qed.

(** An image that holds a chunk at its disk id. *)
Lemma chunk_read e mb id inode count xb tail l :
  blkszbits (sb e) = 12 -> meta_blkaddr (sb e) = mb -> in_width 32 mb -> in_width 32 id ->
  let inode' := set_xattr_count count inode in
  pod_ok inode' -> ie_format_layout inode = format_layout ExtendedType l ->
  zlen xb = xattr_count_to_len count -> zlen (inode_chunk inode' xb tail) <= 4096 ->
  let addr := mb * 4096 + 32 * id in
  get_range (img e) addr (addr + zlen (inode_chunk inode' xb tail)) = Some (inode_chunk inode' xb tail) ->
  get_inode e id = Ok (Extended id inode') /\
  get_range (img e) (inode_end e (Extended id inode'))
    (inode_end e (Extended id inode') + zlen (tail_bytes tail)) = Some (tail_bytes tail).
Proof.
  intros Hb Hm Hmb Hid inode' Hok Hl Hxb Hsz addr Hr. unfold in_width in Hmb, Hid.
  apply get_range_Some_inv in Hr as (x & y & Hd & Hx & _); [|unfold addr; lia].
  assert (raw_inode_offset e id = addr) as Hoff by (by apply raw_inode_offset_4096).
  pose proof (pod_as_bytes_length _ Hok) as Hil. change (size_of InodeExtended) with 64 in Hil.
  unfold inode_chunk in Hd, Hsz. rewrite !zlen_app in Hsz.
  pose proof (zlen_nonneg xb). pose proof (zlen_nonneg (tail_bytes tail)).
  split.
  - unfold get_inode. rewrite Hoff, Hd, get_from_app by done. simpl rbind.
    rewrite <-app_assoc. by apply Inode_new_extended with (l := l).
  - assert (inode_end e (Extended id inode') = addr + 64 + zlen xb) as ->.
    { unfold inode_end, inode_offset. cbn [disk_id inode_size]. rewrite Hoff.
      change (size_of InodeExtended) with 64.
      assert (default 0 (xattr_len (Extended id inode')) = zlen xb) as ->.
      { unfold xattr_len. cbn [inode_xattr_count]. change (ie_xattr_count inode') with count.
        rewrite <-Hxb. by destruct (Z.eqb_spec (zlen xb) 0). }
      unfold addr. rewrite !wadd_small; unfold in_width; rewrite ?wadd_small; unfold in_width; lia. }
    rewrite Hd, <-!app_assoc, (app_assoc x), (app_assoc (x ++ _)).
    apply get_range_app; rewrite !zlen_app; lia.
Qed.

(** The tail of a file is behind its inode and xattrs. *)
Definition tail_follows (e : Erofs) (i : Inode) (tail : option (list byte)) : Prop :=
  get_range (img e) (inode_end e i) (inode_end e i + zlen (tail_bytes tail)) = Some (tail_bytes tail).

(** An inode that the builder writes is found by the reader under the disk
    id it got, with the fields it was made from and the xattr count of what
    follows it, and its tail is where [get_data] looks for it.  Inode, xattrs
    and tail do not cross a block, and the cursor is again aligned and equal to
    the writer's position.  The exception is an inode that fills a whole block
    exactly at the start of a block. *)
Theorem inode_readback mb inode tail xattrs l b id b' s :
  inode_cursor mb b -> pod_ok inode -> ie_format_layout inode = format_layout ExtendedType l ->
  zlen xattrs < 2 ^ 32 -> blkszbits s = 12 -> meta_blkaddr s = mb ->
  ~ exactly_one_block (inode_total xattrs tail) b ->
  write_inode inode tail xattrs b = Ok (id, b') ->
  exists count, let e := {| img := o_bytes (b_writer b'); sb := s |} in
    let i := Extended id (set_xattr_count count inode) in
    get_inode e id = Ok i /\
    tail_follows e i tail /\
    o_pos (b_writer b') = b_inode_addr b' /\ b_inode_addr b' mod 32 = 0 /\
    (mb * 4096 + 32 * id) mod 4096 + inode_total xattrs tail <= 4096.
Proof.
  intros Hcur Hok Hl Hx Hb Hm Hfull Hw. pose proof Hcur as (_ & _ & Hmb & Hp & _ & Hlo & _).
  apply (write_inode_spec mb) in Hw as (count & xb & Hok' & Hxb & Htot & Hsz & Hrest); [|done..].
  destruct (Hrest Hfull) as (pre & pd & Hpre & Hpd & Hwr & Hid & Hidw & Ha & Hal & Hblk).
  exists count. cbn zeta. pose proof Hmb as Hmb'. unfold in_width in Hmb'.
  set (chunk := inode_chunk (set_xattr_count count inode) xb tail) in *.
  assert (get_range (o_bytes (b_writer b')) (mb * 4096 + 32 * id) (mb * 4096 + 32 * id + zlen chunk)
    = Some chunk) as Hr.
  { rewrite Hwr. unfold write_all. simpl o_bytes. rewrite decide_False.
    - rewrite put_split, <-!app_assoc, (app_assoc (put_prefix _ _)), Hp, <-Hid.
      apply get_range_app; rewrite zlen_app, zlen_put_prefix, zlen_zeros; lia.
    - intros H0. apply (f_equal zlen) in H0. rewrite !zlen_app in H0. len_lia. }
  destruct (chunk_read {| img := o_bytes (b_writer b'); sb := s |} mb id inode count xb tail l)
    as [Hi Ht]; try done; [fold chunk; lia|].
  split; [exact Hi|]. split; [exact Ht|]. split; [|done].
  rewrite Hwr. cbn [o_pos write_all]. rewrite !zlen_app, !zlen_zeros by lia. lia.
Qed.

(** The checks of a build with debug assertions hold: between inodes the writer
    is where the builder says and aligned, and it is again after an inode. *)
Theorem writer_alignment_kept mb inode tail xattrs l b id b' :
  inode_cursor mb b -> pod_ok inode -> ie_format_layout inode = format_layout ExtendedType l ->
  zlen xattrs < 2 ^ 32 -> ~ exactly_one_block (inode_total xattrs tail) b ->
  write_inode inode tail xattrs b = Ok (id, b') ->
  check_writer_alignment b = Ok tt /\ check_writer_alignment b' = Ok tt.
Proof.
  intros Hcur Hok Hl Hx Hfull Hw. pose proof Hcur as (_ & _ & Hmb & Hp & Ha & _).
  destruct (inode_readback mb inode tail xattrs l b id b' (fill_superblock 12 mb 0 1 Superblock_zeroed)
    Hcur Hok Hl Hx eq_refl eq_refl Hfull Hw) as (count & _ & _ & Hp' & Ha' & _).
  unfold check_writer_alignment. change INODE_ALIGNMENT with 32. rewrite Hp, Hp', Ha, Ha', !Z.eqb_refl. done.
Qed.

(** A builder at the start of its meta area, in block 1. *)
Definition example_builder : Builder :=
  let b := Builder_new {| o_bytes := []; o_pos := 0 |}
             {| max_file_size := None; increment_uid_gid := None |} in
  set_inode_addr 4096 (set_meta_block (Some 1) b).

Definition example_meta_sb : Superblock := fill_superblock 12 1 0 1 Superblock_zeroed.

Definition leaf_inode (tail : option bstr) (size : Z) (xattrs : XattrMap) : InodeExtended :=
  match make_inode FileType.RegularFile size EROFS_NULL_ADDR
          {| m_uid := 0; m_gid := 0; m_mtime := 0; m_mode := 420; m_xattrs := xattrs |} tail 1 with
  | Ok i => i
  | _ => example_inode
  end.

Definition hello : option bstr := Some (bytes_of_string "hello").

Definition example_written : Builder :=
  match write_inode (leaf_inode hello 5 []) hello [] example_builder with
  | Ok (_, b') => b'
  | _ => example_builder
  end.

Lemma inode_readback_witness :
  exists count, write_inode (leaf_inode hello 5 []) hello [] example_builder = Ok (0, example_written) /\
    get_inode {| img := o_bytes (b_writer example_written); sb := example_meta_sb |} 0 =
      Ok (Extended 0 (set_xattr_count count (leaf_inode hello 5 []))).
Proof.
  destruct (inode_readback 1 (leaf_inode hello 5 []) hello [] FlatInline example_builder 0
    example_written example_meta_sb) as (count & Hi & _).
  9: { exists count. split; [vm_compute; reflexivity|exact Hi]. }
  - vm_compute. intuition congruence.
  - vm_compute. intuition congruence.
  - reflexivity.
  - reflexivity.
  - reflexivity.
  - reflexivity.
  - intros [_ H]. vm_compute in H. discriminate H.
  - vm_compute. reflexivity.
Defined.

(** An inode with xattrs and tail of exactly one block, written at the start
    of a block, is lost: the builder hands out the disk id of the next block
    without moving the writer, so the reader finds no inode under that id. *)
Theorem full_block_inode_lost :
  let tail := Some (replicate 2048 x61) in
  let xattrs := [([x61], replicate 1967 x62)] in
  let inode := leaf_inode tail 2048 xattrs in
  inode_cursor 1 example_builder /\
  exists id b', write_inode inode tail xattrs example_builder = Ok (id, b') /\
    get_inode {| img := o_bytes (b_writer b'); sb := example_meta_sb |} id = Err ErofsDisk.BadConversion /\
    o_pos (b_writer b') <> b_inode_addr b'.
Proof.
  split; [vm_compute; intuition congruence|].
  eexists _, _. split; [vm_compute; reflexivity|]. split; [vm_compute; reflexivity|].
  vm_compute. discriminate.
Qed.

(** Two xattrs of which the first is not a multiple of four bytes are
    written without padding between them and read with it: the second one comes
    back with another name and value. *)
Theorem xattrs_misread :
  let xattrs := [(bytes_of_string "user.a", bytes_of_string "1"); (bytes_of_string "user.bc", bytes_of_string "22")] in
  let inode := leaf_inode None 0 xattrs in
  exists id b' i xs items,
    write_inode inode None xattrs example_builder = Ok (id, b') /\
    let e := {| img := o_bytes (b_writer b'); sb := example_meta_sb |} in
    get_inode e id = Ok i /\ get_xattrs e i = Ok (Some xs) /\
    collect_xattrs (xattrs_iter xs) = items /\
    items <> Ok [{| xi_prefix := Some (Builtin 1); xi_name := bytes_of_string "a"; xi_value := bytes_of_string "1" |};
                 {| xi_prefix := Some (Builtin 1); xi_name := bytes_of_string "bc"; xi_value := bytes_of_string "22" |}].
Proof.
  eexists _, _, _, _, _. split; [vm_compute; reflexivity|]. cbv zeta.
  split; [vm_compute; reflexivity|]. split; [vm_compute; reflexivity|].
  split; [vm_compute; reflexivity|]. discriminate.
Qed.

(** * Files *)

Lemma block_offset_4096 e block :
  blkszbits (sb e) = 12 -> 0 <= block < 2 ^ 32 -> block_offset e block = block * 4096.
Proof.
  intros Hb Hr. unfold block_offset, wshl. rewrite Hb. change (12 mod 64) with 12.
  rewrite Z.shiftl_mul_pow2 by lia. apply wrap_small. unfold in_width. lia.
Qed.

Lemma make_inode_fields `{RustixFileType} typ size start meta tail n inode c id :
  make_inode typ size start meta tail n = Ok inode -> 0 <= start < 2 ^ 32 ->
  let i := Extended id (set_xattr_count c inode) in
  layout i = Ok (match tail with Some _ => FlatInline | None => FlatPlain end) /\
  data_size i = size /\ raw_block_addr i = start.
Proof.
  unfold make_inode. intros Hm Hs. monad_simp. subst inode. split; [|split; [done|]].
  - unfold layout. cbn [inode_format_layout set_xattr_count ie_format_layout].
    by rewrite (proj1 (format_layout_inv _ _)).
  - unfold raw_block_addr, raw_blkaddr. simpl. by rewrite le_val_bytes.
Qed.

(** Blocks and tail of a file together. *)
Lemma stored_data_read `{RustixFileType} e typ f contents inode c id :
  blkszbits (sb e) = 12 -> zlen (img e) < 2 ^ 63 -> stored (img e) f contents ->
  make_inode typ (l_len f) (l_start_block f) (l_meta f) (l_tail f) (l_n_links f) = Ok inode ->
  let i := Extended id (set_xattr_count c inode) in
  tail_follows e i (l_tail f) ->
  exists block tail, get_data e i = Ok (block, tail) /\ block ++ tail = contents /\
    (zlen contents <= 2048 -> block = []).
Proof.
  intros Hb Himg (Hlen & Hns & block & Hcat & Hbl & Hstart) Hmk i Htail. unfold tail_follows in Htail.
  assert (0 <= l_start_block f < 2 ^ 32) as Hsr.
  { destruct (decide (block = [])); [rewrite Hstart; done|]. unfold EROFS_NULL_ADDR, u32_max in Hstart. lia. }
  destruct (make_inode_fields _ _ _ _ _ _ _ c id Hmk Hsr) as (Hl & Hsz & Hra). fold i in Hl, Hsz, Hra.
  assert (0 <= inode_end e i) as Hie by (apply wadd_in_width; lia).
  pose proof (get_range_length _ _ _ _ Hie Htail) as (_ & Hle & _).
  pose proof (zlen_nonneg block). pose proof (zlen_nonneg (tail_bytes (l_tail f))) as Htn.
  assert (zlen contents = zlen block + zlen (tail_bytes (l_tail f))) as Hct
    by (rewrite <-Hcat, zlen_app; done).
  unfold get_data. rewrite Hl. cbn [rbind].
  assert (block_size e = 4096) as Hbs by (unfold block_size; by rewrite Hb).
  assert (zlen contents <= 2048 -> block = []) as Hsmall.
  { intros Hs. pose proof (zlen_nonneg contents). apply zlen_zero.
    rewrite Hbl, Z.div_small by (try right; try rewrite Z.mod_small; lia). done. }
  destruct (l_tail f) as [t|].
  - assert (zlen block <= zlen (img e)) as Hbi.
    { destruct (decide (block = [])) as [->|]; [change (zlen (@nil byte)) with 0; pose proof (zlen_nonneg (img e)); lia|].
      destruct Hstart as [Hs0 Hr]. apply get_range_length in Hr as (_ & ? & _); lia. }
    rewrite Hbs, Hsz, Hlen. simpl in Hcat, Htail, Hle, Htn, Hct.
    specialize (Hbl ltac:(by left)).
    pose proof (compute_block_tail_len_spec 4096 (zlen contents) ltac:(lia)) as Hc.
    destruct (compute_block_tail_len _ _) as [bl tl].
    destruct Hc as (-> & _ & Hsum & _ & _); [unfold in_width; lia|].
    assert (tl = zlen t) as -> by lia. rewrite <-Hbl.
    rewrite wadd_small by (unfold in_width; lia). rewrite Htail. cbn [ok_or rbind]. rewrite Hra.
    destruct (decide (block = [])) as [->|Hne].
    + rewrite Hstart. simpl. exists [], t. by split.
    + destruct Hstart as [Hs0 Hr]. unfold EROFS_NULL_ADDR, u32_max in Hs0.
      destruct (Z.eqb_spec (l_start_block f) 4294967295); [lia|].
      apply get_range_length in Hr as Hr'; [|lia]. destruct Hr' as (_ & ? & _).
      rewrite block_offset_4096, wadd_small, Hr by (done || unfold in_width; lia).
      exists block, t. by split.
  - simpl in Hcat. rewrite app_nil_r in Hcat. subst block. simpl in Hct. rewrite Hsz, Hlen, Hra.
    destruct (decide (contents = [])) as [->|Hne]; [by exists [], []|].
    destruct Hstart as [Hs0 Hr]. unfold EROFS_NULL_ADDR, u32_max in Hs0.
    destruct (Z.eqb_spec (zlen contents) 0) as [E|]; [by apply zlen_zero in E|].
    apply get_range_length in Hr as Hr'; [|lia]. destruct Hr' as (_ & ? & _).
    rewrite block_offset_4096, wadd_small, Hr by (done || unfold in_width; lia).
    exists contents, []. by rewrite app_nil_r.
Qed.

(** A stored file is read back: when an image holds the blocks of a file
    and its tail behind the inode made for it, [get_data] returns slices whose
    concatenation is the file's contents.  This covers the four cases: an empty
    file, only a tail, only blocks (the last one partly used), and blocks with a
    tail. *)
Theorem file_readback `{RustixFileType} e typ f contents inode c id :
  blkszbits (sb e) = 12 -> zlen (img e) < 2 ^ 63 -> stored (img e) f contents ->
  make_inode typ (l_len f) (l_start_block f) (l_meta f) (l_tail f) (l_n_links f) = Ok inode ->
  let i := Extended id (set_xattr_count c inode) in
  tail_follows e i (l_tail f) ->
  exists block tail, get_data e i = Ok (block, tail) /\ block ++ tail = contents.
Proof.
  intros Hb Hz Hs Hm i Ht. destruct (stored_data_read e typ f contents inode c id Hb Hz Hs Hm Ht) as (bl & t & Hd & Hc & _).
  by exists bl, t.
Qed.

(** The image of [example_written], with a file of five bytes. *)
Lemma file_readback_witness :
  exists block tail,
    get_data {| img := o_bytes (b_writer example_written); sb := example_meta_sb |}
      (Extended 0 (set_xattr_count 0 (leaf_inode hello 5 []))) = Ok (block, tail) /\
    block ++ tail = bytes_of_string "hello".
Proof.
  apply (file_readback {| img := o_bytes (b_writer example_written); sb := example_meta_sb |}
    FileType.RegularFile
    {| l_meta := {| m_uid := 0; m_gid := 0; m_mtime := 0; m_mode := 420; m_xattrs := [] |};
       l_start_block := EROFS_NULL_ADDR; l_n_links := 1; l_len := 5; l_tail := hello;
       l_disk_id := None |}).
  - reflexivity.
  - vm_compute. reflexivity.
  - split; [reflexivity|]. split; [done|]. exists []. split; [reflexivity|].
    split; [reflexivity|]. vm_compute. reflexivity.
  - vm_compute. reflexivity.
  - vm_compute. reflexivity.
Defined.

(** A concrete tree, built and read by path. *)
Definition example_image_bytes : result Error (Stats * list byte) :=
  (let? b := add_file (bytes_of_string "d/f") Meta_default 5 (bytes_of_string "hello") (start_builder None None) in
   let? b := add_file (bytes_of_string "empty") Meta_default 0 [] b in
   let? b := add_file (bytes_of_string "big") Meta_default 4100 (replicate 4100 x7a) b in
   let? b := add_symlink (bytes_of_string "s") (bytes_of_string "d/f") Meta_default b in
   into_inner (add_link (bytes_of_string "d/h") (bytes_of_string "d/f") Meta_default b))%result.

Definition read_file (e : Erofs) (p : string) : option (list byte) :=
  match lookup e (bytes_of_string p) with
  | Ok (Some i) => match get_data e i with Ok (x, y) => Some (x ++ y) | _ => None end
  | _ => None
  end.

(** The whole builder and the whole reader on a concrete tree: a file in a
    sub-directory, an empty file, a file of more than one block, a symlink and a
    hard link are all found by path in the finished image, with their contents. *)
Theorem example_image_read_back :
  exists stats bytes e, example_image_bytes = Ok (stats, bytes) /\ Erofs_new bytes = Ok e /\
    read_file e "d/f" = Some (bytes_of_string "hello") /\
    read_file e "d/h" = Some (bytes_of_string "hello") /\
    read_file e "empty" = Some [] /\
    read_file e "big" = Some (replicate 4100 x7a) /\
    read_file e "s" = Some (bytes_of_string "d/f") /\
    lookup e (bytes_of_string "d/missing") = Ok None.
Proof.
  eexists _, _, _. split; [vm_compute; reflexivity|]. split; [vm_compute; reflexivity|].
  repeat (split; [vm_compute; reflexivity|]). vm_compute. reflexivity.
Qed.
