(* ===== verification/ErofsWalk.v ===== *)
(** The walks over the tree that finish an image (src/peerofs/src/build.rs), as
    transformations of the whole tree.

    A walk visits the directories in pre-order and threads the builder through.
    The file gives an induction principle for walks, relations between the tree
    before and after a walk, and the first three walks: the one that reserves the
    blocks of the directories and the two that write the inodes. *)
From stdpp Require Import option base list numbers strings.
From Stdlib Require Import ZArith Lia.
From S2P Require Import Prelude MemFile BTree Paths ErofsDisk ErofsBuild ErofsImage.
#[local] Open Scope Z_scope.
#[local] Open Scope result_scope.

(** * Trees *)

(** The type of a leaf decides the mode of its inode. *)
Section all.
Context (GD : list bstr -> DirInfo -> Prop) (GL : FileType.t -> Leaf -> Prop).

(** Every directory, with the names in it, and every leaf. *)
Inductive all_dir : Dir -> Prop :=
  | all_mk c i : GD c.*1 i -> all_kids c -> all_dir (mk_dir c i)
with all_kids : list (bstr * Dirent) -> Prop :=
  | all_nil : all_kids []
  | all_file n f c : GL FileType.RegularFile f -> all_kids c -> all_kids ((n, File f) :: c)
  | all_symlink n s c : GL FileType.Symlink s -> all_kids c -> all_kids ((n, Symlink s) :: c)
  | all_sub n d c : all_dir d -> all_kids c -> all_kids ((n, SubDir d) :: c)
  | all_dot n c : all_kids c -> all_kids ((n, Dot) :: c)
  | all_dotdot n c : all_kids c -> all_kids ((n, DotDot) :: c).
End all.

Section rel.
Context (RI : DirInfo -> DirInfo -> Prop) (RL : FileType.t -> Leaf -> Leaf -> Prop).

(** Two trees with the same names, whose directories and leaves are related. *)
Inductive tree_rel : Dir -> Dir -> Prop :=
  | rel_mk c c' i i' : RI i i' -> kids_rel c c' -> tree_rel (mk_dir c i) (mk_dir c' i')
with kids_rel : list (bstr * Dirent) -> list (bstr * Dirent) -> Prop :=
  | rel_nil : kids_rel [] []
  | rel_file n f f' c c' :
      RL FileType.RegularFile f f' -> kids_rel c c' -> kids_rel ((n, File f) :: c) ((n, File f') :: c')
  | rel_symlink n s s' c c' :
      RL FileType.Symlink s s' -> kids_rel c c' -> kids_rel ((n, Symlink s) :: c) ((n, Symlink s') :: c')
  | rel_sub n d d' c c' :
      tree_rel d d' -> kids_rel c c' -> kids_rel ((n, SubDir d) :: c) ((n, SubDir d') :: c')
  | rel_dot n c c' : kids_rel c c' -> kids_rel ((n, Dot) :: c) ((n, Dot) :: c')
  | rel_dotdot n c c' : kids_rel c c' -> kids_rel ((n, DotDot) :: c) ((n, DotDot) :: c').
End rel.

Scheme tree_rel_mut := Minimality for tree_rel Sort Prop
  with kids_rel_mut := Minimality for kids_rel Sort Prop.
Combined Scheme tree_kids_rel_ind from tree_rel_mut, kids_rel_mut.
Scheme all_dir_mut := Minimality for all_dir Sort Prop
  with all_kids_mut := Minimality for all_kids Sort Prop.
Combined Scheme all_dir_kids_ind from all_dir_mut, all_kids_mut.

#[export] Hint Constructors tree_rel kids_rel all_dir all_kids : pe.

(** One entry of a directory. *)
Definition all_entry GD GL (x : Dirent) : Prop :=
  match x with
  | File f => GL FileType.RegularFile f
  | Symlink s => GL FileType.Symlink s
  | SubDir d => all_dir GD GL d
  | Dot | DotDot => True
  end.

Lemma all_kids_Forall GD GL c : all_kids GD GL c <-> Forall (fun kv => all_entry GD GL kv.2) c.
Proof.
  split.
  - induction 1; constructor; done.
  - induction 1 as [|[n x] c Hx _ IH]; [constructor|]. destruct x; constructor; done.
Qed.

Lemma kids_rel_names RI RL c c' : kids_rel RI RL c c' -> c'.*1 = c.*1.
Proof. induction 1; csimpl; by f_equal. Qed.

Lemma tree_rel_mono (RI RI' : DirInfo -> DirInfo -> Prop) (RL RL' : FileType.t -> Leaf -> Leaf -> Prop) :
  (forall i i', RI i i' -> RI' i i') -> (forall t f f', RL t f f' -> RL' t f f') ->
  (forall d d', tree_rel RI RL d d' -> tree_rel RI' RL' d d') /\
  (forall c c', kids_rel RI RL c c' -> kids_rel RI' RL' c c').
Proof. intros HI HL. apply tree_kids_rel_ind; intros; eauto with pe. Qed.

Lemma tree_rel_trans (RI1 RI2 : DirInfo -> DirInfo -> Prop) (RL1 RL2 : FileType.t -> Leaf -> Leaf -> Prop) :
  let RI i i' := exists j, RI1 i j /\ RI2 j i' in
  let RL t f f' := exists g, RL1 t f g /\ RL2 t g f' in
  (forall d d', tree_rel RI1 RL1 d d' -> forall d2, tree_rel RI2 RL2 d' d2 -> tree_rel RI RL d d2) /\
  (forall c c', kids_rel RI1 RL1 c c' -> forall c2, kids_rel RI2 RL2 c' c2 -> kids_rel RI RL c c2).
Proof.
  intros RI RL. apply tree_kids_rel_ind; intros;
    match goal with H : tree_rel RI2 _ _ _ |- _ => inversion H; subst | H : kids_rel RI2 _ _ _ |- _ => inversion H; subst end;
    constructor; unfold RI, RL; eauto.
Qed.

(** What holds of every node of a tree carries over to a related tree. *)
Lemma all_dir_rel GD GL GD' GL' RI RL :
  (forall ns i i', GD ns i -> RI i i' -> GD' ns i') -> (forall t f f', GL t f -> RL t f f' -> GL' t f') ->
  (forall d, all_dir GD GL d -> forall d', tree_rel RI RL d d' -> all_dir GD' GL' d') /\
  (forall c, all_kids GD GL c -> forall c', kids_rel RI RL c c' -> all_kids GD' GL' c').
Proof.
  intros HD HL. apply all_dir_kids_ind; intros;
    match goal with H : tree_rel _ _ _ _ |- _ => inversion H; subst | H : kids_rel _ _ _ _ |- _ => inversion H; subst end;
    eauto with pe.
  constructor; [|eauto]. match goal with H : kids_rel _ _ _ _ |- _ => rewrite (kids_rel_names _ _ _ _ H) end. eauto.
Qed.

Lemma all_dir_map GD GL GD' GL' RI RL d d' :
  all_dir GD GL d -> tree_rel RI RL d d' ->
  (forall ns i i', GD ns i -> RI i i' -> GD' ns i') -> (forall t f f', GL t f -> RL t f f' -> GL' t f') ->
  all_dir GD' GL' d'.
Proof. intros Hd Hr HD HL. by apply (proj1 (all_dir_rel GD GL GD' GL' RI RL HD HL) d). Qed.

Lemma tree_rel_compose RI1 RI2 RL1 RL2 d d1 d2 :
  tree_rel RI1 RL1 d d1 -> tree_rel RI2 RL2 d1 d2 ->
  tree_rel (fun i i' => exists j, RI1 i j /\ RI2 j i') (fun t f f' => exists g, RL1 t f g /\ RL2 t g f') d d2.
Proof. intros H1 H2. by apply (proj1 (tree_rel_trans RI1 RI2 RL1 RL2) d d1). Qed.

(** * Walks *)

Section walk_ind.
Context {V : Type} `{TreeVisitor V}.
Context (P : V -> Dir -> V -> Dir -> Prop)
  (Q : V -> list (bstr * Dirent) -> V -> list (bstr * Dirent) -> Prop).

(** An induction principle: a directory is entered, its children are visited in
    order, it is left. *)
Record walk_cases : Prop := {
  walk_dir v d v1 d1 v2 c v3 d3 :
    on_dir_enter v d = Ok (v1, d1) -> Q v1 (d_children d1) v2 c ->
    on_dir_exit v2 (set_children c d1) = Ok (v3, d3) -> P v d v3 d3;
  walk_nil v : Q v [] v [];
  walk_file v n f v1 f1 c v2 c2 :
    on_file v f = Ok (v1, f1) -> Q v1 c v2 c2 -> Q v ((n, File f) :: c) v2 ((n, File f1) :: c2);
  walk_symlink v n s v1 s1 c v2 c2 :
    on_symlink v s = Ok (v1, s1) -> Q v1 c v2 c2 -> Q v ((n, Symlink s) :: c) v2 ((n, Symlink s1) :: c2);
  walk_sub v n d v1 d1 c v2 c2 :
    P v d v1 d1 -> Q v1 c v2 c2 -> Q v ((n, SubDir d) :: c) v2 ((n, SubDir d1) :: c2);
  walk_dot v n c v2 c2 : Q v c v2 c2 -> Q v ((n, Dot) :: c) v2 ((n, Dot) :: c2);
  walk_dotdot v n c v2 c2 : Q v c v2 c2 -> Q v ((n, DotDot) :: c) v2 ((n, DotDot) :: c2);
}.

Lemma walk_recur_ind (W : walk_cases) n v d v' d' : walk_recur n v d = Ok (v', d') -> P v d v' d'.
Proof.
  revert v d v' d'. induction n as [|n IH]; intros v d v' d'; simpl; [done|]. intros E.
  apply rbind_Ok_inv in E as ([v1 d1] & E1 & E). apply rbind_Ok_inv in E as ([v2 c] & E2 & E3).
  apply (walk_dir W v d v1 d1 v2 c); [done| |done]. clear E1 E3.
  revert v1 v2 c E2. induction (d_children d1) as [|[name child] cs IHc]; intros v1 v2 c E; simpl in E.
  { injection E as <- <-. apply W. }
  apply rbind_Ok_inv in E as ([v3 child'] & E3 & E). apply rbind_Ok_inv in E as ([v4 cs'] & E4 & [= <- <-]).
  specialize (IHc v3 v4 cs' E4).
  destruct child as [f|sub|s| |]; try (apply rbind_Ok_inv in E3 as ([v5 x] & E5 & [= <- <-]));
    try injection E3 as <- <-.
  - by apply (walk_file W _ _ _ v5).
  - apply (walk_sub W _ _ _ v5); [by apply IH|done].
  - by apply (walk_symlink W _ _ _ v5).
  - by apply W.
  - by apply W.
Qed.
End walk_ind.

(** Walks that do not change the shape of the tree: an invariant of the visitor
    and an order in which it advances, and what each node becomes.  What is known
    of a node stays true when the visitor advances. *)
Section walk_rel.
Context {V : Type} `{TreeVisitor V}.
Context (Inv : V -> Prop) (Ext : V -> V -> Prop).
Context (GD : list bstr -> DirInfo -> Prop) (GL : FileType.t -> Leaf -> Prop).
Context (RI : V -> DirInfo -> DirInfo -> Prop) (RL : V -> FileType.t -> Leaf -> Leaf -> Prop).

Record walk_keeps : Prop := {
  ext_refl v : Ext v v;
  ext_trans v1 v2 v3 : Ext v1 v2 -> Ext v2 v3 -> Ext v1 v3;
  ri_mono v v' i i' : Ext v v' -> RI v i i' -> RI v' i i';
  rl_mono v v' t f f' : Ext v v' -> RL v t f f' -> RL v' t f f';
  keep_enter v d v1 d1 :
    Inv v -> GD (d_children d).*1 (d_info d) -> on_dir_enter v d = Ok (v1, d1) ->
    Inv v1 /\ Ext v v1 /\ d_children d1 = d_children d /\ RI v1 (d_info d) (d_info d1);
  keep_exit v d : on_dir_exit v d = Ok (v, d);
  keep_file v f v1 f1 :
    Inv v -> GL FileType.RegularFile f -> on_file v f = Ok (v1, f1) ->
    Inv v1 /\ Ext v v1 /\ RL v1 FileType.RegularFile f f1;
  keep_symlink v s v1 s1 :
    Inv v -> GL FileType.Symlink s -> on_symlink v s = Ok (v1, s1) ->
    Inv v1 /\ Ext v v1 /\ RL v1 FileType.Symlink s s1;
}.

Context (K : walk_keeps).

Lemma tree_rel_ext v v' d d' : Ext v v' -> tree_rel (RI v) (RL v) d d' -> tree_rel (RI v') (RL v') d d'.
Proof. intros He. apply (tree_rel_mono (RI v) (RI v') (RL v) (RL v')); intros; [by eapply ri_mono|by eapply rl_mono]. Qed.

Lemma walk_tree_rel n v d v' d' :
  walk_recur n v d = Ok (v', d') -> Inv v -> all_dir GD GL d ->
  Inv v' /\ Ext v v' /\ tree_rel (RI v') (RL v') d d'.
Proof.
  apply (walk_recur_ind
    (fun v d v' d' => Inv v -> all_dir GD GL d -> Inv v' /\ Ext v v' /\ tree_rel (RI v') (RL v') d d')
    (fun v c v' c' => Inv v -> all_kids GD GL c -> Inv v' /\ Ext v v' /\ kids_rel (RI v') (RL v') c c')).
  clear n v d v' d'. constructor.
  - intros v [c i] v1 [c1 i1] v2 c2 v3 d3 He IH Hx Hv Hd. inversion Hd; subst.
    apply (keep_enter K) in He as (Hv1 & He & Hc & Hi); [|done..]. simpl in *. subst c1.
    destruct IH as (Hv2 & He2 & Hk); [done..|]. rewrite (keep_exit K) in Hx. injection Hx as <- <-.
    split; [done|]. split; [by eapply ext_trans|]. constructor; [by eapply (ri_mono K v1)|done].
  - intros v Hv _. split; [done|]. split; [by apply K|constructor].
  - intros v n f v1 f1 c v2 c2 Hf IH Hv Hd. inversion Hd; subst.
    apply (keep_file K) in Hf as (Hv1 & He & Hl); [|done..]. destruct IH as (Hv2 & He2 & Hk); [done..|].
    split; [done|]. split; [by eapply ext_trans|]. constructor; [by eapply (rl_mono K v1)|done].
  - intros v n f v1 f1 c v2 c2 Hf IH Hv Hd. inversion Hd; subst.
    apply (keep_symlink K) in Hf as (Hv1 & He & Hl); [|done..]. destruct IH as (Hv2 & He2 & Hk); [done..|].
    split; [done|]. split; [by eapply ext_trans|]. constructor; [by eapply (rl_mono K v1)|done].
  - intros v n d v1 d1 c v2 c2 IHd IH Hv Hd. inversion Hd; subst.
    destruct IHd as (Hv1 & He & Hl); [done..|]. destruct IH as (Hv2 & He2 & Hk); [done..|].
    split; [done|]. split; [by eapply ext_trans|]. constructor; [by eapply tree_rel_ext|done].
  - intros v n c v2 c2 IH Hv Hd. inversion Hd; subst. destruct IH as (Hv2 & He2 & Hk); [done..|]. auto with pe.
  - intros v n c v2 c2 IH Hv Hd. inversion Hd; subst. destruct IH as (Hv2 & He2 & Hk); [done..|]. auto with pe.
Qed.
End walk_rel.

(** * Reserving blocks *)

(** The directories have consecutive blocks, in pre-order: the directory itself
    from block [k] on, then its sub-directories up to block [k']. *)
Inductive laid : Z -> Dir -> Z -> Prop :=
  | laid_mk k c i k' :
      in_width 32 k -> dir_layout k (mk_dir c i) ->
      laid_kids (k + zlen (d_n_dirents_per_block i)) c k' -> laid k (mk_dir c i) k'
with laid_kids : Z -> list (bstr * Dirent) -> Z -> Prop :=
  | laid_nil k : laid_kids k [] k
  | laid_leaf k n e c k' : (forall d, e <> SubDir d) -> laid_kids k c k' -> laid_kids k ((n, e) :: c) k'
  | laid_sub k n d k1 c k' : laid k d k1 -> laid_kids k1 c k' -> laid_kids k ((n, SubDir d) :: c) k'.

Scheme laid_mut := Minimality for laid Sort Prop
  with laid_kids_mut := Minimality for laid_kids Sort Prop.
Combined Scheme laid_laid_kids_ind from laid_mut, laid_kids_mut.

Definition keeps_layout (i i' : DirInfo) : Prop :=
  d_start_block i' = d_start_block i /\ d_n_dirents_per_block i' = d_n_dirents_per_block i /\
  d_total_size i' = d_total_size i.

Lemma laid_rel (RI : DirInfo -> DirInfo -> Prop) (RL : FileType.t -> Leaf -> Leaf -> Prop) :
  (forall i i', RI i i' -> keeps_layout i i') ->
  (forall k d k', laid k d k' -> forall d', tree_rel RI RL d d' -> laid k d' k') /\
  (forall k c k', laid_kids k c k' -> forall c', kids_rel RI RL c c' -> laid_kids k c' k').
Proof.
  intros HR. apply laid_laid_kids_ind.
  - intros k c i k' Hk Hl _ IH d' Hd. inversion Hd as [? c' ? i' Hi Hc]; subst.
    destruct (HR _ _ Hi) as (H1 & H2 & H3). constructor; [done| |rewrite H2; by apply IH].
    apply (dir_layout_same _ (mk_dir c i)); [|done]. split; [by apply (kids_rel_names _ _ _ _ Hc)|]. done.
  - intros k c' Hc. inversion Hc; constructor.
  - intros k n e c k' He _ IH c' Hc. inversion Hc; subst; try (constructor; [done|by apply IH]).
    by destruct (He d).
  - intros k n d k1 c k' _ IHd _ IHc c' Hc. inversion Hc; subst. eapply laid_sub; eauto.
Qed.

Lemma dir_layout_blocks k d : dir_layout k d -> 0 < zlen (d_n_dirents_per_block (d_info d)).
Proof.
  intros (full & cur & _ & _ & _ & -> & _). unfold zlen. rewrite length_fmap, length_app. simpl. lia.
Qed.

(** A directory has at least one block. *)
Lemma laid_bounds :
  (forall k d k', laid k d k' -> 0 <= k < k') /\ (forall k c k', laid_kids k c k' -> k <= k').
Proof.
  apply laid_laid_kids_ind; intros; try lia. unfold in_width in *.
  match goal with H : dir_layout _ _ |- _ => apply dir_layout_blocks in H; simpl in H end. lia.
Qed.

(** What the packing needs of a directory. *)
Definition packable (ns : list bstr) (i : DirInfo) : Prop :=
  ns <> [] /\ zlen ns < 2 ^ 32 /\ Forall (fun n => 12 + zlen n <= 4096) ns /\ d_n_dirents_per_block i = [].

(** What the reservation keeps and sets. *)
Definition reserved (i i' : DirInfo) : Prop :=
  d_meta i' = d_meta i /\ d_disk_id i' = d_disk_id i /\
  in_width 32 (d_start_block i') /\ in_width 63 (d_total_size i').

Lemma prepare_on_dir_enter_spec b d b' d' :
  b_block_size_bits b = 12 -> packable (d_children d).*1 (d_info d) ->
  prepare_on_dir_enter b d = Ok (b', d') ->
  exists st, b' = set_cur_data_block (b_cur_data_block b + zlen (d_n_dirents_per_block (d_info d')))
             (set_stats st (set_n_dirs (wadd 64 (b_n_dirs b) 1) b)) /\
  d_children d' = d_children d /\ reserved (d_info d) (d_info d') /\
  in_width 32 (b_cur_data_block b) /\ dir_layout (b_cur_data_block b) d'.
Proof.
  intros Hb (Hne & Hl & Hn & Hp). unfold prepare_on_dir_enter.
  assert (b_block_size b = 4096) as -> by (unfold b_block_size; by rewrite Hb). intros E.
  apply rbind_Ok_inv in E as ([n d1] & E & [= <- <-]). exists (count_dir (b_stats b)).
  assert (zlen (d_children d) = zlen (d_children d).*1) as Hlc by (unfold zlen; by rewrite length_fmap).
  assert (in_width 32 (b_cur_data_block b)) as Hw.
  { unfold prepare_dirent_data in E. apply rbind_Ok_inv in E as (s & E & _).
    apply ok_or_Ok, try_into_Some in E. apply E. }
  destruct (prepare_dirent_data_spec 4096 (b_cur_data_block b) d)
    as (full & cur & d2 & E' & Hc & Hf & H1 & H2 & H3 & H4); [lia|done|by destruct (d_children d)|done..|lia|].
  assert (d_meta (d_info d1) = d_meta (d_info d) /\ d_disk_id (d_info d1) = d_disk_id (d_info d)) as [Hm1 Hd1].
  { clear -E. unfold prepare_dirent_data in E. apply rbind_Ok_inv in E as (s & _ & E).
    destruct (fold_left _ _ _) as [[? ?] ?]. destruct (negb (_ =? 0)); destruct (negb _); by simplify_eq. }
  rewrite E' in E. injection E as <- <-.
  assert (zlen (d_n_dirents_per_block (d_info d2)) = zlen full + 1) as Hz.
  { rewrite H3. unfold zlen. rewrite length_fmap, length_app. simpl. lia. }
  assert (zlen full <= zlen (d_children d)) as Hfl.
  { rewrite Hlc, <-Hc, zlen_app. clear -Hf. apply Forall_app in Hf as [Hf _].
    induction Hf as [|g gs [Hg _] _ IH]; csimpl; [len_lia|]. destruct g; [done|]. len_lia. }
  unfold in_width in *. rewrite Hz. split; [rewrite wadd_small by (unfold in_width; len_lia); done|].
  split; [done|]. split; [|split; [done|]].
  - split; [done|]. split; [done|]. rewrite H2, H4. apply Forall_app in Hf as [_ [[_ Hs] _]%Forall_cons].
    pose proof (names_size_bound cur). unfold in_width. len_lia.
  - exists full, cur. by rewrite H1.
Qed.

Lemma prepare_walk_laid n v d v' d' :
  walk_recur n v d = Ok (v', d') ->
  let b := pd_builder v in let b' := pd_builder v' in
  b_block_size_bits b = 12 -> all_dir packable (fun _ _ => True) d ->
  b_block_size_bits b' = 12 /\ laid (b_cur_data_block b) d' (b_cur_data_block b').
Proof.
  apply (walk_recur_ind
    (fun v d v' d' => let b := pd_builder v in let b' := pd_builder v' in
       b_block_size_bits b = 12 -> all_dir packable (fun _ _ => True) d ->
       b_block_size_bits b' = 12 /\ laid (b_cur_data_block b) d' (b_cur_data_block b'))
    (fun v c v' c' => let b := pd_builder v in let b' := pd_builder v' in
       b_block_size_bits b = 12 -> all_kids packable (fun _ _ => True) c ->
       b_block_size_bits b' = 12 /\ laid_kids (b_cur_data_block b) c' (b_cur_data_block b') /\ c'.*1 = c.*1)).
  clear n v d v' d'. constructor; cbn [pd_builder].
  - intros v [c i] v1 [c1 i1] v2 c2 v3 d3 He IH [= <- <-] Hb Hd. inversion Hd; subst. simpl in He.
    apply rbind_Ok_inv in He as ([b1 d1] & He & [= <- ->]).
    apply prepare_on_dir_enter_spec in He as (st & -> & Hc & Hr & Hw & Hlay); [|done..]. simpl in *. subst c1.
    destruct IH as (Hb2 & Hk & Hn); [done..|]. split; [done|]. constructor; [done| |done].
    by apply (dir_layout_same _ (mk_dir c i1)).
  - auto using laid_nil.
  - intros v n f v1 f1 c v2 c2 [= <- <-] IH Hb Hd. inversion Hd; subst.
    destruct IH as (? & ? & Hn); [done..|]. split; [done|]. split; [by constructor|csimpl; by rewrite Hn].
  - intros v n f v1 f1 c v2 c2 [= <- <-] IH Hb Hd. inversion Hd; subst.
    destruct IH as (? & ? & Hn); [done..|]. split; [done|]. split; [by constructor|csimpl; by rewrite Hn].
  - intros v n d v1 d1 c v2 c2 IHd IH Hb Hd. inversion Hd; subst.
    destruct IHd; [done..|]. destruct IH as (? & ? & Hn); [done..|].
    split; [done|]. split; [by eapply laid_sub|csimpl; by rewrite Hn].
  - intros v n c v2 c2 IH Hb Hd. inversion Hd; subst. destruct IH as (? & ? & Hn); [done..|].
    split; [done|]. split; [by constructor|csimpl; by rewrite Hn].
  - intros v n c v2 c2 IH Hb Hd. inversion Hd; subst. destruct IH as (? & ? & Hn); [done..|].
    split; [done|]. split; [by constructor|csimpl; by rewrite Hn].
Qed.

(** The rest of the builder. *)
Definition same_output (b b' : Builder) : Prop :=
  b_writer b' = b_writer b /\ b_block_size_bits b' = b_block_size_bits b /\
  b_name_buf b' = b_name_buf b /\ b_superblock b' = b_superblock b /\ b_n_inodes b' = b_n_inodes b.

Lemma prepare_keeps :
  walk_keeps (fun v => b_block_size_bits (pd_builder v) = 12)
    (fun v v' => same_output (pd_builder v) (pd_builder v')) packable (fun _ _ => True)
    (fun _ => reserved) (fun _ _ f f' => f' = f).
Proof.
  constructor; try done.
  - intros v1 v2 v3 (?&?&?&?&?) (?&?&?&?&?). split_and!; congruence.
  - intros v d v1 d1 Hb Hg E. simpl in E. apply rbind_Ok_inv in E as ([b1 d2] & E & [= <- ->]).
    apply prepare_on_dir_enter_spec in E as (st & -> & Hc & Hr & _ & _); [|done..].
    split; [exact Hb|]. split; [done|]. split; [exact Hc|exact Hr].
  - by intros v f v1 f1 Hb _ [= <- <-].
  - by intros v f v1 f1 Hb _ [= <- <-].
Qed.

Lemma prepare_walk_rel n v d v' d' :
  walk_recur n v d = Ok (v', d') -> b_block_size_bits (pd_builder v) = 12 ->
  all_dir packable (fun _ _ => True) d ->
  same_output (pd_builder v) (pd_builder v') /\ tree_rel reserved (fun _ f f' => f' = f) d d'.
Proof. intros E Hb Hd. by destruct (walk_tree_rel _ _ _ _ _ _ prepare_keeps _ _ _ _ _ E Hb Hd) as (_ & H1 & H2). Qed.

(** * Writing inodes *)

(** What the conversions of [rustix] guarantee for permission bits. *)
Class RustixFileTypeLaws `{RustixFileType} : Prop := {
  raw_mode_nonneg t : 0 <= as_raw_mode t;
  raw_mode_type t m :
    t = FileType.RegularFile \/ t = FileType.Directory \/ t = FileType.Symlink -> 0 <= m < 4096 ->
    from_raw_mode (Z.lor (as_raw_mode t) m) = t;
}.

#[export] Instance linux_file_type_laws : RustixFileTypeLaws.
Proof.
  split; [by intros []|]. intros t m Ht Hm.
  assert (Z.land m S_IFMT = 0) as Hz.
  { rewrite <-(Z.mod_small m (2 ^ 12)) by (change (2 ^ 12) with 4096; lia).
    rewrite <-Z.land_ones, <-Z.land_assoc by lia. change (Z.land (Z.ones 12) S_IFMT) with 0. apply Z.land_0_r. }
  unfold from_raw_mode, as_raw_mode, linux_file_types. rewrite Z.land_lor_distr_l, Hz, Z.lor_0_r.
  by destruct Ht as [->|[-> | ->]].
Qed.

Definition good_meta (m : Meta) : Prop :=
  in_width 32 (m_uid m) /\ in_width 32 (m_gid m) /\ in_width 64 (m_mtime m) /\
  0 <= m_mode m < 4096 /\ zlen (m_xattrs m) < 2 ^ 32.

(** What the inode passes need of a directory, and of a leaf: values that fit
    the fields of an inode, no disk id yet, and not the size that the builder
    loses ([full_block_inode_lost]). *)
Definition dir_writable (i : DirInfo) : Prop :=
  d_disk_id i = None /\ in_width 32 (d_start_block i) /\ in_width 63 (d_total_size i) /\
  good_meta (d_meta i) /\ inode_total (m_xattrs (d_meta i)) None <> 4096.
Definition leaf_writable (f : Leaf) : Prop :=
  l_disk_id f = None /\ in_width 64 (l_len f) /\ in_width 32 (l_start_block f) /\
  in_width 32 (l_n_links f) /\ good_meta (l_meta f) /\
  inode_total (m_xattrs (l_meta f)) (l_tail f) <> 4096.

(** An inode is in the image under its disk id. *)
Definition inode_at (mb : Z) (bytes : list byte) (id : Z) (inode : InodeExtended) (tail : option bstr) : Prop :=
  in_width 32 id /\
  exists count xb, let chunk := inode_chunk (set_xattr_count count inode) xb tail in
  pod_ok (set_xattr_count count inode) /\ zlen xb = xattr_count_to_len count /\ zlen chunk <= 4096 /\
  get_range bytes (mb * 4096 + 32 * id) (mb * 4096 + 32 * id + zlen chunk) = Some chunk.

Lemma write_past_end data o :
  zlen (o_bytes o) <= o_pos o -> data <> [] ->
  o_bytes (write_all data o) = o_bytes o ++ zeros (o_pos o - zlen (o_bytes o)) ++ data.
Proof.
  intros Hp Hd. unfold write_all. simpl. rewrite decide_False by done. unfold put.
  pose proof (zlen_nonneg data). rewrite ztake_ge, zdrop_ge, app_nil_r by lia. done.
Qed.

Lemma get_range_prefix_of {A} (x y : list A) a b r :
  0 <= a -> x `prefix_of` y -> get_range x a b = Some r -> get_range y a b = Some r.
Proof.
  intros Ha [k ->] Hr. pose proof (get_range_length _ _ _ _ Ha Hr) as (_ & Hb & _).
  by rewrite get_range_prefix.
Qed.

Lemma inode_at_prefix mb x y id inode tail :
  0 <= mb -> x `prefix_of` y -> inode_at mb x id inode tail -> inode_at mb y id inode tail.
Proof.
  intros Hmb Hp (Hid & count & xb & H1 & H2 & H3 & Hr). split; [done|]. exists count, xb.
  split; [done|]. split; [done|]. split; [done|]. unfold in_width in Hid.
  eapply get_range_prefix_of; [lia|exact Hp|exact Hr].
Qed.

Definition fixed_fields (b b' : Builder) : Prop :=
  b_block_size_bits b' = b_block_size_bits b /\ b_meta_block b' = b_meta_block b /\
  b_superblock b' = b_superblock b /\ b_name_buf b' = b_name_buf b /\
  b_cur_data_block b' = b_cur_data_block b.

Lemma write_xattr_entries_writer entries xattrs b b' :
  write_xattr_entries entries xattrs b = Ok b' -> exists o, b' = set_writer o b.
Proof.
  revert xattrs b. induction entries as [|[pl e] entries IH]; intros xattrs b; simpl.
  { intros [= <-]. exists (b_writer b). by destruct b. }
  destruct xattrs as [|[key value] xattrs]; [intros [= <-]; exists (b_writer b); by destruct b|].
  intros E. apply rbind_Ok_inv in E as (name & _ & E). apply IH in E as [o ->]. by exists o.
Qed.

Lemma write_inode_fields inode tail xattrs b id b' :
  write_inode inode tail xattrs b = Ok (id, b') ->
  fixed_fields b b' /\ in_width 64 (b_n_inodes b').
Proof.
  unfold write_inode. set (b1 := set_n_inodes _ b).
  assert (fixed_fields b b1 /\ in_width 64 (b_n_inodes b1)) as H1 by (split; [done|by apply wadd_in_width]).
  clearbody b1. intros E. apply rbind_Ok_inv in E as (entries & _ & E).
  apply rbind_Ok_inv in E as (count & _ & E). destruct (_ <? _); [done|].
  set (total := _ + zlen (tail_bytes tail)) in E. clearbody total.
  assert (fixed_fields b (advance_inode_addr total b1) /\ in_width 64 (b_n_inodes (advance_inode_addr total b1))) as H2.
  { unfold advance_inode_addr, zero_fill_block, zero_fill. by repeat destruct (negb _). }
  set (b2 := advance_inode_addr total b1) in *. clearbody b2.
  apply rbind_Ok_inv in E as (id' & _ & E). apply rbind_Ok_inv in E as (b3 & E3 & E).
  assert (exists o, b3 = set_writer o b2) as [o ->].
  { unfold write_xattrs in E3. destruct (decide _); [injection E3 as <-; by eexists|].
    apply rbind_Ok_inv in E3 as (b4 & E4 & [= <-]). apply write_xattr_entries_writer in E4 as [o ->]. by eexists. }
  unfold zero_fill in E. destruct tail, (negb _); simpl in E; injection E as _ <-; exact H2.
Qed.

(** The builder between two inodes, at the end of the output. *)
Definition writing (mb : Z) (b : Builder) : Prop :=
  inode_cursor mb b /\ zlen (o_bytes (b_writer b)) <= o_pos (b_writer b) /\ in_width 64 (b_n_inodes b).
Definition advances (b b' : Builder) : Prop :=
  fixed_fields b b' /\ o_bytes (b_writer b) `prefix_of` o_bytes (b_writer b').

Lemma advances_trans b1 b2 b3 : advances b1 b2 -> advances b2 b3 -> advances b1 b3.
Proof.
  intros [(?&?&?&?&?) Hp1] [(?&?&?&?&?) Hp2]. split; [split_and!; congruence|by trans (o_bytes (b_writer b2))].
Qed.

Lemma write_inode_at mb inode tail xattrs b id b' :
  writing mb b -> pod_ok inode -> zlen xattrs < 2 ^ 32 -> inode_total xattrs tail <> 4096 ->
  write_inode inode tail xattrs b = Ok (id, b') ->
  writing mb b' /\ advances b b' /\ inode_at mb (o_bytes (b_writer b')) id inode tail.
Proof.
  intros (Hcur & Hend & Hni) Hok Hx Hne Hw. pose proof Hcur as (Hb & Hm & Hmb & Hp & _ & Hlo & _).
  pose proof (write_inode_fields _ _ _ _ _ _ Hw) as [Hf Hni'].
  apply (write_inode_spec mb) in Hw as (count & xb & Hok' & Hxb & Htot & Hsz & Hrest); [|done..].
  destruct Hrest as (pre & pd & Hpre & Hpd & Hwr & Hid & Hidw & Ha & Hal & Hblk); [by intros [_ ?]|].
  set (chunk := inode_chunk _ xb tail) in *. set (data := zeros pre ++ chunk ++ zeros pd) in *.
  assert (zlen data = pre + zlen chunk + pd) as Hdl by (unfold data; rewrite !zlen_app, !zlen_zeros by lia; lia).
  assert (data <> []) as Hd0 by (intros H0; rewrite H0, zlen_nil in Hdl; lia).
  pose proof (write_past_end data (b_writer b) Hend Hd0) as Hpe. rewrite <-Hwr in Hpe.
  rewrite Hpe. unfold in_width in *.
  pose proof (zlen_nonneg (o_bytes (b_writer b))).
  split; [split; [|split]|split; [split|]].
  - destruct Hf as (F1 & F2 & _). split; [by rewrite F1|]. split; [by rewrite F2|]. split; [done|].
    rewrite Hwr. simpl. unfold in_width. split; [lia|]. split; [done|lia].
  - rewrite Hpe. rewrite Hwr. simpl.
    rewrite !zlen_app, zlen_zeros by lia. lia.
  - done.
  - done.
  - rewrite Hpe. by apply prefix_app_r.
  - split; [done|]. exists count, xb. fold chunk. split; [done|]. split; [done|]. split; [lia|].
    unfold data. rewrite (app_assoc (zeros (o_pos _ - _))), (app_assoc (o_bytes _)).
    apply get_range_app; rewrite !zlen_app, !zlen_zeros by lia; lia.
Qed.

Section passes.
Context `{RustixFileTypeLaws}.

Lemma make_inode_ok t size start m tail n inode :
  good_meta m -> in_width 64 size -> in_width 32 start -> in_width 32 n ->
  make_inode t size start m tail n = Ok inode -> pod_ok inode.
Proof.
  intros (Hu & Hg & Ht & Hm & _) Hs Hst Hn. unfold make_inode, make_mode.
  destruct (Z.ltb_spec u16_max (Z.lor (as_raw_mode t) (m_mode m))) as [|Hr]; [done|]. intros [= <-].
  assert (0 <= Z.lor (as_raw_mode t) (m_mode m)) by (apply Z.lor_nonneg; split; [apply raw_mode_nonneg|lia]).
  unfold in_width, u16_max in *. simpl. unfold int_ok, bytes_ok.
  change (256 ^ Z.of_nat 2) with 65536. change (256 ^ Z.of_nat 4) with (2 ^ 32).
  change (256 ^ Z.of_nat 8) with (2 ^ 64). rewrite length_le_bytes.
  assert (0 <= format_layout ExtendedType (match tail with Some _ => FlatInline | None => FlatPlain end) < 65536)
    by (destruct tail; vm_compute; split; congruence).
  split_and!; try done; lia.
Qed.

(** What the inode passes make of a directory and of a leaf. *)
Definition dir_written (mb : Z) (bytes : list byte) (i i' : DirInfo) : Prop :=
  exists id inode, d_disk_id i' = Some id /\ keeps_layout i i' /\ d_meta i' = d_meta i /\
    make_inode FileType.Directory (d_total_size i) (d_start_block i) (d_meta i) None 1 = Ok inode /\
    inode_at mb bytes id inode None.
Definition leaf_written (mb : Z) (bytes : list byte) (t : FileType.t) (f f' : Leaf) : Prop :=
  exists id inode, f' = set_leaf_disk_id (Some id) f /\
    make_inode t (l_len f) (l_start_block f) (l_meta f) (l_tail f) (l_n_links f) = Ok inode /\
    inode_at mb bytes id inode (l_tail f).

Lemma write_dir_inode_spec mb b d b' d' :
  writing mb b -> dir_writable (d_info d) -> write_dir_inode b d = Ok (b', d') ->
  writing mb b' /\ advances b b' /\ d_children d' = d_children d /\
  dir_written mb (o_bytes (b_writer b')) (d_info d) (d_info d').
Proof.
  intros Hw (Hd & Hs & Ht & Hm & Hne). unfold write_dir_inode. intros E.
  apply rbind_Ok_inv in E as (inode & Hi & E). apply rbind_Ok_inv in E as ([id b1] & E1 & E).
  rewrite Hd in E. injection E as <- <-. pose proof Hm as (_ & _ & _ & _ & Hx).
  apply (write_inode_at mb) in E1 as (H1 & H2 & H3); [|done| |done..].
  2: { eapply make_inode_ok; [exact Hm| | | |exact Hi]; unfold in_width in *; lia. }
  split; [done|]. split; [done|]. split; [done|]. by exists id, inode.
Qed.

Lemma write_leaf_inode_spec mb t b f b' f' :
  writing mb b -> leaf_writable f -> write_leaf_inode t b f = Ok (b', f') ->
  writing mb b' /\ advances b b' /\ leaf_written mb (o_bytes (b_writer b')) t f f'.
Proof.
  intros Hw (Hd & Hl & Hs & Hn & Hm & Hne). unfold write_leaf_inode. intros E.
  apply rbind_Ok_inv in E as (inode & Hi & E). apply rbind_Ok_inv in E as ([id b1] & E1 & E).
  rewrite Hd in E. injection E as <- <-. pose proof Hm as (_ & _ & _ & _ & Hx).
  apply (write_inode_at mb) in E1 as (H1 & H2 & H3); [|done| |done..].
  2: { eapply make_inode_ok; [exact Hm| | | |exact Hi]; done. }
  split; [done|]. split; [done|]. by exists id, inode.
Qed.

Lemma dir_written_mono mb x y i i' :
  0 <= mb -> x `prefix_of` y -> dir_written mb x i i' -> dir_written mb y i i'.
Proof.
  intros Hmb Hp (id & inode & H1 & H2 & H3 & H4 & H5). exists id, inode.
  split_and!; try done. by eapply inode_at_prefix.
Qed.

Lemma leaf_written_mono mb x y t f f' :
  0 <= mb -> x `prefix_of` y -> leaf_written mb x t f f' -> leaf_written mb y t f f'.
Proof.
  intros Hmb Hp (id & inode & H1 & H2 & H3). exists id, inode. split_and!; try done. by eapply inode_at_prefix.
Qed.

Section keeps.
Context (mb : Z) (Hmb : 0 <= mb).

Lemma dir_inodes_keeps :
  walk_keeps (fun v => writing mb (wdi_builder v)) (fun v v' => advances (wdi_builder v) (wdi_builder v'))
    (fun _ => dir_writable) (fun _ _ => True)
    (fun v => dir_written mb (o_bytes (b_writer (wdi_builder v)))) (fun _ _ f f' => f' = f).
Proof.
  constructor; try done.
  - intros v1 v2 v3. apply advances_trans.
  - intros v v' i i' [_ Hp]. by apply dir_written_mono.
  - intros v d v1 d1 Hw Hg E. simpl in E. apply rbind_Ok_inv in E as ([b1 d2] & E & [= <- ->]).
    by apply (write_dir_inode_spec mb) in E.
  - by intros v f v1 f1 Hw _ [= <- <-].
  - by intros v f v1 f1 Hw _ [= <- <-].
Qed.

(** The second walk: the inodes of the directories. *)
Lemma dir_inodes_walk n v d v' d' :
  walk_recur n v d = Ok (v', d') -> let b := wdi_builder v in let b' := wdi_builder v' in
  writing mb b -> all_dir (fun _ => dir_writable) (fun _ _ => True) d ->
  writing mb b' /\ advances b b' /\
  tree_rel (dir_written mb (o_bytes (b_writer b'))) (fun _ f f' => f' = f) d d'.
Proof. intros E b b' Hw Hd. by apply (walk_tree_rel _ _ _ _ _ _ dir_inodes_keeps) in E. Qed.

Lemma leaf_inodes_keeps :
  walk_keeps (fun v => writing mb (wi_builder v)) (fun v v' => advances (wi_builder v) (wi_builder v'))
    (fun _ _ => True) (fun _ => leaf_writable)
    (fun _ i i' => i' = i) (fun v => leaf_written mb (o_bytes (b_writer (wi_builder v)))).
Proof.
  constructor; try done.
  - intros v1 v2 v3. apply advances_trans.
  - intros v v' t f f' [_ Hp]. by apply leaf_written_mono.
  - by intros v d v1 d1 Hw _ [= <- <-].
  - intros v f v1 f1 Hw Hg E. simpl in E. apply rbind_Ok_inv in E as ([b1 d2] & E & [= <- ->]).
    by apply (write_leaf_inode_spec mb) in E.
  - intros v f v1 f1 Hw Hg E. simpl in E. apply rbind_Ok_inv in E as ([b1 d2] & E & [= <- ->]).
    by apply (write_leaf_inode_spec mb) in E.
Qed.

(** The third walk: the inodes of files and symlinks. *)
Lemma leaf_inodes_walk n v d v' d' :
  walk_recur n v d = Ok (v', d') -> let b := wi_builder v in let b' := wi_builder v' in
  writing mb b -> all_dir (fun _ _ => True) (fun _ => leaf_writable) d ->
  writing mb b' /\ advances b b' /\
  tree_rel (fun i i' => i' = i) (leaf_written mb (o_bytes (b_writer b'))) d d'.
Proof. intros E b b' Hw Hd. by apply (walk_tree_rel _ _ _ _ _ _ leaf_inodes_keeps) in E. Qed.
End keeps.
End passes.
