(* ===== verification/ErofsWhole.v ===== *)
(** The whole image (src/peerofs/src/build.rs against src/peerofs/src/disk.rs):
    what the builder finishes is a file system in which the reader finds every
    path of the builder's tree.

    The fourth walk writes the entries of all directories into the blocks reserved
    for them, without touching anything else; with the inodes of the second and
    third walk and the superblock this makes an image that [lookup] resolves. *)
From stdpp Require Import option base list numbers strings.
From Stdlib Require Import ZArith Lia.
From S2P Require Import Prelude MemFile BTree Paths ErofsDisk ErofsBuild ErofsTree ErofsImage ErofsWalk.
#[local] Open Scope Z_scope.
#[local] Open Scope result_scope.

(** * Changes to a part of the output *)

(** Only bytes of [lo, hi) differ. *)
Definition outside (lo hi : Z) (x y : list byte) : Prop :=
  zlen y = zlen x /\
  forall a b, 0 <= a <= b -> b <= lo \/ hi <= a -> b <= zlen x -> get_range y a b = get_range x a b.

Lemma outside_refl lo hi x : outside lo hi x x.
Proof. done. Qed.

Lemma outside_trans lo hi x y z : outside lo hi x y -> outside lo hi y z -> outside lo hi x z.
Proof.
  intros [H1 H2] [H3 H4]. split; [by rewrite H3|]. intros a b Hab Hr Hb. rewrite H4, H2; [done..|lia].
Qed.

Lemma outside_weaken lo hi lo' hi' x y : lo' <= lo -> hi <= hi' -> outside lo hi x y -> outside lo' hi' x y.
Proof. intros Hl Hh [H1 H2]. split; [done|]. intros a b Hab Hr Hb. apply H2; [done|lia|done]. Qed.

Lemma outside_range lo hi x y a b r :
  0 <= a -> b <= lo \/ hi <= a -> outside lo hi x y -> get_range x a b = Some r -> get_range y a b = Some r.
Proof.
  intros Ha Hr [H1 H2] Hg. pose proof (get_range_length _ _ _ _ Ha Hg) as (_ & Hb & Hab).
  by rewrite H2.
Qed.

Lemma write_outside data pos o lo hi :
  0 <= lo <= pos -> pos + zlen data <= hi -> pos + zlen data <= zlen (o_bytes o) ->
  outside lo hi (o_bytes o) (o_bytes (write_all data (seek pos o))).
Proof.
  intros Hlo Hhi Hz. unfold write_all. simpl. destruct (decide (data = [])); [apply outside_refl|].
  split; [rewrite zlen_put by lia; lia|]. intros a b Hab Hr Hb.
  pose proof (zlen_nonneg data).
  destruct Hr as [Hr|Hr]; [apply put_read_below; lia|apply put_read_above; lia].
Qed.

(** * Writing the entries of all directories *)

Section dirs_at.
Context (bytes : list byte).

(** The entries of every directory of a tree are in the output, with the disk
    ids that the tree has; [ps] are the disk ids of the directories above. *)
Inductive dirs_at : list Z -> Dir -> Prop :=
  | dirs_at_mk ps c i id items :
      d_disk_id i = Some id -> mapM (item_of (Some id) ps) c = Some items ->
      dirents_at bytes (d_start_block i) (d_total_size i) items ->
      dirs_at_kids (ps ++ [id]) c -> dirs_at ps (mk_dir c i)
with dirs_at_kids : list Z -> list (bstr * Dirent) -> Prop :=
  | dirs_at_nil ps : dirs_at_kids ps []
  | dirs_at_leaf ps n e c : (forall d, e <> SubDir d) -> dirs_at_kids ps c -> dirs_at_kids ps ((n, e) :: c)
  | dirs_at_sub ps n d c : dirs_at ps d -> dirs_at_kids ps c -> dirs_at_kids ps ((n, SubDir d) :: c).
End dirs_at.

Lemma dirents_at_outside lo hi x y start size items :
  0 <= start -> start * 4096 + size <= lo \/ hi <= start * 4096 -> outside lo hi x y ->
  dirents_at x start size items -> dirents_at y start size items.
Proof.
  intros Hs Hr Ho (data & s & Hg & Hi). exists data, s. split; [|done].
  eapply outside_range; [|exact Hr|exact Ho|exact Hg]. lia.
Qed.

Lemma dir_layout_size k d :
  dir_layout k d -> d_start_block (d_info d) = k /\
  0 <= d_total_size (d_info d) <= zlen (d_n_dirents_per_block (d_info d)) * 4096.
Proof.
  intros (full & cur & _ & Hf & H1 & H2 & H3). split; [done|]. rewrite H2, H3.
  apply Forall_app in Hf as [_ [[_ Hs] _]%Forall_cons]. pose proof (names_size_bound cur).
  assert (zlen (zlen <$> full ++ [cur]) = zlen full + 1) as ->
    by (unfold zlen; rewrite length_fmap, length_app; simpl; lia).
  pose proof (zlen_nonneg full). pose proof (zlen_nonneg cur). lia.
Qed.

(** Writing elsewhere keeps the entries of a laid out tree. *)
Lemma dirs_at_outside lo hi x y :
  outside lo hi x y ->
  (forall k d k', laid k d k' -> k' * 4096 <= lo \/ hi <= k * 4096 ->
     forall ps, dirs_at x ps d -> dirs_at y ps d) /\
  (forall k c k', laid_kids k c k' -> k' * 4096 <= lo \/ hi <= k * 4096 ->
     forall ps, dirs_at_kids x ps c -> dirs_at_kids y ps c).
Proof.
  intros Ho. apply laid_laid_kids_ind.
  - intros k c i k' Hk Hlay Hkids IH Hr ps Hd. inversion Hd; subst.
    pose proof (proj2 laid_bounds _ _ _ Hkids). pose proof (dir_layout_size _ _ Hlay) as [Hst Hsz]. simpl in *.
    unfold in_width in Hk. econstructor; [done..| |apply IH; [lia|done]].
    eapply dirents_at_outside; [lia| |exact Ho|done]. lia.
  - intros k _ ps _. constructor.
  - intros k n e c k' He _ IH Hr ps Hd. apply dirs_at_leaf; [done|]. apply IH; [done|].
    inversion Hd; subst; done.
  - intros k n d k1 c k' Hl IHd Hk IHc Hr ps Hd.
    pose proof (proj1 laid_bounds _ _ _ Hl). pose proof (proj2 laid_bounds _ _ _ Hk).
    inversion Hd as [|? ? ? ? Hn|]; subst; [by destruct (Hn d)|].
    apply dirs_at_sub; [apply IHd; [lia|done]|apply IHc; [lia|done]].
Qed.

(** What the entries pass needs of a directory and of a leaf. *)
Definition dir_listed (ns : list bstr) (i : DirInfo) : Prop :=
  Forall (fun n => x00 ∉ n) ns /\ zlen ns < 2 ^ 32 /\ exists id, d_disk_id i = Some id /\ in_width 32 id.
Definition leaf_listed (t : FileType.t) (f : Leaf) : Prop := exists id, l_disk_id f = Some id /\ in_width 32 id.

Lemma child_ids_ok dir_id ps c :
  all_kids dir_listed leaf_listed c -> in_width 32 dir_id -> Forall (in_width 32) ps ->
  forall x id, x ∈ c -> child_disk_id (Some dir_id) ps x.2 = Some id -> in_width 32 id.
Proof.
  intros Ha Hid Hps. induction Ha; intros x id' Hx; [by apply elem_of_nil in Hx|..];
    apply elem_of_cons in Hx as [->|Hx]; try (by apply IHHa); simpl.
  - destruct H as (j & -> & ?). by intros [= <-].
  - destruct H as (j & -> & ?). by intros [= <-].
  - inversion H as [? ? (_ & _ & j & Hj & ?)]; subst. simpl. rewrite Hj. by intros [= <-].
  - by intros [= <-].
  - destruct (list.last ps) eqn:El; intros [= <-]; [|done].
    apply last_Some_elem_of in El. rewrite Forall_forall in Hps. by apply Hps.
Qed.

(** The builder during the pass: it is at the block it believes to be at, apart
    from the beginning of the pass, when it is behind the last inode. *)
Definition listing (mb : Z) (v : WriteDirents) : Prop :=
  let b := wd_builder v in
  b_block_size_bits b = 12 /\ b_name_buf b = [] /\
  (b_cur_data_block b <> mb -> o_pos (b_writer b) = b_cur_data_block b * 4096) /\
  Forall (in_width 32) (wd_parents v) /\ mb * 4096 <= zlen (o_bytes (b_writer b)).

(** What the pass changes between two states of the visitor. *)
Definition listed (mb k k' : Z) (v v' : WriteDirents) : Prop :=
  let b := wd_builder v in let b' := wd_builder v' in
  listing mb v' /\ outside (k * 4096) (k' * 4096) (o_bytes (b_writer b)) (o_bytes (b_writer b')) /\
  b_meta_block b' = b_meta_block b /\ b_superblock b' = b_superblock b /\ b_n_inodes b' = b_n_inodes b.

Lemma listed_refl mb k v : listing mb v -> listed mb k k v v.
Proof. done. Qed.

Lemma listed_trans mb k k1 k' v v1 v' :
  k <= k1 <= k' -> listed mb k k1 v v1 -> listed mb k1 k' v1 v' -> listed mb k k' v v'.
Proof.
  intros Hk (Hl1 & Ho1 & ? & ? & ?) (Hl2 & Ho2 & ? & ? & ?). split; [done|]. split; [|split_and!; congruence].
  eapply outside_trans; [eapply outside_weaken; [| |exact Ho1]|eapply outside_weaken; [| |exact Ho2]]; lia.
Qed.

(** Entering one directory. *)
Lemma write_dirents_listed mb k d v v' d' :
  dir_layout k d -> in_width 32 k -> let n := zlen (d_n_dirents_per_block (d_info d)) in
  k + n <= mb -> listing mb v -> dir_listed (d_children d).*1 (d_info d) ->
  all_kids dir_listed leaf_listed (d_children d) ->
  write_dirents_on_enter v d = Ok (v', d') ->
  exists id items, d' = d /\ d_disk_id (d_info d) = Some id /\ wd_parents v' = wd_parents v ++ [id] /\
    mapM (item_of (Some id) (wd_parents v)) (d_children d) = Some items /\
    dirents_at (o_bytes (b_writer (wd_builder v'))) k (d_total_size (d_info d)) items /\
    listed mb k (k + n) v v'.
Proof.
  intros Hlay Hk n Hn (Hb & Hnb & Hpos & Hps & Hz) (Hnul & Hlen & id & Hid & Hidw) Hkids Hw.
  pose proof (dir_layout_blocks _ _ Hlay) as Hn0. fold n in Hn0. destruct v as [b ps]. cbn [wd_builder wd_parents] in *.
  unfold in_width in Hk.
  apply (write_dirents_spec k) in Hw as
    (id' & items & data & -> & Hid' & Hp' & Hm & Hat & Hwr & Hdl & Hcd & Hnb' & Hb' & F1 & F2 & F3).
  - rewrite Hid in Hid'. injection Hid' as <-. rewrite Hid in Hm. exists id, items. fold n in Hdl, Hcd.
    split; [done|]. split; [done|]. split; [done|]. split; [done|]. split; [done|].
    assert (outside (k * 4096) ((k + n) * 4096) (o_bytes (b_writer b)) (o_bytes (b_writer (wd_builder v')))) as Ho
      by (rewrite Hwr; apply write_outside; lia).
    split; [|done]. split; [done|]. split; [done|]. split; [|split].
    + intros _. rewrite Hwr, Hcd. simpl. lia.
    + rewrite Hp'. apply Forall_app. by split; [|constructor].
    + destruct Ho as [-> _]. done.
  - done.
  - done.
  - unfold zlen in *. by rewrite length_fmap in Hlen.
  - done.
  - split; [done|]. split; [done|]. intros Hc. rewrite Hpos by lia. lia.
  - rewrite Hid. by apply child_ids_ok.
Qed.

Lemma dirents_walk mb n v d v' d' :
  walk_recur n v d = Ok (v', d') -> forall k k', laid k d k' -> k' <= mb -> listing mb v ->
  all_dir dir_listed leaf_listed d ->
  d' = d /\ wd_parents v' = wd_parents v /\ listed mb k k' v v' /\
  dirs_at (o_bytes (b_writer (wd_builder v'))) (wd_parents v) d.
Proof.
  apply (walk_recur_ind
    (fun v d v' d' => forall k k', laid k d k' -> k' <= mb -> listing mb v -> all_dir dir_listed leaf_listed d ->
       d' = d /\ wd_parents v' = wd_parents v /\ listed mb k k' v v' /\
       dirs_at (o_bytes (b_writer (wd_builder v'))) (wd_parents v) d)
    (fun v c v' c' => forall k k', laid_kids k c k' -> k' <= mb -> listing mb v -> all_kids dir_listed leaf_listed c ->
       c' = c /\ wd_parents v' = wd_parents v /\ listed mb k k' v v' /\
       dirs_at_kids (o_bytes (b_writer (wd_builder v'))) (wd_parents v) c)).
  clear n v d v' d'. constructor.
  - intros v [c i] v1 d1 v2 c2 v3 d3 He IH Hx k k' Hl Hmb Hv Hd. inversion Hl as [? ? ? ? Hk Hlay Hlk]; subst.
    inversion Hd as [? ? Hdl Hkids]; subst. pose proof (proj2 laid_bounds _ _ _ Hlk).
    apply (write_dirents_listed mb k) in He as (id & items & -> & Hid & Hp & Hm & Hat & Hst); [|done|done|simpl; lia|done..].
    pose proof Hst as (Hv1 & _). destruct (IH _ _ Hlk Hmb Hv1 Hkids) as (-> & Hp2 & Hst2 & Hk2).
    simpl in Hx. injection Hx as <- <-. cbn [wd_builder wd_parents].
    assert (take (length (wd_parents v2) - 1) (wd_parents v2) = wd_parents v) as ->.
    { rewrite Hp2, Hp, length_app, Nat.add_sub. apply take_app_length. }
    split; [done|]. split; [done|]. pose proof (dir_layout_blocks _ _ Hlay).
    assert (listed mb k k' v v2) as Hall by (eapply listed_trans; [|exact Hst|exact Hst2]; simpl in *; lia).
    split; [|rewrite Hp in Hk2; econstructor; [done|done| |exact Hk2]].
    + destruct Hall as ((? & ? & ? & ? & ?) & ?). split; [|done]. split_and!; try done. by apply Hv.
    + pose proof (dir_layout_size _ _ Hlay) as [Hs Hsz]. simpl in *. rewrite Hs. destruct Hst2 as (_ & Ho & _).
      eapply dirents_at_outside; [unfold in_width in Hk; lia| |exact Ho|done]. lia.
  - intros v k k' Hl Hmb Hv _. inversion Hl; subst. split; [done|]. split; [done|]. split; [by apply listed_refl|constructor].
  - intros v n f v1 f1 c v2 c2 [= <- <-] IH k k' Hl Hmb Hv Hd. inversion Hd; inversion Hl; subst.
    destruct (IH k k') as (-> & ? & ? & ?); [done..|]. split_and!; try done. by apply dirs_at_leaf.
  - intros v n f v1 f1 c v2 c2 [= <- <-] IH k k' Hl Hmb Hv Hd. inversion Hd; inversion Hl; subst.
    destruct (IH k k') as (-> & ? & ? & ?); [done..|]. split_and!; try done. by apply dirs_at_leaf.
  - intros v n d v1 d1 c v2 c2 IHd IH k k' Hl Hmb Hv Hd.
    inversion Hd; inversion Hl as [|? ? ? ? ? Hn|? ? ? k1 ? ? Hld Hlk]; subst; [by destruct (Hn d)|].
    pose proof (proj1 laid_bounds _ _ _ Hld). pose proof (proj2 laid_bounds _ _ _ Hlk).
    destruct (IHd k k1) as (-> & Hp1 & Hs1 & Hd1); [done|lia|done..|].
    destruct (IH k1 k') as (-> & Hp2 & Hs2 & Hd2); [done..|by apply Hs1|done|]. rewrite Hp1 in Hd2, Hp2.
    split; [done|]. split; [done|]. split; [eapply listed_trans; [|exact Hs1|exact Hs2]; lia|].
    apply dirs_at_sub; [|done]. destruct Hs2 as (_ & Ho & _).
    eapply (proj1 (dirs_at_outside _ _ _ _ Ho)); [exact Hld|lia|done].
  - intros v n c v2 c2 IH k k' Hl Hmb Hv Hd. inversion Hd; inversion Hl; subst.
    destruct (IH k k') as (-> & ? & ? & ?); [done..|]. split_and!; try done. by apply dirs_at_leaf.
  - intros v n c v2 c2 IH k k' Hl Hmb Hv Hd. inversion Hd; inversion Hl; subst.
    destruct (IH k k') as (-> & ? & ? & ?); [done..|]. split_and!; try done. by apply dirs_at_leaf.
Qed.

(** * Reading *)

(** Related trees have related entries under the same names. *)
Section entries.
Context (RI : DirInfo -> DirInfo -> Prop) (RL : FileType.t -> Leaf -> Leaf -> Prop).

Definition entry_rel (x y : Dirent) : Prop :=
  match x, y with
  | File f, File f' => RL FileType.RegularFile f f'
  | Symlink s, Symlink s' => RL FileType.Symlink s s'
  | SubDir d, SubDir d' => tree_rel RI RL d d'
  | Dot, Dot | DotDot, DotDot => True
  | _, _ => False
  end.

Lemma kids_rel_get n c c' :
  kids_rel RI RL c c' ->
  match bt_get n c, bt_get n c' with
  | Some x, Some y => entry_rel x y
  | None, None => True
  | _, _ => False
  end.
Proof. induction 1; simpl; [done|..]; by destruct (decide (n = n0)). Qed.
End entries.

(** The directory under a list of names. *)
Fixpoint dir_at (names : list bstr) (d : Dir) : option Dir :=
  match names with
  | [] => Some d
  | n :: names => match bt_get n (d_children d) with Some (SubDir sub) => dir_at names sub | _ => None end
  end.

(** Looking for a name among the items is looking for it among the children. *)
Lemma first_named_items id ps c items n :
  mapM (item_of (Some id) ps) c = Some items ->
  match bt_get n c with
  | Some e => exists x, child_disk_id (Some id) ps e = Some x /\
      first_named n items = Some {| item_disk_id := x; item_file_type := dirent_file_type e; item_name := n |}
  | None => first_named n items = None
  end.
Proof.
  intros Hm. apply mapM_Some in Hm. induction Hm as [|[m e] it c items Hi _ IH]; [done|].
  unfold item_of in Hi. simpl in Hi. destruct (child_disk_id (Some id) ps e) as [x|] eqn:Ex; [|done].
  simpl in Hi. injection Hi as <-. unfold first_named in *. simpl. destruct (decide (n = m)) as [->|Hne].
  - exists x. split; [done|]. by rewrite decide_True.
  - rewrite decide_False by done. destruct (bt_get n c).
    + destruct IH as (y & ? & Hf). exists y. split; [done|]. by destruct (list_find _ items) as [[]|].
    + by destruct (list_find _ items) as [[]|].
Qed.

Lemma dirs_at_kids_get bytes ps c n d : dirs_at_kids bytes ps c -> bt_get n c = Some (SubDir d) -> dirs_at bytes ps d.
Proof.
  induction 1 as [|ps m e c Hne _ IH|ps m d' c Hd _ IH]; simpl; [done|..].
  - destruct (decide _); [intros [= ->]; by destruct (Hne d)|done].
  - destruct (decide _); [by intros [= ->]|done].
Qed.

Lemma item_of_inv id ps c it :
  item_of id ps c = Some it -> item_name it = c.1 /\ item_file_type it = dirent_file_type c.2.
Proof. unfold item_of. destruct (child_disk_id id ps c.2); [|done]. by intros [= <-]. Qed.

(** The directory and leaf of the finished tree, against those before. *)
Definition dir_done `{RustixFileType} (mb : Z) (bytes : list byte) (i i' : DirInfo) : Prop :=
  exists id inode, d_disk_id i' = Some id /\ d_meta i' = d_meta i /\ good_meta (d_meta i) /\
    in_width 32 (d_start_block i') /\ in_width 63 (d_total_size i') /\
    make_inode FileType.Directory (d_total_size i') (d_start_block i') (d_meta i) None 1 = Ok inode /\
    inode_at mb bytes id inode None.
Definition leaf_done `{RustixFileType} (mb : Z) (bytes : list byte) (t : FileType.t) (f f' : Leaf) : Prop :=
  exists id inode, f' = set_leaf_disk_id (Some id) f /\ leaf_writable f /\
    make_inode t (l_len f) (l_start_block f) (l_meta f) (l_tail f) (l_n_links f) = Ok inode /\
    inode_at mb bytes id inode (l_tail f).

Section reading.
Context `{RustixFileTypeLaws}.
Context (e : Erofs).
#[local] Abbreviation mb := (meta_blkaddr (sb e)).
Context (Hbits : blkszbits (sb e) = 12) (Hmb : in_width 32 mb)
  (Himg : zlen (img e) < 2 ^ 63).

Lemma inode_at_read id inode tail l :
  ie_format_layout inode = format_layout ExtendedType l -> inode_at mb (img e) id inode tail ->
  exists count, let i := Extended id (set_xattr_count count inode) in
    get_inode e id = Ok i /\ tail_follows e i tail.
Proof.
  intros Hl (Hid & count & xb & Hok & Hxb & Hsz & Hr). exists count.
  by apply (chunk_read e mb id inode count xb tail l).
Qed.

(** The metadata of a node as its inode has it. *)
Definition meta_read (t : FileType.t) (m : Meta) (links : Z) (i : Inode) : Prop :=
  file_type i = t /\ uid i = m_uid m /\ gid i = m_gid m /\ link_count i = links /\
  mode i = Z.lor (as_raw_mode t) (m_mode m).

Lemma make_inode_read t size start m tail n inode id count :
  t = FileType.RegularFile \/ t = FileType.Directory \/ t = FileType.Symlink -> good_meta m ->
  make_inode t size start m tail n = Ok inode ->
  meta_read t m n (Extended id (set_xattr_count count inode)) /\
  ie_format_layout inode = format_layout ExtendedType (match tail with Some _ => FlatInline | None => FlatPlain end).
Proof.
  intros Ht (_ & _ & _ & Hm & _). unfold make_inode, make_mode. destruct (_ <? _); [done|]. intros [= <-].
  split; [|done]. split; [|done]. unfold file_type. simpl. by apply raw_mode_type.
Qed.

Definition leaf_read (t : FileType.t) (f : Leaf) (i : Inode) : Prop :=
  meta_read t (l_meta f) (l_n_links f) i /\ data_size i = l_len f /\
  forall contents, stored (img e) f contents ->
    exists block tail, get_data e i = Ok (block, tail) /\ block ++ tail = contents /\
      (zlen contents <= 2048 -> block = []).

Lemma leaf_done_read t f f' :
  t = FileType.RegularFile \/ t = FileType.Directory \/ t = FileType.Symlink -> leaf_done mb (img e) t f f' ->
  exists id i, l_disk_id f' = Some id /\ in_width 32 id /\ get_inode e id = Ok i /\ leaf_read t f i.
Proof.
  intros Ht (id & inode & -> & (_ & _ & Hs & _ & Hm & _) & Hi & Hat). pose proof Hat as [Hid _].
  destruct (make_inode_read _ _ _ _ _ _ _ id 0 Ht Hm Hi) as [_ Hl].
  destruct (inode_at_read id inode _ _ Hl Hat) as (count & Hg & Htl).
  destruct (make_inode_read _ _ _ _ _ _ _ id count Ht Hm Hi) as [Hmr _].
  destruct (make_inode_fields _ _ _ _ _ _ _ count id Hi Hs) as (_ & Hds & _).
  eexists id, _. split; [done|]. split; [done|]. split; [exact Hg|]. split; [done|]. split; [done|].
  intros contents Hst. by apply (stored_data_read e t f contents inode count id).
Qed.

(** The listing of a directory. *)
Definition dir_lists (i : Inode) (items : list DirentItem) : Prop :=
  exists data s, get_dirents e i = Ok (data, [], 4096) /\ DirentsIterator_new (data, []) 4096 = Ok s /\
    collect_dirents s = Ok items.

Lemma dir_done_read i i' items :
  dir_done mb (img e) i i' -> dirents_at (img e) (d_start_block i') (d_total_size i') items ->
  exists id ino, d_disk_id i' = Some id /\ in_width 32 id /\ get_inode e id = Ok ino /\
    meta_read FileType.Directory (d_meta i) 1 ino /\ dir_lists ino items.
Proof.
  intros (id & inode & Hd & Hm & Hgm & Hs & Ht & Hi & Hat) (data & s & Hr & Hn & Hc).
  assert (FileType.Directory = FileType.RegularFile \/ FileType.Directory = FileType.Directory \/
    FileType.Directory = FileType.Symlink) as Htt by auto.
  destruct (make_inode_read _ _ _ _ _ _ _ id 0 Htt Hgm Hi) as [_ Hl].
  destruct (inode_at_read id inode _ _ Hl Hat) as (count & Hg & _).
  destruct (make_inode_read _ _ _ _ _ _ _ id count Htt Hgm Hi) as [Hmr _].
  destruct (make_inode_fields _ _ _ _ _ _ _ count id Hi Hs) as (Hlay & Hds & Hra).
  eexists id, _. split; [done|]. split; [apply Hat|]. split; [exact Hg|]. split; [done|].
  exists data, s. split; [|done]. unfold get_dirents. rewrite decide_True by apply Hmr.
  assert (block_size e = 4096) as -> by (unfold block_size; by rewrite Hbits).
  unfold get_data. rewrite Hlay. cbn [rbind]. rewrite Hds, Hra. unfold in_width in Hs, Ht.
  destruct (Z.eqb_spec (d_total_size i') 0) as [H00|_].
  - rewrite H00, Z.add_0_r in Hr. unfold get_range in Hr. destruct (_ && _); [|done].
    rewrite Z.sub_diag in Hr. injection Hr as <-. done.
  - rewrite block_offset_4096, wadd_small, Hr by (done || unfold in_width; lia). done.
Qed.

(** ** Paths *)

(** What the reader finds for an entry of the tree. *)
Definition entry_read (x : Dirent) (i : Inode) : Prop :=
  match x with
  | File f => leaf_read FileType.RegularFile f i
  | Symlink s => leaf_read FileType.Symlink s i
  | SubDir d => meta_read FileType.Directory (d_meta (d_info d)) 1 i /\
      exists items, dir_lists i items /\
        (fun it => (item_name it, item_file_type it)) <$> items =
        (fun c => (c.1, dirent_file_type c.2)) <$> d_children d
  | Dot | DotDot => True
  end.

Abbreviation done_rel := (tree_rel (dir_done mb (img e)) (leaf_done mb (img e))).

(** The items of a related directory. *)
Lemma items_listing id ps c c' items :
  kids_rel (dir_done mb (img e)) (leaf_done mb (img e)) c c' -> mapM (item_of (Some id) ps) c' = Some items ->
  (fun it => (item_name it, item_file_type it)) <$> items = (fun x => (x.1, dirent_file_type x.2)) <$> c.
Proof.
  intros Hr Hm. apply mapM_Some in Hm. revert items Hm.
  induction Hr; intros items Hm; inversion Hm as [|? it ? its Hi Hm']; subst; [done|..];
    apply item_of_inv in Hi as [Hn Ht]; csimpl; rewrite Hn, Ht; f_equal; by apply IHHr.
Qed.

Lemma dir_entry_read ps d d' :
  done_rel d d' -> dirs_at (img e) ps d' ->
  exists id i, d_disk_id (d_info d') = Some id /\ in_width 32 id /\ get_inode e id = Ok i /\
    entry_read (SubDir d) i.
Proof.
  intros Hr Hd. inversion Hd as [? c' i' id items Hid Hm Hat Hk]; subst.
  inversion Hr as [c ? i ? Hi Hkr]; subst.
  destruct (dir_done_read _ _ _ Hi Hat) as (id' & ino & Hid' & Hw & Hg & Hmr & Hls).
  exists id', ino. split; [done|]. split; [done|]. split; [done|]. split; [done|].
  exists items. split; [done|]. by eapply items_listing.
Qed.

(** One step of the lookup. *)
Lemma lookup_step ps d d' id i n comps :
  done_rel d d' -> dirs_at (img e) ps d' -> d_disk_id (d_info d') = Some id -> get_inode e id = Ok i ->
  match bt_get n (d_children d) with
  | None => lookup_from e i (Normal n :: comps) = Ok None
  | Some (Dot | DotDot) => True
  | Some x => exists i', lookup_from e i (Normal n :: comps) = lookup_from e i' comps /\ entry_read x i' /\
      forall sub, x = SubDir sub -> exists sub' id', done_rel sub sub' /\ dirs_at (img e) (ps ++ [id]) sub' /\
        d_disk_id (d_info sub') = Some id' /\ get_inode e id' = Ok i'
  end.
Proof.
  intros Hr Hd Hid Hg. inversion Hd as [? c' j' id0 items Hid0 Hm Hat Hk]; subst.
  inversion Hr as [c ? j ? Hj Hkr]; subst. simpl in *. rewrite Hid in Hid0. injection Hid0 as <-.
  destruct (dir_done_read _ _ _ Hj Hat) as (id' & ino & Hid' & _ & Hg' & _ & data & s & Hgd & Hs & Hc).
  rewrite Hid in Hid'. injection Hid' as <-. rewrite Hg in Hg'. injection Hg' as <-.
  simpl lookup_from. rewrite Hgd. cbn [rbind]. rewrite Hs. cbn [rbind].
  pose proof (fun name => find_dirent_first (data, []) 4096 s items name ltac:(lia) Hs Hc) as Hf. rewrite Hf. cbn [rbind component_bytes].
  pose proof (first_named_items _ _ _ _ n Hm) as Hfn. pose proof (kids_rel_get _ _ n _ _ Hkr) as Hge.
  destruct (bt_get n c) as [x|], (bt_get n c') as [x'|] eqn:Ex'; try done; [|by rewrite Hfn].
  destruct Hfn as (y & Hy & Hfn). rewrite Hfn.
  assert (forall i', in_width 32 y -> get_inode e y = Ok i' ->
    (let? next := get_inode_from_dirent e {| item_disk_id := y; item_file_type := dirent_file_type x'; item_name := n |} in
     lookup_from e next comps) = lookup_from e i' comps) as Hstep.
  { intros i' Hw Hgi. unfold get_inode_from_dirent. simpl. rewrite try_into_id by done. simpl. by rewrite Hgi. }
  destruct x as [f|sub|s'| |], x' as [f'|sub'|s''| |]; try done; simpl in Hge, Hy.
  - destruct (leaf_done_read FileType.RegularFile f f' ltac:(auto) Hge) as (id2 & i2 & Hi2 & Hw & Hg2 & Hl).
    rewrite Hi2 in Hy. injection Hy as ->. exists i2. rewrite (Hstep i2) by done. split_and!; [done|exact Hl|done].
  - apply (dirs_at_kids_get _ _ _ _ _ Hk) in Ex'.
    destruct (dir_entry_read _ _ _ Hge Ex') as (id2 & i2 & Hi2 & Hw & Hg2 & Hl).
    rewrite Hi2 in Hy. injection Hy as ->. exists i2. rewrite (Hstep i2) by done. split_and!; [done|exact Hl|].
    intros ? [= <-]. by exists sub', y.
  - destruct (leaf_done_read FileType.Symlink s' s'' ltac:(auto) Hge) as (id2 & i2 & Hi2 & Hw & Hg2 & Hl).
    rewrite Hi2 in Hy. injection Hy as ->. exists i2. rewrite (Hstep i2) by done. split_and!; [done|exact Hl|done].
Qed.

(** The path of an entry resolves to it; a name that its directory does not
    have resolves to nothing. *)
Lemma lookup_tree names ps d d' id i :
  names <> [] -> done_rel d d' -> dirs_at (img e) ps d' -> d_disk_id (d_info d') = Some id -> get_inode e id = Ok i ->
  (forall x, tree_get names d = Some x -> x <> Dot -> x <> DotDot ->
     exists i', lookup_from e i (Normal <$> names) = Ok (Some i') /\ entry_read x i') /\
  (forall dirs n rest sub, names = dirs ++ n :: rest -> dir_at dirs d = Some sub ->
     bt_get n (d_children sub) = None -> lookup_from e i (Normal <$> names) = Ok None).
Proof.
  revert ps d d' id i. induction names as [|n names IH]; [done|]. intros ps d d' id i _ Hr Hd Hid Hg.
  pose proof (lookup_step ps d d' id i n (Normal <$> names) Hr Hd Hid Hg) as Hst. rewrite fmap_cons. split.
  - intros x Hx H1 H2. destruct names as [|m names].
    + simpl in Hx. rewrite Hx in Hst. destruct x; try done; destruct Hst as (i' & -> & He & _); by exists i'.
    + rewrite tree_get_cons in Hx. destruct (bt_get n (d_children d)) as [[| sub | | |]|]; try done.
      destruct Hst as (i' & -> & _ & Hsub). destruct (Hsub sub eq_refl) as (sub' & id' & Hr' & Hd' & Hid' & Hg').
      by apply (proj1 (IH _ _ _ _ _ ltac:(done) Hr' Hd' Hid' Hg')).
  - intros dirs m rest sub Hn Hat Hget. destruct dirs as [|q dirs]; simpl in *.
    + injection Hn as -> ->. injection Hat as ->. by rewrite Hget in Hst.
    + injection Hn as -> ->. destruct (bt_get q (d_children d)) as [[| sub1 | | |]|]; try done.
      destruct Hst as (i' & -> & _ & Hsub). destruct (Hsub sub1 eq_refl) as (sub' & id' & Hr' & Hd' & Hid' & Hg').
      eapply (proj2 (IH _ _ _ _ _ ltac:(by destruct dirs) Hr' Hd' Hid' Hg')); [done|exact Hat|done].
Qed.
End reading.

(** * Finishing the image *)

(** A part of the visitor that no visit changes. *)
Lemma walk_const {V A} `{TreeVisitor V} (g : V -> A) n v d v' d' :
  (forall v d v' d', on_dir_enter v d = Ok (v', d') -> g v' = g v) ->
  (forall v d v' d', on_dir_exit v d = Ok (v', d') -> g v' = g v) ->
  (forall v f v' f', on_file v f = Ok (v', f') -> g v' = g v) ->
  (forall v f v' f', on_symlink v f = Ok (v', f') -> g v' = g v) ->
  walk_recur n v d = Ok (v', d') -> g v' = g v.
Proof.
  intros He Hx Hf Hs. apply (walk_recur_ind (fun v _ v' _ => g v' = g v) (fun v _ v' _ => g v' = g v)).
  constructor; intros; try done; try congruence.
  - etrans; [by eapply Hx|]. etrans; [done|by eapply He].
  - etrans; [done|by eapply Hf].
  - etrans; [done|by eapply Hs].
Qed.

Lemma write_dirent_blocks_meta counts dir_id parents children b b' :
  write_dirent_blocks counts dir_id parents children b = Ok b' -> b_meta_block b' = b_meta_block b.
Proof.
  revert children b. induction counts as [|c counts IH]; intros children b; simpl; [by intros [= <-]|].
  intros E. apply rbind_Ok_inv in E as ([rest b1] & E1 & E). apply write_block_dirents_fields in E1 as (_ & _ & F & _).
  apply IH in E as ->. rewrite <-F. unfold zero_fill_block, zero_fill. by destruct (negb _).
Qed.

Section meta_block.
Context `{RustixFileType}.

Lemma write_dir_inode_meta b d b' d' : write_dir_inode b d = Ok (b', d') -> b_meta_block b' = b_meta_block b.
Proof.
  unfold write_dir_inode. intros E. apply rbind_Ok_inv in E as (inode & _ & E).
  apply rbind_Ok_inv in E as ([id b1] & E1 & E). apply write_inode_fields in E1 as [(_ & F & _) _].
  destruct (d_disk_id _); [done|]. by injection E as <- _.
Qed.

Lemma write_leaf_inode_meta t b d b' d' : write_leaf_inode t b d = Ok (b', d') -> b_meta_block b' = b_meta_block b.
Proof.
  unfold write_leaf_inode. intros E. apply rbind_Ok_inv in E as (inode & _ & E).
  apply rbind_Ok_inv in E as ([id b1] & E1 & E). apply write_inode_fields in E1 as [(_ & F & _) _].
  destruct (l_disk_id _); [done|]. by injection E as <- _.
Qed.

(** The meta block stays what it was set to, whatever the tree. *)
Lemma dir_inodes_meta n v d v' d' :
  walk_recur (V := WriteDirInodes) n v d = Ok (v', d') ->
  b_meta_block (wdi_builder v') = b_meta_block (wdi_builder v).
Proof.
  apply (walk_const (fun v => b_meta_block (wdi_builder v))); try (by intros ? ? ? ? [= <- <-]).
  intros v1 d1 v2 d2 E. simpl in E. apply rbind_Ok_inv in E as ([b x] & E & [= <- <-]). by apply write_dir_inode_meta in E.
Qed.

Lemma leaf_inodes_meta n v d v' d' :
  walk_recur (V := WriteInodes) n v d = Ok (v', d') ->
  b_meta_block (wi_builder v') = b_meta_block (wi_builder v).
Proof.
  apply (walk_const (fun v => b_meta_block (wi_builder v))); try (by intros ? ? ? ? [= <- <-]);
    intros v1 d1 v2 d2 E; simpl in E; apply rbind_Ok_inv in E as ([b x] & E & [= <- <-]);
    by apply write_leaf_inode_meta in E.
Qed.
End meta_block.

Lemma dirents_meta n v d v' d' :
  walk_recur (V := WriteDirents) n v d = Ok (v', d') ->
  b_meta_block (wd_builder v') = b_meta_block (wd_builder v).
Proof.
  apply (walk_const (fun v => b_meta_block (wd_builder v))); try (by intros ? ? ? ? [= <- <-]).
  intros v1 d1 v2 d2 E. simpl in E. unfold write_dirents_on_enter in E. apply rbind_Ok_inv in E as (b & E & E2).
  apply rbind_Ok_inv in E2 as (id & _ & [= <- <-]). apply write_dirent_blocks_meta in E. simpl. rewrite E.
  unfold seek_block. by destruct (negb _).
Qed.

Lemma tree_rel_all GD GL RI RL :
  (forall d, all_dir GD GL d -> forall d', tree_rel RI RL d d' ->
     tree_rel (fun i i' => (exists ns, GD ns i) /\ RI i i') (fun t f f' => GL t f /\ RL t f f') d d') /\
  (forall c, all_kids GD GL c -> forall c', kids_rel RI RL c c' ->
     kids_rel (fun i i' => (exists ns, GD ns i) /\ RI i i') (fun t f f' => GL t f /\ RL t f f') c c').
Proof.
  apply all_dir_kids_ind; intros;
    match goal with H : tree_rel _ _ _ _ |- _ => inversion H; subst | H : kids_rel _ _ _ _ |- _ => inversion H; subst end;
    constructor; eauto.
Qed.

Lemma all_dir_mono (GD GD' : list bstr -> DirInfo -> Prop) (GL GL' : FileType.t -> Leaf -> Prop) :
  (forall ns i, GD ns i -> GD' ns i) -> (forall t f, GL t f -> GL' t f) ->
  (forall d, all_dir GD GL d -> all_dir GD' GL' d) /\ (forall c, all_kids GD GL c -> all_kids GD' GL' c).
Proof. intros HD HL. apply all_dir_kids_ind; intros; eauto with pe. Qed.

Lemma inode_at_outside lo hi mb x y id inode tail :
  0 <= mb -> hi <= mb * 4096 -> outside lo hi x y -> inode_at mb x id inode tail -> inode_at mb y id inode tail.
Proof.
  intros Hmb Hhi Ho (Hid & count & xb & H1 & H2 & H3 & Hr). split; [done|]. exists count, xb.
  split_and!; try done. unfold in_width in Hid. eapply outside_range; [| |exact Ho|exact Hr]; lia.
Qed.

(** What finishing an image needs of the tree: names that fit a block and have
    no zero byte, fewer entries than 2^32, metadata that fits an inode, and no
    inode of exactly one block. *)
Definition dir_ready (ns : list bstr) (i : DirInfo) : Prop :=
  packable ns i /\ Forall (fun n => x00 ∉ n) ns /\ d_disk_id i = None /\ good_meta (d_meta i) /\
  inode_total (m_xattrs (d_meta i)) None <> 4096.
Definition leaf_ready (t : FileType.t) (f : Leaf) : Prop := leaf_writable f /\ 1 <= l_start_block f.
Abbreviation tree_ready := (all_dir dir_ready leaf_ready).

(** The builder when all data is in: the data blocks end the output. *)
Definition data_complete (b : Builder) : Prop :=
  b_block_size_bits b = 12 /\ b_name_buf b = [] /\ b_superblock b = Superblock_zeroed /\
  in_width 64 (b_n_inodes b) /\ 1 <= b_cur_data_block b /\
  zlen (o_bytes (b_writer b)) <= b_cur_data_block b * 4096.

Section finish.
Context `{RustixFileTypeLaws}.

Lemma ready_packable root : tree_ready root -> all_dir packable (fun _ _ => True) root.
Proof. apply all_dir_mono; [by intros ns i (Hp & _)|done]. Qed.

(** The three relations of the walks together, seen in the finished output. *)
Lemma walks_done mb root root1 root2 root3 x y z :
  0 <= mb -> x `prefix_of` y ->
  (forall id inode tail, inode_at mb y id inode tail -> inode_at mb z id inode tail) ->
  tree_ready root -> tree_rel reserved (fun _ f f' => f' = f) root root1 ->
  tree_rel (dir_written mb x) (fun _ f f' => f' = f) root1 root2 ->
  tree_rel (fun i i' => i' = i) (leaf_written mb y) root2 root3 ->
  tree_rel (dir_done mb z) (leaf_done mb z) root root3.
Proof.
  intros Hmb Hxy Hyz Hr R1 R2 R3.
  pose proof (tree_rel_compose _ _ _ _ _ _ _ (tree_rel_compose _ _ _ _ _ _ _ R1 R2) R3) as R.
  apply (proj1 (tree_rel_all _ _ _ _) _ Hr) in R. revert R. apply tree_rel_mono.
  - intros i i' ([ns (_ & _ & _ & Hgm & _)] & j2 & (j & (Hm & _ & Hs & Ht) & Hw) & ->).
    destruct Hw as (id & inode & Hid & (K1 & K2 & K3) & Hm2 & Hi & Hat). exists id, inode.
    rewrite Hm2, Hm, K1, K3. rewrite Hm in Hi. split_and!; try done. by apply Hyz, (inode_at_prefix _ x).
  - intros t f f' ([Hlw _] & g & (g' & -> & ->) & Hw). destruct Hw as (id & inode & -> & Hi & Hat).
    exists id, inode. split_and!; try done. by apply Hyz.
Qed.

(** After the two inode passes the directories and leaves can be listed. *)
Lemma walks_listed mb root root3 z :
  tree_ready root -> tree_rel (dir_done mb z) (leaf_done mb z) root root3 -> all_dir dir_listed leaf_listed root3.
Proof.
  intros Hr Hrel. eapply all_dir_map; [exact Hr|exact Hrel|..].
  - intros ns i i' ((Hne & Hl & _) & Hn & _) (id & inode & Hid & _ & _ & _ & _ & _ & Hat & _).
    split; [done|]. split; [done|]. by exists id.
  - intros t f f' _ (id & inode & -> & _ & _ & Hat & _). by exists id.
Qed.

(** The first walk and the start of the meta area. *)
Lemma reserve_spec n b root v root1 :
  data_complete b -> tree_ready root -> walk_recur n {| pd_builder := set_root None b |} root = Ok (v, root1) ->
  let mb := b_cur_data_block (pd_builder v) in
  let b1 := set_meta_block (Some mb) (pd_builder v) in
  let b2 := set_inode_addr (b_block_addr b1 mb) b1 in
  let b3 := set_writer (seek (b_inode_addr b2) (b_writer b2)) b2 in
  in_width 32 mb ->
  writing mb b3 /\ laid (b_cur_data_block b) root1 mb /\
  tree_rel reserved (fun _ f f' => f' = f) root root1 /\ o_bytes (b_writer b3) = o_bytes (b_writer b) /\
  b_superblock b3 = Superblock_zeroed /\ b_name_buf b3 = [].
Proof.
  intros (Hb & Hnb & Hsb & Hni & Hcur & Hz) Hr W1 mb b1 b2 b3 Hmb.
  pose proof (prepare_walk_laid _ _ _ _ _ W1 Hb (ready_packable _ Hr)) as [Hb1 Hlaid].
  destruct (prepare_walk_rel _ _ _ _ _ W1 Hb (ready_packable _ Hr)) as ((F1 & F2 & F3 & F4 & F5) & R1).
  simpl in Hlaid, F1, F3, F4, F5. pose proof (proj1 laid_bounds _ _ _ Hlaid) as Hk. unfold in_width in Hmb.
  assert (b_inode_addr b3 = mb * 4096) as Ha2.
  { change (b_block_addr b1 mb = mb * 4096). unfold b_block_addr, b_block_size. simpl. rewrite Hb1.
    change (wshl 64 1 12) with 4096. apply wmul_small. unfold in_width. lia. }
  split; [|split; [done|split; [done|simpl; split; [by rewrite F1|split; congruence]]]].
  split; [|split; [|simpl; by rewrite F5]].
  - split; [exact Hb1|]. split; [done|]. split; [done|]. split; [done|]. rewrite Ha2.
    split; [replace (mb * 4096) with (mb * 128 * 32) by lia; by apply Z.mod_mul|lia].
  - change (zlen (o_bytes (b_writer (pd_builder v))) <= b_inode_addr b3). rewrite Ha2, F1. fold mb in Hk. lia.
Qed.

(** The second and the third walk. *)
Lemma inode_passes_spec n mb b root root1 v2 root2 v3 root3 :
  writing mb b -> tree_ready root -> tree_rel reserved (fun _ f f' => f' = f) root root1 ->
  walk_recur n {| wdi_builder := b |} root1 = Ok (v2, root2) ->
  walk_recur n {| wi_builder := wdi_builder v2 |} root2 = Ok (v3, root3) ->
  let b' := wi_builder v3 in
  writing mb b' /\ advances b b' /\ mb * 4096 <= zlen (o_bytes (b_writer b')) /\
  tree_rel keeps_layout (fun _ _ _ => True) root1 root3 /\
  forall z, (forall id inode tail, inode_at mb (o_bytes (b_writer b')) id inode tail -> inode_at mb z id inode tail) ->
    tree_rel (dir_done mb z) (leaf_done mb z) root root3.
Proof.
  intros Hw Hr R1 W2 W3. pose proof Hw as ((_ & _ & Hmb & _) & _). unfold in_width in Hmb.
  apply (dir_inodes_walk mb) in W2 as (Hw2 & Hadv2 & R2); [|lia|done|].
  2: { eapply all_dir_map; [exact Hr|exact R1|..].
       - intros ns i i' (_ & _ & Hid & Hgm & Hne) (Hm & Hd & Hs & Ht). split_and!; rewrite ?Hm, ?Hd; done.
       - done. }
  apply (leaf_inodes_walk mb) in W3 as (Hw3 & Hadv3 & R3); [|lia|done|].
  2: { eapply all_dir_map; [exact Hr|exact (tree_rel_compose _ _ _ _ _ _ _ R1 R2)|done|].
       intros t f f' [Hl _] (g & -> & ->). done. }
  cbn [wdi_builder wi_builder] in *. pose proof (advances_trans _ _ _ Hadv2 Hadv3) as Hadv.
  split; [done|]. split; [done|]. split; [|split].
  - destruct Hadv3 as [_ Hp]. inversion R2 as [c c' i i' (id & inode & _ & _ & _ & _ & Hid & count & xb & _ & _ & _ & Hrg) _]; subst.
    unfold in_width in Hid. apply prefix_length in Hp. apply get_range_length in Hrg as (_ & ? & ?); [|lia].
    unfold zlen in *. lia.
  - eapply (proj1 (tree_rel_mono _ _ _ _ _ _) _ _ (tree_rel_compose _ _ _ _ _ _ _ R2 R3)).
    Unshelve. all: [> intros i i' (j & (id & inode & _ & K & _) & ->); exact K | done].
  - intros z Hz. destruct Hadv3 as [_ Hp]. eapply walks_done; [|exact Hp|exact Hz|exact Hr|exact R1|exact R2|exact R3]. lia.
Qed.

Definition data_kept (x y : list byte) : Prop :=
  forall a b r, 4096 <= a -> get_range x a b = Some r -> get_range y a b = Some r.

(** The four walks. *)
Lemma write_inodes_spec b root b' mb :
  b_root b = Some root -> data_complete b -> tree_ready root ->
  write_inodes b = Ok b' -> b_meta_block b' = Some mb -> in_width 32 mb ->
  let x := o_bytes (b_writer b) in let y := o_bytes (b_writer b') in
  exists root', b_root b' = Some root' /\ laid (b_cur_data_block b) root' mb /\ dirs_at y [] root' /\
    tree_rel (dir_done mb y) (leaf_done mb y) root root' /\ data_kept x y /\
    mb * 4096 <= zlen y < 2 ^ 63 /\ b_superblock b' = Superblock_zeroed /\
    b_block_size_bits b' = 12 /\ in_width 64 (b_n_inodes b').
Proof.
  intros Hroot Hdc Hr. unfold write_inodes. rewrite Hroot. intros E Hmeta Hmb. unfold walk_tree in E.
  apply rbind_Ok_inv in E as ([v1 root1] & W1 & E). apply rbind_Ok_inv in E as ([v2 root2] & W2 & E).
  apply rbind_Ok_inv in E as ([v3 root3] & W3 & E). apply rbind_Ok_inv in E as ([v4 root4] & W4 & [= <-]).
  assert (mb = b_cur_data_block (pd_builder v1)) as ->.
  { pose proof (dirents_meta _ _ _ _ _ W4) as M4. pose proof (leaf_inodes_meta _ _ _ _ _ W3) as M3.
    pose proof (dir_inodes_meta _ _ _ _ _ W2) as M2. cbn [wdi_builder wi_builder wd_builder] in *.
    change (b_meta_block (wd_builder v4) = Some mb) in Hmeta. rewrite M4, M3, M2 in Hmeta. by injection Hmeta. }
  destruct (reserve_spec _ _ _ _ _ Hdc Hr W1 Hmb) as (Hw & Hlaid & R1 & Hx & Hsb & Hnb).
  set (mb := b_cur_data_block (pd_builder v1)) in *.
  destruct (inode_passes_spec _ mb _ root root1 v2 root2 v3 root3 Hw Hr R1 W2 W3)
    as (Hw3 & [(_ & _ & A3 & B3 & D3) Hp3] & Hz3 & Rl & Rd).
  pose proof (proj1 laid_bounds _ _ _ Hlaid) as Hk. pose proof Hdc as (_ & _ & _ & _ & Hcur & _).
  apply (proj1 (laid_rel _ _ (fun _ _ K => K))  _ _ _ Hlaid) in Rl as Hl3.
  destruct Hw3 as ((Hb3 & _ & _ & Hpos3 & _ & Hhi3) & Hend3 & Hni3).
  destruct (dirents_walk mb _ _ _ _ _ W4 _ _ Hl3) as (-> & _ & (Hst4 & Ho & _ & S4 & N4) & Hat); [lia| | |].
  { split; [done|]. split; [simpl; congruence|]. split; [|split; [constructor|done]].
    intros Hc. destruct Hc. simpl. by rewrite D3. }
  { eapply walks_listed; [exact Hr|]. by apply (Rd (o_bytes (b_writer (wi_builder v3)))). }
  cbn [wd_builder wd_parents] in *. unfold in_width in Hmb. exists root3.
  split; [done|]. split; [done|]. split; [exact Hat|]. split; [|split; [|split; [|split; [|split]]]].
  - apply Rd. intros id inode tail Hi. eapply inode_at_outside; [| |exact Ho|exact Hi]; lia.
  - intros a c r Ha Hg. rewrite <-Hx in Hg. pose proof (get_range_prefix_of _ _ a c r ltac:(lia) Hp3 Hg) as Hg'.
    eapply outside_range; [| |exact Ho|exact Hg']; [lia|]. left. rewrite Hx in Hg.
    apply get_range_length in Hg as (_ & Hle & _); [|lia]. destruct Hdc as (_ & _ & _ & _ & _ & Hz). lia.
  - change (mb * 4096 <= zlen (o_bytes (b_writer (wd_builder v4))) < 2 ^ 63). destruct Ho as [-> _]. lia.
  - change (b_superblock (wd_builder v4) = Superblock_zeroed). congruence.
  - apply Hst4.
  - change (in_width 64 (b_n_inodes (wd_builder v4))). by rewrite N4.
Qed.

Lemma data_kept_trans lo hi x y z :
  hi <= 4096 -> data_kept x y -> outside lo hi y z -> data_kept x z.
Proof. intros Hhi Hk Ho a b r Ha Hg. eapply outside_range; [| |exact Ho|by apply Hk]; lia. Qed.

Lemma fill_superblock_ok mb id n :
  in_width 32 mb -> in_width 16 id -> in_width 64 n -> pod_ok (fill_superblock 12 mb id n Superblock_zeroed).
Proof.
  unfold in_width. intros Hm Hi Hn. simpl. unfold int_ok, bytes_ok.
  change (256 ^ Z.of_nat 1) with 256. change (256 ^ Z.of_nat 2) with 65536. change (256 ^ Z.of_nat 4) with (2 ^ 32).
  change (256 ^ Z.of_nat 8) with (2 ^ 64). unfold EROFS_SUPER_MAGIG_V1. split_and!; try done; lia.
Qed.

Lemma Erofs_new_written s o :
  pod_ok s -> magic s = EROFS_SUPER_MAGIG_V1 ->
  let bytes := o_bytes (write_all (as_bytes s) (seek EROFS_SUPER_OFFSET o)) in
  Erofs_new bytes = Ok {| img := bytes; sb := s |}.
Proof.
  intros Hok Hm bytes. pose proof (pod_as_bytes_length _ Hok) as Hl. change (size_of Superblock) with 128 in Hl.
  assert (bytes = put EROFS_SUPER_OFFSET (as_bytes s) (o_bytes o)) as ->.
  { unfold bytes, write_all. cbn [o_bytes]. by rewrite decide_False by (intros H1; by rewrite H1 in Hl). }
  unfold Erofs_new. rewrite put_split at 1. rewrite get_from_app by (by rewrite zlen_put_prefix).
  cbn [ok_or rbind]. rewrite pod_read_as_bytes by done. cbn [ok_or rbind]. by rewrite Hm.
Qed.

(** The finished image: the superblock points to the meta area and the root, the
    tree is there, and the file data is where it was. *)
Lemma image_finished b root b' :
  b_root b = Some root -> data_complete b -> tree_ready root ->
  (let? b := write_inodes b in write_superblock b) = Ok b' ->
  exists e root', Erofs_new (o_bytes (b_writer b')) = Ok e /\ img e = o_bytes (b_writer b') /\
    blkszbits (sb e) = 12 /\ in_width 32 (meta_blkaddr (sb e)) /\ zlen (img e) < 2 ^ 63 /\
    b_cur_data_block b < meta_blkaddr (sb e) /\
    tree_rel (dir_done (meta_blkaddr (sb e)) (img e)) (leaf_done (meta_blkaddr (sb e)) (img e)) root root' /\
    dirs_at (img e) [] root' /\ d_disk_id (d_info root') = Some (root_disk_id (sb e)) /\
    data_kept (o_bytes (b_writer b)) (img e).
Proof.
  intros Hroot Hdc Hr E. apply rbind_Ok_inv in E as (b1 & E1 & E). unfold write_superblock in E.
  apply rbind_Ok_inv in E as (mb & Hmb & E). apply ok_or_Ok in Hmb.
  apply rbind_Ok_inv in E as (mb' & Hw & E). apply ok_or_Ok, try_into_Some in Hw as [-> Hw].
  destruct (write_inodes_spec b root b1 mb Hroot Hdc Hr E1 Hmb Hw)
    as (root' & Hroot' & Hlaid & Hat & Hrel & Hkept & Hlen & Hsb & Hbits & Hni).
  rewrite Hroot' in E. cbn [expect rbind] in E.
  apply rbind_Ok_inv in E as (id & Hid & E). apply ok_or_Ok in Hid.
  apply rbind_Ok_inv in E as (id' & Hidw & E). apply ok_or_Ok, try_into_Some in Hidw as [-> Hidw].
  rewrite Hsb, Hbits in E. set (s := fill_superblock 12 mb id (b_n_inodes b1) Superblock_zeroed) in E.
  assert (pod_ok s) as Hok by (by apply fill_superblock_ok). injection E as <-.
  change (b_writer (b_write _ _)) with (write_all (as_bytes s) (seek EROFS_SUPER_OFFSET (b_writer b1))).
  pose proof (Erofs_new_written s (b_writer b1) Hok eq_refl) as Hnew. cbv zeta in Hnew.
  pose proof (proj1 laid_bounds _ _ _ Hlaid) as Hk. pose proof Hdc as (_ & _ & _ & _ & Hcur & _).
  pose proof (pod_as_bytes_length _ Hok) as Hsl. change (size_of Superblock) with 128 in Hsl.
  assert (outside 1024 1152 (o_bytes (b_writer b1))
    (o_bytes (write_all (as_bytes s) (seek EROFS_SUPER_OFFSET (b_writer b1))))) as Ho.
  { unfold EROFS_SUPER_OFFSET. apply write_outside; lia. }
  set (bytes := o_bytes (write_all (as_bytes s) _)) in *. eexists _, root'. split; [exact Hnew|].
  cbn [img sb]. change (meta_blkaddr s) with mb. change (root_disk_id s) with id.
  split; [done|]. split; [done|]. split; [done|]. split; [destruct Ho as [-> _]; lia|]. split; [lia|].
  split; [|split; [|split; [done|eapply data_kept_trans; [|exact Hkept|exact Ho]; lia]]].
  - revert Hrel. apply tree_rel_mono.
    + intros i i' (id1 & inode & D1 & D2 & D3 & D4 & D5 & D6 & D7). exists id1, inode. split_and!; try done.
      eapply inode_at_outside; [| |exact Ho|exact D7]; lia.
    + intros t f f' (id1 & inode & D1 & D2 & D3 & D4). exists id1, inode. split_and!; try done.
      eapply inode_at_outside; [| |exact Ho|exact D4]; lia.
  - eapply (proj1 (dirs_at_outside _ _ _ _ Ho)); [exact Hlaid|lia|done].
Qed.
End finish.
