(* ===== verification/ErofsFs.v ===== *)
(** An image is a file system: the builder of src/peerofs/src/build.rs and the
    reader of src/peerofs/src/disk.rs against an abstract specification.

    The specification is a map from paths to files, symlinks and directories, and
    what each operation of the builder does to it.  The builder's tree and output
    represent the map at every step; the finished image shows the same map to the
    reader. *)
From stdpp Require Import option base list numbers strings.
From Stdlib Require Import ZArith Lia.
From S2P Require Import Prelude MemFile BTree Paths ErofsDisk ErofsBuild ErofsTree ErofsImage ErofsWalk ErofsWhole.
#[local] Open Scope Z_scope.
#[local] Open Scope result_scope.

(** * Names of a path *)

(** The ordinary components of a path: a leading root or dot does not count. *)
Definition path_names (p : bstr) : list bstr :=
  omap (fun c => match c with Normal n => Some n | _ => None end) (components p).

Definition body (c : Component) : Prop := c = ParentDir \/ exists n, c = Normal n.

Lemma body_prefixes_body before segs : Forall body (body_prefixes before segs).*1.
Proof.
  revert before. induction segs as [|s segs IH]; intros before; simpl; [constructor|].
  unfold body_component. repeat case_decide; simpl; [by apply IH|..]; (constructor; [|by apply IH]).
  - by left.
  - right. eauto.
Qed.

(** At most the first component is a root or a dot. *)
Lemma components_shape p :
  Forall body (components p) \/ exists c cs, components p = c :: cs /\ (c = RootDir \/ c = CurDir) /\ Forall body cs.
Proof.
  unfold components, component_prefixes. destruct (split_slash p) as [|s segs]; [by left; constructor|].
  unfold first_component. case_decide; [|case_decide].
  - destruct (negb _); [right; eexists _, _; split; [done|]|left]; auto using body_prefixes_body.
  - right. eexists _, _. split; [done|]. auto using body_prefixes_body.
  - left. unfold body_component. repeat case_decide; simpl; [apply body_prefixes_body|..];
      (constructor; [|apply body_prefixes_body]); [by left|right; eauto].
Qed.

Lemma path_names_normal p : Forall normal_name (path_names p).
Proof.
  apply Forall_forall. intros n Hn. apply list_elem_of_omap in Hn as (c & Hc & Hn).
  destruct c; try done. injection Hn as ->. by apply (components_names p).
Qed.

Section lookup_names.
Context {A : Type} (create : bool) (k : Dir -> option bstr -> result Error (A * Dir)).

Lemma lookup_body cs d r :
  Forall body cs -> lookup_components create k cs d = Ok r ->
  exists names, cs = Normal <$> names.
Proof.
  intros Hb. revert d r. induction Hb as [|c cs Hc Hb IH]; intros d r E; [by exists []|].
  destruct Hc as [->|[n ->]]; [by destruct cs|].
  destruct cs as [|c2 cs]; [by exists [n]|]. rewrite lookup_components_cons in E.
  apply rbind_Ok_inv in E as ([sub cur] & _ & E). apply rbind_Ok_inv in E as ([a sub'] & E & _).
  apply IH in E as [names ->]. by exists (n :: names).
Qed.

Lemma names_of_normal (names : list bstr) :
  omap (fun c => match c with Normal n => Some n | _ => None end) (Normal <$> names) = names.
Proof. induction names as [|n names IH]; csimpl; [done|]. by rewrite IH. Qed.

(** A lookup that succeeds goes along the names of its path. *)
Lemma lookup_impl_names root p r :
  lookup_impl create k root p = Ok r ->
  if decide (path_names p = []) then k root None = Ok r
  else lookup_components create k (Normal <$> path_names p) root = Ok r.
Proof.
  unfold lookup_impl. case_decide; [done|]. case_decide as Hs.
  { intros E. rewrite decide_True; [done|]. by destruct Hs as [->|[-> | ->]]. }
  intros E. unfold path_names. destruct (components_shape p) as [Hb|(c & cs & Hp & Hc & Hb)].
  - destruct (lookup_body _ _ _ Hb E) as [names Hn]. rewrite Hn in *. rewrite names_of_normal.
    case_decide as H1; [by rewrite H1 in E|done].
  - rewrite Hp in *. destruct cs as [|c2 cs].
    { destruct Hc as [-> | ->]; [done|]. exact E. }
    assert (lookup_components create k (c2 :: cs) root = Ok r) as E' by (by destruct Hc as [-> | ->]).
    destruct (lookup_body _ _ _ Hb E') as [names Hn]. rewrite Hn in *.
    assert (omap (fun c => match c with Normal n => Some n | _ => None end) (c :: (Normal <$> names)) = names) as ->.
    { csimpl. rewrite names_of_normal. by destruct Hc as [-> | ->]. }
    rewrite decide_False; [done|]. by intros ->.
Qed.
End lookup_names.

(** * The tree as a map from paths *)

(** What an entry shows without its children. *)
Inductive View := VFile (f : Leaf) | VSymlink (s : Leaf) | VDir (m : Meta) | VSelf.

Definition view (x : Dirent) : View :=
  match x with
  | File f => VFile f
  | Symlink s => VSymlink s
  | SubDir d => VDir (d_meta (d_info d))
  | Dot | DotDot => VSelf
  end.

Definition tree_view (names : list bstr) (d : Dir) : option View := view <$> tree_get names d.

(** What a change at [names] means for the path [ns]: at it, below it, above it
    or elsewhere. *)
Fixpoint at_path {A} (names ns : list bstr) (here below above other : A) : A :=
  match names, ns with
  | [], [] => here
  | [], _ :: _ => below
  | _ :: _, [] => above
  | n :: names, m :: ns => if decide (m = n) then at_path names ns here below above other else other
  end.

(** A directory that was there keeps its metadata. *)
Definition dir_view (o : option View) : View :=
  match o with Some (VDir m) => VDir m | _ => VDir Meta_default end.

Lemma tree_view_cons n m ns d :
  tree_view (n :: m :: ns) d =
    match bt_get n (d_children d) with Some (SubDir sub) => tree_view (m :: ns) sub | _ => None end.
Proof. unfold tree_view. rewrite tree_get_cons. by destruct (bt_get n (d_children d)) as [[]|]. Qed.

Lemma tree_view_default ns : Forall normal_name ns -> tree_view ns Dir_default = None.
Proof. intros Hn. unfold tree_view. by rewrite tree_get_default. Qed.

(** ** Changes along a path *)

Section change.
Context {A : Type} (create : bool) (k : Dir -> option bstr -> result Error (A * Dir)).
Context (here below : option View -> option View).

(** What the last step does to the directory it ends in. *)
Context (Hk : forall d n a d', k d (Some n) = Ok (a, d') -> d_info d' = d_info d /\
  forall ns, ns <> [] -> Forall normal_name ns ->
    tree_view ns d' = at_path [n] ns (here (tree_view ns d)) (below (tree_view ns d)) None (tree_view ns d)).

Lemma enter_view n d sub d1 :
  (if create then get_or_create_dir n d else rmap (fun sub => (sub, d)) (get_dir n d)) = Ok (sub, d1) ->
  d_info d1 = d_info d /\ (forall m, m <> n -> bt_get m (d_children d1) = bt_get m (d_children d)) /\
  (bt_get n (d_children d) = Some (SubDir sub) \/ bt_get n (d_children d) = None /\ sub = Dir_default).
Proof.
  destruct create.
  - intros E. split; [|by apply get_or_create_dir_get in E]. unfold get_or_create_dir in E.
    destruct (bt_get n (d_children d)) as [[]|]; by simplify_eq.
  - intros E. apply rmap_Ok_inv in E as (s & E & [= -> ->]). unfold get_dir in E.
    destruct (bt_get n (d_children d1)) as [[]|]; simplify_eq; auto.
Qed.

Lemma lookup_view names d a d' :
  names <> [] -> lookup_components create k (Normal <$> names) d = Ok (a, d') ->
  d_info d' = d_info d /\
  forall ns, ns <> [] -> Forall normal_name ns ->
    tree_view ns d' = at_path names ns (here (tree_view ns d)) (below (tree_view ns d))
      (Some (dir_view (tree_view ns d))) (tree_view ns d).
Proof.
  intros Hne. revert d a d'. induction names as [|n names IH]; [done|]. intros d a d' E.
  destruct names as [|n2 names].
  { destruct (Hk d n a d' E) as [Hi Hv]. split; [done|]. intros [|m ns] Hns Hf; [done|]. rewrite Hv by done.
    simpl. by destruct (decide (m = n)), ns. }
  rewrite !fmap_cons, lookup_components_cons in E. apply rbind_Ok_inv in E as ([sub d1] & E1 & E).
  apply rbind_Ok_inv in E as ([a' sub'] & E2 & [= <- <-]).
  apply enter_view in E1 as (Hi1 & Hoth & Hsub). rewrite <-fmap_cons in E2.
  apply IH in E2 as [Hi2 Hv2]; [|done]. split; [done|]. intros [|m ns] Hns Hf; [done|].
  change (at_path (n :: n2 :: names) (m :: ns) ?h ?b ?o ?x)
    with (if decide (m = n) then at_path (n2 :: names) ns h b o x else x).
  destruct (decide (m = n)) as [->|Hm].
  - apply Forall_cons in Hf as [_ Hf]. destruct ns as [|m2 ns].
    + unfold tree_view. simpl. rewrite bt_insert_get_eq. simpl. rewrite Hi2.
      by destruct Hsub as [->|[-> ->]].
    + rewrite !tree_view_cons. cbn [set_children d_children]. rewrite bt_insert_get_eq, Hv2 by done.
      destruct Hsub as [->|[-> ->]]; [done|]. by rewrite tree_view_default.
  - destruct ns as [|m2 ns].
    + unfold tree_view. simpl. by rewrite bt_insert_get_ne, Hoth.
    + rewrite !tree_view_cons. cbn [set_children d_children]. by rewrite bt_insert_get_ne, Hoth.
Qed.
End change.

(** The root is a directory as well. *)
Definition root_view (ns : list bstr) (d : Dir) : option View :=
  match ns with [] => Some (VDir (d_meta (d_info d))) | _ => tree_view ns d end.

(** ** The operations of the tree *)

Definition is_leaf (x : Dirent) : Prop := match x with File _ | Symlink _ => True | _ => False end.

Lemma insert_entry_view entry d n a d' :
  is_leaf entry -> insert_entry entry d (Some n) = Ok (a, d') -> d_info d' = d_info d /\
  forall ns, ns <> [] -> Forall normal_name ns ->
    tree_view ns d' = at_path [n] ns (Some (view entry)) None None (tree_view ns d).
Proof.
  intros Hl [= <- <-]. split; [done|]. intros [|m ns] Hne _; [done|]. simpl.
  destruct (decide (m = n)) as [->|Hm].
  - unfold tree_view. destruct ns as [|m2 ns]; simpl; rewrite bt_insert_get_eq; [done|]. by destruct entry.
  - unfold tree_view. destruct ns as [|m2 ns]; simpl; by rewrite bt_insert_get_ne.
Qed.

Lemma root_insert_view p entry root root' :
  is_leaf entry -> root_insert p entry root = Ok root' ->
  path_names p <> [] /\ forall ns, Forall normal_name ns ->
    root_view ns root' = at_path (path_names p) ns (Some (view entry)) None
      (Some (dir_view (root_view ns root))) (root_view ns root).
Proof.
  intros Hl E. unfold root_insert in E. apply rmap_Ok_inv in E as ([[] r] & E & <-).
  change (fun dir name => _) with (insert_entry entry) in E. apply lookup_impl_names in E.
  case_decide as Hn; [done|]. split; [done|].
  destruct (lookup_view _ _ (fun _ => Some (view entry)) (fun _ => None)
    (fun d n a d' => insert_entry_view entry d n a d' Hl) _ _ _ _ Hn E) as [Hi Hv].
  intros [|m ns] Hf; [|by apply Hv]. simpl. rewrite Hi. by destruct (path_names p).
Qed.

Definition upsert_entry (meta : Meta) (dir : Dir) (name : option bstr) : result Error (unit * Dir) :=
  match name with
  | None => Ok (tt, set_dir_meta meta dir)
  | Some name =>
      let? '(sub, dir) := get_or_create_dir name dir in
      Ok (tt, set_children (bt_insert name (SubDir (set_dir_meta meta sub)) (d_children dir)) dir)
  end.

Lemma upsert_entry_view meta d n a d' :
  upsert_entry meta d (Some n) = Ok (a, d') -> d_info d' = d_info d /\
  forall ns, ns <> [] -> Forall normal_name ns ->
    tree_view ns d' = at_path [n] ns (Some (VDir meta)) (tree_view ns d) None (tree_view ns d).
Proof.
  intros E. apply rbind_Ok_inv in E as ([sub d1] & E & [= <- <-]).
  apply (enter_view true) in E as (Hi & Hoth & Hsub). split; [done|]. intros [|m ns] Hne Hf; [done|]. simpl.
  destruct (decide (m = n)) as [->|Hm].
  - apply Forall_cons in Hf as [_ Hf]. destruct ns as [|m2 ns].
    + unfold tree_view. simpl. by rewrite bt_insert_get_eq.
    + rewrite !tree_view_cons. cbn [set_children d_children]. rewrite bt_insert_get_eq.
      assert (tree_view (m2 :: ns) (set_dir_meta meta sub) = tree_view (m2 :: ns) sub) as -> by (by destruct ns).
      destruct Hsub as [->|[-> ->]]; [done|]. by rewrite tree_view_default.
  - unfold tree_view. destruct ns as [|m2 ns]; simpl; by rewrite bt_insert_get_ne, Hoth.
Qed.

Lemma root_upsert_dir_view p meta root root' :
  root_upsert_dir p meta root = Ok root' ->
  forall ns, Forall normal_name ns ->
    root_view ns root' = at_path (path_names p) ns (Some (VDir meta)) (root_view ns root)
      (Some (dir_view (root_view ns root))) (root_view ns root).
Proof.
  intros E. unfold root_upsert_dir in E. apply rmap_Ok_inv in E as ([[] r] & E & <-).
  change (fun dir name => _) with (upsert_entry meta) in E. apply lookup_impl_names in E.
  case_decide as Hn.
  - rewrite Hn. injection E as <-. intros [|m ns] _; [done|]. by destruct ns.
  - destruct (lookup_view _ _ (fun _ => Some (VDir meta)) (fun o => o) (upsert_entry_view meta) _ _ _ _ Hn E) as [Hi Hv].
    intros [|m ns] Hf; [|by apply Hv]. simpl. rewrite Hi. by destruct (path_names p).
Qed.

(** One more link on a file or symlink. *)
Definition bump_leaf (f : Leaf) : Leaf := set_leaf_n_links (wadd 32 (l_n_links f) 1) f.
Definition bump_view (v : View) : View :=
  match v with VFile f => VFile (bump_leaf f) | VSymlink s => VSymlink (bump_leaf s) | v => v end.

Lemma link_entry_view d n a d' :
  get_entry link_target d (Some n) = Ok (a, d') -> d_info d' = d_info d /\
  forall ns, ns <> [] -> Forall normal_name ns ->
    tree_view ns d' = at_path [n] ns (bump_view <$> tree_view ns d) (tree_view ns d) None (tree_view ns d).
Proof.
  simpl. destruct (bt_get n (d_children d)) as [x|] eqn:E.
  - intros H. apply rbind_Ok_inv in H as ([y x'] & Hx & [= <- <-]). split; [done|].
    intros [|m ns] Hne _; [done|]. simpl. unfold tree_view. destruct (decide (m = n)) as [->|Hm].
    + destruct ns; simpl; rewrite bt_insert_get_eq, E; by destruct x; try done; injection Hx as <- <-.
    + destruct ns; simpl; by rewrite bt_insert_get_ne.
  - intros [= <- <-]. split; [done|]. intros [|m ns] Hne _; [done|]. simpl. destruct (decide (m = n)) as [->|Hm]; [|done].
    destruct ns; [|done]. unfold tree_view. simpl. by rewrite E.
Qed.

Lemma at_path_same {A} names ns (h o : A) : at_path names ns h o o o = if decide (ns = names) then h else o.
Proof.
  revert ns. induction names as [|n names IH]; intros [|m ns]; simpl; [done..|].
  destruct (decide (m = n)) as [->|Hm].
  - rewrite IH. repeat case_decide; congruence.
  - case_decide; congruence.
Qed.

(** Above an entry there are directories. *)
Lemma tree_view_above names x d ns h b o :
  tree_get names d = Some x -> ns <> [] ->
  at_path names ns h b (Some (dir_view (tree_view ns d))) o = at_path names ns h b (tree_view ns d) o.
Proof.
  revert d ns. induction names as [|n names IH]; [done|]. intros d [|m ns] Hx Hne; [done|]. simpl at_path.
  destruct (decide (m = n)) as [->|]; [|done]. destruct names as [|n2 names]; [by destruct ns|].
  rewrite tree_get_cons in Hx. destruct (bt_get n (d_children d)) as [[| sub | | |]|] eqn:E; try done.
  destruct ns as [|m2 ns].
  - simpl. unfold tree_view. simpl. by rewrite E.
  - rewrite !tree_view_cons, E. by apply IH.
Qed.

Lemma root_get_link_view p root a root' :
  root_get_mut p link_target root = Ok (Some a, root') ->
  (forall ns, Forall normal_name ns ->
     root_view ns root' = if decide (ns = path_names p) then bump_view <$> root_view ns root else root_view ns root) /\
  exists f, (root_view (path_names p) root = Some (VFile f) \/ root_view (path_names p) root = Some (VSymlink f)) /\
    a = (l_start_block f, l_len f, l_tail f).
Proof.
  intros E. unfold root_get_mut in E. change (fun dir name => _) with (get_entry link_target) in E.
  apply lookup_impl_names in E. case_decide as Hn; [done|].
  destruct (lookup_view _ _ (fmap bump_view) (fun o => o) link_entry_view _ _ _ _ Hn E) as [Hi Hv].
  apply get_components in E as (Hs & _ & _); [|done].
  destruct (Hs a eq_refl) as (x & x' & Hx & Hl & _). split.
  - intros [|m ns] Hf; [rewrite decide_False by done; simpl; by rewrite Hi|].
    change (root_view (m :: ns) ?d) with (tree_view (m :: ns) d). rewrite Hv by done.
    by rewrite (tree_view_above _ x), at_path_same.
  - destruct (path_names p) as [|n names]; [done|]. change (root_view (n :: names) root) with (tree_view (n :: names) root).
    unfold tree_view. rewrite Hx. destruct x as [f|?|f| |]; try done; injection Hl as <- _; exists f; auto.
Qed.

(** * What the tree of a builder is like *)

Definition name_ok (n : bstr) : Prop := 12 + zlen n <= 4096 /\ x00 ∉ n.

(** Metadata that fits an inode, with xattrs that leave room for a tail. *)
Definition meta_ok (m : Meta) : Prop := good_meta m /\ inode_total (m_xattrs m) None < 2048.

(** Directories of at most [N] entries that no pass has visited yet. *)
Definition dir_inv (N : Z) (ns : list bstr) (i : DirInfo) : Prop :=
  ns <> [] /\ zlen ns <= N /\ Forall name_ok ns /\ d_n_dirents_per_block i = [] /\ d_disk_id i = None /\
  meta_ok (d_meta i).
(** Leaves that can be written, with a tail of at most half a block. *)
Definition leaf_inv (t : FileType.t) (f : Leaf) : Prop := leaf_ready t f /\ zlen (tail_bytes (l_tail f)) <= 2048.
Abbreviation tree_inv N := (all_dir (dir_inv N) leaf_inv).

Lemma tree_inv_mono N M d : N <= M -> tree_inv N d -> tree_inv M d.
Proof.
  intros Hle. apply all_dir_mono; [|done]. intros ns i (? & ? & ?). split; [done|]. split; [lia|done].
Qed.

Lemma Meta_default_ok : meta_ok Meta_default.
Proof. vm_compute. intuition congruence. Qed.

Lemma dots_ok : name_ok dot /\ name_ok dotdot.
Proof. split; apply (bool_decide_unpack _); reflexivity. Qed.

Lemma Dir_default_inv N : 2 <= N -> tree_inv N Dir_default.
Proof.
  intros HN. constructor; [|change (all_kids (dir_inv N) leaf_inv [(dot, Dot); (dotdot, DotDot)]); repeat constructor].
  split; [done|]. split; [exact HN|]. split; [|split_and!; try done; apply Meta_default_ok].
  destruct dots_ok. change (Forall name_ok [dot; dotdot]). auto.
Qed.

Lemma insert_inv N n x d :
  tree_inv N d -> name_ok n -> all_entry (dir_inv (N + 1)) leaf_inv x ->
  tree_inv (N + 1) (set_children (bt_insert n x (d_children d)) d).
Proof.
  intros Hd Hn Hx. apply (tree_inv_mono N (N + 1)) in Hd as Hd'; [|lia]. destruct d as [c i].
  inversion Hd as [? ? (H1 & H2 & H3 & H4) _]; subst. inversion Hd' as [? ? _ Hk]; subst. simpl. constructor.
  - split; [|split; [|split; [|done]]].
    + intros H0%fmap_nil_inv. pose proof (bt_insert_get_eq n x c) as Hg. by rewrite H0 in Hg.
    + pose proof (bt_insert_length n x c). unfold zlen in *. rewrite length_fmap in *. lia.
    + apply Forall_fmap. apply bt_insert_Forall; [exact Hn|intros ? _; exact Hn|by apply Forall_fmap].
  - apply all_kids_Forall. apply all_kids_Forall in Hk. apply bt_insert_Forall; [exact Hx|intros ? _; exact Hx|exact Hk].
Qed.

Lemma sub_inv N n sub d : tree_inv N d -> bt_get n (d_children d) = Some (SubDir sub) -> tree_inv N sub.
Proof.
  intros Hd Hg. inversion Hd as [c i _ Hk]; subst. simpl in Hg. apply all_kids_Forall in Hk.
  apply bt_get_Some_In in Hg. rewrite Forall_forall in Hk. by apply Hk in Hg.
Qed.

Lemma set_children_twice n x y d :
  set_children (bt_insert n y (d_children (set_children (bt_insert n x (d_children d)) d)))
    (set_children (bt_insert n x (d_children d)) d) = set_children (bt_insert n y (d_children d)) d.
Proof. unfold set_children. simpl. by rewrite bt_insert_insert. Qed.

Section keep.
Context {A : Type} (create : bool) (k : Dir -> option bstr -> result Error (A * Dir)) (N : Z) (HN : 2 <= N).
Context (Hk : forall d n a d', tree_inv N d -> name_ok n -> k d (Some n) = Ok (a, d') -> tree_inv (N + 1) d').

Lemma lookup_inv names d a d' :
  names <> [] -> Forall name_ok names -> tree_inv N d ->
  lookup_components create k (Normal <$> names) d = Ok (a, d') -> tree_inv (N + 1) d'.
Proof.
  intros Hne Hn. revert d a d' Hne. induction Hn as [|n names Hn Hns IH]; [done|]. intros d a d' _ Hd E.
  destruct names as [|n2 names]; [by eapply Hk|].
  rewrite !fmap_cons, lookup_components_cons in E. apply rbind_Ok_inv in E as ([sub d1] & E1 & E).
  apply rbind_Ok_inv in E as ([a' sub'] & E2 & [= <- <-]). rewrite <-fmap_cons in E2.
  assert (tree_inv N sub /\ (d1 = d \/ exists x, d1 = set_children (bt_insert n x (d_children d)) d)) as [Hsub Hd1].
  { destruct create.
    - unfold get_or_create_dir in E1. destruct (bt_get n (d_children d)) as [[]|] eqn:Eg; try done.
      + injection E1 as <- <-. split; [by eapply sub_inv|by left].
      + injection E1 as <- <-. split; [by apply Dir_default_inv|right; by eexists].
    - apply rmap_Ok_inv in E1 as (s & E1 & [= -> ->]). unfold get_dir in E1.
      destruct (bt_get n (d_children d1)) as [[]|] eqn:Eg; try done. injection E1 as ->.
      split; [by eapply sub_inv|by left]. }
  assert (tree_inv (N + 1) sub') as Hsub' by (eapply IH; [done|exact Hsub|exact E2]).
  destruct Hd1 as [->|[x ->]]; [by apply insert_inv|].
  rewrite set_children_twice. by apply insert_inv.
Qed.
End keep.

Lemma root_insert_inv N p x root root' :
  2 <= N -> Forall name_ok (path_names p) -> tree_inv N root -> all_entry (dir_inv (N + 1)) leaf_inv x ->
  root_insert p x root = Ok root' -> tree_inv (N + 1) root'.
Proof.
  intros HN Hp Hr Hx E. unfold root_insert in E. apply rmap_Ok_inv in E as ([[] r] & E & <-).
  apply lookup_impl_names in E. case_decide; [done|]. eapply lookup_inv; [exact HN| |done..|exact E].
  intros d n a d' Hd Hn [= <- <-]. by apply insert_inv.
Qed.

Lemma set_dir_meta_inv N m d : meta_ok m -> tree_inv N d -> tree_inv N (set_dir_meta m d).
Proof.
  intros Hm Hd. inversion Hd as [c i (H1 & H2 & H3 & H4 & H5 & _) Hk]; subst. constructor; [|done]. by split_and!.
Qed.

Lemma root_upsert_dir_inv N p m root root' :
  2 <= N -> Forall name_ok (path_names p) -> tree_inv N root -> meta_ok m ->
  root_upsert_dir p m root = Ok root' -> tree_inv (N + 1) root'.
Proof.
  intros HN Hp Hr Hm E. unfold root_upsert_dir in E. apply rmap_Ok_inv in E as ([[] r] & E & <-).
  apply lookup_impl_names in E. case_decide.
  - injection E as <-. apply set_dir_meta_inv; [done|]. apply (tree_inv_mono N); [lia|done].
  - eapply lookup_inv; [exact HN| |done..|exact E]. intros d n a d' Hd Hn Ek.
    apply rbind_Ok_inv in Ek as ([sub d1] & Eg & [= <- <-]). unfold get_or_create_dir in Eg.
    destruct (bt_get n (d_children d)) as [[]|] eqn:Eb; try done; injection Eg as <- <-;
      rewrite ?set_children_twice; apply insert_inv; try done;
      apply set_dir_meta_inv; try done.
    + apply (tree_inv_mono N); [lia|]. by eapply sub_inv.
    + apply Dir_default_inv. lia.
Qed.

Lemma bump_leaf_inv t f : leaf_inv t f -> leaf_inv t (bump_leaf f).
Proof.
  intros [[(H1 & H2 & H3 & H4 & H5 & H6) H7] H8]. split; [|done]. split; [|done]. split_and!; try done.
  by apply wadd_in_width.
Qed.

Lemma root_get_link_inv N p root a root' :
  2 <= N -> Forall name_ok (path_names p) -> tree_inv N root ->
  root_get_mut p link_target root = Ok (a, root') -> tree_inv (N + 1) root'.
Proof.
  intros HN Hp Hr E. unfold root_get_mut in E. apply lookup_impl_names in E. case_decide.
  - injection E as _ <-. apply (tree_inv_mono N); [lia|done].
  - eapply lookup_inv; [exact HN| |done..|exact E]. intros d n a' d' Hd Hn Ek. cbv beta iota in Ek.
    destruct (bt_get n (d_children d)) as [x|] eqn:Eb.
    + apply rbind_Ok_inv in Ek as ([y x'] & Ex & [= <- <-]). apply insert_inv; [done..|].
      inversion Hd as [c i _ Hk]; subst. apply all_kids_Forall in Hk. simpl in Eb.
      apply bt_get_Some_In in Eb. rewrite Forall_forall in Hk. apply Hk in Eb. simpl in Eb.
      destruct x; try done; injection Ex as <- <-; by apply bump_leaf_inv.
    + injection Ek as <- <-. apply (tree_inv_mono N); [lia|done].
Qed.

(** * The specification *)

Inductive Node :=
  | NFile (m : Meta) (links : Z) (contents : list byte)
  | NSymlink (m : Meta) (links : Z) (target : list byte)
  | NDir (m : Meta).

(** A file system: what is at each path; the empty path is the root. *)
Definition Fs := list bstr -> option Node.

Definition fs_new : Fs := fun ns => match ns with [] => Some (NDir Meta_default) | _ => None end.

Definition dir_node (o : option Node) : Node :=
  match o with Some (NDir m) => NDir m | _ => NDir Meta_default end.

(** A file or symlink replaces what was at and below its path, and the
    directories above it exist. *)
Definition fs_put (path : list bstr) (x : Node) (fs : Fs) : Fs :=
  fun ns => at_path path ns (Some x) None (Some (dir_node (fs ns))) (fs ns).
(** A directory keeps what is below it. *)
Definition fs_mkdir (path : list bstr) (m : Meta) (fs : Fs) : Fs :=
  fun ns => at_path path ns (Some (NDir m)) (fs ns) (Some (dir_node (fs ns))) (fs ns).

Definition node_contents (o : option Node) : list byte :=
  match o with Some (NFile _ _ c) | Some (NSymlink _ _ c) => c | _ => [] end.
Definition bump_node (x : Node) : Node :=
  match x with
  | NFile m l c => NFile m (wadd 32 l 1) c
  | NSymlink m l c => NSymlink m (wadd 32 l 1) c
  | x => x
  end.
Definition fs_bump (path : list bstr) (fs : Fs) : Fs :=
  fun ns => if decide (ns = path) then bump_node <$> fs ns else fs ns.

(** A hard link: a file with the contents of its target. *)
Definition fs_link (l : bstr * bstr * Meta) (fs : Fs) : Fs :=
  let '(path, target, m) := l in
  fs_put (path_names path) (NFile m 2 (node_contents (fs (path_names target))))
    (fs_bump (path_names target) fs).

Definition shift_meta (inc : option Z) (m : Meta) : Meta :=
  match inc with
  | Some i => {| m_uid := m_uid m + i; m_gid := m_gid m + i; m_mtime := m_mtime m; m_mode := m_mode m;
                 m_xattrs := m_xattrs m |}
  | None => m
  end.

(** The file system and the hard links that are not resolved yet. *)
Record Spec := { s_fs : Fs; s_links : list (bstr * bstr * Meta) }.

Definition spec_new : Spec := {| s_fs := fs_new; s_links := [] |}.
Definition spec_resolve (s : Spec) : Spec :=
  {| s_fs := fold_left (fun fs l => fs_link l fs) (s_links s) (s_fs s); s_links := [] |}.
Definition spec_step (inc : option Z) (op : BuildOp) (s : Spec) : Spec :=
  match op with
  | AddFile path m len contents =>
      {| s_fs := fs_put (path_names path) (NFile (shift_meta inc m) 1 contents) (s_fs s); s_links := s_links s |}
  | UpsertDir path m => {| s_fs := fs_mkdir (path_names path) (shift_meta inc m) (s_fs s); s_links := s_links s |}
  | AddSymlink path link m =>
      {| s_fs := fs_put (path_names path) (NSymlink (shift_meta inc m) 1 link) (s_fs s); s_links := s_links s |}
  | AddLink path target m => {| s_fs := s_fs s; s_links := s_links s ++ [(path, target, m)] |}
  | ResolveLinks => spec_resolve s
  end.
Definition spec_run (inc : option Z) (ops : list BuildOp) : Spec :=
  fold_left (fun s op => spec_step inc op s) ops spec_new.

(** ** Representation *)

Definition leaf_rep (bytes : list byte) (f : Leaf) (m : Meta) (links : Z) (c : list byte) : Prop :=
  l_meta f = m /\ l_n_links f = links /\ stored bytes f c.

Definition view_rep (bytes : list byte) (v : option View) (x : option Node) : Prop :=
  match v, x with
  | None, None => True
  | Some (VFile f), Some (NFile m l c) => leaf_rep bytes f m l c
  | Some (VSymlink f), Some (NSymlink m l c) => leaf_rep bytes f m l c
  | Some (VDir m), Some (NDir m') => m = m'
  | _, _ => False
  end.

Definition tree_rep (bytes : list byte) (root : Dir) (fs : Fs) : Prop :=
  forall ns, Forall normal_name ns -> view_rep bytes (root_view ns root) (fs ns).

Lemma view_rep_at bytes names ns h h' b b' a a' o o' :
  view_rep bytes h h' -> view_rep bytes b b' -> view_rep bytes a a' -> view_rep bytes o o' ->
  view_rep bytes (at_path names ns h b a o) (at_path names ns h' b' a' o').
Proof.
  revert ns. induction names as [|n names IH]; intros [|m ns]; simpl; intros; [done..|].
  destruct (decide (m = n)); [by apply IH|done].
Qed.

Lemma view_rep_dir bytes o o' : view_rep bytes o o' -> view_rep bytes (Some (dir_view o)) (Some (dir_node o')).
Proof. by destruct o as [[]|], o' as [[]|]. Qed.

Lemma view_rep_bump bytes o o' : view_rep bytes o o' -> view_rep bytes (bump_view <$> o) (bump_node <$> o').
Proof.
  destruct o as [[]|], o' as [[]|]; try done; intros (H1 & <- & H3); by split.
Qed.

Lemma stored_prefix x y f c : x `prefix_of` y -> stored x f c -> stored y f c.
Proof.
  intros Hp (H1 & H2 & block & H3 & H4 & H5). split; [done|]. split; [done|]. exists block.
  split; [done|]. split; [done|]. destruct (decide (block = [])); [done|]. destruct H5 as [H5 H6]. split; [done|].
  eapply get_range_prefix_of; [|exact Hp|exact H6]. lia.
Qed.

Lemma tree_rep_prefix x y root fs : x `prefix_of` y -> tree_rep x root fs -> tree_rep y root fs.
Proof.
  intros Hp Hr ns Hn. specialize (Hr ns Hn). destruct (root_view ns root) as [[]|], (fs ns) as [[]|]; try done;
    destruct Hr as (H1 & H2 & H3); (split; [done|]; split; [done|]; by eapply stored_prefix).
Qed.

Lemma tree_rep_new : tree_rep [] Dir_default fs_new.
Proof.
  intros [|n ns] Hn; [done|]. change (root_view (n :: ns) Dir_default) with (tree_view (n :: ns) Dir_default).
  by rewrite tree_view_default.
Qed.

(** The operations on the tree represent those of the specification. *)
Lemma root_insert_rep bytes p x y root root' fs :
  is_leaf x -> view_rep bytes (Some (view x)) (Some y) -> tree_rep bytes root fs ->
  root_insert p x root = Ok root' -> tree_rep bytes root' (fs_put (path_names p) y fs).
Proof.
  intros Hl Hx Hr E. apply root_insert_view in E as [_ Hv]; [|done]. intros ns Hn. rewrite Hv by done.
  apply view_rep_at; [done|done|by apply view_rep_dir, Hr|by apply Hr].
Qed.

Lemma root_upsert_dir_rep bytes p m root root' fs :
  tree_rep bytes root fs -> root_upsert_dir p m root = Ok root' -> tree_rep bytes root' (fs_mkdir (path_names p) m fs).
Proof.
  intros Hr E. pose proof (root_upsert_dir_view _ _ _ _ E) as Hv. intros ns Hn. rewrite Hv by done.
  apply view_rep_at; [done|by apply Hr|by apply view_rep_dir, Hr|by apply Hr].
Qed.

Lemma resolve_link_rep bytes path target m root a root1 root2 fs :
  tree_rep bytes root fs -> root_get_mut target link_target root = Ok (Some a, root1) ->
  root_insert path (File {| l_meta := m; l_start_block := a.1.1; l_n_links := 2; l_len := a.1.2; l_tail := a.2;
                            l_disk_id := None |}) root1 = Ok root2 ->
  tree_rep bytes root2 (fs_link (path, target, m) fs).
Proof.
  intros Hr E1 E2. apply root_get_link_view in E1 as (Hv & f & Hf & ->).
  refine (root_insert_rep bytes path _ _ root1 root2 _ _ _ _ E2);
    [done| |intros ns Hn; rewrite Hv by done; unfold fs_bump; case_decide].
  - pose proof (Hr _ (path_names_normal target)) as Ht. simpl.
    destruct Hf as [Hf|Hf]; rewrite Hf in Ht; destruct (fs (path_names target)) as [[]|]; try done;
      destruct Ht as (_ & _ & Hst); by split.
  - by apply view_rep_bump, Hr.
  - by apply Hr.
Qed.

(** * The builder *)

(** Between two operations: the writer is at the end of the data. *)
Definition data_inv (b : Builder) : Prop :=
  b_block_size_bits b = 12 /\ 1 <= b_cur_data_block b /\
  o_pos (b_writer b) = b_cur_data_block b * 4096 /\ zlen (o_bytes (b_writer b)) <= o_pos (b_writer b) /\
  b_name_buf b = [] /\ b_superblock b = Superblock_zeroed /\ b_n_inodes b = 0.

(** What writing data leaves alone. *)
Definition data_frame (b b' : Builder) : Prop :=
  b_root b' = b_root b /\ b_links b' = b_links b /\ b_increment_uid_gid b' = b_increment_uid_gid b /\
  o_bytes (b_writer b) `prefix_of` o_bytes (b_writer b').

Lemma write_blocks_writer n l data b :
  0 <= o_pos (b_writer b) ->
  exists p, let b' := write_blocks n l data b in
  b_writer b' = write_all (ztake l data ++ zeros p) (b_writer b) /\
  b_cur_data_block b' = wadd 64 (b_cur_data_block b) n /\ b_links b' = b_links b /\ b_root b' = b_root b /\
  b_increment_uid_gid b' = b_increment_uid_gid b /\
  b_name_buf b' = b_name_buf b /\ b_superblock b' = b_superblock b /\ b_n_inodes b' = b_n_inodes b.
Proof.
  intros Hp. unfold write_blocks, zero_fill_block, zero_fill. destruct (negb _); simpl.
  - eexists (_ - _). split; [|done]. by rewrite write_all_app.
  - exists 0. split; [|done]. by rewrite app_nil_r.
Qed.

Lemma write_all_end data o :
  zlen (o_bytes o) <= o_pos o ->
  o_bytes o `prefix_of` o_bytes (write_all data o) /\ zlen (o_bytes (write_all data o)) <= o_pos (write_all data o).
Proof.
  intros Hz. destruct (decide (data = [])) as [->|Hd]; [by rewrite write_all_nil|].
  rewrite write_past_end by done. split; [by apply prefix_app_r|]. simpl. rewrite !zlen_app, zlen_zeros by lia. lia.
Qed.

(** The data of a file or symlink: its blocks are written, its tail is kept. *)
Lemma data_parts b c n bl tl start :
  data_inv b -> zlen c < 2 ^ 40 -> size_tail_len (zlen c) 12 = (n, bl, tl) -> start_block_of b bl = Ok start ->
  let b' := if 0 <? bl then write_blocks n bl c b else b in
  b_cur_data_block b <= b_cur_data_block b' /\
  (b_cur_data_block b' <= EROFS_NULL_ADDR -> data_inv b' /\ data_frame b b' /\ 1 <= start <= EROFS_NULL_ADDR /\
     0 <= tl <= 2048 /\ bl + tl = zlen c /\
     forall meta, stored (o_bytes (b_writer b'))
       {| l_meta := meta; l_start_block := start; l_n_links := 1; l_len := zlen c;
          l_tail := if 0 <? tl then Some (zdrop bl c) else None; l_disk_id := None |} c).
Proof.
  intros (Hb & Hc & Hp & Hz & Hnb & Hsb & Hni) Hlen Hst Hs b'.
  pose proof (zlen_nonneg c). pose proof (size_tail_len_12 (zlen c) ltac:(lia)) as Ht. rewrite Hst in Ht.
  destruct Ht as (Ht1 & Ht2 & Ht3 & Ht4 & _).
  destruct (write_blocks_writer n bl c b ltac:(lia)) as (p & W1 & W2 & W3 & W4 & W5 & W6 & W7 & W8).
  assert (b_cur_data_block b <= b_cur_data_block b' /\ (0 < bl -> b_cur_data_block b < 2 ^ 32)) as [Hle Hlt].
  { unfold b', start_block_of in *. destruct (Z.ltb_spec 0 bl); [|lia].
    apply ok_or_Ok, try_into_Some in Hs as [_ Hs]. unfold in_width in Hs. rewrite W2, wadd_small by (unfold in_width; lia). lia. }
  split; [done|]. intros Hmax.
  assert (exists b0, data_cursor b0 /\ b_cur_data_block b0 < EROFS_NULL_ADDR /\ start_block_of b0 bl = Ok start /\
    o_bytes (b_writer (if 0 <? bl then write_blocks n bl c b0 else b0)) = o_bytes (b_writer b') /\
    (0 < bl -> b0 = b)) as (b0 & Hcur & Hc0 & Hs0 & Hby & Hb0).
  { unfold b', start_block_of, data_cursor, EROFS_NULL_ADDR, u32_max in *. destruct (Z.ltb_spec 0 bl).
    - exists b. split_and!; try done; try lia. rewrite W2, wadd_small in Hmax by (unfold in_width; lia). lia.
    - exists (set_cur_data_block 1 (set_writer (seek 4096 (b_writer b)) b)). split_and!; try done. lia. }
  assert (forall meta, stored (o_bytes (b_writer b'))
       {| l_meta := meta; l_start_block := start; l_n_links := 1; l_len := zlen c;
          l_tail := if 0 <? tl then Some (zdrop bl c) else None; l_disk_id := None |} c) as Hsto.
  { intros meta. rewrite <-Hby. apply (stored_parts b0 n bl tl start c meta Hcur Hc0 Hlen Hst Hs0). }
  assert (data_inv b' /\ data_frame b b') as [Hd Hf].
  { destruct (stored_parts b0 n bl tl start c Meta_default Hcur Hc0 Hlen Hst Hs0) as (_ & Hb' & Hp' & _).
    unfold data_inv, data_frame. unfold b' in *. destruct (Z.ltb_spec 0 bl) as [Hbl|]; [|by split_and!].
    rewrite (Hb0 Hbl) in *. rewrite W1 in *.
    destruct (write_all_end (ztake bl c ++ zeros p) (b_writer b) Hz). split_and!; try congruence; try done. lia. }
  split; [done|]. split; [done|]. split; [|split; [done|split; [done|exact Hsto]]].
  unfold start_block_of, EROFS_NULL_ADDR, u32_max in *. destruct (0 <? bl); [|injection Hs as <-; lia].
  apply ok_or_Ok, try_into_Some in Hs as [-> Hs]. unfold in_width in Hs. lia.
Qed.

Lemma hook_meta_spec b m m' :
  hook_meta b m = Ok m' -> meta_ok m -> m' = shift_meta (b_increment_uid_gid b) m /\ meta_ok m'.
Proof.
  unfold hook_meta, shift_meta. destruct (b_increment_uid_gid b) as [i|]; [|intros [= <-]; done].
  intros E Hm. apply rbind_Ok_inv in E as (u & Hu & E). apply rbind_Ok_inv in E as (g & Hg & [= <-]).
  apply ok_or_Ok, try_into_Some in Hu as [-> Hu]. apply ok_or_Ok, try_into_Some in Hg as [-> Hg].
  split; [done|]. destruct Hm as [(H1 & H2 & H3 & H4 & H5) H6]. split; [|exact H6]. split; [exact Hu|]. split; [exact Hg|]. by split.
Qed.

Lemma inode_total_tail xattrs tail :
  inode_total xattrs None < 2048 -> zlen (tail_bytes tail) <= 2048 -> inode_total xattrs tail <> 4096.
Proof.
  unfold inode_total. destruct (make_xattr_entries xattrs); [|done..]. change (zlen (tail_bytes None)) with 0. lia.
Qed.

Lemma new_leaf_inv t m start links len tail :
  meta_ok m -> 1 <= start <= EROFS_NULL_ADDR -> in_width 32 links -> in_width 64 len ->
  zlen (tail_bytes tail) <= 2048 ->
  leaf_inv t {| l_meta := m; l_start_block := start; l_n_links := links; l_len := len; l_tail := tail; l_disk_id := None |}.
Proof.
  intros [Hm Hx] Hs Hl Hn Ht. unfold EROFS_NULL_ADDR, u32_max in Hs. split; [|done]. split; [|apply Hs].
  split; [done|]. split; [done|]. split; [unfold in_width; simpl; lia|]. split; [done|]. split; [done|].
  by apply inode_total_tail.
Qed.

Lemma tree_inv_get N names d x :
  tree_inv N d -> tree_get names d = Some x -> all_entry (dir_inv N) leaf_inv x.
Proof.
  revert d. induction names as [|n names IH]; [done|]. intros d Hd Hx.
  assert (forall y, bt_get n (d_children d) = Some y -> all_entry (dir_inv N) leaf_inv y) as Hy.
  { intros y Hg. inversion Hd as [c i _ Hk]; subst. apply all_kids_Forall in Hk. rewrite Forall_forall in Hk.
    by apply bt_get_Some_In, Hk in Hg. }
  destruct names as [|n2 names]; [by apply Hy|]. rewrite tree_get_cons in Hx.
  destruct (bt_get n (d_children d)) as [[| sub | | |]|] eqn:Eg; try done.
  apply (IH sub); [|done]. by apply (Hy (SubDir sub)).
Qed.

(** The inputs for which an image is promised. *)
Definition link_ok (l : bstr * bstr * Meta) : Prop :=
  let '(path, target, m) := l in
  Forall name_ok (path_names path) /\ Forall name_ok (path_names target) /\ meta_ok m.
Definition op_ok (op : BuildOp) : Prop :=
  match op with
  | AddFile path m len c => Forall name_ok (path_names path) /\ meta_ok m /\ len = zlen c /\ zlen c < 2 ^ 40
  | UpsertDir path m => Forall name_ok (path_names path) /\ meta_ok m
  | AddSymlink path link m => Forall name_ok (path_names path) /\ meta_ok m /\ zlen link < 2 ^ 40
  | AddLink path target m => link_ok (path, target, m)
  | ResolveLinks => True
  end.

(** The builder [b] represents the specification's state [s]; no directory has
    more than [N] entries once the pending links are resolved. *)
Definition built (inc : option Z) (N : Z) (b : Builder) (s : Spec) : Prop :=
  data_inv b /\ b_increment_uid_gid b = inc /\ b_links b = s_links s /\ Forall link_ok (s_links s) /\
  exists root M, b_root b = Some root /\ 2 <= M /\ M + 2 * zlen (s_links s) <= N /\ tree_inv M root /\
    tree_rep (o_bytes (b_writer b)) root (s_fs s).

Lemma built_new inc limit : built inc 2 (start_builder limit inc) spec_new.
Proof.
  split; [by vm_compute|]. split; [done|]. split; [done|]. split; [constructor|].
  exists Dir_default, 2. split; [done|]. split; [done|]. split; [done|]. split; [by apply Dir_default_inv|apply tree_rep_new].
Qed.

Lemma with_root_Ok f b b' :
  with_root f b = Ok b' -> exists root root', b_root b = Some root /\ f root = Ok root' /\ b' = set_root (Some root') b.
Proof.
  unfold with_root. destruct (b_root b) as [root|]; [|done]. intros E. apply rbind_Ok_inv in E as (r & E & [= <-]).
  by exists root, r.
Qed.

(** A new leaf in the tree. *)
Lemma insert_leaf_built inc N b b1 s p x y root' :
  built inc N b s -> data_inv b1 -> data_frame b b1 -> Forall name_ok (path_names p) -> is_leaf x ->
  (forall M, all_entry (dir_inv M) leaf_inv x) -> view_rep (o_bytes (b_writer b1)) (Some (view x)) (Some y) ->
  (forall root, b_root b = Some root -> root_insert p x root = Ok root') ->
  built inc (N + 2) (set_root (Some root') b1)
    {| s_fs := fs_put (path_names p) y (s_fs s); s_links := s_links s |}.
Proof.
  intros (Hd & Hi & Hl & Hlk & root & M & Hr & HM & HN & Hinv & Hrep) Hd1 (F1 & F2 & F3 & F4) Hp Hx He Hv E.
  specialize (E root Hr). split; [done|]. split; [by rewrite <-Hi, <-F3|]. split; [by rewrite <-Hl, <-F2|].
  split; [done|]. exists root', (M + 1). split; [done|]. split; [lia|]. split; [simpl; lia|]. split.
  - by eapply root_insert_inv.
  - eapply root_insert_rep; [done|done| |exact E]. by eapply tree_rep_prefix.
Qed.

Lemma file_tail (c : list byte) n bl tl :
  size_tail_len (zlen c) 12 = (n, bl, tl) -> zlen c < 2 ^ 63 ->
  let rest := if 0 <? bl then zdrop bl c else c in
  (if 0 <? tl then if zlen rest <? tl then Err Io else Ok (Some (ztake tl rest)) else Ok None)
    = Ok (if 0 <? tl then Some (zdrop bl c) else None) :> result Error _.
Proof.
  intros Hst Hc rest. pose proof (zlen_nonneg c). pose proof (size_tail_len_12 (zlen c) ltac:(lia)) as Ht.
  rewrite Hst in Ht. destruct Ht as (Ht1 & Ht2 & Ht3 & _). destruct (Z.ltb_spec 0 tl); [|done].
  assert (rest = zdrop bl c) as ->.
  { unfold rest. destruct (Z.ltb_spec 0 bl); [done|]. by replace bl with 0 by lia. }
  assert (zlen (zdrop bl c) = tl) as Hz by (rewrite zlen_zdrop; lia).
  rewrite Hz, Z.ltb_irrefl. by rewrite ztake_ge by lia.
Qed.

Lemma tail_bound (c : list byte) bl tl :
  0 <= tl <= 2048 -> bl + tl = zlen c -> 0 <= bl ->
  zlen (tail_bytes (if 0 <? tl then Some (zdrop bl c) else None)) <= 2048.
Proof.
  intros Ht Hc Hb. destruct (Z.ltb_spec 0 tl); simpl; [|done]. rewrite zlen_zdrop by lia. lia.
Qed.

(** The specification's step for one operation, as long as the blocks of the
    image can be numbered. *)
Definition step_spec (inc : option Z) (N : Z) (s : Spec) (op : BuildOp) (b b' : Builder) : Prop :=
  b_cur_data_block b <= b_cur_data_block b' /\
  (b_cur_data_block b' <= EROFS_NULL_ADDR -> built inc (N + 2) b' (spec_step inc op s)).

(** The part that files and symlinks share: the data, the owner and the entry. *)
Lemma add_leaf_built inc N s p m c b n bl tl start m' root root' (x : Leaf -> Dirent) (y : Meta -> Z -> list byte -> Node) :
  built inc N b s -> Forall name_ok (path_names p) -> meta_ok m -> zlen c < 2 ^ 40 ->
  (forall f, is_leaf (x f)) -> (forall f M, (forall t, leaf_inv t f) -> all_entry (dir_inv M) leaf_inv (x f)) ->
  (forall bytes f m l c, leaf_rep bytes f m l c -> view_rep bytes (Some (view (x f))) (Some (y m l c))) ->
  size_tail_len (zlen c) 12 = (n, bl, tl) -> start_block_of b bl = Ok start ->
  let b1 := if 0 <? bl then write_blocks n bl c b else b in
  hook_meta b1 m = Ok m' -> b_root b1 = Some root ->
  root_insert p (x {| l_meta := m'; l_start_block := start; l_n_links := 1; l_len := zlen c;
                      l_tail := if 0 <? tl then Some (zdrop bl c) else None; l_disk_id := None |}) root = Ok root' ->
  b_cur_data_block b <= b_cur_data_block b1 /\
  (b_cur_data_block b1 <= EROFS_NULL_ADDR ->
   built inc (N + 2) (set_root (Some root') b1)
     {| s_fs := fs_put (path_names p) (y (shift_meta inc m) 1 c) (s_fs s); s_links := s_links s |}).
Proof.
  intros Hbt Hp Hm Hlen Hx1 Hx2 Hx3 Hst Hs b1 Hh Hr E. pose proof Hbt as (Hd & Hi & _).
  destruct (data_parts b c n bl tl start Hd Hlen Hst Hs) as [Hle Hrest]. fold b1 in Hle, Hrest.
  split; [exact Hle|]. intros Hmax. destruct (Hrest Hmax) as (Hd1 & Hf & Hsr & Ht & Hsum & Hsto).
  assert (hook_meta b m = Ok m') as Hh' by (revert Hh; unfold hook_meta; destruct Hf as (_ & _ & -> & _); done).
  apply hook_meta_spec in Hh' as [-> Hm']; [|done]. rewrite Hi in *.
  pose proof (zlen_nonneg c) as Hc0. pose proof (size_tail_len_12 (zlen c) ltac:(lia)) as Hq. rewrite Hst in Hq.
  eapply insert_leaf_built; [exact Hbt|exact Hd1|exact Hf|exact Hp|apply Hx1|..].
  3: { intros r Hr'. destruct Hf as (Hf & _). rewrite Hf, Hr' in Hr. injection Hr as ->. exact E. }
  - intros M. apply Hx2. intros t. apply new_leaf_inv; [done..|unfold in_width; lia|apply tail_bound; [done..|lia]].
  - apply Hx3. split; [done|]. split; [done|]. apply Hsto.
Qed.

Lemma add_file_built inc N s p m len c b b' :
  built inc N b s -> op_ok (AddFile p m len c) -> add_file p m len c b = Ok b' ->
  step_spec inc N s (AddFile p m len c) b b'.
Proof.
  intros Hbt (Hp & Hm & -> & Hlen). pose proof Hbt as ((Hbits & _) & _).
  unfold add_file. destruct (_ <=? _); [done|]. rewrite Hbits.
  destruct (size_tail_len (zlen c) 12) as [[n bl] tl] eqn:Hst. intros E.
  apply rbind_Ok_inv in E as (start & Hs & E). rewrite (file_tail c n bl tl Hst) in E by lia. cbn [rbind] in E.
  apply rbind_Ok_inv in E as (m' & Hh & E). apply with_root_Ok in E as (root & root' & Hr & E & ->).
  unfold root_add_file in E. destruct (ends_with _ _); [done|].
  apply (add_leaf_built inc N s p m c b n bl tl start m' root root' File NFile); try done. intros f M Hf. apply Hf.
Qed.

Lemma add_symlink_built inc N s p link m b b' :
  built inc N b s -> op_ok (AddSymlink p link m) -> add_symlink p link m b = Ok b' ->
  step_spec inc N s (AddSymlink p link m) b b'.
Proof.
  intros Hbt (Hp & Hm & Hlen). pose proof Hbt as ((Hbits & _) & _). unfold add_symlink. rewrite Hbits.
  destruct (size_tail_len (zlen link) 12) as [[n bl] tl] eqn:Hst. intros E.
  apply rbind_Ok_inv in E as (start & Hs & E).
  apply rbind_Ok_inv in E as (m' & Hh & E). apply with_root_Ok in E as (root & root' & Hr & E & ->).
  unfold root_add_symlink in E. destruct (ends_with _ _); [done|].
  apply (add_leaf_built inc N s p m link b n bl tl start m' root root' Symlink NSymlink); try done. intros f M Hf. apply Hf.
Qed.

Lemma upsert_dir_built inc N s p m b b' :
  built inc N b s -> op_ok (UpsertDir p m) -> upsert_dir p m b = Ok b' -> step_spec inc N s (UpsertDir p m) b b'.
Proof.
  intros (Hd & Hi & Hl & Hlk & root & M & Hr & HM & HN & Hinv & Hrep) (Hp & Hm) E. unfold upsert_dir in E.
  apply rbind_Ok_inv in E as (m' & Hh & E). apply with_root_Ok in E as (r & root' & Hr' & E & ->).
  rewrite Hr in Hr'. injection Hr' as <-. split; [done|]. intros _.
  apply hook_meta_spec in Hh as [-> Hm']; [|done]. rewrite Hi in *.
  split; [done|]. split; [done|]. split; [done|]. split; [done|]. exists root', (M + 1).
  split; [done|]. split; [lia|]. split; [simpl; lia|]. split; [by eapply root_upsert_dir_inv|].
  by eapply root_upsert_dir_rep.
Qed.

(** Resolving the links one after the other. *)
Lemma resolve_link_list_rep bytes links root root' fs M :
  2 <= M -> Forall link_ok links -> tree_inv M root -> tree_rep bytes root fs ->
  resolve_link_list links root = Ok root' ->
  tree_inv (M + 2 * zlen links) root' /\ tree_rep bytes root' (fold_left (fun fs l => fs_link l fs) links fs).
Proof.
  intros HM Hl. revert M root fs HM. induction Hl as [|[[path target] m] links (Hp & Ht & Hm) _ IH];
    intros M root fs HM Hinv Hrep E; cbn [resolve_link_list] in E.
  { injection E as <-. change (zlen (@nil (bstr * bstr * Meta))) with 0. by rewrite Z.add_0_r. }
  apply rbind_Ok_inv in E as ([found r1] & E1 & E). apply rbind_Ok_inv in E as ([[start len] tail] & Ef & E).
  apply ok_or_Ok in Ef as ->. apply rbind_Ok_inv in E as (r2 & E2 & E).
  unfold root_add_file in E2. destruct (ends_with _ _); [done|].
  pose proof (root_get_link_inv M target root _ r1 HM Ht Hinv E1) as Hinv1.
  assert (leaf_inv FileType.RegularFile {| l_meta := m; l_start_block := start; l_n_links := 2; l_len := len; l_tail := tail; l_disk_id := None |}) as Hleaf.
  { apply root_get_link_view in E1 as (_ & f & Hf & [= -> -> ->]).
    assert (exists t, leaf_inv t f) as (t & [(_ & W1 & W2 & _) W3] & W4).
    { destruct (path_names target) as [|n ns]; [by destruct Hf|].
      change (root_view (n :: ns) root) with (tree_view (n :: ns) root) in Hf. unfold tree_view in Hf.
      destruct (tree_get (n :: ns) root) as [y|] eqn:Ey; [|by destruct Hf].
      pose proof (tree_inv_get _ _ _ _ Hinv Ey) as Hy. destruct y; destruct Hf as [Hf|Hf]; try done; injection Hf as <-; by exists FileType.RegularFile. }
    apply new_leaf_inv; try done. unfold in_width, EROFS_NULL_ADDR, u32_max in *. lia. }
  apply (IH (M + 1 + 1) r2 (fs_link (path, target, m) fs)) in E as [H1 H2].
  - rewrite zlen_cons. replace (M + 2 * (1 + zlen links)) with (M + 1 + 1 + 2 * zlen links) by lia. done.
  - lia.
  - eapply root_insert_inv; [lia|exact Hp|exact Hinv1| |exact E2]. exact Hleaf.
  - exact (resolve_link_rep bytes path target m root (start, len, tail) r1 r2 fs Hrep E1 E2).
Qed.

Lemma resolve_links_built inc N s b b' :
  built inc N b s -> resolve_links b = Ok b' -> built inc N b' (spec_resolve s) /\ data_frame (set_root (b_root b') (set_links [] b)) b' /\
    b_cur_data_block b' = b_cur_data_block b.
Proof.
  intros (Hd & Hi & Hl & Hlk & root & M & Hr & HM & HN & Hinv & Hrep) E. unfold resolve_links in E.
  apply with_root_Ok in E as (r & root' & Hr' & E & ->). change (b_root (set_links [] b)) with (b_root b) in Hr'.
  rewrite Hr in Hr'. injection Hr' as <-. split; [|done]. rewrite Hl in E.
  destruct (resolve_link_list_rep _ _ _ _ _ _ HM Hlk Hinv Hrep E) as [Hinv' Hrep'].
  split; [done|]. split; [done|]. split; [done|]. split; [constructor|].
  exists root', (M + 2 * zlen (s_links s)). pose proof (zlen_nonneg (s_links s)).
  split; [done|]. split; [lia|]. split; [change (zlen (s_links (spec_resolve s))) with 0; lia|]. done.
Qed.

Lemma built_mono inc N N' b s : N <= N' -> built inc N b s -> built inc N' b s.
Proof.
  intros Hle (Hd & Hi & Hl & Hlk & root & M & Hr & HM & HN & Hinv & Hrep). split_and!; try done.
  exists root, M. split_and!; try done. lia.
Qed.

Lemma build_step_built inc N s op b b' :
  built inc N b s -> op_ok op -> build_step op b = Ok b' -> step_spec inc N s op b b'.
Proof.
  intros Hb Hop. destruct op as [p m len c|p m|p link m|p target m|]; simpl.
  - by apply add_file_built.
  - by apply upsert_dir_built.
  - by apply add_symlink_built.
  - intros [= <-]. split; [done|]. intros _.
    destruct Hb as (Hd & Hi & Hl & Hlk & root & M & Hr & HM & HN & Hinv & Hrep). split; [done|]. split; [done|].
    split; [simpl; by rewrite Hl|]. split; [apply Forall_app; auto|]. exists root, M.
    split; [done|]. split; [done|]. split; [simpl; rewrite zlen_app, zlen_cons, zlen_nil; lia|done].
  - intros E. destruct (resolve_links_built _ _ _ _ _ Hb E) as (Hb' & _ & Hc). split; [lia|]. intros _.
    apply (built_mono _ N); [lia|done].
Qed.

(** The block counter only grows. *)
Lemma build_step_mono op b b' :
  b_block_size_bits b = 12 -> 0 <= b_cur_data_block b -> op_ok op -> build_step op b = Ok b' ->
  b_block_size_bits b' = 12 /\ b_cur_data_block b <= b_cur_data_block b'.
Proof.
  intros Hb Hc Hop.
  assert (forall c n bl tl start, zlen c < 2 ^ 40 -> size_tail_len (zlen c) 12 = (n, bl, tl) ->
    start_block_of b bl = Ok start -> let b1 := if 0 <? bl then write_blocks n bl c b else b in
    b_block_size_bits b1 = 12 /\ b_cur_data_block b <= b_cur_data_block b1) as Hd.
  { intros c n bl tl start Hlen Hst Hs. pose proof (zlen_nonneg c).
    pose proof (size_tail_len_12 (zlen c) ltac:(lia)) as Ht. rewrite Hst in Ht.
    unfold start_block_of in Hs. destruct (Z.ltb_spec 0 bl); [|done].
    apply ok_or_Ok, try_into_Some in Hs as [_ Hs]. unfold in_width in Hs.
    assert (wadd 64 (b_cur_data_block b) n = b_cur_data_block b + n) as Hw by (apply wadd_small; unfold in_width; lia).
    unfold write_blocks, zero_fill_block, zero_fill. destruct (negb _); simpl; rewrite Hw; lia. }
  destruct op as [p m len c|p m|p link m|p target m|]; simpl.
  - destruct Hop as (_ & _ & -> & Hl). unfold add_file. destruct (_ <=? _); [done|]. rewrite Hb.
    destruct (size_tail_len _ _) as [[n bl] tl] eqn:Hst. intros E. apply rbind_Ok_inv in E as (st & Hs & E).
    apply rbind_Ok_inv in E as (? & _ & E). apply rbind_Ok_inv in E as (? & _ & E).
    apply with_root_Ok in E as (? & ? & _ & _ & ->). exact (Hd c n bl tl st Hl Hst Hs).
  - unfold upsert_dir. intros E. apply rbind_Ok_inv in E as (? & _ & E). by apply with_root_Ok in E as (? & ? & _ & _ & ->).
  - destruct Hop as (_ & _ & Hl). unfold add_symlink. rewrite Hb.
    destruct (size_tail_len _ _) as [[n bl] tl] eqn:Hst. intros E. apply rbind_Ok_inv in E as (st & Hs & E).
    apply rbind_Ok_inv in E as (? & _ & E). apply with_root_Ok in E as (? & ? & _ & _ & ->). exact (Hd link n bl tl st Hl Hst Hs).
  - by intros [= <-].
  - unfold resolve_links. intros E. by apply with_root_Ok in E as (? & ? & _ & _ & ->).
Qed.

Lemma build_steps_mono ops b b' :
  b_block_size_bits b = 12 -> 0 <= b_cur_data_block b -> Forall op_ok ops -> build_steps ops b = Ok b' ->
  b_cur_data_block b <= b_cur_data_block b'.
Proof.
  intros Hb Hc Hops. revert b Hb Hc. induction Hops as [|op ops Hop _ IH]; intros b Hb Hc E; simpl in E.
  { by injection E as <-. }
  apply rbind_Ok_inv in E as (b1 & E1 & E). apply build_step_mono in E1 as [Hb1 Hc1]; [|done..].
  specialize (IH b1 Hb1 ltac:(lia) E). lia.
Qed.

Lemma build_steps_built inc N ops b b' s :
  Forall op_ok ops -> built inc N b s -> build_steps ops b = Ok b' -> b_cur_data_block b' <= EROFS_NULL_ADDR ->
  built inc (N + 2 * zlen ops) b' (fold_left (fun s op => spec_step inc op s) ops s).
Proof.
  intros Hops. revert N b s. induction Hops as [|op ops Hop Hops IH]; intros N b s Hb E Hmax; simpl in E.
  { injection E as <-. change (zlen (@nil BuildOp)) with 0. by rewrite Z.add_0_r. }
  apply rbind_Ok_inv in E as (b1 & E1 & E). destruct (build_step_built _ _ _ _ _ _ Hb Hop E1) as [Hc1 Hb1].
  pose proof Hb as ((Hbits & Hcur & _) & _).
  apply build_step_mono in E1 as [Hbits1 _]; [|done|lia|done].
  pose proof (build_steps_mono _ _ _ Hbits1 ltac:(lia) Hops E).
  apply (IH (N + 2) b1 (spec_step inc op s)) in E; [|apply Hb1; lia|done]. rewrite zlen_cons.
  by replace (N + 2 * (1 + zlen ops)) with (N + 2 + 2 * zlen ops) by lia.
Qed.

(** * The finished image *)

Lemma stored_kept x y f c : data_kept x y -> 1 <= l_start_block f -> stored x f c -> stored y f c.
Proof.
  intros Hk Hs (H1 & H2 & block & H3 & H4 & H5). split; [done|]. split; [done|]. exists block.
  split; [done|]. split; [done|]. destruct (decide (block = [])); [done|]. destruct H5 as [H5 H6]. split; [done|].
  apply Hk; [lia|done].
Qed.

Lemma tree_inv_ready N root : N < 2 ^ 32 -> tree_inv N root -> tree_ready root.
Proof.
  intros HN. apply all_dir_mono.
  - intros ns i (H1 & H2 & H3 & H4 & H5 & H6 & H7). apply Forall_and in H3 as [H3 H3'].
    split; [split_and!; try done; lia|]. split; [done|]. split; [done|]. split; [done|]. lia.
  - by intros t f [H _].
Qed.

Lemma write_inodes_cur `{RustixFileType} b b' : write_inodes b = Ok b' -> in_width 32 (b_cur_data_block b).
Proof.
  unfold write_inodes. destruct (b_root b) as [root|]; [|done]. intros E. apply rbind_Ok_inv in E as ([v r] & W & _).
  unfold walk_tree in W. destruct (b_max_depth _); [done|]. simpl in W. apply rbind_Ok_inv in W as ([v1 d1] & W & _).
  apply rbind_Ok_inv in W as ([b1 d2] & W & _). unfold prepare_on_dir_enter, prepare_dirent_data in W.
  apply rbind_Ok_inv in W as ([nb d3] & W & _). apply rbind_Ok_inv in W as (s & W & _). apply ok_or_Ok, try_into_Some in W.
  apply W.
Qed.

Lemma dir_at_get names d sub : tree_get names d = Some (SubDir sub) -> dir_at names d = Some sub.
Proof.
  revert d. induction names as [|n names IH]; [done|]. intros d Hx. destruct names as [|n2 names].
  - simpl in *. by rewrite Hx.
  - rewrite tree_get_cons in Hx. change (match bt_get n (d_children d) with Some (SubDir s) => dir_at (n2 :: names) s | _ => None end = Some sub).
    destruct (bt_get n (d_children d)) as [[]|]; try done. by apply IH.
Qed.

Lemma tree_get_snoc names n d sub : dir_at names d = Some sub -> tree_get (names ++ [n]) d = bt_get n (d_children sub).
Proof.
  revert d. induction names as [|m names IH]; intros d Hd; [by injection Hd as ->|]. simpl in Hd.
  destruct (bt_get m (d_children d)) as [[| s | | |]|] eqn:E; try done. apply IH in Hd. rewrite <-Hd.
  simpl. rewrite E. by destruct names.
Qed.

Lemma dir_at_ok names d sub : tree_ok d -> dir_at names d = Some sub -> tree_ok sub.
Proof.
  revert d. induction names as [|m names IH]; intros d Ht Hd; [by injection Hd as <-|]. simpl in Hd.
  destruct (bt_get m (d_children d)) as [[| s | | |]|] eqn:E; try done. apply (IH s); [|done].
  by apply (sub_dir_ok m s d).
Qed.

Lemma bt_get_key {V} n (c : list (bstr * V)) : n ∈ c.*1 <-> is_Some (bt_get n c).
Proof.
  induction c as [|[k v] c IH]; simpl; [by rewrite elem_of_nil; split; [|intros []]|].
  rewrite elem_of_cons. destruct (decide (n = k)) as [->|Hne]; [|naive_solver]. split; [by eexists|auto].
Qed.

Section refinement.
Context `{RustixFileTypeLaws}.

(** A path that leads nowhere: either a directory does not have the next name,
    or the path goes through a file. *)
Lemma lookup_missing e names ps d d' id i :
  blkszbits (sb e) = 12 -> in_width 32 (meta_blkaddr (sb e)) -> zlen (img e) < 2 ^ 63 ->
  tree_rel (dir_done (meta_blkaddr (sb e)) (img e)) (leaf_done (meta_blkaddr (sb e)) (img e)) d d' ->
  dirs_at (img e) ps d' -> d_disk_id (d_info d') = Some id -> get_inode e id = Ok i ->
  (forall ns, ns <> [] -> Forall normal_name ns -> tree_view ns d <> Some VSelf) ->
  names <> [] -> Forall normal_name names -> tree_get names d = None ->
  lookup_from e i (Normal <$> names) = Ok None \/ lookup_from e i (Normal <$> names) = Err NotDir.
Proof.
  intros Hb Hmb Hz Hr Hd Hid Hg Hself Hne Hn. revert ps d d' id i Hr Hd Hid Hg Hself Hne.
  induction Hn as [|n names Hn Hns IH]; [done|]. intros ps d d' id i Hr Hd Hid Hg Hself _ Hx.
  pose proof (lookup_step e Hb Hmb Hz ps d d' id i n (Normal <$> names) Hr Hd Hid Hg) as Hst. rewrite fmap_cons.
  assert (bt_get n (d_children d) <> Some Dot /\ bt_get n (d_children d) <> Some DotDot) as [Hd1 Hd2].
  { split; intros H1; apply (Hself [n]); try done; try (by constructor); unfold tree_view; simpl; by rewrite H1. }
  assert (names = [] -> bt_get n (d_children d) = None) as Hlast by (by intros ->).
  assert (forall i', file_type i' <> FileType.Directory -> names <> [] ->
    lookup_from e i' (Normal <$> names) = Err NotDir) as Hleaf.
  { intros i' Ht Hnn. destruct names as [|m names]; [done|]. simpl. unfold get_dirents. by rewrite decide_False. }
  destruct (bt_get n (d_children d)) as [x|] eqn:E; [|by left].
  assert (names <> []) as Hnn by (intros H1; by specialize (Hlast H1)).
  destruct x as [f|sub|s| |]; try done; destruct Hst as (i' & -> & He & Hsub).
  - right. apply Hleaf; [|done]. destruct He as [[-> _] _]. done.
  - destruct (Hsub sub eq_refl) as (sub' & id' & Hr' & Hd' & Hid' & Hg').
    eapply IH; [exact Hr'|exact Hd'|exact Hid'|exact Hg'| |done|].
    + intros ns H1 H2. specialize (Hself (n :: ns) ltac:(done) ltac:(by constructor)). destruct ns as [|m ns]; [done|].
      by rewrite tree_view_cons, E in Hself.
    + destruct names as [|m names]; [done|]. by rewrite tree_get_cons, E in Hx.
  - right. apply Hleaf; [|done]. destruct He as [[-> _] _]. done.
Qed.

(** What the reader shows at a path, against the specification: a file or
    symlink with its metadata and contents (a target of at most half a block
    also through [get_symlink]), a directory with exactly the names below it,
    each once, or nothing. *)
Definition shows (e : Erofs) (fs : Fs) (names : list bstr) : Prop :=
  let at_inode P := exists i, lookup e (path_of names) = Ok (Some i) /\ P i in
  let contents c i := exists block tail, get_data e i = Ok (block, tail) /\ block ++ tail = c in
  match fs names with
  | Some (NFile m links c) => at_inode (fun i => meta_read FileType.RegularFile m links i /\ contents c i)
  | Some (NSymlink m links c) => at_inode (fun i => meta_read FileType.Symlink m links i /\ contents c i /\
      (zlen c <= 2048 -> get_symlink e i = Ok c))
  | Some (NDir m) => at_inode (fun i => meta_read FileType.Directory m 1 i /\
      exists items, dir_lists e i items /\ NoDup (item_name <$> items) /\
        forall n, normal_name n -> (n ∈ item_name <$> items <-> is_Some (fs (names ++ [n]))))
  | None => lookup e (path_of names) = Ok None \/ lookup e (path_of names) = Err NotDir
  end.

Lemma components_normal names : Forall normal_name names -> components (path_of names) = Normal <$> names.
Proof.
  intros Hn. rewrite components_path_of by (eapply Forall_impl; [exact Hn|by intros ? []]).
  induction Hn as [|n ns [_ Hd] _ IH]; [done|]. csimpl. rewrite IH. unfold component_of. by rewrite decide_False.
Qed.

(** An image that holds the tree of a file system shows this file system. *)
Lemma tree_shown e root root' bytes fs N names :
  blkszbits (sb e) = 12 -> in_width 32 (meta_blkaddr (sb e)) -> zlen (img e) < 2 ^ 63 ->
  tree_rel (dir_done (meta_blkaddr (sb e)) (img e)) (leaf_done (meta_blkaddr (sb e)) (img e)) root root' ->
  dirs_at (img e) [] root' -> d_disk_id (d_info root') = Some (root_disk_id (sb e)) ->
  data_kept bytes (img e) -> tree_rep bytes root fs -> tree_inv N root -> tree_ok root ->
  Forall normal_name names -> shows e fs names.
Proof.
  intros Hb Hmb Hz Hrel Hat Hid Hkept Hrep Hinv Hok Hn.
  destruct (dir_entry_read e Hb Hmb [] root root' Hrel Hat) as (id & ri & Hid' & _ & Hg & Hroot).
  rewrite Hid in Hid'. injection Hid' as <-.
  assert (forall ns, lookup e (path_of ns) = lookup_from e ri (components (path_of ns))) as Hlk.
  { intros ns. unfold lookup, get_root_inode. by rewrite Hg. }
  assert (forall m sub, dir_at names root = Some sub -> forall i, meta_read FileType.Directory m 1 i ->
    entry_read e (SubDir sub) i -> exists items, dir_lists e i items /\ NoDup (item_name <$> items) /\
      forall n, normal_name n -> (n ∈ item_name <$> items <-> is_Some (fs (names ++ [n])))) as Hdir.
  { intros m sub Hsub i _ [_ (items & Hl & Hi)]. exists items. split; [done|].
    assert (item_name <$> items = (d_children sub).*1) as ->.
    { apply (f_equal (fmap fst)) in Hi. by rewrite <-!list_fmap_compose in Hi. }
    split; [by apply bt_sorted_NoDup, (tree_ok_inv sub), (dir_at_ok names root)|]. intros n Hnn.
    rewrite bt_get_key, <-(tree_get_snoc names n root sub Hsub).
    pose proof (Hrep (names ++ [n]) ltac:(apply Forall_app; auto)) as Hv.
    assert (root_view (names ++ [n]) root = view <$> tree_get (names ++ [n]) root) as Hrv by (by destruct names).
    rewrite Hrv in Hv. destruct (tree_get (names ++ [n]) root) as [[]|], (fs (names ++ [n])) as [[]|]; try done;
      split; intros [? ?]; by try eexists. }
  pose proof (Hrep names Hn) as Hv. unfold shows. rewrite Hlk, components_normal by done.
  destruct names as [|n names].
  - simpl in Hv. destruct (fs []) as [[| |m]|]; try done. subst m. exists ri. split; [done|].
    split; [apply Hroot|]. eapply Hdir; [done|apply Hroot|exact Hroot].
  - destruct (lookup_tree e Hb Hmb Hz (n :: names) [] root root' _ ri ltac:(done) Hrel Hat Hid Hg) as [Hfound _].
    change (root_view (n :: names) root) with (view <$> tree_get (n :: names) root) in Hv.
    destruct (tree_get (n :: names) root) as [x|] eqn:Ex.
    + assert (forall f, all_entry (dir_inv N) leaf_inv x -> (x = File f \/ x = Symlink f) -> 1 <= l_start_block f) as Hst
        by (intros f Hx [-> | ->]; apply Hx).
      pose proof (tree_inv_get _ _ _ _ Hinv Ex) as Hx.
      destruct x as [f|sub|f| |], (fs (n :: names)) as [[m l c|m l c|m]|]; try done;
        destruct (Hfound _ eq_refl ltac:(done) ltac:(done)) as (i & Hl & Hi); exists i; (split; [exact Hl|]).
      * destruct Hv as (<- & <- & Hs), Hi as (Hm & _ & Hc). split; [done|].
        destruct (Hc c) as (bl & tl & Hd & Hbt & _); [|by exists bl, tl].
        eapply stored_kept; [exact Hkept|by eapply Hst; [|left]|done].
      * simpl in Hv. subst m. split; [apply Hi|]. eapply Hdir; [by apply dir_at_get|apply Hi|exact Hi].
      * destruct Hv as (<- & <- & Hs), Hi as (Hm & _ & Hc). split; [done|].
        destruct (Hc c) as (bl & tl & Hd & Hbt & Hsm).
        { eapply stored_kept; [exact Hkept|by eapply Hst; [|right]|done]. }
        split; [by exists bl, tl|]. intros Hz2. unfold get_symlink.
        rewrite decide_True by apply Hm. rewrite Hd. cbn [rbind]. rewrite (Hsm Hz2) in Hbt |- *.
        rewrite decide_True by done. by rewrite <-Hbt.
    + destruct (fs (n :: names)); [done|].
      eapply (lookup_missing e (n :: names)); [done|done|done|exact Hrel|exact Hat|exact Hid|exact Hg| |done|done|done].
      intros [|m ns] Hne Hns Hvs; [done|]. specialize (Hrep (m :: ns) Hns).
      change (root_view (m :: ns) root) with (tree_view (m :: ns) root) in Hrep. by rewrite Hvs in Hrep.
Qed.

Lemma build_steps_ok ops b b' : builder_ok b -> build_steps ops b = Ok b' -> builder_ok b'.
Proof.
  revert b. induction ops as [|op ops IH]; intros b Hb; simpl; [by intros [= <-]|].
  intros E. apply rbind_Ok_inv in E as (b1 & E1 & E). apply (IH b1); [|done]. by eapply build_step_ok.
Qed.

(** Operations, finishing and reading together. *)
Lemma image_shows_fs ops limit inc b stats bytes :
  Forall op_ok ops -> zlen ops < 2 ^ 30 ->
  build_steps ops (start_builder limit inc) = Ok b -> into_inner b = Ok (stats, bytes) ->
  exists e, Erofs_new bytes = Ok e /\
    forall names, Forall normal_name names ->
      shows e (s_fs (spec_resolve (spec_run inc ops))) names.
Proof.
  intros Hops Hlen Hb E. unfold into_inner, finalize in E.
  apply rbind_Ok_inv in E as (b2 & E & [= _ <-]). apply rbind_Ok_inv in E as (b1 & Er & E).
  assert (b_cur_data_block b1 <= EROFS_NULL_ADDR) as Hmax1.
  { apply rbind_Ok_inv in E as (b3 & E & _). apply write_inodes_cur in E. unfold in_width, EROFS_NULL_ADDR, u32_max in *. lia. }
  assert (b_cur_data_block b1 = b_cur_data_block b) as Hcb
    by (unfold resolve_links in Er; apply with_root_Ok in Er as (? & ? & _ & _ & ->); done).
  pose proof (build_steps_built inc 2 ops _ _ _ Hops (built_new inc limit) Hb ltac:(lia)) as Hbt.
  destruct (resolve_links_built _ _ _ _ _ Hbt Er) as (Hbt1 & _ & _).
  assert (builder_ok b1) as (r1 & Hr1 & Hok1).
  { apply (build_step_ok ResolveLinks b); [|exact Er]. eapply build_steps_ok; [|exact Hb].
    exists Dir_default. split; [done|apply Dir_default_ok]. }
  destruct Hbt1 as ((D1 & D2 & D3 & D4 & D5 & D6 & D7) & _ & _ & _ & root & M & Hr & HM & HN & Hinv & Hrep).
  rewrite Hr in Hr1. injection Hr1 as <-. change (zlen (s_links (spec_resolve _))) with 0 in HN.
  destruct (image_finished b1 root b2 Hr) as (e & root' & He & Himg & Hbits & Hmb & Hz & _ & Hrel & Hat & Hid & Hkept).
  - split_and!; try done; [by rewrite D7|lia].
  - apply (tree_inv_ready M); [lia|done].
  - exact E.
  - exists e. split; [exact He|]. intros names Hn. eapply tree_shown; eauto.
Qed.

(** C1: the image is the file system that was asked for.  For fewer than [2 ^ 30]
    operations, in any order and overwriting each other, that are well formed
    ([op_ok]: names of at most 4084 bytes without a zero byte, metadata that fits
    an inode, inode and xattrs together below half a block, contents below [2 ^ 40]
    bytes, and a declared file length that is the length of the data), when the
    builder succeeds the bytes it returns open, and the reader shows at every path
    exactly what the abstract file system has there after the same operations:
    files and symlinks with their owner, mode, link count and contents, directories
    with exactly their entries, and nothing elsewhere.  Hard links are resolved
    where the code resolves them.  Without the bounds the statement fails: a reader
    that is shorter than declared leaves an image of the wrong contents, and an
    inode of exactly one block is lost ([ErofsImage.full_block_inode_lost]). *)
Theorem image_refines_spec ops limit inc b stats bytes :
  Forall op_ok ops -> zlen ops < 2 ^ 30 ->
  build_steps ops (start_builder limit inc) = Ok b -> into_inner b = Ok (stats, bytes) ->
  exists e, Erofs_new bytes = Ok e /\
    forall names, Forall normal_name names ->
      shows e (s_fs (spec_resolve (spec_run inc ops))) names.
Proof. apply image_shows_fs. Qed.
End refinement.

Lemma names_ok_b p :
  forallb (fun n => (12 + zlen n <=? 4096) && bool_decide (x00 ∉ n)) (path_names p) = true ->
  Forall name_ok (path_names p).
Proof.
  rewrite forallb_forall. intros Hb. apply Forall_forall. intros n Hn.
  apply list_elem_of_In, Hb, andb_true_iff in Hn as [H1 H2]. apply Z.leb_le in H1. by apply bool_decide_eq_true in H2.
Qed.

(** A directory, a file in it, a file of more than a block, a file that replaces
    a directory, a symlink, and a hard link with a leading dot. *)
Definition example_fs_ops : list BuildOp :=
  [UpsertDir (bytes_of_string "d/") Meta_default;
   AddFile (bytes_of_string "d/f") Meta_default 5 (bytes_of_string "hello");
   AddFile (bytes_of_string "/x/y/z") Meta_default 0 [];
   AddFile (bytes_of_string "x/y") Meta_default 4100 (replicate 4100 x7a);
   AddSymlink (bytes_of_string "s") (bytes_of_string "d/f") Meta_default;
   AddLink (bytes_of_string "./h") (bytes_of_string "d/f") Meta_default].
Definition example_fs_builder : Builder :=
  ok_default (start_builder None None) (build_steps example_fs_ops (start_builder None None)).
Definition example_fs_image : Stats * list byte := ok_default (Stats_default, []) (into_inner example_fs_builder).

Lemma example_fs_ops_ok : Forall op_ok example_fs_ops.
Proof.
  pose proof Meta_default_ok as Hm.
  repeat (constructor; [repeat (split; [first [apply names_ok_b; vm_compute; reflexivity|exact Hm|vm_compute; reflexivity]|]);
    first [apply names_ok_b; vm_compute; reflexivity|exact Hm|vm_compute; reflexivity]|]). constructor.
Qed.

Lemma image_refines_spec_witness :
  let fs := s_fs (spec_resolve (spec_run None example_fs_ops)) in
  fs [bytes_of_string "h"] = Some (NFile Meta_default 2 (bytes_of_string "hello")) /\
  fs [bytes_of_string "x"; bytes_of_string "y"; bytes_of_string "z"] = None /\
  exists e, Erofs_new example_fs_image.2 = Ok e /\ shows e fs [bytes_of_string "h"] /\
    shows e fs [bytes_of_string "x"; bytes_of_string "y"; bytes_of_string "z"].
Proof.
  cbv zeta. split; [vm_compute; reflexivity|]. split; [vm_compute; reflexivity|].
  destruct (image_refines_spec example_fs_ops None None example_fs_builder example_fs_image.1 example_fs_image.2)
    as (e & He & Hs).
  - apply example_fs_ops_ok.
  - vm_compute. reflexivity.
  - apply ok_default_is_ok. vm_compute. reflexivity.
  - rewrite <-surjective_pairing. apply ok_default_is_ok. vm_compute. reflexivity.
  - exists e. split; [exact He|]. split; apply Hs; repeat constructor; apply normal_name_b; vm_compute; reflexivity.
Defined.

(** A symlink whose target is longer than half a block: the builder puts the
    target into a data block, and [get_symlink] then refuses the inode although
    [get_data] has the target. *)
Definition long_link_image : list byte :=
  (ok_default (Stats_default, []) (rbind (build_steps [AddSymlink (bytes_of_string "s") (replicate 2049 x61) Meta_default]
     (start_builder None None)) into_inner)).2.

Lemma long_symlink_unreadable :
  rbind (Erofs_new long_link_image) (fun e => rbind (lookup e (bytes_of_string "s")) (fun o =>
    match o with
    | Some i => Ok (get_data e i, get_symlink e i)
    | None => Err NotDir
    end)) = Ok (Ok (replicate 2049 x61, []), Err NotExpectingBlockData).
Proof. vm_compute. reflexivity. Qed.

(** The file type and link count that the reader finds at a path of a built image. *)
Definition shown_kind (ops : list BuildOp) (path : string) : result ErofsDisk.Error (FileType.t * Z) :=
  let? b := map_err (fun _ => ErofsDisk.Oob) (build_steps ops (start_builder None None)) in
  let? '(_, bytes) := map_err (fun _ => ErofsDisk.Oob) (into_inner b) in
  let? e := Erofs_new bytes in
  let? o := lookup e (bytes_of_string path) in
  let? i := ok_or o ErofsDisk.Oob in
  Ok (file_type i, link_count i).

(** A hard link to a symlink becomes a regular file that contains the target. *)
Lemma hardlink_to_symlink_is_file :
  let ops := [AddSymlink (bytes_of_string "s") (bytes_of_string "x") Meta_default;
              AddLink (bytes_of_string "h") (bytes_of_string "s") Meta_default] in
  shown_kind ops "s" = Ok (FileType.Symlink, 2) /\ shown_kind ops "h" = Ok (FileType.RegularFile, 2).
Proof. split; vm_compute; reflexivity. Qed.

(** With two hard links to a file, its names show different link counts. *)
Lemma hardlink_counts_differ :
  let ops := [AddFile (bytes_of_string "f") Meta_default 0 [];
              AddLink (bytes_of_string "g") (bytes_of_string "f") Meta_default;
              AddLink (bytes_of_string "h") (bytes_of_string "f") Meta_default] in
  shown_kind ops "f" = Ok (FileType.RegularFile, 3) /\ shown_kind ops "g" = Ok (FileType.RegularFile, 2).
Proof. split; vm_compute; reflexivity. Qed.
