(* ===== verification/ErofsTotal.v ===== *)
(** Building an image never panics (src/peerofs/src/build.rs): the assertions and
    [expect]s of the builder hold on every tree that its operations make. *)
From stdpp Require Import option base list numbers strings.
From Stdlib Require Import ZArith Lia.
From S2P Require Import Prelude MemFile BTree Paths ErofsDisk ErofsBuild ErofsTree ErofsImage ErofsWalk ErofsWhole ErofsFs.
#[local] Open Scope Z_scope.
#[local] Open Scope result_scope.

(** * Walks *)

Section walk_no_panic.
Context {V : Type} `{TreeVisitor V}.
Context (Inv : V -> Prop) (Ext : V -> V -> Prop).
Context (GD : list bstr -> DirInfo -> Prop) (GL : FileType.t -> Leaf -> Prop).
Context (RI : V -> DirInfo -> DirInfo -> Prop) (RL : V -> FileType.t -> Leaf -> Leaf -> Prop).
Context (K : walk_keeps Inv Ext GD GL RI RL).
Context (He : forall v d, Inv v -> GD (d_children d).*1 (d_info d) -> on_dir_enter v d <> Panic)
  (Hf : forall v f, Inv v -> GL FileType.RegularFile f -> on_file v f <> Panic)
  (Hs : forall v s, Inv v -> GL FileType.Symlink s -> on_symlink v s <> Panic).

Lemma walk_recur_no_panic n v d : Inv v -> all_dir GD GL d -> walk_recur n v d <> Panic.
Proof.
  revert v d. induction n as [|n IH]; intros v d Hv Hd; [done|]. simpl. destruct d as [c i].
  inversion Hd as [? ? Hg Hk]; subst. apply rbind_not_panic; [by apply He|]. intros [v1 [c1 i1]] E1.
  apply (keep_enter _ _ _ _ _ _ K) in E1 as (Hv1 & _ & Hc & _); [|done..]. simpl in *. subst c1.
  apply rbind_not_panic; [|intros [v2 c2] _; by rewrite (keep_exit _ _ _ _ _ _ K)].
  clear Hd Hg Hv v i i1. revert v1 Hv1. induction Hk as [|m f c Hl Hk IHk|m f c Hl Hk IHk|m d c Hd Hk IHk|m c Hk IHk|m c Hk IHk];
    intros v Hv; simpl; [done|..].
  - apply rbind_not_panic; [apply rbind_not_panic; [by apply Hf|by intros [? ?]]|]. intros [v1 x] E.
    apply rbind_Ok_inv in E as ([v2 y] & E & [= <- <-]). apply (keep_file _ _ _ _ _ _ K) in E as (Hv1 & _); [|done..].
    apply rbind_not_panic; [by apply IHk|by intros [? ?]].
  - apply rbind_not_panic; [apply rbind_not_panic; [by apply Hs|by intros [? ?]]|]. intros [v1 x] E.
    apply rbind_Ok_inv in E as ([v2 y] & E & [= <- <-]). apply (keep_symlink _ _ _ _ _ _ K) in E as (Hv1 & _); [|done..].
    apply rbind_not_panic; [by apply IHk|by intros [? ?]].
  - apply rbind_not_panic; [apply rbind_not_panic; [by apply IH|by intros [? ?]]|]. intros [v1 x] E.
    apply rbind_Ok_inv in E as ([v2 y] & E & [= <- <-]).
    apply (walk_tree_rel _ _ _ _ _ _ K) in E as (Hv1 & _); [|done..].
    apply rbind_not_panic; [by apply IHk|by intros [? ?]].
  - apply rbind_not_panic; [by apply IHk|by intros [? ?]].
  - apply rbind_not_panic; [by apply IHk|by intros [? ?]].
Qed.
End walk_no_panic.

(** * Inodes *)

Lemma find_prefix_len i t key id len :
  Forall (fun p => zlen p < 256) t -> find_prefix i t key = Some (id, len) -> len <= zlen key.
Proof.
  intros Ht. revert i. induction Ht as [|p t Hp _ IH]; intros i; simpl; [done|].
  destruct (starts_with p key) eqn:E; [|apply IH]. intros [= _ <-]. apply starts_with_spec in E as [rest ->].
  rewrite wrap_small by (unfold in_width; pose proof (zlen_nonneg p); lia). rewrite zlen_app.
  pose proof (zlen_nonneg rest). lia.
Qed.

Lemma make_xattr_entries_no_panic xattrs : make_xattr_entries xattrs <> Panic.
Proof.
  induction xattrs as [|[key value] xattrs IH]; simpl; [done|]. apply rbind_not_panic.
  - unfold make_xattr_entry. destruct (default (0, 0) (xattr_builtin_prefix key)) as [id len] eqn:Hd.
    assert (len <= zlen key) as Hlen.
    { destruct (xattr_builtin_prefix key) as [[id' len']|] eqn:Hx; simpl in Hd; injection Hd as <- <-;
        [|apply zlen_nonneg]. apply find_prefix_len in Hx; [done|]. by repeat constructor. }
    destruct (Z.ltb_spec (zlen key) len); [lia|]. no_panic.
  - intros e _. by apply rbind_not_panic.
Qed.

Lemma write_xattr_entries_no_panic entries xattrs b : write_xattr_entries entries xattrs b <> Panic.
Proof.
  revert xattrs b. induction entries as [|[pl e] entries IH]; intros xattrs b; simpl; [done|].
  destruct xattrs as [|[key value] xattrs]; [done|]. apply rbind_not_panic; [apply ok_or_not_panic|]. intros. apply IH.
Qed.

Lemma addr_to_disk_id_no_panic addr b : addr_to_disk_id addr b <> Panic.
Proof. unfold addr_to_disk_id. no_panic. Qed.

Lemma write_inode_no_panic inode tail xattrs b : write_inode inode tail xattrs b <> Panic.
Proof.
  unfold write_inode. apply rbind_not_panic; [apply make_xattr_entries_no_panic|]. intros entries _.
  apply rbind_not_panic; [apply ok_or_not_panic|]. intros count _. destruct (_ <? _); [done|].
  apply rbind_not_panic; [apply addr_to_disk_id_no_panic|]. intros id _. apply rbind_not_panic; [|intros; by destruct (zero_fill _ _ _)].
  unfold write_xattrs. destruct (decide _); [done|]. apply rbind_not_panic; [apply write_xattr_entries_no_panic|done].
Qed.

Lemma make_inode_no_panic `{RustixFileType} t size start m tail n : make_inode t size start m tail n <> Panic.
Proof. unfold make_inode, make_mode. no_panic. Qed.
#[export] Hint Resolve write_inode_no_panic make_inode_no_panic : no_panic.

(** * Directory entries *)

Lemma write_block_dirents_no_panic count dir_id ps off c b :
  (count <= length c)%nat -> write_block_dirents count dir_id ps off c b <> Panic.
Proof.
  revert off c b. induction count as [|count IH]; intros off c b Hl; simpl; [done|].
  destruct c as [|[name child] c]; [simpl in Hl; lia|]. simpl in Hl.
  apply rbind_not_panic; [apply ok_or_not_panic|]. intros id _. apply rbind_not_panic; [apply ok_or_not_panic|].
  intros o _. apply IH. lia.
Qed.

Lemma write_block_dirents_rest count dir_id ps off c b rest b' :
  write_block_dirents count dir_id ps off c b = Ok (rest, b') -> rest = drop count c.
Proof.
  revert off c b. induction count as [|count IH]; intros off c b; simpl; [by intros [= <- _]|].
  destruct c as [|[name child] c]; [done|]. intros E. apply rbind_Ok_inv in E as (id & _ & E).
  apply rbind_Ok_inv in E as (o & _ & E). by apply IH in E.
Qed.

Lemma write_dirent_blocks_no_panic counts dir_id ps c b :
  Forall (fun x => 0 <= x) counts -> foldr Z.add 0 counts = zlen c ->
  write_dirent_blocks counts dir_id ps c b <> Panic.
Proof.
  intros Hc. revert c b. induction Hc as [|x counts Hx Hc IH]; intros c b Hs; simpl; [done|]. simpl in Hs.
  assert (0 <= foldr Z.add 0 counts) by (clear -Hc; induction Hc; simpl; lia).
  apply rbind_not_panic; [apply write_block_dirents_no_panic; unfold zlen in Hs; lia|].
  intros [rest b1] E%write_block_dirents_rest. apply IH. subst rest. unfold zlen in *. rewrite length_drop. lia.
Qed.

Lemma write_dirents_no_panic k v d : dir_layout k d -> write_dirents_on_enter v d <> Panic.
Proof.
  intros (full & cur & Hk & _ & _ & Hn & _). unfold write_dirents_on_enter. apply rbind_not_panic; [|intros; no_panic].
  apply write_dirent_blocks_no_panic; rewrite Hn.
  - apply Forall_fmap, Forall_true. intros. apply zlen_nonneg.
  - rewrite sum_zlen_concat, concat_app. simpl. rewrite app_nil_r, Hk. unfold zlen. by rewrite length_fmap.
Qed.

Lemma dirents_walk_no_panic n v d k k' : laid k d k' -> walk_recur (V := WriteDirents) n v d <> Panic.
Proof.
  revert v d k k'. induction n as [|n IH]; intros v d k k' Hl; [done|]. simpl.
  inversion Hl as [? c i ? _ Hlay Hk]; subst. apply rbind_not_panic; [by apply (write_dirents_no_panic k)|].
  intros [v1 d1] E. assert (d1 = mk_dir c i) as ->.
  { unfold write_dirents_on_enter in E. apply rbind_Ok_inv in E as (? & _ & E). by apply rbind_Ok_inv in E as (? & _ & [= _ <-]). }
  apply rbind_not_panic; [|by intros [? ?] _]. simpl. remember (k + _) as k0 eqn:Hk0. clear Hl Hlay E v Hk0 i. revert v1.
  induction Hk as [|k0 m e c k' He Hk IHk|k0 m d k1 c k' Hd Hk IHk]; intros v; simpl; [done|..].
  - apply rbind_not_panic; [by destruct e; [|destruct (He d)|..]|]. intros [? ?] _.
    apply rbind_not_panic; [apply IHk|by intros [? ?]].
  - apply rbind_not_panic; [apply rbind_not_panic; [by eapply IH|by intros [? ?]]|]. intros [? ?] _.
    apply rbind_not_panic; [apply IHk|by intros [? ?]].
Qed.

(** * Finishing *)

Section finish.
Context `{RustixFileType}.

Lemma prepare_no_panic n b d :
  b_block_size_bits b = 12 -> all_dir packable (fun _ _ => True) d -> walk_recur n {| pd_builder := b |} d <> Panic.
Proof.
  intros Hb. apply (walk_recur_no_panic _ _ _ _ _ _ prepare_keeps); [|done..|exact Hb].
  intros v d' Hb' (Hne & Hl & Hn & Hp). simpl. apply rbind_not_panic; [|by intros [? ?] _].
  unfold prepare_on_dir_enter. apply rbind_not_panic; [|by intros [? ?] _].
  assert (b_block_size (pd_builder v) = 4096) as -> by (unfold b_block_size; by rewrite Hb').
  destruct (try_into 32 (b_cur_data_block (pd_builder v))) as [x|] eqn:E.
  - apply try_into_Some in E as [_ E].
    assert (zlen (d_children d') = zlen (d_children d').*1) as Hlc by (unfold zlen; by rewrite length_fmap).
    destruct (prepare_dirent_data_spec 4096 (b_cur_data_block (pd_builder v)) d') as (? & ? & ? & -> & _);
      [lia|done|by destruct (d_children d')|done..|lia|done].
  - unfold prepare_dirent_data. by rewrite E.
Qed.

(** Without assuming anything of the builder: the inode passes need nodes that
    have no disk id, and give them one. *)
Lemma dir_inodes_keeps_ids :
  walk_keeps (V := WriteDirInodes) (fun _ => True) (fun _ _ => True) (fun _ i => d_disk_id i = None) (fun _ _ => True)
    (fun _ => keeps_layout) (fun _ _ f f' => f' = f).
Proof.
  constructor; try done.
  - intros v d v1 d1 _ Hd E. simpl in E. apply rbind_Ok_inv in E as ([b1 d2] & E & [= _ ->]).
    unfold write_dir_inode in E. apply rbind_Ok_inv in E as (inode & _ & E). apply rbind_Ok_inv in E as ([id b2] & _ & E).
    rewrite Hd in E. by injection E as _ <-.
  - by intros v f v1 f1 _ _ [= <- <-].
  - by intros v f v1 f1 _ _ [= <- <-].
Qed.

Lemma leaf_inodes_keeps_ids :
  walk_keeps (V := WriteInodes) (fun _ => True) (fun _ _ => True) (fun _ _ => True) (fun _ f => l_disk_id f = None)
    (fun _ i i' => i' = i) (fun _ _ _ _ => True).
Proof. constructor; try done. by intros v d v1 d1 _ _ [= <- <-]. Qed.

Lemma write_dir_inode_no_panic b d : d_disk_id (d_info d) = None -> write_dir_inode b d <> Panic.
Proof.
  intros Hd. unfold write_dir_inode. apply rbind_not_panic; [apply make_inode_no_panic|]. intros inode _.
  apply rbind_not_panic; [apply write_inode_no_panic|]. intros [id b1] _. by rewrite Hd.
Qed.

Lemma write_leaf_inode_no_panic t b f : l_disk_id f = None -> write_leaf_inode t b f <> Panic.
Proof.
  intros Hd. unfold write_leaf_inode. apply rbind_not_panic; [apply make_inode_no_panic|]. intros inode _.
  apply rbind_not_panic; [apply write_inode_no_panic|]. intros [id b1] _. by rewrite Hd.
Qed.

Lemma write_inodes_no_panic b root :
  b_root b = Some root -> b_block_size_bits b = 12 -> tree_ready root -> write_inodes b <> Panic.
Proof.
  intros Hroot Hb Hr. unfold write_inodes, walk_tree. rewrite Hroot.
  apply rbind_not_panic; [by apply prepare_no_panic, ready_packable|]. intros [v1 root1] W1.
  destruct (prepare_walk_laid _ _ _ _ _ W1 Hb (ready_packable _ Hr)) as [_ Hlaid].
  destruct (prepare_walk_rel _ _ _ _ _ W1 Hb (ready_packable _ Hr)) as (_ & R1).
  assert (all_dir (fun _ i => d_disk_id i = None) (fun _ _ => True) root1) as Hd1.
  { eapply all_dir_map; [exact Hr|exact R1| |done]. intros ns i i' (_ & _ & Hd & _) (_ & Hi & _). by rewrite Hi. }
  apply rbind_not_panic.
  { apply (walk_recur_no_panic _ _ _ _ _ _ dir_inodes_keeps_ids); [|done..].
    intros v d _ Hd. simpl. apply rbind_not_panic; [by apply write_dir_inode_no_panic|by intros [? ?] _]. }
  intros [v2 root2] W2. apply (walk_tree_rel _ _ _ _ _ _ dir_inodes_keeps_ids) in W2 as (_ & _ & R2); [|done..].
  apply rbind_not_panic.
  { apply (walk_recur_no_panic _ _ _ _ _ _ leaf_inodes_keeps_ids); [done|..|done|].
    - intros v f _ Hf. simpl. apply rbind_not_panic; [by apply write_leaf_inode_no_panic|by intros [? ?] _].
    - intros v f _ Hf. simpl. apply rbind_not_panic; [by apply write_leaf_inode_no_panic|by intros [? ?] _].
    - eapply all_dir_map; [exact Hr|exact (tree_rel_compose _ _ _ _ _ _ _ R1 R2)|done|].
      intros t f f' [(Hl & _) _] (g & -> & ->). done. }
  intros [v3 root3] W3. apply (walk_tree_rel _ _ _ _ _ _ leaf_inodes_keeps_ids) in W3 as (_ & _ & R3); [|done|].
  2: { eapply all_dir_map; [exact Hr|exact (tree_rel_compose _ _ _ _ _ _ _ R1 R2)|done|].
       intros t f f' [(Hl & _) _] (g & -> & ->). done. }
  apply (proj1 (laid_rel _ _ (fun _ _ K => K)) _ _ _ Hlaid) in R2.
  assert (forall i i' : DirInfo, i' = i -> keeps_layout i i') as Hk by (by intros i ? ->).
  apply (proj1 (laid_rel _ _ Hk) _ _ _ R2) in R3.
  apply rbind_not_panic; [by eapply dirents_walk_no_panic|by intros [? ?] _].
Qed.

Lemma write_inodes_too_big b root :
  b_root b = Some root -> ~ in_width 32 (b_cur_data_block b) -> write_inodes b <> Panic.
Proof.
  intros Hroot Hw. unfold write_inodes, walk_tree. rewrite Hroot.
  assert (try_into 32 (b_cur_data_block b) = None) as Ht.
  { destruct (try_into _ _) eqn:E; [|done]. apply try_into_Some in E as [_ E]. done. }
  change (b_max_depth (set_root None b)) with (b_max_depth b). destruct (b_max_depth b); [done|].
  cbn [walk_recur on_dir_enter visit_prepare pd_builder]. unfold prepare_on_dir_enter, prepare_dirent_data.
  change (b_cur_data_block (set_root None b)) with (b_cur_data_block b). by rewrite Ht.
Qed.

Lemma write_superblock_no_panic b root : b_root b = Some root -> write_superblock b <> Panic.
Proof.
  intros Hr. unfold write_superblock. apply rbind_not_panic; [apply ok_or_not_panic|]. intros mb _.
  apply rbind_not_panic; [apply ok_or_not_panic|]. intros mb' _. rewrite Hr. cbn [expect rbind].
  apply rbind_not_panic; [apply ok_or_not_panic|]. intros id _. by apply rbind_not_panic; [apply ok_or_not_panic|].
Qed.

Lemma write_inodes_root b b' : write_inodes b = Ok b' -> exists root, b_root b' = Some root.
Proof.
  unfold write_inodes. destruct (b_root b); [|done]. intros E. apply rbind_Ok_inv in E as ([? ?] & _ & E).
  apply rbind_Ok_inv in E as ([? ?] & _ & E). apply rbind_Ok_inv in E as ([? ?] & _ & E).
  apply rbind_Ok_inv in E as ([? ?] & _ & [= <-]). by eexists.
Qed.
End finish.

(** * The operations *)

Section lookup.
Context {A : Type} (create : bool) (k : Dir -> option bstr -> result Error (A * Dir)) (Hk : forall d n, k d n <> Panic).

Lemma lookup_components_no_panic comps d : lookup_components create k comps d <> Panic.
Proof.
  revert d. induction comps as [|c comps IH]; intros d; [apply Hk|].
  destruct comps as [|c2 comps]; [destruct c; simpl; try done; apply Hk|].
  destruct c; [apply IH|apply IH|done|]. rewrite lookup_components_cons. apply rbind_not_panic.
  - unfold get_or_create_dir, get_dir. by destruct create, (bt_get name (d_children d)) as [[]|].
  - intros [sub cur] _. apply rbind_not_panic; [apply IH|by intros [? ?] _].
Qed.

Lemma lookup_impl_no_panic root p : lookup_impl create k root p <> Panic.
Proof. unfold lookup_impl. destruct (decide _); [done|]. destruct (decide _); [apply Hk|apply lookup_components_no_panic]. Qed.
End lookup.

Lemma rmap_not_panic {E A B} (f : A -> B) (c : result E A) : c <> Panic -> rmap f c <> Panic.
Proof. by destruct c. Qed.

Lemma root_insert_no_panic p x root : root_insert p x root <> Panic.
Proof. apply rmap_not_panic, lookup_impl_no_panic. by intros d [n|]. Qed.

Lemma root_add_file_no_panic p f root : root_add_file p f root <> Panic.
Proof. unfold root_add_file. destruct (ends_with _ _); [done|apply root_insert_no_panic]. Qed.

Lemma resolve_link_list_no_panic links root : resolve_link_list links root <> Panic.
Proof.
  revert root. induction links as [|[[p t] m] links IH]; intros root; [done|]. cbn [resolve_link_list].
  apply rbind_not_panic.
  - apply lookup_impl_no_panic. intros d [n|]; [|done]. destruct (bt_get n (d_children d)) as [x|]; [|done].
    apply rbind_not_panic; [by destruct x|by intros [? ?] _].
  - intros [found r] _. apply rbind_not_panic; [apply ok_or_not_panic|]. intros [[? ?] ?] _.
    apply rbind_not_panic; [apply root_add_file_no_panic|]. intros. apply IH.
Qed.

Lemma with_root_no_panic f b : builder_ok b -> (forall r, f r <> Panic) -> with_root f b <> Panic.
Proof. intros (root & Hr & _) Hf. unfold with_root. rewrite Hr. by apply rbind_not_panic. Qed.

Lemma hook_meta_no_panic b m : hook_meta b m <> Panic.
Proof. unfold hook_meta. no_panic. Qed.

Lemma start_block_no_panic b l : start_block_of b l <> Panic.
Proof. unfold start_block_of. no_panic. Qed.

Lemma written_ok (c : bool) n l data b : builder_ok b -> builder_ok (if c then write_blocks n l data b else b).
Proof. destruct c; [|done]. apply builder_ok_root, write_blocks_root. Qed.

Lemma build_step_no_panic op b : builder_ok b -> build_step op b <> Panic.
Proof.
  intros Hb. destruct op as [p m len c|p m|p link m|p target m|]; simpl.
  - unfold add_file. destruct (_ <=? _); [done|]. destruct (size_tail_len _ _) as [[n bl] tl].
    apply rbind_not_panic; [apply start_block_no_panic|]. intros start _. apply rbind_not_panic; [no_panic|]. intros tail _.
    apply rbind_not_panic; [apply hook_meta_no_panic|]. intros m' _.
    apply with_root_no_panic; [by apply written_ok|intros; apply root_add_file_no_panic].
  - unfold upsert_dir. apply rbind_not_panic; [apply hook_meta_no_panic|]. intros m' _.
    apply with_root_no_panic; [done|]. intros r. apply rmap_not_panic, lookup_impl_no_panic. intros d [n|]; [|done].
    apply rbind_not_panic; [|by intros [? ?] _]. unfold get_or_create_dir. by destruct (bt_get n (d_children d)) as [[]|].
  - unfold add_symlink. destruct (size_tail_len _ _) as [[n bl] tl].
    apply rbind_not_panic; [apply start_block_no_panic|]. intros start _.
    apply rbind_not_panic; [apply hook_meta_no_panic|]. intros m' _.
    apply with_root_no_panic; [by apply written_ok|]. intros r. unfold root_add_symlink.
    destruct (ends_with _ _); [done|apply root_insert_no_panic].
  - done.
  - unfold resolve_links. apply with_root_no_panic; [by apply (builder_ok_root b)|apply resolve_link_list_no_panic].
Qed.

Lemma build_steps_no_panic ops b : builder_ok b -> build_steps ops b <> Panic.
Proof.
  revert b. induction ops as [|op ops IH]; intros b Hb; simpl; [done|].
  apply rbind_not_panic; [by apply build_step_no_panic|]. intros b1 E. apply IH. by eapply build_step_ok.
Qed.

(** C10: building an image never panics: for every sequence of operations from a
    new builder, whatever the paths, neither the operations nor finishing the
    image fails an assertion or an [expect]; they end with the image or with an
    error value.  For finishing, the names have to fit the blocks of a directory. *)
Theorem build_never_panics `{RustixFileTypeLaws} ops limit inc :
  build_steps ops (start_builder limit inc) <> Panic /\
  (Forall op_ok ops -> zlen ops < 2 ^ 30 ->
   forall b, build_steps ops (start_builder limit inc) = Ok b -> into_inner b <> Panic).
Proof.
  assert (builder_ok (start_builder limit inc)) as H1 by (exists Dir_default; split; [done|apply Dir_default_ok]).
  split; [by apply build_steps_no_panic|]. intros Hops Hlen b Hb. unfold into_inner, finalize.
  pose proof (build_steps_ok _ _ _ H1 Hb) as Hok.
  apply rbind_not_panic; [|done]. apply rbind_not_panic; [by apply (build_step_no_panic ResolveLinks)|].
  intros b1 Er.
  pose proof (build_step_ok ResolveLinks b b1 Hok Er) as (r1 & Hr1 & _).
  apply rbind_not_panic; [|intros b2 [root2 Hr2]%write_inodes_root; by apply (write_superblock_no_panic b2 root2)].
  destruct (decide (in_width 32 (b_cur_data_block b1))) as [Hw|Hw]; [|by apply (write_inodes_too_big b1 r1)].
  assert (b_cur_data_block b1 = b_cur_data_block b) as Hcb
    by (unfold resolve_links in Er; apply with_root_Ok in Er as (? & ? & _ & _ & ->); done).
  assert (built inc (2 + 2 * zlen ops) b (spec_run inc ops)) as Hbt.
  { apply (build_steps_built inc 2 ops _ _ _ Hops (built_new inc limit) Hb).
    unfold in_width, EROFS_NULL_ADDR, u32_max in *. lia. }
  destruct (resolve_links_built _ _ _ _ _ Hbt Er) as (((Hb1 & _) & _ & _ & _ & root & M & Hr & HM & HN & Hinv & _) & _ & _).
  change (zlen (s_links (spec_resolve _))) with 0 in HN.
  apply (write_inodes_no_panic b1 root); [done|done|]. apply (tree_inv_ready M); [lia|done].
Qed.

Lemma build_never_panics_witness :
  Forall op_ok example_fs_ops /\ into_inner example_fs_builder <> Panic.
Proof.
  pose proof example_fs_ops_ok as Hops.
  split; [exact Hops|].
  apply (proj2 (build_never_panics example_fs_ops None None) Hops); [vm_compute; reflexivity|].
  apply ok_default_is_ok. vm_compute. reflexivity.
Defined.
