(* ===== verification/ErofsDump.v ===== *)
(** The tree walk of the inspection tool (src/peerofs/src/dump.rs).

    [all_inodes] visits every inode that the directories of an image lead to.
    The directories of a malformed image can point anywhere, at themselves too.
    The file proves that the walk ends on every image and visits exactly the
    inodes that can be reached, each once. *)
From stdpp Require Import option base list numbers strings gmap fin_sets.
From Stdlib Require Import ZArith Lia.
From S2P Require Import Prelude BTree Paths ErofsBuild ErofsTree ErofsDisk.
#[local] Open Scope Z_scope.
#[local] Open Scope result_scope.

Section walk.
Context `{RustixFileType} (e : Erofs).

(** The loop over the entries of a directory: each id is pushed; one that does
    not fit 32 bits is a panic. *)
Definition dirent_ids_step (x : DirentsIterator * list Z)
    : loop_step (DirentsIterator * list Z) (result Error (list Z)) :=
  let '(s, acc) := x in
  match dirents_next s with
  | None => Done (Ok acc)
  | Some (_, Err err) => Done (Err err)
  | Some (_, Panic) => Done Panic
  | Some (s, Ok item) =>
      match try_into 32 (item_disk_id item) with
      | Some id => Again (s, acc ++ [id])
      | None => Done Panic
      end
  end.
Definition dirent_ids (s : DirentsIterator) : result Error (list Z) :=
  loop_result (loop dirent_ids_step (fun x => dirents_measure x.1) (s, [])).

(** The body of the loop for a new id: the inode and what it pushes. *)
Definition visit_inode (cur : Z) : result Error (Inode * list Z) :=
  let? inode := get_inode e cur in
  if decide (file_type inode = FileType.Directory) then
    let? '(data, block_size) := get_dirents e inode in
    let? s := DirentsIterator_new data block_size in
    let? ids := dirent_ids s in
    Ok (inode, ids)
  else Ok (inode, []).

(** Popping ids until one was not seen; [q] has the top of the vector first. *)
Fixpoint pop_unseen (seen : gset Z) (q : list Z) : option (Z * list Z) :=
  match q with
  | [] => None
  | cur :: q => if decide (cur ∈ seen) then pop_unseen seen q else Some (cur, q)
  end.

Record Walk := { seen : gset Z; ret : list Inode; q : list Z }.

Definition all_inodes_step (w : Walk) : loop_step Walk (result Error (list Inode)) :=
  match pop_unseen (seen w) (q w) with
  | None => Done (Ok (ret w))
  | Some (cur, q) =>
      match visit_inode cur with
      | Ok (inode, ids) => Again {| seen := {[cur]} ∪ seen w; ret := ret w ++ [inode]; q := rev ids ++ q |}
      | Err err => Done (Err err)
      | Panic => Done Panic
      end
  end.

(** Every new id with an inode has an address in the image. *)
Definition walk_measure (w : Walk) : nat := S (length (img e)) - size (seen w).

Definition all_inodes : result Error (list Inode) :=
  let? root := get_root_inode e in
  loop_result (loop all_inodes_step walk_measure {| seen := ∅; ret := []; q := [disk_id root] |}).

(** * Lemmas *)

Lemma dirent_ids_total s : dirents_inv s -> exists r, loop dirent_ids_step (fun x => dirents_measure x.1) (s, []) = Some r.
Proof.
  intros Hi. apply (loop_total_on _ _ (fun x => dirents_inv x.1)); [|done].
  intros [s1 acc] [s2 acc2] Hs. simpl. destruct (dirents_next s1) as [[s3 [item|err|]]|] eqn:E; [|done..].
  destruct (try_into _ _); [|done]. intros [= -> _]. by eapply dirents_next_progress.
Qed.

(** The ids that are pushed fit 32 bits. *)
Lemma dirent_ids_range s ids : dirents_inv s -> dirent_ids s = Ok ids -> Forall (in_width 32) ids.
Proof.
  intros Hi. unfold dirent_ids. destruct (dirent_ids_total s Hi) as [r Hr]. rewrite Hr. simpl. intros ->.
  pattern (Ok ids : result Error (list Z)).
  refine (run_loop_inv dirent_ids_step (fun x => Forall (in_width 32) x.2)
    (fun r => forall ids, r = Ok ids -> Forall (in_width 32) ids) _ _ _ _ _ _ Hr ids eq_refl); [| |constructor].
  - intros [s1 acc] [s2 acc2] Ha. simpl in *. destruct (dirents_next s1) as [[s3 [item|err|]]|]; [|done..].
    destruct (try_into _ _) as [id|] eqn:E; [|done]. intros [= _ <-]. apply Forall_app. split; [done|].
    apply try_into_Some in E as [-> ?]. by constructor.
  - intros [s1 acc] r' Ha. simpl in *. destruct (dirents_next s1) as [[s3 [item|err|]]|]; [..|by intros [= <-] ? [= <-]];
      [destruct (try_into _ _); [done|]|..]; by intros [= <-].
Qed.

(** ** Ids and addresses *)

Lemma raw_inode_offset_inj a b :
  in_width 32 a -> in_width 32 b -> raw_inode_offset e a = raw_inode_offset e b -> a = b.
Proof.
  unfold raw_inode_offset, wadd, wrap, in_width. intros Ha Hb E.
  set (base := block_offset _ _) in *. clearbody base.
  pose proof (Z.div_mod (base + 32 * a) (2 ^ 64) ltac:(lia)). pose proof (Z.div_mod (base + 32 * b) (2 ^ 64) ltac:(lia)). lia.
Qed.

Definition has_inode (id : Z) : Prop := in_width 32 id /\ exists i, get_inode e id = Ok i.

Lemma has_inode_offset id : has_inode id -> 0 <= raw_inode_offset e id <= zlen (img e).
Proof.
  intros [_ [i Hi]]. split; [by apply Z.mod_pos_bound|].
  unfold get_inode, get_from in Hi. destruct (Z.leb_spec (raw_inode_offset e id) (zlen (img e))); done.
Qed.

(** There are not more inodes than addresses. *)
Lemma has_inode_bound (X : gset Z) : set_Forall has_inode X -> (size X <= S (length (img e)))%nat.
Proof.
  intros HX. unfold size, set_size, compose.
  rewrite <-(length_fmap (raw_inode_offset e)).
  assert (length (seqZ 0 (zlen (img e) + 1)) = S (length (img e))) as <- by (rewrite length_seqZ; unfold zlen; lia).
  apply submseteq_length, NoDup_submseteq.
  - apply NoDup_fmap_2_strong; [|apply NoDup_elements]. intros a b Ha%elem_of_elements Hb%elem_of_elements.
    apply raw_inode_offset_inj; [apply (HX a Ha)|apply (HX b Hb)].
  - intros o (a & -> & Ha%elem_of_elements)%list_elem_of_fmap. apply elem_of_seqZ.
    pose proof (has_inode_offset a (HX a Ha)). lia.
Qed.

Lemma pop_unseen_Some X l cur l' :
  pop_unseen X l = Some (cur, l') ->
  (cur ∉ X) /\ exists skipped, l = skipped ++ cur :: l' /\ Forall (fun id => id ∈ X) skipped.
Proof.
  induction l as [|a l IH]; simpl; [done|]. case_decide as Ha.
  - intros E. destruct (IH E) as (Hc & sk & -> & Hs). split; [done|]. exists (a :: sk). split; [done|by constructor].
  - intros [= -> ->]. split; [done|]. by exists [].
Qed.

Lemma pop_unseen_None X l : pop_unseen X l = None -> Forall (fun id => id ∈ X) l.
Proof. induction l as [|a l IH]; simpl; [constructor|]. case_decide; [|done]. intros. constructor; auto. Qed.

Lemma visit_inode_Ok cur inode ids :
  visit_inode cur = Ok (inode, ids) -> get_inode e cur = Ok inode /\ Forall (in_width 32) ids.
Proof.
  unfold visit_inode. intros E. apply rbind_Ok_inv in E as (i & Hi & E). case_decide; [|by injection E as -> <-].
  apply rbind_Ok_inv in E as ([data bs] & Hd & E). apply rbind_Ok_inv in E as (s & Hs & E).
  apply rbind_Ok_inv in E as (l & Hl & [= -> ->]). split; [done|].
  unfold get_dirents in Hd. case_decide; [|done]. apply rbind_Ok_inv in Hd as (d & _ & [= <- <-]).
  eapply dirent_ids_range; [|exact Hl]. eapply DirentsIterator_new_inv; [|exact Hs]. apply block_size_pos.
Qed.

Lemma get_inode_disk_id id i : get_inode e id = Ok i -> disk_id i = id.
Proof.
  intros Hi. apply get_inode_new in Hi as [d Hi]. unfold Inode_new in Hi.
  apply rbind_Ok_inv in Hi as ([fl d1] & _ & Hi). apply rbind_Ok_inv in Hi as (l & _ & Hi).
  repeat case_match; try done; apply rbind_Ok_inv in Hi as ([x y] & _ & [= <-]); done.
Qed.
(** ** The walk *)

(** The ids that the directories lead to from the root. *)
Inductive reachable_id : Z -> Prop :=
  | reach_root : reachable_id (root_disk_id (sb e))
  | reach_child id inode ids c :
      reachable_id id -> visit_inode id = Ok (inode, ids) -> c ∈ ids -> reachable_id c.

Record walk_inv (w : Walk) : Prop := {
  inv_nodup : NoDup (disk_id <$> ret w);
  inv_seen : seen w = list_to_set (disk_id <$> ret w);
  inv_ret : Forall (fun i => get_inode e (disk_id i) = Ok i /\ in_width 32 (disk_id i) /\ reachable_id (disk_id i)) (ret w);
  inv_q : Forall (fun id => in_width 32 id /\ reachable_id id) (q w);
  inv_root : root_disk_id (sb e) ∈ seen w \/ root_disk_id (sb e) ∈ q w;
  inv_closed : forall id inode ids c,
    id ∈ seen w -> visit_inode id = Ok (inode, ids) -> c ∈ ids -> c ∈ seen w \/ c ∈ q w;
}.

Lemma walk_inv_bound w : walk_inv w -> (size (seen w) <= S (length (img e)))%nat.
Proof.
  intros [_ Hs Hr _ _ _]. apply has_inode_bound. intros id Hid. rewrite Hs in Hid.
  apply elem_of_list_to_set, list_elem_of_fmap in Hid as (i & -> & Hi).
  rewrite Forall_forall in Hr. destruct (Hr i Hi) as (? & ? & _). split; [done|]. by exists i.
Qed.

Lemma walk_step_inv w w' :
  walk_inv w -> all_inodes_step w = Again w' -> walk_inv w' /\ (walk_measure w' < walk_measure w)%nat.
Proof.
  intros Hw. unfold all_inodes_step. destruct (pop_unseen (seen w) (q w)) as [[cur rest]|] eqn:Hp; [|done].
  apply pop_unseen_Some in Hp as (Hnew & skipped & Hq & Hsk). pose proof Hw as [Hnd Hs Hr Hqr Hroot Hcl].
  destruct (visit_inode cur) as [[inode ids]| |] eqn:Hv; [|done..]. intros [= <-].
  destruct (visit_inode_Ok _ _ _ Hv) as [Hi Hids]. pose proof (get_inode_disk_id _ _ Hi) as Hid.
  rewrite Hq, Forall_app, Forall_cons in Hqr. destruct Hqr as (Hqs & [Hcw Hcr] & Hqr).
  assert (forall x, x ∈ q w -> x ∈ {[cur]} ∪ seen w \/ x ∈ rev ids ++ rest) as Hmove.
  { intros x. rewrite Hq, elem_of_app, elem_of_cons. rewrite Forall_forall in Hsk.
    intros [Hx|[->|Hx]]; [left; specialize (Hsk x Hx); set_solver|left; set_solver|right; apply elem_of_app; by right]. }
  assert (walk_inv {| seen := {[cur]} ∪ seen w; ret := ret w ++ [inode]; q := rev ids ++ rest |}) as Hinv.
  { split; cbn [seen ret q].
    - rewrite fmap_app. apply NoDup_app. split; [done|]. split; [|apply NoDup_singleton].
      intros x Hx Hx'%list_elem_of_singleton. apply Hnew. rewrite Hs. subst x. rewrite Hid in Hx.
      by apply elem_of_list_to_set.
    - rewrite fmap_app, list_to_set_app_L, <-Hs. simpl. rewrite Hid. set_solver.
    - apply Forall_app. split; [done|]. constructor; [by rewrite Hid|constructor].
    - apply Forall_app. split; [|done]. apply List.Forall_rev, Forall_forall. intros c Hc. split; [by eapply Forall_forall in Hids|]. by eapply reach_child.
    - destruct Hroot as [Hroot|Hroot]; [left; set_solver|by apply Hmove].
    - intros id i l c [->%elem_of_singleton|Hin]%elem_of_union Hv' Hc.
      + rewrite Hv in Hv'. injection Hv' as <- <-. right. apply elem_of_app. left. by apply list_elem_of_In, in_rev, list_elem_of_In in Hc.
      + destruct (Hcl id i l c Hin Hv' Hc) as [?|?]; [left; set_solver|by apply Hmove]. }
  split; [done|]. apply walk_inv_bound in Hinv. unfold walk_measure. cbn [seen] in *.
  rewrite size_union in Hinv |- * by set_solver. rewrite size_singleton in *. lia.
Qed.
(** How the walk ends. *)
Definition walk_post (r : result Error (list Inode)) : Prop :=
  match r with
  | Ok l => NoDup (disk_id <$> l) /\ Forall (fun i => get_inode e (disk_id i) = Ok i) l /\
      forall id, id ∈ disk_id <$> l <-> reachable_id id
  | Err err => exists id, reachable_id id /\ visit_inode id = Err err
  | Panic => exists id, reachable_id id /\ visit_inode id = Panic
  end.

Lemma walk_done w r : walk_inv w -> all_inodes_step w = Done r -> walk_post r.
Proof.
  intros [Hnd Hs Hr Hqr Hroot Hcl]. unfold all_inodes_step.
  destruct (pop_unseen (seen w) (q w)) as [[cur rest]|] eqn:Hp.
  - apply pop_unseen_Some in Hp as (_ & sk & Hq & _). rewrite Hq, Forall_app, Forall_cons in Hqr.
    destruct Hqr as (_ & [_ Hc] & _).
    destruct (visit_inode cur) as [[inode ids]|err|] eqn:Hv; [done|intros [= <-]..]; by exists cur.
  - apply pop_unseen_None in Hp. rewrite Forall_forall in Hp. intros [= <-]. split; [done|]. split.
    { eapply Forall_impl; [exact Hr|]. by intros i [? _]. }
    intros id. split.
    + intros (i & -> & Hi)%list_elem_of_fmap. rewrite Forall_forall in Hr. by apply Hr.
    + intros Hid. apply (elem_of_list_to_set (C:=gset Z)). rewrite <-Hs. induction Hid as [|id i ids c _ IH Hv Hc].
      * destruct Hroot; auto.
      * destruct (Hcl id i ids c IH Hv Hc); auto.
Qed.

Lemma all_inodes_post : in_width 32 (root_disk_id (sb e)) -> walk_post all_inodes.
Proof.
  intros Hroot. unfold all_inodes, get_root_inode. destruct (get_inode e (root_disk_id (sb e))) as [root|err|] eqn:Er.
  2,3: exists (root_disk_id (sb e)); split; [apply reach_root|]; unfold visit_inode; by rewrite Er.
  cbn [rbind]. rewrite (get_inode_disk_id _ _ Er). set (w := {| seen := _; ret := _; q := _ |}).
  assert (walk_inv w) as Hw.
  { split; cbn; [constructor|done|constructor| |right; by left|set_solver].
    constructor; [|constructor]. split; [done|apply reach_root]. }
  destruct (loop_total_on all_inodes_step walk_measure walk_inv walk_step_inv w Hw) as [r Hr]. rewrite Hr. simpl.
  eapply (run_loop_inv all_inodes_step walk_inv walk_post); [|apply walk_done|exact Hw|exact Hr].
  intros w1 w2 H1 H2. by apply (walk_step_inv w1).
Qed.
End walk.

Lemma Erofs_new_root data e : Erofs_new data = Ok e -> in_width 32 (root_disk_id (sb e)).
Proof.
  intros He. unfold Erofs_new in He. apply rbind_Ok_inv in He as (d & _ & He).
  apply rbind_Ok_inv in He as ([s rest] & Hs & He). destruct (negb _); [done|]. injection He as <-.
  apply ok_or_Ok in Hs. cbn [sb]. unfold try_read_from_prefix, Superblock_pod in Hs.
  do 5 (apply bind_Some in Hs as ([? ?] & _ & Hs)). apply bind_Some in Hs as ([r ?] & Hr & Hs).
  do 18 (apply bind_Some in Hs as ([? ?] & _ & Hs)). injection Hs as <- _. cbn [root_disk_id].
  unfold r_int in Hr. destruct (Nat.leb _ _); [|done]. injection Hr as <- _.
  match goal with |- context [take 2 ?l] => set (x := take 2 l); assert (length x <= 2)%nat as Hx by (subst x; rewrite length_take; lia) end.
  pose proof (le_val_range x) as Hv. unfold zlen in Hv.
  assert (256 ^ Z.of_nat (length x) <= 256 ^ 2) by (apply Z.pow_le_mono_r; lia). unfold in_width. lia.
Qed.

(** * Properties *)

(** C26: The walk over all inodes ends on every image that opens, however its
    directories point at each other.  When it succeeds, the inodes it returns
    are the ones at their ids, no id comes twice, and the ids are exactly those
    that the directories lead to from the root; when it fails or panics, one of
    these cannot be read. *)
Theorem all_inodes_spec `{RustixFileType} data e :
  Erofs_new data = Ok e ->
  match all_inodes e with
  | Ok l => NoDup (disk_id <$> l) /\ Forall (fun i => get_inode e (disk_id i) = Ok i) l /\
      forall id, id ∈ disk_id <$> l <-> reachable_id e id
  | Err err => exists id, reachable_id e id /\ visit_inode e id = Err err
  | Panic => exists id, reachable_id e id /\ visit_inode e id = Panic
  end.
Proof. intros He. by apply all_inodes_post, (Erofs_new_root data). Qed.

(** A directory with a file. *)
Definition example_bytes : list byte :=
  (ok_default (ErofsBuild.Stats_default, [])
     (rbind (build_steps [AddFile (bytes_of_string "d/f") Meta_default 1 [x61]] (start_builder None None)) into_inner)).2.
Definition example_view : Erofs := ok_default {| img := []; sb := Superblock_zeroed |} (Erofs_new example_bytes).

Lemma all_inodes_spec_witness :
  exists l, all_inodes example_view = Ok l /\ length l = 3%nat /\ NoDup (disk_id <$> l).
Proof.
  assert (Erofs_new example_bytes = Ok example_view) as He
    by (apply ok_default_is_ok; vm_compute; reflexivity).
  pose proof (all_inodes_spec example_bytes example_view He) as Hw.
  assert (length (ok_default [] (all_inodes example_view)) = 3%nat) as Hl by (vm_compute; reflexivity).
  destruct (all_inodes example_view) as [l| |]; [|discriminate Hl..]. exists l. split; [reflexivity|]. split; [exact Hl|apply Hw].
Defined.
