(* ===== verification/DumpMain.v ===== *)
(** The inspection tool (src/peerofs/src/dump.rs, [main], and [inspect] of
    src/peerofs/src/disk.rs): it opens an image and prints one directory of it.

    The tool uses [inspect], which exists only with debug assertions, so it is
    built without optimisation; the reader's arithmetic is the one of [ErofsDisk].
    The derived [Debug] forms of the superblock, inodes and map headers are
    parameters.  The file proves what is printed when the tool ends, and that it
    can run for ever only in the attributes of an inode: the iterator of
    attributes does not advance when an entry is out of bounds. *)
From stdpp Require Import option base list numbers strings relations.
From Stdlib Require Import ZArith Lia.
From S2P Require Import Prelude BTree Paths Text ErofsBuild ErofsTree ErofsDisk ErofsDump.
#[local] Open Scope Z_scope.

#[local] Notation bs := bytes_of_string.

(** * How a program ends *)

Inductive outcome (A : Type) := Finished (a : A) | Panicked | Hung.
Arguments Finished {A} a.
Arguments Panicked {A}.
Arguments Hung {A}.

Definition obind {A B} (c : outcome A) (k : A -> outcome B) : outcome B :=
  match c with Finished a => k a | Panicked => Panicked | Hung => Hung end.
#[local] Notation "'let!' x ':=' c 'in' k" := (obind c (fun x => k))
  (at level 10, x name, c at level 100, k at level 200).
#[local] Notation "'let!' ' p ':=' c 'in' k" := (obind c (fun x => match x with p => k end))
  (at level 10, p strict pattern, c at level 100, k at level 200).

(** [unwrap] and [expect] *)
Definition unwrap {E A} (r : result E A) : outcome A := match r with Ok a => Finished a | _ => Panicked end.
Definition unwrap_option {A} (o : option A) : outcome A := match o with Some a => Finished a | None => Panicked end.

(** * Printing *)

Definition Layout_debug (l : Layout) : bstr :=
  match l with
  | FlatPlain => bs "FlatPlain" | CompressedFull => bs "CompressedFull" | FlatInline => bs "FlatInline"
  | CompressedCompact => bs "CompressedCompact" | ChunkBased => bs "ChunkBased"
  end.
Definition DirentFileType_debug (t : DirentFileType.t) : bstr :=
  match t with
  | DirentFileType.Unknown => bs "Unknown" | DirentFileType.RegularFile => bs "RegularFile"
  | DirentFileType.Directory => bs "Directory" | DirentFileType.CharacterDevice => bs "CharacterDevice"
  | DirentFileType.BlockDevice => bs "BlockDevice" | DirentFileType.Fifo => bs "Fifo"
  | DirentFileType.Socket => bs "Socket" | DirentFileType.Symlink => bs "Symlink"
  end.

Definition newline : bstr := [x0a].

(** [p] of [inspect]: groups of four bytes. *)
Definition inspect_bytes (xs : list byte) : bstr :=
  concat (imap (fun i b => (if bool_decide (0 < i /\ i mod 4 = 0)%nat then [x20] else []) ++
                           [hex_digit (byte_val b / 16); hex_digit (byte_val b mod 16)]) xs).

Definition inspect_range (label : bstr) (from to : Z) (data : list byte) : bstr :=
  label ++ bs ": " ++ print_base 16 from ++ bs "-" ++ print_base 16 to ++ bs ":" ++ newline ++
  inspect_bytes data ++ newline.

Section dump.
Context `{RustixFileType} (lz4 : option (list byte -> list byte -> Z -> option (Z * list byte))).
Context (debug_sb : Superblock -> bstr) (debug_inode : Inode -> bstr) (debug_map_header : MapHeader -> bstr).
Context (e : Erofs).

#[local] Open Scope result_scope.
Definition inspect (inode : Inode) (after : Z) : result Error bstr :=
  let start := inode_offset e inode in
  let size := inode_size inode in
  let xattr_start := wadd 64 start size in
  let range from len := ok_or (get_range (img e) from (wadd 64 from len)) Oob in
  let? d := range start size in
  let t1 := inspect_range (bs "inode") start (wadd 64 start size) d in
  let? t2 := match xattr_len inode with
             | Some len =>
                 let? d := range xattr_start len in
                 Ok (inspect_range (bs "xattr") xattr_start (wadd 64 xattr_start len) d)
             | None => Ok []
             end in
  let? l := layout inode in
  let? '(t3, after_start) :=
    if is_compressed l then
      let start := round_up_to 8 (inode_end e inode) in
      let? d := range start (size_of MapHeader) in
      Ok (inspect_range (bs "map_header") start (wadd 64 start (size_of MapHeader)) d,
          wadd 64 start (size_of MapHeader))
    else Ok ([], wadd 64 xattr_start (default 0 (xattr_len inode))) in
  let? t4 := if 0 <? after then
               let? d := range after_start after in
               Ok (inspect_range (bs "after") after_start (wadd 64 after_start after) d)
             else Ok [] in
  Ok (t1 ++ t2 ++ t3 ++ t4).
#[local] Close Scope result_scope.

(** The loop over the attributes; an attribute that cannot be read is reported on
    the error output and the loop goes on. *)
Definition print_xattrs_step (x : XattrsIterator * bstr) : loop_step (XattrsIterator * bstr) (outcome bstr) :=
  let '(s, out) := x in
  match xattrs_next s with
  | None => Done (Finished out)
  | Some (s, Ok item) =>
      match get_xattr_prefix item with
      | Ok prefix =>
          Again (s, out ++ escape_ascii prefix ++ escape_ascii (xi_name item) ++ bs "=" ++
                    escape_ascii (xi_value item) ++ bs ", ")
      | _ => Done Panicked
      end
  | Some (s, Err _) => Again (s, out)
  | Some (_, Panic) => Done Panicked
  end.
Definition print_xattrs (s : XattrsIterator) : outcome bstr :=
  match loop print_xattrs_step (fun x => xattrs_measure x.1) (s, []) with Some r => r | None => Hung end.

Definition entry_head (item : DirentItem) (inode : Inode) : bstr :=
  bs "  " ++ pad_left 20 (escape_ascii (item_name item)) ++ bs " " ++ pad_left 4 (print_uint (item_disk_id item)) ++
  bs " " ++ DirentFileType_debug (item_file_type item) ++ bs " " ++ print_uint (uid inode) ++ bs "/" ++
  print_uint (gid inode) ++ bs " " ++ print_base 8 (mode inode).

(** What is printed for an entry, and the data that is written to a file when
    its contents are compressed. *)
Definition dump_entry (create_ok : bool) (item : DirentItem) : outcome (bstr * option (list byte)) :=
  let! inode := unwrap (get_inode_from_dirent e item) in
  let! xattrs := unwrap (get_xattrs e inode) in
  let! attrs := match xattrs with
                | Some xattrs =>
                    let! t := print_xattrs (xattrs_iter xattrs) in Finished (bs " {" ++ t ++ bs "}")
                | None => Finished []
                end in
  let! detail := match item_file_type item with
                 | DirentFileType.Symlink =>
                     let! link := unwrap (get_symlink e inode) in Finished (bs " -> " ++ escape_ascii link)
                 | DirentFileType.RegularFile =>
                     let! l := unwrap (layout inode) in
                     Finished (bs " size=" ++ print_uint (data_size inode) ++ bs " (" ++ Layout_debug l ++
                               bs " block=" ++ print_base 16 (raw_block_addr inode) ++ bs ")")
                 | _ => Finished []
                 end in
  let! '(more, file) :=
    match item_file_type item with
    | DirentFileType.RegularFile =>
        let! l := unwrap (layout inode) in
        match l with
        | CompressedFull =>
            let! t := unwrap (inspect inode 64) in
            let! header := unwrap (get_map_header e inode) in
            if create_ok then
              let! data := unwrap (get_compressed_data lz4 e inode) in
              Finished (bs "size=" ++ print_uint (data_size inode) ++ bs " compressed_blocks=" ++
                        print_uint (raw_compressed_blocks inode) ++ newline ++ t ++
                        debug_map_header header ++ newline, Some data)
            else Panicked
        | _ => Finished ([], None)
        end
    | _ => Finished ([], None)
    end in
  Finished (entry_head item inode ++ attrs ++ detail ++ newline ++ more, file).

Definition dump_dir_step (create_ok : bool) (x : DirentsIterator * list (bstr * option (list byte)))
    : loop_step (DirentsIterator * list (bstr * option (list byte))) (outcome (list (bstr * option (list byte)))) :=
  let '(s, acc) := x in
  match dirents_next s with
  | None => Done (Finished acc)
  | Some (s, Ok item) =>
      match dump_entry create_ok item with
      | Finished t => Again (s, acc ++ [t])
      | Panicked => Done Panicked
      | Hung => Done Hung
      end
  | Some (_, _) => Done Panicked
  end.
Definition dump_dir (create_ok : bool) (s : DirentsIterator) : outcome (list (bstr * option (list byte))) :=
  match loop (dump_dir_step create_ok) (fun x => dirents_measure x.1) (s, []) with Some r => r | None => Hung end.
End dump.

(** The whole program: what it prints, and the last data it wrote to the file. *)
Definition dump_main `{RustixFileType} lz4 debug_sb debug_inode debug_map_header
    (read_image : bstr -> option (list byte)) (create_ok : bool) (args : list bstr)
    : outcome (bstr * option (list byte)) :=
  let! image := unwrap_option (args !! 1%nat) in
  let! data := unwrap_option (read_image image) in
  let! e := unwrap (Erofs_new data) in
  let! id := match args !! 2%nat with
             | Some s => unwrap_option (parse_uint 32 s)
             | None => let! root := unwrap (get_root_inode e) in Finished (disk_id root)
             end in
  let! dir := unwrap (get_inode e id) in
  let! l := unwrap (layout dir) in
  let! '(data, block_size) := unwrap (get_dirents e dir) in
  let! s := unwrap (DirentsIterator_new data block_size) in
  let! entries := dump_dir lz4 debug_map_header e create_ok s in
  Finished (debug_sb (sb e) ++ newline ++ debug_inode dir ++ newline ++ bs "layout=" ++ Layout_debug l ++ newline ++
            concat (entries.*1), last (omap snd entries)).

(** * Lemmas *)

(** An attribute that cannot be read leaves the iterator where it is, or it has
    advanced. *)
Lemma xattrs_next_err s s' err :
  xattrs_next s = Some (s', Err err) -> s' = s \/ (xattrs_measure s' < xattrs_measure s)%nat.
Proof.
  unfold xattrs_next, xattrs_measure. destruct (Z.ltb_spec 0 (xs_shared_remaining s)) as [Hs|Hs].
  - intros [= E]. right. unfold next_shared in E. simpl in E. unfold wsub, wrap in *.
    pose proof (Z.mod_le (xs_shared_remaining s - 1) (2 ^ 8) ltac:(lia) ltac:(lia)).
    pose proof (Z.mod_pos_bound (xs_shared_remaining s - 1) (2 ^ 8) ltac:(lia)).
    destruct (r_int 4 (xs_data s)) as [[index d]|] eqn:Er; apply (f_equal fst) in E; simpl in E; subst s'; simpl; [|lia].
    apply r_int_inv in Er as [_ ->]. rewrite length_app. lia.
  - destruct (decide _); [done|]. intros [= E]. unfold next_unshared in E.
    destruct (try_read_from_prefix _) as [[entry d]|] eqn:Er; [|left; congruence].
    apply pod_read_inv in Er as [Hok Hd]. apply pod_as_bytes_length in Hok as Hlen.
    do 2 (destruct (get_range _ _ _); [|left; congruence]).
    destruct (get_from d _) as [r|] eqn:Eg; [|left; congruence].
    apply (f_equal fst) in E. simpl in E. subst s'. right. simpl. rewrite Hd, length_app.
    unfold zlen in Hlen. change (size_of XattrEntry) with 4 in Hlen.
    unfold get_from in Eg. destruct (_ <=? _); [|done]. injection Eg as <-.
    destruct (_ <? _); [simpl; lia|]. unfold zdrop. rewrite length_drop. lia.
Qed.

(** One iteration: the iterator advances or stays for ever. *)
Lemma print_xattrs_progress s out s' out' :
  print_xattrs_step (s, out) = Again (s', out') ->
  (xattrs_measure s' < xattrs_measure s)%nat \/ (s', out') = (s, out).
Proof.
  simpl. destruct (xattrs_next s) as [[s1 [item|err|]]|] eqn:E; [| |done..].
  - destruct (get_xattr_prefix item); [|done..]. intros [= <- _]. left. by eapply xattrs_next_progress.
  - intros [= <- <-]. apply xattrs_next_err in E as [->|]; auto.
Qed.

Lemma run_loop_stuck {S R} (step : S -> loop_step S R) s fuel : step s = Again s -> run_loop step fuel s = None.
Proof. intros E. induction fuel; [done|]. simpl. by rewrite E. Qed.

(** When the fuel is used up, no fuel is enough. *)
Lemma print_xattrs_no_fuel fuel x :
  (xattrs_measure x.1 < fuel)%nat -> run_loop print_xattrs_step fuel x = None ->
  forall fuel', run_loop print_xattrs_step fuel' x = None.
Proof.
  revert x. induction fuel as [|fuel IH]; intros [s out] Hf; [lia|]. cbn [run_loop].
  destruct (print_xattrs_step (s, out)) as [[s' out']|r] eqn:E; [|done]. intros Hn fuel'.
  destruct (print_xattrs_progress _ _ _ _ E) as [Hp|[= -> ->]]; [|by apply run_loop_stuck].
  destruct fuel' as [|fuel']; [done|]. cbn [run_loop]. rewrite E. apply IH; [simpl in *; lia|done].
Qed.

Lemma print_xattrs_hung s :
  print_xattrs s = Hung -> forall fuel, run_loop print_xattrs_step fuel (s, []) = None.
Proof.
  unfold print_xattrs. destruct (loop _ _ _) as [r|] eqn:E.
  - intros ->. exfalso. unfold loop in E.
    apply (run_loop_inv print_xattrs_step (fun _ => True) (fun r => r <> Hung)) in E; [done|done| |done].
    intros [s1 out] r _. simpl. destruct (xattrs_next s1) as [[s2 [item|err|]]|];
      [destruct (get_xattr_prefix item)|..]; by intros [= <-].
  - intros _ fuel. eapply print_xattrs_no_fuel; [|exact E]. simpl. lia.
Qed.

Lemma obind_Finished {A B} (c : outcome A) (k : A -> outcome B) b :
  obind c k = Finished b -> exists a, c = Finished a /\ k a = Finished b.
Proof. destruct c; naive_solver. Qed.

Lemma unwrap_not_hung {E A} (r : result E A) : unwrap r <> Hung.
Proof. by destruct r. Qed.
Lemma unwrap_option_not_hung {A} (o : option A) : unwrap_option o <> Hung.
Proof. by destruct o. Qed.
Lemma unwrap_Finished {E A} (r : result E A) a : unwrap r = Finished a <-> r = Ok a.
Proof. destruct r; naive_solver. Qed.
Lemma unwrap_option_Finished {A} (o : option A) a : unwrap_option o = Finished a <-> o = Some a.
Proof. destruct o; naive_solver. Qed.

(** A computation hangs in one of its parts. *)
Lemma obind_Hung {A B} (c : outcome A) (k : A -> outcome B) :
  obind c k = Hung -> c = Hung \/ exists a, c = Finished a /\ k a = Hung.
Proof. destruct c; naive_solver. Qed.

Ltac hung H :=
  repeat (apply obind_Hung in H as [H|(? & _ & H)];
    [try (by apply unwrap_not_hung in H); try (by apply unwrap_option_not_hung in H)|]).

Section spec.
Context `{RustixFileType} (lz4 : option (list byte -> list byte -> Z -> option (Z * list byte))).
Context (debug_map_header : MapHeader -> bstr) (create_ok : bool) (e : Erofs).
#[local] Notation entry := (dump_entry lz4 debug_map_header e create_ok).

(** The attributes of an entry keep the tool busy for ever. *)
Definition endless (item : DirentItem) : Prop :=
  exists inode xs, get_inode_from_dirent e item = Ok inode /\ get_xattrs e inode = Ok (Some xs) /\
    forall fuel, run_loop print_xattrs_step fuel (xattrs_iter xs, []) = None.

Lemma dump_entry_hung item : entry item = Hung -> endless item.
Proof.
  unfold dump_entry. intros E.
  apply obind_Hung in E as [E|(inode & Hi%unwrap_Finished & E)]; [by apply unwrap_not_hung in E|].
  apply obind_Hung in E as [E|(xattrs & Hx%unwrap_Finished & E)]; [by apply unwrap_not_hung in E|].
  apply obind_Hung in E as [E|(attrs & _ & E)].
  - destruct xattrs as [xs|]; [|done]. apply obind_Hung in E as [E|(t & _ & E)]; [|done].
    exists inode, xs. split_and!; [done..|]. by apply print_xattrs_hung.
  - exfalso. apply obind_Hung in E as [E|(detail & _ & E)].
    + destruct (item_file_type item); try done; hung E; done.
    + apply obind_Hung in E as [E|([more file] & _ & E)]; [|done].
      destruct (item_file_type item); try done.
      apply obind_Hung in E as [E|(l & _ & E)]; [by apply unwrap_not_hung in E|].
      destruct l; try done. hung E. destruct create_ok; [|done]. hung E. done.
Qed.

Lemma dump_dir_decreases :
  loop_decreases_on (dump_dir_step lz4 debug_map_header e create_ok) (fun x => dirents_measure x.1)
    (fun x => dirents_inv x.1).
Proof.
  intros [s acc] [s' acc'] Hi. simpl. destruct (dirents_next s) as [[s1 [item|err|]]|] eqn:E; [|done..].
  destruct (entry item); [|done..]. intros [= -> _]. by eapply dirents_next_progress.
Qed.

(** The loop prints the entries that the iterator yields, in order. *)
Lemma dump_dir_loop s acc items0 :
  dirents_inv s ->
  match loop (dump_dir_step lz4 debug_map_header e create_ok) (fun x => dirents_measure x.1) (s, acc) with
  | Some (Finished l) => exists items texts, l = acc ++ texts /\
      loop collect_dirents_step (fun x => dirents_measure x.1) (s, items0) = Some (Ok (items0 ++ items)) /\
      Forall2 (fun item t => entry item = Finished t) items texts
  | Some Hung => exists item, entry item = Hung
  | Some Panicked => True
  | None => False
  end.
Proof.
  revert acc items0. induction s as [s IH] using (induction_ltof1 _ dirents_measure). intros acc items0 Hi.
  rewrite (loop_unfold_on _ _ _ dump_dir_decreases) by done. rewrite collect_dirents_unfold by done.
  simpl. destruct (dirents_next s) as [[s1 [item|err|]]|] eqn:E; [|done..|].
  - destruct (dirents_next_progress _ _ _ Hi E) as [Hi1 Hm].
    destruct (entry item) as [t| |] eqn:Ee; [|done|by eauto].
    specialize (IH s1 Hm (acc ++ [t]) (items0 ++ [item]) Hi1).
    destruct (loop _ _ (s1, acc ++ [t])) as [[l| |]|]; [|done..].
    destruct IH as (items & texts & -> & -> & Hf). exists (item :: items), (t :: texts).
    rewrite <-!app_assoc. split_and!; [done..|]. by constructor.
  - exists [], []. rewrite !app_nil_r. split_and!; [done..|]. constructor.
Qed.

Lemma dump_dir_spec s :
  dirents_inv s ->
  match dump_dir lz4 debug_map_header e create_ok s with
  | Finished l => exists items, collect_dirents s = Ok items /\ Forall2 (fun item t => entry item = Finished t) items l
  | Hung => exists item, endless item
  | Panicked => True
  end.
Proof.
  intros Hi. pose proof (dump_dir_loop s [] [] Hi) as Hl. unfold dump_dir, collect_dirents.
  destruct (loop _ _ (s, [])) as [[l| |]|]; [|done| |done].
  - destruct Hl as (items & texts & -> & Hc & Hf). exists items. by rewrite Hc.
  - destruct Hl as [item Hh]. exists item. by apply dump_entry_hung.
Qed.
End spec.

(** * Properties *)

(** C36: What the tool prints.  When it ends without a panic, the image opened, the
    chosen inode (the root, or the one of the second argument) is a directory,
    and the output is the superblock, the inode, its layout and the lines of
    exactly its entries, in their order; and when it does not end, an inode of
    the image has attributes whose iterator yields an error for ever. *)
Theorem dump_main_spec `{RustixFileType} lz4 debug_sb debug_inode debug_map_header read_image create_ok args :
  match dump_main lz4 debug_sb debug_inode debug_map_header read_image create_ok args with
  | Finished (out, file) =>
      exists image data e id dir l d s items texts,
        args !! 1%nat = Some image /\ read_image image = Some data /\ Erofs_new data = Ok e /\
        match args !! 2%nat with
        | Some n => parse_uint 32 n = Some id
        | None => rmap disk_id (get_root_inode e) = Ok id
        end /\
        get_inode e id = Ok dir /\ layout dir = Ok l /\ get_dirents e dir = Ok (d, block_size e) /\
        DirentsIterator_new d (block_size e) = Ok s /\ collect_dirents s = Ok items /\
        Forall2 (fun item t => dump_entry lz4 debug_map_header e create_ok item = Finished t) items texts /\
        out = debug_sb (sb e) ++ newline ++ debug_inode dir ++ newline ++ bs "layout=" ++ Layout_debug l ++ newline ++
              concat (texts.*1) /\
        file = last (omap snd texts)
  | Hung => exists image data e item, args !! 1%nat = Some image /\ read_image image = Some data /\
      Erofs_new data = Ok e /\ endless e item
  | Panicked => True
  end.
Proof.
  destruct (dump_main _ _ _ _ _ _ _) as [[out file]| |] eqn:E; [|done|]; unfold dump_main in E.
  - apply obind_Finished in E as (image & Ha%unwrap_option_Finished & E).
    apply obind_Finished in E as (data & Hd%unwrap_option_Finished & E).
    apply obind_Finished in E as (e & He%unwrap_Finished & E).
    apply obind_Finished in E as (id & Hid & E).
    apply obind_Finished in E as (dir & Hdir%unwrap_Finished & E).
    apply obind_Finished in E as (l & Hl%unwrap_Finished & E).
    apply obind_Finished in E as ([d bsz] & Hds%unwrap_Finished & E).
    apply obind_Finished in E as (s & Hs%unwrap_Finished & E).
    apply obind_Finished in E as (entries & Hen & E). injection E as <- <-.
    assert (bsz = block_size e) as ->.
    { unfold get_dirents in Hds. destruct (decide _); [|done]. by apply rbind_Ok_inv in Hds as (? & _ & [= _ <-]). }
    pose proof (dump_dir_spec lz4 debug_map_header create_ok e s) as Hsp. rewrite Hen in Hsp.
    destruct Hsp as (items & Hc & Hf); [eapply DirentsIterator_new_inv; [apply block_size_pos|exact Hs]|].
    exists image, data, e, id, dir, l, d, s, items, entries. split_and!; try done.
    destruct (args !! 2%nat) as [n|]; [by apply unwrap_option_Finished|].
    apply obind_Finished in Hid as (root & Hr%unwrap_Finished & [= <-]). by rewrite Hr.
  - apply obind_Hung in E as [E|(image & Ha%unwrap_option_Finished & E)]; [by apply unwrap_option_not_hung in E|].
    apply obind_Hung in E as [E|(data & Hd%unwrap_option_Finished & E)]; [by apply unwrap_option_not_hung in E|].
    apply obind_Hung in E as [E|(e & He%unwrap_Finished & E)]; [by apply unwrap_not_hung in E|].
    apply obind_Hung in E as [E|(id & Hid & E)].
    { exfalso. destruct (args !! 2%nat); [by apply unwrap_option_not_hung in E|]. by hung E. }
    apply obind_Hung in E as [E|(dir & _ & E)]; [by apply unwrap_not_hung in E|].
    apply obind_Hung in E as [E|(l & _ & E)]; [by apply unwrap_not_hung in E|].
    apply obind_Hung in E as [E|([d bsz] & Hds%unwrap_Finished & E)]; [by apply unwrap_not_hung in E|].
    apply obind_Hung in E as [E|(s & Hs%unwrap_Finished & E)]; [by apply unwrap_not_hung in E|].
    apply obind_Hung in E as [E|(entries & _ & E)]; [|done].
    assert (bsz = block_size e) as ->.
    { unfold get_dirents in Hds. destruct (decide _); [|done]. by apply rbind_Ok_inv in Hds as (? & _ & [= _ <-]). }
    pose proof (dump_dir_spec lz4 debug_map_header create_ok e s) as Hsp. rewrite E in Hsp.
    destruct Hsp as (item & Hh); [eapply DirentsIterator_new_inv; [apply block_size_pos|exact Hs]|].
    by exists image, data, e, item.
Qed.

(** Nine bytes of attributes whose entry is longer than they are: the iterator
    does not advance, and the loop never ends. *)
Definition bad_xattrs : XattrsIterator :=
  {| xs_data := [xff; x01; x00; x00; x61; x62; x63; x64; x65]; xs_shared_data := []; xs_shared_remaining := 0 |}.

Example bad_xattrs_hang :
  print_xattrs bad_xattrs = Hung /\ forall fuel, run_loop print_xattrs_step fuel (bad_xattrs, []) = None.
Proof.
  assert (print_xattrs bad_xattrs = Hung) as E by (vm_compute; reflexivity).
  split; [done|]. by apply print_xattrs_hung.
Qed.

(** A directory with a file, printed. *)
Definition example_dump : outcome (bstr * option (list byte)) :=
  dump_main None (fun _ => bs "sb") (fun _ => bs "inode") (fun _ => bs "header")
    (fun _ => Some example_bytes) true [bs "erofs-dump"; bs "image"].

Example example_dump_output :
  example_dump = Finished (
    bs "sb" ++ newline ++
    bs "inode" ++ newline ++
    bs "layout=FlatPlain" ++ newline ++
    bs "                     .    0 Directory 0/0 40755" ++ newline ++
    bs "                    ..    0 Directory 0/0 40755" ++ newline ++
    bs "                     d    2 Directory 0/0 40755" ++ newline, None).
Proof. vm_compute. reflexivity. Qed.
