(* ===== verification/Squash.v ===== *)
(** Squashing image layers (src/peimage/src/squash.rs).

    Layers are processed from the top one down.  A layer's entries go to a
    callback unless an upper layer hid them: by a whiteout [.wh.name], by an
    opaque marker [.wh..wh..opq], or because it holds an entry with the same
    path.  [DeletionsOsString] records what is hidden in one ordered map and
    answers [is_deleted] with a single range query.  The file models the
    deletion map and its trait, the recognition of whiteouts, [squash_layer]
    and [squash_cb], states what the map is meant to hide, and proves where the
    range query finds it and where it does not. *)
From stdpp Require Import base list gmap numbers strings sorting.
From Stdlib Require Import ZArith Lia.
From S2P Require Import Prelude BTree Paths ErofsBuild.
#[local] Open Scope Z_scope.
#[local] Open Scope result_scope.

(** * Data *)

(** The entry types of the [tar] crate that the sources name. *)
Inductive EntryType := Regular | Link | Symlink | Directory | OtherEntry (code : Z).

Inductive Error :=
  | Io
  | OpaqueWhiteoutNoParent
  | HardlinkNoLink
  | XattrKeyUtf8Error
  | UidTooBig
  | GidTooBig
  | UnhandledEntryType (t : EntryType)
  | Erofs (e : ErofsBuild.Error).

Inductive Whiteout := WhiteoutFile (path : bstr) | WhiteoutOpaque (path : bstr).

Inductive DeletionState := Whiteout_ | Opaque_ | Shadowed_.
Inductive DeletionReason := RWhiteout | RWhiteoutDir | ROpaque | RShadowed.

#[export] Instance DeletionState_eq_dec : EqDecision DeletionState.
Proof. solve_decision. Defined.
#[export] Instance DeletionReason_eq_dec : EqDecision DeletionReason.
Proof. solve_decision. Defined.

Record DeletionsOsString := {
  dels_map : btree DeletionState;
  whiteout_q : list bstr;
  opaque_q : list bstr;
}.

Definition DeletionsOsString_default : DeletionsOsString :=
  {| dels_map := []; whiteout_q := []; opaque_q := [] |}.

Record Stats := {
  deletions : Z;
  deletion_dirs : Z;
  opaques : Z;
  shadowed : Z;
  deletions_map_size : Z;
}.
Definition Stats_default : Stats :=
  {| deletions := 0; deletion_dirs := 0; opaques := 0; shadowed := 0; deletions_map_size := 0 |}.

(** A tar entry as the [tar] crate presents it; the numeric header fields and
    the pax extensions are parsed on access and can fail. *)
Record Entry := {
  e_path : bstr;
  e_type : EntryType;
  e_link_name : option bstr;
  e_uid : result Error Z;
  e_gid : result Error Z;
  e_mtime : result Error Z;
  e_mode : result Error Z;
  e_size : result Error Z;
  e_pax : result Error (option (list (result Error (bstr * bstr))));
  e_data : bstr;
}.

(** * Whiteouts *)

Definition wh_prefix : bstr := bytes_of_string ".wh.".
Definition wh_opaque : bstr := bytes_of_string ".wh..wh..opq".

Definition whiteout (entry : Entry) : result Error (option Whiteout) :=
  let path := e_path entry in
  match file_name path with
  | None => Ok None
  | Some name =>
      if starts_with wh_opaque name then
        match parent path with
        | Some p => Ok (Some (WhiteoutOpaque p))
        | None => Err OpaqueWhiteoutNoParent
        end
      else
        match strip_prefix wh_prefix name with
        | Some trimmed => Ok (Some (WhiteoutFile (with_file_name path trimmed)))
        | None => Ok None
        end
  end.

(** * The deletion map *)

Definition without_trailing_slash (x : bstr) : bstr :=
  if ends_with [slash] x then take (length x - 1) x else x.

(** [x] starts with [prefix] and the next byte is a slash. *)
Definition os_str_starts_with (x prefix : bstr) : bool :=
  match strip_prefix prefix x with
  | Some rem => starts_with [slash] rem
  | None => false
  end.

(** The state of a path that is recorded again. *)
Definition merge_state (old new : DeletionState) : DeletionState :=
  match old, new with
  | Whiteout_, Whiteout_ | Opaque_, Opaque_ | Shadowed_, Shadowed_ => old
  | Whiteout_, Opaque_ | Whiteout_, Shadowed_ => old
  | Opaque_, Whiteout_ | Shadowed_, Whiteout_ => Whiteout_
  | Shadowed_, Opaque_ | Opaque_, Shadowed_ => Whiteout_
  end.

Definition insert_state (m : btree DeletionState) (path : bstr) (reason : DeletionState)
    : btree DeletionState :=
  match bt_get path m with
  | Some state => bt_insert path (merge_state state reason) m
  | None => bt_insert path reason m
  end.

Definition insert (d : DeletionsOsString) (path : bstr) (reason : DeletionState)
    : DeletionsOsString :=
  {| dels_map := insert_state (dels_map d) path reason;
     whiteout_q := whiteout_q d; opaque_q := opaque_q d |}.

(** The interface of the deletion maps. *)
Class Deletions (D : Type) := {
  push_whiteout : D -> bstr -> D;
  push_opaque : D -> bstr -> D;
  is_deleted : D -> bstr -> option DeletionReason;
  insert_seen : D -> bstr -> D;
  end_of_layer : D -> D;
}.

Definition os_push_whiteout (d : DeletionsOsString) (p : bstr) : DeletionsOsString :=
  {| dels_map := dels_map d; whiteout_q := whiteout_q d ++ [without_trailing_slash p];
     opaque_q := opaque_q d |}.
Definition os_push_opaque (d : DeletionsOsString) (p : bstr) : DeletionsOsString :=
  {| dels_map := dels_map d; whiteout_q := whiteout_q d;
     opaque_q := opaque_q d ++ [without_trailing_slash p] |}.
Definition os_insert_seen (d : DeletionsOsString) (p : bstr) : DeletionsOsString :=
  insert d p Shadowed_.

(** The answer for the map's greatest key not above the path. *)
Definition deletion_of (p key : bstr) (state : DeletionState) : option DeletionReason :=
  match state with
  | Shadowed_ => if decide (key = p) then Some RShadowed else None
  | Whiteout_ =>
      if decide (key = p) then Some RWhiteout
      else if os_str_starts_with p key then Some RWhiteoutDir else None
  | Opaque_ =>
      if decide (key = p) then None
      else if os_str_starts_with p key then Some ROpaque else None
  end.

Definition os_is_deleted (d : DeletionsOsString) (p : bstr) : option DeletionReason :=
  let p := without_trailing_slash p in
  match bt_last_le p (dels_map d) with
  | Some (key, state) => deletion_of p key state
  | None => None
  end.

Definition os_end_of_layer (d : DeletionsOsString) : DeletionsOsString :=
  let m := fold_left (fun m x => insert_state m x Whiteout_) (whiteout_q d) (dels_map d) in
  let m := fold_left (fun m x => insert_state m x Opaque_) (opaque_q d) m in
  {| dels_map := m; whiteout_q := []; opaque_q := [] |}.

#[export] Instance Deletions_OsString : Deletions DeletionsOsString := {
  push_whiteout := os_push_whiteout;
  push_opaque := os_push_opaque;
  is_deleted := os_is_deleted;
  insert_seen := os_insert_seen;
  end_of_layer := os_end_of_layer;
}.

(** * Squashing *)

Class EntryCallback (C : Type) := { on_entry : C -> Entry -> result Error C }.

Definition count_deletion (s : Stats) (r : DeletionReason) : Stats :=
  {| deletions := deletions s + (if decide (r = RWhiteout) then 1 else 0);
     deletion_dirs := deletion_dirs s + (if decide (r = RWhiteoutDir) then 1 else 0);
     opaques := opaques s + (if decide (r = ROpaque) then 1 else 0);
     shadowed := shadowed s + (if decide (r = RShadowed) then 1 else 0);
     deletions_map_size := deletions_map_size s |}.

Section squash.
Context {C D : Type} `{EntryCallback C} `{Deletions D}.

(** One entry of layer [i]; the state is the callback, the statistics and the
    deletions. *)
Definition squash_entry (i : nat) (st : C * Stats * D) (entry : Entry)
    : result Error (C * Stats * D) :=
  let '(cb, stats, dels) := st in
  let? w := whiteout entry in
  match w with
  | Some (WhiteoutFile path) =>
      Ok (cb, stats, if decide (i = O) then dels else push_whiteout dels path)
  | Some (WhiteoutOpaque path) =>
      Ok (cb, stats, if decide (i = O) then dels else push_opaque dels path)
  | None =>
      match is_deleted dels (e_path entry) with
      | Some reason => Ok (cb, count_deletion stats reason, dels)
      | None =>
          let? cb := on_entry cb entry in
          Ok (cb, stats, if decide (i = O) then dels else insert_seen dels (e_path entry))
      end
  end.

(** The entries of the archive arrive one by one and each can fail to read. *)
Fixpoint squash_entries (i : nat) (st : C * Stats * D) (entries : list (result Error Entry))
    : result Error (C * Stats * D) :=
  match entries with
  | [] => Ok st
  | e :: entries =>
      let? entry := e in
      let? st := squash_entry i st entry in
      squash_entries i st entries
  end.

Definition squash_layer (i : nat) (st : C * Stats * D) (layer : list (result Error Entry))
    : result Error (C * Stats * D) :=
  let? '(cb, stats, dels) := squash_entries i st layer in
  Ok (cb, stats, if decide (i = O) then dels else end_of_layer dels).
End squash.

Inductive Compression := CompressionNone | Gzip | Zstd.

Section squash_cb.
Context {C R : Type} `{EntryCallback C}.
(** The decompressors and the tar reader: the entries of a layer, or the
    error of opening it. *)
Context (open_layer : Compression -> R -> result Error (list (result Error Entry))).

(** [enumerate().rev()]: the highest index first. *)
Fixpoint squash_layers (layers : list (nat * (Compression * R)))
    (st : C * Stats * DeletionsOsString) : result Error (C * Stats * DeletionsOsString) :=
  match layers with
  | [] => Ok st
  | (i, (compression, reader)) :: layers =>
      let? entries := open_layer compression reader in
      let? st := squash_layer i st entries in
      squash_layers layers st
  end.

Definition enumerate_rev {A} (l : list A) : list (nat * A) := rev (imap pair l).

Definition squash_cb (layer_readers : list (Compression * R)) (cb : C)
    : result Error (C * Stats) :=
  let? '(cb, stats, dels) :=
    squash_layers (enumerate_rev layer_readers) (cb, Stats_default, DeletionsOsString_default) in
  Ok (cb, {| deletions := deletions stats; deletion_dirs := deletion_dirs stats;
             opaques := opaques stats; shadowed := shadowed stats;
             deletions_map_size := zlen (dels_map dels) |}).
End squash_cb.

(** * What the map is meant to hide

    The table of the source: a path is hidden when it is recorded itself as a
    whiteout or as shadowed, or when an ancestor is recorded as a whiteout or as
    opaque. *)

Definition ancestor (k p : bstr) : Prop := exists rest, p = k ++ slash :: rest.

Definition recorded (m : btree DeletionState) (k : bstr) (s : DeletionState) : Prop :=
  bt_get k m = Some s.

Definition hides (m : btree DeletionState) (p : bstr) (r : DeletionReason) : Prop :=
  match r with
  | RWhiteout => recorded m p Whiteout_
  | RShadowed => recorded m p Shadowed_
  | RWhiteoutDir => exists k, ancestor k p /\ recorded m k Whiteout_
  | ROpaque => exists k, ancestor k p /\ recorded m k Opaque_
  end.

(** A callback that collects the entries, and layers that are already open. *)
#[export] Instance collect : EntryCallback (list Entry) :=
  {| on_entry acc e := Ok (acc ++ [e]) |}.
Definition open_entries (_ : Compression) (l : list Entry) : result Error (list (result Error Entry)) :=
  Ok (Ok <$> l).

(** * Lemmas *)

Lemma os_str_starts_with_spec x k : os_str_starts_with x k = true <-> ancestor k x.
Proof.
  unfold os_str_starts_with, ancestor. destruct (strip_prefix k x) as [rem|] eqn:E.
  - apply strip_prefix_spec in E as ->. rewrite starts_with_spec. split.
    + intros [rest ->]. by exists rest.
    + intros [rest Hr]. apply app_inv_head in Hr as ->. by exists rest.
  - split; [done|]. intros [rest ->]. exfalso.
    assert (strip_prefix k (k ++ slash :: rest) = Some (slash :: rest)) as Hs
      by (by apply strip_prefix_spec). congruence.
Qed.

Lemma ancestor_blt k p : ancestor k p -> blt k p.
Proof. intros [rest ->]. apply blt_app_cons. Qed.

Lemma insert_state_sorted m p s : bt_sorted m -> bt_sorted (insert_state m p s).
Proof. intros. unfold insert_state. case_match; by apply bt_insert_sorted. Qed.

Lemma insert_state_get m p s q :
  bt_get q (insert_state m p s) =
    if decide (q = p) then
      Some match bt_get p m with Some old => merge_state old s | None => s end
    else bt_get q m.
Proof.
  unfold insert_state. case_decide as Hq; [subst q|];
    case_match; rewrite ?bt_insert_get_eq, ?bt_insert_get_ne by done; done.
Qed.

(** Queues, map and order are kept by every operation. *)
Inductive reachable : DeletionsOsString -> Prop :=
  | reachable_default : reachable DeletionsOsString_default
  | reachable_push_whiteout d p : reachable d -> reachable (push_whiteout d p)
  | reachable_push_opaque d p : reachable d -> reachable (push_opaque d p)
  | reachable_insert_seen d p : reachable d -> reachable (insert_seen d p)
  | reachable_end_of_layer d : reachable d -> reachable (end_of_layer d).

Lemma fold_insert_sorted s q m :
  bt_sorted m -> bt_sorted (fold_left (fun m x => insert_state m x s) q m).
Proof.
  revert m. induction q as [|x q IH]; intros m Hm; simpl; [done|].
  by apply IH, insert_state_sorted.
Qed.

Lemma reachable_sorted d : reachable d -> bt_sorted (dels_map d).
Proof.
  induction 1; simpl; [constructor|done|done| |].
  - by apply insert_state_sorted.
  - by apply fold_insert_sorted, fold_insert_sorted.
Qed.
#[local] Hint Resolve reachable_sorted : core.

Lemma deletion_of_hides m p k s r :
  recorded m k s -> deletion_of p k s = Some r -> hides m p r.
Proof.
  unfold deletion_of. intros Hk. destruct s; repeat case_decide; subst;
    try (destruct (os_str_starts_with p k) eqn:E; [apply os_str_starts_with_spec in E|]);
    intros [= <-]; simpl; eauto.
Qed.

Lemma last_le_unique m p k s k' s' :
  bt_sorted m -> bt_last_le p m = Some (k, s) -> recorded m k' s' -> ble k' p ->
  (forall q w, blt k' q -> ble q p -> recorded m q w -> False) -> k' = k /\ s' = s.
Proof.
  intros Hs Hl Hr Hle Hno. apply bt_last_le_Some in Hl as (Hg & Hkp & Hmax); [|done].
  destruct (Hmax _ _ Hr Hle) as [->|Hlt]; [unfold recorded in *; naive_solver|].
  exfalso. by eapply Hno.
Qed.

Lemma last_le_found m p k' s' :
  bt_sorted m -> recorded m k' s' -> ble k' p ->
  (forall q w, blt k' q -> ble q p -> recorded m q w -> False) ->
  bt_last_le p m = Some (k', s').
Proof.
  intros Hs Hr Hle Hno. destruct (bt_last_le p m) as [[k s]|] eqn:E.
  - by destruct (last_le_unique m p k s k' s' Hs E Hr Hle Hno) as [-> ->].
  - exfalso. by eapply bt_last_le_None.
Qed.

Lemma merge_state_comm a b : merge_state a b = merge_state b a.
Proof. by destruct a, b. Qed.
Lemma merge_state_assoc a b c : merge_state a (merge_state b c) = merge_state (merge_state a b) c.
Proof. by destruct a, b, c. Qed.
Lemma merge_state_idemp a : merge_state a a = a.
Proof. by destruct a. Qed.

(** What recording a queue does to one path. *)
Lemma fold_insert_get s q m p :
  bt_get p (fold_left (fun m x => insert_state m x s) q m) =
    if decide (p ∈ q)
    then Some match bt_get p m with Some old => merge_state old s | None => s end
    else bt_get p m.
Proof.
  revert m. induction q as [|x q IH]; intros m; simpl.
  { done. }
  rewrite IH, insert_state_get. destruct (decide (p = x)) as [->|Hne].
  - rewrite (decide_True (P := x ∈ x :: q)) by (by left).
    case_decide; [|done]. destruct (bt_get x m); [|by rewrite merge_state_idemp].
    by rewrite <-merge_state_assoc, merge_state_idemp.
  - destruct (decide (p ∈ q)); [rewrite decide_True by (by right)|
      rewrite decide_False by (rewrite elem_of_cons; intros [?|?]; done)]; done.
Qed.

(** Counting what happens to the entries of a layer. *)
Definition dropped (s : Stats) : Z := deletions s + deletion_dirs s + opaques s + shadowed s.

Definition is_whiteout (e : Entry) : bool :=
  match whiteout e with Ok (Some _) => true | _ => false end.

Definition whiteouts (l : list Entry) : Z := zlen (base.filter (fun e => is_whiteout e = true) l).

Lemma count_deletion_dropped s r : dropped (count_deletion s r) = dropped s + 1.
Proof. unfold dropped. destruct r; simpl; lia. Qed.

Lemma squash_entry_counts i acc stats (d : DeletionsOsString) e acc' stats' d' :
  squash_entry i (acc, stats, d) e = Ok (acc', stats', d') ->
  zlen acc' + dropped stats' + (if is_whiteout e then 0 else -1) = zlen acc + dropped stats.
Proof.
  unfold squash_entry, is_whiteout. destruct (whiteout e) as [[[p|p]|]| |]; simpl; [..|done|done].
  - intros [= <- <- <-]. lia.
  - intros [= <- <- <-]. lia.
  - destruct (os_is_deleted d (e_path e)) as [r|]; simpl; intros [= <- <- <-].
    + rewrite count_deletion_dropped. lia.
    + rewrite zlen_app. change (zlen [e]) with 1. lia.
Qed.

Lemma whiteouts_cons e l : whiteouts (e :: l) = (if is_whiteout e then 1 else 0) + whiteouts l.
Proof.
  unfold whiteouts. rewrite filter_cons.
  destruct (is_whiteout e); simpl; [rewrite zlen_cons|]; lia.
Qed.

#[local] Opaque squash_entry.
Lemma squash_entries_counts i acc stats (d : DeletionsOsString) l acc' stats' d' :
  squash_entries i (acc, stats, d) (Ok <$> l) = Ok (acc', stats', d') ->
  zlen acc' + dropped stats' + whiteouts l = zlen acc + dropped stats + zlen l.
Proof.
  revert acc stats d. induction l as [|e l IH]; intros acc stats d; simpl.
  { intros [= <- <- <-]. change (whiteouts []) with 0. change (zlen (@nil Entry)) with 0. lia. }
  destruct (squash_entry i (acc, stats, d) e) as [[[acc1 s1] d1]| |] eqn:E; [|done..].
  apply squash_entry_counts in E. intros Hr. apply IH in Hr.
  rewrite whiteouts_cons, zlen_cons. destruct (is_whiteout e); lia.
Qed.
#[local] Transparent squash_entry.

Lemma squash_layers_counts layers acc stats d acc' stats' d' :
  squash_layers open_entries layers (acc, stats, d) = Ok (acc', stats', d') ->
  let all := concat ((fun x => x.2.2) <$> layers) in
  zlen acc' + dropped stats' + whiteouts all = zlen acc + dropped stats + zlen all.
Proof.
  revert acc stats d. induction layers as [|[i [c l]] layers IH]; intros acc stats d; csimpl.
  { intros [= <- <- <-]. change (whiteouts []) with 0. change (zlen (@nil Entry)) with 0. lia. }
  unfold squash_layer.
  destruct (squash_entries i (acc, stats, d) (Ok <$> l)) as [[[acc1 s1] d1]| |] eqn:E; [|done..].
  csimpl. apply squash_entries_counts in E. intros Hr. apply IH in Hr.
  unfold whiteouts in *. rewrite filter_app, !zlen_app. lia.
Qed.

Lemma zlen_perm {A} (l k : list A) : l ≡ₚ k -> zlen l = zlen k.
Proof. intros H. unfold zlen. by rewrite H. Qed.
Lemma whiteouts_perm l k : l ≡ₚ k -> whiteouts l = whiteouts k.
Proof. intros H. unfold whiteouts. apply zlen_perm. by rewrite H. Qed.

Lemma enumerate_rev_concat (layers : list (Compression * list Entry)) :
  concat ((fun x => x.2.2) <$> enumerate_rev layers) ≡ₚ concat (snd <$> layers).
Proof.
  unfold enumerate_rev. rewrite <-(Permutation_rev (imap pair layers)).
  apply reflexive_eq. f_equal. apply list_eq. intros j.
  rewrite !list_lookup_fmap, list_lookup_imap. by destruct (layers !! j).
Qed.

(** The bottom layer: the deletions are fixed while it is read. *)
Definition kept (d : DeletionsOsString) (e : Entry) : Prop :=
  whiteout e = Ok None /\ os_is_deleted d (e_path e) = None.
#[export] Instance kept_dec d e : Decision (kept d e).
Proof.
  unfold kept. refine (and_dec _ _).
  destruct (whiteout e) as [[w|]|er|]; [right|left|right|right]; done.
Defined.

Lemma bottom_entries acc stats d l acc' stats' d' :
  squash_entries O (acc, stats, d) (Ok <$> l) = Ok (acc', stats', d') ->
  acc' = acc ++ base.filter (kept d) l /\ d' = d.
Proof.
  revert acc stats. induction l as [|e l IH]; intros acc stats; simpl.
  { intros [= <- <- <-]. by rewrite app_nil_r. }
  rewrite filter_cons.
  destruct (whiteout e) as [[[p|p]|]| |] eqn:Ew; simpl; [..|done|done].
  - intros Hr. rewrite decide_False by (intros [? _]; congruence). eauto.
  - intros Hr. rewrite decide_False by (intros [? _]; congruence). eauto.
  - destruct (os_is_deleted d (e_path e)) as [r|] eqn:Ed; simpl.
    + rewrite decide_False by (intros [_ ?]; congruence). eauto.
    + rewrite decide_True by done. intros Hr. apply IH in Hr as [-> ->].
      by rewrite <-app_assoc.
Qed.

(** Names of whiteout markers. *)
Lemma wh_name_plain n : plain_name n -> plain_name (wh_prefix ++ n).
Proof.
  intros (H1 & H2 & H3). repeat split; [done| |done].
  rewrite elem_of_app. intros [H|H]; [|done]. revert H. by apply (bool_decide_unpack _).
Qed.

Lemma wh_name_not_dotdot n : wh_prefix ++ n <> dotdot.
Proof. done. Qed.

Lemma wh_opaque_name n :
  starts_with wh_opaque (wh_prefix ++ n) = starts_with (bytes_of_string ".wh..opq") n.
Proof.
  apply eq_true_iff_eq. rewrite !starts_with_spec.
  split; intros [rest Hr]; exists rest; [|by subst n].
  by apply (app_inv_head wh_prefix).
Qed.

(** * Properties *)

(** Whatever [is_deleted] hides is meant to be hidden: in every map the
    squasher can build, an answer [Some r] is justified by a recorded whiteout,
    opaque directory or upper entry of the kind [r] names. *)
Theorem is_deleted_sound d p r :
  reachable d -> is_deleted d p = Some r -> hides (dels_map d) (without_trailing_slash p) r.
Proof.
  intros Hd. simpl. unfold os_is_deleted.
  destruct (bt_last_le _ _) as [[k s]|] eqn:E; [|done].
  apply bt_last_le_Some in E as (Hk & _); [|auto]. by apply deletion_of_hides.
Qed.

Definition example_dels : DeletionsOsString :=
  end_of_layer (push_opaque (push_whiteout (insert_seen DeletionsOsString_default [x71]) [x78]) [x61]).

Lemma is_deleted_sound_witness :
  hides (dels_map example_dels) (without_trailing_slash [x78; x2f; x66]) RWhiteoutDir.
Proof.
  apply (is_deleted_sound example_dels [x78; x2f; x66] RWhiteoutDir).
  - unfold example_dels. do 3 constructor. constructor. constructor.
  - reflexivity.
Defined.

(** A recorded path hides itself: after a whiteout or an upper entry with
    exactly this path (modulo one trailing slash of the query), [is_deleted]
    says so whatever else the map holds. *)
Theorem is_deleted_exact d p s :
  reachable d -> recorded (dels_map d) (without_trailing_slash p) s ->
  is_deleted d p =
    match s with Whiteout_ => Some RWhiteout | Shadowed_ => Some RShadowed | Opaque_ => None end.
Proof.
  intros Hd Hr. simpl. unfold os_is_deleted.
  rewrite (last_le_found _ _ (without_trailing_slash p) s); [|auto|done|by left|].
  - unfold deletion_of. destruct s; by rewrite decide_True.
  - intros q w Hlt [->|Hlt'] _; [by eapply blt_irrefl | by eapply blt_asym].
Qed.

Lemma is_deleted_exact_witness : is_deleted example_dels [x78; x2f] = Some RWhiteout.
Proof.
  apply (is_deleted_exact example_dels [x78; x2f] Whiteout_).
  - unfold example_dels. do 3 constructor. constructor. constructor.
  - reflexivity.
Defined.

(** A whiteout or opaque directory hides what is below it as long as no
    other recorded path sorts between the directory and the queried path. *)
Theorem is_deleted_below d k s p :
  reachable d -> recorded (dels_map d) k s -> s <> Shadowed_ ->
  ancestor k (without_trailing_slash p) ->
  (forall q w, blt k q -> ble q (without_trailing_slash p) -> recorded (dels_map d) q w -> False) ->
  is_deleted d p = Some (if decide (s = Opaque_) then ROpaque else RWhiteoutDir).
Proof.
  intros Hd Hr Hs Ha Hno. simpl. unfold os_is_deleted.
  pose proof (ancestor_blt _ _ Ha) as Hlt.
  rewrite (last_le_found _ _ k s); [|auto|done|by right|done].
  unfold deletion_of.
  assert (k <> without_trailing_slash p) by (intros E; rewrite E in Hlt; by eapply blt_irrefl).
  apply os_str_starts_with_spec in Ha.
  destruct s; [| |done]; by rewrite decide_False, Ha by done.
Qed.

Lemma is_deleted_below_witness : is_deleted example_dels [x61; x2f; x66] = Some ROpaque.
Proof.
  apply (is_deleted_below example_dels [x61] Opaque_ [x61; x2f; x66]).
  - unfold example_dels. do 3 constructor. constructor. constructor.
  - reflexivity.
  - done.
  - exists [x66]. reflexivity.
  - intros q w Hlt Hle Hq. apply bt_get_Some_In in Hq.
    change (dels_map example_dels) with [([x61], Opaque_); ([x71], Shadowed_); ([x78], Whiteout_)] in Hq.
    rewrite !elem_of_cons, elem_of_nil in Hq.
    destruct Hq as [[= -> ->]|[[= -> ->]|[[= -> ->]|[]]]];
      [by apply blt_irrefl in Hlt | destruct Hle as [?|Hle]; done
      | destruct Hle as [?|Hle]; done].
Defined.

(** The order in which a layer's whiteouts and opaque directories are met
    does not matter: with the queues permuted, every path ends in the same
    state. *)
Theorem end_of_layer_order d w o p :
  whiteout_q d ≡ₚ w -> opaque_q d ≡ₚ o ->
  bt_get p (dels_map (os_end_of_layer d)) =
    bt_get p (dels_map (os_end_of_layer {| dels_map := dels_map d; whiteout_q := w; opaque_q := o |})).
Proof.
  intros Hw Ho. simpl. rewrite !fold_insert_get.
  assert (forall (l l' : list bstr), l ≡ₚ l' -> forall A (a b : A),
    (if decide (p ∈ l) then a else b) = if decide (p ∈ l') then a else b) as Hd.
  { intros l l' Hl A a b. destruct (decide (p ∈ l)) as [Hi|Hi]; rewrite Hl in Hi;
      [by rewrite decide_True | by rewrite decide_False]. }
  by rewrite (Hd _ _ Hw), (Hd _ _ Ho).
Qed.

Lemma end_of_layer_order_witness :
  bt_get [x78] (dels_map (os_end_of_layer
    {| dels_map := []; whiteout_q := [[x78]; [x79]]; opaque_q := [[x78]] |})) =
  bt_get [x78] (dels_map (os_end_of_layer
    {| dels_map := []; whiteout_q := [[x79]; [x78]]; opaque_q := [[x78]] |})).
Proof.
  apply (end_of_layer_order
    {| dels_map := []; whiteout_q := [[x78]; [x79]]; opaque_q := [[x78]] |} [[x79]; [x78]] [[x78]] [x78]).
  - constructor.
  - reflexivity.
Defined.

(** Nothing is lost or invented: every entry of the layers is a whiteout
    marker, is handed to the callback, or is counted under exactly one deletion
    reason. *)
Theorem squash_counts layers out stats :
  squash_cb open_entries layers [] = Ok (out, stats) ->
  let all := concat (snd <$> layers) in
  zlen out + dropped stats + whiteouts all = zlen all.
Proof.
  unfold squash_cb. intros Hr. monad_inv Hr. destruct a as [[acc s] d]. simplify_eq/=.
  apply squash_layers_counts in Hr0. simpl in Hr0.
  rewrite (whiteouts_perm _ _ (enumerate_rev_concat layers)),
    (zlen_perm _ _ (enumerate_rev_concat layers)) in Hr0.
  unfold dropped in *. simpl in *. change (zlen (@nil Entry)) with 0 in Hr0. lia.
Qed.

Definition tar_entry (path : string) (t : EntryType) : Entry :=
  {| e_path := bytes_of_string path; e_type := t; e_link_name := None;
     e_uid := Ok 0; e_gid := Ok 0; e_mtime := Ok 0; e_mode := Ok 420; e_size := Ok 0;
     e_pax := Ok None; e_data := [] |}.

Definition example_layers : list (Compression * list Entry) :=
  [(CompressionNone, [tar_entry "a" Directory; tar_entry "a/f" Regular; tar_entry "b" Regular]);
   (Gzip, [tar_entry "a/.wh.f" Regular; tar_entry "b" Regular])].

Lemma squash_counts_witness :
  exists out stats, squash_cb open_entries example_layers [] = Ok (out, stats) /\
    zlen out + dropped stats + whiteouts (concat (snd <$> example_layers)) = 5.
Proof.
  eexists _, _. split; [vm_compute; reflexivity|].
  refine (squash_counts example_layers _ _ _). vm_compute. reflexivity.
Defined.

(** On the bottom layer the deletions are fixed, and the layer is filtered:
    the callback sees exactly the entries that are neither whiteout markers nor
    hidden by the upper layers, in the order of the layer, and the deletion map
    does not grow. *)
Theorem squash_bottom_layer acc stats d l acc' stats' d' :
  squash_layer O (acc, stats, d) (Ok <$> l) = Ok (acc', stats', d') ->
  acc' = acc ++ base.filter (kept d) l /\ d' = d.
Proof.
  unfold squash_layer. intros H. monad_inv H. destruct a as [[acc1 s1] d1].
  simplify_eq. by apply bottom_entries in H0.
Qed.

Lemma squash_bottom_layer_witness :
  exists out stats,
    squash_layer O ([], Stats_default, example_dels)
      (Ok <$> [tar_entry "x/f" Regular; tar_entry "y" Regular]) = Ok (out, stats, example_dels) /\
    out = [] ++ base.filter (kept example_dels) [tar_entry "x/f" Regular; tar_entry "y" Regular].
Proof.
  eexists _, _. split; [vm_compute; reflexivity|].
  refine (proj1 (squash_bottom_layer [] Stats_default example_dels _ _ _ example_dels _)).
  vm_compute. reflexivity.
Defined.

(** Markers are recognised: below any directory, [.wh.name] hides the
    sibling [name], and a name that starts with [.wh..wh..opq] makes the
    directory opaque. *)
Theorem whiteout_recognised e ns n :
  Forall plain_name ns -> plain_name n ->
  e_path e = path_of (ns ++ [wh_prefix ++ n]) ->
  whiteout e = Ok (Some (if starts_with (bytes_of_string ".wh..opq") n
                         then WhiteoutOpaque (path_of ns)
                         else WhiteoutFile (path_of (ns ++ [n])))).
Proof.
  intros Hns Hn Hp. unfold whiteout. rewrite Hp.
  assert (Forall plain_name (ns ++ [wh_prefix ++ n])) as Hf.
  { apply Forall_app. split; [done|]. constructor; [|done]. by apply wh_name_plain. }
  rewrite file_name_path_of by (done || by apply wh_name_not_dotdot).
  rewrite wh_opaque_name. destruct (starts_with _ n).
  - by rewrite parent_path_of.
  - rewrite (proj2 (strip_prefix_spec _ _ n) eq_refl).
    by rewrite with_file_name_path_of by (done || by apply wh_name_not_dotdot).
Qed.

Lemma whiteout_recognised_witness :
  whiteout (tar_entry "d/.wh.f" Regular) = Ok (Some (WhiteoutFile (bytes_of_string "d/f"))).
Proof.
  apply (whiteout_recognised (tar_entry "d/.wh.f" Regular) [bytes_of_string "d"] (bytes_of_string "f")).
  - constructor; [|constructor]. by apply (bool_decide_unpack _).
  - by apply (bool_decide_unpack _).
  - reflexivity.
Defined.

(** The single range query is not enough.  The upper layer makes [x] opaque
    and adds [x/g]; the lower layer's [x/h] lies below the opaque directory and
    is nevertheless handed to the callback, since the recorded [x/g] sorts
    between [x] and [x/h]. *)
Theorem opaque_missed :
  let upper := [tar_entry "x/.wh..wh..opq" Regular; tar_entry "x/g" Regular] in
  let lower := [tar_entry "x/h" Regular] in
  (exists d cb s, squash_layer 1 ([], Stats_default, DeletionsOsString_default) (Ok <$> upper)
                    = Ok (cb, s, d) /\
     hides (dels_map d) (bytes_of_string "x/h") ROpaque) /\
  exists stats, squash_cb open_entries [(CompressionNone, lower); (CompressionNone, upper)] [] =
    Ok ([tar_entry "x/g" Regular; tar_entry "x/h" Regular], stats).
Proof.
  split.
  - eexists _, _, _. split; [vm_compute; reflexivity|].
    exists (bytes_of_string "x"). split; [by exists (bytes_of_string "h")|reflexivity].
  - eexists. vm_compute. reflexivity.
Qed.

(** A directory entry with a trailing slash (the form [tar] gives
    directories) does not shadow the same directory of a lower layer: the path
    is recorded with the slash and looked up without it, so both entries reach
    the callback. *)
Theorem trailing_slash_not_shadowed :
  let dir := tar_entry "x/" Directory in
  exists stats, squash_cb open_entries [(CompressionNone, [dir]); (CompressionNone, [dir])] [] =
    Ok ([dir; dir], stats) /\ shadowed stats = 0.
Proof. eexists. split; vm_compute; reflexivity. Qed.
