(* ===== verification/SquashErofs.v ===== *)
(** Squashing layers into an erofs image (src/peimage/src/squash.rs).

    The callback [SquashToErofs] turns each entry that survives the squashing
    into an operation of the erofs builder, and [squash_to_erofs] finishes the
    image.  The file proves what a regular entry becomes, which entries are
    refused, and runs the whole pipeline, from layers to the finished image and
    back through the reader. *)
From stdpp Require Import option base list numbers strings.
From Stdlib Require Import ZArith Lia.
From S2P Require Import Prelude MemFile BTree Paths ErofsDisk ErofsBuild ErofsImage Squash.
#[local] Open Scope Z_scope.
#[local] Open Scope result_scope.

Section squash_to_erofs.
Context `{RustixFileType}.
(** [rustix::fs::Mode::from_raw_mode]: the permission bits of a raw mode. *)
Context (mode_from_raw : Z -> Z).

(** The pax extensions become the xattr map; the first unreadable one fails. *)
Fixpoint collect_pax (extensions : list (result Error (bstr * bstr))) (xattrs : XattrMap)
    : result Error XattrMap :=
  match extensions with
  | [] => Ok xattrs
  | extension :: extensions =>
      let? '(key, value) := extension in
      collect_pax extensions (bt_insert key value xattrs)
  end.

Definition header_to_meta (entry : Entry) (xattrs : XattrMap) : result Error Meta :=
  let? uid := e_uid entry in
  let? uid := ok_or (try_into 32 uid) UidTooBig in
  let? gid := e_gid entry in
  let? gid := ok_or (try_into 32 gid) GidTooBig in
  let? mtime := e_mtime entry in
  let? mode := e_mode entry in
  Ok {| m_uid := uid; m_gid := gid; m_mtime := mtime; m_mode := mode_from_raw mode;
        m_xattrs := xattrs |}.

Definition erofs_on_entry (builder : Builder) (entry : Entry) : result Error Builder :=
  let? extensions := e_pax entry in
  let? xattrs := match extensions with
                 | Some extensions => collect_pax extensions []
                 | None => Ok []
                 end in
  let? meta := header_to_meta entry xattrs in
  match e_type entry with
  | Regular =>
      let? size := e_size entry in
      map_err Erofs (add_file (e_path entry) meta size (e_data entry) builder)
  | Directory => map_err Erofs (upsert_dir (e_path entry) meta builder)
  | Squash.Symlink =>
      let? link := ok_or (e_link_name entry) HardlinkNoLink in
      map_err Erofs (add_symlink (e_path entry) link meta builder)
  | Link =>
      let? link := ok_or (e_link_name entry) HardlinkNoLink in
      Ok (add_link (e_path entry) link meta builder)
  | t => Err (UnhandledEntryType t)
  end.

#[export] Instance SquashToErofs : EntryCallback Builder := {| on_entry := erofs_on_entry |}.

Definition squash_to_erofs {R}
    (open_layer : Compression -> R -> result Error (list (result Error Entry)))
    (layer_readers : list (Compression * R)) (builder : Builder)
    : result Error (Squash.Stats * (ErofsBuild.Stats * list byte)) :=
  let? '(builder, squash_stats) := squash_cb open_layer layer_readers builder in
  let? out := map_err Erofs (into_inner builder) in
  Ok (squash_stats, out).
End squash_to_erofs.

(** * Lemmas *)

Lemma map_err_Ok {E F A} (f : E -> F) (c : result E A) a : map_err f c = Ok a -> c = Ok a.
Proof. by destruct c; intros [=->]. Qed.

(** * Properties *)

(** The permission bits of a mode. *)
Definition permission_bits (m : Z) : Z := Z.land m 0xFFF.

(** A regular entry whose header states the size of its data ends up in the
    image's tree under its path, completely stored, with owner and permissions
    of its header; the rest of the tree is unchanged. *)
Theorem regular_entry_stored mode_from_raw path entry b b' root :
  path <> [] -> Forall normal_name path -> data_cursor b -> b_cur_data_block b < EROFS_NULL_ADDR ->
  b_root b = Some root -> b_increment_uid_gid b = None ->
  e_type entry = Regular -> e_path entry = path_of path ->
  e_size entry = Ok (zlen (e_data entry)) -> zlen (e_data entry) < 2 ^ 40 ->
  erofs_on_entry mode_from_raw b entry = Ok b' ->
  exists root' f, b_root b' = Some root' /\ tree_get path root' = Some (File f) /\
    stored (o_bytes (b_writer b')) f (e_data entry) /\
    e_uid entry = Ok (m_uid (l_meta f)) /\ e_gid entry = Ok (m_gid (l_meta f)) /\
    (forall m, e_mode entry = Ok m -> m_mode (l_meta f) = mode_from_raw m) /\
    forall ns, Forall normal_name ns -> ~ path `prefix_of` ns -> ~ ns `prefix_of` path ->
      tree_get ns root' = tree_get ns root.
Proof.
  intros Hne Hn Hcur Hmax Hroot Hinc Ht Hp Hs Hlen. unfold erofs_on_entry. intros Hr. monad_simp.
  rewrite Ht, Hs in Hr. cbn [rbind] in Hr. rewrite Hp in Hr. apply map_err_Ok in Hr.
  unfold header_to_meta in Hm1. monad_simp. rewrite Hm2, Hm4.
  apply try_into_Some in Hm3 as [-> _]. apply try_into_Some in Hm5 as [-> _].
  destruct (add_file_spec path a1 (e_data entry) b b' root) as
    (root' & f & H1 & H2 & H3 & H4 & _ & _ & H7); [done..|].
  unfold hook_meta in H3. rewrite Hinc in H3. injection H3 as H3.
  exists root', f. rewrite <-H3. subst a1. simpl. split; [done|]. split; [done|]. split; [done|].
  split; [done|]. split; [done|]. split; [|done]. intros m Hmm. rewrite Hm7 in Hmm. by injection Hmm as ->.
Qed.

Definition example_entry : Entry :=
  {| e_path := bytes_of_string "f"; e_type := Regular; e_link_name := None; e_uid := Ok 7;
     e_gid := Ok 8; e_mtime := Ok 0; e_mode := Ok 0x81A4; e_size := Ok 2; e_pax := Ok None;
     e_data := [x61; x62] |}.
Definition example_after : Builder :=
  match erofs_on_entry permission_bits (start_builder None None) example_entry with
  | Ok b => b
  | _ => start_builder None None
  end.

Lemma regular_entry_stored_witness :
  exists root' f, b_root example_after = Some root' /\ tree_get [[x66]] root' = Some (File f) /\
    stored (o_bytes (b_writer example_after)) f [x61; x62] /\ m_uid (l_meta f) = 7.
Proof.
  destruct (regular_entry_stored permission_bits [[x66]] example_entry (start_builder None None)
    example_after Dir_default) as (root' & f & H1 & H2 & H3 & H4 & _).
  - done.
  - repeat constructor; apply normal_name_b; reflexivity.
  - vm_compute. intuition congruence.
  - vm_compute. reflexivity.
  - reflexivity.
  - reflexivity.
  - reflexivity.
  - reflexivity.
  - reflexivity.
  - vm_compute. reflexivity.
  - vm_compute. reflexivity.
  - exists root', f. split; [exact H1|]. split; [exact H2|]. split; [exact H3|].
    injection H4 as H4. by rewrite <-H4.
Defined.

(** Entries the image cannot represent are refused before the builder
    changes: an owner that does not fit 32 bits, a link without a target, and
    every entry type other than file, directory, symlink and hard link. *)
Theorem bad_entries_refused mode_from_raw b entry uid gid mtime mode :
  e_pax entry = Ok None -> e_uid entry = Ok uid -> e_gid entry = Ok gid ->
  e_mtime entry = Ok mtime -> e_mode entry = Ok mode -> 0 <= uid -> 0 <= gid ->
  erofs_on_entry mode_from_raw b entry =
    if u32_max <? uid then Err UidTooBig
    else if u32_max <? gid then Err GidTooBig
    else
      let meta := {| m_uid := uid; m_gid := gid; m_mtime := mtime; m_mode := mode_from_raw mode;
                     m_xattrs := [] |} in
      match e_type entry, e_link_name entry with
      | Regular, _ => let? size := e_size entry in
                      map_err Erofs (add_file (e_path entry) meta size (e_data entry) b)
      | Directory, _ => map_err Erofs (upsert_dir (e_path entry) meta b)
      | Squash.Symlink, Some link => map_err Erofs (add_symlink (e_path entry) link meta b)
      | Link, Some link => Ok (add_link (e_path entry) link meta b)
      | Squash.Symlink, None | Link, None => Err HardlinkNoLink
      | OtherEntry c, _ => Err (UnhandledEntryType (OtherEntry c))
      end.
Proof.
  intros Hp Hu Hg Hmt Hmo Hu0 Hg0. unfold erofs_on_entry. rewrite Hp. cbn [rbind].
  unfold header_to_meta. rewrite Hu, Hg, Hmt, Hmo. cbn [rbind]. unfold u32_max, try_into.
  rewrite (proj2 (Z.leb_le 0 uid)), (proj2 (Z.leb_le 0 gid)) by done. cbn [andb].
  change (2 ^ 32) with (4294967295 + 1).
  destruct (Z.ltb_spec 4294967295 uid), (Z.ltb_spec uid (4294967295 + 1)); try lia; [done|].
  destruct (Z.ltb_spec 4294967295 gid), (Z.ltb_spec gid (4294967295 + 1)); try lia; [done|].
  cbn [ok_or rbind]. by destruct (e_type entry), (e_link_name entry).
Qed.

Lemma bad_entries_refused_witness :
  erofs_on_entry permission_bits (start_builder None None)
    {| e_path := [x66]; e_type := OtherEntry 3; e_link_name := None; e_uid := Ok 0; e_gid := Ok 0;
       e_mtime := Ok 0; e_mode := Ok 0; e_size := Ok 0; e_pax := Ok None; e_data := [] |} =
    Err (UnhandledEntryType (OtherEntry 3)).
Proof.
  rewrite (bad_entries_refused permission_bits _ _ 0 0 0 0); done.
Defined.

(** Two layers: the upper one removes a file, replaces another and adds a
    symlink. *)
Definition file_entry (path data : string) : Entry :=
  {| e_path := bytes_of_string path; e_type := Regular; e_link_name := None; e_uid := Ok 0;
     e_gid := Ok 0; e_mtime := Ok 0; e_mode := Ok 0x81A4;
     e_size := Ok (zlen (bytes_of_string data)); e_pax := Ok None; e_data := bytes_of_string data |}.
Definition symlink_entry (path link : string) : Entry :=
  {| e_path := bytes_of_string path; e_type := Squash.Symlink;
     e_link_name := Some (bytes_of_string link); e_uid := Ok 0; e_gid := Ok 0; e_mtime := Ok 0;
     e_mode := Ok 0xA1FF; e_size := Ok 0; e_pax := Ok None; e_data := [] |}.
Definition two_layers : list (Compression * list Entry) :=
  [(CompressionNone, [tar_entry "etc" Directory; file_entry "etc/a" "old"; file_entry "etc/gone" "x"]);
   (Gzip, [file_entry "etc/.wh.gone" ""; file_entry "etc/a" "new"; symlink_entry "l" "etc/a"])].

(** The pipeline from layers to a mountable image on a concrete input: the
    finished image holds the upper layer's version of a replaced file, no trace
    of the file a whiteout removed, the directory of the lower layer and the
    symlink, and the statistics count one whiteout deletion and one shadowed
    entry. *)
Theorem squash_to_erofs_example :
  exists stats estats bytes e,
    squash_to_erofs permission_bits open_entries two_layers (start_builder None None) =
      Ok (stats, (estats, bytes)) /\
    deletions stats = 1 /\ shadowed stats = 1 /\ Erofs_new bytes = Ok e /\
    read_file e "etc/a" = Some (bytes_of_string "new") /\
    read_file e "l" = Some (bytes_of_string "etc/a") /\
    lookup e (bytes_of_string "etc/gone") = Ok None.
Proof.
  eexists _, _, _, _. split; [vm_compute; reflexivity|].
  repeat (split; [vm_compute; reflexivity|]). vm_compute. reflexivity.
Qed.
