(* ===== verification/SquashTar.v ===== *)
(** Squashing to a tar archive, and the two deletion maps behind their trait
    (src/peimage/src/squash.rs).

    [DeletionsPathBuf] is the second implementation of the trait [Deletions]: its
    map is ordered by the components of the paths.  The file states the contract
    that [squash_layer] needs of a deletion map, shows that both implementations
    keep it, and proves from the contract alone that upper layers emit a path
    once.  [SquashToTar] is the callback that writes a tar archive; the archive
    builder of the tar crate is an interface. *)
From stdpp Require Import base list gmap numbers strings sorting.
From Stdlib Require Import ZArith Lia.
From S2P Require Import Prelude BTree Paths ErofsBuild Squash.
#[local] Open Scope Z_scope.
#[local] Open Scope result_scope.

(** * The order of paths *)

(** [Ord] of [Component]: by variant, then by name. *)
Definition variant (c : Component) : Z :=
  match c with RootDir => 1 | CurDir => 2 | ParentDir => 3 | Normal _ => 4 end.
Definition component_cmp (a b : Component) : comparison :=
  match a, b with
  | Normal x, Normal y => bcompare x y
  | _, _ => variant a ?= variant b
  end.

(** [Ord] of [Path]: lexicographic in the components. *)
Fixpoint path_cmp (a b : list Component) : comparison :=
  match a, b with
  | [], [] => Eq
  | [], _ :: _ => Lt
  | _ :: _, [] => Gt
  | x :: a, y :: b => match component_cmp x y with Eq => path_cmp a b | c => c end
  end.

Lemma component_cmp_eq a b : component_cmp a b = Eq <-> a = b.
Proof.
  destruct a, b; simpl; try (split; [discriminate|discriminate]); try (split; done).
  split; [by intros ->%bcompare_eq|]. intros [= ->]. apply bcompare_refl.
Qed.

Lemma component_cmp_antisym a b : component_cmp b a = CompOpp (component_cmp a b).
Proof. destruct a, b; simpl; try done. apply bcompare_antisym. Qed.

Lemma component_cmp_trans a b c : component_cmp a b = Lt -> component_cmp b c = Lt -> component_cmp a c = Lt.
Proof. destruct a, b, c; simpl; try done. apply blt_trans. Qed.

Lemma path_cmp_eq a b : path_cmp a b = Eq <-> a = b.
Proof.
  revert b. induction a as [|x a IH]; intros [|y b]; simpl; try done.
  destruct (component_cmp x y) eqn:E; [|split; [done|]; intros [= -> ->]..].
  - apply component_cmp_eq in E as ->. rewrite IH. split; [by intros ->|by intros [= ->]].
  - by rewrite (proj2 (component_cmp_eq y y) eq_refl) in E.
  - by rewrite (proj2 (component_cmp_eq y y) eq_refl) in E.
Qed.

Lemma path_cmp_antisym a b : path_cmp b a = CompOpp (path_cmp a b).
Proof.
  revert b. induction a as [|x a IH]; intros [|y b]; simpl; try done.
  rewrite (component_cmp_antisym x y). by destruct (component_cmp x y); simpl.
Qed.

Lemma path_cmp_trans a b c : path_cmp a b = Lt -> path_cmp b c = Lt -> path_cmp a c = Lt.
Proof.
  revert b c. induction a as [|x a IH]; intros [|y b] [|z c]; simpl; try done.
  destruct (component_cmp x y) eqn:E1, (component_cmp y z) eqn:E2; try done;
    rewrite ?component_cmp_eq in *; subst.
  - rewrite (proj2 (component_cmp_eq z z) eq_refl). apply IH.
  - by rewrite E2.
  - by rewrite E1.
  - by rewrite (component_cmp_trans _ _ _ E1 E2).
Qed.

(** * Maps ordered by path *)

Section pmap.
Context {V : Type}.
Implicit Types (m : list (list Component * V)) (k p : list Component) (v : V).

Fixpoint pm_get k m : option V :=
  match m with
  | [] => None
  | (k', v) :: m => if decide (k = k') then Some v else pm_get k m
  end.

Fixpoint pm_insert k v m : list (list Component * V) :=
  match m with
  | [] => [(k, v)]
  | (k', v') :: m' =>
      match path_cmp k k' with
      | Lt => (k, v) :: m
      | Eq => (k', v) :: m'
      | Gt => (k', v') :: pm_insert k v m'
      end
  end.

(** [range((Unbounded, Included(p))).next_back()] *)
Fixpoint pm_last_le p m : option (list Component * V) :=
  match m with
  | [] => None
  | (k, v) :: m =>
      match path_cmp k p with
      | Gt => None
      | _ => match pm_last_le p m with Some r => Some r | None => Some (k, v) end
      end
  end.

Inductive pm_sorted : list (list Component * V) -> Prop :=
  | pm_sorted_nil : pm_sorted []
  | pm_sorted_cons k v m :
      Forall (fun kv => path_cmp k kv.1 = Lt) m -> pm_sorted m -> pm_sorted ((k, v) :: m).

Lemma pm_insert_get k v m q : pm_get q (pm_insert k v m) = if decide (q = k) then Some v else pm_get q m.
Proof.
  induction m as [|[k' v'] m IH]; simpl; [done|].
  destruct (path_cmp k k') eqn:E; simpl.
  - apply path_cmp_eq in E as ->. by repeat case_decide.
  - done.
  - rewrite IH. repeat case_decide; subst; try done.
    by rewrite (proj2 (path_cmp_eq k' k') eq_refl) in E.
Qed.

Lemma pm_insert_Forall (P : list Component * V -> Prop) k v m :
  P (k, v) -> Forall P m -> Forall P (pm_insert k v m).
Proof.
  intros Hk. induction 1 as [|[q w] m Hq Hm IH]; simpl; [by repeat constructor|].
  destruct (path_cmp k q) eqn:E; [|by repeat constructor..].
  apply path_cmp_eq in E as ->. by constructor.
Qed.

Lemma pm_insert_sorted k v m : pm_sorted m -> pm_sorted (pm_insert k v m).
Proof.
  induction 1 as [|q w m Hq Hm IH]; simpl; [by repeat constructor|].
  destruct (path_cmp k q) eqn:E.
  - apply path_cmp_eq in E as ->. by constructor.
  - constructor; [|by constructor]. constructor; [done|].
    eapply Forall_impl; [exact Hq|]. intros kv Hkv. by eapply path_cmp_trans.
  - constructor; [|done]. apply pm_insert_Forall; [|done]. simpl. by rewrite path_cmp_antisym, E.
Qed.

Lemma pm_get_In k v m : pm_get k m = Some v -> (k, v) ∈ m.
Proof.
  induction m as [|[k' v'] m IH]; simpl; [done|].
  case_decide; [intros [= ->]; subst; by left|intros; right; auto].
Qed.

(** A key of the map is the answer for itself. *)
Lemma pm_last_le_exact p v m : pm_sorted m -> pm_get p m = Some v -> pm_last_le p m = Some (p, v).
Proof.
  induction 1 as [|q w m Hq Hm IH]; simpl; [done|]. case_decide as Hd.
  - subst q. intros [= ->]. rewrite (proj2 (path_cmp_eq p p) eq_refl).
    destruct m as [|[q' w'] m]; [done|]. apply Forall_cons in Hq as [Hq _]. simpl in *.
    by rewrite path_cmp_antisym, Hq.
  - intros Hg. rewrite IH by done. rewrite Forall_forall in Hq. apply pm_get_In, Hq in Hg. simpl in Hg.
    by rewrite Hg.
Qed.

Lemma pm_last_le_get p k v m : pm_sorted m -> pm_last_le p m = Some (k, v) -> pm_get k m = Some v.
Proof.
  induction 1 as [|q w m Hq Hm IH]; simpl; [done|].
  destruct (path_cmp q p); [| |done];
    (destruct (pm_last_le p m) as [[k' v']|] eqn:El;
      [intros [= -> ->]|intros [= -> ->]; by rewrite decide_True]);
    (rewrite decide_False; [by apply IH|]); intros ->;
    (assert (pm_get q m = Some v) as Hg%pm_get_In by (by apply IH));
    (rewrite Forall_forall in Hq; apply Hq in Hg; simpl in Hg);
    by rewrite (proj2 (path_cmp_eq q q) eq_refl) in Hg.
Qed.
End pmap.

(** * The second deletion map *)

Record DeletionsPathBuf := {
  pb_map : list (list Component * DeletionState); pb_whiteout_q : list bstr; pb_opaque_q : list bstr;
}.
Definition DeletionsPathBuf_default : DeletionsPathBuf :=
  {| pb_map := []; pb_whiteout_q := []; pb_opaque_q := [] |}.

Definition pb_insert_state (m : list (list Component * DeletionState)) (path : bstr) (reason : DeletionState) :=
  match pm_get (components path) m with
  | Some state => pm_insert (components path) (merge_state state reason) m
  | None => pm_insert (components path) reason m
  end.
Definition pb_insert (d : DeletionsPathBuf) (path : bstr) (reason : DeletionState) : DeletionsPathBuf :=
  {| pb_map := pb_insert_state (pb_map d) path reason;
     pb_whiteout_q := pb_whiteout_q d; pb_opaque_q := pb_opaque_q d |}.

Definition pb_push_whiteout (d : DeletionsPathBuf) (p : bstr) : DeletionsPathBuf :=
  {| pb_map := pb_map d; pb_whiteout_q := pb_whiteout_q d ++ [p]; pb_opaque_q := pb_opaque_q d |}.
Definition pb_push_opaque (d : DeletionsPathBuf) (p : bstr) : DeletionsPathBuf :=
  {| pb_map := pb_map d; pb_whiteout_q := pb_whiteout_q d; pb_opaque_q := pb_opaque_q d ++ [p] |}.
Definition pb_insert_seen (d : DeletionsPathBuf) (p : bstr) : DeletionsPathBuf := pb_insert d p Shadowed_.

Definition pb_deletion_of (p key : list Component) (state : DeletionState) : option DeletionReason :=
  match state with
  | Shadowed_ => if decide (key = p) then Some RShadowed else None
  | Whiteout_ =>
      if decide (key = p) then Some RWhiteout
      else if path_starts_with p key then Some RWhiteoutDir else None
  | Opaque_ =>
      if decide (key = p) then None
      else if path_starts_with p key then Some ROpaque else None
  end.

Definition pb_is_deleted (d : DeletionsPathBuf) (p : bstr) : option DeletionReason :=
  match pm_last_le (components p) (pb_map d) with
  | Some (key, state) => pb_deletion_of (components p) key state
  | None => None
  end.

Definition pb_end_of_layer (d : DeletionsPathBuf) : DeletionsPathBuf :=
  let m := fold_left (fun m x => pb_insert_state m x Whiteout_) (pb_whiteout_q d) (pb_map d) in
  let m := fold_left (fun m x => pb_insert_state m x Opaque_) (pb_opaque_q d) m in
  {| pb_map := m; pb_whiteout_q := []; pb_opaque_q := [] |}.

#[export] Instance Deletions_PathBuf : Deletions DeletionsPathBuf := {
  push_whiteout := pb_push_whiteout;
  push_opaque := pb_push_opaque;
  is_deleted := pb_is_deleted;
  insert_seen := pb_insert_seen;
  end_of_layer := pb_end_of_layer;
}.

(** * Squashing to a tar archive *)

(** The archive builder of the tar crate. *)
Class ArchiveBuilder (A : Type) := {
  append_pax_extensions : A -> list (bstr * bstr) -> result Error A;
  append_link : A -> Entry -> bstr -> bstr -> result Error A;
  append_data : A -> Entry -> bstr -> bstr -> result Error A;
  finish_archive : A -> result Error A;
}.

Section tar.
Context {A : Type} `{ArchiveBuilder A}.

Fixpoint collect_pax (l : list (result Error (bstr * bstr))) : result Error (list (bstr * bstr)) :=
  match l with
  | [] => Ok []
  | x :: l => let? kv := x in let? acc := collect_pax l in Ok (kv :: acc)
  end.

(** The header is the one of the entry, which is passed whole. *)
Definition tar_on_entry (archive : A) (entry : Entry) : result Error A :=
  let? pax := e_pax entry in
  let? archive := (match pax with
                   | Some extensions =>
                       let? acc := collect_pax extensions in append_pax_extensions archive acc
                   | None => Ok archive
                   end) in
  match e_type entry with
  | Link | Symlink =>
      let? link := ok_or (e_link_name entry) HardlinkNoLink in
      append_link archive entry (e_path entry) link
  | _ => append_data archive entry (e_path entry) (e_data entry)
  end.

#[export] Instance SquashToTar : EntryCallback A := {| on_entry := tar_on_entry |}.

Definition squash_to_tar {R} (open_layer : Compression -> R -> result Error (list (result Error Entry)))
    (layer_readers : list (Compression * R)) (out : A) : result Error (A * Stats) :=
  let? '(archive, stats) := squash_cb open_layer layer_readers out in
  let? archive := finish_archive archive in
  Ok (archive, stats).
End tar.

(** * The contract of a deletion map *)

(** The path itself is hidden, not one of its ancestors. *)
Definition hidden {D} `{Deletions D} (d : D) (p : bstr) : Prop :=
  is_deleted d p = Some RWhiteout \/ is_deleted d p = Some RShadowed.

(** A path that was seen or whited out stays hidden, and a whiteout has an
    effect at the end of its layer only.  [del_clean] are the paths for which an
    implementation promises this. *)
Class DeletionsLaws (D : Type) `{Deletions D} := {
  del_ok : D -> Prop;
  del_clean : bstr -> Prop;
  ok_push_whiteout d p : del_ok d -> del_ok (push_whiteout d p);
  ok_push_opaque d p : del_ok d -> del_ok (push_opaque d p);
  ok_insert_seen d p : del_ok d -> del_ok (insert_seen d p);
  ok_end_of_layer d : del_ok d -> del_ok (end_of_layer d);
  push_silent d p q : del_ok d ->
    is_deleted (push_whiteout d p) q = is_deleted d q /\ is_deleted (push_opaque d p) q = is_deleted d q;
  hidden_seen d p : del_ok d -> del_clean p -> hidden (insert_seen d p) p;
  hidden_whiteout d p : del_ok d -> del_clean p -> is_deleted (end_of_layer (push_whiteout d p)) p = Some RWhiteout;
  hidden_insert d p q : del_ok d -> hidden d p -> hidden (insert_seen d q) p;
  hidden_end_of_layer d p : del_ok d -> hidden d p -> hidden (end_of_layer d) p;
}.

(** ** The first implementation *)

Definition exactly_hidden (o : option DeletionState) : Prop := o = Some Whiteout_ \/ o = Some Shadowed_.

Lemma exactly_hidden_merge old new :
  exactly_hidden old -> exactly_hidden (Some match old with Some o => merge_state o new | None => new end).
Proof. intros [-> | ->]; destruct new; by (left + right). Qed.

Lemma os_hidden (d : DeletionsOsString) p :
  reachable d -> hidden d p <-> exactly_hidden (bt_get (without_trailing_slash p) (dels_map d)).
Proof.
  intros Hd. unfold hidden, exactly_hidden. simpl. unfold os_is_deleted. split.
  - destruct (bt_last_le _ _) as [[k s]|] eqn:E; [|by intros [[=]|[=]]].
    apply bt_last_le_Some in E as (Hk & _); [|by apply reachable_sorted].
    unfold deletion_of. destruct s; repeat case_decide; subst;
      try (destruct (os_str_starts_with _ _)); intros [[=]|[=]]; by (left + right).
  - intros Hg. assert (forall s, bt_get (without_trailing_slash p) (dels_map d) = Some s ->
      bt_last_le (without_trailing_slash p) (dels_map d) = Some (without_trailing_slash p, s)) as Hl.
    { intros s Hs. apply last_le_found; [by apply reachable_sorted|done|by left|].
      intros q w Hlt [->|Hlt'] _; [by eapply blt_irrefl | by eapply blt_asym]. }
    destruct Hg as [Hg|Hg]; rewrite (Hl _ Hg); simpl; rewrite decide_True by done; by (left + right).
Qed.

#[export] Instance OsString_laws : DeletionsLaws DeletionsOsString.
Proof.
  refine {| del_ok := reachable; del_clean p := without_trailing_slash p = p |}.
  - by constructor.
  - by constructor.
  - by constructor.
  - by constructor.
  - by intros.
  - intros d p Hd Hp. apply os_hidden; [by constructor|]. rewrite Hp. simpl.
    rewrite insert_state_get, decide_True by done.
    destruct (bt_get p (dels_map d)) as [[]|]; by (left + right).
  - intros d p Hd Hp. simpl. unfold os_is_deleted. rewrite Hp.
    assert (bt_get p (dels_map (os_end_of_layer (os_push_whiteout d p))) = Some Whiteout_) as Hg.
    { simpl. rewrite Hp, !fold_insert_get. rewrite (decide_True (P := p ∈ whiteout_q d ++ [p]))
        by (apply elem_of_app; right; left).
      case_decide; destruct (bt_get p (dels_map d)) as [[]|]; done. }
    rewrite (last_le_found _ _ p Whiteout_); [simpl; by rewrite decide_True| |done|by left|].
    + apply reachable_sorted. exact (reachable_end_of_layer _ (reachable_push_whiteout d p Hd)).
    + intros q w Hlt [->|Hlt'] _; [by eapply blt_irrefl | by eapply blt_asym].
  - intros d p q Hd. rewrite !os_hidden by (by try constructor). simpl. rewrite insert_state_get.
    case_decide as Hq; [|done]. rewrite Hq. apply exactly_hidden_merge.
  - intros d p Hd. rewrite !os_hidden by (by try constructor). simpl. rewrite !fold_insert_get.
    intros [Hh|Hh]; rewrite Hh; repeat case_decide; by (left + right).
Defined.

(** ** The second implementation *)

Definition pb_ok (d : DeletionsPathBuf) : Prop := pm_sorted (pb_map d).

Lemma pb_insert_state_sorted m p s : pm_sorted m -> pm_sorted (pb_insert_state m p s).
Proof. intros. unfold pb_insert_state. case_match; by apply pm_insert_sorted. Qed.

Lemma pb_fold_sorted s q m : pm_sorted m -> pm_sorted (fold_left (fun m x => pb_insert_state m x s) q m).
Proof.
  revert m. induction q as [|x q IH]; intros m Hm; simpl; [done|]. by apply IH, pb_insert_state_sorted.
Qed.

Lemma pb_insert_state_get m p s k :
  pm_get k (pb_insert_state m p s) =
    if decide (k = components p)
    then Some match pm_get k m with Some old => merge_state old s | None => s end else pm_get k m.
Proof.
  unfold pb_insert_state. case_decide as Hk; [subst k|]; case_match; rewrite pm_insert_get.
  1,2: by rewrite decide_True. all: by rewrite decide_False.
Qed.

Lemma pb_hidden d p : pb_ok d -> hidden d p <-> exactly_hidden (pm_get (components p) (pb_map d)).
Proof.
  intros Hd. unfold hidden, exactly_hidden. simpl. unfold pb_is_deleted. split.
  - destruct (pm_last_le _ _) as [[k s]|] eqn:E; [|by intros [[=]|[=]]].
    apply pm_last_le_get in E; [|done].
    unfold pb_deletion_of. destruct s; repeat case_decide; subst;
      try (destruct (path_starts_with _ _)); intros [[=]|[=]]; by (left + right).
  - intros [Hg|Hg]; rewrite (pm_last_le_exact _ _ _ Hd Hg); simpl; rewrite decide_True by done; by (left + right).
Qed.

Lemma pb_fold_hidden s q m k :
  exactly_hidden (pm_get k m) -> exactly_hidden (pm_get k (fold_left (fun m x => pb_insert_state m x s) q m)).
Proof.
  revert m. induction q as [|x q IH]; intros m Hm; simpl; [done|]. apply IH. rewrite pb_insert_state_get.
  case_decide; [|done]. by apply exactly_hidden_merge.
Qed.

Lemma pb_fold_whiteout s q m k :
  pm_get k m = Some Whiteout_ -> pm_get k (fold_left (fun m x => pb_insert_state m x s) q m) = Some Whiteout_.
Proof.
  revert m. induction q as [|x q IH]; intros m Hm; simpl; [done|]. apply IH. rewrite pb_insert_state_get, Hm.
  case_decide; [|done]. by destruct s.
Qed.

#[export] Instance PathBuf_laws : DeletionsLaws DeletionsPathBuf.
Proof.
  refine {| del_ok := pb_ok; del_clean _ := True |}.
  - done.
  - done.
  - intros. by apply pb_insert_state_sorted.
  - intros. by apply pb_fold_sorted, pb_fold_sorted.
  - done.
  - intros d p Hd _. apply pb_hidden; [by apply pb_insert_state_sorted|]. simpl.
    rewrite pb_insert_state_get, decide_True by done. destruct (pm_get _ (pb_map d)) as [[]|]; by (left + right).
  - intros d p Hd _. simpl. unfold pb_is_deleted.
    assert (pm_get (components p) (pb_map (pb_end_of_layer (pb_push_whiteout d p))) = Some Whiteout_) as Hg.
    { simpl. apply pb_fold_whiteout. rewrite fold_left_app. simpl. rewrite pb_insert_state_get, decide_True by done.
      by destruct (pm_get _ _) as [[]|]. }
    rewrite (pm_last_le_exact _ Whiteout_); [simpl; by rewrite decide_True| |done].
    by apply pb_fold_sorted, pb_fold_sorted.
  - intros d p q Hd. rewrite !pb_hidden by (try apply pb_insert_state_sorted; done). simpl.
    rewrite pb_insert_state_get. case_decide; [|done]. apply exactly_hidden_merge.
  - intros d p Hd. rewrite !pb_hidden by (try apply pb_fold_sorted, pb_fold_sorted; done). simpl.
    intros. by apply pb_fold_hidden, pb_fold_hidden.
Defined.

(** * What upper layers emit, from the contract *)

Section emitted.
Context {D : Type} `{DeletionsLaws D}.

Lemma hidden_not_None (d : D) p : is_deleted d p = None -> ~ hidden d p.
Proof. intros E [Hh|Hh]; congruence. Qed.

Lemma hidden_push_whiteout (d : D) p q : del_ok d -> hidden d p -> hidden (push_whiteout d q) p.
Proof. unfold hidden. intros Hd. by rewrite (proj1 (push_silent d q p Hd)). Qed.
Lemma hidden_push_opaque (d : D) p q : del_ok d -> hidden d p -> hidden (push_opaque d q) p.
Proof. unfold hidden. intros Hd. by rewrite (proj2 (push_silent d q p Hd)). Qed.

(** What a part of the run did to the emitted entries and to the map. *)
Record emits (acc acc' : list Entry) (d d' : D) (l : list Entry) : Prop := {
  emits_ok : del_ok d';
  emits_hidden p : hidden d p -> hidden d' p;
  emits_new : exists new, acc' = acc ++ new /\ (forall e, e ∈ new -> e ∈ l) /\
    (Forall (fun e => del_clean (e_path e)) l ->
       NoDup (e_path <$> new) /\ Forall (fun e => ~ hidden d (e_path e) /\ hidden d' (e_path e)) new);
}.

Lemma emits_nothing acc (d d' : D) l :
  del_ok d' -> (forall p, hidden d p -> hidden d' p) -> emits acc acc d d' l.
Proof.
  intros Hok Hh. split; [done..|]. exists []. rewrite app_nil_r. split_and!; [done|by intros e ?%elem_of_nil|].
  intros _. split; constructor.
Qed.

Lemma emits_trans acc1 acc2 acc3 (d1 d2 d3 : D) l1 l2 :
  emits acc1 acc2 d1 d2 l1 -> emits acc2 acc3 d2 d3 l2 -> emits acc1 acc3 d1 d3 (l1 ++ l2).
Proof.
  intros [_ Hh1 (n1 & -> & Hin1 & Hn1)] [Hok Hh2 (n2 & -> & Hin2 & Hn2)]. split; [done|by auto|].
  exists (n1 ++ n2). rewrite app_assoc. split_and!; [done| |].
  - intros e [He|He]%elem_of_app; apply elem_of_app; auto.
  - intros [Hc1 Hc2]%Forall_app. destruct (Hn1 Hc1) as [Hd1 Hf1], (Hn2 Hc2) as [Hd2 Hf2].
    rewrite Forall_forall in Hf1, Hf2. split.
    + rewrite fmap_app. apply NoDup_app. split_and!; [done| |done].
      intros p (e1 & -> & He1)%list_elem_of_fmap (e2 & Heq & He2)%list_elem_of_fmap.
      destruct (Hf1 e1 He1) as [_ Hx], (Hf2 e2 He2) as [Hy _]. by rewrite <-Heq in Hy.
    + apply Forall_forall. intros e [He|He]%elem_of_app.
      * destruct (Hf1 e He). auto.
      * destruct (Hf2 e He). auto.
Qed.

Lemma squash_entry_emits i acc stats (d : D) e acc' stats' d' :
  i <> O -> del_ok d -> squash_entry i (acc, stats, d) e = Ok (acc', stats', d') -> emits acc acc' d d' [e].
Proof.
  intros Hi Hd. unfold squash_entry. intros E. monad_inv E.
  destruct a as [[path|path]|].
  - rewrite decide_False in E1 by done. injection E1 as <- _ <-. apply emits_nothing; [by apply ok_push_whiteout|by intros; apply hidden_push_whiteout].
  - rewrite decide_False in E1 by done. injection E1 as <- _ <-. apply emits_nothing; [by apply ok_push_opaque|by intros; apply hidden_push_opaque].
  - destruct (is_deleted d (e_path e)) as [r|] eqn:Er; [injection E1 as <- _ <-; by apply emits_nothing|].
    simpl in E1. rewrite decide_False in E1 by done. injection E1 as <- _ <-.
    split; [by apply ok_insert_seen|by intros; apply hidden_insert|]. exists [e]. split_and!; [done..|].
    intros Hc. apply Forall_cons in Hc as [Hc _]. split; [apply NoDup_singleton|]. constructor; [|done].
    split; [by apply hidden_not_None|exact (hidden_seen d (e_path e) Hd Hc)].
Qed.

Lemma squash_entries_emits i acc stats (d : D) l acc' stats' d' :
  i <> O -> del_ok d -> squash_entries i (acc, stats, d) (Ok <$> l) = Ok (acc', stats', d') ->
  emits acc acc' d d' l.
Proof.
  intros Hi. revert acc stats d. induction l as [|e l IH]; intros acc stats d Hd E.
  - injection E as <- _ <-. by apply emits_nothing.
  - change (rbind (squash_entry i (acc, stats, d) e) (fun st => squash_entries i st (Ok <$> l)) =
      Ok (acc', stats', d')) in E.
    apply rbind_Ok_inv in E as ([[acc1 stats1] d1] & E0 & E1). apply squash_entry_emits in E0; [|done..].
    pose proof (emits_ok _ _ _ _ _ E0). apply IH in E1; [|done]. by apply (emits_trans _ _ _ _ _ _ [e] l E0 E1).
Qed.

Lemma squash_layer_emits i acc stats (d : D) l acc' stats' d' :
  i <> O -> del_ok d -> squash_layer i (acc, stats, d) (Ok <$> l) = Ok (acc', stats', d') ->
  emits acc acc' d d' l.
Proof.
  intros Hi Hd. unfold squash_layer. intros E.
  apply rbind_Ok_inv in E as ([[acc1 stats1] d1] & E0 & E1). rewrite decide_False in E1 by done. injection E1 as <- _ <-.
  apply squash_entries_emits in E0; [|done..]. rewrite <-(app_nil_r l).
  pose proof (emits_ok _ _ _ _ _ E0). eapply emits_trans; [exact E0|].
  apply emits_nothing; [by apply ok_end_of_layer|by intros; apply hidden_end_of_layer].
Qed.
End emitted.

Lemma squash_layers_emits layers acc stats (d : DeletionsOsString) acc' stats' d' :
  Forall (fun x => x.1 <> O) layers -> del_ok d ->
  squash_layers open_entries layers (acc, stats, d) = Ok (acc', stats', d') ->
  emits acc acc' d d' (concat ((snd ∘ snd) <$> layers)).
Proof.
  revert acc stats d. induction layers as [|[i [c l]] layers IH]; intros acc stats d Hi Hd E.
  - injection E as <- _ <-. by apply emits_nothing.
  - apply Forall_cons in Hi as [Hi1 Hi].
    change (rbind (squash_layer i (acc, stats, d) (Ok <$> l)) (squash_layers open_entries layers) =
      Ok (acc', stats', d')) in E.
    apply rbind_Ok_inv in E as ([[acc1 stats1] d1] & E0 & E1).
    apply squash_layer_emits in E0; [|done..]. pose proof (emits_ok _ _ _ _ _ E0).
    apply IH in E1; [|done..]. by eapply (emits_trans _ _ _ _ _ _ l).
Qed.

Lemma squash_layers_app {C R} `{EntryCallback C} (open_layer : Compression -> R -> _) l1 l2 st :
  squash_layers open_layer (l1 ++ l2) st =
  let? st := squash_layers open_layer l1 st in squash_layers open_layer l2 st.
Proof.
  revert st. induction l1 as [|[i [c r]] l1 IH]; intros st; [done|]. simpl.
  destruct (open_layer c r); [simpl|done..]. destruct (squash_layer i st _); [simpl; apply IH|done..].
Qed.

Lemma enumerate_rev_cons {A} (x : A) l :
  enumerate_rev (x :: l) = rev (imap (fun i y => (S i, y)) l) ++ [(O, x)].
Proof. done. Qed.

Lemma upper_indices {A} (l : list A) : Forall (fun x => x.1 <> O) (rev (imap (fun i y => (S i, y)) l)).
Proof.
  apply Forall_rev, Forall_lookup. intros i x Hx. rewrite list_lookup_imap in Hx.
  destruct (l !! i); [by injection Hx as <-|done].
Qed.

(** * The callback does not matter *)

Section callbacks.
Context {C : Type} `{EntryCallback C}.

(** The entries one after the other. *)
Fixpoint deliver (l : list Entry) (cb : C) : result Error C :=
  match l with
  | [] => Ok cb
  | e :: l => let? cb := on_entry cb e in deliver l cb
  end.

Lemma deliver_app l1 l2 cb : deliver (l1 ++ l2) cb = let? cb := deliver l1 cb in deliver l2 cb.
Proof. revert cb. induction l1 as [|e l1 IH]; intros cb; [done|]. simpl. destruct (on_entry cb e); simpl; auto. Qed.

(** A step of the squasher with this callback, and the same step that collects. *)
Definition same_run {D} (f : C * Stats * D -> result Error (C * Stats * D))
    (g : list Entry * Stats * D -> result Error (list Entry * Stats * D)) : Prop :=
  forall stats d acc,
    (forall cb cb' s' d', f (cb, stats, d) = Ok (cb', s', d') ->
       exists new, g (acc, stats, d) = Ok (acc ++ new, s', d') /\ deliver new cb = Ok cb') /\
    (forall acc' s' d', g (acc, stats, d) = Ok (acc', s', d') ->
       exists new, acc' = acc ++ new /\ forall cb cb', deliver new cb = Ok cb' -> f (cb, stats, d) = Ok (cb', s', d')).

Lemma same_run_bind {D} (f1 f2 : C * Stats * D -> _) g1 g2 :
  same_run f1 g1 -> same_run f2 g2 ->
  same_run (fun st => let? st := f1 st in f2 st) (fun st => let? st := g1 st in g2 st).
Proof.
  intros H1 H2 stats d acc. destruct (H1 stats d acc) as [Ha Hb]. split.
  - intros cb cb' s' d' E. monad_inv E. destruct a as [[cb1 s1] d1].
    destruct (Ha _ _ _ _ E0) as (n1 & Eg & Hd1). rewrite Eg. simpl.
    destruct (proj1 (H2 s1 d1 (acc ++ n1)) _ _ _ _ E1) as (n2 & Eg2 & Hd2).
    exists (n1 ++ n2). by rewrite app_assoc, deliver_app, Hd1.
  - intros acc' s' d' E. monad_inv E. destruct a as [[acc1 s1] d1].
    destruct (Hb _ _ _ E0) as (n1 & -> & Hf1).
    destruct (proj2 (H2 s1 d1 (acc ++ n1)) _ _ _ E1) as (n2 & -> & Hf2).
    exists (n1 ++ n2). rewrite app_assoc. split; [done|]. intros cb cb'. rewrite deliver_app.
    intros Hd. monad_inv Hd. by rewrite (Hf1 _ _ Hd0); apply Hf2.
Qed.

Lemma same_run_ok {D} (h : Stats * D -> Stats * D) :
  same_run (fun '(cb, s, d) => Ok (cb, (h (s, d)).1, (h (s, d)).2))
    (fun '(acc, s, d) => Ok (acc, (h (s, d)).1, (h (s, d)).2)).
Proof.
  intros stats d acc. split.
  - intros cb cb' s' d' [= <- <- <-]. exists []. by rewrite app_nil_r.
  - intros acc' s' d' [= <- <- <-]. exists []. rewrite app_nil_r. split; [done|]. by intros cb cb' [= <-].
Qed.

Lemma same_run_entry {D} `{Deletions D} i e :
  same_run (D := D) (fun st => squash_entry i st e) (fun st => squash_entry i st e).
Proof.
  intros stats d acc. unfold squash_entry. destruct (whiteout e) as [[[path|path]|]| |]; simpl; [| | |done..].
  - apply (same_run_ok (fun '(s, d) => (s, if decide (i = O) then d else push_whiteout d path))).
  - apply (same_run_ok (fun '(s, d) => (s, if decide (i = O) then d else push_opaque d path))).
  - destruct (is_deleted d (e_path e)) as [r|].
    + apply (same_run_ok (fun '(s, d) => (count_deletion s r, d)) stats d acc).
    + split.
      * intros cb cb' s' d' E. monad_inv E. injection E1 as <- <- <-. exists [e]. simpl. by rewrite E0.
      * intros acc' s' d' [= <- <- <-]. exists [e]. split; [done|]. intros cb cb' E. simpl in E.
        monad_inv E. injection E1 as <-. by rewrite E0.
Qed.

Lemma same_run_err {D} (e : Error) : same_run (D := D) (fun _ => Err e) (fun _ => Err e).
Proof. by intros stats d acc. Qed.
Lemma same_run_panic {D} : same_run (D := D) (fun _ => Panic) (fun _ => Panic).
Proof. by intros stats d acc. Qed.

Lemma same_run_entries {D} `{Deletions D} i l :
  same_run (D := D) (fun st => squash_entries i st l) (fun st => squash_entries i st l).
Proof.
  induction l as [|[e|e|] l IH]; simpl; [|by apply same_run_bind; [apply same_run_entry|]|apply same_run_err|apply same_run_panic].
  intros stats d acc. apply (same_run_ok (fun x => x) stats d acc).
Qed.

Lemma same_run_layer {D} `{Deletions D} i l :
  same_run (D := D) (fun st => squash_layer i st l) (fun st => squash_layer i st l).
Proof.
  apply (same_run_bind _ (fun '(cb, s, d) => Ok (cb, s, if decide (i = O) then d else end_of_layer d)) _
    (fun '(cb, s, d) => Ok (cb, s, if decide (i = O) then d else end_of_layer d))); [apply same_run_entries|].
  apply (same_run_ok (fun '(s, d) => (s, if decide (i = O) then d else end_of_layer d))).
Qed.

Lemma same_run_layers {R} (open_layer : Compression -> R -> _) layers :
  same_run (fun st => squash_layers open_layer layers st) (fun st => squash_layers open_layer layers st).
Proof.
  induction layers as [|[i [c r]] layers IH]; simpl.
  - intros stats d acc. apply (same_run_ok (fun x => x) stats d acc).
  - destruct (open_layer c r); simpl; [|apply same_run_err|apply same_run_panic].
    apply same_run_bind; [apply same_run_layer|done].
Qed.

Lemma squash_cb_run {R} (open_layer : Compression -> R -> _) layers (cb cb' : C) stats :
  squash_cb open_layer layers cb = Ok (cb', stats) ->
  exists out, squash_cb open_layer layers [] = Ok (out, stats) /\ deliver out cb = Ok cb'.
Proof.
  unfold squash_cb. intros E. apply rbind_Ok_inv in E as ([[cb1 s1] d1] & E & Hok). injection Hok as <- <-.
  apply (same_run_layers open_layer _ _ _ []) in E as (new & E & Hd). exists new. by rewrite E.
Qed.

Lemma squash_cb_run_back {R} (open_layer : Compression -> R -> _) layers (cb cb' : C) out stats :
  squash_cb open_layer layers [] = Ok (out, stats) -> deliver out cb = Ok cb' ->
  squash_cb open_layer layers cb = Ok (cb', stats).
Proof.
  unfold squash_cb. intros E Hd. apply rbind_Ok_inv in E as ([[acc s1] d1] & E & Hok). injection Hok as <- <-.
  apply (same_run_layers open_layer _ _ _ []) in E as (new & -> & Hf). by rewrite (Hf cb cb' Hd).
Qed.
End callbacks.

(** * Properties *)

(** A path is emitted once.  When the layers are squashed and no path ends
    with a slash, the entries of the upper layers have different paths, and no
    entry of the bottom layer has the path of one of them.  This follows from the
    contract of the deletion maps, which both implementations keep. *)
Theorem squash_unique bottom layers out stats :
  squash_cb open_entries (bottom :: layers) [] = Ok (out, stats) ->
  Forall (fun e => without_trailing_slash (e_path e) = e_path e) (concat (snd <$> layers)) ->
  exists upper lower, out = upper ++ lower /\ NoDup (e_path <$> upper) /\
    (forall e, e ∈ upper -> e ∈ concat (snd <$> layers)) /\
    (forall e, e ∈ lower -> e ∈ bottom.2 /\ e_path e ∉ e_path <$> upper).
Proof.
  intros E Hc. unfold squash_cb in E. apply rbind_Ok_inv in E as ([[acc s] d] & E & Hout).
  injection Hout as -> _. rewrite enumerate_rev_cons, squash_layers_app in E.
  apply rbind_Ok_inv in E as ([[upper s1] d1] & E1 & E2). destruct bottom as [c l].
  assert (concat ((snd ∘ snd) <$> rev (imap (fun i y => (S i, y)) layers)) ≡ₚ concat (snd <$> layers)) as Hperm.
  { pose proof (enumerate_rev_concat ((c, l) :: layers)) as Hp.
    rewrite enumerate_rev_cons, fmap_app, concat_app in Hp. simpl in Hp.
    rewrite app_nil_r, (Permutation_app_comm l) in Hp. by apply Permutation_app_inv_r in Hp. }
  apply squash_layers_emits in E1 as [Hok _ (new & -> & Hin & Hnew)]; [|apply upper_indices|constructor].
  rewrite Hperm in Hnew. destruct (Hnew Hc) as [Hnd Hf]. rewrite Forall_forall in Hf. simpl in Hf.
  change (rbind (squash_layer O (new, s1, d1) (Ok <$> l)) (squash_layers open_entries []) = Ok (out, s, d)) in E2.
  apply rbind_Ok_inv in E2 as ([[acc2 s2] d2] & E2 & Hend). injection Hend as -> -> ->.
  apply squash_bottom_layer in E2 as [-> _]. exists new, (base.filter (kept d1) l). split_and!; [done|done| |].
  - intros e He. rewrite <-Hperm. by apply Hin.
  - intros e [Hk He]%list_elem_of_filter. split; [done|].
    intros (e' & Heq & He')%list_elem_of_fmap. destruct (Hf e' He') as [_ Hh].
    rewrite <-Heq in Hh. destruct Hk as [_ Hk]. by apply (hidden_not_None d1 (e_path e)).
Qed.

Lemma squash_unique_witness :
  exists upper lower stats, squash_cb open_entries example_layers [] = Ok (upper ++ lower, stats) /\
    NoDup (e_path <$> upper).
Proof.
  destruct (squash_unique (CompressionNone, [tar_entry "a" Directory; tar_entry "a/f" Regular; tar_entry "b" Regular])
    [(Gzip, [tar_entry "a/.wh.f" Regular; tar_entry "b" Regular])]
    [tar_entry "b" Regular; tar_entry "a" Directory]
    {| deletions := 1; deletion_dirs := 0; opaques := 0; shadowed := 1; deletions_map_size := 2 |})
    as (upper & lower & Ho & Hnd & _).
  - vm_compute. reflexivity.
  - repeat constructor.
  - exists upper, lower, {| deletions := 1; deletion_dirs := 0; opaques := 0; shadowed := 1; deletions_map_size := 2 |}.
    rewrite <-Ho. split; [vm_compute; reflexivity|exact Hnd].
Defined.

(** The tar archive has what squashing keeps.  Squashing to a tar archive
    succeeds exactly when the layers can be squashed and the archive builder
    takes the kept entries, in order, and is finished; the statistics are those
    of the squashing. *)
Theorem squash_to_tar_spec {A R} `{ArchiveBuilder A}
    (open_layer : Compression -> R -> result Error (list (result Error Entry))) layers (a a' : A) stats :
  squash_to_tar open_layer layers a = Ok (a', stats) <->
  exists out a1, squash_cb open_layer layers [] = Ok (out, stats) /\ deliver out a = Ok a1 /\
    finish_archive a1 = Ok a'.
Proof.
  unfold squash_to_tar. split.
  - intros E. apply rbind_Ok_inv in E as ([a1 s1] & E & Hf). apply rbind_Ok_inv in Hf as (a2 & Hf & Hok).
    injection Hok as <- <-. apply squash_cb_run in E as (out & E & Hd). by exists out, a1.
  - intros (out & a1 & E & Hd & Hf). apply (squash_cb_run_back open_layer layers a a1) in E; [|done].
    rewrite E. simpl. by rewrite Hf.
Qed.

(** The two implementations differ: a directory entry with a trailing slash
    hides the same entry of a lower layer only in the map of paths. *)
Example trailing_slash_paths :
  is_deleted (insert_seen DeletionsPathBuf_default [x61; x2f]) [x61; x2f] = Some RShadowed /\
  is_deleted (insert_seen DeletionsOsString_default [x61; x2f]) [x61; x2f] = None.
Proof. split; reflexivity. Qed.

(** Both miss an opaque directory behind another recorded path. *)
Example opaque_missed_paths :
  is_deleted (insert_seen (end_of_layer (push_opaque DeletionsPathBuf_default [x61])) [x61; x2f; x62])
    [x61; x2f; x63] = None.
Proof. reflexivity. Qed.
