(* ===== verification/Overlay.v ===== *)
(** What squashing means (src/peimage/src/squash.rs).

    The layers of an image are an overlay: an entry is visible unless a layer
    above has a whiteout for its path or an ancestor, makes an ancestor opaque,
    or has an entry with the same path.  [overlay] says this directly, on the
    components of paths and layer by layer, without a map, queues or an order of
    keys.  The theorem relates [squash_cb] to it: no visible entry is ever lost,
    and the result is exactly the overlay when the single range query of the
    deletion map cannot be disturbed by another recorded path. *)
From stdpp Require Import base list gmap numbers strings sorting.
From Stdlib Require Import ZArith Lia.
From S2P Require Import Prelude BTree Paths ErofsBuild Squash SquashTar.
#[local] Open Scope Z_scope.
#[local] Open Scope result_scope.

(** * The specification *)

(** [p] lies strictly below [k]. *)
Definition below (k p : list Component) : bool :=
  path_starts_with p k && negb (bool_decide (p = k)).

(** The entry [u] of a layer hides the path [p] of the layers under it. *)
Definition hides_entry (u : Entry) (p : list Component) : bool :=
  match whiteout u with
  | Ok (Some (WhiteoutFile k)) => bool_decide (p = components k) || below (components k) p
  | Ok (Some (WhiteoutOpaque k)) => below (components k) p
  | Ok None => bool_decide (p = components (e_path u))
  | _ => false
  end.

Definition hidden_by (above : list Entry) (p : list Component) : bool :=
  existsb (fun u => hides_entry u p) above.

Definition ordinary (e : Entry) : bool :=
  match whiteout e with Ok None => true | _ => false end.

Definition visible (above : list Entry) (e : Entry) : bool :=
  ordinary e && negb (hidden_by above (components (e_path e))).

Definition visible_in (above l : list Entry) : list Entry :=
  base.filter (fun e => visible above e = true) l.

(** The layers from the top one down. *)
Fixpoint overlay (above : list Entry) (layers : list (list Entry)) : list Entry :=
  match layers with
  | [] => []
  | l :: layers => visible_in above l ++ overlay (above ++ l) layers
  end.

(** * Where the range query is undisturbed *)

Definition mark (e : Entry) : option (bstr * DeletionState) :=
  match whiteout e with
  | Ok (Some (WhiteoutFile k)) => Some (k, Whiteout_)
  | Ok (Some (WhiteoutOpaque k)) => Some (k, Opaque_)
  | _ => None
  end.
Definition mark_path (e : Entry) : option bstr := fst <$> mark e.

(** [q] sorts after [k] and not after everything below [k]. *)
Definition within (k q : bstr) : Prop := blt k q /\ blt q (k ++ [x30]).

(** The paths that the deletion map holds when the upper layers are read. *)
Definition recorded_paths (upper : list (list Entry)) : list bstr :=
  omap mark_path (concat upper) ++ (e_path <$> overlay [] upper).

(** The path of an ordinary entry has no slash at its end. *)
Definition clean (e : Entry) : Prop := ordinary e = true -> without_trailing_slash (e_path e) = e_path e.

(** No path ends with a slash, the root is not opaque, and no recorded path
    sorts between a mark and what is below it. *)
Definition undisturbed (upper : list (list Entry)) : Prop :=
  Forall clean (concat upper) /\
  forall k, k ∈ omap mark_path (concat upper) ->
    k <> [] /\ forall q, q ∈ recorded_paths upper -> ~ within k q.

(** Paths as archives have them: plain names between slashes, and perhaps a
    slash at the end; the paths of marks have none. *)
Definition tidy (e : Entry) : Prop :=
  match mark_path e with
  | Some k => exists ks, Forall plain_name ks /\ k = path_of ks
  | None => exists ns, ns <> [] /\ Forall plain_name ns /\
      (e_path e = path_of ns \/ e_path e = path_of ns ++ [slash])
  end.

(** * Paths and their components *)

Lemma component_of_inj n m : component_of n = component_of m -> n = m.
Proof. unfold component_of. repeat case_decide; naive_solver. Qed.

Lemma components_inj ns ms :
  Forall plain_name ns -> Forall plain_name ms ->
  components (path_of ns) = components (path_of ms) <-> ns = ms.
Proof.
  intros Hn Hm. rewrite !components_path_of by done. split; [|by intros ->].
  apply list_fmap_eq_inj. intros n m. apply component_of_inj.
Qed.

Lemma path_of_inj ns ms :
  Forall plain_name ns -> Forall plain_name ms -> path_of ns = path_of ms <-> ns = ms.
Proof.
  intros Hn Hm. split; [|by intros ->]. intros E. apply components_inj; [done..|]. by rewrite E.
Qed.

Lemma path_of_app ks n rest :
  ks <> [] -> path_of (ks ++ n :: rest) = path_of ks ++ slash :: path_of (n :: rest).
Proof.
  intros Hk. induction ks as [|k ks IH]; [done|]. destruct ks as [|k' ks]; [done|].
  change (path_of ((k :: k' :: ks) ++ n :: rest)) with (k ++ slash :: path_of ((k' :: ks) ++ n :: rest)).
  rewrite IH by done. change (path_of (k :: k' :: ks)) with (k ++ slash :: path_of (k' :: ks)).
  by rewrite <-app_assoc.
Qed.

Lemma below_spec ks ns :
  Forall plain_name ks -> Forall plain_name ns ->
  below (components (path_of ks)) (components (path_of ns)) = true <->
    exists n rest, ns = ks ++ n :: rest.
Proof.
  intros Hk Hn. unfold below. rewrite !components_path_of by done.
  unfold path_starts_with. rewrite andb_true_iff, negb_true_iff, bool_decide_eq_true, bool_decide_eq_false.
  rewrite length_fmap, <-fmap_take. split.
  - intros [E Hne]. apply list_fmap_eq_inj in E; [|intros ??; apply component_of_inj].
    destruct (drop (length ks) ns) as [|n rest] eqn:Ed.
    + destruct Hne. f_equal. rewrite <-(take_drop (length ks) ns), Ed, E. by rewrite app_nil_r.
    + exists n, rest. by rewrite <-(take_drop (length ks) ns), Ed, E at 1.
  - intros (n & rest & ->). split; [by rewrite take_app_length|].
    intros E. apply list_fmap_eq_inj in E; [|intros ??; apply component_of_inj].
    apply (f_equal length) in E. rewrite length_app in E. simpl in E. lia.
Qed.

(** On plain names the byte test of the source is the order of components. *)
Lemma ancestor_spec ks ns :
  Forall plain_name ks -> Forall plain_name ns ->
  ancestor (path_of ks) (path_of ns) <-> ks <> [] /\ exists n rest, ns = ks ++ n :: rest.
Proof.
  intros Hk Hn. split.
  - intros [rest E]. assert (ns <> []) as Hne by (intros ->; by destruct (path_of ks)).
    destruct ks as [|k ks].
    { exfalso. destruct ns as [|n ns]; [done|]. apply Forall_cons in Hn as [(H1 & H2 & _) _].
      destruct n as [|b n]; [done|].
      assert (b = slash) as -> by (destruct ns; by injection E).
      apply H2. left. }
    split; [done|]. assert (split_slash (path_of ns) = (k :: ks) ++ split_slash rest) as Es.
    { rewrite E. clear -Hk. revert k Hk. induction ks as [|k' ks IH]; intros k Hk;
        apply Forall_cons in Hk as [(_ & Hs & _) Hk].
      - simpl. by apply split_slash_app_slash.
      - change (path_of (k :: k' :: ks)) with (k ++ slash :: path_of (k' :: ks)).
        rewrite <-app_assoc, <-app_comm_cons, split_slash_app_slash, IH by done. done. }
    unfold path_of in Es. rewrite split_join in Es;
      [|done|eapply Forall_impl; [exact Hn|by intros n (_ & ? & _)]].
    destruct (split_slash rest) as [|n r] eqn:Er; [by destruct rest as [|? ?]; simpl in Er; repeat case_match|].
    by exists n, r.
  - intros (Hne & n & rest & ->). rewrite path_of_app by done. by exists (path_of (n :: rest)).
Qed.

Lemma ends_with_spec suf l : ends_with suf l = true <-> exists r, l = r ++ suf.
Proof.
  unfold ends_with. rewrite bool_decide_eq_true. split.
  - intros E. exists (take (length l - length suf) l). by rewrite <-E at 2; rewrite take_drop.
  - intros [r ->]. rewrite length_app, Nat.add_sub. by rewrite drop_app_length.
Qed.

Lemma without_trailing_slash_path_of ns : Forall plain_name ns -> without_trailing_slash (path_of ns) = path_of ns.
Proof.
  intros Hn. destruct (decide (ns = [])) as [->|Hne]; [done|].
  destruct (last_join_not_slash ns Hne Hn) as [_ Hl]. unfold without_trailing_slash.
  destruct (ends_with [slash] (path_of ns)) eqn:E; [|done]. exfalso. apply Hl.
  apply ends_with_spec in E as [r E]. unfold path_of in E. by rewrite E, last_snoc.
Qed.

Lemma without_trailing_slash_snoc p : without_trailing_slash (p ++ [slash]) = p.
Proof.
  unfold without_trailing_slash.
  replace (ends_with [slash] (p ++ [slash])) with true by (symmetry; apply ends_with_spec; by exists p).
  rewrite length_app. simpl. by rewrite Nat.add_sub, take_app_length.
Qed.

Lemma body_prefixes_snoc before ns : (body_prefixes before (ns ++ [[]])).*1 = (body_prefixes before ns).*1.
Proof.
  revert before. induction ns as [|n ns IH]; intros before; simpl; [done|].
  destruct (body_component n); csimpl; by rewrite IH.
Qed.

Lemma split_slash_snoc ns :
  ns <> [] -> Forall plain_name ns -> split_slash (path_of ns ++ [slash]) = ns ++ [[]].
Proof.
  intros Hne Hf. induction Hf as [|n ns (_ & Hs & _) Hf IH]; [done|]. destruct ns as [|n' ns].
  - simpl. by apply (split_slash_app_slash n []).
  - change (path_of (n :: n' :: ns)) with (n ++ slash :: path_of (n' :: ns)).
    by rewrite <-app_assoc, <-app_comm_cons, split_slash_app_slash, IH by done.
Qed.

Lemma components_trailing ns :
  ns <> [] -> Forall plain_name ns -> components (path_of ns ++ [slash]) = components (path_of ns).
Proof.
  intros Hne Hf. unfold components, component_prefixes. rewrite split_slash_snoc by done.
  unfold path_of. rewrite split_join by (done || (eapply Forall_impl; [exact Hf|by intros ? (_ & ? & _)])).
  destruct Hf as [|n ns Hn Hf]; [done|]. simpl. rewrite !first_component_plain by done.
  destruct (body_component n); csimpl; by rewrite body_prefixes_snoc.
Qed.

(** * What the deletion map hides *)

(** The paths that a binding of the map is meant to hide; see [hides]. *)
Definition covers (k : bstr) (s : DeletionState) (q : bstr) : Prop :=
  match s with
  | Whiteout_ => q = k \/ ancestor k q
  | Opaque_ => ancestor k q
  | Shadowed_ => q = k
  end.

Definition hid (m : btree DeletionState) (q : bstr) : Prop := exists k s, recorded m k s /\ covers k s q.

(** Recording a path again adds up what is hidden. *)
Lemma covers_merge k a b q : covers k (merge_state a b) q <-> covers k a q \/ covers k b q.
Proof. destruct a, b; simpl; tauto. Qed.

Lemma hid_insert_state m p s q : hid (insert_state m p s) q <-> hid m q \/ covers p s q.
Proof.
  unfold hid, recorded. split.
  - intros (k & t & Hk & Hc). rewrite insert_state_get in Hk. destruct (decide (k = p)) as [->|]; [|by eauto].
    injection Hk as <-. destruct (bt_get p m) as [old|] eqn:E; [|by eauto].
    apply covers_merge in Hc as [Hc|Hc]; eauto.
  - intros [(k & t & Hk & Hc)|Hc].
    + destruct (decide (k = p)) as [->|Hne].
      * exists p, (merge_state t s). rewrite insert_state_get, decide_True, Hk by done. split; [done|].
        apply covers_merge. by left.
      * exists k, t. by rewrite insert_state_get, decide_False.
    + exists p. rewrite insert_state_get, decide_True by done. eexists. split; [done|].
      destruct (bt_get p m); [|done]. apply covers_merge. by right.
Qed.

Lemma hid_fold s ks m q :
  hid (fold_left (fun m x => insert_state m x s) ks m) q <-> hid m q \/ exists k, k ∈ ks /\ covers k s q.
Proof.
  revert m. induction ks as [|k ks IH]; intros m; simpl; [set_solver|].
  rewrite IH, hid_insert_state. set_solver.
Qed.

Lemma hid_end_of_layer d q :
  hid (dels_map (os_end_of_layer d)) q <->
    hid (dels_map d) q \/ (exists k, k ∈ whiteout_q d /\ covers k Whiteout_ q) \/
    (exists k, k ∈ opaque_q d /\ covers k Opaque_ q).
Proof. simpl. rewrite !hid_fold. tauto. Qed.

Lemma hid_seen d p q : hid (dels_map (os_insert_seen d p)) q <-> hid (dels_map d) q \/ q = p.
Proof. simpl. by rewrite hid_insert_state. Qed.

Lemma hid_seen_later d p q :
  hid (dels_map (os_end_of_layer (os_insert_seen d p))) q <-> hid (dels_map (os_end_of_layer d)) q \/ q = p.
Proof. rewrite !hid_end_of_layer, hid_seen. simpl. tauto. Qed.

Definition push_mark (d : DeletionsOsString) (k : bstr) (s : DeletionState) : DeletionsOsString :=
  match s with Whiteout_ => os_push_whiteout d k | _ => os_push_opaque d k end.

Lemma hid_push_later d k s q :
  s <> Shadowed_ ->
  hid (dels_map (os_end_of_layer (push_mark d k s))) q <->
    hid (dels_map (os_end_of_layer d)) q \/ covers (without_trailing_slash k) s q.
Proof. intros Hs. rewrite !hid_end_of_layer. destruct s; [simpl; set_solver..|done]. Qed.

Lemma dels_map_push d k s : dels_map (push_mark d k s) = dels_map d.
Proof. by destruct s. Qed.

Lemma is_deleted_hid d p r :
  reachable d -> os_is_deleted d p = Some r -> hid (dels_map d) (without_trailing_slash p).
Proof.
  intros Hd. unfold os_is_deleted. destruct (bt_last_le _ _) as [[k s]|] eqn:E; [|done].
  apply bt_last_le_Some in E as (Hk & _); [|by apply reachable_sorted]. unfold deletion_of.
  intros Hr. exists k, s. split; [done|]. pose proof (os_str_starts_with_spec (without_trailing_slash p) k) as Ha.
  destruct s; simpl; destruct (decide (k = _)), (os_str_starts_with _ k); naive_solver.
Qed.

(** * Entries *)

Lemma ordinary_view e :
  tidy e -> ordinary e = true -> exists ns, Forall plain_name ns /\
    without_trailing_slash (e_path e) = path_of ns /\ components (e_path e) = components (path_of ns) /\
    (e_path e = path_of ns \/ e_path e = path_of ns ++ [slash]).
Proof.
  unfold tidy, mark_path, mark, ordinary. destruct (whiteout e) as [[w|]| |]; [done| |done..].
  intros (ns & Hne & Hns & Hp) _. exists ns. destruct Hp as [Hp|Hp]; rewrite Hp; split_and!; auto.
  - by apply without_trailing_slash_path_of.
  - by apply without_trailing_slash_snoc.
  - by apply components_trailing.
Qed.

Lemma ordinary_hides e p :
  ordinary e = true -> hides_entry e p = true <-> p = components (e_path e).
Proof.
  unfold ordinary, hides_entry. destruct (whiteout e) as [[w|]| |]; [done| |done..]. intros _.
  apply bool_decide_eq_true.
Qed.

Lemma mark_not_shadowed e k s : mark e = Some (k, s) -> s <> Shadowed_.
Proof. unfold mark. destruct (whiteout e) as [[[]|]| |]; naive_solver. Qed.

Lemma mark_tidy e k s : tidy e -> mark e = Some (k, s) -> without_trailing_slash k = k.
Proof.
  unfold tidy, mark_path. intros Ht Hm. rewrite Hm in Ht. simpl in Ht. destruct Ht as (ks & Hks & ->).
  by apply without_trailing_slash_path_of.
Qed.

(** A mark of the map hides what the specification says; the converse fails
    for the root. *)
Lemma mark_covers e k s ns :
  tidy e -> mark e = Some (k, s) -> Forall plain_name ns ->
  (covers k s (path_of ns) -> hides_entry e (components (path_of ns)) = true) /\
  (k <> [] -> hides_entry e (components (path_of ns)) = true -> covers k s (path_of ns)).
Proof.
  unfold tidy, mark_path. intros Ht Hm Hns. rewrite Hm in Ht. simpl in Ht. destruct Ht as (ks & Hks & ->).
  unfold mark in Hm. unfold hides_entry.
  destruct (whiteout e) as [[[k|k]|]| |]; try done; injection Hm as -> <-; simpl;
    rewrite ?orb_true_iff, ?bool_decide_eq_true, below_spec, ancestor_spec, ?components_inj, ?path_of_inj by done.
  - split; [naive_solver|]. intros Hk [?|?]; [by left|right]. split; [|done]. by intros ->.
  - split; [naive_solver|]. intros Hk ?. split; [|done]. by intros ->.
Qed.

Lemma mark_or_ordinary e : ordinary e = true -> mark e = None.
Proof. unfold mark, ordinary. by destruct (whiteout e) as [[[]|]| |]. Qed.

Lemma mark_invisible e k s above : mark e = Some (k, s) -> visible above e = false.
Proof. unfold mark, visible, ordinary. by destruct (whiteout e) as [[[]|]| |]. Qed.

(** What an entry of an upper layer does. *)
Lemma squash_entry_cases i acc stats (d : DeletionsOsString) e acc' stats' d' :
  i <> O -> squash_entry i (acc, stats, d) e = Ok (acc', stats', d') ->
  (exists k s, mark e = Some (k, s) /\ acc' = acc /\ d' = push_mark d k s) \/
  (ordinary e = true /\ exists r, os_is_deleted d (e_path e) = Some r /\ acc' = acc /\ d' = d) \/
  (ordinary e = true /\ os_is_deleted d (e_path e) = None /\ acc' = acc ++ [e] /\
     d' = os_insert_seen d (e_path e)).
Proof.
  intros Hi. unfold squash_entry, mark, ordinary.
  destruct (whiteout e) as [[[k|k]|]| |]; simpl; [| | |done..]; rewrite ?decide_False by done.
  - intros [= <- <- <-]. left. by exists k, Whiteout_.
  - intros [= <- <- <-]. left. by exists k, Opaque_.
  - destruct (os_is_deleted d (e_path e)) as [r|]; simpl; rewrite ?decide_False by done;
      intros [= <- <- <-]; right; [left; eauto|by right].
Qed.

(** * Nothing visible is lost *)

Definition seen_in (l : list Entry) (p : list Component) : Prop :=
  exists e, e ∈ l /\ ordinary e = true /\ components (e_path e) = p.

Lemma seen_in_app l e p : seen_in (l ++ [e]) p <-> seen_in l p \/ ordinary e = true /\ components (e_path e) = p.
Proof. unfold seen_in. set_solver. Qed.

Lemma hidden_by_app l l' p : hidden_by (l ++ l') p = hidden_by l p || hidden_by l' p.
Proof. apply existsb_app. Qed.

Lemma hidden_by_snoc l e p : hidden_by (l ++ [e]) p = hidden_by l p || hides_entry e p.
Proof. rewrite hidden_by_app. simpl. by rewrite orb_false_r. Qed.

(** What the map hides while the entries [l] of a layer were read, and what it
    will hide at its end, the specification hides. *)
Record justified (above l : list Entry) (d : DeletionsOsString) : Prop := {
  j_reachable : reachable d;
  j_now ns : Forall plain_name ns -> hid (dels_map d) (path_of ns) ->
    hidden_by above (components (path_of ns)) = true \/ seen_in l (components (path_of ns));
  j_later ns : Forall plain_name ns -> hid (dels_map (os_end_of_layer d)) (path_of ns) ->
    hidden_by (above ++ l) (components (path_of ns)) = true;
}.

Lemma justified_entry i acc stats d e acc' stats' d' above l :
  i <> O -> tidy e -> justified above l d ->
  squash_entry i (acc, stats, d) e = Ok (acc', stats', d') -> justified above (l ++ [e]) d'.
Proof.
  intros Hi Ht [Hr Hnow Hlater] E. apply squash_entry_cases in E; [|done].
  assert (forall ns, seen_in l (components (path_of ns)) -> seen_in (l ++ [e]) (components (path_of ns))) as Hmono
    by (intros ns ?; apply seen_in_app; by left).
  destruct E as [(k & s & Hm & -> & ->)|[(Ho & r & Hdel & -> & ->)|(Ho & Hdel & -> & ->)]].
  - split.
    + destruct s; [exact (reachable_push_whiteout d k Hr)|exact (reachable_push_opaque d k Hr)..].
    + intros ns Hns. rewrite dels_map_push. naive_solver.
    + intros ns Hns. rewrite hid_push_later by (by eapply mark_not_shadowed).
      rewrite (mark_tidy e k s Ht Hm), app_assoc, hidden_by_snoc, orb_true_iff.
      intros [?|?]; [auto|right]. by eapply mark_covers.
  - split; [done|naive_solver|]. intros ns Hns ?. rewrite app_assoc, hidden_by_snoc, orb_true_iff. auto.
  - destruct (ordinary_view e Ht Ho) as (ms & Hms & _ & Hc & Hp).
    assert (forall ns, Forall plain_name ns -> path_of ns = e_path e ->
      components (e_path e) = components (path_of ns)) as Heq by (intros ns Hns ->; done).
    split; [exact (reachable_insert_seen d (e_path e) Hr)| |].
    + intros ns Hns. rewrite hid_seen, seen_in_app. naive_solver.
    + intros ns Hns. rewrite hid_seen_later, app_assoc, hidden_by_snoc, orb_true_iff, ordinary_hides by done.
      intros [?|?]; [auto|]. right. symmetry. auto.
Qed.

Definition ordinary_paths (l : list Entry) : list (list Component) :=
  (components ∘ e_path) <$> base.filter (fun e => ordinary e = true) l.

Lemma visible_kept d e above l :
  tidy e -> justified above l d -> visible above e = true ->
  components (e_path e) ∉ ordinary_paths l -> os_is_deleted d (e_path e) = None.
Proof.
  intros Ht [Hr Hnow _] Hv Hn. unfold visible in Hv. apply andb_true_iff in Hv as [Ho Hh%negb_true_iff].
  destruct (os_is_deleted d (e_path e)) as [r|] eqn:E; [|done]. exfalso.
  apply is_deleted_hid in E; [|done]. destruct (ordinary_view e Ht Ho) as (ns & Hns & Hw & Hc & _).
  rewrite Hw in E. rewrite Hc in Hh, Hn. apply Hnow in E as [E|(u & Hu & Huo & Huc)]; [congruence| |done].
  apply Hn. rewrite <-Huc. apply (list_elem_of_fmap_2 (components ∘ e_path)), list_elem_of_filter. done.
Qed.

Lemma visible_in_cons above e l :
  visible_in above (e :: l) = (if visible above e then [e] else []) ++ visible_in above l.
Proof. unfold visible_in. rewrite filter_cons. by destruct (visible above e). Qed.

Lemma ordinary_paths_snoc l e :
  ordinary e = true -> ordinary_paths (l ++ [e]) = ordinary_paths l ++ [components (e_path e)].
Proof.
  intros Ho. unfold ordinary_paths. rewrite filter_app, fmap_app. simpl. rewrite filter_cons, Ho.
  by rewrite decide_True.
Qed.

Lemma NoDup_next l e l' :
  NoDup (ordinary_paths (l ++ e :: l')) -> ordinary e = true -> components (e_path e) ∉ ordinary_paths l.
Proof.
  intros Hnd Ho. replace (l ++ e :: l') with ((l ++ [e]) ++ l') in Hnd by (by rewrite <-app_assoc).
  unfold ordinary_paths in Hnd. rewrite filter_app, fmap_app in Hnd. apply NoDup_app in Hnd as (Hnd & _).
  fold (ordinary_paths (l ++ [e])) in Hnd. rewrite ordinary_paths_snoc in Hnd by done.
  apply NoDup_app in Hnd as (_ & Hnd & _). intros Hin. apply (Hnd _ Hin). left.
Qed.

Lemma justified_entries i acc stats d l acc' stats' d' above l0 :
  i <> O -> Forall tidy l -> NoDup (ordinary_paths (l0 ++ l)) -> justified above l0 d ->
  squash_entries i (acc, stats, d) (Ok <$> l) = Ok (acc', stats', d') ->
  justified above (l0 ++ l) d' /\ exists new, acc' = acc ++ new /\ sublist (visible_in above l) new.
Proof.
  intros Hi Ht. revert acc stats d l0. induction Ht as [|e l He Ht IH]; intros acc stats d l0 Hnd Hj E.
  - injection E as <- _ <-. rewrite app_nil_r. split; [done|]. exists []. by rewrite app_nil_r.
  - change (rbind (squash_entry i (acc, stats, d) e) (fun st => squash_entries i st (Ok <$> l)) =
      Ok (acc', stats', d')) in E.
    apply rbind_Ok_inv in E as ([[acc1 stats1] d1] & E0 & E1).
    pose proof (justified_entry _ _ _ _ _ _ _ _ above l0 Hi He Hj E0) as Hj1.
    replace (l0 ++ e :: l) with ((l0 ++ [e]) ++ l) by (by rewrite <-app_assoc).
    destruct (IH acc1 stats1 d1 (l0 ++ [e])) as (Hj2 & new & -> & Hsub); [by rewrite <-app_assoc|done|done|].
    split; [done|]. rewrite visible_in_cons. apply squash_entry_cases in E0; [|done].
    destruct E0 as [(k & s & Hm & -> & ->)|[(Ho & r & Hdel & -> & ->)|(Ho & Hdel & -> & ->)]].
    + exists new. by rewrite (mark_invisible _ _ _ _ Hm).
    + exists new. destruct (visible above e) eqn:Hv; [|done]. exfalso.
      rewrite (visible_kept d e above l0) in Hdel; [done..|]. by eapply NoDup_next.
    + exists (e :: new). rewrite <-app_assoc. split; [done|].
      destruct (visible above e); simpl; [by constructor|by constructor].
Qed.

Lemma justified_end above l d : justified above l d -> justified (above ++ l) [] (os_end_of_layer d).
Proof.
  intros [Hr _ Hlater]. split.
  - exact (reachable_end_of_layer d Hr).
  - intros ns Hns ?. left. auto.
  - intros ns Hns Hh. rewrite app_nil_r. apply hid_end_of_layer in Hh. simpl in Hh. set_solver.
Qed.

Lemma justified_bottom above d l :
  Forall tidy l -> justified above [] d -> sublist (visible_in above l) (base.filter (kept d) l).
Proof.
  intros Ht Hj. induction Ht as [|e l He Ht IH]; [done|]. rewrite visible_in_cons, filter_cons.
  destruct (visible above e) eqn:Hv; simpl; [|case_decide; by try constructor].
  rewrite decide_True; [by constructor|]. split.
  - unfold visible, ordinary in Hv. by destruct (whiteout e) as [[]| |].
  - eapply visible_kept; [done..|]. apply not_elem_of_nil.
Qed.

(** * Nothing hidden is kept, when the query is undisturbed *)

(** The map hides what the specification hides, and it has only marks and kept
    entries. *)
Record covering (above l acc : list Entry) (d : DeletionsOsString) : Prop := {
  c_now ns : Forall plain_name ns ->
    hidden_by above (components (path_of ns)) = true \/ seen_in l (components (path_of ns)) ->
    hid (dels_map d) (path_of ns);
  c_later ns : Forall plain_name ns -> hidden_by (above ++ l) (components (path_of ns)) = true ->
    hid (dels_map (os_end_of_layer d)) (path_of ns);
  c_recorded q s : recorded (dels_map (os_end_of_layer d)) q s ->
    (q ∈ omap mark_path (above ++ l) \/ s = Shadowed_ /\ q ∈ e_path <$> acc);
}.

Lemma end_of_layer_recorded d q s :
  recorded (dels_map d) q s ->
  exists s', recorded (dels_map (os_end_of_layer d)) q s' /\ (s <> Shadowed_ -> s' <> Shadowed_).
Proof.
  unfold recorded. simpl. rewrite !fold_insert_get. intros ->.
  repeat case_decide; eexists; (split; [done|]); by destruct s.
Qed.

Lemma mark_path_Some e k s : mark e = Some (k, s) -> mark_path e = Some k.
Proof. unfold mark_path. by intros ->. Qed.

Lemma push_later_recorded d k s q t :
  s <> Shadowed_ -> recorded (dels_map (os_end_of_layer (push_mark d k s))) q t ->
  q = without_trailing_slash k \/ recorded (dels_map (os_end_of_layer d)) q t.
Proof.
  intros Hs. unfold recorded. destruct s; [| |done]; simpl; rewrite !fold_insert_get;
    destruct (decide (q = without_trailing_slash k)) as [|Hne]; auto; intros Hq; right; rewrite <-Hq.
  - destruct (decide (q ∈ whiteout_q d)), (decide (q ∈ whiteout_q d ++ [without_trailing_slash k]));
      set_solver.
  - destruct (decide (q ∈ opaque_q d)), (decide (q ∈ opaque_q d ++ [without_trailing_slash k]));
      set_solver.
Qed.

Lemma seen_later_recorded d p q t :
  recorded (dels_map (os_end_of_layer (os_insert_seen d p))) q t ->
  q = p /\ t = Shadowed_ \/ exists t', recorded (dels_map (os_end_of_layer d)) q t' /\ (t' = Shadowed_ -> t = Shadowed_).
Proof.
  unfold recorded. simpl. rewrite !fold_insert_get, !insert_state_get.
  destruct (decide (q = p)) as [->|]; [|eauto].
  destruct (bt_get p (dels_map d)) as [s|]; repeat case_decide; intros [= <-];
    first [by left | right; eexists; (split; [done|]); by destruct s | right; eexists; (split; [done|]); done].
Qed.

Lemma covering_entry i acc stats d e acc' stats' d' above l :
  i <> O -> tidy e -> (ordinary e = true -> without_trailing_slash (e_path e) = e_path e) ->
  (forall k, mark_path e = Some k -> k <> []) -> reachable d -> covering above l acc d ->
  squash_entry i (acc, stats, d) e = Ok (acc', stats', d') -> covering above (l ++ [e]) acc' d'.
Proof.
  intros Hi Ht Hclean Hroot Hr [Hnow Hlater Hrec] E. apply squash_entry_cases in E; [|done].
  destruct E as [(k & s & Hm & -> & ->)|[(Ho & r & Hdel & -> & ->)|(Ho & Hdel & -> & ->)]].
  - pose proof (mark_path_Some e k s Hm) as Hk. split.
    + intros ns Hns. rewrite dels_map_push, seen_in_app. intros [?|[?|[Ho _]]]; [by auto..|].
      by rewrite (mark_or_ordinary e Ho) in Hm.
    + intros ns Hns. rewrite hid_push_later by (by eapply mark_not_shadowed).
      rewrite (mark_tidy e k s Ht Hm), app_assoc, hidden_by_snoc, orb_true_iff.
      intros [?|?]; [auto|right]. apply (mark_covers e); auto.
    + intros q t Hq. rewrite app_assoc, omap_app, elem_of_app.
      apply push_later_recorded in Hq as [Hq|Hq]; [|apply Hrec in Hq; naive_solver|by eapply mark_not_shadowed].
      rewrite (mark_tidy e k s Ht Hm) in Hq. subst q. left. right. simpl. rewrite Hk. left.
  - destruct (ordinary_view e Ht Ho) as (ms & Hms & Hw & Hc & _). apply is_deleted_hid in Hdel; [|done].
    assert (forall ns, Forall plain_name ns -> components (e_path e) = components (path_of ns) ->
      hid (dels_map d) (path_of ns)) as Heq.
    { intros ns Hns. rewrite Hc, components_inj by done. intros <-. by rewrite <-Hw. }
    split.
    + intros ns Hns. rewrite seen_in_app. naive_solver.
    + intros ns Hns. rewrite app_assoc, hidden_by_snoc, orb_true_iff, ordinary_hides by done.
      intros [?|?]; [auto|]. apply hid_end_of_layer. left. by apply Heq.
    + intros q t Hq. rewrite app_assoc, omap_app, elem_of_app. apply Hrec in Hq. naive_solver.
  - destruct (ordinary_view e Ht Ho) as (ms & Hms & Hw & Hc & _). rewrite Hclean in Hw by done.
    assert (forall ns, Forall plain_name ns -> components (e_path e) = components (path_of ns) ->
      path_of ns = e_path e) as Heq.
    { intros ns Hns. rewrite Hc, components_inj by done. by intros <-. }
    split.
    + intros ns Hns. rewrite hid_seen, seen_in_app. naive_solver.
    + intros ns Hns. rewrite hid_seen_later, app_assoc, hidden_by_snoc, orb_true_iff, ordinary_hides by done.
      intros [?|?]; [auto|]. right. by apply Heq.
    + intros q t Hq. rewrite app_assoc, omap_app, elem_of_app, fmap_app, elem_of_app.
      apply seen_later_recorded in Hq as [[-> ->]|(t' & Hq & Ht')].
      * right. split; [done|]. right. left.
      * apply Hrec in Hq as [?|[? ?]]; auto.
Qed.

Lemma within_below k q p : blt k q -> ble q p -> ancestor k p -> within k q.
Proof.
  intros Hlt Hle [rest ->]. split; [done|]. eapply ble_blt_trans; [exact Hle|].
  unfold blt. by rewrite bcompare_app.
Qed.

Lemma hidden_deleted above l acc d p :
  reachable d -> covering above l acc d -> without_trailing_slash p = p -> hid (dels_map d) p ->
  (forall k q, k ∈ omap mark_path (above ++ l) ->
     q ∈ omap mark_path (above ++ l) ++ (e_path <$> acc) -> ~ within k q) ->
  exists r, os_is_deleted d p = Some r.
Proof.
  intros Hr [_ _ Hrec] Hp (k & s & Hk & Hc) Hno.
  assert (forall q t, recorded (dels_map d) q t -> q ∈ omap mark_path (above ++ l) ++ (e_path <$> acc)) as Hall.
  { intros q t Hq. apply end_of_layer_recorded in Hq as (t' & Hq & _). apply elem_of_app.
    apply Hrec in Hq. naive_solver. }
  assert (k = p -> s <> Opaque_ -> exists r, os_is_deleted d p = Some r) as Hexact.
  { intros -> Hs. pose proof (is_deleted_exact d p s Hr) as E. rewrite Hp in E. specialize (E Hk).
    simpl in E. destruct s; [eauto|done|eauto]. }
  assert (ancestor k p -> s <> Shadowed_ -> exists r, os_is_deleted d p = Some r) as Hanc.
  { intros Ha Hs. eexists. refine (is_deleted_below d k s p Hr Hk Hs _ _); rewrite Hp; [done|].
    intros q t Hlt Hle Hq. apply (Hno k q); [|by eapply Hall|by eapply within_below].
    apply end_of_layer_recorded in Hk as (t' & Hk & Ht'). apply Hrec in Hk as [?|[? _]]; [done|].
    by destruct (Ht' Hs). }
  destruct s; simpl in Hc; naive_solver.
Qed.

Lemma visible_false above e : ordinary e = true -> visible above e = false -> hidden_by above (components (e_path e)) = true.
Proof. unfold visible. intros ->. simpl. by intros ?%negb_false_iff. Qed.

(** The conditions of [undisturbed], for the marks [M] and records [R] that a
    part of the run meets. *)
Record quiet (M R : list bstr) : Prop := {
  q_within k q : k ∈ M -> q ∈ R -> ~ within k q;
  q_root k : k ∈ M -> k <> [];
  q_marks : M ⊆ R;
}.

Lemma quiet_deleted M R above l acc d e :
  quiet M R -> omap mark_path (above ++ l) ⊆ M -> e_path <$> acc ⊆ R ->
  reachable d -> covering above l acc d -> tidy e -> clean e -> ordinary e = true ->
  visible above e = false -> exists r, os_is_deleted d (e_path e) = Some r.
Proof.
  intros [Hq _ HM] Hmarks Hacc Hr Hc Ht Hcl Ho Hv.
  destruct (ordinary_view e Ht Ho) as (ns & Hns & Hw & Hcomp & _). rewrite (Hcl Ho) in Hw.
  eapply hidden_deleted; [done|done|by apply Hcl| |].
  - rewrite Hw. apply (c_now _ _ _ _ Hc); [done|]. left. rewrite <-Hcomp. by apply visible_false.
  - intros k q Hk Hin. apply Hq; [by apply Hmarks|]. set_solver.
Qed.

Lemma covering_entries M R i acc stats d l acc' stats' d' above l0 :
  i <> O -> Forall tidy l -> Forall clean l -> NoDup (ordinary_paths (l0 ++ l)) -> quiet M R ->
  omap mark_path (above ++ l0 ++ l) ⊆ M -> e_path <$> acc ++ visible_in above l ⊆ R ->
  justified above l0 d -> covering above l0 acc d ->
  squash_entries i (acc, stats, d) (Ok <$> l) = Ok (acc', stats', d') ->
  acc' = acc ++ visible_in above l /\ covering above (l0 ++ l) acc' d'.
Proof.
  intros Hi Ht. revert acc stats d l0. induction Ht as [|e l He Ht IH]; intros acc stats d l0 Hcl Hnd Hq HM HR Hj Hc E.
  - injection E as <- _ <-. by rewrite !app_nil_r.
  - change (rbind (squash_entry i (acc, stats, d) e) (fun st => squash_entries i st (Ok <$> l)) =
      Ok (acc', stats', d')) in E.
    apply rbind_Ok_inv in E as ([[acc1 stats1] d1] & E0 & E1). apply Forall_cons in Hcl as [Hce Hcl].
    pose proof (justified_entry _ _ _ _ _ _ _ _ above l0 Hi He Hj E0) as Hj1.
    assert (forall k, mark_path e = Some k -> k <> []) as Hroot.
    { intros k Hk. apply (q_root _ _ Hq), HM. rewrite !omap_app, !elem_of_app. right. right.
      simpl. rewrite Hk. left. }
    pose proof (covering_entry _ _ _ _ _ _ _ _ above l0 Hi He Hce Hroot (j_reachable _ _ _ Hj) Hc E0) as Hc1.
    assert (acc1 = acc ++ if visible above e then [e] else []) as Hacc.
    { pose proof E0 as E2. apply squash_entry_cases in E2; [|done].
      destruct E2 as [(k & s & Hm & -> & ->)|[(Ho & r & Hdel & -> & ->)|(Ho & Hdel & -> & ->)]].
      - by rewrite (mark_invisible _ _ _ _ Hm), app_nil_r.
      - destruct (visible above e) eqn:Hv; [|by rewrite app_nil_r].
        rewrite (visible_kept d e above l0) in Hdel; [done..|]. by eapply NoDup_next.
      - destruct (visible above e) eqn:Hv; [done|].
        destruct (quiet_deleted M R above l0 acc d e) as [r Hr]; auto; [| |by apply Hj|congruence].
        + rewrite !omap_app in HM. rewrite omap_app. set_solver.
        + rewrite fmap_app in HR. set_solver. }
    rewrite visible_in_cons in *.
    replace (l0 ++ e :: l) with ((l0 ++ [e]) ++ l) in * by (by rewrite <-app_assoc).
    destruct (IH acc1 stats1 d1 (l0 ++ [e])) as [Hacc' Hc']; auto.
    + rewrite Hacc, <-app_assoc. done.
    + split; [|done]. by rewrite Hacc', Hacc, <-app_assoc.
Qed.

Lemma covering_end above l acc d : covering above l acc d -> covering (above ++ l) [] acc (os_end_of_layer d).
Proof.
  intros [_ Hlater Hrec]. split.
  - intros ns Hns [?|(e & He & _)]; [auto|]. by apply elem_of_nil in He.
  - intros ns Hns. rewrite app_nil_r. intros ?. apply hid_end_of_layer. left. auto.
  - intros q s Hq. rewrite app_nil_r. by apply Hrec.
Qed.

Lemma covering_bottom M R above acc d l :
  quiet M R -> omap mark_path above ⊆ M -> e_path <$> acc ⊆ R -> Forall tidy l -> Forall clean l ->
  justified above [] d -> covering above [] acc d -> base.filter (kept d) l = visible_in above l.
Proof.
  intros Hq HM HR Ht Hcl Hj Hc. induction Ht as [|e l He Ht IH]; [done|].
  apply Forall_cons in Hcl as [Hce Hcl]. rewrite visible_in_cons, filter_cons, IH by done.
  destruct (visible above e) eqn:Hv.
  - rewrite decide_True; [done|]. split.
    + unfold visible, ordinary in Hv. by destruct (whiteout e) as [[]| |].
    + eapply visible_kept; [done..|]. apply not_elem_of_nil.
  - rewrite decide_False; [done|]. intros [Hw Hn].
    assert (ordinary e = true) as Ho by (unfold ordinary; by rewrite Hw).
    destruct (quiet_deleted M R above [] acc d e) as [r Hr]; auto; [by rewrite app_nil_r|by apply Hj|congruence].
Qed.

(** * Layers *)

Lemma overlay_snoc above ls l :
  overlay above (ls ++ [l]) = overlay above ls ++ visible_in (above ++ concat ls) l.
Proof.
  revert above. induction ls as [|l' ls IH]; intros above; simpl; [by rewrite !app_nil_r|].
  by rewrite IH, <-!app_assoc.
Qed.

Notation entries_of ls := ((fun x : nat * (Compression * list Entry) => x.2.2) <$> ls).

Lemma justified_layers ls acc stats d acc' stats' d' above :
  Forall (fun x => x.1 <> O) ls -> Forall tidy (concat (entries_of ls)) ->
  Forall (fun l => NoDup (ordinary_paths l)) (entries_of ls) -> justified above [] d ->
  squash_layers open_entries ls (acc, stats, d) = Ok (acc', stats', d') ->
  justified (above ++ concat (entries_of ls)) [] d' /\
  exists new, acc' = acc ++ new /\ sublist (overlay above (entries_of ls)) new.
Proof.
  intros Hi. revert acc stats d above. induction Hi as [|[i [c l]] ls Hi His IH]; intros acc stats d above Ht Hnd Hj E.
  - injection E as <- _ <-. rewrite app_nil_r. split; [done|]. exists []. by rewrite app_nil_r.
  - csimpl in *. apply Forall_app in Ht as [Htl Ht]. apply Forall_cons in Hnd as [Hndl Hnd].
    unfold squash_layer in E. apply rbind_Ok_inv in E as ([[acc1 s1] d1] & E0 & E1).
    apply rbind_Ok_inv in E0 as ([[acc0 s0] d0] & E0 & Hok). rewrite decide_False in Hok by done.
    injection Hok as <- <- <-. destruct (justified_entries _ _ _ _ _ _ _ _ above [] Hi Htl Hndl Hj E0) as (Hj1 & n1 & -> & Hs1).
    apply justified_end in Hj1. destruct (IH _ _ _ _ Ht Hnd Hj1 E1) as (Hj2 & n2 & -> & Hs2).
    simpl. rewrite app_assoc. split; [done|]. exists (n1 ++ n2). rewrite app_assoc. split; [done|].
    by apply sublist_app.
Qed.

Lemma covering_layers M R ls acc stats d acc' stats' d' above :
  Forall (fun x => x.1 <> O) ls -> Forall tidy (concat (entries_of ls)) -> Forall clean (concat (entries_of ls)) ->
  Forall (fun l => NoDup (ordinary_paths l)) (entries_of ls) -> quiet M R ->
  omap mark_path (above ++ concat (entries_of ls)) ⊆ M -> e_path <$> acc ++ overlay above (entries_of ls) ⊆ R ->
  justified above [] d -> covering above [] acc d ->
  squash_layers open_entries ls (acc, stats, d) = Ok (acc', stats', d') ->
  acc' = acc ++ overlay above (entries_of ls) /\ covering (above ++ concat (entries_of ls)) [] acc' d'.
Proof.
  intros Hi. revert acc stats d above.
  induction Hi as [|[i [c l]] ls Hi His IH]; intros acc stats d above Ht Hcl Hnd Hq HM HR Hj Hc E.
  - injection E as <- _ <-. by rewrite !app_nil_r.
  - csimpl in *. apply Forall_app in Ht as [Htl Ht]. apply Forall_app in Hcl as [Hcll Hcl].
    apply Forall_cons in Hnd as [Hndl Hnd].
    unfold squash_layer in E. apply rbind_Ok_inv in E as ([[acc1 s1] d1] & E0 & E1).
    apply rbind_Ok_inv in E0 as ([[acc0 s0] d0] & E0 & Hok). rewrite decide_False in Hok by done.
    injection Hok as <- <- <-. rewrite !fmap_app in HR. rewrite !omap_app in HM.
    assert (omap mark_path (above ++ l) ⊆ M) as HM1 by (rewrite omap_app; set_solver).
    assert (e_path <$> acc ++ visible_in above l ⊆ R) as HR1 by (rewrite fmap_app; set_solver).
    destruct (covering_entries M R _ _ _ _ _ _ _ _ above [] Hi Htl Hcll Hndl Hq HM1 HR1 Hj Hc E0) as [-> Hc1].
    destruct (justified_entries _ _ _ _ _ _ _ _ above [] Hi Htl Hndl Hj E0) as (Hj1 & _).
    apply justified_end in Hj1. apply covering_end in Hc1.
    assert (omap mark_path ((above ++ l) ++ concat (entries_of ls)) ⊆ M) as HM2 by (rewrite !omap_app; set_solver).
    assert (e_path <$> (acc ++ visible_in above l) ++ overlay (above ++ l) (entries_of ls) ⊆ R) as HR2
      by (rewrite !fmap_app; set_solver).
    destruct (IH _ _ _ _ Ht Hcl Hnd Hq HM2 HR2 Hj1 Hc1 E1) as [-> Hc2]. by rewrite !app_assoc.
Qed.

Lemma entries_of_upper (layers : list (Compression * list Entry)) :
  entries_of (rev (imap (fun i y => (S i, y)) layers)) = rev (snd <$> layers).
Proof.
  rewrite !rev_alt. etrans; [apply fmap_reverse|]. apply (f_equal reverse), list_eq. intros j.
  rewrite !list_lookup_fmap, list_lookup_imap. by destruct (layers !! j).
Qed.

Lemma undisturbed_quiet upper : undisturbed upper -> quiet (omap mark_path (concat upper)) (recorded_paths upper).
Proof.
  intros [_ Hu]. split.
  - intros k q Hk. by apply Hu.
  - intros k Hk. by apply Hu.
  - intros k Hk. apply elem_of_app. by left.
Qed.

Lemma hid_nil q : ~ hid [] q.
Proof. by intros (k & s & Hk & _). Qed.

Lemma justified_start : justified [] [] DeletionsOsString_default.
Proof. split; [constructor|by intros ns _ ?%hid_nil..]. Qed.

Lemma covering_start : covering [] [] [] DeletionsOsString_default.
Proof. split; [|done..]. intros ns _ [?|(e & He & _)]; [done|]. by apply elem_of_nil in He. Qed.

(** The theorem below, as a lemma for images. *)
Lemma squash_overlay bottom layers out stats :
  squash_cb open_entries (bottom :: layers) [] = Ok (out, stats) ->
  let upper := rev (snd <$> layers) in
  Forall tidy (concat upper ++ bottom.2) -> Forall (fun l => NoDup (ordinary_paths l)) upper ->
  sublist (overlay [] (upper ++ [bottom.2])) out /\
  (undisturbed upper -> Forall clean bottom.2 -> out = overlay [] (upper ++ [bottom.2])).
Proof.
  intros E upper [Ht Htb]%Forall_app Hnd. unfold squash_cb in E.
  apply rbind_Ok_inv in E as ([[acc s] d] & E & Hout). injection Hout as -> _.
  rewrite enumerate_rev_cons, squash_layers_app in E.
  apply rbind_Ok_inv in E as ([[kept_up s1] d1] & E1 & E2). destruct bottom as [c l]. simpl in Htb |- *.
  change (rbind (squash_layer O (kept_up, s1, d1) (Ok <$> l)) (squash_layers open_entries []) = Ok (out, s, d)) in E2.
  apply rbind_Ok_inv in E2 as ([[acc2 s2] d2] & E2 & Hend). injection Hend as -> -> ->.
  apply squash_bottom_layer in E2 as [-> _].
  pose proof (upper_indices layers) as Hi. rewrite overlay_snoc, app_nil_l.
  unfold upper in *. rewrite <-entries_of_upper in *.
  destruct (justified_layers _ _ _ _ _ _ _ [] Hi Ht Hnd justified_start E1) as (Hj & new & Hnew & Hsub).
  simpl in Hnew, Hj. subst kept_up. split.
  - apply sublist_app; [done|]. by apply justified_bottom.
  - intros Hu Hcb. pose proof (undisturbed_quiet _ Hu) as Hq. destruct Hu as [Hcl _].
    assert (e_path <$> [] ++ overlay [] (entries_of (rev (imap (fun i y => (S i, y)) layers)))
      ⊆ recorded_paths (entries_of (rev (imap (fun i y => (S i, y)) layers)))) as HR.
    { intros q Hin. apply elem_of_app. by right. }
    destruct (covering_layers _ _ _ _ _ _ _ _ _ [] Hi Ht Hcl Hnd Hq (reflexivity _) HR
      justified_start covering_start E1) as [-> Hc].
    f_equal. exact (covering_bottom _ _ _ _ _ _ Hq (reflexivity _) HR Htb Hcb Hj Hc).
Qed.

(** * Properties *)

(** C4: squashing is the overlay of the layers.  When the layers are squashed, the
    paths of all layers are plain names between slashes ([tidy]: a directory's may
    end with a slash) and no upper layer has a path twice, every entry that the
    overlay shows is kept, in its order.  When moreover no path ends with a slash
    ([clean]), the root is not opaque in an upper layer, and no recorded path sorts
    between a whiteout or opaque mark and what lies below it ([undisturbed]), the
    result is exactly the overlay.  Each of these is needed for equality:
    [Squash.trailing_slash_not_shadowed], [opaque_root_ignored] and
    [whiteout_missed]. *)
Theorem squash_refines_overlay bottom layers out stats :
  squash_cb open_entries (bottom :: layers) [] = Ok (out, stats) ->
  let upper := rev (snd <$> layers) in
  Forall tidy (concat upper ++ bottom.2) -> Forall (fun l => NoDup (ordinary_paths l)) upper ->
  sublist (overlay [] (upper ++ [bottom.2])) out /\
  (undisturbed upper -> Forall clean bottom.2 -> out = overlay [] (upper ++ [bottom.2])).
Proof. apply squash_overlay. Qed.

Definition example_bottom : list Entry :=
  [tar_entry "a" Directory; tar_entry "d" Directory; tar_entry "d/x" Regular; tar_entry "b" Regular].
Definition example_upper : list Entry :=
  [tar_entry "b" Regular; tar_entry ".wh.d" Regular; tar_entry "c" Regular].

Lemma example_tidy (p : string) t n :
  bytes_of_string p = n -> plain_name n -> mark (tar_entry p t) = None -> tidy (tar_entry p t).
Proof.
  intros <- Hn Hm. unfold tidy, mark_path. rewrite Hm. exists [bytes_of_string p].
  split; [done|]. split; [by apply Forall_singleton|]. by left.
Qed.

Lemma squash_refines_overlay_witness :
  exists stats, squash_cb open_entries [(CompressionNone, example_bottom); (CompressionNone, example_upper)] [] =
    Ok ([tar_entry "b" Regular; tar_entry "c" Regular; tar_entry "a" Directory], stats) /\
  [tar_entry "b" Regular; tar_entry "c" Regular; tar_entry "a" Directory] =
    overlay [] [example_upper; example_bottom].
Proof.
  eexists. split; [vm_compute; reflexivity|].
  refine (proj2 (squash_refines_overlay (CompressionNone, example_bottom) [(CompressionNone, example_upper)]
    _ _ _ _ _) _ _); [vm_compute; reflexivity| | | |].
  - assert (forall n : bstr, bool_decide (plain_name n) = true -> plain_name n) as Hp
      by (intros n; apply bool_decide_eq_true).
    repeat apply Forall_cons_2; [..|apply Forall_nil_2].
    1, 3, 4, 5, 7: (eapply example_tidy; [reflexivity|apply Hp; reflexivity|reflexivity]).
    + exists [bytes_of_string "d"]. split; [|reflexivity]. constructor; [apply Hp; reflexivity|constructor].
    + exists [bytes_of_string "d"; bytes_of_string "x"]. split; [done|]. split; [|by left].
      constructor; [apply Hp; reflexivity|]. constructor; [apply Hp; reflexivity|constructor].
  - repeat constructor. all: vm_compute; set_solver.
  - split; [repeat constructor|]. intros k Hk.
    change (k ∈ [[x64]]) in Hk. apply list_elem_of_singleton in Hk as ->. split; [done|]. intros q Hq.
    change (q ∈ [[x64]; [x62]; [x63]]) in Hq. rewrite !elem_of_cons in Hq.
    destruct Hq as [->|[->|[->|[]%elem_of_nil]]]; by intros [? ?].
  - repeat constructor.
Defined.

(** The condition cannot be left out: a sibling whose name goes on with a byte
    before the slash hides the whiteout of a directory from the query, and the
    file under the directory, which the overlay does not show, is kept. *)
Example whiteout_missed :
  let upper := [tar_entry ".wh.x" Regular; tar_entry "x.txt" Regular] in
  let lower := [tar_entry "x/f" Regular] in
  overlay [] [upper; lower] = [tar_entry "x.txt" Regular] /\
  exists stats, squash_cb open_entries [(CompressionNone, lower); (CompressionNone, upper)] [] =
    Ok ([tar_entry "x.txt" Regular; tar_entry "x/f" Regular], stats).
Proof. split; [vm_compute; reflexivity|]. eexists. vm_compute. reflexivity. Qed.

(** So does the directory's own entry, in the form that archives give it. *)
Example opaque_own_entry_missed :
  let upper := [tar_entry "x/" Directory; tar_entry "x/.wh..wh..opq" Regular] in
  let lower := [tar_entry "x/f" Regular] in
  overlay [] [upper; lower] = [tar_entry "x/" Directory] /\
  exists stats, squash_cb open_entries [(CompressionNone, lower); (CompressionNone, upper)] [] =
    Ok ([tar_entry "x/" Directory; tar_entry "x/f" Regular], stats).
Proof. split; [vm_compute; reflexivity|]. eexists. vm_compute. reflexivity. Qed.

(** An opaque root hides nothing. *)
Example opaque_root_ignored :
  let upper := [tar_entry ".wh..wh..opq" Regular] in
  let lower := [tar_entry "f" Regular] in
  overlay [] [upper; lower] = [] /\
  exists stats, squash_cb open_entries [(CompressionNone, lower); (CompressionNone, upper)] [] =
    Ok ([tar_entry "f" Regular], stats).
Proof. split; [vm_compute; reflexivity|]. eexists. vm_compute. reflexivity. Qed.
