(* ===== verification/SquashImage.v ===== *)
(** From layers to a file system (src/peimage/src/squash.rs with src/peerofs):
    the image that [squash_to_erofs] returns shows the file system that the
    surviving entries of the layers describe. *)
From stdpp Require Import option base list numbers strings.
From Stdlib Require Import ZArith Lia.
From S2P Require Import Prelude MemFile BTree Paths ErofsDisk ErofsBuild ErofsTree ErofsImage ErofsWalk ErofsWhole ErofsFs ErofsTotal Squash SquashErofs SquashTar.
#[local] Open Scope Z_scope.
#[local] Open Scope result_scope.

(** * Entries as operations *)

Section ops.
Context (mode_from_raw : Z -> Z).

Definition entry_meta (entry : Entry) : result Squash.Error Meta :=
  let? extensions := e_pax entry in
  let? xattrs := match extensions with Some l => SquashErofs.collect_pax l [] | None => Ok [] end in
  header_to_meta mode_from_raw entry xattrs.

(** The operation of the image builder that an entry asks for. *)
Definition entry_op (entry : Entry) : result Squash.Error BuildOp :=
  let? meta := entry_meta entry in
  match e_type entry with
  | Regular => let? size := e_size entry in Ok (AddFile (e_path entry) meta size (e_data entry))
  | Squash.Directory => Ok (UpsertDir (e_path entry) meta)
  | Squash.Symlink => let? link := ok_or (e_link_name entry) HardlinkNoLink in Ok (AddSymlink (e_path entry) link meta)
  | Link => let? link := ok_or (e_link_name entry) HardlinkNoLink in Ok (AddLink (e_path entry) link meta)
  | t => Err (UnhandledEntryType t)
  end.

Fixpoint entry_ops (l : list Entry) : result Squash.Error (list BuildOp) :=
  match l with
  | [] => Ok []
  | e :: l => let? op := entry_op e in let? ops := entry_ops l in Ok (op :: ops)
  end.

Lemma rbind_assoc {E A B C} (c : result E A) (f : A -> result E B) (g : B -> result E C) :
  (let? y := (let? x := c in f x) in g y) = (let? x := c in let? y := f x in g y).
Proof. by destruct c. Qed.

(** The callback is that operation. *)
Lemma erofs_on_entry_op b entry :
  erofs_on_entry mode_from_raw b entry = let? op := entry_op entry in map_err Erofs (build_step op b).
Proof.
  unfold erofs_on_entry, entry_op, entry_meta. rewrite !rbind_assoc.
  destruct (e_pax entry) as [x| |]; [|done..]. cbn [rbind]. rewrite rbind_assoc.
  destruct (match x with Some l => _ | None => _ end); [|done..]. cbn [rbind].
  destruct (header_to_meta _ entry a); [|done..]. cbn [rbind].
  destruct (e_type entry); try done; [by destruct (e_size entry)|by destruct (e_link_name entry)..].
Qed.

#[local] Instance erofs_callback : EntryCallback Builder := SquashToErofs mode_from_raw.

Lemma deliver_ops l b b' :
  deliver l b = Ok b' -> exists ops, entry_ops l = Ok ops /\ build_steps ops b = Ok b'.
Proof.
  revert b. induction l as [|e l IH]; intros b E; [injection E as <-; by exists []|]. cbn [deliver] in E.
  apply rbind_Ok_inv in E as (b1 & E1 & E).
  change (on_entry b e) with (erofs_on_entry mode_from_raw b e) in E1. rewrite erofs_on_entry_op in E1.
  apply rbind_Ok_inv in E1 as (op & Ho & E1). apply map_err_Ok in E1. apply IH in E as (ops & Hops & E).
  exists (op :: ops). simpl. by rewrite Ho, Hops, E1.
Qed.

(** * Entries that an image can hold *)

(** The numbers are those of a tar header; the declared size of a file is that
    of its data. *)
Record entry_ok (entry : Entry) : Prop := {
  ok_names : Forall name_ok (path_names (e_path entry));
  ok_mtime t : e_mtime entry = Ok t -> in_width 64 t;
  ok_size size : e_type entry = Regular -> e_size entry = Ok size -> size = zlen (e_data entry);
  ok_data : zlen (e_data entry) < 2 ^ 40;
  ok_link link : e_link_name entry = Some link -> zlen link < 2 ^ 40 /\ Forall name_ok (path_names link);
  ok_xattrs m : entry_meta entry = Ok m -> zlen (m_xattrs m) < 2 ^ 32 /\ inode_total (m_xattrs m) None < 2048;
}.

(** What [rustix] promises of the permission bits. *)
Context (Hmode : forall m, 0 <= mode_from_raw m < 4096).

Lemma entry_meta_ok entry m : entry_ok entry -> entry_meta entry = Ok m -> meta_ok m.
Proof.
  intros Hok E. destruct (ok_xattrs _ Hok m E) as [Hx1 Hx2]. unfold entry_meta in E.
  apply rbind_Ok_inv in E as (ext & _ & E). apply rbind_Ok_inv in E as (xattrs & _ & E). unfold header_to_meta in E.
  apply rbind_Ok_inv in E as (u & _ & E). apply rbind_Ok_inv in E as (u' & Hu & E). apply ok_or_Ok, try_into_Some in Hu as [-> Hu].
  apply rbind_Ok_inv in E as (g & _ & E). apply rbind_Ok_inv in E as (g' & Hg & E). apply ok_or_Ok, try_into_Some in Hg as [-> Hg].
  apply rbind_Ok_inv in E as (t & Ht & E). apply rbind_Ok_inv in E as (mo & _ & [= <-]).
  split; [|done]. split; [done|]. split; [done|]. split; [by apply (ok_mtime _ Hok)|]. split; [apply Hmode|done].
Qed.

Lemma entry_op_ok entry op : entry_ok entry -> entry_op entry = Ok op -> op_ok op.
Proof.
  intros Hok E. unfold entry_op in E. apply rbind_Ok_inv in E as (m & Hm & E).
  apply (entry_meta_ok entry m Hok) in Hm. pose proof (ok_names _ Hok) as Hn.
  destruct (e_type entry) eqn:Et; try done.
  - apply rbind_Ok_inv in E as (size & Hs & [= <-]). rewrite (ok_size _ Hok size Et Hs). by pose proof (ok_data _ Hok).
  - apply rbind_Ok_inv in E as (link & Hl & [= <-]). apply ok_or_Ok in Hl. by destruct (ok_link _ Hok link Hl).
  - apply rbind_Ok_inv in E as (link & Hl & [= <-]). apply ok_or_Ok in Hl. by destruct (ok_link _ Hok link Hl).
  - by injection E as <-.
Qed.

Lemma entry_ops_ok l ops : Forall entry_ok l -> entry_ops l = Ok ops -> Forall op_ok ops /\ zlen ops = zlen l.
Proof.
  intros Hl. revert ops. induction Hl as [|e l He _ IH]; intros ops E; simpl in E; [injection E as <-; by split|].
  apply rbind_Ok_inv in E as (op & Ho & E). apply rbind_Ok_inv in E as (ops' & Hops & [= <-]).
  apply IH in Hops as [H1 H2]. rewrite !zlen_cons, H2. split; [|done]. constructor; [by apply (entry_op_ok e)|done].
Qed.

(** The theorem below, as a lemma for overlays. *)
Lemma squash_image_fs `{RustixFileTypeLaws} {R} open_layer (layers : list (Compression * R)) limit inc stats est bytes :
  squash_to_erofs mode_from_raw open_layer layers (start_builder limit inc) = Ok (stats, (est, bytes)) ->
  exists out, squash_cb open_layer layers [] = Ok (out, stats) /\
    (Forall entry_ok out -> zlen out < 2 ^ 30 ->
     exists ops e, entry_ops out = Ok ops /\ Erofs_new bytes = Ok e /\
       forall names, Forall normal_name names -> shows e (s_fs (spec_resolve (spec_run inc ops))) names).
Proof.
  unfold squash_to_erofs. intros E. apply rbind_Ok_inv in E as ([b st] & E1 & E).
  apply rbind_Ok_inv in E as (out & Ei & [= -> ->]). apply map_err_Ok in Ei.
  apply squash_cb_run in E1 as (l & Hl & Hd). exists l. split; [done|]. intros Hok Hlen.
  apply deliver_ops in Hd as (ops & Hops & Hb). destruct (entry_ops_ok _ _ Hok Hops) as [Hop Hz].
  destruct (image_shows_fs ops limit inc b est bytes Hop ltac:(lia) Hb Ei) as (e & He & Hs). by exists ops, e.
Qed.

(** * Properties *)

(** C3: the image of squashed layers is the file system of the entries that
    survive.  When [squash_to_erofs] succeeds there is the list of entries that
    the squashing hands to its callback, with the same statistics; and if these
    are fewer than [2 ^ 30] and each is one that an image can hold ([entry_ok]:
    path and link names of at most 4084 bytes without a zero byte, a time that fits
    64 bits, for a regular file a header size that is the length of its data, data
    and link below [2 ^ 40] bytes, inode and xattrs below half a block), the image
    opens and shows at every path exactly what these entries, taken in order as
    files, directories, symlinks and hard links, put there.  The permission bits
    that [rustix] gives are below [4096]. *)
Theorem squash_image_shows `{RustixFileTypeLaws} {R} open_layer (layers : list (Compression * R)) limit inc stats est bytes :
  squash_to_erofs mode_from_raw open_layer layers (start_builder limit inc) = Ok (stats, (est, bytes)) ->
  exists out, squash_cb open_layer layers [] = Ok (out, stats) /\
    (Forall entry_ok out -> zlen out < 2 ^ 30 ->
     exists ops e, entry_ops out = Ok ops /\ Erofs_new bytes = Ok e /\
       forall names, Forall normal_name names -> shows e (s_fs (spec_resolve (spec_run inc ops))) names).
Proof. apply squash_image_fs. Qed.
End ops.

Lemma permission_bits_range m : 0 <= permission_bits m < 4096.
Proof. unfold permission_bits. change 0xFFF with (Z.ones 12). rewrite Z.land_ones by lia. apply Z.mod_pos_bound. lia. Qed.

Definition example_squashed : Squash.Stats * (ErofsBuild.Stats * list byte) :=
  ok_default (Squash.Stats_default, (ErofsBuild.Stats_default, []))
    (squash_to_erofs permission_bits open_entries two_layers (start_builder None None)).
Definition example_emitted : list Entry := [file_entry "etc/a" "new"; symlink_entry "l" "etc/a"; tar_entry "etc" Squash.Directory].

(** Entries of the example: everything about them can be computed. *)
Ltac entry_ok_tac :=
  constructor;
  [ apply names_ok_b; vm_compute; reflexivity
  | intros ? [= <-]; vm_compute; split; congruence
  | first [by intros ? [=] | intros ? _ [= <-]; reflexivity]
  | vm_compute; reflexivity
  | first [by intros ? [=] | intros ? [= <-]; split; [vm_compute; reflexivity|apply names_ok_b; vm_compute; reflexivity]]
  | intros ? Hm; vm_compute in Hm; injection Hm as <-; vm_compute; split; reflexivity ].

Lemma example_emitted_ok : Forall (entry_ok permission_bits) example_emitted.
Proof. repeat (constructor; [entry_ok_tac|]). constructor. Qed.

Lemma squash_image_shows_witness :
  exists e ops, entry_ops permission_bits example_emitted = Ok ops /\ Erofs_new example_squashed.2.2 = Ok e /\
    (let fs := s_fs (spec_resolve (spec_run None ops)) in
     shows e fs [bytes_of_string "etc"; bytes_of_string "a"] /\
     fs [bytes_of_string "etc"; bytes_of_string "gone"] = None /\
     shows e fs [bytes_of_string "etc"; bytes_of_string "gone"]).
Proof.
  destruct (squash_image_shows permission_bits permission_bits_range open_entries two_layers None None
    example_squashed.1 example_squashed.2.1 example_squashed.2.2) as (out & Hout & Hs).
  { trans (@Ok Squash.Error _ example_squashed); [apply ok_default_is_ok; vm_compute; reflexivity|].
    by destruct example_squashed as [? [? ?]]. }
  assert (out = example_emitted) as ->.
  { apply (f_equal (fun r => fst (ok_default ([], Squash.Stats_default) r))) in Hout. simpl in Hout.
    rewrite <-Hout. vm_compute. reflexivity. }
  destruct (Hs example_emitted_ok ltac:(vm_compute; reflexivity)) as (ops & e & Hops & He & Hshow).
  exists e, ops. split; [exact Hops|]. split; [exact He|]. split; [|split].
  - apply Hshow. repeat constructor; apply normal_name_b; vm_compute; reflexivity.
  - vm_compute in Hops. injection Hops as <-. vm_compute. reflexivity.
  - apply Hshow. repeat constructor; apply normal_name_b; vm_compute; reflexivity.
Defined.
