(* ===== verification/TarDiff.v ===== *)
(** Comparing two tar archives (src/peimage/src/bin/tardiff.rs).

    The tool reads the entries of two archives into ordered sets and shows the
    entries that only one of them has.  The derived orders of the source are
    instances of [Ord]; a path is compared by its components, so that entries
    whose paths differ in repeated or trailing slashes are the same.  The tar
    reader delivers the entries as in [Squash], SHA-256 is a parameter. *)
From stdpp Require Import option base list sets numbers strings sorting.
From Stdlib Require Import ZArith Lia.
From S2P Require Import Prelude BTree Paths Text Squash.
#[local] Open Scope Z_scope.
#[local] Open Scope result_scope.

(** * Orders *)

(** The trait [Ord], whose comparison decides equality. *)
Class Ord (A : Type) := cmp : A -> A -> comparison.
Class OrdLaws (A : Type) `{Ord A} : Prop := {
  cmp_eq x y : cmp x y = Eq <-> x = y;
  cmp_opp x y : cmp y x = CompOpp (cmp x y);
  cmp_trans x y z : cmp x y = Lt -> cmp y z = Lt -> cmp x z = Lt;
}.

#[export] Instance Z_ord : Ord Z := Z.compare.
#[export] Instance Z_ord_laws : OrdLaws Z.
Proof.
  split; unfold cmp, Z_ord.
  - apply Z.compare_eq_iff.
  - intros x y. apply Z.compare_antisym.
  - intros x y z. rewrite !Z.compare_lt_iff. lia.
Qed.

(** The order of what a function gives, as the ones of enums and of bytes. *)
Lemma ord_by_laws {A B} (f : A -> B) `{OrdLaws B} `{!Inj (=) (=) f} : @OrdLaws A (fun x y => cmp (f x) (f y)).
Proof.
  split.
  - intros x y. change (cmp (f x) (f y) = Eq <-> x = y). rewrite cmp_eq. split; [apply (inj f)|by intros ->].
  - intros x y. exact (cmp_opp (f x) (f y)).
  - intros x y z. exact (cmp_trans (f x) (f y) (f z)).
Qed.

#[export] Instance byte_ord : Ord byte := fun x y => cmp (byte_val x) (byte_val y).
#[export] Instance byte_ord_laws : OrdLaws byte.
Proof. unshelve eapply (ord_by_laws byte_val); try apply _. intros x y. apply byte_val_inj. Qed.

Section containers.
Context {A B : Type} `{OrdLaws A} `{OrdLaws B}.

Definition pair_cmp (x y : A * B) : comparison :=
  match cmp x.1 y.1 with Eq => cmp x.2 y.2 | c => c end.
#[export] Instance pair_ord : Ord (A * B) := pair_cmp.
#[export] Instance pair_ord_laws : OrdLaws (A * B).
Proof.
  split; change (@cmp _ pair_ord) with pair_cmp; unfold pair_cmp; intros [a1 b1] [a2 b2]; simpl.
  - destruct (cmp a1 a2) eqn:E; [apply cmp_eq in E as ->; rewrite cmp_eq; naive_solver|..];
      (split; [done|intros [= -> ->]; by rewrite (proj2 (cmp_eq a2 a2)) in E]).
  - rewrite (cmp_opp a1 a2). destruct (cmp a1 a2); simpl; [apply cmp_opp|done..].
  - intros [a3 b3]. simpl.
    destruct (cmp a1 a2) eqn:E1; [|..|done].
    + apply cmp_eq in E1 as ->. intros Hb. destruct (cmp a2 a3) eqn:E2; [|done..]. by apply cmp_trans.
    + intros _. destruct (cmp a2 a3) eqn:E2; [apply cmp_eq in E2 as ->; by rewrite E1| |done].
      by rewrite (cmp_trans a1 a2 a3).
Qed.

Fixpoint list_cmp (x y : list A) : comparison :=
  match x, y with
  | [], [] => Eq
  | [], _ :: _ => Lt
  | _ :: _, [] => Gt
  | a :: x, b :: y => match cmp a b with Eq => list_cmp x y | c => c end
  end.
#[export] Instance list_ord : Ord (list A) := list_cmp.
#[export] Instance list_ord_laws : OrdLaws (list A).
Proof.
  split; change (@cmp _ list_ord) with list_cmp.
  - induction x as [|a x IH]; intros [|b y]; simpl; [done..|]. specialize (IH y).
    destruct (cmp a b) eqn:E; [apply cmp_eq in E as ->; naive_solver|..];
      (split; [done|intros [= -> ->]; by rewrite (proj2 (cmp_eq b b)) in E]).
  - induction x as [|a x IH]; intros [|b y]; simpl; [done..|].
    rewrite (cmp_opp a b). destruct (cmp a b); simpl; [apply IH|done..].
  - induction x as [|a x IH]; intros [|b y] [|c z]; simpl; try done.
    destruct (cmp a b) eqn:E1; [|..|done].
    + apply cmp_eq in E1 as ->. intros Hb. destruct (cmp b c) eqn:E2; [|done..]. by apply IH.
    + intros _. destruct (cmp b c) eqn:E2; [apply cmp_eq in E2 as ->; by rewrite E1| |done].
      by rewrite (cmp_trans a b c).
Qed.

Definition option_cmp (x y : option A) : comparison :=
  match x, y with
  | None, None => Eq | None, Some _ => Lt | Some _, None => Gt | Some a, Some b => cmp a b
  end.
#[export] Instance option_ord : Ord (option A) := option_cmp.
#[export] Instance option_ord_laws : OrdLaws (option A).
Proof.
  split; change (@cmp _ option_ord) with option_cmp; unfold option_cmp.
  - intros [a|] [b|]; [rewrite cmp_eq; naive_solver|done..].
  - intros [a|] [b|]; simpl; [apply cmp_opp|done..].
  - intros [a|] [b|] [c|]; simpl; [apply cmp_trans|done..].
Qed.
End containers.

(** [Component] is ordered by variant, then by name. *)
Definition component_rank (c : Component) : Z * bstr :=
  match c with RootDir => (1, []) | CurDir => (2, []) | ParentDir => (3, []) | Normal n => (4, n) end.
#[export] Instance component_ord : Ord Component := fun x y => cmp (component_rank x) (component_rank y).
#[export] Instance component_ord_laws : OrdLaws Component.
Proof. unshelve eapply (ord_by_laws component_rank); try apply _. intros [] []; simpl; congruence. Qed.

(** * Entries *)

Inductive EntryTyp := TFile | TDir | TLink | TSymlink | TFifo.

Definition typ_rank (t : EntryTyp) : Z :=
  match t with TFile => 0 | TDir => 1 | TLink => 2 | TSymlink => 3 | TFifo => 4 end.
#[export] Instance typ_ord : Ord EntryTyp := fun x y => cmp (typ_rank x) (typ_rank y).
#[export] Instance typ_ord_laws : OrdLaws EntryTyp.
Proof. unshelve eapply (ord_by_laws typ_rank); try apply _. intros [] []; simpl; congruence. Qed.

Record DiffEntry := {
  t_typ : EntryTyp;
  t_path : bstr;
  t_data : option bstr;  (** the digest *)
  t_ext : list (bstr * bstr);
  t_link : option bstr;
  t_mtime : Z;
  t_uid : Z;
  t_gid : Z;
  t_mode : Z;
}.

(** The fields in their order, paths as their components: what the derived
    [PartialEq] and [Ord] look at. *)
Definition entry_key (x : DiffEntry) :=
  (t_typ x, (components (t_path x), (t_data x, (t_ext x, (components <$> t_link x,
    (t_mtime x, (t_uid x, (t_gid x, t_mode x)))))))).

Definition entry_cmp (x y : DiffEntry) : comparison := cmp (entry_key x) (entry_key y).

(** * Sets of entries *)

(** [BTreeSet] in the order of its iteration: an entry that is already there is
    kept. *)
Fixpoint set_insert (x : DiffEntry) (s : list DiffEntry) : list DiffEntry :=
  match s with
  | [] => [x]
  | y :: s' =>
      match entry_cmp x y with
      | Lt => x :: s
      | Eq => s
      | Gt => y :: set_insert x s'
      end
  end.

Definition set_contains (x : DiffEntry) (s : list DiffEntry) : bool :=
  existsb (fun y => match entry_cmp x y with Eq => true | _ => false end) s.

Definition set_difference (l r : list DiffEntry) : list DiffEntry :=
  List.filter (fun x => negb (set_contains x r)) l.

(** * The tool *)

Inductive TardiffError := NoLink | Tar (e : Error).

(** The type byte of a fifo. *)
Definition fifo_code : Z := 54.

Section tardiff.
Context (sha256 : bstr -> bstr).

(** What is made of one entry of the archive; unwrapped errors and other entry
    types are panics. *)
Definition diff_entry (e : Entry) : result TardiffError DiffEntry :=
  let panic {A} (c : result Error A) : result TardiffError A := match c with Ok a => Ok a | _ => Panic end in
  let? uid := panic (e_uid e) in
  let? gid := panic (e_gid e) in
  let? mode := panic (e_mode e) in
  let? mtime := panic (e_mtime e) in
  let? typ := match e_type e with
              | Regular => Ok TFile
              | Directory => Ok TDir
              | Link => Ok TLink
              | Symlink => Ok TSymlink
              | OtherEntry c => if c =? fifo_code then Ok TFifo else Panic
              end in
  let? link := match e_type e with
               | Link | Symlink => let? l := ok_or (e_link_name e) NoLink in Ok (Some l)
               | _ => Ok None
               end in
  let data := match e_type e with Regular => Some (hex_encode (sha256 (e_data e))) | _ => None end in
  let? exts := panic (e_pax e) in
  let? ext := match exts with
              | Some exts => panic (foldr (fun x acc => let? x := x in let? acc := acc in Ok (x :: acc)) (Ok []) exts)
              | None => Ok []
              end in
  Ok {| t_typ := typ; t_path := e_path e; t_data := data; t_ext := ext; t_link := link; t_mtime := mtime;
        t_uid := uid; t_gid := gid; t_mode := mode |}.

Fixpoint gather_entries (ar : list (result Error Entry)) (ret : list DiffEntry)
    : result TardiffError (list DiffEntry) :=
  match ar with
  | [] => Ok ret
  | entry :: ar =>
      let? entry := map_err Tar entry in
      let? e := diff_entry entry in
      gather_entries ar (set_insert e ret)
  end.

Record Diffs := { in_left_but_not_right : list DiffEntry; in_right_but_not_left : list DiffEntry }.

Definition tardiff (left right : list (result Error Entry)) : result TardiffError Diffs :=
  let? left := gather_entries left [] in
  let? right := gather_entries right [] in
  Ok {| in_left_but_not_right := set_difference left right; in_right_but_not_left := set_difference right left |}.
End tardiff.

(** * Lemmas *)

(** Two entries that the tool takes for the same. *)
Definition same_entry (x y : DiffEntry) : Prop := entry_key x = entry_key y.

#[export] Instance same_entry_equiv : Equivalence same_entry.
Proof. unfold same_entry. split; [done|by intros ???|intros ???; congruence]. Qed.

Lemma entry_cmp_eq x y : entry_cmp x y = Eq <-> same_entry x y.
Proof. exact (cmp_eq (entry_key x) (entry_key y)). Qed.

Definition entry_lt (x y : DiffEntry) : Prop := entry_cmp x y = Lt.

#[export] Instance entry_lt_trans : Transitive entry_lt.
Proof. intros x y z. exact (cmp_trans (entry_key x) (entry_key y) (entry_key z)). Qed.

(** A member up to sameness. *)
Definition has (x : DiffEntry) (s : list DiffEntry) : Prop := exists y, y ∈ s /\ same_entry x y.

#[export] Instance has_Proper : Proper (same_entry ==> (=) ==> iff) has.
Proof. intros x y Hxy s _ <-. unfold has. by setoid_rewrite Hxy. Qed.

Lemma has_cons x y s : has x (y :: s) <-> same_entry x y \/ has x s.
Proof. unfold has. setoid_rewrite elem_of_cons. naive_solver. Qed.

Lemma set_insert_has x y s : has x (set_insert y s) <-> same_entry x y \/ has x s.
Proof.
  induction s as [|z s IH]; simpl; [apply has_cons|]. destruct (entry_cmp y z) eqn:E.
  - apply entry_cmp_eq in E. rewrite !has_cons, E. tauto.
  - by rewrite has_cons.
  - rewrite !has_cons, IH. tauto.
Qed.

Lemma set_insert_sorted x s : StronglySorted entry_lt s -> StronglySorted entry_lt (set_insert x s).
Proof.
  induction 1 as [|y s Hs IH Hy]; simpl; [repeat constructor|]. destruct (entry_cmp x y) eqn:E.
  - by constructor.
  - constructor; [by constructor|]. constructor; [done|]. eapply Forall_impl; [exact Hy|]. intros z. by apply entry_lt_trans.
  - constructor; [done|]. rewrite Forall_forall in Hy. apply Forall_forall. intros z Hz.
    assert (entry_lt y x) as Hyx by (unfold entry_lt, entry_cmp in *; by rewrite (cmp_opp (entry_key x) (entry_key y)), E).
    clear IH Hs. revert Hz. induction s as [|w s IHs]; simpl; [by intros ->%list_elem_of_singleton|].
    destruct (entry_cmp x w); rewrite ?elem_of_cons; intros Hz; [apply Hy; by apply elem_of_cons|..].
    + destruct Hz as [->|Hz]; [done|]. apply Hy. by apply elem_of_cons.
    + destruct Hz as [->|Hz]; [apply Hy; by left|]. apply IHs; [|done]. intros v Hv. apply Hy. by right.
Qed.

Lemma set_contains_has x s : set_contains x s = true <-> has x s.
Proof.
  unfold set_contains, has. rewrite existsb_exists. setoid_rewrite <-list_elem_of_In.
  setoid_rewrite <-entry_cmp_eq. split; intros (y & Hy & E); exists y; (split; [done|]);
    destruct (entry_cmp x y); done.
Qed.

Lemma set_difference_has x l r : has x (set_difference l r) <-> has x l /\ ~ has x r.
Proof.
  unfold set_difference. unfold has at 1. setoid_rewrite list_elem_of_In. setoid_rewrite filter_In.
  setoid_rewrite <-list_elem_of_In. setoid_rewrite negb_true_iff. split.
  - intros (y & [Hy Hn] & E). split; [by exists y|]. rewrite E, <-set_contains_has. by rewrite Hn.
  - intros [(y & Hy & E) Hn]. exists y. split; [|done]. split; [done|].
    rewrite E, <-set_contains_has in Hn. by destruct (set_contains y r).
Qed.

Lemma filter_sorted (P : DiffEntry -> bool) s : StronglySorted entry_lt s -> StronglySorted entry_lt (List.filter P s).
Proof.
  induction 1 as [|x s Hs IH Hx]; simpl; [constructor|]. destruct (P x); [|done]. constructor; [done|].
  rewrite Forall_forall in Hx |- *. intros y Hy. apply Hx. rewrite list_elem_of_In in Hy |- *. by apply filter_In in Hy as [? _].
Qed.

Section spec.
Context (sha256 : bstr -> bstr).

(** The entries that an archive is read as, in its order. *)
Definition read_as (ar : list (result Error Entry)) (es : list DiffEntry) : Prop :=
  Forall2 (fun r d => exists e, r = Ok e /\ diff_entry sha256 e = Ok d) ar es.

Lemma gather_entries_spec ar ret s :
  gather_entries sha256 ar ret = Ok s -> StronglySorted entry_lt ret ->
  StronglySorted entry_lt s /\ exists es, read_as ar es /\ forall x, has x s <-> has x ret \/ has x es.
Proof.
  revert ret. induction ar as [|r ar IH]; intros ret; simpl.
  - intros [= <-] Hs. split; [done|]. exists []. split; [constructor|]. intros x. unfold has at 3. set_solver.
  - intros E Hs. apply rbind_Ok_inv in E as (e & He & E). apply rbind_Ok_inv in E as (d & Hd & E).
    destruct (IH _ E (set_insert_sorted d ret Hs)) as (Hs' & es & Hr & Hx). split; [done|]. exists (d :: es). split.
    + constructor; [|done]. exists e. split; [|done]. by destruct r; [injection He as ->|..].
    + intros x. rewrite Hx, set_insert_has, has_cons. tauto.
Qed.

Lemma has_nil s : (forall x, ~ has x s) -> s = [].
Proof. intros Hn. destruct s as [|y s]; [done|]. exfalso. apply (Hn y). exists y. split; [by left|done]. Qed.
End spec.

(** * Properties *)

(** C27: The comparison of two archives is exact.  When both can be read, what is
    shown for one side are, in order and each once, the entries of this archive
    that the other one does not have; and nothing is shown exactly when the
    archives have the same entries.  Entries are the same when all their fields
    are, with contents by digest and paths by components. *)
Theorem tardiff_exact sha256 left right d :
  tardiff sha256 left right = Ok d ->
  exists ls rs, read_as sha256 left ls /\ read_as sha256 right rs /\
    StronglySorted entry_lt (in_left_but_not_right d) /\ StronglySorted entry_lt (in_right_but_not_left d) /\
    (forall x, has x (in_left_but_not_right d) <-> has x ls /\ ~ has x rs) /\
    (forall x, has x (in_right_but_not_left d) <-> has x rs /\ ~ has x ls) /\
    (in_left_but_not_right d = [] /\ in_right_but_not_left d = [] <-> forall x, has x ls <-> has x rs).
Proof.
  unfold tardiff. intros E. apply rbind_Ok_inv in E as (l & Hl & E). apply rbind_Ok_inv in E as (r & Hr & [= <-]).
  apply gather_entries_spec in Hl as (Hls & ls & Hlr & Hlx); [|constructor].
  apply gather_entries_spec in Hr as (Hrs & rs & Hrr & Hrx); [|constructor].
  assert (forall x, ~ has x []) as Hnil by (intros x (y & Hy%elem_of_nil & _); done).
  assert (forall x, has x l <-> has x ls) as HL by (intros x; rewrite Hlx; specialize (Hnil x); tauto).
  assert (forall x, has x r <-> has x rs) as HR by (intros x; rewrite Hrx; specialize (Hnil x); tauto).
  exists ls, rs. split; [done|]. split; [done|]. simpl. split; [by apply filter_sorted|]. split; [by apply filter_sorted|].
  split; [intros x; by rewrite set_difference_has, HL, HR|]. split; [intros x; by rewrite set_difference_has, HL, HR|].
  split.
  - intros [H1 H2] x. pose proof (set_difference_has x l r) as D1. pose proof (set_difference_has x r l) as D2.
    rewrite H1, HL, HR in D1. rewrite H2, HL, HR in D2. specialize (Hnil x).
    destruct (set_contains x l) eqn:El, (set_contains x r) eqn:Er;
      rewrite <-?not_true_iff_false, set_contains_has in El; rewrite <-?not_true_iff_false, set_contains_has in Er;
      rewrite HL in El; rewrite HR in Er; tauto.
  - intros Hx. split; apply has_nil; intros x; rewrite set_difference_has, HL, HR; specialize (Hx x); tauto.
Qed.

(** Two archives with the same file, the path written in two ways, and a
    directory on one side. *)
Definition example_tar_entry (t : EntryType) (path data : string) : Entry :=
  {| e_path := bytes_of_string path; e_type := t; e_link_name := None; e_uid := Ok 0; e_gid := Ok 0; e_mtime := Ok 0;
     e_mode := Ok 420; e_size := Ok 0; e_pax := Ok None; e_data := bytes_of_string data |}.
Definition example_left : list (result Error Entry) :=
  [Ok (example_tar_entry Regular "a/b" "x"); Ok (example_tar_entry Directory "d/" "")].
Definition example_right : list (result Error Entry) := [Ok (example_tar_entry Regular "a//b" "x")].
Definition example_diffs : Diffs :=
  ok_default {| in_left_but_not_right := []; in_right_but_not_left := [] |} (tardiff (fun b => b) example_left example_right).

Lemma tardiff_exact_witness :
  t_path <$> in_left_but_not_right example_diffs = [bytes_of_string "d/"] /\
  in_right_but_not_left example_diffs = [] /\
  exists ls rs, read_as (fun b => b) example_left ls /\ read_as (fun b => b) example_right rs /\
    ~ (forall x, has x ls <-> has x rs).
Proof.
  split; [vm_compute; reflexivity|]. split; [vm_compute; reflexivity|].
  destruct (tardiff_exact (fun b => b) example_left example_right example_diffs)
    as (ls & rs & Hl & Hr & _ & _ & _ & _ & Hx); [apply ok_default_is_ok; vm_compute; reflexivity|].
  exists ls, rs. split; [exact Hl|]. split; [exact Hr|]. rewrite <-Hx. intros [H1 _]. vm_compute in H1. discriminate H1.
Defined.
