(* ===== verification/Mkfs.v ===== *)
(** Building an image with mkfs.erofs (src/peimage/src/mkfs.rs): the layers are
    squashed into a tar archive that is written to a named pipe, which the program
    reads.

    The file proves what a success means and which exits leave the pipe behind.
    The random name, the system calls and the program are parameters. *)
From stdpp Require Import option base list sets numbers strings gmap.
From Stdlib Require Import ZArith Lia.
From S2P Require Import Prelude BTree Paths Squash SquashTar.
#[local] Open Scope Z_scope.
#[local] Open Scope result_scope.

Inductive MkfsError := MErrno | MSpawn | MOpen | MSquash (e : Error) | MWait | MNonZeroExit.

(** The named pipes of the directory for temporary files, and the programs that
    were started. *)
Record Host := { pipes : gset bstr; started : list (bstr * list bstr) }.

Definition unlink (p : bstr) (h : Host) : Host := {| pipes := pipes h ∖ {[p]}; started := started h |}.

Section mkfs.
(** [sample_string] and [temp_dir]; whether the directory can be opened. *)
Context (rng temp_dir : bstr) (dir_ok : bool).
(** [spawn] and the opening of the pipe for writing can fail. *)
Context (spawn_ok : bstr -> list bstr -> bool) (open_ok : bstr -> bool).

Definition fifo_path : bstr := path_push temp_dir (bytes_of_string "pe-fifo-" ++ rng).

(** [mknodat] fails when the name exists. *)
Definition mkfifo (h : Host) : Host * result MkfsError bstr :=
  if dir_ok && negb (bool_decide (fifo_path ∈ pipes h))
  then ({| pipes := {[fifo_path]} ∪ pipes h; started := started h |}, Ok fifo_path)
  else (h, Err MErrno).

Definition mkfs_command (outfile fifo : bstr) : bstr * list bstr :=
  (bytes_of_string "mkfs.erofs",
   [bytes_of_string "--quiet"; bytes_of_string "--tar=f"; bytes_of_string "-zlz4"; outfile; fifo]).

Context {A R : Type} `{ArchiveBuilder A}.
Context (open_layer : Compression -> R -> result Error (list (result Error Entry))).
(** The program on what it read from the pipe: its exit code, if it can be waited
    for.  Errors of the last flush of the pipe are ignored. *)
Context (wait : A -> option bool).

(** [UnlinkFile] removes the pipe when the function is left, from where it is
    made. *)
Definition squash_erofs (layer_readers : list (Compression * R)) (outfile : bstr) (out : A) (h : Host)
    : Host * result MkfsError Stats :=
  match mkfifo h with
  | (h, Ok fifo) =>
      let '(bin, args) := mkfs_command outfile fifo in
      if negb (spawn_ok bin args) then (h, Err MSpawn) else
      let h := {| pipes := pipes h; started := started h ++ [(bin, args)] |} in
      if negb (open_ok fifo) then (h, Err MOpen) else
      (unlink fifo h,
       match squash_to_tar open_layer layer_readers out with
       | Ok (archive, stats) =>
           match wait archive with
           | Some true => Ok stats
           | Some false => Err MNonZeroExit
           | None => Err MWait
           end
       | Err e => Err (MSquash e)
       | Panic => Panic
       end)
  | (h, Err e) => (h, Err e)
  | (h, Panic) => (h, Panic)
  end.

(** A success: mkfs.erofs was started once, for this pipe and this image, it read an
    archive of exactly the entries that squashing keeps, in order, and ended
    successfully; and the pipe is gone.  A failure leaves the pipe exactly when the
    program could not be started or the pipe not be opened. *)
Theorem squash_erofs_spec layers outfile out h h' r :
  squash_erofs layers outfile out h = (h', r) ->
  (forall stats, r = Ok stats ->
     started h' = started h ++ [mkfs_command outfile fifo_path] /\
     exists kept a archive, squash_cb open_layer layers [] = Ok (kept, stats) /\ deliver kept out = Ok a /\
       finish_archive a = Ok archive /\ wait archive = Some true) /\
  (pipes h' = pipes h \/ pipes h' = {[fifo_path]} ∪ pipes h /\ (r = Err MSpawn \/ r = Err MOpen)).
Proof.
  unfold squash_erofs, mkfifo. destruct dir_ok; cbn [andb]; [|intros [= <- <-]; split; [done|by left]].
  case_bool_decide as Hp; [intros [= <- <-]; split; [done|by left]|]. cbn [negb mkfs_command].
  destruct (spawn_ok _ _); cbn [negb]; [|intros [= <- <-]; split; [done|right; split; [done|by left]]].
  destruct (open_ok _); cbn [negb]; [|intros [= <- <-]; split; [done|right; split; [done|by right]]].
  intros [= <- <-]. cbn [pipes started unlink]. split; [|left; set_solver].
  intros stats E. destruct (squash_to_tar _ _ _) as [[archive st]|e|] eqn:Es; [|done..].
  destruct (wait archive) as [[|]|] eqn:Ew; [|done..]. injection E as <-.
  apply squash_to_tar_spec in Es as (kept & a & Hk & Hd & Hf). split; [done|]. by exists kept, a, archive.
Qed.
End mkfs.

(** mkfs.erofs is not installed: the pipe stays. *)
Example pipe_left {A R} `{ArchiveBuilder A} open_layer wait (layers : list (Compression * R)) (out : A) :
  pipes (squash_erofs [x61] [x2f] true (fun _ _ => false) (fun _ => true) open_layer wait layers [x62] out
    {| pipes := ∅; started := [] |}).1 = {[ fifo_path [x61] [x2f] ]}.
Proof.
  unfold squash_erofs, mkfifo. rewrite bool_decide_eq_false_2 by (cbn [pipes]; set_solver).
  cbn [negb andb fst pipes]. apply (right_id_L ∅ (∪)).
Qed.
