(* ===== verification/IoFile.v ===== *)
(** The io file between host and guest (src/peinit/src/lib.rs,
    src/perunner/src/iofile.rs).

    The host writes the run's configuration and the user's archive into a memory
    file, rounds it up to the size a pmem device needs and seals it; the guest
    sees the same bytes as a device of that size, reads the configuration, and
    overwrites the device with its response and output archive, which the host
    reads back.  The file models the data that cross the boundary, the framing
    functions on both sides and the sealed file.  The bincode and JSON encoders
    are parameters. *)
From stdpp Require Import option base list numbers strings.
From Stdlib Require Import ZArith Lia.
From S2P Require Import Prelude MemFile BTree Paths.
#[local] Open Scope Z_scope.
#[local] Open Scope result_scope.
#[local] Opaque le_bytes.

(** * The data *)

Inductive RootfsKind := Sqfs | Erofs.

(** [try_from_path_name] *)
Definition RootfsKind_try_from_path_name (p : bstr) : option RootfsKind :=
  match extension p with
  | Some e =>
      if decide (e = bytes_of_string "sqfs") then Some Sqfs
      else if decide (e = bytes_of_string "erofs") then Some Erofs
      else None
  | None => None
  end.

Inductive ResponseFormat := PeArchiveV1 | JsonV1.

Record Duration := { d_secs : Z; d_nanos : Z }.

Record Config := {
  oci_runtime_config : bstr;
  timeout : Duration;
  stdin : option bstr;
  strace : bool;
  crun_debug : bool;
  rootfs_dir : option bstr;
  rootfs_kind : RootfsKind;
  response_format : ResponseFormat;
  kernel_inspect : bool;
  manifest_digest : bstr;
}.

Record TimeVal := { sec : Z; usec : Z }.

Inductive SigInfoRedux :=
  | Exited (status : Z)
  | Killed (status : Z)
  | Dumped (status : Z)
  | Stopped (status : Z)
  | Trapped (status : Z)
  | Continued (status : Z)
  | Unk (status code : Z).

Record Rusage := {
  ru_utime : TimeVal; ru_stime : TimeVal; ru_maxrss : Z; ru_ixrss : Z; ru_idrss : Z;
  ru_isrss : Z; ru_minflt : Z; ru_majflt : Z; ru_nswap : Z; ru_inblock : Z; ru_oublock : Z;
  ru_msgsnd : Z; ru_msgrcv : Z; ru_nsignals : Z; ru_nvcsw : Z; ru_nivcsw : Z;
}.

Inductive Response :=
  | ROk (siginfo : SigInfoRedux) (rusage : Rusage) (stdout stderr : option bstr)
        (manifest_digest : bstr)
  | ROvertime (siginfo : SigInfoRedux) (rusage : Rusage) (stdout stderr : option bstr)
        (manifest_digest : bstr)
  | RPanic (message : bstr).

(** [From<libc::siginfo_t>], on the code and the status of the [siginfo_t]. *)
Definition SigInfoRedux_from (si_code si_status : Z) : SigInfoRedux :=
  match si_code with
  | 1 => Exited si_status (* CLD_EXITED *)
  | 2 => Killed si_status (* CLD_KILLED *)
  | 3 => Dumped si_status (* CLD_DUMPED *)
  | 4 => Trapped si_status (* CLD_TRAPPED *)
  | 6 => Continued si_status (* CLD_CONTINUED *)
  | _ => Unk si_status si_code
  end.

Inductive Error := Io | Ser.

(** * Reading and writing *)

(** [std::io::Write], on the files of the protocol. *)
Class Write (W : Type) := io_write_all : list byte -> W -> option W.

(** A memory file that grows. *)
#[export] Instance write_memfd : Write Out := fun data f => Some (write_all data f).

(** A sealed file or a device: its size is fixed and a write past the end fails. *)
Record IoFile := { io_file : Out }.

Definition io_size (f : IoFile) : Z := zlen (o_bytes (io_file f)).

#[export] Instance write_iofile : Write IoFile := fun data f =>
  if o_pos (io_file f) + zlen data <=? io_size f
  then Some {| io_file := write_all data (io_file f) |} else None.

(** [read_exact] on a file. *)
Definition read_exact (n : Z) (f : Out) : option (list byte * Out) :=
  d ← get_range (o_bytes f) (o_pos f) (o_pos f + n);
  Some (d, seek (o_pos f + n) f).

Fixpoint write_u32_le_slice {W} `{Write W} (xs : list Z) (f : W) : option W :=
  match xs with
  | [] => Some f
  | x :: xs => f ← io_write_all (le_bytes 4 x) f; write_u32_le_slice xs f
  end.

Definition read_u32_le_pair (f : Out) : option (Z * Z * Out) :=
  '(buf, f) ← read_exact 8 f;
  Some (le_val (take 4 buf), le_val (drop 4 buf), f).

(** * The framing *)

Section framing.
(** bincode of the configuration and JSON of the response. *)
Context (bincode_encode : Config -> option (list byte))
        (bincode_decode : list byte -> option (Config * Z))
        (json_encode : Response -> option (list byte))
        (json_decode : list byte -> option Response).

Definition write_io_file_config {W} `{Write W} (f : W) (config : Config) (archive_size : Z)
    : result Error W :=
  let? config_bytes := ok_or (bincode_encode config) Ser in
  let? config_size := expect (try_into 32 (zlen config_bytes)) in
  let? f := ok_or (write_u32_le_slice [archive_size; config_size] f) Io in
  ok_or (io_write_all config_bytes f) Io.

Definition read_io_file_config (f : Out) : result Error (Z * Config * Out) :=
  let? '(archive_size, response_size, f) := ok_or (read_u32_le_pair f) Io in
  let? '(buf, f) := ok_or (read_exact response_size f) Io in
  let? '(config, _) := ok_or (bincode_decode buf) Ser in
  Ok (archive_size, config, f).

Definition write_io_file_response {W} `{Write W} (f : W) (response : Response) : result Error W :=
  let? response_bytes := ok_or (json_encode response) Ser in
  let? response_size := expect (try_into 32 (zlen response_bytes)) in
  let? f := ok_or (write_u32_le_slice [0; response_size] f) Io in
  ok_or (io_write_all response_bytes f) Io.

Definition read_io_file_response_bytes (f : Out) : result Error (Z * list byte * Out) :=
  let f := seek 0 f in
  let? '(archive_size, response_size, f) := ok_or (read_u32_le_pair f) Io in
  let? '(ret, f) := ok_or (read_exact response_size f) Io in
  Ok (archive_size, ret, f).

(** The length is computed in 32 bits; the cursor extends a vector that is too
    short for the size field. *)
Definition read_io_file_response_archive_bytes (f : Out) : result Error (list byte) :=
  let f := seek 0 f in
  let? '(archive_size, response_size, f) := ok_or (read_u32_le_pair f) Io in
  let n := wadd 32 (wadd 32 4 response_size) archive_size in
  let ret := put 0 (le_bytes 4 response_size) (replicate (Z.to_nat n) x00) in
  let? '(rest, _) := ok_or (read_exact (zlen ret - 4) f) Io in
  Ok (ztake 4 ret ++ rest).

Definition read_io_file_response (f : Out) : result Error (Z * Response) :=
  let? '(archive_size, response_bytes, _) := read_io_file_response_bytes f in
  let? response := ok_or (json_decode response_bytes) Ser in
  Ok (archive_size, response).
End framing.

(** * The sealed file *)

Definition PMEM_ALIGN_SIZE : Z := 2097152.

Definition round_up_to (N x : Z) : Z :=
  if x =? 0 then N else wmul 64 (div_ceil x N) N.

(** [ftruncate] *)
Definition ftruncate (n : Z) (bytes : list byte) : list byte :=
  ztake n bytes ++ replicate (Z.to_nat (n - zlen bytes)) x00.

Definition round_up_file_to_pmem_size (f : Out) : Z * Out :=
  let cur := zlen (o_bytes f) in
  let newlen := round_up_to PMEM_ALIGN_SIZE cur in
  (newlen,
   if cur =? newlen then f else {| o_bytes := ftruncate newlen (o_bytes f); o_pos := o_pos f |}).

Definition IoFileBuilder_new : Out := {| o_bytes := []; o_pos := 0 |}.

(** [finish] seals the size. *)
Definition finish (b : Out) : IoFile := {| io_file := snd (round_up_file_to_pmem_size b) |}.

(** Opening the device again starts at the beginning. *)
Definition reopen (f : IoFile) : IoFile := {| io_file := seek 0 (io_file f) |}.

(** * Lemmas *)

Lemma read_exact_range n f d :
  get_range (o_bytes f) (o_pos f) (o_pos f + n) = Some d ->
  read_exact n f = Some (d, seek (o_pos f + n) f).
Proof. unfold read_exact. by intros ->. Qed.

(** The two sizes in front of the payload. *)
Definition header (a b : Z) : list byte := le_bytes 4 a ++ le_bytes 4 b.

Lemma zlen_header a b : zlen (header a b) = 8.
Proof. unfold header. by rewrite zlen_app, !zlen_le_bytes. Qed.

Lemma read_u32_le_pair_header f a b :
  in_width 32 a -> in_width 32 b ->
  get_range (o_bytes f) (o_pos f) (o_pos f + 8) = Some (header a b) ->
  read_u32_le_pair f = Some (a, b, seek (o_pos f + 8) f).
Proof.
  intros Ha Hb Hr. unfold read_u32_le_pair. rewrite (read_exact_range 8 f _ Hr). cbn [mbind option_bind].
  unfold header. rewrite take_app_length', drop_app_length' by (by rewrite length_le_bytes).
  by rewrite !le_val_bytes.
Qed.

Lemma write_u32_pair {W} `{Write W} a b (f f1 f2 : W) :
  io_write_all (le_bytes 4 a) f = Some f1 -> io_write_all (le_bytes 4 b) f1 = Some f2 ->
  write_u32_le_slice [a; b] f = Some f2.
Proof. intros H1 H2. simpl. rewrite H1. simpl. by rewrite H2. Qed.

(** A frame of a header and a payload, written in three pieces, is one write. *)
Lemma write_frame_memfd a b data (f : Out) :
  0 <= o_pos f ->
  (f ← write_u32_le_slice [a; b] f; io_write_all data f) = Some (write_all (header a b ++ data) f).
Proof.
  intros Hp. rewrite (write_u32_pair a b f _ _ eq_refl eq_refl). simpl. unfold io_write_all, write_memfd.
  rewrite !write_all_app by (simpl; rewrite ?zlen_le_bytes; lia). unfold header. by rewrite <-app_assoc.
Qed.

Lemma zlen_write_all data o :
  0 <= o_pos o -> zlen (o_bytes (write_all data o)) = 
    if decide (data = []) then zlen (o_bytes o) else Z.max (o_pos o + zlen data) (zlen (o_bytes o)).
Proof. intros Hp. simpl. case_decide; [done|]. by apply zlen_put. Qed.

Lemma write_iofile_fits data (f : IoFile) :
  0 <= o_pos (io_file f) -> o_pos (io_file f) + zlen data <= io_size f ->
  exists f', io_write_all data f = Some f' /\ io_file f' = write_all data (io_file f) /\
    io_size f' = io_size f.
Proof.
  intros Hp Hle. unfold io_write_all, write_iofile.
  rewrite (proj2 (Z.leb_le _ _)) by done. eexists. split_and!; [done..|].
  unfold io_size at 1. simpl io_file. rewrite zlen_write_all by done.
  case_decide; [done|]. unfold io_size in *. lia.
Qed.

Lemma write_iofile_inv data (f f' : IoFile) :
  0 <= o_pos (io_file f) -> io_write_all data f = Some f' ->
  o_pos (io_file f) + zlen data <= io_size f /\ io_file f' = write_all data (io_file f) /\
  io_size f' = io_size f.
Proof.
  intros Hp H. assert (o_pos (io_file f) + zlen data <= io_size f) as Hle.
  { unfold io_write_all, write_iofile in H.
    destruct (Z.leb_spec (o_pos (io_file f) + zlen data) (io_size f)); done. }
  destruct (write_iofile_fits data f Hp Hle) as (f2 & Hw & ? & ?).
  rewrite Hw in H. by injection H as <-.
Qed.

Lemma write_frame_iofile a b data (f : IoFile) :
  0 <= o_pos (io_file f) -> o_pos (io_file f) + 8 + zlen data <= io_size f ->
  exists f', (f ← write_u32_le_slice [a; b] f; io_write_all data f) = Some f' /\
    io_file f' = write_all (header a b ++ data) (io_file f) /\ io_size f' = io_size f.
Proof.
  intros Hp Hle. pose proof (zlen_nonneg data).
  destruct (write_iofile_fits (le_bytes 4 a) f) as (f1 & W1 & E1 & S1);
    [done|rewrite zlen_le_bytes; lia|].
  destruct (write_iofile_fits (le_bytes 4 b) f1) as (f2 & W2 & E2 & S2);
    [rewrite E1; simpl; rewrite ?zlen_le_bytes; lia..|].
  destruct (write_iofile_fits data f2) as (f3 & W3 & E3 & S3);
    [rewrite E2, E1; simpl; rewrite ?zlen_le_bytes; lia..|].
  exists f3. rewrite (write_u32_pair a b f f1 f2 W1 W2). simpl. split; [done|]. split; [|congruence].
  rewrite E3, E2, E1, !write_all_app by (simpl; rewrite ?zlen_le_bytes; lia).
  unfold header. by rewrite <-app_assoc.
Qed.

Lemma write_frame_too_long a b data (f : IoFile) :
  0 <= o_pos (io_file f) -> io_size f < o_pos (io_file f) + 8 + zlen data ->
  (f ← write_u32_le_slice [a; b] f; io_write_all data f) = None.
Proof.
  intros Hp Hlt. pose proof (zlen_nonneg data). simpl.
  destruct (io_write_all (le_bytes 4 a) f) as [f1|] eqn:E1; [|done]. simpl.
  apply write_iofile_inv in E1 as (H1 & E1 & S1); [|done]. rewrite zlen_le_bytes in H1.
  assert (o_pos (io_file f1) = o_pos (io_file f) + 4) as P1 by (by rewrite E1).
  destruct (io_write_all (le_bytes 4 b) f1) as [f2|] eqn:E2; [|done]. simpl.
  apply write_iofile_inv in E2 as (H2 & E2 & S2); [|lia]. rewrite zlen_le_bytes in H2.
  assert (o_pos (io_file f2) = o_pos (io_file f) + 8) as P2 by (rewrite E2; simpl; rewrite P1, zlen_le_bytes; lia).
  destruct (io_write_all data f2) as [f3|] eqn:E3; [|done].
  apply write_iofile_inv in E3 as (H3 & _ & _); lia.
Qed.

(** Reading at the place of a write. *)
Lemma write_all_read data o :
  0 <= o_pos o -> o_pos o + zlen data <= zlen (o_bytes (write_all data o)) ->
  get_range (o_bytes (write_all data o)) (o_pos o) (o_pos o + zlen data) = Some data.
Proof.
  intros Hp Hle. unfold write_all in *. simpl o_bytes in *. case_decide as E; [|by apply put_read].
  subst data. change (zlen (@nil byte)) with 0 in *. unfold get_range.
  rewrite !(proj2 (Z.leb_le _ _)) by lia. simpl. f_equal. unfold ztake.
  by replace (Z.to_nat _) with O by lia.
Qed.

Lemma get_range_sub {A} (d x y z : list A) a :
  0 <= a -> get_range d a (a + zlen (x ++ y ++ z)) = Some (x ++ y ++ z) ->
  get_range d (a + zlen x) (a + zlen x + zlen y) = Some y.
Proof.
  intros Ha Hr. apply get_range_Some_inv in Hr as (pre & post & -> & Hp & _); [|done].
  rewrite <-Hp, <-!app_assoc. rewrite app_assoc. apply get_range_app; rewrite zlen_app; lia.
Qed.

(** Rounding up: the result is the least positive multiple of the alignment that
    is not below the size. *)
Lemma round_up_to_spec N x :
  0 < N -> 0 <= x -> x + N <= u64_max ->
  x <= round_up_to N x /\ 0 < round_up_to N x /\ (N | round_up_to N x) /\
  (forall m, 0 < m -> (N | m) -> x <= m -> round_up_to N x <= m).
Proof.
  intros HN Hx Hmax. unfold round_up_to, u64_max in *.
  destruct (Z.eqb_spec x 0) as [->|Hnz].
  - split_and!; [lia|lia|exists 1; lia|]. intros m Hm [k ->] _. assert (0 < k) by nia. nia.
  - pose proof (div_ceil_bounds x N Hx HN) as Hd.
    rewrite wmul_small by (unfold in_width; lia).
    split_and!; [lia|lia|by exists (div_ceil x N)|].
    intros m Hm [k ->] Hle. assert (div_ceil x N < k + 1) by nia. nia.
Qed.

(** Rounding a file up appends zeros. *)
Lemma finish_spec b :
  zlen (o_bytes b) + PMEM_ALIGN_SIZE <= u64_max ->
  exists n, io_file (finish b) =
      {| o_bytes := o_bytes b ++ replicate n x00; o_pos := o_pos b |} /\
    (PMEM_ALIGN_SIZE | io_size (finish b)) /\ 0 < io_size (finish b).
Proof.
  intros Hmax. pose proof (zlen_nonneg (o_bytes b)) as Hn.
  destruct (round_up_to_spec PMEM_ALIGN_SIZE (zlen (o_bytes b))) as (Hle & Hpos & Hdiv & _);
    [unfold PMEM_ALIGN_SIZE; lia|done..|].
  unfold io_size, finish, round_up_file_to_pmem_size. simpl io_file.
  set (n := round_up_to _ _) in *. clearbody n.
  destruct (Z.eqb_spec (zlen (o_bytes b)) n) as [E|Hne].
  - exists O. rewrite app_nil_r, E. split_and!; [by destruct b|done..].
  - exists (Z.to_nat (n - zlen (o_bytes b))). unfold ftruncate. simpl o_bytes.
    rewrite ztake_ge, zlen_app, zlen_replicate by lia.
    replace (zlen (o_bytes b) + Z.of_nat (Z.to_nat (n - zlen (o_bytes b)))) with n by lia. done.
Qed.

Lemma ok_or_bind {E A B} (c : option A) (k : A -> option B) (e : E) :
  (let? x := ok_or c e in ok_or (k x) e) = ok_or (c ≫= k) e.
Proof. by destruct c. Qed.

(** What a decoder owes its encoder. *)
Definition codec {A} (enc : A -> option (list byte)) (dec : list byte -> option A) : Prop :=
  forall x b, enc x = Some b -> dec b = Some x.

(** Reading a frame at the beginning of a file. *)
Lemma read_frame f a data :
  in_width 32 a -> in_width 32 (zlen data) -> o_pos f = 0 ->
  get_range (o_bytes f) 0 (8 + zlen data) = Some (header a (zlen data) ++ data) ->
  read_u32_le_pair f = Some (a, zlen data, seek 8 f) /\
  read_exact (zlen data) (seek 8 f) = Some (data, seek (8 + zlen data) f).
Proof.
  intros Ha Hd Hp Hr. pose proof (zlen_header a (zlen data)) as Hh. split.
  - rewrite (read_u32_le_pair_header f a (zlen data)); [by rewrite Hp|done..|].
    rewrite Hp. replace (0 + 8) with (0 + zlen (header a (zlen data))) by lia.
    apply (get_range_sub _ [] (header a (zlen data)) data 0); [done|].
    simpl. by rewrite zlen_app, Hh.
  - rewrite (read_exact_range _ (seek 8 f) data); [done|]. simpl.
    replace 8 with (0 + zlen (header a (zlen data))) at 1 2 by lia.
    apply (get_range_sub _ _ data [] 0); [done|].
    by rewrite app_nil_r, zlen_app, Hh.
Qed.

Lemma write_config_new bincode_encode c cb size :
  bincode_encode c = Some cb -> in_width 32 (zlen cb) ->
  write_io_file_config bincode_encode IoFileBuilder_new c size =
    Ok {| o_bytes := header size (zlen cb) ++ cb; o_pos := 8 + zlen cb |}.
Proof.
  intros He Hcb. unfold write_io_file_config. rewrite He. cbn [ok_or rbind].
  rewrite try_into_id by done. cbn [expect rbind]. rewrite ok_or_bind, write_frame_memfd by done.
  simpl. f_equal.
  unfold write_all, IoFileBuilder_new. simpl. rewrite zlen_app, zlen_header.
  rewrite decide_False by (intros Hn; apply (f_equal zlen) in Hn; rewrite zlen_app, zlen_header in Hn; len_lia).
  by rewrite (put_end _ [] : put 0 _ [] = _).
Qed.

Lemma write_response_fits json_encode f r j :
  json_encode r = Some j -> in_width 32 (zlen j) -> 8 + zlen j <= io_size f ->
  exists f', write_io_file_response json_encode (reopen f) r = Ok f' /\
    io_file f' = write_all (header 0 (zlen j) ++ j) (seek 0 (io_file f)) /\
    io_size f' = io_size f.
Proof.
  intros He Hj Hle. unfold write_io_file_response. rewrite He. cbn [ok_or rbind].
  rewrite try_into_id by done. cbn [expect rbind]. rewrite ok_or_bind.
  destruct (write_frame_iofile 0 (zlen j) j (reopen f)) as (f' & Hw & Hf & Hs);
    [done|exact Hle|]. exists f'. split; [|done]. by rewrite <-(ok_or_Ok _ Io) in Hw.
Qed.

(** The host's readers on a device that holds a frame and an archive. *)
Lemma read_response_bytes f a j :
  in_width 32 a -> in_width 32 (zlen j) ->
  get_range (o_bytes f) 0 (8 + zlen j) = Some (header a (zlen j) ++ j) ->
  read_io_file_response_bytes f = Ok (a, j, seek (8 + zlen j) f).
Proof.
  intros Ha Hj Hr. unfold read_io_file_response_bytes.
  destruct (read_frame (seek 0 f) a j) as [H1 H2]; [done..|].
  rewrite H1. cbn [ok_or rbind]. by rewrite H2.
Qed.

Lemma read_archive_bytes f j archive :
  4 + zlen j + zlen archive < 2 ^ 32 ->
  get_range (o_bytes f) 0 (8 + zlen (j ++ archive)) =
    Some (header (zlen archive) (zlen j) ++ j ++ archive) ->
  read_io_file_response_archive_bytes f = Ok (le_bytes 4 (zlen j) ++ j ++ archive).
Proof.
  intros Hs Hr. pose proof (zlen_nonneg j). pose proof (zlen_nonneg archive).
  pose proof (zlen_header (zlen archive) (zlen j)) as Hh. rewrite zlen_app in Hr.
  unfold read_io_file_response_archive_bytes.
  rewrite (read_u32_le_pair_header (seek 0 f) (zlen archive) (zlen j)); [|unfold in_width; lia..|].
  2: { simpl. replace 8 with (0 + zlen (header (zlen archive) (zlen j))) by lia.
       apply (get_range_sub _ [] _ (j ++ archive) 0); [done|]. simpl. by rewrite !zlen_app, Hh. }
  cbn [ok_or rbind]. rewrite (wadd_small 32 4), wadd_small by (unfold in_width; lia).
  set (n := 4 + zlen j + zlen archive) in *.
  assert (put 0 (le_bytes 4 (zlen j)) (replicate (Z.to_nat n) x00) =
    le_bytes 4 (zlen j) ++ replicate (Z.to_nat (n - 4)) x00) as ->.
  { unfold put, zdrop. rewrite zlen_replicate, zlen_le_bytes, drop_replicate.
    replace (Z.to_nat (0 - Z.of_nat (Z.to_nat n))) with O by lia.
    simpl. do 2 f_equal. lia. }
  rewrite zlen_app, zlen_le_bytes, zlen_replicate.
  replace (Z.of_nat 4 + Z.of_nat (Z.to_nat (n - 4)) - 4) with (zlen (j ++ archive)) by (rewrite zlen_app; lia).
  rewrite (read_exact_range _ _ (j ++ archive)).
  - cbn [ok_or rbind]. by rewrite ztake_app_le, ztake_ge by (by rewrite zlen_le_bytes).
  - simpl o_pos. rewrite Z.add_0_l. replace 8 with (0 + zlen (header (zlen archive) (zlen j))) by lia.
    apply (get_range_sub _ _ (j ++ archive) [] 0); [done|].
    by rewrite app_nil_r, !zlen_app, Hh.
Qed.

Lemma write_response_read f f' j :
  io_file f' = write_all (header 0 (zlen j) ++ j) (seek 0 (io_file f)) ->
  get_range (o_bytes (io_file f')) 0 (8 + zlen j) = Some (header 0 (zlen j) ++ j).
Proof.
  intros ->. pose proof (zlen_header 0 (zlen j)) as Hh. unfold write_all. simpl o_bytes.
  rewrite decide_False
    by (intros Hn; apply (f_equal zlen) in Hn; rewrite zlen_app, Hh in Hn; len_lia).
  replace (8 + zlen j) with (0 + zlen (header 0 (zlen j) ++ j)) by (by rewrite zlen_app, Hh).
  by apply put_read.
Qed.

(** The guest's view of a finished file that holds configuration and archive. *)
Lemma config_read bincode_encode bincode_decode c cb archive b :
  codec bincode_encode (fun b => fst <$> bincode_decode b) ->
  bincode_encode c = Some cb -> in_width 32 (zlen cb) -> in_width 32 (zlen archive) ->
  o_bytes b = header (zlen archive) (zlen cb) ++ cb ++ archive ->
  exists g, (PMEM_ALIGN_SIZE | io_size (finish b)) /\ 0 < io_size (finish b) /\
    read_io_file_config bincode_decode (io_file (reopen (finish b))) = Ok (zlen archive, c, g) /\
    get_range (o_bytes g) (o_pos g) (o_pos g + zlen archive) = Some archive.
Proof.
  intros Hcodec He Hcb Har Hb. exists (seek (8 + zlen cb) (seek 0 (io_file (finish b)))).
  pose proof (zlen_header (zlen archive) (zlen cb)) as Hh. unfold in_width in *.
  destruct (finish_spec b) as (n & Hf & Hdiv & Hpos).
  { rewrite Hb, !zlen_app, Hh. unfold PMEM_ALIGN_SIZE, u64_max. lia. }
  split; [done|]. split; [done|].
  change (io_file (reopen (finish b))) with (seek 0 (io_file (finish b))).
  rewrite Hf, Hb. unfold seek. simpl o_bytes.
  set (f := {| o_bytes := _; o_pos := 0 |}).
  destruct (read_frame f (zlen archive) cb) as [H1 H2]; [done..| |].
  { unfold f. simpl. rewrite <-!app_assoc, app_assoc. apply (get_range_app []); [done|].
    by rewrite zlen_app, Hh. }
  unfold read_io_file_config. rewrite H1. cbn [ok_or rbind]. rewrite H2. cbn [ok_or rbind].
  apply Hcodec in He. destruct (bincode_decode cb) as [[c' k]|]; [|done]. injection He as ->.
  split; [done|]. simpl. rewrite <-!app_assoc, app_assoc.
  apply get_range_app; by rewrite zlen_app, Hh.
Qed.

(** An archive written behind a configuration. *)
Lemma write_behind_config size cb archive :
  o_bytes (write_all archive {| o_bytes := header size (zlen cb) ++ cb; o_pos := 8 + zlen cb |}) =
    header size (zlen cb) ++ cb ++ archive.
Proof.
  unfold write_all. simpl. case_decide as E; [by rewrite E, app_nil_r|].
  replace (8 + zlen cb) with (zlen (header size (zlen cb) ++ cb)) by (by rewrite zlen_app, zlen_header).
  by rewrite put_end, <-app_assoc.
Qed.

Lemma deliver_config bincode_encode bincode_decode c cb archive :
  codec bincode_encode (fun b => fst <$> bincode_decode b) ->
  bincode_encode c = Some cb -> in_width 32 (zlen cb) -> in_width 32 (zlen archive) ->
  exists b g, write_io_file_config bincode_encode IoFileBuilder_new c (zlen archive) = Ok b /\
    let f := finish (write_all archive b) in
    (PMEM_ALIGN_SIZE | io_size f) /\ 0 < io_size f /\
    read_io_file_config bincode_decode (io_file (reopen f)) = Ok (zlen archive, c, g) /\
    get_range (o_bytes g) (o_pos g) (o_pos g + zlen archive) = Some archive.
Proof.
  intros Hcodec He Hcb Har. rewrite (write_config_new _ c cb) by done.
  destruct (config_read bincode_encode bincode_decode c cb archive _ Hcodec He Hcb Har
    (write_behind_config (zlen archive) cb archive)) as (g & Hg). by eexists _, g.
Qed.

(** * Properties *)

(** What the host sends is what the guest gets.  For every configuration
    and archive that fit their size fields, the host's writes succeed, the
    finished file has a positive multiple of the pmem alignment as its size, and
    the guest reads back the configuration and finds exactly the archive's bytes
    at its cursor. *)
Theorem config_delivered bincode_encode bincode_decode c cb archive :
  codec bincode_encode (fun b => fst <$> bincode_decode b) ->
  bincode_encode c = Some cb -> in_width 32 (zlen cb) -> in_width 32 (zlen archive) ->
  exists b g, write_io_file_config bincode_encode IoFileBuilder_new c (zlen archive) = Ok b /\
    let f := finish (write_all archive b) in
    (PMEM_ALIGN_SIZE | io_size f) /\ 0 < io_size f /\
    read_io_file_config bincode_decode (io_file (reopen f)) = Ok (zlen archive, c, g) /\
    get_range (o_bytes g) (o_pos g) (o_pos g + zlen archive) = Some archive.
Proof. apply deliver_config. Qed.

#[export] Instance RootfsKind_eq_dec : EqDecision RootfsKind.
Proof. solve_decision. Defined.
#[export] Instance ResponseFormat_eq_dec : EqDecision ResponseFormat.
Proof. solve_decision. Defined.
#[export] Instance Duration_eq_dec : EqDecision Duration.
Proof. solve_decision. Defined.
#[export] Instance Config_eq_dec : EqDecision Config.
Proof. solve_decision. Defined.

Definition config_with_digest (d : bstr) : Config := {|
  oci_runtime_config := bytes_of_string "{}"; timeout := {| d_secs := 1; d_nanos := 0 |};
  stdin := None; strace := false; crun_debug := false; rootfs_dir := None; rootfs_kind := Erofs;
  response_format := PeArchiveV1; kernel_inspect := false; manifest_digest := d |}.
Definition example_config : Config := config_with_digest [x61].

(** A codec of these configurations. *)
Definition example_bincode_encode (c : Config) : option (list byte) :=
  if decide (c = config_with_digest (manifest_digest c)) then Some (manifest_digest c) else None.
Definition example_bincode_decode (b : list byte) : option (Config * Z) :=
  Some (config_with_digest b, zlen b).

Lemma example_bincode_codec :
  codec example_bincode_encode (fun b => fst <$> example_bincode_decode b).
Proof.
  intros c b. unfold example_bincode_encode. case_decide as E; [|done]. intros [= <-].
  simpl. by rewrite <-E.
Qed.

Lemma config_delivered_witness :
  exists b g, write_io_file_config example_bincode_encode IoFileBuilder_new example_config
    (zlen [x01; x02]) = Ok b /\
    let f := finish (write_all [x01; x02] b) in
    (PMEM_ALIGN_SIZE | io_size f) /\ 0 < io_size f /\
    read_io_file_config example_bincode_decode (io_file (reopen f)) = Ok (zlen [x01; x02], example_config, g) /\
    get_range (o_bytes g) (o_pos g) (o_pos g + zlen [x01; x02]) = Some [x01; x02].
Proof.
  apply (config_delivered example_bincode_encode example_bincode_decode example_config [x61] [x01; x02]).
  - exact example_bincode_codec.
  - reflexivity.
  - split; vm_compute; congruence.
  - split; vm_compute; congruence.
Defined.

(** C24: a response reaches the host whatever the device held before: if header
    and JSON fit the device, the guest's write succeeds without changing its
    size, and each of the host's three readers returns the response, with an
    empty archive; if they do not fit, the write fails. *)
Theorem response_delivered json_encode json_decode f r j :
  codec json_encode json_decode -> json_encode r = Some j -> in_width 32 (zlen j) ->
  (8 + zlen j <= io_size f ->
   exists f', write_io_file_response json_encode (reopen f) r = Ok f' /\ io_size f' = io_size f /\
     read_io_file_response_bytes (io_file f') = Ok (0, j, seek (8 + zlen j) (io_file f')) /\
     read_io_file_response json_decode (io_file f') = Ok (0, r) /\
     (4 + zlen j < 2 ^ 32 ->
      read_io_file_response_archive_bytes (io_file f') = Ok (le_bytes 4 (zlen j) ++ j))) /\
  (io_size f < 8 + zlen j ->
   write_io_file_response json_encode (reopen f) r = Err Io).
Proof.
  intros Hcodec He Hj. split; intros Hle.
  - destruct (write_response_fits json_encode f r j He Hj Hle) as (f' & Hw & Hf & Hs).
    exists f'. split; [done|]. split; [done|].
    pose proof (write_response_read f f' j Hf) as Hr.
    pose proof (read_response_bytes _ 0 j ltac:(by split) Hj Hr) as Hb.
    split; [done|]. split.
    + unfold read_io_file_response. rewrite Hb. simpl. by rewrite (Hcodec _ _ He).
    + intros H4. rewrite (read_archive_bytes _ j []); rewrite ?app_nil_r; [done|..].
      * change (zlen (@nil byte)) with 0. lia.
      * exact Hr.
  - unfold write_io_file_response. rewrite He. cbn [ok_or rbind].
    rewrite try_into_id by done. cbn [expect rbind]. rewrite ok_or_bind.
    by rewrite write_frame_too_long.
Qed.

(** A JSON encoder for panic messages that need no escapes. *)
Definition example_json_encode (r : Response) : option (list byte) :=
  match r with RPanic m => Some m | _ => None end.

Lemma response_delivered_witness :
  let r := RPanic [x6f; x6f; x6d] in
  let f := {| io_file := {| o_bytes := replicate 16 xff; o_pos := 5 |} |} in
  (8 + zlen [x6f; x6f; x6d] <= io_size f ->
   exists f', write_io_file_response example_json_encode (reopen f) r = Ok f' /\
     io_size f' = io_size f /\
     read_io_file_response_bytes (io_file f') =
       Ok (0, [x6f; x6f; x6d], seek (8 + zlen [x6f; x6f; x6d]) (io_file f')) /\
     read_io_file_response (fun b => Some (RPanic b)) (io_file f') = Ok (0, r) /\
     (4 + zlen [x6f; x6f; x6d] < 2 ^ 32 ->
      read_io_file_response_archive_bytes (io_file f') =
        Ok (le_bytes 4 (zlen [x6f; x6f; x6d]) ++ [x6f; x6f; x6d]))) /\
  (io_size f < 8 + zlen [x6f; x6f; x6d] ->
   write_io_file_response example_json_encode (reopen f) r = Err Io).
Proof.
  apply (response_delivered example_json_encode (fun b => Some (RPanic b))
    {| io_file := {| o_bytes := replicate 16 xff; o_pos := 5 |} |} (RPanic [x6f; x6f; x6d])).
  - intros [] b; simpl; congruence.
  - reflexivity.
  - split; vm_compute; congruence.
Defined.
