(* ===== verification/RuntimeSpec.v ===== *)
(** Image configurations and the runtime specification made from them
    (src/peoci/src/spec.rs, src/perunner/src/lib.rs).

    [Spec] holds the reduced OCI types that the cache stores, with their
    conversions from and to the types of the oci_spec crate; [create_runtime_spec]
    combines an image's configuration with the request's overrides into the
    specification that the guest hands to crun.  Of the oci_spec types the file
    has the parts the code reads or sets; the rootless base specification and the
    seccomp policy are parameters. *)
From stdpp Require Import option base list sets numbers strings.
From Stdlib Require Import ZArith Lia Wf_nat.
From S2P Require Import Prelude BTree Text.
#[local] Open Scope Z_scope.
#[local] Open Scope result_scope.

(** * Types of the oci_spec crate *)

Module OciImage.
(** The variants the program names; the others by their printed form. *)
Inductive Arch := Amd64 | ARM64 | OtherArch (name : bstr).
Inductive Os := Linux | OtherOs (name : bstr).
Inductive DigestAlgorithm := Sha256 | OtherAlgorithm (name : bstr).
Inductive MediaType := ImageLayer | ImageLayerGzip | ImageLayerZstd | Other (name : bstr).
Record Digest := { algorithm : DigestAlgorithm; digest : bstr }.
Record Descriptor := { media_type : MediaType; desc_digest : Digest; size : Z }.
Record Config := {
  user : option bstr;
  exposed_ports : option (list bstr);
  env : option (list bstr);
  entrypoint : option (list bstr);
  cmd : option (list bstr);
  working_dir : option bstr;
  stop_signal : option bstr;
}.
Record ImageConfiguration := { architecture : Arch; os : Os; config : option Config }.

#[global] Instance Arch_eq_dec : EqDecision Arch.
Proof. solve_decision. Defined.
#[global] Instance Os_eq_dec : EqDecision Os.
Proof. solve_decision. Defined.
#[global] Instance DigestAlgorithm_eq_dec : EqDecision DigestAlgorithm.
Proof. solve_decision. Defined.
#[global] Instance Digest_eq_dec : EqDecision Digest.
Proof. solve_decision. Defined.
End OciImage.

(** * The reduced types *)

Module Spec.
Inductive Error :=
  | UnhandledMediaType (s : bstr)
  | BadDigest
  | UnhandledDigest (s : bstr)
  | UnhandledOs (s : bstr)
  | UnhandledArch (s : bstr).

Inductive Os := Linux.
Inductive Arch := Amd64 | Arm64.
Inductive MediaType := ImageLayer | ImageLayerGzip | ImageLayerZstd | DockerImageLayerGzip.
(** [Sha256]: 32 bytes. *)
Inductive Digest := Sha256 (data : list byte).
Record LayerDescriptor := { ld_media_type : MediaType; ld_digest : Digest; ld_size : Z }.
Record ImageManifest := { layers : list LayerDescriptor }.
(** The reduced [Config] has all the fields of the one it is cloned from. *)
Definition Config := OciImage.Config.
Record ImageConfiguration := { architecture : Arch; os : Os; config : option Config }.

#[global] Instance Arch_eq_dec : EqDecision Arch.
Proof. solve_decision. Defined.
#[global] Instance Os_eq_dec : EqDecision Os.
Proof. solve_decision. Defined.

Definition DOCKER_LAYER_GZIP : bstr :=
  bytes_of_string "application/vnd.docker.image.rootfs.diff.tar.gzip".

Definition Os_try_from (o : OciImage.Os) : result Error Os :=
  match o with OciImage.Linux => Ok Linux | OciImage.OtherOs s => Err (UnhandledOs s) end.

Definition Arch_try_from (a : OciImage.Arch) : result Error Arch :=
  match a with
  | OciImage.Amd64 => Ok Amd64
  | OciImage.ARM64 => Ok Arm64
  | OciImage.OtherArch s => Err (UnhandledArch s)
  end.

(** [decode_to_slice] needs exactly [n] bytes. *)
Definition hex_decode_n (n : nat) (s : bstr) : result Error (list byte) :=
  match hex_decode s with
  | Some d => if decide (length d = n) then Ok d else Err BadDigest
  | None => Err BadDigest
  end.

Definition Digest_try_from (d : OciImage.Digest) : result Error Digest :=
  match OciImage.algorithm d with
  | OciImage.Sha256 => rmap Sha256 (hex_decode_n 32 (OciImage.digest d))
  | OciImage.OtherAlgorithm a => Err (UnhandledDigest a)
  end.

(** [TryFrom<&str>] *)
Definition Digest_try_from_str (s : bstr) : result Error Digest :=
  match split_once x3a s with
  | Some (a, data) =>
      if decide (a = bytes_of_string "sha256") then rmap Sha256 (hex_decode_n 32 data)
      else Err (UnhandledDigest a)
  | None => Err BadDigest
  end.

Definition MediaType_try_from (m : OciImage.MediaType) (m_to_string : bstr)
    : result Error MediaType :=
  match m with
  | OciImage.ImageLayer => Ok ImageLayer
  | OciImage.ImageLayerGzip => Ok ImageLayerGzip
  | OciImage.ImageLayerZstd => Ok ImageLayerZstd
  | OciImage.Other s =>
      if decide (s = DOCKER_LAYER_GZIP) then Ok DockerImageLayerGzip
      else Err (UnhandledMediaType m_to_string)
  end.

(** The printed form of a media type; only that of [Other] is used. *)
Definition media_type_string (m : OciImage.MediaType) : bstr :=
  match m with OciImage.Other s => s | _ => [] end.

Definition LayerDescriptor_try_from (d : OciImage.Descriptor) : result Error LayerDescriptor :=
  let m := OciImage.media_type d in
  let? mt := MediaType_try_from m (media_type_string m) in
  let? dg := Digest_try_from (OciImage.desc_digest d) in
  Ok {| ld_media_type := mt; ld_digest := dg; ld_size := OciImage.size d |}.

Fixpoint collect_layers (l : list OciImage.Descriptor) : result Error (list LayerDescriptor) :=
  match l with
  | [] => Ok []
  | d :: l =>
      let? x := LayerDescriptor_try_from d in
      let? xs := collect_layers l in Ok (x :: xs)
  end.

Definition ImageManifest_try_from (layers : list OciImage.Descriptor) : result Error ImageManifest :=
  rmap Build_ImageManifest (collect_layers layers).

Definition ImageConfiguration_try_from (ic : OciImage.ImageConfiguration)
    : result Error ImageConfiguration :=
  let? a := Arch_try_from (OciImage.architecture ic) in
  let? o := Os_try_from (OciImage.os ic) in
  Ok {| architecture := a; os := o; config := OciImage.config ic |}.

(** ** And back *)

Definition MediaType_into (m : MediaType) : OciImage.MediaType :=
  match m with
  | ImageLayer => OciImage.ImageLayer
  | ImageLayerGzip => OciImage.ImageLayerGzip
  | ImageLayerZstd => OciImage.ImageLayerZstd
  | DockerImageLayerGzip => OciImage.Other DOCKER_LAYER_GZIP
  end.

(** [hex::encode] gives the lower-case digits that [Sha256Digest] accepts. *)
Definition Digest_into (d : Digest) : OciImage.Digest :=
  match d with
  | Sha256 data => {| OciImage.algorithm := OciImage.Sha256; OciImage.digest := hex_encode data |}
  end.

Definition LayerDescriptor_into (d : LayerDescriptor) : OciImage.Descriptor :=
  {| OciImage.media_type := MediaType_into (ld_media_type d);
     OciImage.desc_digest := Digest_into (ld_digest d); OciImage.size := ld_size d |}.
End Spec.

(** * The runtime specification *)

Inductive Error := BadArch | BadOs | BadArgs | EmptyUser | UnhandledUser | OciUser.

Definition UID : Z := 1000.
Definition NIDS : Z := 65534.

Record User := { u_uid : Z; u_gid : Z }.
Record Mount := { destination : bstr; typ : bstr; source : option bstr; options : list bstr }.
Record IdMapping := { host_id : Z; container_id : Z; map_size : Z }.
Inductive LinuxNamespaceType := Network | OtherNamespace (name : bstr).

Record Process := {
  args : option (list bstr); env : option (list bstr); user : User; cwd : bstr;
}.
Record LinuxSpec (S : Type) := {
  uid_mappings : option (list IdMapping);
  gid_mappings : option (list IdMapping);
  namespaces : option (list LinuxNamespaceType);
  seccomp : option S;
}.
Arguments uid_mappings {S}. Arguments gid_mappings {S}. Arguments namespaces {S}.
Arguments seccomp {S}.
Record RuntimeSpec (S : Type) := {
  hostname : option bstr;
  linux : option (LinuxSpec S);
  mounts : option (list Mount);
  process : option Process;
}.
Arguments hostname {S}. Arguments linux {S}. Arguments mounts {S}. Arguments process {S}.

Definition parse_user_string (s : bstr) : result Error User :=
  if decide (s = []) then Err EmptyUser
  else match parse_uint 32 s with
  | Some uid => Ok {| u_uid := uid; u_gid := uid |}
  | None =>
      (* splitn(2, ":"): the second part is the rest *)
      match split_once x3a s with
      | Some (a, b) =>
          match parse_uint 32 a, parse_uint 32 b with
          | Some uid, Some gid => Ok {| u_uid := uid; u_gid := gid |}
          | _, _ => Err UnhandledUser
          end
      | None => Err UnhandledUser
      end
  end.

Section runtime_spec.
Context {S : Type}.
(** [Spec::rootless] and the parsed seccomp policy. *)
Context (rootless : Z -> Z -> RuntimeSpec S) (SECCOMP : S).

Definition id_map : IdMapping := {| host_id := UID; container_id := 0; map_size := NIDS |}.
Definition tmp_mount : Mount :=
  {| destination := bytes_of_string "/tmp"; typ := bytes_of_string "tmpfs"; source := None;
     options := [bytes_of_string "size=50%"; bytes_of_string "mode=777"] |}.
Definition input_mount : Mount :=
  {| destination := bytes_of_string "/run/pe/input"; typ := bytes_of_string "bind";
     source := Some (bytes_of_string "/run/input");
     options := [bytes_of_string "rw"; bytes_of_string "rbind"] |}.
Definition output_mount : Mount :=
  {| destination := bytes_of_string "/run/pe/output"; typ := bytes_of_string "bind";
     source := Some (bytes_of_string "/run/output/dir");
     options := [bytes_of_string "rw"; bytes_of_string "rbind"] |}.
Definition default_path : bstr :=
  bytes_of_string "PATH=/usr/local/sbin:/usr/local/bin:/usr/sbin:/usr/bin:/sbin:/bin".

(** The vector [args] of the code. *)
Definition spec_args (image_config : option Spec.Config) (entrypoint cmd : option (list bstr))
    : list bstr :=
  match image_config with
  | Some config =>
      match entrypoint, OciImage.entrypoint config with
      | Some xs, _ => xs
      | None, Some xs => xs
      | _, _ => []
      end ++
      match cmd, OciImage.cmd config with
      | Some xs, _ => xs
      | None, Some xs => xs
      | _, _ => []
      end
  | None =>
      match entrypoint with Some xs => xs | None => [] end ++
      match cmd with Some xs => xs | None => [] end
  end.

Definition spec_env (image_config : option Spec.Config) (env : option (list bstr)) : list bstr :=
  default_path ::
  match env with
  | Some env => env
  | None =>
      match image_config with
      | Some config => match OciImage.env config with Some env => env | None => [] end
      | None => []
      end
  end.

(** The last block: user and working directory of the image. *)
Definition set_user_cwd (image_config : option Spec.Config) (p : Process) : result Error Process :=
  match image_config with
  | Some config =>
      let? p :=
        match OciImage.user config with
        | Some s =>
            if decide (s = []) then Ok p
            else
              let? u := parse_user_string s in
              Ok {| args := args p; env := env p; user := u; cwd := cwd p |}
        | None => Ok p
        end in
      match OciImage.working_dir config with
      | Some d =>
          if decide (d = []) then Ok p
          else Ok {| args := args p; env := env p; user := user p; cwd := d |}
      | None => Ok p
      end
  | None => Ok p
  end.

Definition create_runtime_spec (image_config : Spec.ImageConfiguration)
    (entrypoint cmd req_env : option (list bstr)) : result Error (RuntimeSpec S) :=
  if decide (Spec.architecture image_config <> Spec.Amd64) then Err BadArch
  else if decide (Spec.os image_config <> Spec.Linux) then Err BadOs
  else
    let spec := rootless UID UID in
    let? l := expect (linux spec) in
    let? ns := expect (namespaces l) in
    let l := {| uid_mappings := Some [id_map]; gid_mappings := Some [id_map];
                namespaces := Some (ns ++ [Network]); seccomp := Some SECCOMP |} in
    let? ms := expect (mounts spec) in
    let ms := ms ++ [tmp_mount; input_mount; output_mount] in
    let? p := expect (process spec) in
    let a := spec_args (Spec.config image_config) entrypoint cmd in
    if decide (a = []) then Err BadArgs
    else
      let p := {| args := Some a; env := Some (spec_env (Spec.config image_config) req_env);
                  user := user p; cwd := cwd p |} in
      let? p := set_user_cwd (Spec.config image_config) p in
      Ok {| hostname := Some (bytes_of_string "programexplorer"); linux := Some l;
            mounts := Some ms; process := Some p |}.
End runtime_spec.

(** * Lemmas *)

(** The lower-case digests that [oci_spec] accepts. *)
Definition lower_hex (s : bstr) : Prop :=
  Forall (fun b => exists n, 0 <= n < 16 /\ b = hex_digit n) s.

Lemma hex_encode_decode s d : lower_hex s -> hex_decode s = Some d -> hex_encode d = s.
Proof.
  revert d. induction s as [s IH] using (induction_ltof1 _ (@length byte)). unfold ltof in IH.
  intros d Hs. destruct s as [|a [|b s]]; [by intros [= <-]|done|]. cbn [hex_decode].
  apply Forall_cons in Hs as [(x & Hx & ->) Hs]. apply Forall_cons in Hs as [(y & Hy & ->) Hs].
  rewrite !hex_val_digit by done. simpl. destruct (hex_decode s) as [d'|] eqn:E; [|done].
  intros [= <-]. rewrite hex_encode_cons, (IH s) by (done || simpl; lia).
  rewrite byte_val_of, Z.mod_small by lia.
  replace ((16 * x + y) / 16) with x by (apply Z.div_unique with y; lia).
  by replace ((16 * x + y) mod 16) with y by (apply Z.mod_unique with x; lia).
Qed.

Lemma hex_encode_lower d : lower_hex (hex_encode d).
Proof.
  induction d as [|b d IH]; [constructor|]. rewrite hex_encode_cons.
  pose proof (byte_val_range b). pose proof (Z.div_mod (byte_val b) 16 ltac:(lia)).
  pose proof (Z.mod_pos_bound (byte_val b) 16 ltac:(lia)).
  constructor; [eexists; split; [|done]; lia|]. constructor; [eexists; split; [|done]; lia|done].
Qed.

Lemma hex_decode_n_Ok n s d : Spec.hex_decode_n n s = Ok d <-> hex_decode s = Some d /\ length d = n.
Proof.
  unfold Spec.hex_decode_n. destruct (hex_decode s); [case_decide|]; naive_solver.
Qed.

Lemma media_type_back m s mt : Spec.MediaType_try_from m s = Ok mt -> Spec.MediaType_into mt = m.
Proof.
  destruct m as [| | |n]; simpl; [by intros [= <-]..|].
  case_decide as E; [|done]. intros [= <-]. by rewrite E.
Qed.

Lemma media_type_forth m s : Spec.MediaType_try_from (Spec.MediaType_into m) s = Ok m.
Proof. by destruct m. Qed.

(** The settings of an image that are empty are as if they were not there. *)
Definition nonempty (o : option bstr) : option bstr := s ← o; if decide (s = []) then None else Some s.

(** The user that a string names: a number for both ids, or two with a colon. *)
Definition names_user (s : bstr) (u : User) : Prop :=
  (parse_uint 32 s = Some (u_uid u) /\ u_gid u = u_uid u) \/
  (parse_uint 32 s = None /\ exists a b, s = a ++ x3a :: b /\ x3a ∉ a /\
     parse_uint 32 a = Some (u_uid u) /\ parse_uint 32 b = Some (u_gid u)).

Lemma parse_user_string_Ok s u : s <> [] -> parse_user_string s = Ok u <-> names_user s u.
Proof.
  intros Hs. unfold parse_user_string, names_user. rewrite decide_False by done. split.
  - destruct (parse_uint 32 s) as [n|] eqn:En; [intros [= <-]; by left|].
    destruct (split_once x3a s) as [[a b]|] eqn:E; [|done]. apply split_once_Some in E as [-> Ha].
    destruct (parse_uint 32 a) eqn:Ea; [|done]. destruct (parse_uint 32 b) eqn:Eb; [|done].
    intros [= <-]. right. split; [done|]. by exists a, b.
  - destruct u as [ui gi]. simpl. intros [[-> ->]|(-> & a & b & -> & Ha & Hpa & Hpb)]; [done|].
    by rewrite split_once_app, Hpa, Hpb.
Qed.

(** What the last block makes of the image's settings. *)
Definition user_cwd_of (c : option Spec.Config) (p p' : Process) : Prop :=
  match nonempty (c ≫= OciImage.user) with
  | Some s => names_user s (user p')
  | None => user p' = user p
  end /\ cwd p' = default (cwd p) (nonempty (c ≫= OciImage.working_dir)).

(** The last block fails only on a user string that names no user, and keeps args
    and env. *)
Lemma set_user_cwd_spec c p :
  match set_user_cwd c p with
  | Ok p' => args p' = args p /\ env p' = env p /\ user_cwd_of c p p'
  | Err e => (e = UnhandledUser \/ e = EmptyUser) /\
      exists s, nonempty (c ≫= OciImage.user) = Some s /\ forall u, ~ names_user s u
  | Panic => False
  end.
Proof.
  unfold set_user_cwd, user_cwd_of. destruct c as [c|]; [|done]. simpl.
  destruct (OciImage.user c) as [s|]; simpl.
  - destruct (decide (s = [])) as [->|Hs]; simpl.
    + destruct (OciImage.working_dir c) as [d|]; simpl; [case_decide|]; done.
    + destruct (parse_user_string s) as [u|e|] eqn:E; simpl.
      * apply parse_user_string_Ok in E; [|done].
        destruct (OciImage.working_dir c) as [d|]; simpl; [case_decide|]; done.
      * split.
        { unfold parse_user_string in E. rewrite decide_False in E by done.
          left. repeat case_match; by simplify_eq. }
        exists s. split; [done|]. intros u Hu%parse_user_string_Ok; congruence.
      * unfold parse_user_string in E. rewrite decide_False in E by done. repeat case_match; by simplify_eq.
  - destruct (OciImage.working_dir c) as [d|]; simpl; [case_decide|]; done.
Qed.

(** An override wins over the image's setting. *)
Definition or_image {A} (request : option A) (image : option A) : option A :=
  match request with Some x => Some x | None => image end.

Lemma spec_args_or c ep cmd :
  spec_args c ep cmd =
    default [] (or_image ep (c ≫= OciImage.entrypoint)) ++
    default [] (or_image cmd (c ≫= OciImage.cmd)).
Proof.
  unfold spec_args, or_image. destruct c as [[u x e ie ic w t]|], ep, cmd; simpl; try done;
    destruct ie; try done; by destruct ic.
Qed.

Lemma spec_env_or c e :
  spec_env c e = default_path :: default [] (or_image e (c ≫= OciImage.env)).
Proof.
  unfold spec_env, or_image. destruct e, c as [c|]; done.
Qed.

(** * Properties *)

(** A layer descriptor survives the cache.  A descriptor that the reduced
    type accepts (its digest in lower case, as oci_spec guarantees) is given
    back unchanged, so the layer that is fetched later is the one the manifest
    named; and every reduced descriptor converts to one that is accepted and
    gives it back. *)
Theorem layer_descriptor_roundtrip od d :
  (Spec.LayerDescriptor_try_from od = Ok d -> lower_hex (OciImage.digest (OciImage.desc_digest od)) ->
   Spec.LayerDescriptor_into d = od) /\
  (forall data, Spec.ld_digest d = Spec.Sha256 data -> length data = 32%nat ->
   Spec.LayerDescriptor_try_from (Spec.LayerDescriptor_into d) = Ok d).
Proof.
  split.
  - destruct od as [m [a s] z]. unfold Spec.LayerDescriptor_try_from. simpl. intros H Hs.
    destruct (Spec.MediaType_try_from _ _) as [mt| |] eqn:Hm; [|done..]. simpl in H.
    apply media_type_back in Hm. unfold Spec.Digest_try_from in H. simpl in H.
    destruct a as [|a]; [|done].
    destruct (Spec.hex_decode_n 32 s) as [data| |] eqn:Hd; [|done..]. injection H as <-.
    apply hex_decode_n_Ok in Hd as [Hd _]. unfold Spec.LayerDescriptor_into. simpl.
    by rewrite Hm, (hex_encode_decode s data).
  - intros data Hd Hl. destruct d as [m dg z]. simpl in Hd. subst dg.
    unfold Spec.LayerDescriptor_try_from, Spec.LayerDescriptor_into. simpl.
    rewrite media_type_forth. simpl. unfold Spec.Digest_try_from. simpl.
    by rewrite (proj2 (hex_decode_n_Ok 32 (hex_encode data) data)) by (by rewrite hex_decode_encode).
Qed.

Definition example_layer : Spec.LayerDescriptor :=
  {| Spec.ld_media_type := Spec.DockerImageLayerGzip;
     Spec.ld_digest := Spec.Sha256 (replicate 32 xab); Spec.ld_size := 10 |}.

Lemma layer_descriptor_roundtrip_witness :
  (Spec.LayerDescriptor_try_from (Spec.LayerDescriptor_into example_layer) = Ok example_layer /\
   Spec.LayerDescriptor_into example_layer = Spec.LayerDescriptor_into example_layer).
Proof.
  split.
  - apply (proj2 (layer_descriptor_roundtrip (Spec.LayerDescriptor_into example_layer) example_layer)
      (replicate 32 xab)); reflexivity.
  - apply (proj1 (layer_descriptor_roundtrip (Spec.LayerDescriptor_into example_layer) example_layer));
      [vm_compute; reflexivity | apply (hex_encode_lower (replicate 32 xab))].
Defined.

(** C34: the runtime specification of a run.  For a base specification with the
    parts the code expects, creation never panics and refuses exactly every
    architecture but amd64, an empty command line and a user of the image that is
    neither a number nor two numbers with a colon.  Otherwise the process runs the
    request's entrypoint and command where given and the image's where not, in
    this order; its environment starts with the default PATH, followed by the
    request's variables or else the image's; its user has the uid and gid of the
    image's user and its directory is the image's working directory, each as in
    the base specification when the image has none; the container has a network
    namespace of its own, and ids are mapped from 1000 upwards, so no container
    user is the host's root. *)
Theorem runtime_spec_contents {S} (rootless : Z -> Z -> RuntimeSpec S) SECCOMP ic ep cmd renv l ns ms p :
  linux (rootless UID UID) = Some l -> namespaces l = Some ns ->
  mounts (rootless UID UID) = Some ms -> process (rootless UID UID) = Some p ->
  let a := default [] (or_image ep (Spec.config ic ≫= OciImage.entrypoint)) ++
           default [] (or_image cmd (Spec.config ic ≫= OciImage.cmd)) in
  let image_user := nonempty (Spec.config ic ≫= OciImage.user) in
  let r := create_runtime_spec rootless SECCOMP ic ep cmd renv in
  r <> Panic /\
  (r = Err BadArch <-> Spec.architecture ic <> Spec.Amd64) /\
  (r = Err BadArgs <-> Spec.architecture ic = Spec.Amd64 /\ a = []) /\
  ((exists spec, r = Ok spec) <-> Spec.architecture ic = Spec.Amd64 /\ a <> [] /\
     forall s, image_user = Some s -> exists u, names_user s u) /\
  (forall spec, r = Ok spec -> a <> [] /\ exists p' l',
     process spec = Some p' /\ linux spec = Some l' /\ args p' = Some a /\
     env p' = Some (default_path :: default [] (or_image renv (Spec.config ic ≫= OciImage.env))) /\
     match image_user with
     | Some s => names_user s (user p')
     | None => user p' = user p
     end /\
     cwd p' = default (cwd p) (nonempty (Spec.config ic ≫= OciImage.working_dir)) /\
     mounts spec = Some (ms ++ [tmp_mount; input_mount; output_mount]) /\
     namespaces l' = Some (ns ++ [Network]) /\ seccomp l' = Some SECCOMP /\
     uid_mappings l' = Some [id_map] /\ gid_mappings l' = Some [id_map] /\ 0 < host_id id_map).
Proof.
  intros Hl Hns Hms Hp a image_user r.
  assert (Spec.os ic = Spec.Linux) as Hos by (by destruct (Spec.os ic)).
  assert (r = if decide (Spec.architecture ic <> Spec.Amd64) then Err BadArch
    else if decide (a = []) then Err BadArgs
    else rmap (fun p' => {| hostname := Some (bytes_of_string "programexplorer");
      linux := Some {| uid_mappings := Some [id_map]; gid_mappings := Some [id_map];
                       namespaces := Some (ns ++ [Network]); seccomp := Some SECCOMP |};
      mounts := Some (ms ++ [tmp_mount; input_mount; output_mount]); process := Some p' |})
      (set_user_cwd (Spec.config ic)
        {| args := Some a; env := Some (spec_env (Spec.config ic) renv);
           user := user p; cwd := cwd p |})) as ->.
  { subst r a. unfold create_runtime_spec. rewrite Hl, Hms, Hp. simpl. rewrite Hns. simpl.
    rewrite spec_args_or. rewrite (decide_False (P := Spec.os ic <> Spec.Linux)) by naive_solver.
    repeat case_decide; done. }
  destruct (decide (Spec.architecture ic <> Spec.Amd64)) as [Harch|Harch].
  { split_and!; [done|done|by split; [|intros [? _]]|by split; [intros [? ?]|intros [? _]]|done]. }
  assert (Spec.architecture ic = Spec.Amd64) as Hamd by by apply dec_stable.
  destruct (decide (a = [])) as [Hnil|Hnil].
  { split_and!; [done|by split; [|intros ?%Harch]|done|by split; [intros [? ?]|intros (_ & ? & _)]|done]. }
  pose proof (set_user_cwd_spec (Spec.config ic)
    {| args := Some a; env := Some (spec_env (Spec.config ic) renv); user := user p; cwd := cwd p |}) as Hs.
  rewrite spec_env_or in *. unfold user_cwd_of in Hs. fold image_user in Hs.
  destruct (set_user_cwd _ _) as [p'|e|]; [| |done]; simpl in *.
  - destruct Hs as (Ha & He & Hu & Hcwd). split_and!; [done|by split; [|intros ?%Harch]|by split; [|intros [_ ?]]| |].
    + split; [|by eexists]. intros _. split_and!; [done|done|]. intros s Hs. rewrite Hs in Hu. by eexists.
    + intros spec [= <-]. split; [done|]. do 2 eexists. split_and!; done.
  - destruct Hs as (He & s & Hs & Hn). split_and!; [done| | | |done].
    + split; [by destruct He as [-> | ->]|by intros ?%Harch].
    + split; [by destruct He as [-> | ->]|by intros [_ ?]].
    + split; [by intros [? ?]|]. intros (_ & _ & Hu). destruct (Hu s Hs) as [u ?]. by destruct (Hn u).
Qed.

(** A base specification with the expected parts. *)
Definition example_rootless (_ _ : Z) : RuntimeSpec unit :=
  {| hostname := None;
     linux := Some {| uid_mappings := None; gid_mappings := None; namespaces := Some [];
                      seccomp := None |};
     mounts := Some [];
     process := Some {| args := None; env := None; user := {| u_uid := 0; u_gid := 0 |};
                        cwd := [x2f] |} |}.

Definition example_image : Spec.ImageConfiguration :=
  {| Spec.architecture := Spec.Amd64; Spec.os := Spec.Linux;
     Spec.config := Some {| OciImage.user := Some (bytes_of_string "12:34");
       OciImage.exposed_ports := None; OciImage.env := Some [bytes_of_string "A=1"];
       OciImage.entrypoint := Some [bytes_of_string "sh"]; OciImage.cmd := Some [bytes_of_string "x"];
       OciImage.working_dir := Some (bytes_of_string "/srv"); OciImage.stop_signal := None |} |}.

Lemma runtime_spec_contents_witness :
  let r := create_runtime_spec example_rootless tt example_image None (Some [[x79]]) None in
  r <> Panic /\ exists spec p l, r = Ok spec /\ process spec = Some p /\ linux spec = Some l /\
    args p = Some [bytes_of_string "sh"; [x79]] /\
    env p = Some [default_path; bytes_of_string "A=1"] /\
    user p = {| u_uid := 12; u_gid := 34 |} /\ cwd p = bytes_of_string "/srv" /\ namespaces l = Some [Network].
Proof.
  destruct (runtime_spec_contents example_rootless tt example_image None (Some [[x79]]) None
    {| uid_mappings := None; gid_mappings := None; namespaces := Some []; seccomp := None |} [] []
    {| args := None; env := None; user := {| u_uid := 0; u_gid := 0 |}; cwd := [x2f] |}
    eq_refl eq_refl eq_refl eq_refl) as (Hp & _ & _ & _ & Hc).
  split; [exact Hp|].
  destruct (create_runtime_spec _ _ _ _ _ _) as [spec| |] eqn:E; [|vm_compute in E; discriminate E..].
  destruct (Hc spec eq_refl) as (_ & p & l & Hpr & Hl & Ha & He & Hu & Hcwd & _ & Hns & _).
  exists spec, p, l. split_and!; [reflexivity|exact Hpr|exact Hl|exact Ha|exact He| |exact Hcwd|exact Hns].
  destruct (user p) as [ui gi]. destruct Hu as [[Hu _]|(_ & a & b & Hab & Hn & Hpa & Hpb)]; [vm_compute in Hu; discriminate Hu|].
  assert (split_once x3a (bytes_of_string "12:34") = Some (a, b)) as Hsp by (rewrite Hab; by apply split_once_app).
  vm_compute in Hsp. injection Hsp as <- <-. vm_compute in Hpa, Hpb. by injection Hpa as <-; injection Hpb as <-.
Defined.
