(* ===== verification/Run.v ===== *)
(** One run of a program: from the HTTP request to the HTTP response.

    - [Api] is the request and response format of src/peserver/src/api.rs;
    - [ImageClient] the worker's side of the image service protocol
      (src/peimage-service/src/lib.rs);
    - the worker's handler, which builds the io file, hands it to a virtual
      machine and frames what comes back (src/peserver/src/worker.rs,
      src/peserver/src/util.rs);
    - the guest, which unpacks the input, runs the container and writes the
      response and the output archive (src/peinit/src/main.rs and the
      [packfd]/[unpackfd] commands of src/pearchive/src/main.rs).

    The image service's socket, the virtual machine, the container and the
    serializers are parameters. *)
From stdpp Require Import option base list sets numbers strings gmap.
From Stdlib Require Import ZArith Lia.
From S2P Require Import Prelude MemFile BTree Paths Text Pearchive IoFile RuntimeSpec.
#[local] Open Scope Z_scope.
#[local] Open Scope result_scope.
#[local] Opaque le_bytes.

(** * The API *)

Module Api.
Definition APPLICATION_JSON : bstr := bytes_of_string "application/json".
Definition APPLICATION_X_PE_ARCHIVEV1 : bstr := bytes_of_string "application/x.pe.archivev1".
Definition MAX_BODY_SIZE : Z := 65536.
Definition PREFIX : bstr := bytes_of_string "/api/v2/runi/".

Inductive ContentType := ApplicationJson | PeArchiveV1.

(** [TryFrom<&str>] *)
Definition ContentType_try_from (s : bstr) : option ContentType :=
  if decide (s = APPLICATION_JSON) then Some ApplicationJson
  else if decide (s = APPLICATION_X_PE_ARCHIVEV1) then Some PeArchiveV1
  else None.

Record Request := {
  stdin : option bstr;
  entrypoint : option (list bstr);
  cmd : option (list bstr);
  env : option (list bstr);
}.

Record ParsedPath := { reference : bstr; arch : OciImage.Arch; os : OciImage.Os }.

Section api.
Context (arch_try_from : bstr -> option OciImage.Arch) (os_try_from : bstr -> option OciImage.Os).
Context (request_from_json : bstr -> option Request) (response_from_json : bstr -> option Response).

Definition parse_path (s : bstr) : option ParsedPath :=
  rest ← strip_prefix PREFIX s;
  '(a, rest) ← split_once slash rest;
  '(o, reference) ← split_once slash rest;
  if 255 <? zlen reference then None
  else
    arch ← arch_try_from a;
    os ← os_try_from o;
    Some {| reference := reference; arch := arch; os := os |}.

Definition parse_request (body : bstr) (content_type : ContentType) : option (Z * Request) :=
  match content_type with
  | ApplicationJson => req ← request_from_json body; Some (0, req)
  | PeArchiveV1 =>
      if zlen body <? 4 then None
      else
        let json_size := le_val (take 4 body) in
        slice ← get_range body 4 (4 + json_size);
        req ← request_from_json slice;
        Some (4 + json_size, req)
  end.

Definition parse_response (body : bstr) : option (Response * bstr) :=
  if zlen body <? 4 then None
  else
    let json_size := le_val (take 4 body) in
    slice ← get_range body 4 (4 + json_size);
    response ← response_from_json slice;
    rem ← get_from body (4 + json_size);
    Some (response, rem).
End api.
End Api.

(** * The image service, seen from the worker *)

Module ImageClient.
Inductive Error :=
  | Io | Encode | Decode | PeOciSpec (e : Spec.Error) | BadDigest | BadReference | MissingFd
  | MessageTooBig | ServerError (message : bstr) | Unknown
  | NoMatchingManifest | ManifestNotFound | ImageTooBig | RatelimitExceeded.

Record Request := { reference : bstr; arch : Spec.Arch; os : Spec.Os }.

(** [parses] is whether the string is an image reference. *)
Definition Request_new (parses : bstr -> bool) (reference : bstr) (arch : OciImage.Arch)
    (os : OciImage.Os) : result Error Request :=
  if parses reference then
    let? a := map_err PeOciSpec (Spec.Arch_try_from arch) in
    let? o := map_err PeOciSpec (Spec.Os_try_from os) in
    Ok {| reference := reference; arch := a; os := o |}
  else Err BadReference.

Inductive WireResponse :=
  | WOk (manifest_digest : bstr) (config : Spec.ImageConfiguration)
  | WNoMatchingManifest
  | WManifestNotFound
  | WImageTooBig
  | WRatelimitExceeded
  | WErr (message : bstr).

Record Response (Fd : Type) := {
  manifest_digest : bstr; config : Spec.ImageConfiguration; fd : Fd;
}.
Arguments manifest_digest {Fd}. Arguments config {Fd}. Arguments fd {Fd}.

(** The end of [request_erofs_image]: the descriptor and the message received. *)
Definition accept_response {Fd} (fd : option Fd) (w : WireResponse) : result Error (Response Fd) :=
  match fd, w with
  | Some fd, WOk d c => Ok {| manifest_digest := d; config := c; fd := fd |}
  | _, WNoMatchingManifest => Err NoMatchingManifest
  | _, WManifestNotFound => Err ManifestNotFound
  | _, WImageTooBig => Err ImageTooBig
  | _, WRatelimitExceeded => Err RatelimitExceeded
  | _, WErr m => Err (ServerError m)
  | None, WOk _ _ => Err MissingFd
  end.

(** [exchange] is the socket: it sends the request and receives a message. *)
Definition request_erofs_image {Fd} (exchange : Request -> result Error (option Fd * WireResponse))
    (req : Request) : result Error (Response Fd) :=
  let? '(fd, w) := exchange req in accept_response fd w.
End ImageClient.

(** * The worker *)

Module Worker.
Inductive Error :=
  | ReadTimeout | Read | BadRequest | BadPath | BadReference | ImageService | IoFileCreate
  | QueueFull | WorkerRecv | BadContentType | ResponseRead | Worker | Internal | OciSpec
  | ArchMismatch | OsMismatch.

(** [From<Error> for StatusCode] *)
Definition status_of (e : Error) : Z :=
  match e with
  | ReadTimeout => 408
  | Read | BadContentType | BadPath | OciSpec | BadReference | BadRequest
  | ArchMismatch | OsMismatch => 400
  | QueueFull => 503
  | WorkerRecv | IoFileCreate | ResponseRead | Worker | ImageService | Internal => 500
  end.

(** Where a virtual machine can get a request: the queue is full, no worker
    answers, the machine fails, or it ends and leaves its io file. *)
Inductive VmOutcome := VmQueueFull | VmNoAnswer | VmFailed | VmDone (io : IoFile).

(** The body as the session delivers it: chunks, or a read error; [body_late]
    says that the two seconds are over before it is complete. *)
Record HttpRequest := {
  method_post : bool;
  method_get : bool;
  path : bstr;
  content_type : option bstr;
  body_chunks : list (option bstr);
  body_late : bool;
}.
Record HttpResponse := { status : Z; content : option Api.ContentType; body : bstr }.

(** [read_full_server_request_body] *)
Fixpoint read_body_from (acc : bstr) (max_len : Z) (chunks : list (option bstr)) : option bstr :=
  match chunks with
  | [] => Some acc
  | None :: _ => None
  | Some bytes :: chunks =>
      let acc := acc ++ bytes in
      if max_len <? zlen acc then None else read_body_from acc max_len chunks
  end.
Definition read_full_server_request_body (chunks : list (option bstr)) (max_len : Z) : option bstr :=
  read_body_from [] max_len chunks.

Definition response_string (status : Z) (s : string) : HttpResponse :=
  {| status := status; content := None; body := bytes_of_string s |}.
Definition response_json_vec (status : Z) (body : bstr) : HttpResponse :=
  {| status := status; content := Some Api.ApplicationJson; body := body |}.
Definition response_pearchivev1 (status : Z) (body : bstr) : HttpResponse :=
  {| status := status; content := Some Api.PeArchiveV1; body := body |}.

Section worker.
Context {Fd S : Type}.
Context (arch_try_from : bstr -> option OciImage.Arch) (os_try_from : bstr -> option OciImage.Os).
Context (reference_parses : bstr -> bool).
Context (exchange : ImageClient.Request ->
                    result ImageClient.Error (option Fd * ImageClient.WireResponse)).
Context (request_from_json : bstr -> option Api.Request).
Context (rootless : Z -> Z -> RuntimeSpec S) (SECCOMP : S) (spec_to_json : RuntimeSpec S -> bstr).
Context (bincode_encode : Config -> option (list byte)).
(** A virtual machine of the pool, with the image it gets. *)
Context (run_vm : Fd -> IoFile -> VmOutcome).
(** The settings of [HttpRunnerApp]. *)
Context (self_arch : OciImage.Arch) (self_os : OciImage.Os) (self_strace : bool) (max_conn : Z).

Definition RUN_TIMEOUT : Duration := {| d_secs := 1; d_nanos := 0 |}.

(** The io file of a request; slicing past the end of the body panics. *)
Definition make_io_file (ct : Api.ContentType) (config : Config) (body : bstr) (body_offset : Z)
    : result Error IoFile :=
  match ct with
  | Api.ApplicationJson =>
      let? b := map_err (fun _ => Internal)
                  (write_io_file_config bincode_encode IoFileBuilder_new config 0) in
      Ok (finish b)
  | Api.PeArchiveV1 =>
      let? archive_size := ok_or (try_into 32 (wsub 64 (zlen body) body_offset)) Internal in
      let? b := map_err (fun _ => Internal)
                  (write_io_file_config bincode_encode IoFileBuilder_new config archive_size) in
      let? archive := expect (get_from body body_offset) in
      let? b := ok_or (io_write_all archive b) Internal in
      Ok (finish b)
  end.

(** The response that the machine left in the io file. *)
Definition read_response (format : ResponseFormat) (io : IoFile) : result Error HttpResponse :=
  match format with
  | JsonV1 =>
      let? '(_, json, _) :=
        map_err (fun _ => ResponseRead) (read_io_file_response_bytes (io_file io)) in
      Ok (response_json_vec 200 json)
  | PeArchiveV1 =>
      let? bytes :=
        map_err (fun _ => ResponseRead) (read_io_file_response_archive_bytes (io_file io)) in
      Ok (response_pearchivev1 200 bytes)
  end.

(** The rest of the handler, when the image is there. *)
Definition run_image (image : ImageClient.Response Fd) (req : HttpRequest)
    : result Error HttpResponse :=
  let? ct := ok_or (content_type req ≫= Api.ContentType_try_from) BadContentType in
  let format := match ct with Api.ApplicationJson => JsonV1 | Api.PeArchiveV1 => PeArchiveV1 end in
  if body_late req then Err ReadTimeout
  else
    let? body := ok_or (read_full_server_request_body (body_chunks req) Api.MAX_BODY_SIZE) Read in
    let? '(body_offset, api_req) := ok_or (Api.parse_request request_from_json body ct) BadRequest in
    let? spec := map_err (fun _ => OciSpec)
      (create_runtime_spec rootless SECCOMP (ImageClient.config image)
         (Api.entrypoint api_req) (Api.cmd api_req) (Api.env api_req)) in
    let config :=
      {| oci_runtime_config := spec_to_json spec; timeout := RUN_TIMEOUT;
         stdin := Api.stdin api_req; strace := self_strace; crun_debug := false;
         rootfs_dir := None; rootfs_kind := Erofs; response_format := format;
         kernel_inspect := false; manifest_digest := ImageClient.manifest_digest image |} in
    let? io := make_io_file ct config body body_offset in
    match run_vm (ImageClient.fd image) io with
    | VmQueueFull => Err QueueFull
    | VmNoAnswer => Err WorkerRecv
    | VmFailed => Err Worker
    | VmDone io => read_response format io
    end.

Definition apiv2_runi (req : HttpRequest) : result Error HttpResponse :=
  let? parsed_path := ok_or (Api.parse_path arch_try_from os_try_from (path req)) BadPath in
  if decide (Api.arch parsed_path <> self_arch) then Err ArchMismatch
  else if decide (Api.os parsed_path <> self_os) then Err OsMismatch
  else
    let? image_req := map_err (fun _ => BadReference)
      (ImageClient.Request_new reference_parses (Api.reference parsed_path) self_arch self_os) in
    match ImageClient.request_erofs_image exchange image_req with
    | Ok image => run_image image req
    | Err ImageClient.NoMatchingManifest =>
        Ok (response_string 400 "no matching image for amd64+linux")
    | Err ImageClient.ManifestNotFound => Ok (response_string 400 "no such manifest")
    | Err ImageClient.ImageTooBig => Ok (response_string 400 "image too big")
    | Err ImageClient.RatelimitExceeded =>
        Ok (response_string 500 "ratelimit to registry exceeded")
    | Err _ => Err ImageService
    | Panic => Panic
    end.

Definition api_internal_max_conn : HttpResponse :=
  {| status := 200; content := None; body := print_uint max_conn |}.

(** [ServeHttp::response]; the body of an error response is the error as JSON. *)
Definition response (error_json : Error -> bstr) (req : HttpRequest) : result Empty_set HttpResponse :=
  let res :=
    if method_get req && bool_decide (path req = bytes_of_string "/api/internal/maxconn") then
      Some (Ok api_internal_max_conn)
    else if method_post req && starts_with Api.PREFIX (path req) then Some (apiv2_runi req)
    else None in
  match res with
  | None => Ok {| status := 404; content := None; body := [] |}
  | Some (Ok r) => Ok r
  | Some (Err e) => Ok (response_json_vec (status_of e) (error_json e))
  | Some Panic => Panic
  end.
End worker.
End Worker.

(** * The guest *)

Module Guest.
(** What waiting for the container gives; the first two fields of the exited
    variants are the code and the status of its [siginfo_t]. *)
Inductive WaitIdDataOvertime :=
  | NotExited
  | WExited (si_code si_status : Z) (rusage : Rusage)
  | WExitedOvertime (si_code si_status : Z) (rusage : Rusage).

(** A container that has run: the outcome of the wait, the files its standard
    streams went to, and the output directory. *)
Record ContainerRun := {
  wait : WaitIdDataOvertime + bstr;
  stdout_file : option bstr;
  stderr_file : option bstr;
  output : list fs_entry;
}.

Definition RESPSONSE_JSON_STDOUT_SIZE : Z := 1024.

(** An [unwrap]: an error is a panic. *)
Definition unwrap {E F A} (c : result E A) : result F A :=
  match c with Ok a => Ok a | Err _ | Panic => Panic end.

Section guest.
Context (bincode_decode : list byte -> option (Config * Z)).
Context (json_encode : Response -> option (list byte)).
Context (sendfile : bstr -> Z -> result Z (bstr * bstr)).
Context (from_utf8_lossy : bstr -> bstr).

(** [unpackfd] maps [len] bytes from the file's position; the length arrives as
    a decimal argument. *)
Definition unpackfd (len_arg : bstr) (f : Out) : result IoFile.Error bstr :=
  let? len := expect (parse_uint 64 len_arg) in
  expect (get_range (o_bytes f) (o_pos f) (o_pos f + len)).

(** The reading half of [unpack_input]: the configuration and the archive that
    is then unpacked. *)
Definition unpack_input (f : IoFile) : result IoFile.Error (Config * bstr) :=
  let? '(archive_size, config, g) := unwrap (read_io_file_config bincode_decode (io_file (reopen f))) in
  let? archive := unpackfd (print_uint archive_size) g in
  Ok (config, archive).

Definition read_if_exists_max_len_lossy (file : option bstr) (len : Z) : option bstr :=
  content ← file; Some (from_utf8_lossy (ztake len content)).

Definition make_response (config : Config) (run : ContainerRun) : Response :=
  let '(stdout, stderr) :=
    match response_format config with
    | PeArchiveV1 => (None, None)
    | JsonV1 => (read_if_exists_max_len_lossy (stdout_file run) RESPSONSE_JSON_STDOUT_SIZE,
                 read_if_exists_max_len_lossy (stderr_file run) RESPSONSE_JSON_STDOUT_SIZE)
    end in
  match wait run with
  | inr e => RPanic e
  | inl NotExited => RPanic (bytes_of_string "ch not exited overtime")
  | inl (WExited code status rusage) =>
      ROk (SigInfoRedux_from code status) rusage stdout stderr (manifest_digest config)
  | inl (WExitedOvertime code status rusage) =>
      ROvertime (SigInfoRedux_from code status) rusage stdout stderr (manifest_digest config)
  end.

(** [packfd]: the archive goes to the device behind the response, its size to
    the beginning of the device. *)
Definition packfd (es : list fs_entry) (f : IoFile) : result IoFile.Error IoFile :=
  let offset := o_pos (io_file f) in
  let? archive := unwrap (pack_dir_to_writer sendfile es) in
  let? f := expect (io_write_all archive f) in
  let ending_offset := o_pos (io_file f) in
  if ending_offset <=? offset then Panic
  else
    let? encoded_size := expect (try_into 32 (ending_offset - offset)) in
    expect (io_write_all (le_bytes 4 encoded_size) (reopen f)).

(** The end of [main]. *)
Definition respond (config : Config) (run : ContainerRun) (f : IoFile) : result IoFile.Error IoFile :=
  let? f := unwrap (write_io_file_response json_encode (reopen f) (make_response config run)) in
  match response_format config with
  | PeArchiveV1 => packfd (output run) f
  | JsonV1 => Ok f
  end.

(** [container] is what happens between reading the input and responding. *)
Definition main (container : Config -> bstr -> ContainerRun) (f : IoFile)
    : result IoFile.Error IoFile :=
  let? '(config, archive) := unpack_input f in
  respond config (container config archive) f.
End guest.
End Guest.

(** * Lemmas *)

(** The framed bodies of requests and responses: a size, JSON, an archive. *)
Definition framed (json archive : bstr) : bstr := le_bytes 4 (zlen json) ++ json ++ archive.

Lemma framed_fields json archive :
  in_width 32 (zlen json) ->
  (zlen (framed json archive) <? 4) = false /\ le_val (take 4 (framed json archive)) = zlen json /\
  get_range (framed json archive) 4 (4 + zlen json) = Some json /\
  get_from (framed json archive) (4 + zlen json) = Some archive /\
  zlen (framed json archive) = 4 + zlen json + zlen archive.
Proof.
  intros Hj. pose proof (zlen_le_bytes 4 (zlen json)) as Hl. change (Z.of_nat 4) with 4 in Hl.
  assert (zlen (framed json archive) = 4 + zlen json + zlen archive) as Hz
    by (unfold framed; rewrite !zlen_app, Hl; lia).
  pose proof (zlen_nonneg json). pose proof (zlen_nonneg archive).
  split_and!; [apply Z.ltb_ge; lia| | | |done]; unfold framed.
  - rewrite take_app_length' by (by rewrite length_le_bytes). by apply le_val_bytes.
  - apply get_range_app; by rewrite Hl.
  - rewrite app_assoc. by rewrite get_from_app by (by rewrite zlen_app, Hl).
Qed.

Lemma parse_request_framed request_from_json json archive req :
  in_width 32 (zlen json) -> request_from_json json = Some req ->
  Api.parse_request request_from_json (framed json archive) Api.PeArchiveV1 =
    Some (4 + zlen json, req).
Proof.
  intros Hj Hr. destruct (framed_fields json archive Hj) as (H4 & Hv & Hg & _).
  unfold Api.parse_request. rewrite H4, Hv, Hg. simpl. by rewrite Hr.
Qed.

Lemma parse_response_framed response_from_json json archive r :
  in_width 32 (zlen json) -> response_from_json json = Some r ->
  Api.parse_response response_from_json (framed json archive) = Some (r, archive).
Proof.
  intros Hj Hr. destruct (framed_fields json archive Hj) as (H4 & Hv & Hg & Hf & _).
  unfold Api.parse_response. rewrite H4, Hv, Hg. simpl. rewrite Hr. simpl. by rewrite Hf.
Qed.

(** What the host puts into the io file is what the guest takes out. *)
Lemma make_io_file_delivered bincode_encode bincode_decode config cb json archive :
  codec bincode_encode (fun b => fst <$> bincode_decode b) ->
  bincode_encode config = Some cb -> in_width 32 (zlen cb) -> in_width 32 (zlen json) ->
  in_width 32 (zlen archive) ->
  exists io, Worker.make_io_file bincode_encode Api.PeArchiveV1 config (framed json archive)
      (4 + zlen json) = Ok io /\
    PMEM_ALIGN_SIZE <= io_size io /\
    Guest.unpack_input bincode_decode io = Ok (config, archive).
Proof.
  intros Hc He Hcb Hj Har. destruct (framed_fields json archive Hj) as (_ & _ & _ & Hf & Hz).
  destruct (deliver_config bincode_encode bincode_decode config cb archive Hc He Hcb Har)
    as (b & g & Hw & Hdiv & Hpos & Hr & Hg).
  pose proof (zlen_nonneg archive). unfold in_width in *.
  unfold Worker.make_io_file. rewrite Hz.
  replace (4 + zlen json + zlen archive) with (zlen archive + (4 + zlen json)) by lia.
  unfold wsub. rewrite Z.add_simpl_r, wrap_small, try_into_id by (unfold in_width; lia). cbn [ok_or rbind].
  rewrite Hw. cbn [map_err rbind]. rewrite Hf. cbn [expect rbind ok_or io_write_all write_memfd].
  eexists. split; [done|]. split.
  { apply Z.divide_pos_le; done. }
  unfold Guest.unpack_input. rewrite Hr. cbn [Guest.unwrap rbind]. unfold Guest.unpackfd.
  rewrite parse_print by lia. cbn [expect rbind]. by rewrite Hg.
Qed.

(** Overwriting the first size of a frame leaves the rest. *)
Lemma rewrite_size a b c data o :
  get_range
    (o_bytes (MemFile.write_all (le_bytes 4 a) (seek 0 (MemFile.write_all (header b c ++ data) (seek 0 o)))))
    0 (8 + zlen data) = Some (header a c ++ data).
Proof.
  pose proof (zlen_header b c) as Hh. pose proof (zlen_le_bytes 4 a) as Ha.
  unfold MemFile.write_all, seek. simpl o_bytes. simpl o_pos. rewrite !decide_False.
  2: { intros E. apply (f_equal zlen) in E. rewrite zlen_app, Hh in E. len_lia. }
  2: { intros E. apply (f_equal zlen) in E. by rewrite Ha in E. }
  rewrite (put_split 0 (header b c ++ data)). unfold put_prefix.
  replace (Z.to_nat (0 - zlen (o_bytes o))) with O by (pose proof (zlen_nonneg (o_bytes o)); lia).
  simpl. unfold header at 1. rewrite <-!app_assoc, put_begin by (by rewrite !zlen_le_bytes).
  unfold header. rewrite !app_assoc. apply (get_range_app []); [done|].
  rewrite !zlen_app, !zlen_le_bytes. change (zlen (@nil byte)) with 0. lia.
Qed.

(** What the guest leaves on the device: the frame of the response, then the
    archive. *)
Lemma respond_delivered json_encode sendfile lossy config run f j :
  sendfile_spec sendfile -> response_format config = PeArchiveV1 ->
  json_encode (Guest.make_response lossy config run) = Some j -> in_width 32 (zlen j) ->
  Forall good_entry (Guest.output run) -> height (Guest.output run) <= MAX_DIR_DEPTH + 1 ->
  encode (Guest.output run) <> [] -> in_width 32 (zlen (encode (Guest.output run))) ->
  8 + zlen j + zlen (encode (Guest.output run)) <= io_size f ->
  exists f', Guest.respond json_encode sendfile lossy config run f = Ok f' /\
    get_range (o_bytes (io_file f')) 0 (8 + zlen (j ++ encode (Guest.output run))) =
      Some (header (zlen (encode (Guest.output run))) (zlen j) ++ j ++ encode (Guest.output run)).
Proof.
  intros Hsf Hfmt Hj Hjw Hg Hh Hne Hew Hfit. set (es := Guest.output run) in *.
  set (archive := encode es) in *. pose proof (zlen_nonneg archive). pose proof (zlen_nonneg j).
  unfold Guest.respond.
  destruct (write_response_fits json_encode f _ j Hj Hjw ltac:(lia)) as (f1 & Hw1 & Hf1 & Hs1).
  rewrite Hw1. cbn [Guest.unwrap rbind]. rewrite Hfmt. unfold Guest.packfd. fold es.
  rewrite (pack_dir_encodes sendfile es Hsf Hg Hh). fold archive. cbn [Guest.unwrap rbind].
  assert (o_pos (io_file f1) = 8 + zlen j) as Hp1.
  { rewrite Hf1. simpl. by rewrite zlen_app, zlen_header. }
  destruct (write_iofile_fits archive f1) as (f2 & Hw2 & Hf2 & Hs2); [lia..|].
  rewrite Hw2. cbn [expect rbind].
  assert (o_pos (io_file f2) = 8 + zlen j + zlen archive) as Hp2 by (rewrite Hf2; simpl; lia).
  assert (0 < zlen archive).
  { destruct (Z.eq_dec (zlen archive) 0) as [E|]; [by apply zlen_zero in E|lia]. }
  rewrite Hp1, Hp2, (proj2 (Z.leb_gt _ _)) by lia.
  replace (8 + zlen j + zlen archive - (8 + zlen j)) with (zlen archive) by lia.
  rewrite try_into_id by done. cbn [expect rbind].
  destruct (write_iofile_fits (le_bytes 4 (zlen archive)) (reopen f2)) as (f3 & Hw3 & Hf3 & Hs3);
    [done|rewrite zlen_le_bytes; change (io_size (reopen f2)) with (io_size f2); simpl; lia|].
  rewrite Hw3. exists f3. split; [done|].
  rewrite Hf3. cbn [io_file reopen]. rewrite Hf2, Hf1, write_all_app by (by simpl).
  rewrite <-app_assoc. by apply rewrite_size.
Qed.

(** Reading the body accepts exactly the bodies within the limit. *)
Lemma read_body_from_spec acc max chunks :
  zlen acc <= max ->
  Worker.read_body_from acc max (Some <$> chunks) =
    if max <? zlen (acc ++ concat chunks) then None else Some (acc ++ concat chunks).
Proof.
  revert acc. induction chunks as [|c chunks IH]; intros acc Ha; csimpl.
  - rewrite app_nil_r. by rewrite (proj2 (Z.ltb_ge _ _)).
  - destruct (Z.ltb_spec max (zlen (acc ++ c))) as [Hlt|Hge].
    + rewrite (proj2 (Z.ltb_lt _ _)); [done|]. rewrite app_assoc, zlen_app.
      pose proof (zlen_nonneg (concat chunks)). lia.
    + by rewrite (IH (acc ++ c)), <-app_assoc by lia.
Qed.

Section end_to_end.
Context {Fd S : Type}.
Context (arch_try_from : bstr -> option OciImage.Arch) (os_try_from : bstr -> option OciImage.Os).
Context (reference_parses : bstr -> bool).
Context (exchange : ImageClient.Request ->
                    result ImageClient.Error (option Fd * ImageClient.WireResponse)).
Context (request_from_json : bstr -> option Api.Request).
Context (rootless : Z -> Z -> RuntimeSpec S) (SECCOMP : S) (spec_to_json : RuntimeSpec S -> bstr).
Context (bincode_encode : Config -> option (list byte)).
Context (bincode_decode : list byte -> option (Config * Z)).
Context (json_encode : Response -> option (list byte)) (json_decode : list byte -> option Response).
Context (sendfile : bstr -> Z -> result Z (bstr * bstr)) (from_utf8_lossy : bstr -> bstr).
Context (self_arch : OciImage.Arch) (self_os : OciImage.Os) (self_strace : bool).
Context (container : Config -> bstr -> Guest.ContainerRun).
Hypothesis bincode_codec : codec bincode_encode (fun b => fst <$> bincode_decode b).
Hypothesis json_codec : codec json_encode json_decode.
Hypothesis sendfile_ok : sendfile_spec sendfile.

(** A virtual machine that boots the guest on the io file. *)
Definition boot (_ : Fd) (io : IoFile) : Worker.VmOutcome :=
  match Guest.main bincode_decode json_encode sendfile from_utf8_lossy container io with
  | Ok f => Worker.VmDone f
  | Err _ | Panic => Worker.VmFailed
  end.

(** The configuration of a run with an archive. *)
Definition run_config (spec : RuntimeSpec S) (req : Api.Request) (digest : bstr) : Config :=
  {| oci_runtime_config := spec_to_json spec; timeout := Worker.RUN_TIMEOUT;
     stdin := Api.stdin req; strace := self_strace; crun_debug := false; rootfs_dir := None;
     rootfs_kind := Erofs; response_format := PeArchiveV1; kernel_inspect := false;
     manifest_digest := digest |}.

(** A request whose every input is in order: the path names this worker's
    platform, the image is found, the body is framed and within the limit, and
    the serializers accept the configuration.  The indices are the configuration
    and the archive of the run. *)
Inductive good_request (req : Worker.HttpRequest) : Config -> bstr -> Prop :=
  | GoodRequest pp ireq fd ic digest api_req spec chunks json cb archive
      (Hpath : Api.parse_path arch_try_from os_try_from (Worker.path req) = Some pp)
      (Harch : Api.arch pp = self_arch) (Hos : Api.os pp = self_os)
      (Hnew : ImageClient.Request_new reference_parses (Api.reference pp) self_arch self_os = Ok ireq)
      (Himage : exchange ireq = Ok (Some fd, ImageClient.WOk digest ic))
      (Htype : Worker.content_type req = Some Api.APPLICATION_X_PE_ARCHIVEV1)
      (Hlate : Worker.body_late req = false)
      (Hchunks : Worker.body_chunks req = Some <$> chunks)
      (Hbody : concat chunks = framed json archive)
      (Hlimit : zlen (framed json archive) <= Api.MAX_BODY_SIZE)
      (Hreq : request_from_json json = Some api_req)
      (Hspec : create_runtime_spec rootless SECCOMP ic (Api.entrypoint api_req) (Api.cmd api_req)
                 (Api.env api_req) = Ok spec)
      (Hcb : bincode_encode (run_config spec api_req digest) = Some cb)
      (Hcb_size : in_width 32 (zlen cb)) :
      good_request req (run_config spec api_req digest) archive.

(** An output that fits the smallest io file, with its response. *)
Definition good_output (config : Config) (run : Guest.ContainerRun) (j : bstr) : Prop :=
  json_encode (Guest.make_response from_utf8_lossy config run) = Some j /\
  Forall good_entry (Guest.output run) /\ height (Guest.output run) <= MAX_DIR_DEPTH + 1 /\
  encode (Guest.output run) <> [] /\
  8 + zlen j + zlen (encode (Guest.output run)) <= PMEM_ALIGN_SIZE.

Lemma run_delivered req config archive j :
  good_request req config archive -> good_output config (container config archive) j ->
  Worker.apiv2_runi arch_try_from os_try_from reference_parses exchange request_from_json rootless
    SECCOMP spec_to_json bincode_encode boot self_arch self_os self_strace req =
  Ok (Worker.response_pearchivev1 200 (framed j (encode (Guest.output (container config archive))))).
Proof.
  intros [pp ireq fd ic digest api_req spec chunks json cb arc Hpath Harch Hos Hnew Himage Htype
    Hlate Hchunks Hbody Hlimit Hreq Hspec Hcb Hcb_size] (Hj & Hout & Hh & Hne & Hfit).
  set (config' := run_config spec api_req digest) in *. set (run := container config' arc) in *.
  pose proof (zlen_nonneg json). pose proof (zlen_nonneg arc). pose proof (zlen_nonneg j).
  pose proof (zlen_nonneg (encode (Guest.output run))). unfold PMEM_ALIGN_SIZE in Hfit.
  assert (zlen (framed json arc) = 4 + zlen json + zlen arc) as Hz
    by (unfold framed; rewrite !zlen_app, zlen_le_bytes; lia).
  unfold Api.MAX_BODY_SIZE in Hlimit.
  assert (in_width 32 (zlen json) /\ in_width 32 (zlen arc)) as [Hjs Har] by (unfold in_width; lia).
  destruct (make_io_file_delivered bincode_encode bincode_decode config' cb json arc
    bincode_codec Hcb Hcb_size Hjs Har) as (io & Hio & Hsize & Hin).
  destruct (respond_delivered json_encode sendfile from_utf8_lossy config' run io j)
    as (f' & Hres & Hrange); [done|done|done|unfold in_width; lia|done|done|done|
      unfold in_width; lia|unfold PMEM_ALIGN_SIZE in Hsize; lia|].
  unfold Worker.apiv2_runi. rewrite Hpath. cbn [ok_or rbind].
  rewrite !decide_False by (by intros []). rewrite Hnew. cbn [map_err rbind].
  unfold ImageClient.request_erofs_image. rewrite Himage. cbn [rbind ImageClient.accept_response].
  unfold Worker.run_image. rewrite Htype, Hlate. cbn [mbind option_bind].
  change (Api.ContentType_try_from Api.APPLICATION_X_PE_ARCHIVEV1) with (Some Api.PeArchiveV1).
  cbn [ok_or rbind]. unfold Worker.read_full_server_request_body.
  rewrite Hchunks, read_body_from_spec by done. rewrite app_nil_l, Hbody.
  rewrite (proj2 (Z.ltb_ge _ _)) by (unfold Api.MAX_BODY_SIZE; lia). cbn [ok_or rbind].
  rewrite (parse_request_framed _ json arc api_req Hjs Hreq). cbn [ok_or rbind ImageClient.config].
  rewrite Hspec. cbn [map_err rbind ImageClient.manifest_digest ImageClient.fd]. fold config'.
  change (Worker.make_io_file _ _ _ _ _) with
    (Worker.make_io_file bincode_encode Api.PeArchiveV1 config' (framed json arc) (4 + zlen json)).
  rewrite Hio. cbn [rbind].
  assert (boot fd io = Worker.VmDone f') as ->.
  { unfold boot, Guest.main. rewrite Hin. cbn [rbind]. fold run. by rewrite Hres. }
  unfold Worker.read_response. rewrite (read_archive_bytes _ j (encode (Guest.output run)));
    [done|lia|exact Hrange].
Qed.
End end_to_end.

(** Slices of the body that [parse_request] accepts stay inside it. *)
Lemma parse_request_offset request_from_json body ct off req :
  Api.parse_request request_from_json body ct = Some (off, req) -> 0 <= off <= zlen body.
Proof.
  pose proof (zlen_nonneg body). unfold Api.parse_request. destruct ct.
  - destruct (request_from_json body); [|done]. intros [= <- _]. lia.
  - destruct (Z.ltb_spec (zlen body) 4); [done|].
    pose proof (le_val_range (take 4 body)) as Hv. set (n := le_val _) in *. clearbody n.
    destruct (get_range body 4 (4 + n)) as [slice|] eqn:E; [|done]. simpl.
    apply get_range_length in E as (_ & ? & ?); [|lia].
    destruct (request_from_json slice); [|done]. intros [= <- _]. lia.
Qed.

Lemma make_io_file_no_panic bincode_encode ct config body off :
  (forall cb, bincode_encode config = Some cb -> in_width 32 (zlen cb)) -> off <= zlen body ->
  Worker.make_io_file bincode_encode ct config body off <> Panic.
Proof.
  intros Hcb Hoff. assert (forall size, 
    write_io_file_config bincode_encode IoFileBuilder_new config size <> Panic) as Hw.
  { intros size. destruct (bincode_encode config) as [cb|] eqn:E.
    - by rewrite (write_config_new bincode_encode config cb size E (Hcb cb eq_refl)).
    - unfold write_io_file_config. by rewrite E. }
  unfold Worker.make_io_file. destruct ct.
  - specialize (Hw 0). by destruct (write_io_file_config _ _ _ _).
  - destruct (try_into 32 _) as [size|]; [|done]. simpl. specialize (Hw size).
    destruct (write_io_file_config _ _ _ _) as [b| |]; [|done..]. simpl.
    unfold get_from. by rewrite (proj2 (Z.leb_le _ _)).
Qed.

Lemma read_response_no_panic format io : Worker.read_response format io <> Panic.
Proof.
  unfold Worker.read_response, read_io_file_response_archive_bytes, read_io_file_response_bytes.
  destruct format; destruct (read_u32_le_pair _) as [[[a r] f]|]; simpl; try done;
    by destruct (read_exact _ f) as [[]|].
Qed.

Lemma create_runtime_spec_no_panic {S} (rootless : Z -> Z -> RuntimeSpec S) SECCOMP l ns ms p ic a b c :
  linux (rootless UID UID) = Some l -> namespaces l = Some ns ->
  mounts (rootless UID UID) = Some ms -> process (rootless UID UID) = Some p ->
  create_runtime_spec rootless SECCOMP ic a b c <> Panic.
Proof.
  intros Hl Hns Hms Hp. unfold create_runtime_spec. rewrite Hl, Hms, Hp. simpl. rewrite Hns. simpl.
  repeat case_decide; try done.
  match goal with |- context [set_user_cwd ?c ?p] => pose proof (set_user_cwd_spec c p) as Hs end.
  by destruct (set_user_cwd _ _).
Qed.

(** * Properties *)

(** C5: a run with an archive delivers.  For a request in the archive format whose
    inputs are in order ([good_request]: it names this worker's platform, the image
    service gives the image, the body is framed and within the limit, and the
    specification and the configuration can be made), and a container whose output
    can be delivered ([good_output]: a directory that the archive format can hold,
    not deeper than the packer goes, not empty, and together with the response
    within the smallest io file), the handler that builds the io file, the guest
    that boots on it and the handler that reads it back together answer 200 in the
    archive format of the request, and the client finds in the body exactly the
    guest's response and an archive that unpacks to the regular files of the
    container's output directory, which the container produced from exactly the
    configuration of the request and the archive that was sent. *)
Theorem run_end_to_end {Fd S} arch_try_from os_try_from reference_parses
    (exchange : ImageClient.Request -> result ImageClient.Error (option Fd * ImageClient.WireResponse))
    request_from_json (rootless : Z -> Z -> RuntimeSpec S) SECCOMP spec_to_json
    bincode_encode bincode_decode json_encode json_decode sendfile from_utf8_lossy
    self_arch self_os self_strace container req config archive j :
  codec bincode_encode (fun b => fst <$> bincode_decode b) -> codec json_encode json_decode ->
  sendfile_spec sendfile ->
  good_request arch_try_from os_try_from reference_parses exchange request_from_json rootless SECCOMP
    spec_to_json bincode_encode self_arch self_os self_strace req config archive ->
  let run := container config archive in
  good_output json_encode from_utf8_lossy config run j ->
  exists resp out,
    Worker.apiv2_runi arch_try_from os_try_from reference_parses exchange request_from_json rootless
      SECCOMP spec_to_json bincode_encode
      (boot bincode_decode json_encode sendfile from_utf8_lossy container)
      self_arch self_os self_strace req = Ok resp /\
    Worker.status resp = 200 /\ Worker.content resp = Some Api.PeArchiveV1 /\
    Api.parse_response json_decode (Worker.body resp) =
      Some (Guest.make_response from_utf8_lossy config run, out) /\
    unpack_to_hashmap out = Ok (hashmap_of (tree_files (Guest.output run))).
Proof.
  intros Hb Hj Hs Hreq run Hout.
  rewrite (run_delivered arch_try_from os_try_from reference_parses exchange request_from_json rootless
    SECCOMP spec_to_json bincode_encode bincode_decode json_encode sendfile from_utf8_lossy
    self_arch self_os self_strace container Hb Hs req config archive j Hreq Hout).
  destruct Hout as (He & Hg & _ & _ & Hfit). do 2 eexists. split; [done|]. split; [done|]. split; [done|]. split.
  - apply parse_response_framed; [|by apply Hj].
    pose proof (zlen_nonneg j). pose proof (zlen_nonneg (encode (Guest.output run))).
    unfold PMEM_ALIGN_SIZE, in_width in *. lia.
  - by apply unpack_hashmap_encode.
Qed.

(** ** A concrete run *)

Definition example_api_request : Api.Request :=
  {| Api.stdin := None; Api.entrypoint := None; Api.cmd := None; Api.env := None |}.

Definition example_request : Worker.HttpRequest :=
  {| Worker.method_post := true; Worker.method_get := false;
     Worker.path := Api.PREFIX ++ bytes_of_string "amd64/linux/quay.io/fedora/fedora:42";
     Worker.content_type := Some Api.APPLICATION_X_PE_ARCHIVEV1;
     Worker.body_chunks := Some <$> [le_bytes 4 2; [x7b; x7d] ++ encode example_tree];
     Worker.body_late := false |}.

Definition example_run : Guest.ContainerRun :=
  {| Guest.wait := inr [x6f; x6f; x6d]; Guest.stdout_file := None; Guest.stderr_file := None;
     Guest.output := example_tree |}.

Definition example_arch (s : bstr) : option OciImage.Arch :=
  if decide (s = bytes_of_string "amd64") then Some OciImage.Amd64 else Some (OciImage.OtherArch s).
Definition example_os (s : bstr) : option OciImage.Os :=
  if decide (s = bytes_of_string "linux") then Some OciImage.Linux else Some (OciImage.OtherOs s).
Definition example_exchange (_ : ImageClient.Request)
    : result ImageClient.Error (option unit * ImageClient.WireResponse) :=
  Ok (Some tt, ImageClient.WOk [x61] example_image).
Definition example_spec : RuntimeSpec unit :=
  match create_runtime_spec example_rootless tt example_image None None None with
  | Ok spec => spec
  | _ => example_rootless 0 0
  end.
Definition example_apiv2 : result Worker.Error Worker.HttpResponse :=
  Worker.apiv2_runi example_arch example_os (fun _ => true) example_exchange
    (fun _ => Some example_api_request) example_rootless tt (fun _ => bytes_of_string "{}")
    example_bincode_encode
    (boot example_bincode_decode example_json_encode sendfile_whole (fun b => b)
       (fun _ _ => example_run))
    OciImage.Amd64 OciImage.Linux false example_request.

Lemma run_end_to_end_witness :
  exists resp out, example_apiv2 = Ok resp /\ Worker.status resp = 200 /\ Worker.content resp = Some Api.PeArchiveV1 /\
    Api.parse_response (fun b => Some (RPanic b)) (Worker.body resp) =
      Some (RPanic [x6f; x6f; x6d], out) /\
    unpack_to_hashmap out = Ok (hashmap_of (tree_files example_tree)).
Proof.
  apply (run_end_to_end example_arch example_os (fun _ => true) example_exchange
    (fun _ => Some example_api_request) example_rootless tt (fun _ => bytes_of_string "{}")
    example_bincode_encode example_bincode_decode example_json_encode (fun b => Some (RPanic b))
    sendfile_whole (fun b => b) OciImage.Amd64 OciImage.Linux false (fun _ _ => example_run)
    example_request (config_with_digest [x61]) (encode example_tree) [x6f; x6f; x6d]).
  - exact example_bincode_codec.
  - intros [] b; simpl; congruence.
  - exact sendfile_whole_spec.
  - eapply (GoodRequest example_arch example_os (fun _ => true) example_exchange
      (fun _ => Some example_api_request) example_rootless tt (fun _ => bytes_of_string "{}")
      example_bincode_encode OciImage.Amd64 OciImage.Linux false example_request _ _ tt example_image
      [x61] example_api_request example_spec
      [le_bytes 4 2; [x7b; x7d] ++ encode example_tree] [x7b; x7d] [x61]).
    all: try (vm_compute; reflexivity).
    + vm_compute. congruence.
    + split; vm_compute; congruence.
  - split; [reflexivity|]. split; [exact example_tree_good|]. split; [vm_compute; congruence|].
    split; [vm_compute; congruence|]. vm_compute. congruence.
Defined.

(** C22: no request makes the handler panic: whatever the path, the headers and
    the body are, and whatever the image service and the virtual machine answer,
    it returns a response or an error, provided that the base specification has
    the parts the code expects and configurations are below 4 GiB. *)
Theorem worker_never_panics {Fd S} arch_try_from os_try_from reference_parses
    (exchange : ImageClient.Request -> result ImageClient.Error (option Fd * ImageClient.WireResponse))
    request_from_json (rootless : Z -> Z -> RuntimeSpec S) SECCOMP spec_to_json bincode_encode run_vm
    self_arch self_os self_strace req l ns ms p :
  (forall r, exchange r <> Panic) ->
  linux (rootless UID UID) = Some l -> namespaces l = Some ns ->
  mounts (rootless UID UID) = Some ms -> process (rootless UID UID) = Some p ->
  (forall c cb, bincode_encode c = Some cb -> in_width 32 (zlen cb)) ->
  Worker.apiv2_runi arch_try_from os_try_from reference_parses exchange request_from_json rootless
    SECCOMP spec_to_json bincode_encode run_vm self_arch self_os self_strace req <> Panic.
Proof.
  intros Hex Hl Hns Hms Hp Hcb. unfold Worker.apiv2_runi.
  destruct (Api.parse_path _ _ _) as [pp|]; [|done]. simpl. repeat case_decide; try done.
  destruct (ImageClient.Request_new _ _ _ _) as [ireq|e|] eqn:Hn; [|done|].
  2: { exfalso. revert Hn. unfold ImageClient.Request_new. destruct (reference_parses _); [|done].
       by destruct self_arch, self_os. }
  simpl. unfold ImageClient.request_erofs_image. specialize (Hex ireq).
  destruct (exchange ireq) as [[fd w]|e|]; [|by destruct e|done]. simpl.
  destruct (ImageClient.accept_response fd w) as [image|e|] eqn:Ha;
    [|by destruct e|by destruct fd, w].
  unfold Worker.run_image. destruct (_ ≫= _) as [ct|]; [|done]. simpl.
  destruct (Worker.body_late req); [done|].
  destruct (Worker.read_full_server_request_body _ _) as [body|]; [|done]. simpl.
  destruct (Api.parse_request _ body ct) as [[off ar]|] eqn:Hpr; [|done]. simpl.
  apply parse_request_offset in Hpr as [_ Hoff].
  pose proof (create_runtime_spec_no_panic rootless SECCOMP l ns ms p (ImageClient.config image)
    (Api.entrypoint ar) (Api.cmd ar) (Api.env ar) Hl Hns Hms Hp) as Hc.
  destruct (create_runtime_spec _ _ _ _ _ _) as [spec| |]; [|done..]. simpl.
  match goal with |- context [Worker.make_io_file ?be ?t ?c ?b ?o] =>
    pose proof (make_io_file_no_panic be t c b o (Hcb c) Hoff) as Hio end.
  destruct (Worker.make_io_file _ _ _ _ _) as [io| |]; [|done..]. simpl.
  destruct (run_vm _ io); try done. apply read_response_no_panic.
Qed.

Lemma worker_never_panics_witness :
  Worker.apiv2_runi example_arch example_os (fun _ => true) example_exchange
    (fun _ => Some example_api_request) example_rootless tt (fun _ => bytes_of_string "{}")
    (fun _ => Some [x61]) (fun _ io => Worker.VmDone io) OciImage.Amd64 OciImage.Linux false
    example_request <> Panic.
Proof.
  apply (worker_never_panics example_arch example_os (fun _ => true) example_exchange
    (fun _ => Some example_api_request) example_rootless tt (fun _ => bytes_of_string "{}")
    (fun _ => Some [x61]) (fun _ io => Worker.VmDone io) OciImage.Amd64 OciImage.Linux false example_request
    {| uid_mappings := None; gid_mappings := None; namespaces := Some []; seccomp := None |} [] []
    {| args := None; env := None; user := {| u_uid := 0; u_gid := 0 |}; cwd := [x2f] |}).
  - by intros r.
  - reflexivity.
  - reflexivity.
  - reflexivity.
  - reflexivity.
  - intros c cb [= <-]. split; vm_compute; congruence.
Defined.

(** The path of a run is parsed unambiguously: it is accepted exactly when
    it consists of the prefix, an architecture, an operating system and a
    reference of at most 255 bytes, where the first two contain no slash and
    everything behind the second slash, slashes included, is the reference. *)
Theorem parse_path_spec arch_try_from os_try_from s pp :
  Api.parse_path arch_try_from os_try_from s = Some pp <->
  exists a o, s = Api.PREFIX ++ a ++ slash :: o ++ slash :: Api.reference pp /\
    (slash ∉ a) /\ (slash ∉ o) /\ zlen (Api.reference pp) <= 255 /\
    arch_try_from a = Some (Api.arch pp) /\ os_try_from o = Some (Api.os pp).
Proof.
  unfold Api.parse_path. split.
  - destruct (strip_prefix Api.PREFIX s) as [r1|] eqn:E1; [|done]. cbn [mbind option_bind].
    apply strip_prefix_spec in E1 as ->.
    destruct (split_once slash r1) as [[a r2]|] eqn:E2; [|done]. cbn [mbind option_bind].
    apply split_once_Some in E2 as [-> Ha].
    destruct (split_once slash r2) as [[o ref]|] eqn:E3; [|done]. cbn [mbind option_bind].
    apply split_once_Some in E3 as [-> Ho].
    destruct (Z.ltb_spec 255 (zlen ref)); [done|].
    destruct (arch_try_from a) as [ar|] eqn:Ea; [|done]. cbn [mbind option_bind].
    destruct (os_try_from o) as [os|] eqn:Eo; [|done]. intros [= <-].
    exists a, o. by split_and!.
  - destruct pp as [ref ar os]. intros (a & o & -> & Ha & Ho & Hr & Ea & Eo).
    cbn [Api.reference Api.arch Api.os] in *.
    rewrite (proj2 (strip_prefix_spec _ _ _) eq_refl). cbn [mbind option_bind].
    rewrite (split_once_app slash a) by done. cbn [mbind option_bind].
    rewrite (split_once_app slash o) by done. cbn [mbind option_bind].
    rewrite (proj2 (Z.ltb_ge _ _)) by done. rewrite Ea. cbn [mbind option_bind]. by rewrite Eo.
Qed.
