(* ===== verification/LoadBalancer.v ===== *)
(** The load balancer (src/peserver/src/lb.rs).

    A request passes the rate limit, the path check and the size check, takes a
    permit of the load balancer without waiting, waits for a permit of a worker
    for at most thirty seconds, and holds both until it is done.  Requests
    interleave: the state has the free permits and what every open request
    holds, an event is one step of one request or of the background task that
    asks the workers for their capacity.  The rate estimator of pingora enters
    as the count it reports for a request. *)
From stdpp Require Import option base list sets numbers strings gmap.
From Stdlib Require Import ZArith Lia.
From S2P Require Import Prelude MemFile BTree Paths Text IoFile RuntimeSpec Run.
#[local] Open Scope Z_scope.
#[local] Open Scope result_scope.

Definition MAX_REQ_PER_SEC : Z := 2.
Definition LB_MAXCONN : Z := 1024.

(** * Peers *)

Inductive PeerParseError := UdsError | BadFmt | BadKind.
Inductive Peer := Uds (path : bstr) | Tcp (addr : bstr).

(** [new_uds] is whether [HttpPeer::new_uds] accepts a path. *)
Fixpoint parse_peers (new_uds : bstr -> bool) (args : list bstr) : result PeerParseError (list Peer) :=
  match args with
  | [] => Ok []
  | arg :: args =>
      let? '(kind, addr) := ok_or (split_once x3a arg) BadFmt in
      let? peer :=
        if decide (kind = bytes_of_string "uds") then
          if new_uds addr then Ok (Uds addr) else Err UdsError
        else if decide (kind = bytes_of_string "tcp") then Ok (Tcp addr)
        else Err BadKind in
      let? rest := parse_peers new_uds args in
      Ok (peer :: rest)
  end.

(** [Workers::new]: the ids of the workers have 16 bits. *)
Definition Workers_new (peers : list Peer) : option (list Peer) :=
  if decide (peers = []) then None
  else if u16_max <? zlen peers then None
  else Some peers.

Definition get_worker {A} (workers : list A) (id : nat) : option A := workers !! id.

(** * A request before it has permits *)

Record Request := {
  post : bool;
  path : bstr;
  content_length : option Z;
  observed : Z;  (** what the rate estimator counts for the client in this second *)
}.

(** [Respond] ends the request with a status; [Abort] writes the status and
    ends the connection with an error; [Admit] goes on to the permits. *)
Inductive Verdict := Respond (status : Z) | Abort (status : Z) | Admit (worker : nat).

Section filter.
Context (arch_try_from : bstr -> option OciImage.Arch) (os_try_from : bstr -> option OciImage.Os).

Definition rate_limit (req : Request) : bool := MAX_REQ_PER_SEC <? observed req.

(** [apiv2_runi] up to [get_permits]. *)
Definition apiv2_runi (workers : list Peer) (req : Request) : Verdict :=
  match Api.parse_path arch_try_from os_try_from (path req) with
  | None => Respond 400
  | Some _ =>
      if match content_length req with Some l => Api.MAX_BODY_SIZE <? l | None => false end
      then Abort 413
      else match get_worker workers 0 with
           | None => Respond 500
           | Some _ => Admit 0
           end
  end.

Definition request_filter (workers : list Peer) (req : Request) : Verdict :=
  if rate_limit req then Respond 429
  else if post req && starts_with Api.PREFIX (path req) then apiv2_runi workers req
  else Respond 404.

(** * Permits *)

(** What an open request holds: the balancer's permit while it waits for the
    worker, then both. *)
Inductive Phase := Waiting (worker : nat) | Forwarded (worker : nat).

#[global] Instance Phase_eq_dec : EqDecision Phase.
Proof. solve_decision. Defined.

Record LB := {
  workers : list Peer;
  lb_permits : Z;            (** free permits of [max_conn] *)
  worker_permits : list Z;   (** free permits of every worker *)
  granted : list Z;          (** what the background task has added to each *)
  next_worker : nat;         (** the worker the background task asks next *)
  open : gmap nat Phase;     (** the requests by id *)
}.

Definition LB_new (peers : list Peer) : LB :=
  {| workers := peers; lb_permits := LB_MAXCONN; worker_permits := replicate (length peers) 0;
     granted := replicate (length peers) 0; next_worker := 0; open := ∅ |}.

Inductive Event :=
  | Arrive (id : nat) (req : Request)
  | Acquire (id : nat)        (** the worker's semaphore gives the permit *)
  | WaitTimeout (id : nat)    (** thirty seconds are over *)
  | Finish (id : nat)         (** the context with the permits is dropped *)
  | MaxConn (w : nat) (n : Z) (** a worker answers the background task *).

(** The permits of worker [w] change by [d]. *)
Definition add_worker (w : nat) (d : Z) (l : list Z) : list Z := alter (fun n => n + d) w l.

(** One event: the new state and the status that is sent, or nothing when the
    event cannot happen. *)
Definition handle (s : LB) (e : Event) : option (LB * option Z) :=
  match e with
  | Arrive id req =>
      match open s !! id, request_filter (workers s) req with
      | Some _, _ => None
      | None, Respond st => Some (s, Some st)
      | None, Abort st => Some (s, Some st)
      | None, Admit w =>
          if lb_permits s =? 0 then Some (s, Some 503)
          else Some ({| workers := workers s; lb_permits := lb_permits s - 1;
                        worker_permits := worker_permits s; granted := granted s;
                        next_worker := next_worker s; open := <[id := Waiting w]> (open s) |}, None)
      end
  | Acquire id =>
      match open s !! id with
      | Some (Waiting w) =>
          match worker_permits s !! w with
          | Some n =>
              if n =? 0 then None
              else Some ({| workers := workers s; lb_permits := lb_permits s;
                            worker_permits := add_worker w (-1) (worker_permits s);
                            granted := granted s; next_worker := next_worker s;
                            open := <[id := Forwarded w]> (open s) |}, None)
          | None => None
          end
      | _ => None
      end
  | WaitTimeout id =>
      match open s !! id with
      | Some (Waiting _) =>
          Some ({| workers := workers s; lb_permits := lb_permits s + 1;
                   worker_permits := worker_permits s; granted := granted s;
                   next_worker := next_worker s; open := delete id (open s) |}, Some 503)
      | _ => None
      end
  | Finish id =>
      match open s !! id with
      | Some (Forwarded w) =>
          Some ({| workers := workers s; lb_permits := lb_permits s + 1;
                   worker_permits := add_worker w 1 (worker_permits s); granted := granted s;
                   next_worker := next_worker s; open := delete id (open s) |}, None)
      | _ => None
      end
  | MaxConn w n =>
      if bool_decide (next_worker s <= w < length (workers s))%nat && (0 <=? n) then
        Some ({| workers := workers s; lb_permits := lb_permits s;
                 worker_permits := add_worker w n (worker_permits s);
                 granted := add_worker w n (granted s); next_worker := S w; open := open s |}, None)
      else None
  end.

Inductive reachable (peers : list Peer) : LB -> Prop :=
  | reach_new : reachable peers (LB_new peers)
  | reach_step s e s' out : reachable peers s -> handle s e = Some (s', out) -> reachable peers s'.
End filter.

(** How many requests are forwarded to a worker. *)
Definition forwarded (w : nat) (m : gmap nat Phase) : Z :=
  Z.of_nat (size (filter (fun p => p.2 = Forwarded w) m)).

(** Permits are neither lost nor made up. *)
Definition permits_ok (s : LB) : Prop :=
  0 <= lb_permits s /\ lb_permits s + Z.of_nat (size (open s)) = LB_MAXCONN /\
  length (worker_permits s) = length (workers s) /\ length (granted s) = length (workers s) /\
  forall w n g, worker_permits s !! w = Some n -> granted s !! w = Some g ->
    0 <= n /\ n + forwarded w (open s) = g.

(** * Lemmas *)

Lemma forwarded_delete w id m :
  forwarded w (delete id m) =
    forwarded w m - if decide (m !! id = Some (Forwarded w)) then 1 else 0.
Proof.
  unfold forwarded. rewrite map_filter_delete.
  destruct (decide (m !! id = Some (Forwarded w))) as [E|E].
  - assert (filter (fun p => p.2 = Forwarded w) m !! id = Some (Forwarded w)) as Hf
      by (by apply map_lookup_filter_Some).
    rewrite (map_size_delete_Some _ _ (ex_intro _ _ Hf)).
    assert (size (filter (fun p => p.2 = Forwarded w) m) <> 0%nat).
    { intros H0. apply map_size_empty_inv in H0. by rewrite H0 in Hf. }
    lia.
  - rewrite delete_id; [lia|]. apply map_lookup_filter_None. right.
    intros p Hp. simpl. congruence.
Qed.

Lemma forwarded_insert w id p m :
  forwarded w (<[id := p]> m) =
    forwarded w (delete id m) + if decide (p = Forwarded w) then 1 else 0.
Proof.
  unfold forwarded. case_decide as E.
  - rewrite map_filter_insert_True, <-insert_delete_eq, <-map_filter_delete by done.
    rewrite map_size_insert_None; [lia|]. rewrite map_filter_delete. apply lookup_delete_eq.
  - rewrite map_filter_insert_False by done. lia.
Qed.

Lemma forwarded_le w m : 0 <= forwarded w m <= Z.of_nat (size m).
Proof.
  unfold forwarded. split; [lia|]. apply inj_le. apply map_subseteq_size, map_filter_subseteq.
Qed.

Lemma add_worker_lookup w d l v n :
  add_worker w d l !! v = Some n ->
  exists k, l !! v = Some k /\ n = k + if decide (v = w) then d else 0.
Proof.
  unfold add_worker. destruct (decide (v = w)) as [->|Hne].
  - rewrite list_lookup_alter_eq. destruct (l !! w) as [k|]; simpl; [|done].
    intros [= <-]. by exists k.
  - rewrite list_lookup_alter_ne by done. intros ->. exists n. split; [done|lia].
Qed.

Lemma length_add_worker w d l : length (add_worker w d l) = length l.
Proof. apply length_alter. Qed.

Section invariant.
Context (arch_try_from : bstr -> option OciImage.Arch) (os_try_from : bstr -> option OciImage.Os).

Lemma permits_ok_new peers : permits_ok (LB_new peers).
Proof.
  split; [done|]. split; [done|]. simpl. rewrite !length_replicate. split_and!; [done..|].
  intros w n g. rewrite !lookup_replicate. intros [-> _] [-> _]. done.
Qed.

(** One event keeps the permits. *)
Lemma permits_ok_step s e s' out : permits_ok s -> handle arch_try_from os_try_from s e = Some (s', out) -> permits_ok s'.
Proof.
  intros (Hlb & Hsum & Hl1 & Hl2 & Hw) H.
  destruct e as [id req|id|id|id|w n]; unfold handle in H.
  - destruct (open s !! id) as [p|] eqn:Ho; [done|].
    destruct (request_filter _ _ _ req) as [st|st|w]; [by simplify_eq..|].
    destruct (Z.eqb_spec (lb_permits s) 0); simplify_eq; [done|].
    split; [simpl; lia|]. split; [simpl; rewrite map_size_insert_None by done; lia|]. simpl.
    split_and!; [done..|]. intros v k g Hn Hg. destruct (Hw v k g Hn Hg) as [? <-].
    split; [done|]. rewrite forwarded_insert, forwarded_delete.
    rewrite decide_False by (by rewrite Ho). rewrite decide_False by done. lia.
  - destruct (open s !! id) as [[w|w]|] eqn:Ho; [|done..].
    destruct (worker_permits s !! w) as [n|] eqn:Hn; [|done].
    destruct (Z.eqb_spec n 0); [done|]. simplify_eq.
    split; [done|]. split; [simpl; rewrite map_size_insert_Some by (by eexists); done|]. simpl.
    rewrite length_add_worker. split_and!; [done..|]. intros v k g Hk Hg.
    apply add_worker_lookup in Hk as (k0 & Hk0 & ->). destruct (Hw v k0 g Hk0 Hg) as [? <-].
    rewrite forwarded_insert, forwarded_delete. rewrite (decide_False (P := open s !! id = _)) by (by rewrite Ho).
    repeat case_decide; simplify_eq; lia.
  - destruct (open s !! id) as [[w|w]|] eqn:Ho; [|done..]. simplify_eq.
    split; [simpl; lia|]. split.
    { simpl. rewrite map_size_delete_Some by (by eexists).
      assert (size (open s) <> 0%nat) by (intros E; apply map_size_empty_inv in E; by rewrite E in Ho). lia. }
    simpl. split_and!; [done..|]. intros v n g Hn Hg. destruct (Hw v n g Hn Hg) as [? <-].
    rewrite forwarded_delete, decide_False by (by rewrite Ho). lia.
  - destruct (open s !! id) as [[w|w]|] eqn:Ho; [done| |done]. simplify_eq.
    split; [simpl; lia|]. split.
    { simpl. rewrite map_size_delete_Some by (by eexists).
      assert (size (open s) <> 0%nat) by (intros E; apply map_size_empty_inv in E; by rewrite E in Ho). lia. }
    simpl. rewrite length_add_worker. split_and!; [done..|]. intros v k g Hk Hg.
    apply add_worker_lookup in Hk as (k0 & Hk0 & ->). destruct (Hw v k0 g Hk0 Hg) as [? <-].
    rewrite forwarded_delete, Ho. pose proof (forwarded_le v (open s)).
    repeat case_decide; simplify_eq; lia.
  - destruct (bool_decide _ && (0 <=? n)) eqn:E; [|done]. simplify_eq.
    apply andb_true_iff in E as [_ E%Z.leb_le].
    split; [done|]. split; [done|]. simpl. rewrite !length_add_worker. split_and!; [done..|].
    intros v k g Hk Hg. apply add_worker_lookup in Hk as (k0 & Hk0 & ->), Hg as (g0 & Hg0 & ->).
    destruct (Hw v k0 g0 Hk0 Hg0) as [? <-]. case_decide; lia.
Qed.

Lemma permits_ok_reachable peers s :
  reachable arch_try_from os_try_from peers s -> permits_ok s.
Proof. induction 1; [apply permits_ok_new|]. by eapply permits_ok_step. Qed.
End invariant.

(** A sequence of events. *)
Fixpoint run arch_try_from os_try_from (s : LB) (events : list Event) : option LB :=
  match events with
  | [] => Some s
  | e :: events =>
      match handle arch_try_from os_try_from s e with
      | Some (s, _) => run arch_try_from os_try_from s events
      | None => None
      end
  end.

Lemma run_reachable arch_try_from os_try_from peers s events s' :
  reachable arch_try_from os_try_from peers s ->
  run arch_try_from os_try_from s events = Some s' ->
  reachable arch_try_from os_try_from peers s'.
Proof.
  revert s. induction events as [|e events IH]; simpl; intros s Hr H; [by simplify_eq|].
  destruct (handle _ _ s e) as [[s1 out]|] eqn:E; [|done].
  eapply IH; [|exact H]. by eapply reach_step.
Qed.

(** * Properties *)

(** C18: the balancer never oversubscribes.  In every state that any
    interleaving of arrivals, waits, timeouts, ends and capacity answers
    reaches, permits are conserved: at most 1024 requests are open, and the
    requests forwarded to a worker are exactly the permits it has granted minus
    its free ones, so never more than it announced. *)
Theorem never_oversubscribed arch_try_from os_try_from peers s w g :
  reachable arch_try_from os_try_from peers s -> granted s !! w = Some g ->
  Z.of_nat (size (open s)) <= LB_MAXCONN /\ 0 <= forwarded w (open s) <= g /\
  exists n, worker_permits s !! w = Some n /\ 0 <= n /\ n + forwarded w (open s) = g /\
  lb_permits s + Z.of_nat (size (open s)) = LB_MAXCONN.
Proof.
  intros Hr Hg. apply permits_ok_reachable in Hr as (Hlb & Hsum & Hl1 & Hl2 & Hw).
  assert (is_Some (worker_permits s !! w)) as [n Hn].
  { apply lookup_lt_is_Some. rewrite Hl1, <-Hl2. by eapply lookup_lt_Some. }
  destruct (Hw w n g Hn Hg) as [Hpos Heq]. pose proof (forwarded_le w (open s)).
  split; [lia|]. split; [lia|]. by exists n.
Qed.

(** One worker with two permits, one request forwarded and one waiting. *)
Definition example_lb_request : Request :=
  {| post := true; path := Api.PREFIX ++ bytes_of_string "amd64/linux/fedora";
     content_length := Some 10; observed := 1 |}.
Definition example_events : list Event :=
  [MaxConn 0 1; Arrive 1 example_lb_request; Arrive 2 example_lb_request; Acquire 2].
Definition example_state : LB :=
  {| workers := [Tcp []]; lb_permits := 1022; worker_permits := [0]; granted := [1];
     next_worker := 1; open := {[ 1%nat := Waiting 0; 2%nat := Forwarded 0 ]} |}.

Lemma never_oversubscribed_witness :
  Z.of_nat (size (open example_state)) <= LB_MAXCONN /\
  0 <= forwarded 0 (open example_state) <= 1 /\
  exists n, worker_permits example_state !! 0%nat = Some n /\ 0 <= n /\
    n + forwarded 0 (open example_state) = 1 /\
    lb_permits example_state + Z.of_nat (size (open example_state)) = LB_MAXCONN.
Proof.
  apply (never_oversubscribed example_arch example_os [Tcp []] example_state 0 1); [|reflexivity].
  apply (run_reachable example_arch example_os [Tcp []] (LB_new [Tcp []]) example_events);
    [|vm_compute; reflexivity].
  apply reach_new.
Defined.

(** The filter admits a request exactly when its client is within the rate
    limit, it is a POST to a well-formed run path, its declared length is within
    the body limit and there is a worker; and it admits it to worker 0 only. *)
Theorem request_filter_admits arch_try_from os_try_from workers req w :
  request_filter arch_try_from os_try_from workers req = Admit w <->
  w = 0%nat /\ observed req <= MAX_REQ_PER_SEC /\ post req = true /\
  (exists pp, Api.parse_path arch_try_from os_try_from (path req) = Some pp) /\
  (forall l, content_length req = Some l -> l <= Api.MAX_BODY_SIZE) /\ workers <> [].
Proof.
  unfold request_filter, rate_limit, apiv2_runi, get_worker. split.
  - destruct (Z.ltb_spec MAX_REQ_PER_SEC (observed req)); [done|].
    destruct (post req && _) eqn:E; [|done]. apply andb_true_iff in E as [-> _].
    destruct (Api.parse_path _ _ _) as [pp|] eqn:Hp; [|done].
    destruct (content_length req) as [l|].
    + destruct (Z.ltb_spec Api.MAX_BODY_SIZE l); [done|].
      destruct workers; [done|]. intros [= <-]. split_and!; [done..|by exists pp| |done].
      intros ? [= <-]. done.
    + destruct workers; [done|]. intros [= <-]. split_and!; [done..|by exists pp|done|done].
  - intros (-> & Hr & -> & (pp & Hp) & Hl & Hne). rewrite (proj2 (Z.ltb_ge _ _)) by done.
    assert (starts_with Api.PREFIX (path req) = true) as ->.
    { unfold Api.parse_path, strip_prefix in Hp. by destruct (starts_with _ _). }
    simpl. rewrite Hp. destruct workers; [done|]. simpl.
    destruct (content_length req) as [l|]; [|done].
    by rewrite (proj2 (Z.ltb_ge _ _)) by (by apply Hl).
Qed.
