(* ===== verification/HttpUtil.v ===== *)
(** Helpers of the servers (src/peserver/src/util.rs): the id of a client for the
    rate limit, entity tags, premade answers and log lines.

    The file proves which clients share an id, that the rate limit lets at most
    the allowed number of requests of an id through, whatever the estimator
    overcounts, and that an entity tag determines the hash it was made of.
    SHA-256 and the estimator of pingora are parameters. *)
From stdpp Require Import option base list numbers strings.
From Stdlib Require Import ZArith Lia.
From S2P Require Import Prelude BTree Text RuntimeSpec Run LoadBalancer.
#[local] Open Scope Z_scope.

(** * Clients *)

Inductive IpAddr := V4 (octets : list byte) | V6 (octets : list byte).

Definition valid_ip (a : IpAddr) : Prop :=
  match a with V4 o => length o = 4%nat | V6 o => length o = 16%nat end.

(** The network half of an address. *)
Definition ipv6_64 (octets : list byte) : list byte := take 8 octets.

(** The byte order is that of the machine, little endian. *)
Definition session_ip_id (client : option IpAddr) : Z :=
  match client with
  | Some (V4 o) => le_val o
  | Some (V6 o) => le_val (ipv6_64 o)
  | None => 42
  end.

(** * The rate limit *)

(** [Rate::observe] counts an event of a key in the current second. *)
Class Estimator (R : Type) := observe : Z -> R -> R * Z.

(** [LB::rate_limit] on the clients of one second, in order: who is let through. *)
Fixpoint admitted {R} `{Estimator R} (clients : list (option IpAddr)) (r : R) : list (option IpAddr) :=
  match clients with
  | [] => []
  | c :: clients =>
      let '(r, n) := observe (session_ip_id c) r in
      if MAX_REQ_PER_SEC <? n then admitted clients r else c :: admitted clients r
  end.

(** * Entity tags *)

(** The standard alphabet of base64. *)
Definition base64_digit (n : Z) : byte :=
  if n <? 26 then byte_of (65 + n) else if n <? 52 then byte_of (71 + n)
  else if n <? 62 then byte_of (n - 4) else if n =? 62 then x2b else x2f.

Fixpoint base64_encode (d : bstr) : bstr :=
  match d with
  | a :: b :: c :: d =>
      let n := byte_val a * 65536 + byte_val b * 256 + byte_val c in
      base64_digit (n / 262144) :: base64_digit (n / 4096 mod 64) :: base64_digit (n / 64 mod 64) ::
      base64_digit (n mod 64) :: base64_encode d
  | [a; b] =>
      let n := byte_val a * 1024 + byte_val b * 4 in
      [base64_digit (n / 4096); base64_digit (n / 64 mod 64); base64_digit (n mod 64); x3d]
  | [a] =>
      let n := byte_val a * 16 in
      [base64_digit (n / 64); base64_digit (n mod 64); x3d; x3d]
  | [] => []
  end.

Definition etag (sha256 : bstr -> bstr) (data : bstr) : bstr :=
  [x57; x2f; x22] ++ base64_encode (sha256 data) ++ [x22].

(** * Answers *)

Record ResponseHeader := { rh_status : Z; rh_headers : list (bstr * bstr) }.

Definition hdr (name : string) (value : bstr) : bstr * bstr := (bytes_of_string name, value).

Definition TOO_MANY_REQUESTS : ResponseHeader :=
  {| rh_status := 429;
     rh_headers := [hdr "X-Rate-Limit-Limit" (print_uint MAX_REQ_PER_SEC);
                    hdr "X-Rate-Limit-Remaining" (bytes_of_string "0");
                    hdr "X-Rate-Limit-Reset" (bytes_of_string "1");
                    hdr "Content-Length" (bytes_of_string "0")] |}.
Definition NOT_MODIFIED : ResponseHeader :=
  {| rh_status := 304; rh_headers := [hdr "Content-Length" (bytes_of_string "0")] |}.

Definition response_no_body (status : Z) : Worker.HttpResponse :=
  {| Worker.status := status; Worker.content := None; Worker.body := [] |}.
Definition response_json {T} (to_vec : T -> option bstr) (status : Z) (body : T) : option Worker.HttpResponse :=
  b ← to_vec body; Some (Worker.response_json_vec status b).

(** * Logs *)

Inductive Level := LError | LWarn | LInfo | LDebug | LTrace.
Definition priority (l : Level) : Z :=
  match l with LError => 3 | LWarn => 4 | LInfo => 5 | LDebug => 6 | LTrace => 7 end.

(** [stat]: device and inode of the standard error output; [stream]: the variable
    of the environment. *)
Definition connected_to_journal (stat : option (Z * Z)) (stream : option bstr) : bool :=
  match stat, stream with
  | Some (dev, ino), Some s => bool_decide (s = print_uint dev ++ [x3a] ++ print_uint ino)
  | _, _ => false
  end.

(** The line for the journal. *)
Definition log_line (l : Level) (args : bstr) : bstr :=
  [x3c] ++ print_uint (priority l) ++ [x3e; x20] ++ args ++ [x0a].

(** * Lemmas *)

Lemma le_val_inj a b : length a = length b -> le_val a = le_val b -> a = b.
Proof. intros Hl E. by rewrite <-(le_bytes_val a), <-(le_bytes_val b), Hl, E. Qed.

(** The clients of an id. *)
Definition same_client (a b : option IpAddr) : bool := session_ip_id a =? session_ip_id b.

(** What an estimator may not do: count less than there was. *)
Class EstimatorLaws (R : Type) `{Estimator R} := {
  seen_count : Z -> R -> Z;
  seen_nonneg k r : 0 <= seen_count k r;
  observe_key k r r' n : observe k r = (r', n) -> seen_count k r' = seen_count k r + 1 /\ seen_count k r' <= n;
  observe_other k k' r r' n : observe k r = (r', n) -> k' <> k -> seen_count k' r' = seen_count k' r;
}.

Lemma admitted_bound {R} `{EstimatorLaws R} clients (r : R) c :
  zlen (List.filter (same_client c) (admitted clients r)) <=
    Z.max 0 (MAX_REQ_PER_SEC - seen_count (session_ip_id c) r).
Proof.
  revert r. induction clients as [|x clients IH]; intros r; simpl; [change (zlen (@nil (option IpAddr))) with 0; lia|].
  destruct (observe (session_ip_id x) r) as [r' n] eqn:E.
  pose proof (seen_nonneg (session_ip_id c) r).
  assert (seen_count (session_ip_id c) r <= seen_count (session_ip_id c) r') as Hmono.
  { destruct (decide (session_ip_id c = session_ip_id x)) as [->|Hne]; [apply observe_key in E; lia|].
    by rewrite (observe_other _ _ _ _ _ E Hne). }
  specialize (IH r'). destruct (Z.ltb_spec MAX_REQ_PER_SEC n); [lia|]. simpl. unfold same_client at 1.
  destruct (Z.eqb_spec (session_ip_id c) (session_ip_id x)) as [Hc|_]; [|lia].
  rewrite zlen_cons. rewrite Hc in *. apply observe_key in E. lia.
Qed.

(** Reading base64. *)
Definition base64_val (b : byte) : option Z :=
  let v := byte_val b in
  if (65 <=? v) && (v <=? 90) then Some (v - 65) else if (97 <=? v) && (v <=? 122) then Some (v - 71)
  else if (48 <=? v) && (v <=? 57) then Some (v + 4) else if v =? 43 then Some 62 else if v =? 47 then Some 63 else None.

Lemma base64_val_digit n : 0 <= n < 64 -> base64_val (base64_digit n) = Some n.
Proof.
  intros Hn.
  assert (forallb (fun k => bool_decide (base64_val (base64_digit k) = Some k)) (seqZ 0 64) = true) as Hall
    by (vm_compute; reflexivity).
  rewrite forallb_forall in Hall. apply (bool_decide_eq_true_1 _), Hall, list_elem_of_In, elem_of_seqZ. lia.
Qed.

Lemma base64_digit_inj a b : 0 <= a < 64 -> 0 <= b < 64 -> base64_digit a = base64_digit b -> a = b.
Proof. intros Ha Hb E. apply (f_equal base64_val) in E. rewrite !base64_val_digit in E by done. congruence. Qed.

Lemma base64_digit_no_pad a : 0 <= a < 64 -> base64_digit a <> x3d.
Proof. intros Ha E. apply (f_equal base64_val) in E. by rewrite base64_val_digit in E. Qed.

(** Four digits determine three bytes. *)
Lemma sextets_inj n m : 0 <= n < 16777216 -> 0 <= m < 16777216 ->
  base64_digit (n / 262144) = base64_digit (m / 262144) ->
  base64_digit (n / 4096 mod 64) = base64_digit (m / 4096 mod 64) ->
  base64_digit (n / 64 mod 64) = base64_digit (m / 64 mod 64) ->
  base64_digit (n mod 64) = base64_digit (m mod 64) -> n = m.
Proof.
  intros Hn Hm E1 E2 E3 E4.
  apply base64_digit_inj in E1; [|split; [apply Z.div_pos|apply Z.div_lt_upper_bound]; lia..].
  apply base64_digit_inj in E2; [|apply Z.mod_pos_bound; lia..].
  apply base64_digit_inj in E3; [|apply Z.mod_pos_bound; lia..].
  apply base64_digit_inj in E4; [|apply Z.mod_pos_bound; lia..].
  Z.to_euclidean_division_equations. lia.
Qed.

(** Three by three. *)
Lemma bstr_ind3 (P : bstr -> Prop) :
  P [] -> (forall a, P [a]) -> (forall a b, P [a; b]) -> (forall a b c d, P d -> P (a :: b :: c :: d)) ->
  forall d, P d.
Proof.
  intros H0 H1 H2 H3. assert (forall d, P d /\ (forall a, P (a :: d)) /\ forall a b, P (a :: b :: d)) as H.
  { induction d as [|c d (IH0 & IH1 & IH2)]; split_and!; eauto. }
  apply H.
Qed.

Ltac three_bytes :=
  repeat match goal with b : byte |- _ =>
    lazymatch goal with H : 0 <= byte_val b < _ |- _ => fail | _ => pose proof (byte_val_range b) end end.

Lemma three_bytes_inj a b c a' b' c' :
  byte_val a * 65536 + byte_val b * 256 + byte_val c = byte_val a' * 65536 + byte_val b' * 256 + byte_val c' ->
  a = a' /\ b = b' /\ c = c'.
Proof.
  three_bytes. intros E.
  assert (byte_val a = byte_val a' /\ byte_val b = byte_val b' /\ byte_val c = byte_val c') as (Ha & Hb & Hc) by lia.
  split_and!; [rewrite <-(byte_of_val a), Ha|rewrite <-(byte_of_val b), Hb|rewrite <-(byte_of_val c), Hc]; apply byte_of_val.
Qed.

Ltac digits E :=
  apply base64_digit_inj in E;
  [|split; [first [apply Z.mod_pos_bound | apply Z.div_pos] | first [apply Z.mod_pos_bound | apply Z.div_lt_upper_bound]]; lia..].

Lemma base64_encode_inj d e : length d = length e -> base64_encode d = base64_encode e -> d = e.
Proof.
  revert e. induction d as [|a|a b|a b c d IH] using bstr_ind3; intros e Hl E.
  - by destruct e.
  - destruct e as [|a' [|]]; try discriminate Hl. three_bytes. cbn in E. injection E as E1 E2.
    digits E1. digits E2. assert (byte_val a = byte_val a') as Ha by (Z.to_euclidean_division_equations; lia).
    by rewrite <-(byte_of_val a), Ha, byte_of_val.
  - destruct e as [|a' [|b' [|]]]; try discriminate Hl. three_bytes. cbn in E. injection E as E1 E2 E3.
    digits E1. digits E2. digits E3.
    destruct (three_bytes_inj a b x00 a' b' x00) as (-> & -> & _);
      [change (byte_val x00) with 0; Z.to_euclidean_division_equations; lia|done].
  - destruct e as [|a' [|b' [|c' e]]]; try discriminate Hl. three_bytes. cbn in E. injection E as E1 E2 E3 E4 E5.
    destruct (three_bytes_inj a b c a' b' c') as (-> & -> & ->); [apply sextets_inj; auto with lia|].
    f_equal. f_equal. f_equal. apply IH; [by injection Hl|done].
Qed.

Lemma etag_determines_hash sha256 d e :
  length (sha256 d) = length (sha256 e) -> etag sha256 d = etag sha256 e -> sha256 d = sha256 e.
Proof.
  unfold etag. intros Hl E. apply base64_encode_inj; [done|]. simpl in E. injection E as E. by apply app_inj_2 in E as [E _].
Qed.

Lemma ip_id_v4 a b : length a = 4%nat -> length b = 4%nat ->
  session_ip_id (Some (V4 a)) = session_ip_id (Some (V4 b)) -> a = b.
Proof. intros Ha Hb E. by apply le_val_inj; [congruence|]. Qed.

Lemma ip_id_v6 a b : length a = 16%nat -> length b = 16%nat ->
  session_ip_id (Some (V6 a)) = session_ip_id (Some (V6 b)) <-> ipv6_64 a = ipv6_64 b.
Proof.
  intros Ha Hb. unfold session_ip_id. split; [|by intros ->].
  apply le_val_inj. unfold ipv6_64. rewrite !length_take. lia.
Qed.

(** Only the network half of an IPv6 address counts: a site with a network of its
    own gets one share, however many addresses it has. *)
Example same_network : same_client (Some (V6 (repeat x01 8 ++ repeat x02 8))) (Some (V6 (repeat x01 8 ++ repeat x03 8))) = true.
Proof. reflexivity. Qed.

(** Ids of different kinds of address can coincide. *)
Example id_collision : same_client None (Some (V4 [x2a; x00; x00; x00])) = true.
Proof. reflexivity. Qed.

(** An estimator that counts exactly. *)
Module ExactRate.
#[export] Instance exact : Estimator (list Z) := fun k r => (k :: r, zlen (List.filter (Z.eqb k) (k :: r))).
#[export] Program Instance exact_laws : EstimatorLaws (list Z) :=
  {| seen_count k r := zlen (List.filter (Z.eqb k) r) |}.
Next Obligation. intros k r. apply zlen_nonneg. Qed.
Next Obligation. intros k r r' n [= <- <-]. cbn. rewrite Z.eqb_refl, zlen_cons. lia. Qed.
Next Obligation. intros k k' r r' n [= <- _] Hne. cbn. by destruct (Z.eqb_spec k' k). Qed.
End ExactRate.

(** C28: the rate limit. Whatever the estimator overcounts (it is a sketch), the load
    balancer lets at most MAX_REQ_PER_SEC requests of a client id through in a
    second; clients of IPv4 share an id only when their addresses are the same, and
    clients of IPv6 exactly when their networks (the first eight bytes) are. *)
Theorem rate_limit_per_client {R} `{EstimatorLaws R} clients (r : R) c :
  zlen (List.filter (same_client c) (admitted clients r)) <= MAX_REQ_PER_SEC /\
  (forall a b, valid_ip (V4 a) -> valid_ip (V4 b) -> same_client (Some (V4 a)) (Some (V4 b)) = bool_decide (a = b)) /\
  (forall a b, valid_ip (V6 a) -> valid_ip (V6 b) ->
     same_client (Some (V6 a)) (Some (V6 b)) = bool_decide (ipv6_64 a = ipv6_64 b)).
Proof.
  split_and!.
  - pose proof (admitted_bound clients r c). pose proof (seen_nonneg (session_ip_id c) r).
    assert (0 <= MAX_REQ_PER_SEC) by (vm_compute; discriminate). lia.
  - intros a b Ha Hb. unfold same_client. apply eq_bool_prop_intro. rewrite bool_decide_spec, Is_true_true, Z.eqb_eq.
    split; [by apply ip_id_v4|by intros ->].
  - intros a b Ha Hb. unfold same_client. apply eq_bool_prop_intro. rewrite bool_decide_spec, Is_true_true, Z.eqb_eq.
    by apply ip_id_v6.
Qed.

Lemma rate_limit_per_client_witness :
  let c := Some (V4 [x7f; x00; x00; x01]) in
  zlen (List.filter (same_client c) (admitted (H := ExactRate.exact) (repeat c 40) [])) <= MAX_REQ_PER_SEC.
Proof. apply (rate_limit_per_client (H := ExactRate.exact) (H0 := ExactRate.exact_laws)). Defined.
