(* ===== verification/OciDist.v ===== *)
(** The registry client (src/peoci/src/ocidist.rs).

    A request is refused while its registry is in a rate-limit period, carries a
    cached token when there is one, and is repeated once with a fresh token after
    a 401.  Everything that is downloaded is compared with a digest.  The world
    of the model is the clock, the answers the network still has to give, the
    requests that were sent and the client's shared state; a computation keeps
    the state also when it fails.  SHA-256, the parsers of oci_spec and serde and
    the authentication service are parameters. *)
From stdpp Require Import option base list sets numbers strings gmap.
From Stdlib Require Import ZArith Lia.
From S2P Require Import Prelude BTree Text RuntimeSpec.
#[local] Open Scope Z_scope.

(** * Data *)

Inductive Error :=
  | Reqwest | OciSpecError | DigestMismatch | SizeMismatch | NoTagOrDigest | BothTagAndDigest
  | BadDigest | BadDockerContentDigest | Write | BadImageIndex | InvalidAuth | Unknown
  | NoMatchingManifest | NoImageIndexForRefWithDigest | RatelimitExceeded
  | DomainNotSupported (s : bstr) | BadContentType (s : bstr)
  | DigestAlgorithmNotHandled (a : OciImage.DigestAlgorithm) | StatusNotOk (status : Z)
  | RegistryNotSupported (s : bstr).

(** An image reference of oci_spec; [registry] is the resolved one. *)
Record Reference := {
  registry : bstr; repository : bstr; tag : option bstr; ref_digest : option bstr;
}.

Inductive Auth := NoAuth | UserPass (user pass : bstr).
Record Token := { token : bstr; expires_in : Z }.

Record HttpRequest := {
  url : bstr; accept : option bstr; bearer : option bstr; basic_auth : option (bstr * bstr);
  query : list (bstr * bstr);
}.

(** A response; a chunk [None] is an error while reading the body. *)
Record HttpResponse := { status : Z; headers : list (bstr * bstr); chunks : list (option bstr) }.

(** The shared state of the client; a cached token has the time it expires at. *)
Record Client := {
  token_cache : gmap bstr (bstr * Z);
  auth_store : gmap bstr Auth;
  ratelimit : gmap bstr Z;
}.

Record World := {
  clock : Z;
  net : list (Z * option HttpResponse);  (** delay and answer, [None] a failed connection *)
  sent : list HttpRequest;
  client : Client;
}.

(** * Computations *)

Definition M (A : Type) : Type := World -> World * result Error A.
Definition mok {A} (a : A) : M A := fun w => (w, Ok a).
Definition merr {A} (e : Error) : M A := fun w => (w, Err e).
Definition bind {A B} (c : M A) (k : A -> M B) : M B := fun w =>
  match c w with
  | (w, Ok a) => k a w
  | (w, Err e) => (w, Err e)
  | (w, Panic) => (w, Panic)
  end.
Definition lift {A} (r : result Error A) : M A := fun w => (w, r).
Definition now : M Z := fun w => (w, Ok (clock w)).
Definition get_client : M Client := fun w => (w, Ok (client w)).
Definition set_client (f : Client -> Client) : M unit := fun w =>
  ({| clock := clock w; net := net w; sent := sent w; client := f (client w) |}, Ok tt).

Notation "'let!' x ':=' c 'in' k" := (bind c (fun x => k))
  (at level 10, x name, c at level 100, k at level 200).
Notation "'let!' ' p ':=' c 'in' k" := (bind c (fun x => match x with p => k end))
  (at level 10, p strict pattern, c at level 100, k at level 200).

(** [RequestBuilder::send] *)
Definition send (req : HttpRequest) : M HttpResponse := fun w =>
  let w' dt net := {| clock := clock w + dt; net := net; sent := sent w ++ [req];
                      client := client w |} in
  match net w with
  | [] => (w' 0 [], Err Reqwest)
  | (dt, None) :: net => (w' dt net, Err Reqwest)
  | (dt, Some r) :: net => (w' dt net, Ok r)
  end.

(** [HeaderMap::get] and [HeaderValue::to_str]. *)
Definition get_header (name : bstr) (h : list (bstr * bstr)) : option bstr :=
  snd <$> head (filter (fun kv => kv.1 = name) h).
Definition to_str (v : bstr) : option bstr :=
  if forallb (fun b => (byte_val b =? 9) || ((32 <=? byte_val b) && (byte_val b <? 127))) v
  then Some v else None.

(** [Response::bytes] *)
Fixpoint read_chunks (l : list (option bstr)) : option bstr :=
  match l with
  | [] => Some []
  | Some c :: l => rest ← read_chunks l; Some (c ++ rest)
  | None :: _ => None
  end.

(** * Digests *)

Definition LUT : list byte :=
  [x30; x31; x32; x33; x34; x35; x36; x37; x38; x39; x61; x62; x63; x64; x65; x66].

Fixpoint pairs_eq (s : bstr) (digest_bytes : list byte) : bool :=
  match s, digest_bytes with
  | p0 :: p1 :: s, b :: digest_bytes =>
      bool_decide (LUT !! Z.to_nat (Z.shiftr (byte_val b) 4) = Some p0) &&
      bool_decide (LUT !! Z.to_nat (Z.land (byte_val b) 15) = Some p1) && pairs_eq s digest_bytes
  | _, _ => true
  end.

Definition digest_eq (digest_lower_hex_str : bstr) (digest_bytes : list byte) : bool :=
  if negb (zlen digest_lower_hex_str =? 2 * zlen digest_bytes) then false
  else pairs_eq digest_lower_hex_str digest_bytes.

Section digests.
Context (sha256 : bstr -> list byte).

Definition data_matches_digest (expected : OciImage.Digest) (data : bstr) : result Error bool :=
  match OciImage.algorithm expected with
  | OciImage.Sha256 => Ok (digest_eq (OciImage.digest expected) (sha256 data))
  | a => Err (DigestAlgorithmNotHandled a)
  end.

Definition check_digest_matches (expected : OciImage.Digest) (finalized : list byte)
    : result Error unit :=
  if digest_eq (OciImage.digest expected) finalized then Ok tt else Err DigestMismatch.

Definition check_data_matches_descriptor (expected : OciImage.Descriptor) (data : bstr)
    : result Error unit :=
  if negb (OciImage.size expected =? zlen data) then Err SizeMismatch
  else match data_matches_digest (OciImage.desc_digest expected) data with
       | Ok true => Ok tt
       | Ok false => Err DigestMismatch
       | Err e => Err e
       | Panic => Panic
       end.

Definition check_data_matches_digest (expected : option OciImage.Digest) (data : bstr)
    : result Error unit :=
  match expected with
  | None => Ok tt
  | Some d =>
      match data_matches_digest d data with
      | Ok true => Ok tt
      | Ok false => Err DigestMismatch
      | Err e => Err e
      | Panic => Panic
      end
  end.

Definition digest_from_data (data : bstr) : OciImage.Digest :=
  {| OciImage.algorithm := OciImage.Sha256; OciImage.digest := hex_encode (sha256 data) |}.
End digests.

(** * Headers *)

Record RatelimitRemaining := { quota : Z; window : option Z }.

Definition parse_ratelimit_remaining_str (input : bstr) : option RatelimitRemaining :=
  match split_once_str (bytes_of_string ";w=") input with
  | Some (l, r) =>
      q ← parse_uint 32 l; w ← parse_uint 32 r; Some {| quota := q; window := Some w |}
  | None => q ← parse_uint 32 input; Some {| quota := q; window := None |}
  end.

(** The window that a quota is for; a registry may leave it out. *)
Definition DEFAULT_RATELIMIT_WINDOW : Z := 60 * 60.
Definition window_duration (r : RatelimitRemaining) : Z := default DEFAULT_RATELIMIT_WINDOW (window r).

Definition get_ratelimit_remaining_header (h : list (bstr * bstr)) : option RatelimitRemaining :=
  match get_header (bytes_of_string "ratelimit-remaining") h with
  | Some v => s ← to_str v; parse_ratelimit_remaining_str s
  | None =>
      match get_header (bytes_of_string "x-ratelimit-remaining") h with
      | Some v => s ← to_str v; parse_ratelimit_remaining_str s
      | None => None
      end
  end.

Definition get_ratelimit_reset_header (h : list (bstr * bstr)) : option Z :=
  match get_header (bytes_of_string "ratelimit-reset") h with
  | Some v => s ← to_str v; parse_uint 64 s
  | None =>
      match get_header (bytes_of_string "x-ratelimit-reset") h with
      | Some v => s ← to_str v; parse_uint 64 s
      | None => None
      end
  end.

(** ** The WWW-Authenticate header

    The nom parser: a recoverable error ends a list, a missing closing quote is
    an incomplete input and ends the parse. *)
Inductive parsed (A : Type) := POk (a : A) (rest : bstr) | PErr | PIncomplete.
Arguments POk {A}. Arguments PErr {A}. Arguments PIncomplete {A}.

Definition is_alpha (b : byte) : bool :=
  let v := byte_val b in ((65 <=? v) && (v <=? 90)) || ((97 <=? v) && (v <=? 122)).

Fixpoint take_while (f : byte -> bool) (s : bstr) : bstr * bstr :=
  match s with
  | b :: s' => if f b then let '(l, r) := take_while f s' in (b :: l, r) else ([], s)
  | [] => ([], [])
  end.

Definition quote : byte := x22.

(** A pair: letters, an equals sign and a non-empty value in double quotes. *)
Definition p_pair (s : bstr) : parsed (bstr * bstr) :=
  let '(k, s) := take_while is_alpha s in
  if decide (k = []) then PErr
  else match strip_prefix [x3d; quote] s with
       | None => PErr
       | Some s =>
           match split_once quote s with
           | None => PIncomplete
           | Some ([], _) => PErr
           | Some (v, rest) => POk (k, v) rest
           end
       end.

Definition skip_spaces (s : bstr) : bstr := (take_while (fun b => bool_decide (b = x20)) s).2.

(** The rest of the list: a comma, spaces, a pair. *)
Fixpoint p_pairs (fuel : nat) (s : bstr) : option (list (bstr * bstr)) :=
  match fuel with
  | O => Some []
  | S fuel =>
      match strip_prefix [x2c] s with
      | None => Some []
      | Some s =>
          match p_pair (skip_spaces s) with
          | POk kv s => rest ← p_pairs fuel s; Some (kv :: rest)
          | PErr => Some []
          | PIncomplete => None
          end
      end
  end.

Record WWWAuthenticateBearer := {
  www_realm : option bstr; www_service : option bstr; www_scope : option bstr;
}.

Definition set_field (ret : WWWAuthenticateBearer) (kv : bstr * bstr) : WWWAuthenticateBearer :=
  if decide (kv.1 = bytes_of_string "realm") then
    {| www_realm := Some kv.2; www_service := www_service ret; www_scope := www_scope ret |}
  else if decide (kv.1 = bytes_of_string "service") then
    {| www_realm := www_realm ret; www_service := Some kv.2; www_scope := www_scope ret |}
  else if decide (kv.1 = bytes_of_string "scope") then
    {| www_realm := www_realm ret; www_service := www_service ret; www_scope := Some kv.2 |}
  else ret.

Definition parse_www_authenticate_bearer_str (input : bstr) : option WWWAuthenticateBearer :=
  s ← strip_prefix (bytes_of_string "Bearer") input;
  s ← strip_prefix [x20] s;
  let s := skip_spaces s in
  kvs ← match p_pair s with
        | POk kv s => rest ← p_pairs (length s) s; Some (kv :: rest)
        | PErr => Some []
        | PIncomplete => None
        end;
  Some (fold_left set_field kvs {| www_realm := None; www_service := None; www_scope := None |}).

Record WWWAuth := { realm : bstr; service : bstr }.

Definition parse_www_authenticate_bearer_header (v : bstr) : option WWWAuth :=
  s ← to_str v;
  res ← parse_www_authenticate_bearer_str s;
  r ← www_realm res; sv ← www_service res; Some {| realm := r; service := sv |}.

(** * Requests *)

(** The body is only read for the log. *)
Definition status_not_ok (res : HttpResponse) : Error := StatusNotOk (status res).

(** A client without tokens, credentials and rate limits; tokens expire after the
    time that they came with and count by their length. *)
Definition Client_new : Client := {| token_cache := ∅; auth_store := ∅; ratelimit := ∅ |}.
Definition token_weigher (k : bstr) (tok : Token) : Z :=
  default u32_max (try_into 32 (wadd 64 (zlen k) (zlen (token tok)))).
Definition expire_after_create (tok : Token) : option Z := Some (expires_in tok).
Definition set_auth (auth : gmap bstr Auth) : M unit :=
  set_client (fun c => {| token_cache := token_cache c; auth_store := auth; ratelimit := ratelimit c |}).

Definition DEFAULT_RATELIMIT_RESET : Z := 60.

Section requests.
(** [from_timestamp] of chrono is defined on a range of seconds; [parse_token]
    is the JSON of the authentication service. *)
Context (timestamp_ok : Z -> bool) (parse_token : bstr -> option (bstr * option Z)).

Definition token_key (r : Reference) : bstr := registry r ++ [x2f] ++ repository r.

(** A token that has not expired. *)
Definition cached_token (key : bstr) (c : Client) (t : Z) : option bstr :=
  match token_cache c !! key with
  | Some (tok, expires) => if t <? expires then Some tok else None
  | None => None
  end.

Definition check_ratelimit (r : Reference) : M unit :=
  let! c := get_client in
  match ratelimit c !! registry r with
  | None => mok tt
  | Some ratelimit_end =>
      let! t := now in
      if t <? ratelimit_end then merr RatelimitExceeded
      else set_client (fun c => {| token_cache := token_cache c; auth_store := auth_store c;
                                   ratelimit := delete (registry r) (ratelimit c) |})
  end.

(** The end of the rate-limit period that a response announces. *)
Definition ratelimit_end (res : HttpResponse) (t : Z) : Z :=
  match get_ratelimit_reset_header (headers res) with
  | Some reset =>
      let time := if (reset <? 2 ^ 63) && timestamp_ok reset then reset
                  else t + DEFAULT_RATELIMIT_RESET in
      if time <? t then t + reset else time
  | None => t + DEFAULT_RATELIMIT_RESET
  end.

Definition handle_ratelimit (r : Reference) (res : HttpResponse) : M unit :=
  if (status res =? 403) || (status res =? 429) then
    let! t := now in
    let! _ := set_client (fun c =>
      {| token_cache := token_cache c; auth_store := auth_store c;
         ratelimit := <[registry r := ratelimit_end res t]> (ratelimit c) |}) in
    merr RatelimitExceeded
  else mok tt.

Definition retreive_token_user_pass (r : Reference) (www : WWWAuth) (user pass : bstr) : M Token :=
  let scope := bytes_of_string "repository:" ++ repository r ++ bytes_of_string ":pull" in
  let! res := send {| url := realm www; accept := None; bearer := None;
                      basic_auth := Some (user, pass);
                      query := [(bytes_of_string "scope", scope);
                                (bytes_of_string "service", service www)] |} in
  let! body := lift (ok_or (read_chunks (chunks res)) Reqwest) in
  let! '(tok, exp) := lift (ok_or (parse_token body) Reqwest) in
  mok {| token := tok; expires_in := default 60 exp |}.

Definition get_token_for (r : Reference) (www : WWWAuth) : M (option bstr) :=
  let! c := get_client in
  match auth_store c !! registry r with
  | Some NoAuth => mok None
  | Some (UserPass user pass) =>
      let! t := now in
      match cached_token (token_key r) c t with
      | Some tok => mok (Some tok)
      | None => fun w =>
          match retreive_token_user_pass r www user pass w with
          | (w, Ok tok) =>
              bind (set_client (fun c =>
                {| token_cache := <[token_key r := (token tok, clock w + expires_in tok)]> (token_cache c);
                   auth_store := auth_store c; ratelimit := ratelimit c |}))
                (fun _ => mok (Some (token tok))) w
          | (w, Err _) => (w, Err Unknown)
          | (w, Panic) => (w, Panic)
          end
      end
  | None => merr (RegistryNotSupported (registry r))
  end.

Definition with_bearer (req : HttpRequest) (tok : bstr) : HttpRequest :=
  {| url := url req; accept := accept req; bearer := Some tok; basic_auth := basic_auth req;
     query := query req |}.

Definition auth_and_retry (r : Reference) (req : HttpRequest) : M HttpResponse :=
  let! _ := check_ratelimit r in
  let! c := get_client in
  let! t := now in
  let! res := send (match cached_token (token_key r) c t with
                    | Some tok => with_bearer req tok
                    | None => req
                    end) in
  let! _ := handle_ratelimit r res in
  if negb (status res =? 401) then mok res
  else
    let! www := lift (ok_or (get_header (bytes_of_string "www-authenticate") (headers res)
                             ≫= parse_www_authenticate_bearer_header) (StatusNotOk 401)) in
    let! tok := get_token_for r www in
    let! tok := lift (ok_or tok (StatusNotOk 401)) in
    let! res := send (with_bearer req tok) in
    let! _ := handle_ratelimit r res in
    mok res.
End requests.

(** * Downloads *)

Definition DOCKER_CONTENT_DIGEST_HEADER : bstr := bytes_of_string "docker-content-digest".
Definition OCI_IMAGE_INDEX_V1 : bstr := bytes_of_string "application/vnd.oci.image.index.v1+json".
Definition OCI_IMAGE_MANIFEST_V1 : bstr :=
  bytes_of_string "application/vnd.oci.image.manifest.v1+json".
Definition DOCKER_IMAGE_MANIFEST_V2 : bstr :=
  bytes_of_string "application/vnd.docker.distribution.manifest.v2+json".
Definition DOCKER_IMAGE_MANIFEST_LIST_V2 : bstr :=
  bytes_of_string "application/vnd.docker.distribution.manifest.list.v2+json".
Definition ACCEPTED_IMAGE_MANIFEST : bstr :=
  OCI_IMAGE_MANIFEST_V1 ++ bytes_of_string ", " ++ DOCKER_IMAGE_MANIFEST_V2.
Definition ACCEPTED_IMAGE_INDEX : bstr :=
  OCI_IMAGE_INDEX_V1 ++ bytes_of_string ", " ++ DOCKER_IMAGE_MANIFEST_LIST_V2.

Inductive TagOrDigest := Tag (s : bstr) | Digest (s : bstr).

Definition TagOrDigest_try_from (r : Reference) : result Error TagOrDigest :=
  match tag r, ref_digest r with
  | Some t, None => Ok (Tag t)
  | _, Some d => Ok (Digest d)
  | None, None => Err NoTagOrDigest
  end.
Definition td_as_str (td : TagOrDigest) : bstr := match td with Tag s | Digest s => s end.

Record ImageManifestResponse := { im_digest : OciImage.Digest; im_data : bstr }.
Record ImageConfigurationResponse := { ic_digest : OciImage.Digest; ic_data : bstr }.

(** An entry of an index, and what is read of a manifest. *)
Record IndexEntry := {
  entry_descriptor : OciImage.Descriptor; entry_platform : option (OciImage.Arch * OciImage.Os);
}.
Record Manifest := {
  manifest_config : OciImage.Descriptor;
  config_platform : option (OciImage.Arch * OciImage.Os);
  manifest_layers : list OciImage.Descriptor;
}.

(** The responses, parsed. *)
Definition im_get (parse_manifest : bstr -> option Manifest) (r : ImageManifestResponse) : option Manifest :=
  parse_manifest (im_data r).
Definition ic_get (parse_configuration : bstr -> option OciImage.ImageConfiguration) (r : ImageConfigurationResponse)
    : option OciImage.ImageConfiguration := parse_configuration (ic_data r).
Definition ii_get (parse_index : bstr -> option (list IndexEntry)) (data : bstr) : option (list IndexEntry) :=
  parse_index data.

Section downloads.
Context (timestamp_ok : Z -> bool) (parse_token : bstr -> option (bstr * option Z)).
Context (sha256 : bstr -> list byte).
(** Parsers of oci_spec: digests, indexes, manifests, and media types. *)
Context (digest_parse : bstr -> option OciImage.Digest).
Context (parse_index : bstr -> option (list IndexEntry)) (parse_manifest : bstr -> option Manifest).
Context (media_type_of : bstr -> OciImage.MediaType).
Context (algorithm_str : OciImage.DigestAlgorithm -> bstr).

Definition get_docker_content_digest (res : HttpResponse) : result Error (option OciImage.Digest) :=
  match get_header DOCKER_CONTENT_DIGEST_HEADER (headers res) with
  | None => Ok None
  | Some v => rmap Some (ok_or (to_str v ≫= digest_parse) BadDockerContentDigest)
  end.

Definition plain_request (u : bstr) (a : option bstr) : HttpRequest :=
  {| url := u; accept := a; bearer := None; basic_auth := None; query := [] |}.

Definition get_manifest (r : Reference) (acc : bstr)
    : M (option (bstr * option OciImage.Digest * bstr)) :=
  let! td := lift (TagOrDigest_try_from r) in
  let u := bytes_of_string "https://" ++ registry r ++ bytes_of_string "/v2/" ++ repository r ++
           bytes_of_string "/manifests/" ++ td_as_str td in
  let! res := auth_and_retry timestamp_ok parse_token r (plain_request u (Some acc)) in
  if status res =? 200 then
    let! digest := lift (match td with
                         | Digest s => rmap Some (ok_or (digest_parse s) BadDigest)
                         | Tag _ => get_docker_content_digest res
                         end) in
    let content_type :=
      match get_header (bytes_of_string "content-type") (headers res) with
      | Some v => default [] (to_str v)
      | None => []
      end in
    let! data := lift (ok_or (read_chunks (chunks res)) Reqwest) in
    let! _ := lift (check_data_matches_digest sha256 digest data) in
    mok (Some (content_type, digest, data))
  else if status res =? 404 then mok None
  else merr (status_not_ok res).

Definition get_image_manifest (r : Reference) : M (option ImageManifestResponse) :=
  let! m := get_manifest r ACCEPTED_IMAGE_MANIFEST in
  match m with
  | None => mok None
  | Some (content_type, digest, data) =>
      if bool_decide (content_type <> OCI_IMAGE_MANIFEST_V1) &&
         bool_decide (content_type <> DOCKER_IMAGE_MANIFEST_V2)
      then merr (BadContentType content_type)
      else mok (Some {| im_digest := default (digest_from_data sha256 data) digest; im_data := data |})
  end.

Definition get_image_index (r : Reference) : M (option bstr) :=
  match ref_digest r with
  | Some _ => merr NoImageIndexForRefWithDigest
  | None =>
      let! m := get_manifest r ACCEPTED_IMAGE_INDEX in
      match m with
      | None => mok None
      | Some (content_type, _, data) =>
          if bool_decide (content_type <> OCI_IMAGE_INDEX_V1) &&
             bool_decide (content_type <> DOCKER_IMAGE_MANIFEST_LIST_V2)
          then merr (BadContentType content_type)
          else mok (Some data)
      end
  end.

Definition matches_platform (arch : OciImage.Arch) (os : OciImage.Os) (e : IndexEntry) : bool :=
  match entry_platform e with
  | Some (a, o) => bool_decide (a = arch) && bool_decide (o = os)
  | None => false
  end.

Definition get_matching_descriptor_from_index (r : Reference) (arch : OciImage.Arch)
    (os : OciImage.Os) : M (option OciImage.Descriptor) :=
  let! m := get_manifest r ACCEPTED_IMAGE_INDEX in
  match m with
  | None => mok None
  | Some (content_type, digest, data) =>
      if bool_decide (content_type = OCI_IMAGE_INDEX_V1) ||
         bool_decide (content_type = DOCKER_IMAGE_MANIFEST_LIST_V2) then
        let! index := lift (ok_or (parse_index data) OciSpecError) in
        match find (matches_platform arch os) index with
        | Some e => mok (Some (entry_descriptor e))
        | None => merr NoMatchingManifest
        end
      else if bool_decide (content_type = OCI_IMAGE_MANIFEST_V1) ||
              bool_decide (content_type = DOCKER_IMAGE_MANIFEST_V2) then
        let digest := default (digest_from_data sha256 data) digest in
        let! manifest := lift (ok_or (parse_manifest data) OciSpecError) in
        let descriptor :=
          {| OciImage.media_type := media_type_of content_type; OciImage.desc_digest := digest;
             OciImage.size := zlen data |} in
        match config_platform manifest with
        | Some (a, o) =>
            if bool_decide (a <> arch) || bool_decide (o <> os) then merr NoMatchingManifest
            else mok (Some descriptor)
        | None =>
            if bool_decide (arch <> OciImage.Amd64) && bool_decide (os <> OciImage.Linux)
            then merr NoMatchingManifest
            else mok (Some descriptor)
        end
      else merr (BadContentType content_type)
  end.

Definition request_blob (r : Reference) (d : OciImage.Descriptor) : M HttpResponse :=
  let u := bytes_of_string "https://" ++ registry r ++ bytes_of_string "/v2/" ++ repository r ++
           bytes_of_string "/blobs/" ++ algorithm_str (OciImage.algorithm (OciImage.desc_digest d)) ++
           [x3a] ++ OciImage.digest (OciImage.desc_digest d) in
  auth_and_retry timestamp_ok parse_token r (plain_request u None).

Definition get_image_configuration (r : Reference) (d : OciImage.Descriptor)
    : M (option ImageConfigurationResponse) :=
  let! res := request_blob r d in
  if status res =? 200 then
    let! data := lift (ok_or (read_chunks (chunks res)) Reqwest) in
    let! _ := lift (check_data_matches_descriptor sha256 d data) in
    mok (Some {| ic_data := data; ic_digest := OciImage.desc_digest d |})
  else if status res =? 404 then mok None
  else merr (status_not_ok res).

(** ** Blobs

    The writer is any type with a fallible write and flush, which may have
    written a part when they fail; the hasher is the data it was fed. *)
Section blob.
Context {W : Type} (write : W -> bstr -> W * bool) (flush : W -> W * bool).

(** The [while let Some(chunk)] loop: length and hasher, and the writer. *)
Fixpoint copy_chunks (l : list (option bstr)) (len : Z) (hashed : bstr) (wr : W)
    : W * result Error (Z * bstr) :=
  match l with
  | [] => (wr, Ok (len, hashed))
  | None :: _ => (wr, Err Reqwest)
  | Some c :: l =>
      match write wr c with
      | (wr, true) => copy_chunks l (len + zlen c) (hashed ++ c) wr
      | (wr, false) => (wr, Err Write)
      end
  end.

(** The part of [get_blob] after the request. *)
Definition receive_blob (d : OciImage.Descriptor) (res : HttpResponse) (wr : W)
    : W * result Error (option Z) :=
  if status res =? 200 then
    match OciImage.algorithm (OciImage.desc_digest d) with
    | OciImage.Sha256 =>
        match copy_chunks (chunks res) 0 [] wr with
        | (wr, Ok (len, hashed)) =>
            match flush wr with
            | (wr, true) =>
                (wr, if negb (OciImage.size d =? len) then Err SizeMismatch
                     else let? _ := check_digest_matches (OciImage.desc_digest d) (sha256 hashed) in
                          Ok (Some len))%result
            | (wr, false) => (wr, Err Write)
            end
        | (wr, Err e) => (wr, Err e)
        | (wr, Panic) => (wr, Panic)
        end
    | a => (wr, Err (DigestAlgorithmNotHandled a))
    end
  else if status res =? 404 then (wr, Ok None)
  else (wr, Err (status_not_ok res)).

Definition get_blob (r : Reference) (d : OciImage.Descriptor) (wr : W) (w : World)
    : World * (W * result Error (option Z)) :=
  match request_blob r d w with
  | (w, Ok res) => (w, receive_blob d res wr)
  | (w, Err e) => (w, (wr, Err e))
  | (w, Panic) => (w, (wr, Panic))
  end.
End blob.
End downloads.

(** * Lemmas *)

Lemma bind_Ok {A B} (c : M A) (k : A -> M B) w w' b :
  bind c k w = (w', Ok b) -> exists w1 a, c w = (w1, Ok a) /\ k a w1 = (w', Ok b).
Proof. unfold bind. destruct (c w) as [w1 [a|e|]]; intros H; simplify_eq; eauto. Qed.

Lemma lift_Ok {A} (r : result Error A) w w' a : lift r w = (w', Ok a) -> w' = w /\ r = Ok a.
Proof. unfold lift. by intros [= -> ->]. Qed.

(** [m_inv H] splits a successful computation along its binds. *)
Ltac m_inv H :=
  lazymatch type of H with
  | bind _ _ _ = (_, Ok _) =>
      let w1 := fresh "w" in let a := fresh "a" in let H1 := fresh H in
      apply bind_Ok in H as (w1 & a & H1 & H); cbv beta in H
  | lift _ _ = (_, Ok _) => apply lift_Ok in H as [? H]; subst
  end.

Lemma LUT_hex n : 0 <= n < 16 -> LUT !! Z.to_nat n = Some (hex_digit n).
Proof.
  intros Hn. assert (Forall (fun k => LUT !! Z.to_nat k = Some (hex_digit k)) (seqZ 0 16)) as Hall
    by (repeat constructor).
  rewrite Forall_forall in Hall. apply Hall, elem_of_seqZ. lia.
Qed.

(** Comparing nibble by nibble is comparing with the encoding. *)
Lemma pairs_eq_spec s d :
  length s = (2 * length d)%nat -> pairs_eq s d = true <-> s = hex_encode d.
Proof.
  revert s. induction d as [|b d IH]; intros s Hl.
  { destruct s; [done|simpl in Hl; lia]. }
  destruct s as [|p0 [|p1 s]]; [simpl in Hl; lia..|]. simpl in Hl.
  rewrite hex_encode_cons. cbn [pairs_eq]. pose proof (byte_val_range b).
  pose proof (Z.div_mod (byte_val b) 16 ltac:(lia)). pose proof (Z.mod_pos_bound (byte_val b) 16 ltac:(lia)).
  rewrite (Z.shiftr_div_pow2 _ 4), (Z.land_ones _ 4 ltac:(lia) : Z.land _ 15 = _) by lia.
  change (2 ^ 4) with 16. rewrite !LUT_hex by lia.
  rewrite !andb_true_iff, !bool_decide_eq_true, IH by lia. naive_solver.
Qed.

Lemma digest_eq_iff s d : digest_eq s d = true <-> s = hex_encode d.
Proof.
  unfold digest_eq, zlen. destruct (Z.eqb_spec (Z.of_nat (length s)) (2 * Z.of_nat (length d))) as [E|E]; simpl.
  - apply pairs_eq_spec. lia.
  - split; [done|]. intros ->. rewrite length_hex_encode in E. lia.
Qed.

Lemma parse_digits_nonneg w acc s n : 0 <= acc -> parse_digits w acc s = Some n -> 0 <= n.
Proof.
  revert acc. induction s as [|b s IH]; intros acc Ha; simpl; [by intros [= <-]|].
  unfold digit_val. destruct (_ && _) eqn:E; [|done]. apply andb_true_iff in E as [E%Z.leb_le _].
  destruct (_ <? _); [|done]. apply IH. lia.
Qed.

Lemma parse_uint_nonneg w s n : parse_uint w s = Some n -> 0 <= n.
Proof.
  unfold parse_uint. destruct s as [|b s]; [done|]. case_decide.
  - destruct s; [done|]. by apply parse_digits_nonneg.
  - by apply parse_digits_nonneg.
Qed.

Section ratelimit.
Context (timestamp_ok : Z -> bool) (parse_token : bstr -> option (bstr * option Z)).

Lemma ratelimit_end_later res t : t <= ratelimit_end timestamp_ok res t.
Proof.
  unfold ratelimit_end, DEFAULT_RATELIMIT_RESET.
  destruct (get_ratelimit_reset_header _) as [reset|] eqn:E; [|lia].
  assert (0 <= reset).
  { unfold get_ratelimit_reset_header in E.
    destruct (get_header _ _) as [v|]; [|destruct (get_header _ _) as [v|]; [|done]];
      destruct (to_str v); try done; simpl in E; by eapply parse_uint_nonneg. }
  repeat case_match; try lia; apply Z.ltb_ge in H0 || apply Z.ltb_ge in H1; lia.
Qed.

(** The registry is closed until some time that is not in the past. *)
Definition closed (r : Reference) (w : World) : Prop :=
  exists t, ratelimit (client w) !! registry r = Some t /\ clock w <= t.

Lemma handle_ratelimit_spec r res w :
  (status res <> 403 /\ status res <> 429 /\ handle_ratelimit timestamp_ok r res w = (w, Ok tt)) \/
  exists w', handle_ratelimit timestamp_ok r res w = (w', Err RatelimitExceeded) /\
    closed r w' /\ sent w' = sent w.
Proof.
  unfold handle_ratelimit.
  destruct (Z.eqb_spec (status res) 403), (Z.eqb_spec (status res) 429); simpl; auto;
    right; (eexists; split; [done|]; split; [|done]; eexists; simpl;
      rewrite lookup_insert_eq; split; [done|apply ratelimit_end_later]).
Qed.

Lemma check_ratelimit_spec r w :
  match check_ratelimit r w with
  | (w', Ok _) => sent w' = sent w
  | (w', Err e) => w' = w /\ e = RatelimitExceeded /\ closed r w
  | (_, Panic) => False
  end.
Proof.
  unfold check_ratelimit, bind, get_client, now, merr, mok, set_client.
  destruct (ratelimit (client w) !! registry r) as [t|] eqn:E; [|done].
  destruct (Z.ltb_spec (clock w) t); [|done]. split_and!; [done..|]. exists t. split; [done|lia].
Qed.

Lemma check_ratelimit_closed r w t :
  ratelimit (client w) !! registry r = Some t -> clock w < t ->
  check_ratelimit r w = (w, Err RatelimitExceeded).
Proof.
  intros E H. unfold check_ratelimit, bind, get_client, now. rewrite E.
  by rewrite (proj2 (Z.ltb_lt _ _)).
Qed.

Lemma send_spec req w :
  exists w', sent w' = sent w ++ [req] /\
    (send req w = (w', Err Reqwest) \/ exists res, send req w = (w', Ok res)).
Proof.
  unfold send. destruct (net w) as [|[dt [res|]] n]; eexists; split; eauto; done.
Qed.

(** At most one request goes to the authentication service. *)
Lemma get_token_for_spec r www w w' res :
  get_token_for parse_token r www w = (w', res) ->
  res <> Panic /\ res <> Err RatelimitExceeded /\
  exists extra, sent w' = sent w ++ extra /\ (length extra <= 1)%nat.
Proof.
  unfold get_token_for, bind, get_client, now, mok, merr.
  assert (exists extra : list HttpRequest, sent w = sent w ++ extra /\ (length extra <= 1)%nat) as H0
    by (exists []; rewrite app_nil_r; split; [done|simpl; lia]).
  destruct (auth_store (client w) !! registry r) as [[|u p]|]; [by intros [= <- <-]| |by intros [= <- <-]].
  destruct (cached_token _ _ _) as [tok|]; [by intros [= <- <-]|].
  unfold retreive_token_user_pass.
  match goal with |- context [send ?q] => destruct (send_spec q w) as (w1 & Hs & [E|[rs E]]) end;
    unfold bind; rewrite E.
  all: assert (exists extra, sent w1 = sent w ++ extra /\ (length extra <= 1)%nat) as H1 by (by eexists).
  { by intros [= <- <-]. }
  unfold lift. destruct (read_chunks _) as [body|]; simpl; [|by intros [= <- <-]].
  destruct (parse_token body) as [[tok exp]|]; simpl; by intros [= <- <-].
Qed.

Lemma auth_and_retry_spec r req w w' res :
  auth_and_retry timestamp_ok parse_token r req w = (w', res) ->
  res <> Panic /\ (res = Err RatelimitExceeded -> closed r w') /\
  (forall x, res = Ok x -> status x <> 403 /\ status x <> 429) /\
  exists extra, sent w' = sent w ++ extra /\ (length extra <= 3)%nat.
Proof.
  unfold auth_and_retry. unfold bind at 1. pose proof (check_ratelimit_spec r w) as Hc.
  destruct (check_ratelimit r w) as [w1 [u|e|]]; [| |done].
  2: { destruct Hc as (-> & -> & Hc). intros [= <- <-]. split_and!; [done..|].
       exists []. rewrite app_nil_r. split; [done|simpl; lia]. }
  unfold bind at 1, get_client. unfold bind at 1, now. unfold bind at 1.
  set (q := match cached_token _ _ _ with Some _ => _ | None => _ end).
  destruct (send_spec q w1) as (w2 & Hs & [E|[rs E]]); rewrite E.
  { intros [= <- <-]. split_and!; [done..|]. exists [q]. rewrite Hs, Hc. split; [done|simpl; lia]. }
  unfold bind at 1. destruct (handle_ratelimit_spec r rs w2) as [(H1 & H2 & ->)|(w3 & -> & Hcl & Hs3)].
  2: { intros [= <- <-]. split_and!; [done..|]. exists [q]. rewrite Hs3, Hs, Hc. split; [done|simpl; lia]. }
  destruct (negb (status rs =? 401)).
  { intros [= <- <-]. split_and!; [done|done|by intros ? [= <-]|].
    exists [q]. rewrite Hs, Hc. split; [done|simpl; lia]. }
  unfold bind at 1, lift at 1. destruct (get_header _ _ ≫= _) as [www|]; simpl.
  2: { intros [= <- <-]. split_and!; [done..|]. exists [q]. rewrite Hs, Hc. split; [done|simpl; lia]. }
  unfold bind at 1. destruct (get_token_for parse_token r www w2) as [w3 rt] eqn:Ht.
  apply get_token_for_spec in Ht as (Hp & Hr & extra & Hs3 & Hl).
  assert (sent w3 = sent w ++ [q] ++ extra) as Hs3' by (by rewrite Hs3, Hs, Hc, <-app_assoc).
  destruct rt as [tok|e|]; [|intros [= <- <-]; split_and!; [done|congruence|done|];
    exists ([q] ++ extra); split; [done|simpl; lia]|done].
  unfold bind at 1, lift at 1. destruct tok as [tok|]; simpl.
  2: { intros [= <- <-]. split_and!; [done..|]. exists ([q] ++ extra). split; [done|simpl; lia]. }
  unfold bind at 1. destruct (send_spec (with_bearer req tok) w3) as (w4 & Hs4 & [E4|[rs4 E4]]); rewrite E4.
  { intros [= <- <-]. split_and!; [done..|]. exists ([q] ++ extra ++ [with_bearer req tok]).
    rewrite Hs4, Hs3', <-!app_assoc. split; [done|]. simpl. rewrite length_app. simpl. lia. }
  unfold bind. destruct (handle_ratelimit_spec r rs4 w4) as [(H3 & H4 & ->)|(w5 & -> & Hcl & Hs5)];
    intros [= <- <-]; (split_and!; [done|done|by intros ? [= <-]|]);
    exists ([q] ++ extra ++ [with_bearer req tok]);
    rewrite ?Hs5, Hs4, Hs3', <-!app_assoc; (split; [done|]); simpl; rewrite length_app; simpl; lia.
Qed.
End ratelimit.

(** The chunks that a download wrote, in order. *)
Fixpoint write_seq {W} (write : W -> bstr -> W * bool) (wr : W) (cs : list bstr) : W * bool :=
  match cs with
  | [] => (wr, true)
  | c :: cs => match write wr c with
               | (wr, true) => write_seq write wr cs
               | (wr, false) => (wr, false)
               end
  end.

Lemma copy_chunks_spec {W} (write : W -> bstr -> W * bool) l len hashed wr wr' res :
  copy_chunks write l len hashed wr = (wr', res) ->
  exists cs ok, write_seq write wr cs = (wr', ok) /\
    forall len' hashed', res = Ok (len', hashed') ->
      ok = true /\ l = Some <$> cs /\ len' = len + zlen (concat cs) /\ hashed' = hashed ++ concat cs.
Proof.
  revert len hashed wr. induction l as [|[c|] l IH]; intros len hashed wr; simpl.
  - intros [= <- <-]. exists [], true. split; [done|]. intros ?? [= <- <-]. simpl.
    change (zlen (@nil byte)) with 0. by rewrite app_nil_r, Z.add_0_r.
  - destruct (write wr c) as [wr1 [|]] eqn:E.
    + intros H. apply IH in H as (cs & ok & Hw & Hr). exists (c :: cs), ok. csimpl. rewrite E.
      split; [done|]. intros len' hashed' Hl. destruct (Hr _ _ Hl) as (-> & -> & -> & ->).
      rewrite zlen_app, <-app_assoc. split_and!; [done..|lia|done].
    + intros [= <- <-]. exists [c], false. simpl. by rewrite E.
  - intros [= <- <-]. by exists [], true.
Qed.

Ltac nothing_written wr := exists [], wr, true; split; [done|]; split; [by left|by intros].

(** What a download has written, whether it succeeds or not. *)
Lemma receive_blob_spec sha256 {W} write flush d res (wr wr' : W) r :
  receive_blob sha256 write flush d res wr = (wr', r) ->
  exists cs wr1 ok, write_seq write wr cs = (wr1, ok) /\ (wr' = wr1 \/ exists b, flush wr1 = (wr', b)) /\
    forall n, r = Ok (Some n) ->
      ok = true /\ flush wr1 = (wr', true) /\ n = zlen (concat cs) /\ OciImage.size d = n /\
      OciImage.algorithm (OciImage.desc_digest d) = OciImage.Sha256 /\
      OciImage.digest (OciImage.desc_digest d) = hex_encode (sha256 (concat cs)) /\
      status res = 200 /\ chunks res = Some <$> cs.
Proof.
  unfold receive_blob. destruct (Z.eqb_spec (status res) 200) as [H200|_].
  2: { destruct (status res =? 404); intros [= <- <-]; nothing_written wr. }
  destruct (OciImage.algorithm _) eqn:Ha; [|intros [= <- <-]; nothing_written wr].
  destruct (copy_chunks _ _ _ _ _) as [wr1 rc] eqn:Hc. apply copy_chunks_spec in Hc as (cs & ok & Hw & Hr).
  intros H. exists cs, wr1, ok. split; [done|].
  destruct rc as [[len hashed]|e|]; [|injection H as <- <-; split; [by left|by intros]..].
  destruct (Hr _ _ eq_refl) as (-> & Hcs & -> & ->). rewrite Z.add_0_l in H.
  destruct (flush wr1) as [wr2 [|]] eqn:Hf; injection H as <- <-;
    [|split; [by eauto|by intros]].
  split; [eauto|]. intros n Hn. destruct (Z.eqb_spec (OciImage.size d) (zlen (concat cs))); [|done].
  simpl in Hn. unfold check_digest_matches in Hn. destruct (digest_eq _ _) eqn:E; [|done].
  apply digest_eq_iff in E. simplify_eq/=. by split_and!.
Qed.

Lemma check_data_digest_Ok sha256 d data :
  check_data_matches_digest sha256 (Some d) data = Ok tt ->
  OciImage.algorithm d = OciImage.Sha256 /\ OciImage.digest d = hex_encode (sha256 data).
Proof.
  unfold check_data_matches_digest, data_matches_digest.
  destruct (OciImage.algorithm d); [|done].
  destruct (digest_eq _ _) eqn:E; [|done]. by apply digest_eq_iff in E.
Qed.

Lemma get_blob_spec timestamp_ok parse_token sha256 algorithm_str {W} write flush r d (wr wr' : W) w w' res :
  get_blob timestamp_ok parse_token sha256 algorithm_str write flush r d wr w = (w', (wr', res)) ->
  exists cs wr1 ok, write_seq write wr cs = (wr1, ok) /\ (wr' = wr1 \/ exists b, flush wr1 = (wr', b)) /\
    forall n, res = Ok (Some n) ->
      ok = true /\ flush wr1 = (wr', true) /\ n = zlen (concat cs) /\ OciImage.size d = n /\
      OciImage.algorithm (OciImage.desc_digest d) = OciImage.Sha256 /\
      OciImage.digest (OciImage.desc_digest d) = hex_encode (sha256 (concat cs)) /\
      exists rs, request_blob timestamp_ok parse_token algorithm_str r d w = (w', Ok rs) /\
        status rs = 200 /\ chunks rs = Some <$> cs.
Proof.
  unfold get_blob. destruct (request_blob _ _ _ _ _ _) as [w1 [rs|e|]].
  - intros [= <- E]. apply receive_blob_spec in E as (cs & wr1 & ok & Hw & Hf & Hr). exists cs, wr1, ok.
    split; [done|]. split; [done|]. intros n Hn. destruct (Hr n Hn) as (? & ? & ? & ? & ? & ? & ? & ?).
    split_and!; [done..|]. by exists rs.
  - intros [= _ <- <-]. nothing_written wr.
  - intros [= _ <- <-]. nothing_written wr.
Qed.

Lemma check_data_matches_descriptor_Ok sha256 d data :
  check_data_matches_descriptor sha256 d data = Ok tt ->
  OciImage.algorithm (OciImage.desc_digest d) = OciImage.Sha256 /\
  OciImage.digest (OciImage.desc_digest d) = hex_encode (sha256 data) /\ OciImage.size d = zlen data.
Proof.
  unfold check_data_matches_descriptor, data_matches_digest.
  destruct (Z.eqb_spec (OciImage.size d) (zlen data)); [simpl|done].
  destruct (OciImage.algorithm _); [|done].
  destruct (digest_eq _ _) eqn:E; [|done]. by apply digest_eq_iff in E.
Qed.

(** A delivered manifest has the digest that it is reported with. *)
Lemma get_image_manifest_spec timestamp_ok parse_token sha256 digest_parse r w w' resp :
  get_image_manifest timestamp_ok parse_token sha256 digest_parse r w = (w', Ok (Some resp)) ->
  OciImage.algorithm (im_digest resp) = OciImage.Sha256 /\
  OciImage.digest (im_digest resp) = hex_encode (sha256 (im_data resp)) /\
  forall s, ref_digest r = Some s -> digest_parse s = Some (im_digest resp).
Proof.
  unfold get_image_manifest. intros H. m_inv H. destruct a as [[[ct dg] data]|]; [|discriminate H].
  destruct (_ && _); [discriminate H|]. injection H as _ <-. cbn [im_digest im_data].
  unfold get_manifest in H0. rename H0 into G. m_inv G. m_inv G0. m_inv G.
  destruct (status a0 =? 200); [|destruct (status a0 =? 404); discriminate G].
  m_inv G. m_inv G2. m_inv G. m_inv G3. m_inv G. m_inv G4. injection G as _ _ <- <-.
  destruct a1 as [d|].
  - destruct a3. apply check_data_digest_Ok in G4 as [H5 H6]. split_and!; [exact H5|exact H6|].
    intros s Hs. unfold TagOrDigest_try_from in G0. rewrite Hs in G0.
    assert (a = Digest s) as -> by (by destruct (tag r); injection G0).
    apply rmap_Ok_inv in G2 as (d' & Hd & [= ->]). by apply ok_or_Ok in Hd.
  - split_and!; [done..|]. intros s Hs. unfold TagOrDigest_try_from in G0. rewrite Hs in G0.
    assert (a = Digest s) as -> by (by destruct (tag r); injection G0).
    by apply rmap_Ok_inv in G2 as (d' & Hd & ?).
Qed.

Lemma get_image_configuration_spec timestamp_ok parse_token sha256 algorithm_str r d w w' resp :
  get_image_configuration timestamp_ok parse_token sha256 algorithm_str r d w = (w', Ok (Some resp)) ->
  OciImage.algorithm (OciImage.desc_digest d) = OciImage.Sha256 /\
  OciImage.digest (OciImage.desc_digest d) = hex_encode (sha256 (ic_data resp)) /\
  OciImage.size d = zlen (ic_data resp).
Proof.
  unfold get_image_configuration. intros H. m_inv H.
  destruct (status a =? 200); [|destruct (status a =? 404); discriminate H].
  m_inv H. m_inv H1. m_inv H. m_inv H2. injection H as _ <-. cbn [ic_data].
  destruct a1. by apply check_data_matches_descriptor_Ok in H2.
Qed.

(** * Properties *)

(** C29: The comparison without allocation is the comparison of strings: a hex
    string is accepted for a hash exactly when it is the hash's lower-case
    encoding. *)
Theorem digest_eq_correct s d : digest_eq s d = true <-> s = hex_encode d.
Proof. apply digest_eq_iff. Qed.

(** C15: a blob that is delivered is the blob that was asked for.  When a download
    succeeds with a length, the request for the descriptor's blob was answered with
    status 200, the writer received, in order, exactly all chunks of the body of
    that answer and was flushed, and together they have exactly the descriptor's
    size and its digest as their SHA-256. *)
Theorem blob_verified timestamp_ok parse_token sha256 algorithm_str {W}
    (write : W -> bstr -> W * bool) flush r d wr w w' len wr' :
  get_blob timestamp_ok parse_token sha256 algorithm_str write flush r d wr w =
    (w', (wr', Ok (Some len))) ->
  exists res cs wr1,
    request_blob timestamp_ok parse_token algorithm_str r d w = (w', Ok res) /\
    status res = 200 /\ chunks res = Some <$> cs /\
    write_seq write wr cs = (wr1, true) /\ flush wr1 = (wr', true) /\
    len = zlen (concat cs) /\ OciImage.size d = len /\
    OciImage.algorithm (OciImage.desc_digest d) = OciImage.Sha256 /\
    OciImage.digest (OciImage.desc_digest d) = hex_encode (sha256 (concat cs)).
Proof.
  intros H. apply get_blob_spec in H as (cs & wr1 & ok & Hw & _ & Hr).
  destruct (Hr len eq_refl) as (-> & Hf & Hl & Hs & Ha & Hd & res & Hq & H200 & Hc). by exists res, cs, wr1.
Qed.

(** A world with one answer, and a hash for the examples. *)
Definition example_world (res : HttpResponse) : World :=
  {| clock := 100; net := [(1, Some res)]; sent := [];
     client := {| token_cache := ∅; auth_store := ∅; ratelimit := ∅ |} |}.
Definition example_reference : Reference :=
  {| registry := bytes_of_string "quay.io"; repository := bytes_of_string "fedora/fedora";
     tag := Some (bytes_of_string "42"); ref_digest := None |}.
Definition example_hash (data : bstr) : list byte := [byte_of (zlen data)].
Definition example_descriptor : OciImage.Descriptor :=
  {| OciImage.media_type := OciImage.ImageLayer; OciImage.size := 3;
     OciImage.desc_digest :=
       {| OciImage.algorithm := OciImage.Sha256; OciImage.digest := bytes_of_string "03" |} |}.
Definition example_blob_world : World :=
  example_world {| status := 200; headers := []; chunks := [Some [x61]; Some [x62; x63]] |}.
Definition append (wr c : bstr) : bstr * bool := (wr ++ c, true).
Definition no_flush (wr : bstr) : bstr * bool := (wr, true).

Lemma blob_verified_witness :
  exists w', get_blob (fun _ => true) (fun _ => None) example_hash (fun _ => []) append no_flush
      example_reference example_descriptor [] example_blob_world = (w', ([x61; x62; x63], Ok (Some 3))) /\
  exists res cs wr1,
    request_blob (fun _ => true) (fun _ => None) (fun _ => []) example_reference example_descriptor
      example_blob_world = (w', Ok res) /\
    status res = 200 /\ chunks res = Some <$> cs /\
    write_seq append [] cs = (wr1, true) /\ no_flush wr1 = ([x61; x62; x63], true) /\
    3 = zlen (concat cs) /\ OciImage.size example_descriptor = 3 /\
    OciImage.algorithm (OciImage.desc_digest example_descriptor) = OciImage.Sha256 /\
    OciImage.digest (OciImage.desc_digest example_descriptor) = hex_encode (example_hash (concat cs)).
Proof.
  eexists. split; [vm_compute; reflexivity|].
  eapply (blob_verified (fun _ => true) (fun _ => None) example_hash (fun _ => []) append no_flush
    example_reference example_descriptor [] example_blob_world).
  vm_compute. reflexivity.
Defined.

(** A manifest that is delivered is the manifest that was asked for: its
    digest is the SHA-256 of the data, and it is the digest of the reference
    when the reference has one. *)
Theorem manifest_verified timestamp_ok parse_token sha256 digest_parse r w w' resp :
  get_image_manifest timestamp_ok parse_token sha256 digest_parse r w = (w', Ok (Some resp)) ->
  OciImage.algorithm (im_digest resp) = OciImage.Sha256 /\
  OciImage.digest (im_digest resp) = hex_encode (sha256 (im_data resp)) /\
  forall s, ref_digest r = Some s -> digest_parse s = Some (im_digest resp).
Proof. apply get_image_manifest_spec. Qed.

Definition example_manifest_world : World :=
  example_world {| status := 200; headers := [(bytes_of_string "content-type", OCI_IMAGE_MANIFEST_V1)];
                   chunks := [Some [x7b; x7d]] |}.

Lemma manifest_verified_witness :
  exists w' resp,
    get_image_manifest (fun _ => true) (fun _ => None) example_hash (fun _ => None) example_reference
      example_manifest_world = (w', Ok (Some resp)) /\
    OciImage.digest (im_digest resp) = hex_encode (example_hash (im_data resp)).
Proof.
  do 2 eexists. split; [vm_compute; reflexivity|].
  apply (manifest_verified (fun _ => true) (fun _ => None) example_hash (fun _ => None)
    example_reference example_manifest_world _ _ eq_refl).
Defined.

(** C17: rate limits are respected.  A request makes at most three calls, the
    authentication service included; it never hands a 403 or 429 to its caller;
    and when it ends with the rate limit error, the registry is closed until a
    time that is not in the past, during which every request to it fails
    without a call. *)
Theorem ratelimit_respected timestamp_ok parse_token r req w w' res :
  auth_and_retry timestamp_ok parse_token r req w = (w', res) ->
  (exists extra, sent w' = sent w ++ extra /\ (length extra <= 3)%nat) /\
  (forall x, res = Ok x -> status x <> 403 /\ status x <> 429) /\
  (res = Err RatelimitExceeded ->
   exists t, clock w' <= t /\ forall r2 req2 w2, client w2 = client w' ->
     registry r2 = registry r -> clock w2 < t ->
     auth_and_retry timestamp_ok parse_token r2 req2 w2 = (w2, Err RatelimitExceeded)).
Proof.
  intros H. apply auth_and_retry_spec in H as (_ & Hc & Hs & He). split_and!; [done..|].
  intros E. destruct (Hc E) as (t & Ht & Hle). exists t. split; [done|].
  intros r2 req2 w2 Hcl Hr Hlt. unfold auth_and_retry, bind at 1.
  by rewrite (check_ratelimit_closed r2 w2 t) by (rewrite ?Hcl, ?Hr; done).
Qed.

Definition example_limited_world : World :=
  example_world {| status := 429; headers := [(bytes_of_string "x-ratelimit-reset", bytes_of_string "500")];
                   chunks := [] |}.

Lemma ratelimit_respected_witness :
  exists w', auth_and_retry (fun _ => true) (fun _ => None) example_reference (plain_request [] None)
      example_limited_world = (w', Err RatelimitExceeded) /\
    ratelimit (client w') !! bytes_of_string "quay.io" = Some 500 /\
    exists t, clock w' <= t /\ forall r2 req2 w2, client w2 = client w' ->
     registry r2 = registry example_reference -> clock w2 < t ->
     auth_and_retry (fun _ => true) (fun _ => None) r2 req2 w2 = (w2, Err RatelimitExceeded).
Proof.
  assert (auth_and_retry (fun _ => true) (fun _ => None) example_reference (plain_request [] None)
    example_limited_world = (fst (auth_and_retry (fun _ => true) (fun _ => None) example_reference
      (plain_request [] None) example_limited_world), Err RatelimitExceeded)) as Hw
    by (apply pair_of_snd; vm_compute; reflexivity).
  eexists. split; [exact Hw|]. split; [vm_compute; reflexivity|].
  exact (proj2 (proj2 (ratelimit_respected (fun _ => true) (fun _ => None) example_reference
    (plain_request [] None) example_limited_world _ _ Hw)) eq_refl).
Defined.

(** A manifest without a platform is accepted for arm64 linux: the guard asks
    for both the architecture and the system to differ, so it lets pass a
    request that differs in one, which the comment above it excludes. *)
Theorem platformless_manifest_accepted :
  exists w', get_matching_descriptor_from_index (fun _ => true) (fun _ => None) example_hash
      (fun _ => None) (fun _ => None)
      (fun _ => Some {| manifest_config := example_descriptor; config_platform := None;
                        manifest_layers := [] |})
      (fun _ => OciImage.ImageLayer) example_reference OciImage.ARM64 OciImage.Linux
      example_manifest_world =
    (w', Ok (Some {| OciImage.media_type := OciImage.ImageLayer;
                     OciImage.desc_digest := digest_from_data example_hash [x7b; x7d];
                     OciImage.size := 2 |})).
Proof. eexists. vm_compute. reflexivity. Qed.

(** The header of the distribution specification's example. *)
Example www_authenticate_example :
  parse_www_authenticate_bearer_header
    (bytes_of_string "Bearer   realm=" ++ [quote] ++ bytes_of_string "https://auth.docker.io/token" ++
     [quote] ++ bytes_of_string ",  service=" ++ [quote] ++ bytes_of_string "registry.docker.io" ++
     [quote] ++ bytes_of_string ",scope=" ++ [quote] ++ bytes_of_string "repository:a/b:pull,push" ++ [quote]) =
  Some {| realm := bytes_of_string "https://auth.docker.io/token";
          service := bytes_of_string "registry.docker.io" |}.
Proof. vm_compute. reflexivity. Qed.
