(* ===== verification/BlobCache.v ===== *)
(** The files of the blob cache (src/peoci/src/blobcache.rs).

    A blob lives in the file [algorithm/encoded] of the cache directory.  A
    download writes the file with the suffix [_tmp] and a guard renames it when
    the download succeeded or unlinks it when it did not.  The file system is an
    interface: the system calls the code makes, with the documented effects on
    names and contents, and an instance that has them.  The machine of this file
    interleaves downloads, cancellations, removals, reads and crashes; its
    invariant says that a blob is published as a whole. *)
From stdpp Require Import option base list sets numbers strings gmap.
From Stdlib Require Import ZArith Lia.
From S2P Require Import Prelude BTree Text.
#[local] Open Scope Z_scope.

(** * Keys and names *)

Definition colon : byte := x3a.
Definition fslash : byte := x2f.
Definition dot : byte := x2e.
Definition tmp_suffix : bstr := bytes_of_string "_tmp".

Record BlobKey := { key : bstr }.

#[export] Instance BlobKey_eq_dec : EqDecision BlobKey.
Proof. solve_decision. Defined.
#[export] Instance BlobKey_countable : Countable BlobKey.
Proof. apply (inj_countable' key (fun s => {| key := s |})). by intros []. Defined.

Definition BlobKey_new (s : bstr) : option BlobKey :=
  if bool_decide (dot ∈ s) || bool_decide (fslash ∈ s) then None
  else match split_once colon s with
       | Some (l, r) => if bool_decide (l = []) || bool_decide (r = []) then None
                        else Some {| key := s |}
       | None => None
       end.

(** [TryFrom<&Digest>], with the digest's text. *)
Definition BlobKey_try_from {D} (to_string : D -> bstr) (d : D) : result unit BlobKey :=
  match BlobKey_new (to_string d) with Some k => Ok k | None => Err tt end.

Definition from_cstr_parts (to_str : bstr -> option bstr) (a b : bstr) : option BlobKey :=
  a ← to_str a; b ← to_str b; BlobKey_new (a ++ [colon] ++ b).

(** [replacen(":", "/", 1)] *)
Definition as_path (k : BlobKey) : bstr :=
  match split_once colon (key k) with
  | Some (l, r) => l ++ fslash :: r
  | None => key k
  end.

(** The [unwrap] of [split_once]. *)
Definition parts {E} (k : BlobKey) : result E (bstr * bstr) := expect (split_once colon (key k)).

Definition with_tmp_suffix (k : BlobKey) : BlobKey := {| key := key k ++ tmp_suffix |}.

Record GenericName := { name : bstr }.
Definition GenericName_new (s : bstr) : option GenericName :=
  if bool_decide (dot ∈ s) || bool_decide (fslash ∈ s) then None else Some {| name := s |}.
Definition generic_tmp (n : GenericName) : bstr := name n ++ tmp_suffix.

(** The counters of the caches; [atomic_take] returns the old value as well. *)
Definition atomic_inc (x : Z) : Z := wadd 64 x 1.
Definition atomic_take (x : Z) : Z * Z := (0, x).

Definition BLOB_SIZE_DIVISOR : Z := 1000.
Definition max_capacity (x : Z) : Z := x / BLOB_SIZE_DIVISOR.
Definition weigher (size : Z) : Z :=
  default u32_max (try_into 32 (Z.max 1 (size / BLOB_SIZE_DIVISOR))).

(** * The file system

    What the code asks of the kernel.  [links] and [content] observe a state;
    a file keeps its identity, and its contents, while it is open. *)

Inductive Errno := NOENT | EXIST | OtherErrno.

Class FileSystem (F : Type) := {
  links : F -> bstr -> option nat;
  content : F -> nat -> bstr;
  openat2_create : bstr -> F -> F * result Errno nat;
  openat2_read : bstr -> F -> F * result Errno nat;
  mkdirat : bstr -> F -> F * result Errno unit;
  renameat : bstr -> bstr -> F -> F * result Errno unit;
  sys_unlinkat : bstr -> F -> F * result Errno unit;
  fs_write : nat -> bstr -> F -> F * bool;
  fs_store : nat -> bstr -> F -> F * bool;
}.

(** * Operations *)

Section operations.
Context {F : Type} `{FileSystem F}.

Definition unlinkat (k : BlobKey) (f : F) : F * result Errno unit := sys_unlinkat (as_path k) f.

Definition openat_key (k : BlobKey) (f : F) : F * result Errno nat := openat2_create (as_path k) f.

Definition openat_create_write (k : BlobKey) (f : F) : F * result Errno nat :=
  match openat_key k f with
  | (f, Err NOENT) =>
      match parts k with
      | Ok (dir, _) =>
          match mkdirat dir f with
          | (f, Ok _) => openat_key k f
          | (f, Err e) => (f, Err e)
          | (f, Panic) => (f, Panic)
          end
      | Err e => (f, Err e)
      | Panic => (f, Panic)
      end
  | r => r
  end.

(** A guard has the key until [success] or [drop] takes it. *)
Record FileGuard := { guard_key : option BlobKey }.

Definition FileGuard_new (k : BlobKey) : FileGuard := {| guard_key := Some k |}.

Definition openat_create_write_with_guard (k : BlobKey) (f : F) : F * result Errno (nat * FileGuard) :=
  match openat_create_write (with_tmp_suffix k) f with
  | (f, r) => (f, rmap (fun fd => (fd, FileGuard_new k)) r)
  end.

(** The versions for asynchronous files, which are opened with NONBLOCK. *)
Definition openat_create_write_async (k : BlobKey) (f : F) : F * result Errno nat :=
  match openat_key k f with
  | (f, Err NOENT) =>
      match parts k with
      | Ok (dir, _) =>
          match mkdirat dir f with
          | (f, Ok _) => openat_key k f
          | (f, Err e) => (f, Err e)
          | (f, Panic) => (f, Panic)
          end
      | Err e => (f, Err e)
      | Panic => (f, Panic)
      end
  | r => r
  end.

Definition openat_create_write_async_with_guard (k : BlobKey) (f : F) : F * result Errno (nat * FileGuard) :=
  match openat_create_write_async (with_tmp_suffix k) f with
  | (f, r) => (f, rmap (fun fd => (fd, FileGuard_new k)) r)
  end.

Definition guard_drop (g : FileGuard) (f : F) : F :=
  match guard_key g with
  | Some k => fst (unlinkat (with_tmp_suffix k) f)
  | None => f
  end.

(** [success] takes the key, so the drop at its end does nothing. *)
Definition guard_success (g : FileGuard) (f : F) : F * result Errno unit :=
  match guard_key g with
  | Some k =>
      let '(f, r) := renameat (as_path (with_tmp_suffix k)) (as_path k) f in
      (guard_drop {| guard_key := None |} f, r)
  | None => (f, Ok tt)
  end.

Record GenericFileGuard := { guard_name : option GenericName }.

Definition GenericFileGuard_new (n : GenericName) : GenericFileGuard := {| guard_name := Some n |}.

Definition openat_create_write_with_generic_guard (n : GenericName) (f : F)
    : F * result Errno (nat * GenericFileGuard) :=
  match openat2_create (generic_tmp n) f with
  | (f, r) => (f, rmap (fun fd => (fd, GenericFileGuard_new n)) r)
  end.

Definition generic_drop (g : GenericFileGuard) (f : F) : F :=
  match guard_name g with
  | Some n => fst (sys_unlinkat (generic_tmp n) f)
  | None => f
  end.

Definition generic_success (g : GenericFileGuard) (f : F) : F * result Errno unit :=
  match guard_name g with
  | Some n =>
      let '(f, r) := renameat (generic_tmp n) (name n) f in
      (generic_drop {| guard_name := None |} f, r)
  | None => (f, Ok tt)
  end.

Definition openat_read (p : bstr) (f : F) : F * result Errno (option nat) :=
  match openat2_read p f with
  | (f, Ok fd) => (f, Ok (Some fd))
  | (f, Err NOENT) => (f, Ok None)
  | (f, Err e) => (f, Err e)
  | (f, Panic) => (f, Panic)
  end.

Definition openat_read_key (k : BlobKey) (f : F) : F * result Errno (option nat) :=
  openat_read (as_path k) f.

Definition remove_blob (k : BlobKey) (f : F) : F := fst (unlinkat k f).
End operations.

(** [read_from_disk] over what the directory readers deliver: an entry or an
    error; the entries and the size of a file may be unreadable, too. *)
Record FileEntry := { file_name : bstr; st_size : result Errno Z }.
Record DirEntry := {
  dir_name : bstr; is_directory : bool; dir_files : result Errno (list (result Errno FileEntry));
}.

Definition is_dots (n : bstr) : bool := bool_decide (n = [dot]) || bool_decide (n = [dot; dot]).

Section read_from_disk.
Context (to_str : bstr -> option bstr).
#[local] Open Scope result_scope.

Fixpoint read_sub_dir (dir : bstr) (files : list (result Errno FileEntry))
    : result Errno (list (BlobKey * Z)) :=
  match files with
  | [] => Ok []
  | file :: files =>
      let? e := file in
      if is_dots (file_name e) then read_sub_dir dir files
      else match from_cstr_parts to_str dir (file_name e) with
           | Some k =>
               let? size := st_size e in
               let? rest := read_sub_dir dir files in
               Ok ((k, wrap 64 size) :: rest)
           | None => read_sub_dir dir files
           end
  end.

Fixpoint read_from_disk (entries : list (result Errno DirEntry)) : result Errno (list (BlobKey * Z)) :=
  match entries with
  | [] => Ok []
  | entry :: entries =>
      let? e := entry in
      if is_dots (dir_name e) || negb (is_directory e) then read_from_disk entries
      else
        let? files := dir_files e in
        let? here := read_sub_dir (dir_name e) files in
        let? rest := read_from_disk entries in
        Ok (here ++ rest)
  end.
End read_from_disk.

(** * The documented behaviour of the system calls *)

Section laws.
Context {F : Type} `{FileSystem F}.

Definition same_names (f f' : F) : Prop := forall p, links f' p = links f p.

(** [names_but p f f']: only the name [p] may differ. *)
Definition names_but (p : bstr) (f f' : F) : Prop := forall q, q <> p -> links f' q = links f q.
Definition same_contents (f f' : F) : Prop := forall i, content f' i = content f i.
Definition contents_but (i : nat) (f f' : F) : Prop := forall j, j <> i -> content f' j = content f j.
End laws.

(** [live] holds of the files that were ever made; [fs_write] appends, since a
    file has one writer, which starts from the empty file. *)
Class FileSystemLaws (F : Type) `{FileSystem F} := {
  live : F -> nat -> Prop;
  links_live f p i : links f p = Some i -> live f i;
  create_spec p f f' r : openat2_create p f = (f', r) ->
    (forall i, live f i -> live f' i) /\
    match r with
    | Ok i => links f' p = Some i /\ names_but p f f' /\ content f' i = [] /\ contents_but i f f' /\
              live f' i /\ (links f p = Some i \/ ~ live f i)
    | _ => same_names f f' /\ same_contents f f'
    end;
  read_spec p f f' r : openat2_read p f = (f', r) ->
    (forall i, live f i -> live f' i) /\ same_names f f' /\ same_contents f f' /\
    (forall i, r = Ok i -> links f p = Some i) /\ (r = Err NOENT -> links f p = None);
  mkdirat_spec p f f' r : mkdirat p f = (f', r) ->
    (forall i, live f i -> live f' i) /\ same_names f f' /\ same_contents f f';
  renameat_spec p q f f' r : renameat p q f = (f', r) ->
    (forall i, live f i -> live f' i) /\ same_contents f f' /\
    match r with
    | Ok _ => exists i, links f p = Some i /\ links f' q = Some i /\ (p <> q -> links f' p = None) /\
              forall n, n <> p -> n <> q -> links f' n = links f n
    | _ => same_names f f'
    end;
  unlinkat_spec p f f' r : sys_unlinkat p f = (f', r) ->
    (forall i, live f i -> live f' i) /\ same_contents f f' /\
    match r with
    | Ok _ => links f' p = None /\ names_but p f f'
    | _ => same_names f f'
    end;
  write_spec i d f f' b : fs_write i d f = (f', b) ->
    (forall i, live f i -> live f' i) /\ same_names f f' /\ contents_but i f f' /\
    (b = true -> content f' i = content f i ++ d);
  store_spec i d f f' b : fs_store i d f = (f', b) ->
    (forall i, live f i -> live f' i) /\ same_names f f' /\ contents_but i f f' /\
    (b = true -> content f' i = d);
}.

(** Only the contents of the file [i] may differ. *)
Definition only_file {F} `{FileSystemLaws F} (i : nat) (f f' : F) : Prop :=
  (forall j, live f j -> live f' j) /\ same_names f f' /\ contents_but i f f'.

Lemma only_file_trans {F} `{FileSystemLaws F} i (f f1 f2 : F) :
  only_file i f f1 -> only_file i f1 f2 -> only_file i f f2.
Proof.
  intros (Hl1 & Hn1 & Hc1) (Hl2 & Hn2 & Hc2). split; [by auto|]. split.
  - intros p. by rewrite Hn2.
  - intros j Hj. by rewrite Hc2, Hc1.
Qed.

(** * Interleaved use of the cache

    The cache admits one download of a key at a time.  A download has the file
    it writes, the bytes it has fed to its hasher and whether all its writes
    succeeded; [handed] are the open files that callers hold. *)
Section machine.
Context {F : Type} `{FileSystem F} (sha256 : bstr -> list byte).

Record Download := { d_file : nat; d_hashed : bstr; d_written : bool }.
Record Cache := {
  fs : F; flight : gmap BlobKey Download; handed : list (BlobKey * nat);
}.

Inductive Event :=
  | Start (k : BlobKey)            (** open the temporary file *)
  | Chunk (k : BlobKey) (c : bstr) (** write a chunk that was received *)
  | Publish (k : BlobKey)          (** the download is verified: [success] *)
  | Cancel (k : BlobKey)           (** it failed: the guard is dropped *)
  | Remove (k : BlobKey)           (** eviction *)
  | Open (k : BlobKey)             (** a cache hit *)
  | Crash.                         (** the process ends, the disk stays *)

Definition verified (k : BlobKey) (data : bstr) : Prop :=
  key k = bytes_of_string "sha256:" ++ hex_encode (sha256 data).

#[global] Instance verified_dec k data : Decision (verified k data).
Proof. unfold verified. apply _. Defined.

Definition valid (k : BlobKey) : Prop := BlobKey_new (key k) = Some k.

Definition handle (s : Cache) (e : Event) : option Cache :=
  match e with
  | Start k =>
      if bool_decide (BlobKey_new (key k) = Some k) && bool_decide (flight s !! k = None) then
        match openat_create_write_with_guard k (fs s) with
        | (f, Ok (i, _)) =>
            Some {| fs := f; handed := handed s;
                    flight := <[k := {| d_file := i; d_hashed := []; d_written := true |}]> (flight s) |}
        | (f, _) => Some {| fs := f; flight := flight s; handed := handed s |}
        end
      else None
  | Chunk k c =>
      d ← flight s !! k;
      let '(f, b) := fs_write (d_file d) c (fs s) in
      Some {| fs := f; handed := handed s;
              flight := <[k := {| d_file := d_file d; d_hashed := d_hashed d ++ c;
                                  d_written := d_written d && b |}]> (flight s) |}
  | Publish k =>
      d ← flight s !! k;
      if d_written d && bool_decide (verified k (d_hashed d)) then
        match guard_success {| guard_key := Some k |} (fs s) with
        | (f, Ok _) => Some {| fs := f; flight := delete k (flight s);
                               handed := (k, d_file d) :: handed s |}
        | (f, _) => Some {| fs := f; flight := delete k (flight s); handed := handed s |}
        end
      else None
  | Cancel k =>
      _ ← flight s !! k;
      Some {| fs := guard_drop {| guard_key := Some k |} (fs s); flight := delete k (flight s);
              handed := handed s |}
  | Remove k =>
      if bool_decide (BlobKey_new (key k) = Some k)
      then Some {| fs := remove_blob k (fs s); flight := flight s; handed := handed s |}
      else None
  | Open k =>
      if bool_decide (BlobKey_new (key k) = Some k) then
        match openat_read_key k (fs s) with
        | (f, Ok (Some i)) => Some {| fs := f; flight := flight s; handed := (k, i) :: handed s |}
        | (f, _) => Some {| fs := f; flight := flight s; handed := handed s |}
        end
      else None
  | Crash => Some {| fs := fs s; flight := ∅; handed := [] |}
  end.

Fixpoint run (s : Cache) (es : list Event) : option Cache :=
  match es with [] => Some s | e :: es => s ← handle s e; run s es end.
End machine.

(** * Lemmas *)

(** ** Keys *)

Lemma BlobKey_new_Some s k :
  BlobKey_new s = Some k <->
  k = {| key := s |} /\ (dot ∉ s) /\ (fslash ∉ s) /\
  exists l r, s = l ++ colon :: r /\ (colon ∉ l) /\ l <> [] /\ r <> [].
Proof.
  unfold BlobKey_new. split.
  - repeat case_bool_decide; try done. simpl.
    destruct (split_once colon s) as [[l r]|] eqn:E; [|done]. apply split_once_Some in E as [E Hc].
    repeat case_bool_decide; try done. intros [= <-]. split_and!; [done..|]. by exists l, r.
  - intros (-> & Hd & Hs & l & r & E & Hc & Hl & Hr).
    rewrite !bool_decide_eq_false_2 by done. simpl. rewrite E, split_once_app by done.
    by rewrite !bool_decide_eq_false_2 by done.
Qed.

Lemma as_path_app k l r : key k = l ++ colon :: r -> colon ∉ l -> as_path k = l ++ fslash :: r.
Proof. intros E Hc. unfold as_path. by rewrite E, split_once_app. Qed.

(** Where the first occurrence of [c] is. *)
Lemma app_first_inj (c : byte) l l' r r' :
  c ∉ l -> c ∉ l' -> l ++ c :: r = l' ++ c :: r' -> l = l' /\ r = r'.
Proof.
  intros H1 H2 E. assert (split_once c (l ++ c :: r) = split_once c (l' ++ c :: r')) as E' by (by rewrite E).
  rewrite !split_once_app in E' by done. by simplify_eq.
Qed.

Lemma as_path_inj k k' : valid k -> valid k' -> as_path k = as_path k' -> k = k'.
Proof.
  intros (E & _ & Hs & l & r & El & Hc & _)%BlobKey_new_Some
    (E' & _ & Hs' & l' & r' & El' & Hc' & _)%BlobKey_new_Some.
  rewrite (as_path_app k l r), (as_path_app k' l' r') by done. intros Hp.
  rewrite El in Hs. rewrite El' in Hs'.
  apply app_first_inj in Hp as [-> ->]; [|set_solver..]. rewrite E, E'. f_equal. congruence.
Qed.

Lemma valid_tmp k : valid k -> valid (with_tmp_suffix k).
Proof.
  intros (E & Hd & Hs & l & r & El & Hc & Hl & Hr)%BlobKey_new_Some.
  apply BlobKey_new_Some. unfold with_tmp_suffix. simpl. split; [done|].
  assert (dot ∉ tmp_suffix) by (by apply (bool_decide_unpack _)).
  assert (fslash ∉ tmp_suffix) by (by apply (bool_decide_unpack _)).
  rewrite !elem_of_app. split_and!; [tauto..|].
  exists l, (r ++ tmp_suffix). rewrite El, <-app_assoc. split_and!; [done..|]. by destruct r.
Qed.

Lemma tmp_path_inj k k' :
  valid k -> valid k' -> as_path (with_tmp_suffix k) = as_path (with_tmp_suffix k') -> k = k'.
Proof.
  intros H1 H2 E. apply as_path_inj in E; [|by apply valid_tmp..].
  injection E as E. apply (inj (.++ tmp_suffix)) in E. destruct k, k'; simpl in *. congruence.
Qed.

Definition digest_key (k : BlobKey) : Prop :=
  exists d, key k = bytes_of_string "sha256:" ++ hex_encode d.

Lemma hex_digit_not n : 0 <= n < 16 -> hex_digit n <> x5f /\ hex_digit n <> x2e /\ hex_digit n <> x2f.
Proof.
  intros Hn. assert (Forall (fun k => hex_digit k <> x5f /\ hex_digit k <> x2e /\ hex_digit k <> x2f)
    (seqZ 0 16)) as Hall by (repeat constructor; done).
  rewrite Forall_forall in Hall. apply Hall, elem_of_seqZ. lia.
Qed.

Lemma hex_encode_not d : Forall (fun b => b <> x5f /\ b <> x2e /\ b <> x2f) (hex_encode d).
Proof.
  induction d as [|b d IH]; [constructor|]. rewrite hex_encode_cons. pose proof (byte_val_range b).
  constructor; [|constructor; [|done]]; apply hex_digit_not.
  - split; [apply Z.div_pos|apply Z.div_lt_upper_bound]; lia.
  - apply Z.mod_pos_bound; lia.
Qed.

Lemma digest_key_not_tmp k k' : digest_key k -> k <> with_tmp_suffix k'.
Proof.
  intros [d Hd] ->. cbn [key with_tmp_suffix] in Hd.
  assert (x5f ∈ bytes_of_string "sha256:" ++ hex_encode d) as Hin.
  { rewrite <-Hd. apply elem_of_app. right. by apply (bool_decide_unpack _). }
  apply elem_of_app in Hin as [Hin|Hin].
  - revert Hin. by apply (bool_decide_unpack _).
  - pose proof (hex_encode_not d) as Hn. rewrite Forall_forall in Hn. by apply Hn in Hin as [? _].
Qed.

Lemma digest_path_not_tmp k k' :
  digest_key k -> valid k -> valid k' -> as_path k <> as_path (with_tmp_suffix k').
Proof.
  intros Hd Hv Hv' E. apply as_path_inj in E; [|done|by apply valid_tmp]. by eapply digest_key_not_tmp.
Qed.

Lemma verified_digest_key sha256 k data : verified sha256 k data -> digest_key k.
Proof. intros Hv. by exists (sha256 data). Qed.

(** ** Calls *)

Section laws.
Context {F : Type} `{FileSystemLaws F}.
Implicit Types (f : F) (k : BlobKey).

Lemma openat_async_same : openat_create_write_async_with_guard = openat_create_write_with_guard.
Proof. done. Qed.

(** Opening the file of a key, with the directory made on demand. *)
Lemma openat_create_write_spec k f f' r :
  openat_create_write k f = (f', r) ->
  (forall i, live f i -> live f' i) /\
  match r with
  | Ok i => links f' (as_path k) = Some i /\ names_but (as_path k) f f' /\ content f' i = [] /\
            contents_but i f f' /\ live f' i /\ (links f (as_path k) = Some i \/ ~ live f i)
  | _ => same_names f f' /\ same_contents f f'
  end.
Proof.
  unfold openat_create_write, openat_key. destruct (openat2_create _ f) as [f1 r1] eqn:E1.
  pose proof (create_spec _ _ _ _ E1) as H1.
  destruct r1 as [i|e|]; [by intros [= <- <-]| |by intros [= <- <-]].
  destruct e; [|by intros [= <- <-]..].
  destruct (parts k) as [[dir rest]|e|]; [|by intros [= <- <-]..].
  destruct H1 as (Hl1 & Hn1 & Hc1). destruct (mkdirat dir f1) as [f2 r2] eqn:E2.
  apply mkdirat_spec in E2 as (Hl2 & Hn2 & Hc2).
  assert (same_names f f2) as Hn by (intros p; by rewrite Hn2).
  assert (same_contents f f2) as Hc by (intros p; by rewrite Hc2).
  assert (forall i, live f i -> live f2 i) as Hl by auto.
  destruct r2 as [u|e|]; [|by intros [= <- <-]..].
  intros E3. apply create_spec in E3 as [Hl3 H3]. split; [by auto|].
  destruct r as [i|e|].
  - destruct H3 as (Ho & Hb & He & Hcb & Hli & Hor). split_and!; [done| |done| |done|].
    + intros q Hq. by rewrite Hb, Hn.
    + intros j Hj. by rewrite Hcb, Hc.
    + rewrite <-Hn. destruct Hor; [by left|right; by auto].
  - destruct H3 as [H3 H4]. split; [intros p; by rewrite H3|intros i; by rewrite H4].
  - destruct H3 as [H3 H4]. split; [intros p; by rewrite H3|intros i; by rewrite H4].
Qed.

Lemma unlink_spec p f :
  let f' := fst (sys_unlinkat p f) in
  (forall i, live f i -> live f' i) /\ same_contents f f' /\
  names_but p f f' /\ (links f' p = None \/ links f' p = links f p).
Proof.
  simpl. destruct (sys_unlinkat p f) as [f' r] eqn:E. apply unlinkat_spec in E as (Hl & Hc & H'). simpl.
  split; [done|]. split; [done|].
  destruct r; [|split; [intros q _; apply H'|right; apply H']..]. destruct H' as [? ?]. split; [done|by left].
Qed.
End laws.

(** * The invariant of the cache directory *)

Section invariant.
Context {F : Type} `{FileSystemLaws F} (sha256 : bstr -> list byte).
Implicit Types (f : F) (k : BlobKey) (s : @Cache F).

(** No name but [p] can be a name of [i]. *)
Definition owned f p i : Prop := forall q, links f q = Some i -> q = p.

Definition tmp_path k : bstr := as_path (with_tmp_suffix k).

(** One name per file. *)
Definition unshared f : Prop := forall p i, links f p = Some i -> owned f p i.

Record flight_ok f k (d : Download) : Prop := {
  flight_valid : valid k;
  flight_live : live f (d_file d);
  flight_owned : owned f (tmp_path k) (d_file d);
  flight_tmp : forall i, links f (tmp_path k) = Some i -> i = d_file d;
  flight_content : d_written d = true -> content f (d_file d) = d_hashed d;
}.

Record handed_ok f k (i : nat) : Prop := {
  handed_valid : valid k;
  handed_live : live f i;
  handed_owned : owned f (as_path k) i;
  handed_verified : verified sha256 k (content f i);
}.

Record cache_ok s : Prop := {
  ok_unshared : unshared (fs s);
  ok_flight : forall k d, flight s !! k = Some d -> flight_ok (fs s) k d;
  ok_flights : forall k k' d d', flight s !! k = Some d -> flight s !! k' = Some d' ->
    d_file d = d_file d' -> k = k';
  ok_names : forall k i, digest_key k -> valid k -> links (fs s) (as_path k) = Some i ->
    verified sha256 k (content (fs s) i);
  ok_handed : forall k i, (k, i) ∈ handed s -> digest_key k ->
    handed_ok (fs s) k i /\ forall k' d, flight s !! k' = Some d -> d_file d <> i;
}.

(** ** Names that only go away *)

Definition fewer_names f f' : Prop :=
  (forall i, live f i -> live f' i) /\ same_contents f f' /\
  forall p i, links f' p = Some i -> links f p = Some i.

Lemma fewer_owned f f' p i : fewer_names f f' -> owned f p i -> owned f' p i.
Proof. intros (_ & _ & Hn) Ho q Hq. by apply Ho, Hn. Qed.

Lemma fewer_flight f f' k d : fewer_names f f' -> flight_ok f k d -> flight_ok f' k d.
Proof.
  intros Hf [Hv Hl Ho Ht Hc]. pose proof Hf as (Hlive & Hcont & Hn). split; [done|auto|by eapply fewer_owned| |].
  - intros i Hi. by apply Ht, Hn.
  - rewrite Hcont. done.
Qed.

Lemma fewer_cache_ok s f' fl hd :
  cache_ok s -> fewer_names (fs s) f' -> fl ⊆ flight s -> (forall x, x ∈ hd -> x ∈ handed s) ->
  cache_ok {| fs := f'; flight := fl; handed := hd |}.
Proof.
  intros [Hu Hf Hfs Hn Hh] Hfew Hfl Hhd. pose proof Hfew as (Hlive & Hcont & Hnames). split; simpl.
  - intros p i Hp. eapply fewer_owned; [done|]. by apply Hu, Hnames.
  - intros k d Hk. eapply fewer_flight; [done|]. apply Hf. by eapply lookup_weaken.
  - intros k k' d d' Hk Hk' E. eapply Hfs; [by eapply lookup_weaken..|done].
  - intros k i Hd Hv Hi. rewrite Hcont. by apply Hn, Hnames.
  - intros k i Hin Hd. destruct (Hh k i (Hhd _ Hin) Hd) as [[Hv Hl Ho Hver] Hno]. split.
    + split; [done|auto|by eapply fewer_owned|by rewrite Hcont].
    + intros k' d Hk'. eapply Hno. by eapply lookup_weaken.
Qed.

Lemma same_fewer f f' :
  (forall i, live f i -> live f' i) -> same_names f f' -> same_contents f f' -> fewer_names f f'.
Proof. intros Hl Hn Hc. split; [done|]. split; [done|]. intros p i. by rewrite Hn. Qed.

Lemma unlink_fewer p f : fewer_names f (fst (sys_unlinkat p f)).
Proof.
  destruct (unlink_spec p f) as (Hl & Hc & Hb & Hor). split; [done|]. split; [done|].
  intros q i Hq. destruct (decide (q = p)) as [->|Hne]; [destruct Hor; congruence|by rewrite <-Hb].
Qed.

(** ** Opening the temporary file *)

Lemma create_frame f f' p i :
  links f' p = Some i -> names_but p f f' -> contents_but i f f' ->
  (links f p = Some i \/ ~ live f i) ->
  forall p' j, p' <> p -> live f j -> owned f p' j ->
    j <> i /\ content f' j = content f j /\ owned f' p' j.
Proof.
  intros Hp Hb Hc Hor p' j Hne Hl Ho.
  assert (j <> i) as Hji by (intros ->; destruct Hor as [Hi|]; [by apply Ho in Hi|done]).
  split; [done|]. split; [by apply Hc|]. intros q Hq.
  destruct (decide (q = p)) as [->|Hqp]; [congruence|]. apply Ho. by rewrite <-Hb.
Qed.

Lemma create_unshared f f' p i :
  links f' p = Some i -> names_but p f f' -> contents_but i f f' ->
  (links f p = Some i \/ ~ live f i) -> unshared f -> unshared f'.
Proof.
  intros Hp Hb Hc Hor Hu q j Hq. destruct (decide (q = p)) as [->|Hqp].
  - assert (j = i) as -> by congruence. intros q Hq'. destruct (decide (q = p)) as [->|Hne]; [done|].
    rewrite Hb in Hq' by done. destruct Hor as [Hi|Hi]; [by apply (Hu p i)|].
    by apply links_live in Hq'.
  - rewrite Hb in Hq by done. eapply (create_frame f f' p i); eauto using links_live.
Qed.

Lemma same_names_unshared f f' : same_names f f' -> unshared f -> unshared f'.
Proof. intros Hn Hu p i Hp q Hq. rewrite Hn in Hp, Hq. by eapply Hu. Qed.

Lemma rename_unshared f f' p q i :
  links f p = Some i -> links f' q = Some i -> links f' p = None ->
  (forall n, n <> p -> n <> q -> links f' n = links f n) -> unshared f -> unshared f'.
Proof.
  intros Hp Hq Hp' Hrest Hu.
  assert (forall n j, links f' n = Some j -> n = q /\ j = i \/ n <> q /\ n <> p /\ links f n = Some j) as Hcase.
  { intros n j Hn. destruct (decide (n = q)) as [->|]; [left; split; congruence|right].
    destruct (decide (n = p)) as [->|]; [congruence|]. by rewrite <-Hrest. }
  intros n j Hn m Hm. apply Hcase in Hn as [[-> ->]|(Hnq & Hnp & Hn)], Hm as [[-> Hj]|(Hmq & Hmp & Hm)].
  - done.
  - exfalso. apply Hmp. by apply (Hu p i Hp).
  - subst. exfalso. apply Hnp. by apply (Hu p i Hp).
  - by apply (Hu n j Hn).
Qed.

Lemma start_ok s k f' i g :
  cache_ok s -> valid k -> flight s !! k = None ->
  openat_create_write_with_guard k (fs s) = (f', Ok (i, g)) ->
  cache_ok {| fs := f'; handed := handed s;
              flight := <[k := {| d_file := i; d_hashed := []; d_written := true |}]> (flight s) |}.
Proof.
  intros [Hu Hf Hfs Hn Hh] Hv Hk. unfold openat_create_write_with_guard.
  destruct (openat_create_write _ _) as [f1 r1] eqn:E. apply openat_create_write_spec in E as [Hl E].
  intros [= -> Hr]. apply rmap_Ok_inv in Hr as (i' & -> & [= -> _]).
  destruct E as (Hp & Hb & He & Hc & Hli & Hor). change (as_path (with_tmp_suffix k)) with (tmp_path k) in *.
  pose proof (create_frame _ _ _ _ Hp Hb Hc Hor) as Hframe.
  assert (forall k' d, flight s !! k' = Some d -> k' <> k /\ flight_ok f' k' d /\ d_file d <> i) as Hold.
  { intros k' d Hk'. destruct (Hf k' d Hk') as [Hv' Hl' Ho Ht Hco].
    assert (k' <> k) as Hne by congruence.
    assert (tmp_path k' <> tmp_path k) as Hpne by (intros E; by apply Hne, tmp_path_inj).
    destruct (Hframe _ _ Hpne Hl' Ho) as (Hji & Hcj & Hoj). split_and!; [done| |done].
    split; [done|auto|done| |by rewrite Hcj]. intros j Hj. apply Ht. by rewrite <-Hb. }
  split; simpl.
  - by eapply create_unshared.
  - intros k' d Hk'. apply lookup_insert_Some in Hk' as [[<- <-]|[_ Hk']]; [|by apply Hold in Hk' as (? & ? & ?)].
    split; simpl; [done|done| |intros j Hj; congruence|done].
    by apply (create_unshared _ _ _ _ Hp Hb Hc Hor Hu).
  - intros k1 k2 d1 d2 H1 H2 E.
    apply lookup_insert_Some in H1 as [[<- <-]|[_ H1]], H2 as [[<- <-]|[_ H2]]; simpl in *.
    + done.
    + apply Hold in H2 as (_ & _ & ?). congruence.
    + apply Hold in H1 as (_ & _ & ?). congruence.
    + by eapply Hfs.
  - intros k' j Hd Hv' Hj. assert (as_path k' <> tmp_path k) as Hne by (by apply digest_path_not_tmp).
    rewrite Hb in Hj by done.
    destruct (Hframe _ _ Hne (links_live _ _ _ Hj) (Hu _ _ Hj)) as (_ & -> & _). by apply Hn.
  - intros k' j Hin Hd. destruct (Hh k' j Hin Hd) as [[Hv' Hl' Ho Hver] Hno].
    assert (as_path k' <> tmp_path k) as Hne by (by apply digest_path_not_tmp).
    destruct (Hframe _ _ Hne Hl' Ho) as (Hji & Hcj & Hoj). split.
    + split; [done|auto|done|by rewrite Hcj].
    + intros k2 d Hk2. apply lookup_insert_Some in Hk2 as [[<- <-]|[_ Hk2]]; [simpl; congruence|by eapply Hno].
Qed.

(** ** Writing *)

Lemma chunk_ok s k d c f' b :
  cache_ok s -> flight s !! k = Some d -> only_file (d_file d) (fs s) f' ->
  (b = true -> content f' (d_file d) = content (fs s) (d_file d) ++ c) ->
  cache_ok {| fs := f'; handed := handed s;
              flight := <[k := {| d_file := d_file d; d_hashed := d_hashed d ++ c;
                                  d_written := d_written d && b |}]> (flight s) |}.
Proof.
  intros [Hu Hf Hfs Hn Hh] Hk (Hl & Hsn & Hc) Hb.
  assert (forall p i, owned (fs s) p i -> owned f' p i) as Hown.
  { intros p i Ho q Hq. apply Ho. by rewrite <-Hsn. }
  split; simpl.
  - intros p i Hp. rewrite Hsn in Hp. by apply Hown, Hu.
  - intros k' d' Hk'. apply lookup_insert_Some in Hk' as [[<- <-]|[Hne Hk']].
    + destruct (Hf k d Hk) as [Hv Hli Ho Ht Hco]. split; simpl; [done|auto|auto| |].
      * intros i. rewrite Hsn. apply Ht.
      * intros [Hw Hb']%andb_true_iff. rewrite Hb, Hco by done. done.
    + destruct (Hf k' d' Hk') as [Hv Hli Ho Ht Hco]. split; [done|auto|auto| |].
      * intros i. rewrite Hsn. apply Ht.
      * intros Hw. rewrite Hc; [by apply Hco|]. intros E. by apply Hne, (Hfs k k' d d').
  - intros k1 k2 d1 d2 H1 H2 E.
    apply lookup_insert_Some in H1 as [[<- <-]|[_ H1]], H2 as [[<- <-]|[_ H2]]; simpl in *;
      [done|by eapply Hfs..].
  - intros k' i Hd Hv Hi. rewrite Hsn in Hi. rewrite Hc; [by apply Hn|]. intros ->.
    apply (flight_owned _ _ _ (Hf k d Hk)) in Hi.
    by eapply digest_path_not_tmp in Hi; [..|apply (flight_valid _ _ _ (Hf k d Hk))].
  - intros k' i Hin Hd. destruct (Hh k' i Hin Hd) as [[Hv Hli Ho Hver] Hno]. split.
    + split; [done|auto|auto|]. rewrite Hc; [done|]. intros ->. by eapply Hno.
    + intros k2 d2 Hk2. apply lookup_insert_Some in Hk2 as [[<- <-]|[_ Hk2]]; simpl; by eapply Hno.
Qed.

(** ** Publishing *)

Lemma publish_ok s k d f' :
  cache_ok s -> flight s !! k = Some d -> d_written d = true -> verified sha256 k (d_hashed d) ->
  renameat (tmp_path k) (as_path k) (fs s) = (f', Ok tt) ->
  cache_ok {| fs := f'; flight := delete k (flight s); handed := (k, d_file d) :: handed s |}.
Proof.
  intros [Hu Hf Hfs Hn Hh] Hk Hw Hver Hr. pose proof (verified_digest_key _ _ _ Hver) as Hdk.
  destruct (Hf k d Hk) as [Hv Hli Ho Ht Hco]. specialize (Hco Hw).
  apply renameat_spec in Hr as (Hl & Hc & i & Hi & Hq & Hgone & Hrest).
  apply Ht in Hi as ->. specialize (Hgone (not_eq_sym (digest_path_not_tmp k k Hdk Hv Hv))).
  assert (owned f' (as_path k) (d_file d)) as Hnew.
  { intros q Hq'. destruct (decide (q = as_path k)) as [|Hqk]; [done|].
    destruct (decide (q = tmp_path k)) as [->|Hqt]; [congruence|].
    rewrite Hrest in Hq' by done. by apply Ho in Hq'. }
  assert (forall p j, j <> d_file d -> owned (fs s) p j -> owned f' p j) as Hold.
  { intros p j Hj Hop q Hq'. destruct (decide (q = as_path k)) as [->|Hqk]; [congruence|].
    destruct (decide (q = tmp_path k)) as [->|Hqt]; [congruence|].
    apply Hop. by rewrite <-Hrest. }
  assert (forall p j, links f' p = Some j -> j <> d_file d -> links (fs s) p = Some j) as Hback.
  { intros p j Hp Hj. destruct (decide (p = as_path k)) as [->|]; [congruence|].
    destruct (decide (p = tmp_path k)) as [->|]; [congruence|]. by rewrite <-Hrest. }
  split; simpl.
  - intros p j Hp. destruct (decide (j = d_file d)) as [->|Hj].
    + by rewrite (Hnew p Hp).
    + apply Hold; [done|]. by apply Hu, Hback.
  - intros k' d' [Hne Hk']%lookup_delete_Some. destruct (Hf k' d' Hk') as [Hv' Hl' Ho' Ht' Hco'].
    assert (d_file d' <> d_file d) as Hdd by (intros E; by apply Hne, (Hfs k k' d d')).
    split; [done|auto|by apply Hold| |by rewrite Hc].
    intros j Hj. apply Ht'. apply Hback; [done|]. intros ->. apply Hnew in Hj.
    symmetry in Hj. by eapply digest_path_not_tmp in Hj.
  - intros k1 k2 d1 d2 [_ H1]%lookup_delete_Some [_ H2]%lookup_delete_Some. by apply Hfs.
  - intros k' j Hd Hv' Hj. rewrite Hc. destruct (decide (j = d_file d)) as [->|Hne].
    + apply Hnew, as_path_inj in Hj as ->; [|done..]. by rewrite Hco.
    + by apply Hn, Hback.
  - intros k' j [[= -> ->]|Hin]%elem_of_cons Hd.
    + split; [split; [done|auto|done|by rewrite Hc, Hco]|].
      intros k' d' [Hne Hk']%lookup_delete_Some E. by apply Hne, (Hfs k k' d d').
    + destruct (Hh k' j Hin Hd) as [[Hv' Hl' Ho' Hver'] Hno]. split.
      * split; [done|auto|apply Hold; [|done]|by rewrite Hc]. intros ->. by eapply Hno.
      * intros k2 d2 [_ Hk2]%lookup_delete_Some. by eapply Hno.
Qed.

(** ** Reading *)

Lemma open_ok s k f' i :
  cache_ok s -> valid k -> openat2_read (as_path k) (fs s) = (f', Ok i) ->
  cache_ok {| fs := f'; flight := flight s; handed := (k, i) :: handed s |}.
Proof.
  intros Hok Hv Hr. apply read_spec in Hr as (Hl & Hsn & Hc & Hi & _). specialize (Hi i eq_refl).
  pose proof (same_fewer _ _ Hl Hsn Hc) as Hfew.
  pose proof (fewer_cache_ok s f' (flight s) (handed s) Hok Hfew ltac:(done) ltac:(done)) as Hok'.
  destruct Hok' as [Hu Hf Hfs Hn Hh]. simpl in *. split; simpl; [done..|].
  intros k' j [[= -> ->]|Hin]%elem_of_cons Hd; [|by apply Hh].
  rewrite <-Hsn in Hi. split.
  - split; [done|by eapply links_live|by apply Hu|by apply Hn].
  - intros k' d Hk' E. rewrite <-E in Hi. apply (flight_owned _ _ _ (Hf k' d Hk')) in Hi.
    by eapply digest_path_not_tmp in Hi; [..|apply (flight_valid _ _ _ (Hf k' d Hk'))].
Qed.

(** ** Every event *)

Lemma handle_ok s e s' : cache_ok s -> handle sha256 s e = Some s' -> cache_ok s'.
Proof.
  intros Hok. destruct e as [k|k c|k|k|k|k|]; simpl.
  - case_bool_decide as Hv; [|done]. case_bool_decide as Hk; [|done]. simpl.
    destruct (openat_create_write_with_guard k (fs s)) as [f' r] eqn:E.
    destruct r as [[i g]|e|]; [intros [= <-]; by eapply start_ok| |];
      (unfold openat_create_write_with_guard in E;
       destruct (openat_create_write _ _) as [f1 r1] eqn:E1; apply openat_create_write_spec in E1 as [Hl E1];
       intros [= <-]; injection E as -> Hr; destruct r1; try discriminate Hr; destruct E1 as [Hn Hc];
       apply (fewer_cache_ok s); [done|by apply same_fewer|done|done]).
  - destruct (flight s !! k) as [d|] eqn:Hk; [simpl|done].
    destruct (fs_write _ _ _) as [f' b] eqn:E. intros [= <-]. apply write_spec in E as (Hl & Hn & Hc & Hb).
    by apply (chunk_ok s k d c f' b).
  - destruct (flight s !! k) as [d|] eqn:Hk; [simpl|done].
    destruct (d_written d) eqn:Hw; [|done]. case_bool_decide as Hver; [|done]. simpl.
    unfold guard_success, guard_drop. simpl. fold (tmp_path k).
    destruct (renameat _ _ _) as [f' [[]|e|]] eqn:E; intros [= <-]; [by eapply publish_ok| |];
      apply renameat_spec in E as (Hl & Hc & Hn);
      (apply (fewer_cache_ok s); [done|by apply same_fewer|apply delete_subseteq|done]).
  - destruct (flight s !! k); [simpl|done]. intros [= <-].
    apply (fewer_cache_ok s); [done|apply unlink_fewer|apply delete_subseteq|done].
  - case_bool_decide; [|done]. intros [= <-].
    apply (fewer_cache_ok s); [done|apply unlink_fewer|done|done].
  - case_bool_decide as Hv; [|done]. unfold openat_read_key, openat_read.
    destruct (openat2_read _ _) as [f' r] eqn:E.
    pose proof (read_spec _ _ _ _ E) as (Hl & Hn & Hc & _).
    destruct r as [i|[]|]; intros [= <-]; [by eapply open_ok|..];
      (apply (fewer_cache_ok s); [done|by apply same_fewer|done|done]).
  - intros [= <-]. apply (fewer_cache_ok s); [done|by apply same_fewer|apply map_empty_subseteq|].
    intros x Hx. by apply elem_of_nil in Hx.
Qed.

Lemma run_ok s es s' : cache_ok s -> run sha256 s es = Some s' -> cache_ok s'.
Proof.
  revert s. induction es as [|e es IH]; intros s Hok; simpl; [by intros [= <-]|].
  destruct (handle sha256 s e) as [s1|] eqn:E; [simpl|done]. apply IH. by eapply handle_ok.
Qed.

(** An open file does not change under its reader. *)
Lemma handed_stable s e s' k i :
  cache_ok s -> (k, i) ∈ handed s -> digest_key k -> handle sha256 s e = Some s' -> e <> Crash ->
  (k, i) ∈ handed s' /\ content (fs s') i = content (fs s) i.
Proof.
  intros [_ Hf _ _ Hh] Hin Hd. destruct (Hh k i Hin Hd) as [[Hv Hl Ho _] Hno].
  destruct e as [k'|k' c|k'|k'|k'|k'|]; simpl; intros He Hcr; try done.
  - case_bool_decide as Hv'; [|done]. case_bool_decide; [|done]. simpl in He.
    unfold openat_create_write_with_guard in He.
    destruct (openat_create_write _ _) as [f1 r1] eqn:E. apply openat_create_write_spec in E as [_ E].
    destruct r1 as [j|e|]; simplify_eq/=; (split; [done|]); [|apply E..].
    destruct E as (Hp & Hb & _ & Hc & _ & Hor).
    by apply (create_frame _ _ _ _ Hp Hb Hc Hor (as_path k) i (digest_path_not_tmp k k' Hd Hv Hv')).
  - destruct (flight s !! k') as [d|] eqn:Hk; [simpl in He|done].
    destruct (fs_write _ _ _) as [f' b] eqn:E. simplify_eq/=. split; [done|].
    apply write_spec in E as (_ & _ & Hc & _). apply Hc. intros ->. by eapply Hno.
  - destruct (flight s !! k') as [d|] eqn:Hk; [simpl in He|done]. destruct (_ && _); [|done].
    unfold guard_success, guard_drop in He. simpl in He.
    destruct (renameat _ _ _) as [f' r] eqn:E. apply renameat_spec in E as (_ & Hc & _).
    destruct r; simplify_eq/=; (split; [set_solver|apply Hc]).
  - destruct (flight s !! k') as [d|] eqn:Hk; [simpl in He|done]. simplify_eq/=. split; [done|].
    by apply unlink_fewer.
  - case_bool_decide; [|done]. simplify_eq/=. split; [done|]. by apply unlink_fewer.
  - case_bool_decide; [|done]. unfold openat_read_key, openat_read in He.
    destruct (openat2_read _ _) as [f' r] eqn:E. apply read_spec in E as (_ & _ & Hc & _).
    destruct r as [j|[]|]; simplify_eq/=; (split; [set_solver|apply Hc]).
Qed.

Lemma run_stable s es s' k i :
  cache_ok s -> (k, i) ∈ handed s -> digest_key k -> run sha256 s es = Some s' -> Crash ∉ es ->
  content (fs s') i = content (fs s) i.
Proof.
  revert s. induction es as [|e es IH]; intros s Hok Hin Hd; simpl; [by intros [= <-]|].
  destruct (handle sha256 s e) as [s1|] eqn:E; [simpl|done]. intros Hr [He Hes]%not_elem_of_cons.
  destruct (handed_stable s e s1 k i Hok Hin Hd E (not_eq_sym He)) as [Hin1 Hc1].
  rewrite <-Hc1. apply IH; [by eapply handle_ok|done..].
Qed.

(** A directory without files, after which nothing is open. *)
Lemma empty_cache_ok f : (forall p, links f p = None) -> cache_ok {| fs := f; flight := ∅; handed := [] |}.
Proof.
  intros He. split; simpl.
  - intros p i Hp. congruence.
  - done.
  - done.
  - intros k i _ _ Hi. congruence.
  - intros k i Hin. by apply elem_of_nil in Hin.
Qed.
End invariant.

(** * Publishing one file

    What the guarded write of a file does to the other files of a directory. *)
Section publish.
Context {F : Type} `{FileSystemLaws F}.

(** The file [i] is written under the temporary name of [k]. *)
Record writing (f0 : F) (k : BlobKey) (i : nat) (f : F) : Prop := {
  writing_name : links f (tmp_path k) = Some i;
  writing_unshared : unshared f;
  writing_others : forall p j, p <> tmp_path k -> links f0 p = Some j ->
    links f p = Some j /\ content f j = content f0 j;
  writing_new : forall p j, p <> tmp_path k -> links f p = Some j -> links f0 p = Some j;
}.

Lemma open_writing k f f' i g :
  unshared f -> openat_create_write_with_guard k f = (f', Ok (i, g)) ->
  g = {| guard_key := Some k |} /\ writing f k i f'.
Proof.
  intros Hu E. unfold openat_create_write_with_guard in E.
  destruct (openat_create_write _ _) as [f1 r1] eqn:E1. apply openat_create_write_spec in E1 as [Hl E1].
  injection E as -> Hr. destruct r1 as [j|e|]; [|discriminate Hr..]. injection Hr as -> <-.
  destruct E1 as (Hp & Hb & He & Hc & Hli & Hor). change (as_path (with_tmp_suffix k)) with (tmp_path k) in *.
  split; [done|]. split; [done|by eapply create_unshared| |].
  - intros p j Hpk Hj. rewrite Hb by done. split; [done|].
    by apply (create_frame _ _ _ _ Hp Hb Hc Hor p j Hpk (links_live _ _ _ Hj) (Hu _ _ Hj)).
  - intros p j Hpk Hj. by rewrite <-Hb.
Qed.

Lemma only_file_writing f0 k i f f' : writing f0 k i f -> only_file i f f' -> writing f0 k i f'.
Proof.
  intros [Hn Hu Ho Hw] (Hl & Hsn & Hc). split.
  - by rewrite Hsn.
  - by eapply same_names_unshared.
  - intros p j Hp Hj. destruct (Ho p j Hp Hj) as [H1 H2]. rewrite Hsn. split; [done|].
    rewrite Hc; [done|]. intros ->. by apply Hp, (Hu _ _ Hn).
  - intros p j Hp Hj. rewrite Hsn in Hj. by apply Hw.
Qed.

(** After the drop only the temporary name can be missing. *)
Lemma drop_writing f0 k i f :
  writing f0 k i f ->
  let f' := guard_drop {| guard_key := Some k |} f in
  unshared f' /\ forall p j, p <> tmp_path k -> links f' p = Some j ->
    links f0 p = Some j /\ content f' j = content f0 j.
Proof.
  intros [Hn Hu Ho Hw]. destruct (unlink_fewer (tmp_path k) f) as (Hl & Hc & Hfew). split.
  - intros p j Hp q Hq. by apply (Hu p j); apply Hfew.
  - intros p j Hp Hj. apply Hfew in Hj. split; [by apply Hw|].
    etransitivity; [apply (Hc j)|]. by destruct (Ho p j Hp (Hw p j Hp Hj)).
Qed.

Lemma success_writing f0 k i f f' r :
  valid k -> digest_key k -> writing f0 k i f ->
  guard_success {| guard_key := Some k |} f = (f', r) ->
  unshared f' /\ content f' i = content f i /\
  (forall u, r = Ok u -> links f' (as_path k) = Some i) /\
  forall p j, p <> tmp_path k -> links f' p = Some j ->
    (r <> Ok tt \/ p <> as_path k) -> links f0 p = Some j /\ content f' j = content f0 j /\ j <> i.
Proof.
  intros Hv Hd [Hn Hu Ho Hw] E. unfold guard_success, guard_drop in E. simpl in E. fold (tmp_path k) in E.
  destruct (renameat _ _ f) as [f1 r1] eqn:Er. injection E as -> ->.
  apply renameat_spec in Er as (Hl & Hc & Hr).
  assert (forall p j, p <> tmp_path k -> links f p = Some j ->
    links f0 p = Some j /\ content f' j = content f0 j /\ j <> i) as Hold.
  { intros p j Hp Hj. split; [by apply Hw|]. rewrite (Hc j).
    split; [by destruct (Ho p j Hp (Hw p j Hp Hj))|]. intros ->. by apply Hp, (Hu _ _ Hn). }
  destruct r as [[]|e|].
  - destruct Hr as (i' & Hi & Hq & Hgone & Hrest). assert (i' = i) as -> by congruence.
    specialize (Hgone (not_eq_sym (digest_path_not_tmp k k Hd Hv Hv))).
    split; [by eapply rename_unshared|]. split; [apply Hc|]. split; [done|].
    intros p j Hp Hj [?|Hpk]; [done|]. apply Hold; [done|]. by rewrite <-Hrest.
  - split; [by eapply same_names_unshared|]. split; [apply Hc|]. split; [done|].
    intros p j Hp Hj _. apply Hold; [done|]. by rewrite <-Hr.
  - split; [by eapply same_names_unshared|]. split; [apply Hc|]. split; [done|].
    intros p j Hp Hj _. apply Hold; [done|]. by rewrite <-Hr.
Qed.
End publish.

(** * A file system

    Directories one level deep, names, contents and the files that lost a name;
    a new file has a number that no file has had. *)

Record MemFs := {
  m_dirs : gset bstr; m_links : gmap bstr nat; m_data : gmap nat bstr; m_seen : list nat;
}.

Definition m_numbers (f : MemFs) : list nat := m_seen f ++ (map_to_list (m_links f)).*2.
Definition m_next (f : MemFs) : nat := S (max_list (m_numbers f)).

Definition m_parent_exists (p : bstr) (f : MemFs) : bool :=
  match split_once fslash p with Some (d, _) => bool_decide (d ∈ m_dirs f) | None => true end.

#[export] Instance mem_fs : FileSystem MemFs := {
  links f p := m_links f !! p;
  content f i := default [] (m_data f !! i);
  openat2_create p f :=
    match m_links f !! p with
    | Some i => ({| m_dirs := m_dirs f; m_links := m_links f; m_data := <[i := []]> (m_data f);
                    m_seen := m_seen f |}, Ok i)
    | None =>
        if m_parent_exists p f then
          ({| m_dirs := m_dirs f; m_links := <[p := m_next f]> (m_links f);
              m_data := <[m_next f := []]> (m_data f); m_seen := m_seen f |}, Ok (m_next f))
        else (f, Err NOENT)
    end;
  openat2_read p f := (f, match m_links f !! p with Some i => Ok i | None => Err NOENT end);
  mkdirat p f :=
    if bool_decide (p ∈ m_dirs f) then (f, Err EXIST)
    else ({| m_dirs := {[p]} ∪ m_dirs f; m_links := m_links f; m_data := m_data f; m_seen := m_seen f |}, Ok tt);
  renameat p q f :=
    match m_links f !! p with
    | Some i => ({| m_dirs := m_dirs f; m_links := <[q := i]> (delete p (m_links f));
                    m_data := m_data f; m_seen := option_list (m_links f !! q) ++ m_seen f |}, Ok tt)
    | None => (f, Err NOENT)
    end;
  sys_unlinkat p f :=
    match m_links f !! p with
    | Some i => ({| m_dirs := m_dirs f; m_links := delete p (m_links f);
                    m_data := m_data f; m_seen := i :: m_seen f |}, Ok tt)
    | None => (f, Err NOENT)
    end;
  fs_write i d f :=
    ({| m_dirs := m_dirs f; m_links := m_links f;
        m_data := <[i := default [] (m_data f !! i) ++ d]> (m_data f); m_seen := m_seen f |}, true);
  fs_store i d f :=
    ({| m_dirs := m_dirs f; m_links := m_links f; m_data := <[i := d]> (m_data f);
        m_seen := m_seen f |}, true);
}.

Definition m_live (f : MemFs) (i : nat) : Prop := i ∈ m_seen f \/ exists p, m_links f !! p = Some i.

Lemma m_next_fresh f : ~ m_live f (m_next f).
Proof.
  assert (forall i, m_live f i -> (i < m_next f)%nat) as Hlt; [|intros Hl; apply Hlt in Hl; lia].
  intros i Hi. apply Nat.lt_succ_r, max_list_elem_of_le, elem_of_app.
  destruct Hi as [Hi|[p Hp]]; [by left|right].
  apply list_elem_of_fmap. exists (p, i). split; [done|]. by apply elem_of_map_to_list.
Qed.

Lemma m_content_insert (m : gmap nat bstr) i j d :
  j <> i -> default [] (<[i := d]> m !! j) = default [] (m !! j).
Proof. intros. by rewrite lookup_insert_ne. Qed.

#[export] Instance mem_fs_laws : FileSystemLaws MemFs.
Proof.
  refine {| live := m_live |}.
  - intros f p i Hp. right. by exists p.
  - intros p f f' r. simpl. destruct (m_links f !! p) as [i|] eqn:Hp.
    + intros [= <- <-]. simpl. split; [done|]. split_and!; [done|by intros ??|by rewrite lookup_insert_eq| | |by left].
      * intros j Hj. by apply m_content_insert.
      * right. by exists p.
    + destruct (m_parent_exists p f); [|by intros [= <- <-]].
      intros [= <- <-]. simpl. split.
      { intros i [Hi|[q Hq]]; [by left|right]. exists q. simpl. rewrite lookup_insert_ne; [done|congruence]. }
      split_and!; [by rewrite lookup_insert_eq| |by rewrite lookup_insert_eq| | |].
      * intros q Hq. simpl. by rewrite lookup_insert_ne.
      * intros j Hj. by apply m_content_insert.
      * right. exists p. simpl. by rewrite lookup_insert_eq.
      * right. apply m_next_fresh.
  - intros p f f' r [= <- <-]. split_and!; [done..| |]; simpl.
    + intros i. by destruct (m_links f !! p); intros [= ->].
    + by destruct (m_links f !! p).
  - intros p f f' r. simpl. case_bool_decide; intros [= <- <-]; by split_and!.
  - intros p q f f' r. simpl. destruct (m_links f !! p) as [i|] eqn:Hp; [|by intros [= <- <-]].
    intros [= <- <-]. simpl. split; [|split; [done|]].
    + intros j [Hj|[n Hn]]; [left; simpl; set_solver|]. destruct (decide (n = q)) as [->|Hnq].
      { left. simpl. rewrite Hn. set_solver. }
      right. simpl. destruct (decide (n = p)) as [->|Hnp].
      { exists q. rewrite lookup_insert_eq. congruence. }
      exists n. by rewrite lookup_insert_ne, lookup_delete_ne.
    + exists i. split_and!; [done|by rewrite lookup_insert_eq| |].
      * intros Hne. by rewrite lookup_insert_ne, lookup_delete_eq.
      * intros n Hnp Hnq. by rewrite lookup_insert_ne, lookup_delete_ne.
  - intros p f f' r. simpl. destruct (m_links f !! p) as [i|] eqn:Hp; [|by intros [= <- <-]].
    intros [= <- <-]. simpl. split; [|split; [done|]].
    + intros j [Hj|[n Hn]]; [left; simpl; set_solver|]. destruct (decide (n = p)) as [->|Hnp].
      { left. simpl. set_solver. }
      right. exists n. simpl. by rewrite lookup_delete_ne.
    + split; [by rewrite lookup_delete_eq|]. intros q Hq. simpl. by rewrite lookup_delete_ne.
  - intros i d f f' b [= <- <-]. split_and!; [done..| |].
    + intros j Hj. by apply m_content_insert.
    + intros _. simpl. by rewrite lookup_insert_eq.
  - intros i d f f' b [= <- <-]. split_and!; [done..| |].
    + intros j Hj. by apply m_content_insert.
    + intros _. simpl. by rewrite lookup_insert_eq.
Defined.

(** * Properties *)

(** C13: Blobs are published whole.  From an empty directory, through any
    interleaving of downloads, failed writes and renames, cancellations,
    evictions, reads and crashes, every file that has the name of a digest has
    contents with that digest; and an open file that a caller was given for a
    digest has contents with that digest, which no later event changes while the
    process lives. *)
Theorem blobs_published_whole {F} `{FileSystemLaws F} sha256 (f0 : F) es s :
  (forall p, links f0 p = None) ->
  run sha256 {| fs := f0; flight := ∅; handed := [] |} es = Some s ->
  (forall k i, digest_key k -> valid k -> links (fs s) (as_path k) = Some i ->
     verified sha256 k (content (fs s) i)) /\
  (forall k i es' s', (k, i) ∈ handed s -> digest_key k -> Crash ∉ es' -> run sha256 s es' = Some s' ->
     verified sha256 k (content (fs s) i) /\ content (fs s') i = content (fs s) i).
Proof.
  intros He Hr. apply run_ok in Hr; [|by apply empty_cache_ok]. split; [apply Hr|].
  intros k i es' s' Hin Hd Hes Hr'. split; [|by eapply run_stable].
  by apply (handed_verified _ _ _ _ (proj1 (ok_handed _ _ Hr k i Hin Hd))).
Qed.

Definition example_fs : MemFs := {| m_dirs := ∅; m_links := ∅; m_data := ∅; m_seen := [] |}.
Definition example_sha (data : bstr) : list byte := [byte_of (zlen data)].
Definition example_key : BlobKey := {| key := bytes_of_string "sha256:03" |}.

(** A download that is cancelled, one that is published, an eviction while the
    file is open and a new download. *)
Definition example_events : list Event :=
  [Start example_key; Chunk example_key [x61]; Cancel example_key;
   Start example_key; Chunk example_key [x61]; Chunk example_key [x62; x63]; Publish example_key;
   Open example_key; Remove example_key; Start example_key; Chunk example_key [x64]].

Definition example_cache : @Cache MemFs :=
  default {| fs := example_fs; flight := ∅; handed := [] |}
    (run example_sha {| fs := example_fs; flight := ∅; handed := [] |} example_events).

Lemma blobs_published_whole_witness :
  run example_sha {| fs := example_fs; flight := ∅; handed := [] |} example_events = Some example_cache /\
  content (fs example_cache) 2%nat = [x61; x62; x63] /\
  verified example_sha example_key (content (fs example_cache) 2%nat).
Proof.
  assert (run example_sha {| fs := example_fs; flight := ∅; handed := [] |} example_events =
    Some example_cache) as Hr by (apply default_is_Some; vm_compute; reflexivity).
  split; [exact Hr|]. split; [vm_compute; reflexivity|].
  refine (proj1 (proj2 (blobs_published_whole example_sha example_fs example_events example_cache
    (fun p => lookup_empty p) Hr) example_key 2%nat [] example_cache _ _ _ eq_refl)).
  - apply (bool_decide_unpack _). vm_compute. exact I.
  - by exists [x03].
  - apply not_elem_of_nil.
Defined.
