(* ===== verification/OciCache.v ===== *)
(** The caching registry client (src/peoci/src/ocidist_cache.rs).

    Three caches stand before the registry: from references to digests, from
    digests to packed manifests with configurations, and from blob keys to the
    sizes of the files of the blob directory.  A miss runs the registry client
    ([OciDist]) and, for blobs, the guarded write of [BlobCache].  The first two
    caches are saved to files of the cache directory and loaded again.  The
    caches are maps; eviction is an operation of its own, since it can happen
    between any two calls.  The requests of one call run one after the other. *)
From stdpp Require Import option base list sets numbers strings gmap.
From Stdlib Require Import ZArith Lia.
From S2P Require Import Prelude BTree Text RuntimeSpec OciDist BlobCache.
#[local] Open Scope Z_scope.

(** * Data *)

Inductive Error :=
  | ClientError (e : OciDist.Error) | Io | ErrnoError (e : Errno) | OciSpecError | AcquireError
  | EncodeError | DecodeError | SpecError (e : Spec.Error) | OneshotRx | OneshotTx | NoCacheDir
  | BadDigest | MissingDigest | ManifestNotFound | NoMatchingManifest | CachedFileSizeMismatch
  | ConfigurationNotFound | BlobNotFound | Ser | DirIter | DigestAlgorithmNotHandled | BlobMissing
  | FdClone | MaxConns | UnexpectedPanic | Canceled | Oob | MissingResult | Unknown.

Record ClientBuilder := {
  cb_cache_dir : option bstr; load_from_disk : bool; ref_capacity : Z; manifest_capacity : Z;
  blob_capacity : Z; max_open_conns : Z; cb_auth : option (gmap bstr Auth);
}.
Definition ClientBuilder_default : ClientBuilder :=
  {| cb_cache_dir := None; load_from_disk := false; ref_capacity := 10000000;
     manifest_capacity := 10000000; blob_capacity := 1000000000; max_open_conns := 10;
     cb_auth := None |}.

(** The setters of the builder. *)
Definition cb_dir (path : bstr) (b : ClientBuilder) : ClientBuilder :=
  Build_ClientBuilder (Some path) (load_from_disk b) (ref_capacity b) (manifest_capacity b) (blob_capacity b)
    (max_open_conns b) (cb_auth b).
Definition cb_load_from_disk (x : bool) (b : ClientBuilder) : ClientBuilder :=
  Build_ClientBuilder (cb_cache_dir b) x (ref_capacity b) (manifest_capacity b) (blob_capacity b)
    (max_open_conns b) (cb_auth b).
Definition cb_max_open_conns (n : Z) (b : ClientBuilder) : ClientBuilder :=
  Build_ClientBuilder (cb_cache_dir b) (load_from_disk b) (ref_capacity b) (manifest_capacity b) (blob_capacity b)
    n (cb_auth b).
Definition cb_set_auth (auth : gmap bstr Auth) (b : ClientBuilder) : ClientBuilder :=
  Build_ClientBuilder (cb_cache_dir b) (load_from_disk b) (ref_capacity b) (manifest_capacity b) (blob_capacity b)
    (max_open_conns b) (Some auth).
Definition cb_ref_capacity (n : Z) (b : ClientBuilder) : ClientBuilder :=
  Build_ClientBuilder (cb_cache_dir b) (load_from_disk b) n (manifest_capacity b) (blob_capacity b)
    (max_open_conns b) (cb_auth b).
Definition cb_manifest_capacity (n : Z) (b : ClientBuilder) : ClientBuilder :=
  Build_ClientBuilder (cb_cache_dir b) (load_from_disk b) (ref_capacity b) n (blob_capacity b)
    (max_open_conns b) (cb_auth b).
Definition cb_blob_capacity (n : Z) (b : ClientBuilder) : ClientBuilder :=
  Build_ClientBuilder (cb_cache_dir b) (load_from_disk b) (ref_capacity b) (manifest_capacity b) n
    (max_open_conns b) (cb_auth b).

Record ImageManifestAndConfiguration := {
  manifest_digest : Spec.Digest; manifest : Spec.ImageManifest;
  configuration : Spec.ImageConfiguration;
}.

Record Counters := {
  ref_cache_hit : Z; ref_cache_miss : Z; manifest_cache_hit : Z; manifest_cache_miss : Z;
  blob_cache_hit : Z; blob_cache_miss : Z;
}.

Definition no_counts : Counters :=
  {| ref_cache_hit := 0; ref_cache_miss := 0; manifest_cache_hit := 0; manifest_cache_miss := 0;
     blob_cache_hit := 0; blob_cache_miss := 0 |}.

(** [data] of [PackedImageAndConfiguration] is the value of the second cache. *)
Record Client (F : Type) := {
  world : OciDist.World;
  cache_dir : F;
  blobs : F;
  ref_cache : gmap bstr bstr;
  manifest_cache : gmap bstr bstr;
  blob_cache : gmap BlobKey Z;
  counters : Counters;
}.
Arguments world {F}.
Arguments cache_dir {F}.
Arguments blobs {F}.
Arguments ref_cache {F}.
Arguments manifest_cache {F}.
Arguments blob_cache {F}.
Arguments counters {F}.
Arguments Build_Client {F}.

(** * Buffered writers

    What the code relies on of a [BufWriter]: the bytes reach the file in order,
    all of them once a flush succeeded, and nothing else changes. *)
Class BufWriter (F W : Type) := {
  bw_new : nat -> W;
  bw_write : W * F -> bstr -> (W * F) * bool;
  bw_flush : W * F -> (W * F) * bool;
}.

(** The flush may come after other changes, as long as the file is as the
    writer left it. *)
Class BufWriterLaws (F W : Type) `{FileSystemLaws F} `{BufWriter F W} := {
  bw_writes f i cs w f1 ok : write_seq bw_write (bw_new i, f) cs = ((w, f1), ok) ->
    only_file i f f1 /\
    forall f2 w' f3 b, content f2 i = content f1 i -> bw_flush (w, f2) = ((w', f3), b) ->
      only_file i f2 f3 /\ (ok = true -> b = true -> content f3 i = content f i ++ concat cs);
}.

(** * Computations *)

Section client.
Context {F W : Type} `{FileSystem F} `{BufWriter F W}.

Definition C (A : Type) : Type := Client F -> Client F * result Error A.
Definition cok {A} (a : A) : C A := fun c => (c, Ok a).
Definition cerr {A} (e : Error) : C A := fun c => (c, Err e).
Definition cbind {A B} (x : C A) (k : A -> C B) : C B := fun c =>
  match x c with
  | (c, Ok a) => k a c
  | (c, Err e) => (c, Err e)
  | (c, Panic) => (c, Panic)
  end.
Definition clift {A} (r : result Error A) : C A := fun c => (c, r).

Definition set_world (w : OciDist.World) (c : Client F) : Client F :=
  Build_Client w (cache_dir c) (blobs c) (ref_cache c) (manifest_cache c) (blob_cache c) (counters c).
Definition set_cache_dir (f : F) (c : Client F) : Client F :=
  Build_Client (world c) f (blobs c) (ref_cache c) (manifest_cache c) (blob_cache c) (counters c).
Definition set_blobs (f : F) (c : Client F) : Client F :=
  Build_Client (world c) (cache_dir c) f (ref_cache c) (manifest_cache c) (blob_cache c) (counters c).
Definition set_ref_cache (m : gmap bstr bstr) (c : Client F) : Client F :=
  Build_Client (world c) (cache_dir c) (blobs c) m (manifest_cache c) (blob_cache c) (counters c).
Definition set_manifest_cache (m : gmap bstr bstr) (c : Client F) : Client F :=
  Build_Client (world c) (cache_dir c) (blobs c) (ref_cache c) m (blob_cache c) (counters c).
Definition set_blob_cache (m : gmap BlobKey Z) (c : Client F) : Client F :=
  Build_Client (world c) (cache_dir c) (blobs c) (ref_cache c) (manifest_cache c) m (counters c).
Definition set_counters (n : Counters) (c : Client F) : Client F :=
  Build_Client (world c) (cache_dir c) (blobs c) (ref_cache c) (manifest_cache c) (blob_cache c) n.

(** A call of the registry client; its error is wrapped. *)
Definition call {A} (m : OciDist.M A) : C A := fun c =>
  let '(w, r) := m (world c) in (set_world w c, map_err ClientError r).

(** A call on the blob directory, and one on the cache directory. *)
Definition on_blobs {A} (op : F -> F * result Errno A) : C A := fun c =>
  let '(f, r) := op (blobs c) in (set_blobs f c, map_err ErrnoError r).
Definition on_cache_dir {A} (op : F -> F * result Errno A) : C A := fun c =>
  let '(f, r) := op (cache_dir c) in (set_cache_dir f c, map_err ErrnoError r).

Definition modify (f : Client F -> Client F) : C unit := fun c => (f c, Ok tt).
Definition count (f : Counters -> Counters) : C unit := modify (fun c => set_counters (f (counters c)) c).

(** [entry(key).or_try_insert_with(init)]: a value that is present is returned;
    otherwise [init] runs and its value is inserted if it succeeds.  What [init]
    hands over besides the value tells a fresh entry. *)
Definition or_try_insert_with {K V X} `{Countable K} (get : Client F -> gmap K V)
    (set : gmap K V -> Client F -> Client F) (k : K) (init : C (V * X)) : C (V * option X) := fun c =>
  match get c !! k with
  | Some v => (c, Ok (v, None))
  | None =>
      match init c with
      | (c, Ok (v, x)) => (set (<[k := v]> (get c)) c, Ok (v, Some x))
      | (c, Err e) => (c, Err e)
      | (c, Panic) => (c, Panic)
      end
  end.
End client.
Arguments C : clear implicits.

Notation "'let*' x ':=' c 'in' k" := (cbind c (fun x => k))
  (at level 10, x name, c at level 100, k at level 200).
Notation "'let*' ' p ':=' c 'in' k" := (cbind c (fun x => match x with p => k end))
  (at level 10, p strict pattern, c at level 100, k at level 200).

(** [atomic_inc] *)
Definition inc (x : Z) : Z := atomic_inc x.
Definition inc_ref (hit : bool) (n : Counters) : Counters :=
  {| ref_cache_hit := (if hit then inc (ref_cache_hit n) else ref_cache_hit n);
     ref_cache_miss := (if hit then ref_cache_miss n else inc (ref_cache_miss n));
     manifest_cache_hit := manifest_cache_hit n; manifest_cache_miss := manifest_cache_miss n;
     blob_cache_hit := blob_cache_hit n; blob_cache_miss := blob_cache_miss n |}.
Definition inc_manifest (hit : bool) (n : Counters) : Counters :=
  {| ref_cache_hit := ref_cache_hit n; ref_cache_miss := ref_cache_miss n;
     manifest_cache_hit := (if hit then inc (manifest_cache_hit n) else manifest_cache_hit n);
     manifest_cache_miss := (if hit then manifest_cache_miss n else inc (manifest_cache_miss n));
     blob_cache_hit := blob_cache_hit n; blob_cache_miss := blob_cache_miss n |}.
Definition inc_blob (hit : bool) (n : Counters) : Counters :=
  {| ref_cache_hit := ref_cache_hit n; ref_cache_miss := ref_cache_miss n;
     manifest_cache_hit := manifest_cache_hit n; manifest_cache_miss := manifest_cache_miss n;
     blob_cache_hit := (if hit then inc (blob_cache_hit n) else blob_cache_hit n);
     blob_cache_miss := (if hit then blob_cache_miss n else inc (blob_cache_miss n)) |}.

(** * Operations *)

Section operations.
Context {F : Type} (W : Type) `{FileSystem F} `{BufWriter F W}.
Context (timestamp_ok : Z -> bool) (parse_token : bstr -> option (bstr * option Z)).
Context (sha256 : bstr -> list byte) (digest_parse : bstr -> option OciImage.Digest).
Context (parse_index : bstr -> option (list IndexEntry)) (parse_manifest : bstr -> option Manifest).
Context (parse_configuration : bstr -> option OciImage.ImageConfiguration).
Context (media_type_of : bstr -> OciImage.MediaType) (algorithm_str : OciImage.DigestAlgorithm -> bstr).
Context (reference_to_string : Reference -> bstr).
Context (packed_encode : ImageManifestAndConfiguration -> option bstr).
Context (packed_decode : bstr -> option ImageManifestAndConfiguration).

(** [Digest::to_string] *)
Definition digest_to_string (d : OciImage.Digest) : bstr :=
  algorithm_str (OciImage.algorithm d) ++ [colon] ++ OciImage.digest d.

Definition PackedImageAndConfiguration_new (digest : OciImage.Digest) (m : Manifest)
    (ic : OciImage.ImageConfiguration) : result Error bstr :=
  (let? d := map_err SpecError (Spec.Digest_try_from digest) in
  let? sm := map_err SpecError (Spec.ImageManifest_try_from (manifest_layers m)) in
  let? sc := map_err SpecError (Spec.ImageConfiguration_try_from ic) in
  ok_or (packed_encode {| manifest_digest := d; manifest := sm; configuration := sc |}) EncodeError)%result.

Definition PackedImageAndConfiguration_get (data : bstr) : result Error ImageManifestAndConfiguration :=
  ok_or (packed_decode data) DecodeError.

Definition retreive_ref (r : Reference) (arch : OciImage.Arch) (os : OciImage.Os) : C F (bstr * unit) :=
  let* descriptor := call (get_matching_descriptor_from_index timestamp_ok parse_token sha256
    digest_parse parse_index parse_manifest media_type_of r arch os) in
  let* descriptor := clift (ok_or descriptor ManifestNotFound) in
  cok (digest_to_string (OciImage.desc_digest descriptor), tt).

Definition retreive_manifest_and_configuration (r : Reference) : C F (bstr * unit) :=
  let* s := clift (ok_or (ref_digest r) MissingDigest) in
  let* digest := clift (ok_or (digest_parse s) BadDigest) in
  let* res := call (get_image_manifest timestamp_ok parse_token sha256 digest_parse r) in
  let* res := clift (ok_or res ManifestNotFound) in
  let* m := clift (ok_or (im_get parse_manifest res) OciSpecError) in
  let* cres := call (get_image_configuration timestamp_ok parse_token sha256 algorithm_str r
    (manifest_config m)) in
  let* cres := clift (ok_or cres ConfigurationNotFound) in
  let* ic := clift (ok_or (ic_get parse_configuration cres) OciSpecError) in
  let* packed := clift (PackedImageAndConfiguration_new digest m ic) in
  cok (packed, tt).

(** The download of a blob into the file of its key; every exit before
    [success] drops the guard.  The rewind of the file is a seek to 0. *)
Definition retreive_blob (r : Reference) (d : OciImage.Descriptor) (k : BlobKey) : C F (Z * nat) :=
  let* '(fd, guard) := on_blobs (openat_create_write_async_with_guard k) in
  fun c =>
    let '(w, ((_, f), res)) := OciDist.get_blob timestamp_ok parse_token sha256 algorithm_str
      (bw_write (W := W)) bw_flush r d (bw_new fd, blobs c) (world c) in
    let c := set_blobs f (set_world w c) in
    match res with
    | Ok (Some size) =>
        match guard_success guard (blobs c) with
        | (f, Ok _) => (set_blobs f c, Ok (wrap 64 size, fd))
        | (f, Err e) => (set_blobs f c, Err (ErrnoError e))
        | (f, Panic) => (set_blobs f c, Panic)
        end
    | Ok None => (set_blobs (guard_drop guard (blobs c)) c, Err BlobNotFound)
    | Err e => (set_blobs (guard_drop guard (blobs c)) c, Err (ClientError e))
    | Panic => (set_blobs (guard_drop guard (blobs c)) c, Panic)
    end.

Definition get_blob (r : Reference) (d : OciImage.Descriptor) : C F nat :=
  let* k := clift (ok_or (BlobKey_new (digest_to_string (OciImage.desc_digest d))) BadDigest) in
  let* '(_, fresh) := or_try_insert_with blob_cache set_blob_cache k (retreive_blob r d k) in
  let* fd := match fresh with
             | Some fd => let* _ := count (inc_blob false) in cok fd
             | None =>
                 let* _ := count (inc_blob true) in
                 let* file := on_blobs (openat_read_key k) in
                 clift (ok_or file BlobMissing)
             end in
  fun c => if zlen (content (blobs c) fd) =? OciImage.size d then (c, Ok fd)
           else (c, Err CachedFileSizeMismatch).

(** The layers in the order of the manifest, up to the first error. *)
Fixpoint get_layers (r : Reference) (layers : list Spec.LayerDescriptor) : C F (list nat) :=
  match layers with
  | [] => cok []
  | l :: layers =>
      let* fd := get_blob r (Spec.LayerDescriptor_into l) in
      let* fds := get_layers r layers in
      cok (fd :: fds)
  end.

Definition clone_with_digest (r : Reference) (s : bstr) : Reference :=
  {| registry := registry r; repository := repository r; tag := tag r; ref_digest := Some s |}.

Definition get_image_manifest_and_configuration (r : Reference) (arch : OciImage.Arch)
    (os : OciImage.Os) : C F bstr :=
  let* digest_string :=
    match ref_digest r with
    | Some s =>
        let* digest := clift (ok_or (digest_parse s) BadDigest) in
        cok (digest_to_string digest)
    | None =>
        let* '(v, fresh) := or_try_insert_with ref_cache set_ref_cache (reference_to_string r)
          (retreive_ref r arch os) in
        let* _ := count (inc_ref (bool_decide (fresh = None))) in
        cok v
    end in
  let* '(v, fresh) := or_try_insert_with manifest_cache set_manifest_cache digest_string
    (retreive_manifest_and_configuration (clone_with_digest r digest_string)) in
  let* _ := count (inc_manifest (bool_decide (fresh = None))) in
  cok v.

(** Eviction from a cache; the listener of the blobs unlinks the file. *)
Definition evict_ref (s : bstr) (c : Client F) : Client F := set_ref_cache (delete s (ref_cache c)) c.
Definition evict_manifest (s : bstr) (c : Client F) : Client F :=
  set_manifest_cache (delete s (manifest_cache c)) c.
Definition evict_blob (k : BlobKey) (c : Client F) : Client F :=
  set_blobs (remove_blob k (blobs c)) (set_blob_cache (delete k (blob_cache c)) c).

(** ** Persistence *)

Context (entries_encode : list (bstr * bstr) -> option bstr).
Context (entries_decode : bstr -> option (list (bstr * bstr))).

(** Writing a cache file; the buffered writer is flushed when it is dropped, at
    the end of the function and after the rename, and an error is lost. *)
Definition save_entries (name : bstr) (entries : list (bstr * bstr)) : C F unit :=
  let* n := clift (expect (GenericName_new name)) in
  let* '(fd, guard) := on_cache_dir (openat_create_write_with_generic_guard n) in
  fun c =>
    match entries_encode entries with
    | None => (set_cache_dir (generic_drop guard (cache_dir c)) c, Err Ser)
    | Some data =>
        match bw_write (W := W) (bw_new fd, cache_dir c) data with
        | ((w, f), false) =>
            let f := snd (fst (bw_flush (w, f))) in
            (set_cache_dir (generic_drop guard f) c, Err Ser)
        | ((w, f), true) =>
            let '(f, r) := generic_success guard f in
            let f := snd (fst (bw_flush (w, f))) in
            (set_cache_dir f c, map_err ErrnoError r)
        end
    end.

Definition save_ref_cache : C F unit := fun c =>
  save_entries (bytes_of_string "ref") (map_to_list (ref_cache c)) c.
Definition save_manifest_cache : C F unit := fun c =>
  save_entries (bytes_of_string "manifest") (map_to_list (manifest_cache c)) c.

Definition persist : C F unit := let* _ := save_ref_cache in save_manifest_cache.

(** A file that is missing or does not decode leaves the cache as it is. *)
Definition load_entries (name : bstr) (insert : list (bstr * bstr) -> Client F -> Client F) : C F unit :=
  let* file := on_cache_dir (openat_read name) in
  match file with
  | None => cok tt
  | Some fd => fun c =>
      match entries_decode (content (cache_dir c) fd) with
      | Some entries => (insert entries c, Ok tt)
      | None => (c, Ok tt)
      end
  end.

(** Insertion one by one: of two entries with one key the later one stays. *)
Definition insert_all {K V} `{Countable K} (l : list (K * V)) (m : gmap K V) : gmap K V :=
  fold_left (fun m kv => <[kv.1 := kv.2]> m) l m.

Definition load_ref_cache : C F unit :=
  load_entries (bytes_of_string "ref") (fun l c => set_ref_cache (insert_all l (ref_cache c)) c).
Definition load_manifest_cache : C F unit :=
  load_entries (bytes_of_string "manifest")
    (fun l c => set_manifest_cache (insert_all l (manifest_cache c)) c).

(** The entries that the directory readers deliver for the blob directory. *)
Definition load_blob_cache (to_str : bstr -> option bstr) (listing : F -> list (result Errno DirEntry))
    : C F unit :=
  let* acc := fun c => (c, map_err ErrnoError (read_from_disk to_str (listing (blobs c)))) in
  modify (fun c => set_blob_cache (insert_all acc (blob_cache c)) c).

(** ** Start-up *)

Definition set_auth (auth : gmap bstr Auth) : C F unit :=
  modify (fun c => set_world (fst (OciDist.set_auth auth (world c))) c).

(** [open_dirs] opens or creates the cache directory and its directory of blobs;
    the HTTP client and the second descriptor for the evictions are made. *)
Definition build (to_str : bstr -> option bstr) (listing : F -> list (result Errno DirEntry))
    (open_dirs : bstr -> result Errno (F * F)) (b : ClientBuilder) (w : OciDist.World)
    : result Error (Client F) :=
  match cb_cache_dir b with
  | None => Err NoCacheDir
  | Some path =>
      match open_dirs path with
      | Err e => Err (ErrnoError e)
      | Panic => Panic
      | Ok (cache, blobs) =>
          let ret := {| world := {| clock := clock w; net := net w; sent := sent w; client := Client_new |};
                        cache_dir := cache; blobs := blobs; ref_cache := ∅; manifest_cache := ∅;
                        blob_cache := ∅; counters := no_counts |} in
          let load :=
            let* _ := (match cb_auth b with Some auth => set_auth auth | None => cok tt end) in
            if load_from_disk b then
              let* _ := load_ref_cache in
              let* _ := load_manifest_cache in
              load_blob_cache to_str listing
            else cok tt in
          match load ret with
          | (c, Ok _) => Ok c
          | (_, Err e) => Err e
          | (_, Panic) => Panic
          end
      end
  end.
End operations.

(** ** Limits *)

(** The weighers and capacities that [build] gives to the caches. *)
Definition ref_weigher (k v : bstr) : Z := default u32_max (try_into 32 (wadd 64 (zlen k) (zlen v))).
Definition manifest_weigher (k data : bstr) : Z :=
  default u32_max (try_into 32 (wadd 64 (zlen k) (zlen data))).

(** [stats] takes the counters: it resets them. *)
Definition take_counters {F} (c : Client F) : Client F * Counters := (set_counters no_counts c, counters c).

(** * Lemmas *)

Lemma cbind_Ok {F A B} (x : C F A) (k : A -> C F B) c c' b :
  cbind x k c = (c', Ok b) -> exists c1 a, x c = (c1, Ok a) /\ k a c1 = (c', Ok b).
Proof. unfold cbind. destruct (x c) as [c1 [a|e|]]; intros E; simplify_eq; eauto. Qed.

Lemma clift_Ok {F A} (r : result Error A) (c c' : Client F) a :
  clift r c = (c', Ok a) -> c' = c /\ r = Ok a.
Proof. unfold clift. by intros [= -> ->]. Qed.

Lemma call_Ok {F A} (m : OciDist.M A) (c c' : Client F) a :
  call m c = (c', Ok a) -> exists w, m (world c) = (w, Ok a) /\ c' = set_world w c.
Proof.
  unfold call. destruct (m (world c)) as [w [x|e|]] eqn:E; intros Hc; [|discriminate Hc..].
  injection Hc as <- ->. eauto.
Qed.

(** Everything but the network, the blob directory and the counters. *)
Definition same_caches {F} (c c' : Client F) : Prop :=
  ref_cache c' = ref_cache c /\ manifest_cache c' = manifest_cache c /\ blob_cache c' = blob_cache c /\
  cache_dir c' = cache_dir c.

Section invariant.
Context {F W : Type} `{FileSystemLaws F} `{!BufWriter F W, !BufWriterLaws F W}.
Context (timestamp_ok : Z -> bool) (parse_token : bstr -> option (bstr * option Z)).
Context (sha256 : bstr -> list byte) (digest_parse : bstr -> option OciImage.Digest).
Context (parse_index : bstr -> option (list IndexEntry)) (parse_manifest : bstr -> option Manifest).
Context (parse_configuration : bstr -> option OciImage.ImageConfiguration).
Context (media_type_of : bstr -> OciImage.MediaType) (algorithm_str : OciImage.DigestAlgorithm -> bstr).
Context (reference_to_string : Reference -> bstr).
Context (packed_encode : ImageManifestAndConfiguration -> option bstr).
Context (Halg : algorithm_str OciImage.Sha256 = bytes_of_string "sha256").

(** The directory between two calls, with the open files that were handed out. *)
Definition dir_ok (f : F) (hd : list (BlobKey * nat)) : Prop :=
  cache_ok sha256 {| fs := f; flight := ∅; handed := hd |}.

(** The open files of digests keep their contents. *)
Definition stable (hd : list (BlobKey * nat)) (f f' : F) : Prop :=
  forall k i, (k, i) ∈ hd -> digest_key k -> content f' i = content f i.

Lemma stable_trans hd f f1 f2 : stable hd f f1 -> stable hd f1 f2 -> stable hd f f2.
Proof. intros H1 H2 k i Hin Hd. by rewrite (H2 k i), (H1 k i). Qed.

Lemma same_contents_stable hd f f' : same_contents f f' -> stable hd f f'.
Proof. intros Hc k i _ _. apply Hc. Qed.

Lemma only_file_stable hd f f' k d :
  cache_ok sha256 {| fs := f; handed := hd; flight := {[k := d]} |} -> only_file (d_file d) f f' ->
  stable hd f f'.
Proof.
  intros Hok (_ & _ & Hc) k' i Hin Hd. apply Hc. intros ->.
  by apply (proj2 (ok_handed _ _ Hok k' _ Hin Hd) k d (lookup_singleton_eq _ _)).
Qed.

Lemma sha256_string d data :
  OciImage.algorithm d = OciImage.Sha256 -> OciImage.digest d = hex_encode (sha256 data) ->
  digest_to_string algorithm_str d = bytes_of_string "sha256:" ++ hex_encode (sha256 data).
Proof. intros Ha Hd. unfold digest_to_string. by rewrite Ha, Hd, Halg. Qed.

Lemma open_tmp_ok k f f' r hd :
  dir_ok f hd -> valid k -> openat_create_write_with_guard k f = (f', r) ->
  stable hd f f' /\
  match r with
  | Ok (i, g) => g = {| guard_key := Some k |} /\
      cache_ok sha256 {| fs := f'; handed := hd;
        flight := {[k := {| d_file := i; d_hashed := []; d_written := true |}]} |}
  | _ => dir_ok f' hd
  end.
Proof.
  intros Hok Hv E.
  assert (exists s', handle sha256 {| fs := f; flight := ∅; handed := hd |} (Start k) = Some s' /\
    fs s' = f' /\ s' = match r with
      | Ok (i, _) => {| fs := f'; handed := hd;
          flight := {[k := {| d_file := i; d_hashed := []; d_written := true |}]} |}
      | _ => {| fs := f'; flight := ∅; handed := hd |} end) as (s' & Hs & Hf & Hs').
  { simpl. rewrite !bool_decide_eq_true_2 by done. simpl. rewrite E.
    destruct r as [[i g]|e|]; eauto. }
  split.
  - intros k' i Hin Hd. rewrite <-Hf. by apply (handed_stable sha256 _ (Start k) s' k' i Hok Hin Hd Hs).
  - pose proof (handle_ok sha256 _ _ _ Hok Hs) as Hok'. destruct r as [[i g]|e|]; subst s'; [|done..].
    split; [|done]. unfold openat_create_write_with_guard in E.
    destruct (openat_create_write _ _) as [f1 [j|e|]]; simplify_eq/=; done.
Qed.

Lemma drop_ok k d f hd :
  cache_ok sha256 {| fs := f; handed := hd; flight := {[k := d]} |} ->
  let f' := guard_drop {| guard_key := Some k |} f in dir_ok f' hd /\ stable hd f f'.
Proof.
  intros Hok. split; [|apply same_contents_stable, unlink_fewer].
  eapply (fewer_cache_ok sha256 _ _ ∅ hd Hok); [apply unlink_fewer|apply map_empty_subseteq|done].
Qed.

(** What a download leaves in the file it was given. *)
Lemma download_file r d i f w w' bw f2 res :
  OciDist.get_blob timestamp_ok parse_token sha256 algorithm_str (bw_write (W := W)) bw_flush r d
    (bw_new i, f) w = (w', ((bw, f2), res)) ->
  only_file i f f2 /\
  exists data, forall n, res = Ok (Some n) -> content f2 i = content f i ++ data /\
    OciImage.size d = zlen data /\
    digest_to_string algorithm_str (OciImage.desc_digest d) =
      bytes_of_string "sha256:" ++ hex_encode (sha256 data).
Proof.
  intros Eb. apply get_blob_spec in Eb as (cs & [bw1 f1] & ok & Hw & Hfl & Hr).
  apply bw_writes in Hw as [Hof Hflush]. split.
  - destruct Hfl as [[= -> ->]|[b Hb]]; [done|].
    destruct (Hflush f1 bw f2 b eq_refl Hb) as [Hof' _]. by eapply only_file_trans.
  - exists (concat cs). intros n ->. destruct (Hr n eq_refl) as (-> & Hf & Hn & Hs & Ha & Hd & _).
    destruct (Hflush f1 bw f2 true eq_refl Hf) as [_ Hc]. split_and!; [by apply Hc|congruence|].
    by apply sha256_string.
Qed.

Lemma success_ok k d f f' r hd :
  cache_ok sha256 {| fs := f; handed := hd; flight := {[k := d]} |} ->
  d_written d = true -> verified sha256 k (d_hashed d) ->
  guard_success {| guard_key := Some k |} f = (f', r) ->
  dir_ok f' (match r with Ok _ => (k, d_file d) :: hd | _ => hd end) /\ stable hd f f'.
Proof.
  intros Hok Hw Hver. unfold guard_success, guard_drop. simpl. fold (tmp_path k).
  destruct (renameat (tmp_path k) (as_path k) f) as [f3 r3] eqn:E3. intros [= <- <-].
  split; [|by apply same_contents_stable; apply renameat_spec in E3 as (_ & ? & _)].
  destruct r3 as [[]|e|].
  - pose proof (publish_ok sha256 _ k d f3 Hok (lookup_singleton_eq _ _) Hw Hver E3) as Hp.
    simpl in Hp. by rewrite delete_singleton_eq in Hp.
  - apply renameat_spec in E3 as (Hl & Hc & Hn).
    apply (fewer_cache_ok sha256 _ _ ∅ hd Hok); [by apply same_fewer|apply map_empty_subseteq|done].
  - apply renameat_spec in E3 as (Hl & Hc & Hn).
    apply (fewer_cache_ok sha256 _ _ ∅ hd Hok); [by apply same_fewer|apply map_empty_subseteq|done].
Qed.

Lemma retreive_blob_ok r d k (c c' : Client F) res hd :
  dir_ok (blobs c) hd -> valid k -> key k = digest_to_string algorithm_str (OciImage.desc_digest d) ->
  retreive_blob W timestamp_ok parse_token sha256 algorithm_str r d k c = (c', res) ->
  same_caches c c' /\ stable hd (blobs c) (blobs c') /\
  dir_ok (blobs c') (match res with Ok (_, fd) => (k, fd) :: hd | _ => hd end).
Proof.
  intros Hok Hv Hk. unfold retreive_blob, cbind, on_blobs.
  rewrite openat_async_same. destruct (openat_create_write_with_guard k (blobs c)) as [f1 r1] eqn:E1.
  apply (open_tmp_ok k _ _ _ hd Hok Hv) in E1 as [Hst1 E1]. destruct r1 as [[i g]|e|]; simpl.
  2,3: intros [= <- <-]; done.
  destruct E1 as [-> Hok1].
  destruct (OciDist.get_blob _ _ _ _ _ _ _ _ _) as [w [[bw f2] rb]] eqn:Eb.
  apply download_file in Eb as (Hof & data & Hr).
  assert (stable hd (blobs c) f2) as Hst2 by (eapply stable_trans; [done|by eapply only_file_stable]).
  pose (ok2 := match rb with Ok (Some _) => true | _ => false end).
  assert (cache_ok sha256 {| fs := f2; handed := hd;
    flight := {[k := {| d_file := i; d_hashed := data; d_written := ok2 |}]} |}) as Hok2.
  { pose proof (chunk_ok sha256 _ k _ data f2 ok2 Hok1 (lookup_singleton_eq _ _) Hof) as Hch.
    simpl in Hch. rewrite insert_singleton_eq in Hch. apply Hch. intros Ho.
    destruct rb as [[n|]| |]; try discriminate Ho. by apply (Hr n). }
  destruct rb as [[n|]|e|]; simpl.
  2,3,4: intros [= <- <-]; destruct (drop_ok _ _ _ _ Hok2);
    split; [done|]; split; [by eapply stable_trans|done].
  destruct (Hr n eq_refl) as (_ & _ & Hd).
  assert (verified sha256 k data) as Hver by (red; congruence).
  destruct (guard_success _ f2) as [f3 r3] eqn:E3.
  destruct (success_ok k _ _ _ _ hd Hok2 eq_refl Hver E3) as [Hs Hst3].
  assert (stable hd (blobs c) f3) by (by eapply stable_trans).
  destruct r3 as [u|e|]; intros [= <- <-]; done.
Qed.

Lemma dir_ok_drop f x hd : dir_ok f (x :: hd) -> dir_ok f hd.
Proof.
  intros Hok. apply (fewer_cache_ok sha256 _ f ∅ hd Hok); [by apply same_fewer|done|].
  intros y Hy. by apply elem_of_cons; right.
Qed.

Lemma dir_ok_suffix f hd1 hd : dir_ok f (hd1 ++ hd) -> dir_ok f hd.
Proof. induction hd1 as [|x hd1 IH]; [done|]. intros Hok. by apply IH, (dir_ok_drop _ x). Qed.

Lemma dir_ok_verified f hd k fd :
  dir_ok f hd -> (k, fd) ∈ hd -> digest_key k -> verified sha256 k (content f fd).
Proof. intros Hok Hin Hd. by apply (handed_verified _ _ _ _ (proj1 (ok_handed _ _ Hok k fd Hin Hd))). Qed.

Lemma open_blob_ok k f f' r hd :
  dir_ok f hd -> valid k -> openat_read_key k f = (f', r) ->
  stable hd f f' /\ dir_ok f' (match r with Ok (Some fd) => (k, fd) :: hd | _ => hd end).
Proof.
  intros Hok Hv. unfold openat_read_key, openat_read. destruct (openat2_read _ _) as [f1 r1] eqn:E.
  pose proof (read_spec _ _ _ _ E) as (Hl & Hn & Hc & _).
  assert (dir_ok f1 hd) as Hok1.
  { apply (fewer_cache_ok sha256 _ f1 ∅ hd Hok); [by apply same_fewer|done|done]. }
  pose proof (same_contents_stable hd _ _ Hc) as Hst.
  destruct r1 as [i|[]|]; intros [= <- <-]; (split; [done|]); try done.
  apply (open_ok sha256 _ k f1 i Hok Hv E).
Qed.

(** A file that [get_blob] delivers for [d]. *)
Definition blob_file (f : F) (hd : list (BlobKey * nat)) (d : OciImage.Descriptor) (fd : nat) : Prop :=
  zlen (content f fd) = OciImage.size d /\
  exists k, key k = digest_to_string algorithm_str (OciImage.desc_digest d) /\ (k, fd) ∈ hd.

Lemma get_blob_ok r d (c c' : Client F) res hd :
  dir_ok (blobs c) hd ->
  get_blob W timestamp_ok parse_token sha256 algorithm_str r d c = (c', res) ->
  ref_cache c' = ref_cache c /\ manifest_cache c' = manifest_cache c /\
  stable hd (blobs c) (blobs c') /\ dir_ok (blobs c') hd /\
  forall fd, res = Ok fd -> exists hd', dir_ok (blobs c') (hd' ++ hd) /\ blob_file (blobs c') hd' d fd.
Proof.
  intros Hok. unfold get_blob. unfold cbind at 1, clift at 1.
  destruct (BlobKey_new _) as [k|] eqn:Ek; simpl; [|by intros [= <- <-]].
  assert (valid k /\ key k = digest_to_string algorithm_str (OciImage.desc_digest d)) as [Hv Hk].
  { pose proof Ek as E'. apply BlobKey_new_Some in E' as [-> _]. split; [exact Ek|done]. }
  assert (forall f fd, dir_ok f ((k, fd) :: hd) -> zlen (content f fd) = OciImage.size d ->
    exists hd', dir_ok f (hd' ++ hd) /\ blob_file f hd' d fd) as Hgive.
  { intros f fd Hf Hz. exists [(k, fd)]. split; [done|]. split; [done|].
    exists k. split; [done|]. by apply list_elem_of_singleton. }
  unfold cbind at 1, or_try_insert_with at 1. destruct (blob_cache c !! k) as [v|] eqn:Eb; simpl.
  - unfold cbind, count, modify, on_blobs. simpl.
    destruct (openat_read_key k (blobs c)) as [f' [[fd|]|e|]] eqn:E; simpl;
      apply (open_blob_ok k _ _ _ hd Hok Hv) in E as [Hst E]; [|by intros [= <- <-]..].
    destruct (Z.eqb_spec (zlen (content f' fd)) (OciImage.size d)); intros [= <- <-]; simpl;
      (split_and!; [done|done|done|by eapply dir_ok_drop|]); [|done].
    intros ? [= <-]. by apply Hgive.
  - destruct (retreive_blob _ _ _ _ _ _ _ _ c) as [c1 res1] eqn:E1.
    apply (retreive_blob_ok r d k c c1 res1 hd Hok Hv Hk) in E1 as ((Hr & Hm & Hb & Hcd) & Hst & Hok1).
    destruct res1 as [[size fd]|e|]; simpl; [|by intros [= <- <-]..].
    unfold cbind, count, modify. simpl.
    destruct (Z.eqb_spec (zlen (content (blobs c1) fd)) (OciImage.size d)); intros [= <- <-]; simpl;
      (split_and!; [done|done|done|by eapply dir_ok_drop|]); [|done].
    intros ? [= <-]. by apply Hgive.
Qed.

Lemma LayerDescriptor_into_string l data :
  Spec.ld_digest l = Spec.Sha256 data ->
  digest_to_string algorithm_str (OciImage.desc_digest (Spec.LayerDescriptor_into l)) =
    bytes_of_string "sha256:" ++ hex_encode data.
Proof.
  intros Hl. unfold digest_to_string, Spec.LayerDescriptor_into, Spec.Digest_into. simpl.
  rewrite Hl. simpl. by rewrite Halg.
Qed.

Lemma get_layers_ok r layers : forall (c c' : Client F) res hd,
  dir_ok (blobs c) hd ->
  get_layers W timestamp_ok parse_token sha256 algorithm_str r layers c = (c', res) ->
  ref_cache c' = ref_cache c /\ manifest_cache c' = manifest_cache c /\
  stable hd (blobs c) (blobs c') /\ dir_ok (blobs c') hd /\
  forall fds, res = Ok fds -> exists hd', dir_ok (blobs c') (hd' ++ hd) /\
    Forall2 (fun l => blob_file (blobs c') hd' (Spec.LayerDescriptor_into l)) layers fds.
Proof.
  induction layers as [|l layers IH]; intros c c' res hd Hok; simpl.
  { intros [= <- <-]. split_and!; [done..|]. intros ? [= <-]. exists []. by split; [|constructor]. }
  unfold cbind. destruct (get_blob _ _ _ _ _ r _ c) as [c1 r1] eqn:E1.
  apply (get_blob_ok _ _ _ _ _ hd Hok) in E1 as (Hr1 & Hm1 & Hst1 & Hok1 & Hfd).
  destruct r1 as [fd|e|]; [|by intros [= <- <-]..].
  destruct (Hfd fd eq_refl) as (hd1 & Hok1' & Hz & k & Hk & Hin).
  destruct (get_layers _ _ _ _ _ r layers c1) as [c2 r2] eqn:E2.
  pose proof (IH _ _ _ _ Hok1' E2) as (Hr2 & Hm2 & Hst2 & Hok2 & Hfds).
  assert (stable hd (blobs c) (blobs c2)) as Hst.
  { eapply stable_trans; [done|]. intros k' i Hin'. apply Hst2, elem_of_app. by right. }
  assert (digest_key k) as Hdk.
  { destruct (Spec.ld_digest l) as [data] eqn:Hl. exists data. rewrite Hk.
    by apply LayerDescriptor_into_string. }
  assert (dir_ok (blobs c2) hd) as Hok2' by (by eapply dir_ok_suffix).
  destruct r2 as [fds|e|]; intros [= <- <-]; (split_and!; [congruence|congruence|done|done|]); [|done..].
  intros ? [= <-]. destruct (Hfds fds eq_refl) as (hd2 & Hok3 & Hall).
  exists (hd2 ++ hd1). rewrite <-app_assoc. split; [done|]. constructor.
  - split; [|exists k; split; [done|apply elem_of_app; by right]].
    rewrite (Hst2 k fd); [done|apply elem_of_app; by left|done].
  - eapply Forall2_impl; [exact Hall|]. intros l' fd' (Hz' & k' & Hk' & Hin').
    split; [done|]. exists k'. split; [done|]. apply elem_of_app. by left.
Qed.

(** ** Manifests *)

(** The packed value of a digest string: the chain of hashes from the digest to
    the manifest and from the manifest to the configuration. *)
Record packed_from (s v : bstr) (dg : OciImage.Digest) (m : Manifest)
    (ic : OciImage.ImageConfiguration) (data cdata : bstr) : Prop := {
  from_digest : digest_parse s = Some dg;
  from_sha256 : OciImage.algorithm dg = OciImage.Sha256;
  from_hash : OciImage.digest dg = hex_encode (sha256 data);
  from_manifest : parse_manifest data = Some m;
  from_config_sha256 : OciImage.algorithm (OciImage.desc_digest (manifest_config m)) = OciImage.Sha256;
  from_config_hash :
    OciImage.digest (OciImage.desc_digest (manifest_config m)) = hex_encode (sha256 cdata);
  from_config : parse_configuration cdata = Some ic;
  from_packed : PackedImageAndConfiguration_new packed_encode dg m ic = Ok v;
}.

Definition packed_for (s v : bstr) : Prop :=
  exists dg m ic data cdata, packed_from s v dg m ic data cdata.

Definition client_ok (c : Client F) : Prop :=
  dir_ok (blobs c) [] /\ forall s v, manifest_cache c !! s = Some v -> packed_for s v.

Lemma client_ok_frame (c c' : Client F) :
  blobs c' = blobs c -> manifest_cache c' = manifest_cache c -> client_ok c -> client_ok c'.
Proof. intros Hb Hm [H1 H2]. split; [by rewrite Hb|by rewrite Hm]. Qed.

Lemma retreive_manifest_ok r s (c c' : Client F) v u :
  ref_digest r = Some s ->
  retreive_manifest_and_configuration timestamp_ok parse_token sha256 digest_parse parse_manifest
    parse_configuration algorithm_str packed_encode r c = (c', Ok (v, u)) ->
  packed_for s v.
Proof.
  intros Hs. unfold retreive_manifest_and_configuration. rewrite Hs. intros E.
  apply cbind_Ok in E as (c0 & s0 & [-> [= <-]]%clift_Ok & E).
  apply cbind_Ok in E as (c1 & dg & [-> Hdg%ok_or_Ok]%clift_Ok & E).
  apply cbind_Ok in E as (c2 & res & (w1 & Hm & ->)%call_Ok & E).
  apply cbind_Ok in E as (c3 & mres & [-> ->%ok_or_Ok]%clift_Ok & E).
  apply cbind_Ok in E as (c4 & m & [-> Hpm%ok_or_Ok]%clift_Ok & E).
  apply cbind_Ok in E as (c5 & res2 & (w2 & Hc & ->)%call_Ok & E).
  apply cbind_Ok in E as (c6 & cres & [-> ->%ok_or_Ok]%clift_Ok & E).
  apply cbind_Ok in E as (c7 & ic & [-> Hic%ok_or_Ok]%clift_Ok & E).
  apply cbind_Ok in E as (c8 & packed & [-> Hp]%clift_Ok & E). injection E as _ <- _.
  apply get_image_manifest_spec in Hm as (Ha & Hh & Hd).
  apply get_image_configuration_spec in Hc as (Hca & Hch & _).
  assert (dg = im_digest mres) as -> by (specialize (Hd s Hs); congruence).
  by exists (im_digest mres), m, ic, (im_data mres), (ic_data cres).
Qed.

(** The operations that fetch a manifest leave the blobs alone. *)
Lemma call_frame {A} (m : OciDist.M A) (c c' : Client F) r :
  call m c = (c', r) -> blobs c' = blobs c /\ manifest_cache c' = manifest_cache c.
Proof. unfold call. destruct (m (world c)) as [w x]. by intros [= <- _]. Qed.

Lemma cbind_frame {A B} (x : C F A) (k : A -> C F B) (P : Client F -> Client F -> Prop) c c' r :
  (forall c1 c2 c3, P c1 c2 -> P c2 c3 -> P c1 c3) ->
  (forall c1 r1, x c = (c1, r1) -> P c c1) ->
  (forall a c1 c2 r2, k a c1 = (c2, r2) -> P c1 c2) ->
  cbind x k c = (c', r) -> P c c'.
Proof.
  intros Ht Hx Hk. unfold cbind. destruct (x c) as [c1 r1] eqn:E. specialize (Hx _ _ eq_refl).
  destruct r1 as [a|e|]; [|by intros [= <- _]..]. intros E2. eapply Ht; [done|]. by eapply Hk.
Qed.

Definition frame (c c' : Client F) : Prop :=
  blobs c' = blobs c /\ manifest_cache c' = manifest_cache c.

Definition framed {A} (x : C F A) : Prop := forall c c' r, x c = (c', r) -> frame c c'.

Lemma framed_cbind {A B} (x : C F A) (k : A -> C F B) :
  framed x -> (forall a, framed (k a)) -> framed (cbind x k).
Proof.
  intros Hx Hk c c' r E. eapply (cbind_frame x k frame); [|by apply Hx|by intros a; apply Hk|done].
  intros c1 c2 c3 [H1 H2] [H3 H4]. split; congruence.
Qed.

Lemma framed_clift {A} (r : result Error A) : framed (clift r).
Proof. by intros c c' ? [= <- _]. Qed.

Lemma framed_call {A} (m : OciDist.M A) : framed (call m).
Proof. intros c c' r E. by apply call_frame in E. Qed.

Lemma framed_cok {A} (a : A) : framed (cok a).
Proof. by intros c c' r [= <- _]. Qed.

Lemma framed_count f : framed (count f).
Proof. by intros c c' r [= <- _]. Qed.

Create HintDb framed.
#[local] Hint Resolve framed_cbind framed_clift framed_call framed_cok framed_count : framed.

Lemma framed_retreive_manifest r :
  framed (retreive_manifest_and_configuration timestamp_ok parse_token sha256 digest_parse parse_manifest
    parse_configuration algorithm_str packed_encode r).
Proof. unfold retreive_manifest_and_configuration. auto 20 with framed. Qed.

Lemma framed_digest_string r arch os :
  framed (match ref_digest r with
    | Some s => let* digest := clift (ok_or (digest_parse s) BadDigest) in
                cok (digest_to_string algorithm_str digest)
    | None =>
        let* '(v, fresh) := or_try_insert_with ref_cache set_ref_cache (reference_to_string r)
          (retreive_ref timestamp_ok parse_token sha256 digest_parse parse_index parse_manifest
            media_type_of algorithm_str r arch os) in
        let* _ := count (inc_ref (bool_decide (fresh = None))) in cok v
    end).
Proof.
  destruct (ref_digest r); [auto with framed|]. apply framed_cbind; [|intros [v fr]; auto with framed].
  intros c c' res. unfold or_try_insert_with. destruct (ref_cache c !! _); [by intros [= <- _]|].
  destruct (retreive_ref _ _ _ _ _ _ _ _ _ _ _ c) as [c1 r1] eqn:E.
  assert (frame c c1) as Hf.
  { revert E. unfold retreive_ref. apply framed_cbind; auto with framed. }
  destruct r1 as [[v x]|e|]; intros [= <- _]; done.
Qed.

Lemma get_manifest_ok r arch os (c c' : Client F) res :
  client_ok c ->
  get_image_manifest_and_configuration timestamp_ok parse_token sha256 digest_parse parse_index
    parse_manifest parse_configuration media_type_of algorithm_str reference_to_string packed_encode
    r arch os c = (c', res) ->
  client_ok c' /\
  forall v, res = Ok v -> exists s, packed_for s v /\
    forall s0, ref_digest r = Some s0 -> exists dg, digest_parse s0 = Some dg /\ s = digest_to_string algorithm_str dg.
Proof.
  intros Hok. pose proof Hok as [Hd Hm]. unfold get_image_manifest_and_configuration. unfold cbind at 1.
  match goal with |- context [match ?x c with _ => _ end] => destruct (x c) as [c1 r1] eqn:E1 end.
  pose proof (framed_digest_string r arch os c c1 r1 E1) as [Hb1 Hm1].
  destruct r1 as [s|e|]; [|intros [= <- <-]; split; [by apply (client_ok_frame c)|done]..].
  assert (forall s0, ref_digest r = Some s0 ->
    exists dg, digest_parse s0 = Some dg /\ s = digest_to_string algorithm_str dg) as Hs.
  { intros s0 Hs0. rewrite Hs0 in E1. apply cbind_Ok in E1 as (c2 & dg & [_ Hp%ok_or_Ok]%clift_Ok & E1).
    injection E1 as _ <-. by exists dg. }
  clear E1. unfold cbind at 1, or_try_insert_with at 1.
  destruct (manifest_cache c1 !! s) as [v|] eqn:Ev.
  - intros [= <- <-]. split; [by apply (client_ok_frame c)|]. intros ? [= <-]. exists s. split; [|done].
    apply Hm. congruence.
  - destruct (retreive_manifest_and_configuration _ _ _ _ _ _ _ _ _ c1) as [c2 r2] eqn:E2.
    pose proof (framed_retreive_manifest _ _ _ _ E2) as [Hb2 Hm2].
    destruct r2 as [[v u]|e|]; [|intros [= <- <-]; split; [apply (client_ok_frame c); congruence|done]..].
    intros [= <- <-]. eapply retreive_manifest_ok in E2; [|done]. split.
    + split; simpl; [by rewrite Hb2, Hb1|]. intros s' v' [[<- <-]|[_ Hl]]%lookup_insert_Some; [done|].
      apply Hm. congruence.
    + intros ? [= <-]. by exists s.
Qed.

(** ** Any sequence of operations *)

Inductive Op :=
  | GetManifest (r : Reference) (arch : OciImage.Arch) (os : OciImage.Os)
  | GetLayers (r : Reference) (layers : list Spec.LayerDescriptor)
  | GetBlob (r : Reference) (d : OciImage.Descriptor)
  | EvictRef (s : bstr) | EvictManifest (s : bstr) | EvictBlob (k : BlobKey)
  | Persist | Stats
  | Elapse (w : OciDist.World).  (** time passes and the network has new answers *)

Context (entries_encode : list (bstr * bstr) -> option bstr).

Definition exec (op : Op) (c : Client F) : Client F :=
  match op with
  | GetManifest r arch os =>
      fst (get_image_manifest_and_configuration timestamp_ok parse_token sha256 digest_parse parse_index
        parse_manifest parse_configuration media_type_of algorithm_str reference_to_string packed_encode
        r arch os c)
  | GetLayers r layers => fst (get_layers W timestamp_ok parse_token sha256 algorithm_str r layers c)
  | GetBlob r d => fst (get_blob W timestamp_ok parse_token sha256 algorithm_str r d c)
  | EvictRef s => evict_ref s c
  | EvictManifest s => evict_manifest s c
  | EvictBlob k => evict_blob k c
  | Persist => fst (persist W entries_encode c)
  | Stats => fst (take_counters c)
  | Elapse w => set_world w c
  end.

Definition exec_all (ops : list Op) (c : Client F) : Client F := fold_left (fun c op => exec op c) ops c.

Lemma framed_save_entries n l : framed (save_entries W entries_encode n l).
Proof.
  unfold save_entries. apply framed_cbind; [apply framed_clift|]. intros nm. apply framed_cbind.
  - intros c c' r. unfold on_cache_dir. destruct (openat_create_write_with_generic_guard _ _) as [f x].
    by intros [= <- _].
  - intros [fd g] c c' r. destruct (entries_encode l); [|by intros [= <- _]].
    destruct (bw_write _ _) as [[w f] [|]]; [destruct (generic_success g f)|]; by intros [= <- _].
Qed.

Lemma framed_persist : framed (persist W entries_encode).
Proof.
  apply framed_cbind; [|intros _]; intros c c' r; apply framed_save_entries.
Qed.

Lemma exec_ok op c : client_ok c -> client_ok (exec op c).
Proof.
  intros Hok. pose proof Hok as [Hd Hm]. destruct op as [r arch os|r layers|r d|s|s|k| | |w]; simpl.
  - destruct (get_image_manifest_and_configuration _ _ _ _ _ _ _ _ _ _ _ _ _ _ c) as [c' res] eqn:E.
    by apply get_manifest_ok in E as [? _].
  - destruct (get_layers _ _ _ _ _ r layers c) as [c' res] eqn:E.
    apply (get_layers_ok _ _ _ _ _ [] Hd) in E as (_ & Hmc & _ & Hd' & _). split; simpl; [done|by rewrite Hmc].
  - destruct (get_blob _ _ _ _ _ r d c) as [c' res] eqn:E.
    apply (get_blob_ok _ _ _ _ _ [] Hd) in E as (_ & Hmc & _ & Hd' & _). split; simpl; [done|by rewrite Hmc].
  - done.
  - split; [done|]. simpl. intros s' v [_ Hl]%lookup_delete_Some. by apply Hm.
  - split; [|done]. apply (fewer_cache_ok sha256 _ _ ∅ [] Hd); [apply unlink_fewer|done|done].
  - destruct (persist W entries_encode c) as [c' r] eqn:E. apply framed_persist in E as [Hb Hmc].
    by apply (client_ok_frame c).
  - done.
  - done.
Qed.

Lemma exec_all_ok ops c : client_ok c -> client_ok (exec_all ops c).
Proof. revert c. induction ops as [|op ops IH]; intros c Hok; [done|]. by apply IH, exec_ok. Qed.

(** A client on an empty directory, with nothing cached. *)
Definition fresh_client (w : OciDist.World) (dir blobs : F) : Client F :=
  Build_Client w dir blobs ∅ ∅ ∅ no_counts.

Lemma fresh_client_ok w dir bl : (forall p, links bl p = None) -> client_ok (fresh_client w dir bl).
Proof. intros He. split; [by apply empty_cache_ok|done]. Qed.

Lemma layer_hash l f hd fd :
  dir_ok f hd -> blob_file f hd (Spec.LayerDescriptor_into l) fd ->
  Spec.ld_digest l = Spec.Sha256 (sha256 (content f fd)) /\ Spec.ld_size l = zlen (content f fd).
Proof.
  intros Hok (Hz & k & Hk & Hin). destruct (Spec.ld_digest l) as [data] eqn:Hl.
  rewrite (LayerDescriptor_into_string l data Hl) in Hk.
  assert (digest_key k) as Hdk by (by exists data).
  pose proof (dir_ok_verified f hd k fd Hok Hin Hdk) as Hv. red in Hv. rewrite Hk in Hv.
  apply app_inv_head in Hv. split; [|done]. f_equal.
  assert (hex_decode (hex_encode data) = hex_decode (hex_encode (sha256 (content f fd)))) as Hx by (by rewrite Hv).
  rewrite !hex_decode_encode in Hx. congruence.
Qed.
End invariant.

(** ** Saving and loading *)

Lemma insert_all_map_to_list {K V} `{Countable K} (m : gmap K V) : insert_all (map_to_list m) ∅ = m.
Proof.
  unfold insert_all.
  assert (forall l (m0 : gmap K V), NoDup l.*1 -> (forall k v, (k, v) ∈ l -> m0 !! k = None) ->
    fold_left (fun m kv => <[kv.1 := kv.2]> m) l m0 = list_to_map l ∪ m0) as Hgen.
  { induction l as [|[k v] l IH]; intros m0 Hnd Hnew; simpl; [by rewrite (left_id_L ∅ (∪))|].
    inversion_clear Hnd as [|? ? Hk Hnd']. rewrite IH; [|done|].
    - rewrite <-insert_union_r by (by apply not_elem_of_list_to_map_1).
      by rewrite insert_union_l.
    - intros k' v' Hin. rewrite lookup_insert_ne; [by eapply Hnew, elem_of_cons; right|].
      intros ->. apply Hk. apply list_elem_of_fmap. by exists (k', v'). }
  rewrite Hgen; [|apply NoDup_fst_map_to_list|by intros k v _; apply lookup_empty].
  by rewrite (right_id_L ∅ (∪)), list_to_map_to_list.
Qed.

Section persistence.
Context {F W : Type} `{FileSystemLaws F} `{!BufWriter F W, !BufWriterLaws F W}.
Context (entries_encode : list (bstr * bstr) -> option bstr).
Context (entries_decode : bstr -> option (list (bstr * bstr))).
Context (Hcodec : forall l b, entries_encode l = Some b -> entries_decode b = Some l).
(** The flush when the writer is dropped succeeds. *)
Context (Hflush : forall x : W * F, snd (bw_flush x) = true).

(** After a save the file has the encoded entries. *)
Lemma save_entries_ok n l (c c' : Client F) :
  GenericName_new n = Some {| name := n |} ->
  save_entries W entries_encode n l c = (c', Ok tt) ->
  exists fd b, links (cache_dir c') n = Some fd /\ entries_encode l = Some b /\
    content (cache_dir c') fd = b /\ ref_cache c' = ref_cache c /\ manifest_cache c' = manifest_cache c /\
    (unshared (cache_dir c) -> unshared (cache_dir c')) /\
    forall n' j, n' <> n -> n' <> n ++ tmp_suffix -> unshared (cache_dir c) -> links (cache_dir c) n' = Some j ->
      links (cache_dir c') n' = Some j /\ content (cache_dir c') j = content (cache_dir c) j.
Proof.
  intros Hn E. unfold save_entries in E. apply cbind_Ok in E as (c0 & nm & [-> Hnm]%clift_Ok & E).
  rewrite Hn in Hnm. injection Hnm as <-.
  apply cbind_Ok in E as (c1 & [fd g] & Ho & E). unfold on_cache_dir in Ho.
  destruct (openat_create_write_with_generic_guard _ _) as [f1 r1] eqn:Ec.
  unfold openat_create_write_with_generic_guard in Ec.
  destruct (openat2_create _ _) as [f1' r1'] eqn:Ec'. injection Ec as -> <-.
  destruct r1' as [i|e|]; [|discriminate Ho..]. injection Ho as <- -> <-.
  apply create_spec in Ec' as (_ & Hl & Hnb & Hempty & Hcb & _ & Hor). simpl in E.
  destruct (entries_encode l) as [b|]; [|discriminate E].
  destruct (bw_write (bw_new fd, f1) b) as [[w f2] [|]] eqn:Ew; [|discriminate E].
  assert (write_seq (bw_write (W := W)) (bw_new fd, f1) [b] = ((w, f2), true)) as Hws by (simpl; by rewrite Ew).
  apply bw_writes in Hws as [(_ & Hn2 & Hc2) Hfl].
  unfold generic_success, generic_drop in E. simpl in E.
  destruct (renameat _ n f2) as [f3 r3] eqn:Er. apply renameat_spec in Er as (_ & Hc3 & Hr3).
  destruct r3 as [[]|e|]; [|discriminate E..]. injection E as <-.
  destruct Hr3 as (i & Hi & Hl3 & Hgone & Hrest). change (generic_tmp _) with (n ++ tmp_suffix) in *.
  assert (i = fd) as -> by (rewrite Hn2 in Hi; unfold generic_tmp in Hl; simpl in Hl; congruence).
  pose proof (Hflush (w, f3)) as Hf. destruct (bw_flush (w, f3)) as [[w' f4] b'] eqn:Ef. simpl in Hf. subst b'.
  destruct (Hfl f3 w' f4 true (Hc3 fd) Ef) as [(_ & Hn4 & Hcb4) Hc4].
  exists fd, b. simpl. split_and!; [by rewrite Hn4|done|by rewrite Hc4, Hempty by done; simpl; apply app_nil_r|done|done| |].
  { intros Hu. apply (same_names_unshared f3); [done|]. rewrite Hn2 in Hi.
    apply (rename_unshared f2 f3 (n ++ tmp_suffix) n fd); [by rewrite Hn2|done|apply Hgone|done|].
    { intros Heq%(f_equal length). rewrite length_app in Heq. simpl in Heq. lia. }
    apply (same_names_unshared f1); [done|]. by eapply create_unshared. }
  intros n' j Hn' Hn'' Hu Hj.
  destruct (create_frame _ _ _ _ Hl Hnb Hcb Hor n' j Hn'' (links_live _ _ _ Hj) (Hu _ _ Hj)) as (Hji & Hcj & _).
  split.
  - rewrite Hn4, Hrest, Hn2, Hnb by done. done.
  - rewrite Hcb4, Hc3, Hc2 by done. done.
Qed.

Lemma load_entries_ok n fd l (c c' : Client F) insert :
  links (cache_dir c) n = Some fd -> entries_decode (content (cache_dir c) fd) = Some l ->
  load_entries entries_decode n insert c = (c', Ok tt) ->
  exists f, c' = insert l (set_cache_dir f c) /\ same_names (cache_dir c) f /\ same_contents (cache_dir c) f.
Proof.
  intros Hl Hd E. unfold load_entries in E. apply cbind_Ok in E as (c1 & file & Ho & E).
  unfold on_cache_dir, openat_read in Ho. destruct (openat2_read n (cache_dir c)) as [f r] eqn:Er.
  apply read_spec in Er as (_ & Hn & Hc & Hok & Hno).
  destruct r as [i|[]|]; simpl in Ho; try discriminate Ho; injection Ho as <- <-.
  - assert (i = fd) as -> by (specialize (Hok i eq_refl); congruence).
    simpl in E. rewrite Hc, Hd in E. injection E as <-. by exists f.
  - specialize (Hno eq_refl). congruence.
Qed.

Lemma load_blob_cache_Ok to_str listing (c c' : Client F) :
  load_blob_cache to_str listing c = (c', Ok tt) ->
  exists found, read_from_disk to_str (listing (blobs c)) = Ok found /\
    c' = set_blob_cache (insert_all found (blob_cache c)) c.
Proof.
  unfold load_blob_cache, cbind. destruct (read_from_disk _ _) as [found|e|]; intros [= <-].
  by exists found.
Qed.

(** The loads of a client that starts with its directories. *)
Lemma build_Ok to_str listing dir bl b path w (c : Client F) :
  cb_cache_dir b = Some path -> load_from_disk b = true ->
  build entries_decode to_str listing (fun _ => Ok (dir, bl)) b w = Ok c ->
  exists c1 c2 c3, cache_dir c1 = dir /\ blobs c1 = bl /\ ref_cache c1 = ∅ /\ manifest_cache c1 = ∅ /\
    blob_cache c1 = ∅ /\
    load_ref_cache entries_decode c1 = (c2, Ok tt) /\
    load_manifest_cache entries_decode c2 = (c3, Ok tt) /\
    load_blob_cache to_str listing c3 = (c, Ok tt).
Proof.
  intros Hp Hl. unfold build. rewrite Hp, Hl.
  match goal with |- context [cbind ?x ?k ?c0] => destruct (cbind x k c0) as [c' r] eqn:E end.
  destruct r as [[]| |]; [intros [= ->]|discriminate..].
  apply cbind_Ok in E as (c1 & [] & Ha & E). apply cbind_Ok in E as (c2 & [] & E1 & E).
  apply cbind_Ok in E as (c3 & [] & E2 & E3). exists c1, c2, c3.
  destruct (cb_auth b); injection Ha as <-; done.
Qed.

(** A client that is built where [persist] succeeded. *)
Lemma persist_restores to_str listing (c c1 c2 : Client F) b path w bl :
  unshared (cache_dir c) -> persist W entries_encode c = (c1, Ok tt) ->
  cb_cache_dir b = Some path -> load_from_disk b = true ->
  build entries_decode to_str listing (fun _ => Ok (cache_dir c1, bl)) b w = Ok c2 ->
  ref_cache c2 = ref_cache c /\ manifest_cache c2 = manifest_cache c /\
  exists found, read_from_disk to_str (listing bl) = Ok found /\ blob_cache c2 = insert_all found ∅.
Proof.
  intros Hu Hs Hpath Hload Hbuild. unfold persist in Hs. apply cbind_Ok in Hs as (c0 & [] & Hs1 & Hs2).
  apply save_entries_ok in Hs1 as (fd & bb & Hn & He & Hb & Hr0 & Hm0 & Hu0 & _); [|reflexivity].
  apply save_entries_ok in Hs2 as (fd2 & b2 & Hn2 & He2 & Hb2 & Hr1 & Hm1 & _ & Hfr); [|reflexivity].
  destruct (Hfr (bytes_of_string "ref") fd) as [Hn' Hb']; [done|done|by apply Hu0|done|].
  apply (build_Ok _ _ _ _ _ path) in Hbuild as (c3 & c4 & c5 & Hd & Hbl & Hr & Hm & Hbc & Hl & Hl2 & Hl3); [|exact Hpath|done].
  eapply load_entries_ok in Hl as (f & Hc2 & Hsn & Hsc);
    [|by rewrite Hd|rewrite Hd, Hb', Hb; by apply Hcodec]. subst c4.
  eapply (load_entries_ok _ fd2) in Hl2 as (f2 & Hc3 & _);
    [|simpl; rewrite Hsn, Hd; exact Hn2|simpl; rewrite Hsc, Hd, Hb2; by apply Hcodec]. subst c5.
  apply load_blob_cache_Ok in Hl3 as (found & Hfound & ->). simpl in *.
  rewrite Hr, Hm, Hbc, Hm0, !insert_all_map_to_list. rewrite Hbl in Hfound. eauto.
Qed.
End persistence.

(** * Properties *)

(** C14: images are authentic.  In every state that requests, evictions and the
    passing of time reach from an empty cache, a packed image that is returned
    comes from a manifest whose SHA-256 is its digest (the digest of the
    reference when that has one) and a configuration whose SHA-256 is in that
    manifest; and however many operations later, the files that are returned for
    its layers have, in the order of the manifest, contents with the sizes and
    SHA-256 hashes that the manifest names. *)
Theorem image_authentic {F W} `{FileSystemLaws F} `{!BufWriter F W, !BufWriterLaws F W}
    timestamp_ok parse_token sha256 digest_parse parse_index parse_manifest parse_configuration
    media_type_of algorithm_str reference_to_string packed_encode packed_decode
    entries_encode ops w dir (bl : F) r arch os c1 v mc ops2 r2 c2 fds :
  algorithm_str OciImage.Sha256 = bytes_of_string "sha256" ->
  (forall x b, packed_encode x = Some b -> packed_decode b = Some x) ->
  (forall p, links bl p = None) ->
  let exec_all := exec_all (W := W) timestamp_ok parse_token sha256 digest_parse parse_index parse_manifest
    parse_configuration media_type_of algorithm_str reference_to_string packed_encode entries_encode in
  get_image_manifest_and_configuration timestamp_ok parse_token sha256 digest_parse parse_index
    parse_manifest parse_configuration media_type_of algorithm_str reference_to_string packed_encode
    r arch os (exec_all ops (fresh_client w dir bl)) = (c1, Ok v) ->
  PackedImageAndConfiguration_get packed_decode v = Ok mc ->
  get_layers W timestamp_ok parse_token sha256 algorithm_str r2 (Spec.layers (manifest mc))
    (exec_all ops2 c1) = (c2, Ok fds) ->
  (exists s dg m ic data cdata,
     packed_from sha256 digest_parse parse_manifest parse_configuration packed_encode s v dg m ic data cdata /\
     Spec.Digest_try_from dg = Ok (manifest_digest mc) /\
     Spec.ImageManifest_try_from (manifest_layers m) = Ok (manifest mc) /\
     Spec.ImageConfiguration_try_from ic = Ok (configuration mc) /\
     forall s0, ref_digest r = Some s0 -> exists d0, digest_parse s0 = Some d0 /\ s = digest_to_string algorithm_str d0) /\
  Forall2 (fun l fd => Spec.ld_digest l = Spec.Sha256 (sha256 (content (blobs c2) fd)) /\
                       Spec.ld_size l = zlen (content (blobs c2) fd)) (Spec.layers (manifest mc)) fds.
Proof.
  intros Halg Hcodec He exec_all' Hg Hp Hl. unfold exec_all' in *. clear exec_all'.
  pose proof (fresh_client_ok sha256 digest_parse parse_manifest parse_configuration packed_encode w dir bl He) as H1.
  eapply (exec_all_ok timestamp_ok parse_token sha256 digest_parse parse_index parse_manifest
    parse_configuration media_type_of algorithm_str reference_to_string packed_encode Halg entries_encode ops) in H1.
  apply get_manifest_ok in Hg as [Hok1 Hv]; [|done]. destruct (Hv v eq_refl) as (s & Hpk & Hs). split.
  - destruct Hpk as (dg & m & ic & data & cdata & Hpk). exists s, dg, m, ic, data, cdata.
    split; [done|]. apply from_packed in Hpk. unfold PackedImageAndConfiguration_new in Hpk.
    destruct (Spec.Digest_try_from dg) as [d| |]; [simpl in Hpk|discriminate..].
    destruct (Spec.ImageManifest_try_from _) as [sm| |]; [simpl in Hpk|discriminate..].
    destruct (Spec.ImageConfiguration_try_from ic) as [sc| |]; [simpl in Hpk|discriminate..].
    apply ok_or_Ok, Hcodec in Hpk. apply ok_or_Ok in Hp. rewrite Hpk in Hp. by injection Hp as <-.
  - eapply (exec_all_ok timestamp_ok parse_token sha256 digest_parse parse_index parse_manifest
      parse_configuration media_type_of algorithm_str reference_to_string packed_encode Halg entries_encode ops2) in Hok1 as [Hd2 _].
    apply (get_layers_ok _ _ _ _ Halg _ _ _ _ _ [] Hd2) in Hl as (_ & _ & _ & _ & Hfds).
    destruct (Hfds fds eq_refl) as (hd & Hdir & Hall). rewrite app_nil_r in Hdir.
    eapply Forall2_impl; [exact Hall|]. intros l fd Hb. by eapply layer_hash.
Qed.

(** ** A concrete client *)

(** A writer that keeps everything until it is flushed. *)
#[export] Instance buffer {F} `{FileSystem F} : BufWriter F (nat * bstr) := {
  bw_new i := (i, []);
  bw_write x c := let '((i, buf), f) := x in (((i, buf ++ c), f), true);
  bw_flush x := let '((i, buf), f) := x in
                let '(f', b) := fs_write i buf f in (((i, if b then [] else buf), f'), b);
}.

Lemma buffer_writes {F} `{FileSystem F} (f : F) i buf cs :
  write_seq (bw_write (W := nat * bstr)) ((i, buf), f) cs = (((i, buf ++ concat cs), f), true).
Proof.
  revert buf. induction cs as [|c cs IH]; intros buf; simpl; [by rewrite app_nil_r|].
  by rewrite IH, <-app_assoc.
Qed.

#[export] Instance buffer_laws {F} `{FileSystemLaws F} : BufWriterLaws F (nat * bstr).
Proof.
  split. intros f i cs w f1 ok E. change (bw_new i) with (i, @nil byte) in E.
  rewrite buffer_writes in E. injection E as <- <- <-. split; [done|].
  intros f2 w' f3 b Hc Hf. simpl in Hf. destruct (fs_write i (concat cs) f2) as [f4 b4] eqn:E4.
  injection Hf as _ <- <-. apply write_spec in E4 as (Hl & Hn & Hcb & Hb). split; [done|].
  intros _ ->. by rewrite Hb, Hc.
Defined.

Definition example_sha256 (data : bstr) : list byte := replicate 31 x00 ++ [byte_of (zlen data)].
Definition example_digest (n : Z) : OciImage.Digest :=
  {| OciImage.algorithm := OciImage.Sha256;
     OciImage.digest := hex_encode (replicate 31 x00 ++ [byte_of n]) |}.
Definition example_desc (n : Z) : OciImage.Descriptor :=
  {| OciImage.media_type := OciImage.ImageLayer; OciImage.size := n;
     OciImage.desc_digest := example_digest n |}.
Definition example_alg (a : OciImage.DigestAlgorithm) : bstr :=
  match a with OciImage.Sha256 => bytes_of_string "sha256" | OciImage.OtherAlgorithm n => n end.
Definition example_digest_parse (s : bstr) : option OciImage.Digest :=
  h ← strip_prefix (bytes_of_string "sha256:") s;
  Some {| OciImage.algorithm := OciImage.Sha256; OciImage.digest := h |}.
Definition example_parse_manifest (_ : bstr) : option Manifest :=
  Some {| manifest_config := example_desc 2; config_platform := None; manifest_layers := [example_desc 3] |}.
Definition example_parse_configuration (_ : bstr) : option OciImage.ImageConfiguration :=
  Some {| OciImage.architecture := OciImage.Amd64; OciImage.os := OciImage.Linux; OciImage.config := None |}.
Definition example_mc : ImageManifestAndConfiguration :=
  {| manifest_digest := Spec.Sha256 (replicate 31 x00 ++ [x01]);
     manifest := {| Spec.layers := [{| Spec.ld_media_type := Spec.ImageLayer; Spec.ld_size := 3;
                      Spec.ld_digest := Spec.Sha256 (replicate 31 x00 ++ [x03]) |}] |};
     configuration := {| Spec.architecture := Spec.Amd64; Spec.os := Spec.Linux; Spec.config := None |} |}.

#[export] Instance mc_eq_dec : EqDecision ImageManifestAndConfiguration.
Proof.
  assert (EqDecision Spec.Digest) by solve_decision.
  assert (EqDecision Spec.MediaType) by solve_decision.
  assert (EqDecision Spec.LayerDescriptor) by solve_decision.
  assert (EqDecision Spec.ImageManifest) by solve_decision.
  assert (EqDecision Spec.Config) by solve_decision.
  assert (EqDecision Spec.ImageConfiguration) by solve_decision.
  solve_decision.
Defined.

Definition example_encode (x : ImageManifestAndConfiguration) : option bstr :=
  if decide (x = example_mc) then Some [x70] else None.
Definition example_decode (_ : bstr) : option ImageManifestAndConfiguration := Some example_mc.

Definition example_ref : Reference :=
  {| registry := bytes_of_string "quay.io"; repository := bytes_of_string "fedora/fedora"; tag := None;
     ref_digest := Some (digest_to_string example_alg (example_digest 1)) |}.

Definition example_answer (data : bstr) : Z * option HttpResponse :=
  (1, Some {| status := 200; headers := [(bytes_of_string "content-type", OCI_IMAGE_MANIFEST_V1)];
              chunks := [Some data] |}).
Definition example_registry : World :=
  {| clock := 100; sent := [];
     net := [example_answer [x6d]; example_answer [x63; x63]; example_answer [x61; x62; x63]];
     client := {| token_cache := ∅; auth_store := ∅; ratelimit := ∅ |} |}.

Definition example_client : Client MemFs := fresh_client example_registry example_fs example_fs.
Definition example_get (c : Client MemFs) : Client MemFs * result Error bstr :=
  get_image_manifest_and_configuration (fun _ => true) (fun _ => None) example_sha256 example_digest_parse
    (fun _ => None) example_parse_manifest example_parse_configuration (fun _ => OciImage.ImageLayer)
    example_alg (fun _ => []) example_encode example_ref OciImage.Amd64 OciImage.Linux c.
Definition example_layers (c : Client MemFs) : Client MemFs * result Error (list nat) :=
  get_layers (nat * bstr) (fun _ => true) (fun _ => None) example_sha256 example_alg example_ref
    (Spec.layers (manifest example_mc)) c.
Definition example_done : Client MemFs := fst (example_layers (fst (example_get example_client))).

Lemma image_authentic_witness :
  example_layers (fst (example_get example_client)) = (example_done, Ok [1%nat]) /\
  content (blobs example_done) 1%nat = [x61; x62; x63] /\
  Forall2 (fun l fd => Spec.ld_digest l = Spec.Sha256 (example_sha256 (content (blobs example_done) fd)) /\
             Spec.ld_size l = zlen (content (blobs example_done) fd))
    (Spec.layers (manifest example_mc)) [1%nat].
Proof.
  assert (example_layers (fst (example_get example_client)) = (example_done, Ok [1%nat])) as Hl
    by (unfold example_done; apply pair_of_snd; vm_compute; reflexivity).
  split; [exact Hl|]. split; [vm_compute; reflexivity|].
  refine (proj2 (image_authentic (F := MemFs) (W := nat * bstr) (fun _ => true) (fun _ => None)
    example_sha256 example_digest_parse
    (fun _ => None) example_parse_manifest example_parse_configuration (fun _ => OciImage.ImageLayer)
    example_alg (fun _ => []) example_encode example_decode (fun _ => None) [] example_registry example_fs example_fs
    example_ref OciImage.Amd64 OciImage.Linux (fst (example_get example_client)) [x70] example_mc []
    example_ref example_done [1%nat] _ _ _ _ _ Hl)).
  - reflexivity.
  - intros x b. unfold example_encode. destruct (decide (x = example_mc)) as [->|]; [done|discriminate].
  - intros p. apply lookup_empty.
  - apply (pair_of_snd (example_get example_client)). vm_compute. reflexivity.
  - reflexivity.
Defined.

(** A hit makes no request.  When the reference and its digest are cached,
    the manifest is answered from the caches without touching the network or the
    disk; when a blob is cached, its file is opened without touching the network,
    and no cache entry changes. *)
Theorem hits_are_local {F W} `{FileSystem F} `{!BufWriter F W}
    timestamp_ok parse_token sha256 digest_parse parse_index parse_manifest parse_configuration
    media_type_of algorithm_str reference_to_string packed_encode (c c' : Client F) r arch os :
  (forall s v res, ref_digest r = None -> ref_cache c !! reference_to_string r = Some s ->
     manifest_cache c !! s = Some v ->
     get_image_manifest_and_configuration timestamp_ok parse_token sha256 digest_parse parse_index
       parse_manifest parse_configuration media_type_of algorithm_str reference_to_string packed_encode
       r arch os c = (c', res) ->
     res = Ok v /\ c' = set_counters (inc_manifest true (inc_ref true (counters c))) c) /\
  (forall d k n res, key k = digest_to_string algorithm_str (OciImage.desc_digest d) ->
     blob_cache c !! k = Some n ->
     get_blob W timestamp_ok parse_token sha256 algorithm_str r d c = (c', res) ->
     world c' = world c /\ same_caches c c').
Proof.
  split.
  - intros s v res Hr Hs Hv. unfold get_image_manifest_and_configuration. rewrite Hr.
    unfold cbind, or_try_insert_with, count, modify, cok. rewrite Hs. simpl. rewrite Hv. simpl.
    by intros [= <- <-].
  - intros d k n res Hk Hn. unfold get_blob. unfold cbind at 1, clift at 1. rewrite <-Hk.
    destruct (BlobKey_new (key k)) as [k'|] eqn:E; simpl; [|by intros [= <- _]].
    apply BlobKey_new_Some in E as [-> _].
    replace {| key := key k |} with k by (by destruct k).
    unfold cbind, or_try_insert_with, count, modify, on_blobs. rewrite Hn. simpl.
    destruct (openat_read_key k (blobs c)) as [f [[fd|]|e|]]; simpl; [|by intros [= <- _]..].
    destruct (_ =? _); by intros [= <- _].
Qed.

Lemma hits_are_local_witness :
  let c := fst (example_layers (fst (example_get example_client))) in
  forall res c', get_blob (nat * bstr) (fun _ => true) (fun _ => None) example_sha256 example_alg
    example_ref (example_desc 3) c = (c', res) -> world c' = world c.
Proof.
  intros c res c' E.
  eapply (proj2 (hits_are_local (F := MemFs) (W := nat * bstr) (fun _ => true) (fun _ => None)
    example_sha256 example_digest_parse (fun _ => None) example_parse_manifest
    example_parse_configuration (fun _ => OciImage.ImageLayer) example_alg (fun _ => []) example_encode
    c c' example_ref OciImage.Amd64 OciImage.Linux) (example_desc 3)
    {| key := digest_to_string example_alg (example_digest 3) |} 3 res);
    [reflexivity|vm_compute; reflexivity|exact E].
Defined.

(** The caches survive a restart.  When [persist] succeeds in a directory
    without hard links and what the dropped writers still had reaches the disk,
    a client that is built on that directory and told to load it has exactly the
    reference and manifest caches that were saved, and for the blobs the entries
    that the scan of the blob directory finds. *)
Theorem persist_roundtrip {F W} `{FileSystemLaws F} `{!BufWriter F W, !BufWriterLaws F W}
    entries_encode entries_decode to_str listing (c c1 c2 : Client F) b path w bl :
  (forall l b, entries_encode l = Some b -> entries_decode b = Some l) ->
  (forall x : W * F, snd (bw_flush x) = true) -> unshared (cache_dir c) ->
  persist W entries_encode c = (c1, Ok tt) ->
  cb_cache_dir b = Some path -> load_from_disk b = true ->
  build entries_decode to_str listing (fun _ => Ok (cache_dir c1, bl)) b w = Ok c2 ->
  ref_cache c2 = ref_cache c /\ manifest_cache c2 = manifest_cache c /\
  exists found, read_from_disk to_str (listing bl) = Ok found /\ blob_cache c2 = insert_all found ∅.
Proof. intros Hc Hf Hu Hs. by apply (persist_restores entries_encode entries_decode Hc Hf). Qed.

(** Two cached references, saved and loaded in an empty directory. *)
Definition example_entries (l : list (bstr * bstr)) : option bstr :=
  if decide (l = []) then Some [] else
  if decide (l = map_to_list {[ [x61] := [x62] ]}) then Some [x61; x62] else None.
Definition example_entries_decode (b : bstr) : option (list (bstr * bstr)) :=
  if decide (b = []) then Some [] else Some (map_to_list {[ [x61] := [x62] ]}).
Definition example_saved : Client MemFs := set_ref_cache {[ [x61] := [x62] ]} example_client.
Definition example_builder : ClientBuilder :=
  {| cb_cache_dir := Some [x64]; load_from_disk := true; ref_capacity := 1; manifest_capacity := 1;
     blob_capacity := 1; max_open_conns := 10; cb_auth := None |}.
Definition example_built (c : Client MemFs) : result Error (Client MemFs) :=
  build example_entries_decode Some (fun _ => []) (fun _ => Ok (cache_dir c, example_fs)) example_builder
    example_registry.

Lemma persist_roundtrip_witness :
  match example_built (fst (persist (nat * bstr) example_entries example_saved)) with
  | Ok c => ref_cache c = {[ [x61] := [x62] ]}
  | _ => False
  end.
Proof.
  destruct (example_built _) as [c| |] eqn:E.
  - refine (proj1 (persist_roundtrip (F := MemFs) (W := nat * bstr) example_entries example_entries_decode
      Some (fun _ => []) example_saved (fst (persist (nat * bstr) example_entries example_saved)) c
      example_builder [x64] example_registry example_fs _ _ _ _ _ _ E)).
    + intros l b. unfold example_entries, example_entries_decode.
      destruct (decide (l = [])) as [->|]; [by intros [= <-]|].
      destruct (decide (l = _)) as [->|]; [by intros [= <-]|done].
    + intros [[i buf] f]. reflexivity.
    + intros p i Hp. exfalso. change (links example_fs p = Some i) in Hp. vm_compute in Hp. discriminate Hp.
    + apply pair_of_snd. vm_compute. reflexivity.
    + reflexivity.
    + reflexivity.
  - assert (match example_built (fst (persist (nat * bstr) example_entries example_saved)) with
            | Ok _ => true | _ => false end = true) as Hx by (vm_compute; reflexivity).
    rewrite E in Hx. discriminate Hx.
  - assert (match example_built (fst (persist (nat * bstr) example_entries example_saved)) with
            | Ok _ => true | _ => false end = true) as Hx by (vm_compute; reflexivity).
    rewrite E in Hx. discriminate Hx.
Defined.
