(* ===== verification/ImageService.v ===== *)
(** The image service (src/peimage-service/src/main.rs, src/peoci/src/compression.rs).

    A request names an image; the service fetches its manifest through the
    caching client ([OciCache]), and answers with the configuration and an erofs
    image made of the layers ([SquashErofs]), which it keeps in a directory of
    its own, guarded like the blobs ([BlobCache]).  The last theorem composes it
    with the client side of the protocol ([Run.ImageClient]): what a worker
    boots is built from layers that hash to what the image's digest names. *)
From stdpp Require Import option base list sets numbers strings gmap.
From Stdlib Require Import ZArith Lia.
From S2P Require Import Prelude MemFile BTree Text ErofsDisk ErofsBuild Squash SquashErofs.
From S2P Require Import IoFile RuntimeSpec Run OciDist BlobCache OciCache.
#[local] Open Scope Z_scope.

(** * Data *)

Definition MAX_TOTAL_LAYER_SIZE : Z := 2000000000.
Definition MAX_IMAGE_SIZE : Z := 3000000000.

(** What [anyhow::Error] can hold here.  An error that the caching client
    returns is shared ([Arc]); what the image cache returns is wrapped once more
    in the service's own [Error::Arc]. *)
Inductive AnyError :=
  | AService (e : ServiceError)
  | AArcService (e : ServiceError)
  | AArcCache (e : OciCache.Error)
  | ACache (e : OciCache.Error)
  | ASquash (e : Squash.Error)
  | AArcSquash (e : Squash.Error)
  | AErrno (e : Errno)
  | ADecode
with ServiceError :=
  | SBadDigest | SBadReference | SOneshotTx | SOneshotRx | SMissingFile | SOpenFile
  | STotalLayerSizeTooBig
  | SArc (e : AnyError).

(** The service between two requests. *)
Record Service (F : Type) := {
  s_client : OciCache.Client F; img_cache : gmap BlobKey Z; imgs : F;
  img_cache_hit : Z; img_cache_miss : Z;
}.
Arguments s_client {F}.
Arguments img_cache {F}.
Arguments imgs {F}.
Arguments img_cache_hit {F}.
Arguments img_cache_miss {F}.
Arguments Build_Service {F}.

(** [From<&spec::LayerDescriptor> for Compression] *)
Definition Compression_from (l : Spec.LayerDescriptor) : Compression :=
  match Spec.ld_media_type l with
  | Spec.ImageLayer => CompressionNone
  | Spec.ImageLayerGzip => Gzip
  | Spec.DockerImageLayerGzip => Gzip
  | Spec.ImageLayerZstd => Zstd
  end.

(** [saturating_add] over the sizes. *)
Definition total_layer_size (m : Spec.ImageManifest) : Z :=
  fold_left (fun x y => Z.min u64_max (x + y)) (Spec.ld_size <$> Spec.layers m) 0.

(** [round_up_file_to_pmem_size] on the contents. *)
Definition pmem_padded (data : bstr) : bstr :=
  o_bytes (snd (IoFile.round_up_file_to_pmem_size {| o_bytes := data; o_pos := 0 |})).

(** * Operations *)

Section service.
Context {F : Type} (W : Type) `{FileSystem F} `{BufWriter F W} `{RustixFileType}.
Context (timestamp_ok : Z -> bool) (parse_token : bstr -> option (bstr * option Z)).
Context (sha256 : bstr -> list byte) (digest_parse : bstr -> option OciImage.Digest).
Context (parse_index : bstr -> option (list IndexEntry)) (parse_manifest : bstr -> option Manifest).
Context (parse_configuration : bstr -> option OciImage.ImageConfiguration).
Context (media_type_of : bstr -> OciImage.MediaType) (algorithm_str : OciImage.DigestAlgorithm -> bstr).
Context (reference_to_string : Reference -> bstr).
Context (packed_encode : ImageManifestAndConfiguration -> option bstr).
Context (packed_decode : bstr -> option ImageManifestAndConfiguration).
(** The socket's codec, the reference parser, the tar readers, and what a
    builder that failed has left in its file. *)
Context (request_decode : bstr -> option ImageClient.Request) (reference_parse : bstr -> option Reference).
Context (mode_from_raw : Z -> Z).
Context (open_layer : Compression -> bstr -> result Squash.Error (list (result Squash.Error Entry))).
Context (leftover : list (Compression * bstr) -> bstr).

Definition erofs_builder : Builder :=
  Builder_new {| o_bytes := []; o_pos := 0 |}
    {| max_file_size := Some MAX_IMAGE_SIZE; increment_uid_gid := Some 1000 |}.

Definition build_image (layers : list (Compression * bstr)) : result Squash.Error bstr :=
  rmap (fun out => snd (snd out)) (squash_to_erofs mode_from_raw open_layer layers erofs_builder).

(** The blocking task of [make_erofs_image]: the image is published and then
    extended to the size that a pmem device needs. *)
Definition write_image (layers : list (Compression * bstr)) (k : BlobKey) (f : F)
    : F * result AnyError (Z * nat) :=
  match openat_create_write_with_guard k f with
  | (f, Ok (fd, guard)) =>
      match build_image layers with
      | Ok data =>
          match fs_store fd data f with
          | (f, false) => (guard_drop guard f, Err (ASquash Squash.Io))
          | (f, true) =>
              match guard_success guard f with
              | (f, Ok _) =>
                  let cur := zlen (content f fd) in
                  let newlen := IoFile.round_up_to PMEM_ALIGN_SIZE cur in
                  if cur =? newlen then (f, Ok (zlen (content f fd), fd))
                  else match fs_store fd (ftruncate newlen (content f fd)) f with
                       | (f, true) => (f, Ok (zlen (content f fd), fd))
                       | (f, false) => (f, Err (AErrno OtherErrno))
                       end
              | (f, Err e) => (f, Err (AErrno e))
              | (f, Panic) => (f, Panic)
              end
          end
      | Err e => (guard_drop guard (fst (fs_store fd (leftover layers) f)), Err (ASquash e))
      | Panic => (guard_drop guard (fst (fs_store fd (leftover layers) f)), Panic)
      end
  | (f, Err e) => (f, Err (AErrno e))
  | (f, Panic) => (f, Panic)
  end.

Definition set_imgs (f : F) (s : Service F) : Service F :=
  Build_Service (s_client s) (img_cache s) f (img_cache_hit s) (img_cache_miss s).
Definition set_client (c : OciCache.Client F) (s : Service F) : Service F :=
  Build_Service c (img_cache s) (imgs s) (img_cache_hit s) (img_cache_miss s).

Definition make_erofs_image (r : Reference) (m : Spec.ImageManifest) (k : BlobKey) (s : Service F)
    : Service F * result AnyError (Z * nat) :=
  if MAX_TOTAL_LAYER_SIZE <? total_layer_size m then (s, Err (AService STotalLayerSizeTooBig))
  else
    match get_layers W timestamp_ok parse_token sha256 algorithm_str r (Spec.layers m) (s_client s) with
    | (c, Ok fds) =>
        let s := set_client c s in
        let layers := zip_with (fun l fd => (Compression_from l, content (blobs c) fd)) (Spec.layers m) fds in
        let '(f, r) := write_image layers k (imgs s) in
        (set_imgs f s, r)
    | (c, Err e) => (set_client c s, Err (AArcCache e))
    | (c, Panic) => (set_client c s, Panic)
    end.

(** The answer of the image cache for a key: on a miss [make_erofs_image] runs
    and its error is shared and wrapped. *)
Definition cached_image (r : Reference) (m : Spec.ImageManifest) (k : BlobKey) (s : Service F)
    : Service F * result AnyError nat :=
  match img_cache s !! k with
  | Some _ =>
      let s := Build_Service (s_client s) (img_cache s) (imgs s) (inc (img_cache_hit s)) (img_cache_miss s) in
      match openat_read_key k (imgs s) with
      | (f, Ok (Some fd)) => (set_imgs f s, Ok fd)
      | (f, Ok None) => (set_imgs f s, Err (AService SMissingFile))
      | (f, Err _) => (set_imgs f s, Err (AService SOpenFile))
      | (f, Panic) => (set_imgs f s, Panic)
      end
  | None =>
      match make_erofs_image r m k s with
      | (s, Ok (size, fd)) =>
          (Build_Service (s_client s) (<[k := size]> (img_cache s)) (imgs s) (img_cache_hit s)
             (inc (img_cache_miss s)), Ok fd)
      | (s, Err e) => (s, Err (AService (SArc e)))
      | (s, Panic) => (s, Panic)
      end
  end.

(** A message longer than the buffer of 1024 bytes is cut off. *)
Definition handle_conn (message : bstr) (s : Service F)
    : Service F * result AnyError (OciImage.Digest * Spec.ImageConfiguration * nat) :=
  match request_decode (ztake 1024 message) with
  | None => (s, Err ADecode)
  | Some req =>
      match reference_parse (ImageClient.reference req) with
      | None => (s, Err (AService SBadReference))
      | Some r =>
          match get_image_manifest_and_configuration timestamp_ok parse_token sha256 digest_parse
                  parse_index parse_manifest parse_configuration media_type_of algorithm_str
                  reference_to_string packed_encode r OciImage.Amd64 OciImage.Linux (s_client s) with
          | (c, Err e) => (set_client c s, Err (AArcCache e))
          | (c, Panic) => (set_client c s, Panic)
          | (c, Ok v) =>
              let s := set_client c s in
              match PackedImageAndConfiguration_get packed_decode v with
              | Err e => (s, Err (ACache e))
              | Panic => (s, Panic)
              | Ok mc =>
                  let digest := Spec.Digest_into (manifest_digest mc) in
                  match BlobKey_new (digest_to_string algorithm_str digest) with
                  | None => (s, Err (AService SBadDigest))
                  | Some k =>
                      match cached_image r (manifest mc) k s with
                      | (s, Ok fd) => (s, Ok (digest, configuration mc, fd))
                      | (s, Err e) => (s, Err e)
                      | (s, Panic) => (s, Panic)
                      end
                  end
              end
          end
      end
  end.

(** The wire response to an error: the type of the error is looked up. *)
Definition respond_err (e : AnyError) : ImageClient.WireResponse :=
  let unexpected := ImageClient.WErr (bytes_of_string "unexpected error") in
  match e with
  | AArcCache e =>
      match e with
      | ManifestNotFound => ImageClient.WManifestNotFound
      | NoMatchingManifest => ImageClient.WNoMatchingManifest
      | ClientError RatelimitExceeded => ImageClient.WRatelimitExceeded
      | _ => unexpected
      end
  | AArcService STotalLayerSizeTooBig => ImageClient.WImageTooBig
  | AArcSquash (Squash.Erofs ErofsBuild.MaxSizeExceeded) => ImageClient.WImageTooBig
  | _ => unexpected
  end.

Definition respond_ok (digest : OciImage.Digest) (config : Spec.ImageConfiguration)
    : ImageClient.WireResponse := ImageClient.WOk (digest_to_string algorithm_str digest) config.

(** One connection: what is sent, with the file descriptor. *)
Definition serve (message : bstr) (s : Service F)
    : Service F * result AnyError (option nat * ImageClient.WireResponse) :=
  match handle_conn message s with
  | (s, Ok (digest, config, fd)) => (s, Ok (Some fd, respond_ok digest config))
  | (s, Err e) => (s, Ok (None, respond_err e))
  | (s, Panic) => (s, Panic)
  end.

(** Eviction from the image cache. *)
Definition evict_image (k : BlobKey) (s : Service F) : Service F :=
  Build_Service (s_client s) (delete k (img_cache s)) (remove_blob k (imgs s)) (img_cache_hit s)
    (img_cache_miss s).

(** The image cache at start-up: an entry for each file of the directory. *)
Definition make_img_cache (to_str : bstr -> option bstr) (listing : F -> list (result Errno DirEntry))
    (imgs_dir : result Errno F) : result AnyError (gmap BlobKey Z * F) :=
  (let? dir := map_err AErrno imgs_dir in
  let? acc := map_err AErrno (read_from_disk to_str (listing dir)) in
  Ok (insert_all acc ∅, dir))%result.

(** The periodic task: the counters start again and the client's caches are
    saved; an error of the save is logged. *)
Definition tick (entries_encode : list (bstr * bstr) -> option bstr) (s : Service F) : Service F :=
  let c := fst (take_counters (s_client s)) in
  Build_Service (fst (persist W entries_encode c)) (img_cache s) (imgs s) 0 0.
End service.

(** * The invariant of the service *)

Lemma pmem_padded_eq data :
  pmem_padded data =
    (let newlen := IoFile.round_up_to PMEM_ALIGN_SIZE (zlen data) in
     if zlen data =? newlen then data else ftruncate newlen data).
Proof. unfold pmem_padded, IoFile.round_up_file_to_pmem_size. simpl. by destruct (_ =? _). Qed.

Section invariant.
Context {F W : Type} `{FileSystemLaws F} `{!BufWriter F W, !BufWriterLaws F W} `{RustixFileType}.
Context (timestamp_ok : Z -> bool) (parse_token : bstr -> option (bstr * option Z)).
Context (sha256 : bstr -> list byte) (digest_parse : bstr -> option OciImage.Digest).
Context (parse_index : bstr -> option (list IndexEntry)) (parse_manifest : bstr -> option Manifest).
Context (parse_configuration : bstr -> option OciImage.ImageConfiguration).
Context (media_type_of : bstr -> OciImage.MediaType) (algorithm_str : OciImage.DigestAlgorithm -> bstr).
Context (reference_to_string : Reference -> bstr).
Context (packed_encode : ImageManifestAndConfiguration -> option bstr).
Context (packed_decode : bstr -> option ImageManifestAndConfiguration).
Context (request_decode : bstr -> option ImageClient.Request) (reference_parse : bstr -> option Reference).
Context (mode_from_raw : Z -> Z).
Context (open_layer : Compression -> bstr -> result Squash.Error (list (result Squash.Error Entry))).
Context (leftover : list (Compression * bstr) -> bstr).
Context (Halg : algorithm_str OciImage.Sha256 = bytes_of_string "sha256").
Context (Hcodec : forall x b, packed_encode x = Some b -> packed_decode b = Some x).

(** The image of the layers [ls] is built from files with their hashes. *)
Definition image_of (ls : list Spec.LayerDescriptor) (image : bstr) : Prop :=
  exists contents data,
    Forall2 (fun l c => Spec.ld_digest l = Spec.Sha256 (sha256 c) /\ Spec.ld_size l = zlen c) ls contents /\
    build_image mode_from_raw open_layer (zip_with (fun l c => (Compression_from l, c)) ls contents) = Ok data /\
    image = pmem_padded data.

(** The manifest with this digest. *)
Definition manifest_of (d : Spec.Digest) (m : Spec.ImageManifest) : Prop :=
  exists data om, d = Spec.Sha256 (sha256 data) /\ parse_manifest data = Some om /\
    Spec.ImageManifest_try_from (manifest_layers om) = Ok m.

(** The configuration that this manifest names. *)
Definition config_of (d : Spec.Digest) (config : Spec.ImageConfiguration) : Prop :=
  exists data om cdata ic, d = Spec.Sha256 (sha256 data) /\ parse_manifest data = Some om /\
    OciImage.digest (OciImage.desc_digest (manifest_config om)) = hex_encode (sha256 cdata) /\
    parse_configuration cdata = Some ic /\ Spec.ImageConfiguration_try_from ic = Ok config.

Definition image_for (k : BlobKey) (image : bstr) : Prop :=
  exists d m, key k = digest_to_string algorithm_str (Spec.Digest_into d) /\ manifest_of d m /\
    image_of (Spec.layers m) image.

Record imgs_ok (cache : gmap BlobKey Z) (f : F) : Prop := {
  imgs_unshared : unshared f;
  imgs_keys : forall k n, cache !! k = Some n -> valid k /\ digest_key k;
  imgs_files : forall k n i, cache !! k = Some n -> links f (as_path k) = Some i -> image_for k (content f i);
}.

Definition service_ok (s : Service F) : Prop :=
  client_ok sha256 digest_parse parse_manifest parse_configuration packed_encode (s_client s) /\
  imgs_ok (img_cache s) (imgs s).

(** A change that keeps the files of the cached keys. *)
Lemma imgs_ok_weaken cache f f' :
  imgs_ok cache f -> unshared f' ->
  (forall k n i, cache !! k = Some n -> valid k -> digest_key k -> links f' (as_path k) = Some i ->
     links f (as_path k) = Some i /\ content f' i = content f i) ->
  imgs_ok cache f'.
Proof.
  intros [Hu Hk Hf] Hu' Hkeep. split; [done|done|]. intros k n i Hn Hi.
  destruct (Hk k n Hn) as [Hv Hd]. destruct (Hkeep k n i Hn Hv Hd Hi) as [Hi' ->]. by eapply Hf.
Qed.

(** Opening the temporary file fails: the images are as before. *)
Lemma open_failed_ok k f f' r cache :
  imgs_ok cache f -> openat_create_write_with_guard k f = (f', r) -> (forall x, r <> Ok x) ->
  imgs_ok cache f'.
Proof.
  intros Hok E1 Hr. unfold openat_create_write_with_guard in E1.
  destruct (openat_create_write _ _) as [f2 r2] eqn:E2. apply openat_create_write_spec in E2 as [_ E2].
  injection E1 as -> Hr'. destruct r2; [by subst r; edestruct Hr| |]; destruct E2 as [Hn Hc];
    (apply (imgs_ok_weaken _ f); [done|eapply same_names_unshared; [done|apply Hok]|]);
    intros k' n j _ _ _ Hj; rewrite Hn in Hj; by rewrite Hc.
Qed.

Lemma write_image_ok layers k f f' res cache :
  imgs_ok cache f -> valid k -> digest_key k -> cache !! k = None ->
  write_image mode_from_raw open_layer leftover layers k f = (f', res) ->
  imgs_ok cache f' /\
  forall size fd, res = Ok (size, fd) -> links f' (as_path k) = Some fd /\
    exists data, build_image mode_from_raw open_layer layers = Ok data /\ content f' fd = pmem_padded data.
Proof.
  intros Hok Hv Hd Hk. unfold write_image.
  destruct (openat_create_write_with_guard k f) as [f1 r1] eqn:E1.
  assert (forall k' p n, cache !! k' = Some n -> valid k' -> digest_key k' -> p = as_path k' ->
    p <> tmp_path k /\ p <> as_path k) as Hne.
  { intros k' p n Hk' Hv' Hd' ->. split; [by apply digest_path_not_tmp|].
    intros E%as_path_inj; [congruence|done..]. }
  destruct r1 as [[i g]|e|].
  2,3: intros [= <- <-]; split; [by eapply open_failed_ok|done].
  apply open_writing in E1 as [-> Hw]; [|apply Hok].
  assert (forall f2, only_file i f1 f2 -> imgs_ok cache (guard_drop {| guard_key := Some k |} f2)) as Hdrop.
  { intros f2 Hof. apply (only_file_writing _ _ _ _ f2) in Hw; [|done].
    apply drop_writing in Hw as [Hu2 Hold]. apply (imgs_ok_weaken _ f); [done..|].
    intros k' n j Hn Hv' Hd'. by apply Hold, (Hne k' _ n). }
  assert (forall d f2 b, fs_store i d f1 = (f2, b) -> only_file i f1 f2) as Hst.
  { intros d f2 b E. apply store_spec in E as (? & ? & ? & _). done. }
  destruct (build_image _ _ layers) as [data|e|] eqn:Eb.
  2,3: intros [= <- <-]; split; [|done]; apply Hdrop;
    destruct (fs_store i _ f1) as [f2 b2] eqn:E; by eapply Hst.
  destruct (fs_store i data f1) as [f2 [|]] eqn:E2; [|intros [= <- <-]; split; [|done]; by eapply Hdrop, Hst].
  pose proof (only_file_writing _ _ _ _ f2 Hw (Hst _ _ _ E2)) as Hw2.
  apply store_spec in E2 as (_ & _ & _ & Hc2). specialize (Hc2 eq_refl).
  destruct (guard_success _ f2) as [f3 r3] eqn:E3.
  pose proof (success_writing f k i f2 f3 r3 Hv Hd Hw2 E3) as (Hu3 & Hc3 & Hn3 & Hold).
  assert (imgs_ok cache f3) as Hok3.
  { apply (imgs_ok_weaken _ f); [done..|]. intros k' n j Hn Hv' Hd' Hj.
    destruct (Hne k' _ n Hn Hv' Hd' eq_refl) as [H3 H4].
    destruct (Hold _ _ H3 Hj) as (? & ? & _); [by right|done]. }
  destruct r3 as [[]|e|]; [|by intros [= <- <-]..]. specialize (Hn3 tt eq_refl). rewrite Hc3, Hc2.
  pose proof (pmem_padded_eq data) as Hp. cbv zeta in Hp.
  destruct (zlen data =? _) eqn:Ez.
  { intros [= <- <-]. split; [done|]. intros ? ? [= <- <-]. split; [done|]. exists data. split; [done|].
    congruence. }
  destruct (fs_store i _ f3) as [f4 b4] eqn:E4. apply store_spec in E4 as (Hl4 & Hn4 & Hc4 & Hb4).
  assert (imgs_ok cache f4) as Hok4.
  { apply (imgs_ok_weaken _ f3); [done|by eapply same_names_unshared|]. intros k' n j Hn Hv' Hd' Hj.
    rewrite Hn4 in Hj. split; [done|]. apply Hc4. destruct (Hne k' _ n Hn Hv' Hd' eq_refl) as [H3 H4].
    by destruct (Hold _ _ H3 Hj (or_intror H4)) as (_ & _ & ?). }
  destruct b4; intros [= <- <-]; (split; [done|]); [|done]. intros ? ? [= <- <-].
  rewrite Hn4. split; [done|]. exists data. split; [done|]. rewrite Hb4 by done. congruence.
Qed.

Lemma make_erofs_image_ok r m k s s' res :
  service_ok s -> valid k -> digest_key k -> img_cache s !! k = None ->
  make_erofs_image W timestamp_ok parse_token sha256 algorithm_str mode_from_raw open_layer leftover r m k s =
    (s', res) ->
  service_ok s' /\ img_cache s' = img_cache s /\
  forall size fd, res = Ok (size, fd) ->
    links (imgs s') (as_path k) = Some fd /\ image_of (Spec.layers m) (content (imgs s') fd).
Proof.
  intros [[Hd Hm] Hi] Hv Hdk Hk. unfold make_erofs_image.
  destruct (MAX_TOTAL_LAYER_SIZE <? total_layer_size m); [by intros [= <- <-]|].
  destruct (get_layers _ _ _ _ _ r _ _) as [c rl] eqn:El.
  apply (get_layers_ok _ _ _ _ Halg _ _ _ _ _ [] Hd) in El as (_ & Hmc & _ & Hd' & Hfds).
  assert (client_ok sha256 digest_parse parse_manifest parse_configuration packed_encode c) as Hc
    by (split; [done|by rewrite Hmc]).
  destruct rl as [fds|e|]; [|by intros [= <- <-]..].
  destruct (write_image _ _ _ _ k _) as [f rw] eqn:Ew.
  eapply write_image_ok in Ew as [Hi' Hres]; [|exact Hi|done|done|exact Hk].
  intros [= <- <-]. split; [done|]. split; [done|]. intros size fd ->.
  destruct (Hres size fd eq_refl) as (Hl & data & Hb & Hcont). split; [done|].
  destruct (Hfds fds eq_refl) as (hd & Hdir & Hall). rewrite app_nil_r in Hdir.
  exists (content (blobs c) <$> fds), data. split_and!; [| |done].
  - apply Forall2_fmap_r. eapply Forall2_impl; [exact Hall|]. intros l fd' Hbf. by eapply layer_hash.
  - by rewrite zip_with_fmap_r.
Qed.

Lemma cached_image_ok r m d k s s' res :
  service_ok s -> valid k -> key k = digest_to_string algorithm_str (Spec.Digest_into d) -> manifest_of d m ->
  cached_image W timestamp_ok parse_token sha256 algorithm_str mode_from_raw open_layer leftover r m k s =
    (s', res) ->
  service_ok s' /\ forall fd, res = Ok fd -> image_for k (content (imgs s') fd).
Proof.
  intros Hs Hv Hk Hman. assert (digest_key k) as Hdk.
  { destruct d as [h]. exists h. rewrite Hk. unfold digest_to_string, Spec.Digest_into. simpl. by rewrite Halg. }
  unfold cached_image. destruct (img_cache s !! k) as [n|] eqn:En.
  - destruct Hs as [Hc Hi]. simpl. unfold openat_read_key, openat_read.
    destruct (openat2_read _ _) as [f r1] eqn:E. apply read_spec in E as (_ & Hn & Hcc & Hok & _).
    assert (imgs_ok (img_cache s) f) as Hi'.
    { apply (imgs_ok_weaken _ (imgs s)); [done|eapply same_names_unshared; [done|apply Hi]|].
      intros k' n' j _ _ _ Hj. rewrite Hn in Hj. by rewrite Hcc. }
    destruct r1 as [fd|[]|]; intros [= <- <-]; (split; [done|]); try done.
    intros ? [= <-]. eapply (imgs_files _ _ Hi'); [exact En|]. rewrite Hn. by apply Hok.
  - destruct (make_erofs_image _ _ _ _ _ _ _ _ r m k s) as [s1 r1] eqn:E.
    apply make_erofs_image_ok in E as ([Hc Hi] & Hcache & Hres); [|done..].
    destruct r1 as [[size fd]|e|]; intros [= <- <-]; [|done..].
    destruct (Hres size fd eq_refl) as [Hl Himg].
    assert (image_for k (content (imgs s1) fd)) as Hf by (by exists d, m).
    split; [|by intros ? [= <-]]. split; [done|]. simpl. split; [apply Hi| |].
    + intros k' n' [[<- <-]|[_ Hk']]%lookup_insert_Some; [done|]. by apply (imgs_keys _ _ Hi k' n').
    + intros k' n' i [[<- <-]|[_ Hk']]%lookup_insert_Some Hi'; [|by eapply (imgs_files _ _ Hi)].
      congruence.
Qed.

Lemma packed_manifest_of s v mc dg m ic data cdata :
  packed_from sha256 digest_parse parse_manifest parse_configuration packed_encode s v dg m ic data cdata ->
  PackedImageAndConfiguration_get packed_decode v = Ok mc ->
  Spec.Digest_try_from dg = Ok (manifest_digest mc) /\ manifest_of (manifest_digest mc) (manifest mc) /\
  config_of (manifest_digest mc) (configuration mc).
Proof.
  intros [_ Ha Hh Hpm _ Hch Hic Hp] Hg. unfold PackedImageAndConfiguration_new in Hp.
  destruct (Spec.Digest_try_from dg) as [d| |] eqn:Ed; [simpl in Hp|discriminate..].
  destruct (Spec.ImageManifest_try_from _) as [sm| |] eqn:Em; [simpl in Hp|discriminate..].
  destruct (Spec.ImageConfiguration_try_from ic) as [sc| |] eqn:Ec; [simpl in Hp|discriminate..].
  apply ok_or_Ok, Hcodec in Hp. apply ok_or_Ok in Hg. rewrite Hp in Hg. injection Hg as <-. simpl.
  assert (d = Spec.Sha256 (sha256 data)) as ->.
  { unfold Spec.Digest_try_from in Ed. rewrite Ha, Hh in Ed. unfold Spec.hex_decode_n in Ed.
    rewrite hex_decode_encode in Ed. simpl in Ed. by destruct (decide _); simplify_eq/=. }
  split_and!; [done|by exists data, m|by exists data, m, cdata, ic].
Qed.

Lemma handle_conn_ok message s s' res :
  service_ok s ->
  handle_conn W timestamp_ok parse_token sha256 digest_parse parse_index parse_manifest parse_configuration
    media_type_of algorithm_str reference_to_string packed_encode packed_decode request_decode
    reference_parse mode_from_raw open_layer leftover message s = (s', res) ->
  service_ok s' /\
  forall digest config fd, res = Ok (digest, config, fd) ->
    exists d m, digest = Spec.Digest_into d /\ manifest_of d m /\ config_of d config /\
      image_for {| key := digest_to_string algorithm_str digest |} (content (imgs s') fd) /\
      forall req r s0, request_decode (ztake 1024 message) = Some req ->
        reference_parse (ImageClient.reference req) = Some r -> ref_digest r = Some s0 ->
        exists d0 dg, digest_parse s0 = Some d0 /\
          digest_parse (digest_to_string algorithm_str d0) = Some dg /\ Spec.Digest_try_from dg = Ok d.
Proof.
  intros Hs. pose proof Hs as [Hc Hi]. unfold handle_conn.
  destruct (request_decode _) as [req|]; [|by intros [= <- <-]].
  destruct (reference_parse _) as [r|] eqn:Er; [|by intros [= <- <-]].
  destruct (get_image_manifest_and_configuration _ _ _ _ _ _ _ _ _ _ _ r _ _ _) as [c rv] eqn:Eg.
  apply get_manifest_ok in Eg as [Hc' Hv]; [|done].
  assert (service_ok (set_client c s)) as Hs1 by done.
  destruct rv as [v|e|]; [|by intros [= <- <-]..].
  destruct (PackedImageAndConfiguration_get _ v) as [mc|e|] eqn:Ep; [|by intros [= <- <-]..].
  destruct (Hv v eq_refl) as (s0 & (dg & m & ic & data & cdata & Hpk) & Hs0).
  pose proof (from_digest _ _ _ _ _ _ _ _ _ _ _ _ Hpk) as Hdg.
  eapply packed_manifest_of in Hpk as (Hd & Hm & Hcfg); [|done].
  destruct (BlobKey_new _) as [k|] eqn:Ek; [|by intros [= <- <-]].
  pose proof Ek as Ek'. apply BlobKey_new_Some in Ek' as [-> _].
  destruct (cached_image _ _ _ _ _ _ _ _ r _ _ _) as [s2 r2] eqn:Ec.
  eapply cached_image_ok in Ec as [Hs2 Himg]; [|done|exact Ek|reflexivity|done].
  destruct r2 as [fd|e|]; intros [= <- <-]; (split; [done|]); [|done..].
  intros ? ? ? [= <- <- <-]. exists (manifest_digest mc), (manifest mc).
  split_and!; [done..|by apply Himg|]. intros ? ? sr [= <-] Hr Hsr. rewrite Er in Hr. injection Hr as <-.
  destruct (Hs0 sr Hsr) as (d0 & Hd0 & ->). by exists d0, dg.
Qed.

(** ** Any sequence of requests *)

Inductive ServiceOp :=
  | Serve (message : bstr) | EvictImage (k : BlobKey) | ClientOp (op : Op) | Tick.

Context (entries_encode : list (bstr * bstr) -> option bstr).

Definition exec_service (op : ServiceOp) (s : Service F) : Service F :=
  match op with
  | Serve message =>
      fst (serve W timestamp_ok parse_token sha256 digest_parse parse_index parse_manifest
        parse_configuration media_type_of algorithm_str reference_to_string packed_encode packed_decode
        request_decode reference_parse mode_from_raw open_layer leftover message s)
  | EvictImage k => evict_image k s
  | ClientOp op =>
      set_client (exec (W := W) timestamp_ok parse_token sha256 digest_parse parse_index parse_manifest
        parse_configuration media_type_of algorithm_str reference_to_string packed_encode entries_encode op
        (s_client s)) s
  | Tick => tick W entries_encode s
  end.

Definition exec_services (ops : list ServiceOp) (s : Service F) : Service F :=
  fold_left (fun s op => exec_service op s) ops s.

Lemma exec_service_ok op s : service_ok s -> service_ok (exec_service op s).
Proof.
  intros Hs. destruct op as [message|k|op|]; simpl.
  - unfold serve. destruct (handle_conn _ _ _ _ _ _ _ _ _ _ _ _ _ _ _ _ _ _ message s) as [s' r] eqn:E.
    apply handle_conn_ok in E as [Hs' _]; [|done]. by destruct r as [[[? ?] ?]|?|].
  - destruct Hs as [Hc Hi]. split; [done|]. simpl.
    assert (imgs_ok (img_cache s) (remove_blob k (imgs s))) as Hi'.
    { destruct (unlink_fewer (as_path k) (imgs s)) as (Hl & Hcc & Hfew).
      apply (imgs_ok_weaken _ (imgs s)); [done| |].
      - intros p j Hp q Hq. by apply (imgs_unshared _ _ Hi p j); apply Hfew.
      - intros k' n j _ _ _ Hj. apply Hfew in Hj. split; [done|]. apply Hcc. }
    split; [apply Hi'| |].
    + intros k' n [_ Hk]%lookup_delete_Some. by eapply (imgs_keys _ _ Hi').
    + intros k' n j [_ Hk]%lookup_delete_Some. by eapply (imgs_files _ _ Hi').
  - destruct Hs as [Hc Hi]. split; [|done]. by apply exec_ok.
  - destruct Hs as [Hc Hi]. split; [|done]. simpl.
    destruct (persist W entries_encode _) as [c' r] eqn:E. apply framed_persist in E as [Hb Hm].
    by apply (client_ok_frame _ _ _ _ _ (s_client s)).
Qed.

Lemma exec_services_ok ops s : service_ok s -> service_ok (exec_services ops s).
Proof. revert s. induction ops as [|op ops IH]; intros s Hs; [done|]. by apply IH, exec_service_ok. Qed.

Definition fresh_service (c : OciCache.Client F) (f : F) : Service F := Build_Service c ∅ f 0 0.

Lemma fresh_service_ok c f :
  client_ok sha256 digest_parse parse_manifest parse_configuration packed_encode c ->
  (forall p, links f p = None) -> service_ok (fresh_service c f).
Proof.
  intros Hc He. split; [done|]. split; [intros p i Hp; by rewrite He in Hp|done|done].
Qed.
End invariant.

(** ** What the errors become *)

Section errors.
Context {F : Type}.

(** [never e x]: the computation does not fail with [e]. *)
Definition never {A} (e : OciCache.Error) (x : C F A) : Prop := forall c c', x c <> (c', Err e).

Lemma never_cbind {A B} e (x : C F A) (k : A -> C F B) :
  never e x -> (forall a, never e (k a)) -> never e (cbind x k).
Proof.
  intros Hx Hk c c' E. unfold cbind in E. destruct (x c) as [c1 [a|e1|]] eqn:Ex.
  - by apply (Hk a c1 c').
  - injection E as -> ->. by apply (Hx c c').
  - discriminate E.
Qed.

Lemma never_ok_or {A} e (o : option A) e' : e <> e' -> never e (clift (ok_or o e')).
Proof. intros Hne c c' E. destruct o; [discriminate E|]. injection E as _ E. by apply Hne. Qed.

Lemma never_call {A} e (m : OciDist.M A) : (forall x, e <> ClientError x) -> never e (call m).
Proof.
  intros Hne c c' E. unfold call in E. destruct (m (world c)) as [w [a|x|]]; [discriminate E| |discriminate E].
  injection E as _ E. by apply (Hne x).
Qed.

Lemma never_cok {A} e (a : A) : never e (cok a).
Proof. intros c c' E. discriminate E. Qed.
Lemma never_count e f : never e (count f).
Proof. intros c c' E. discriminate E. Qed.

Lemma never_or_insert {K V X} `{Countable K} e get set (k : K) (init : C F (V * X)) :
  never e init -> never e (or_try_insert_with get set k init).
Proof.
  intros Hi c c' E. unfold or_try_insert_with in E. destruct (get c !! k); [discriminate E|].
  destruct (init c) as [c1 [[v x]|e1|]] eqn:Ei; [discriminate E| |discriminate E].
  injection E as -> ->. by apply (Hi c c').
Qed.
End errors.

Create HintDb never.
#[export] Hint Resolve never_cbind never_ok_or never_call never_cok never_count never_or_insert : never.
#[export] Hint Extern 1 (_ <> _) => discriminate : never.

Lemma never_packed {F} enc dg m ic :
  never (F := F) NoMatchingManifest (clift (PackedImageAndConfiguration_new enc dg m ic)).
Proof.
  intros c c' E. injection E as _ E. unfold PackedImageAndConfiguration_new in E.
  destruct (Spec.Digest_try_from dg); [simpl in E|discriminate E..].
  destruct (Spec.ImageManifest_try_from _); [simpl in E|discriminate E..].
  destruct (Spec.ImageConfiguration_try_from ic); [simpl in E|discriminate E..].
  destruct (enc _); discriminate E.
Qed.
#[export] Hint Resolve never_packed : never.

(** The caching client wraps the registry's refusal, so it is never its own. *)
Lemma get_manifest_never {F} timestamp_ok parse_token sha256 digest_parse parse_index parse_manifest
    parse_configuration media_type_of algorithm_str reference_to_string packed_encode r arch os :
  never (F := F) NoMatchingManifest
    (get_image_manifest_and_configuration timestamp_ok parse_token sha256 digest_parse parse_index
      parse_manifest parse_configuration media_type_of algorithm_str reference_to_string packed_encode r arch os).
Proof.
  unfold get_image_manifest_and_configuration, retreive_ref, retreive_manifest_and_configuration.
  apply never_cbind; [destruct (ref_digest r)|]; intros; auto with never.
  - apply never_cbind; [|intros [? ?]]; auto 10 with never.
  - apply never_cbind; [|intros [? ?]]; auto 20 with never.
Qed.

(** * Properties *)

(** C11: what a worker boots is authentic.  In every state that requests,
    evictions and the passing of time reach from empty directories, a worker that
    asks for an image and accepts the answer has the configuration that the
    manifest with the answered digest names, and a file that is the erofs image,
    padded for a pmem device, of layers with exactly the sizes and SHA-256 hashes
    of that manifest; for a reference with a digest it is that digest's
    manifest. *)
Theorem served_image_authentic {F W} `{FileSystemLaws F} `{!BufWriter F W, !BufWriterLaws F W}
    `{RustixFileType} timestamp_ok parse_token sha256 digest_parse parse_index parse_manifest
    parse_configuration media_type_of algorithm_str reference_to_string packed_encode packed_decode
    request_decode reference_parse mode_from_raw open_layer leftover request_encode entries_encode
    ops w (dir bl f : F) req s' answer resp :
  algorithm_str OciImage.Sha256 = bytes_of_string "sha256" ->
  (forall x b, packed_encode x = Some b -> packed_decode b = Some x) ->
  (forall p, links bl p = None) -> (forall p, links f p = None) ->
  serve W timestamp_ok parse_token sha256 digest_parse parse_index parse_manifest parse_configuration
    media_type_of algorithm_str reference_to_string packed_encode packed_decode request_decode
    reference_parse mode_from_raw open_layer leftover (request_encode req)
    (exec_services (W := W) timestamp_ok parse_token sha256 digest_parse parse_index parse_manifest
      parse_configuration media_type_of algorithm_str reference_to_string packed_encode packed_decode
      request_decode reference_parse mode_from_raw open_layer leftover entries_encode ops
      (fresh_service (fresh_client w dir bl) f)) = (s', Ok answer) ->
  ImageClient.request_erofs_image (fun _ => Ok answer) req = Ok resp ->
  exists d m, ImageClient.manifest_digest resp = digest_to_string algorithm_str (Spec.Digest_into d) /\
    manifest_of sha256 parse_manifest d m /\
    config_of sha256 parse_manifest parse_configuration d (ImageClient.config resp) /\
    image_for sha256 parse_manifest algorithm_str mode_from_raw open_layer
      {| key := digest_to_string algorithm_str (Spec.Digest_into d) |}
      (content (imgs s') (ImageClient.fd resp)) /\
    forall r s0, request_decode (ztake 1024 (request_encode req)) = Some req ->
      reference_parse (ImageClient.reference req) = Some r -> ref_digest r = Some s0 ->
      exists d0 dg, digest_parse s0 = Some d0 /\
        digest_parse (digest_to_string algorithm_str d0) = Some dg /\ Spec.Digest_try_from dg = Ok d.
Proof.
  intros Halg Hcodec Hbl Hf Hs Hr.
  pose proof (fresh_service_ok sha256 digest_parse parse_manifest parse_configuration algorithm_str
    packed_encode mode_from_raw open_layer (fresh_client w dir bl) f
    (fresh_client_ok sha256 digest_parse parse_manifest parse_configuration packed_encode w dir bl Hbl) Hf) as Hok.
  eapply (exec_services_ok (W := W)) in Hok; [|exact Halg|exact Hcodec]. unfold serve in Hs.
  destruct (handle_conn _ _ _ _ _ _ _ _ _ _ _ _ _ _ _ _ _ _ _ _) as [s1 r1] eqn:E.
  eapply handle_conn_ok in E as [_ Hres]; [|exact Halg|exact Hcodec|exact Hok].
  destruct r1 as [[[digest config] fd]|e|]; [| |discriminate Hs].
  - injection Hs as <- <-. injection Hr as <-. simpl.
    destruct (Hres _ _ _ eq_refl) as (d & m & -> & Hm & Hc & Himg & Hdg).
    exists d, m. split_and!; [done..|]. intros r s0 Hreq. by apply Hdg.
  - injection Hs as <- <-. exfalso. clear -Hr. unfold ImageClient.request_erofs_image in Hr. simpl in Hr.
    by destruct (respond_err e).
Qed.

(** C40: two answers of the protocol are never given.  Whatever the request and
    the state are, the service does not answer that an image is too big or that
    no manifest matches: the errors it looks for arrive wrapped in another type,
    so the client is told of an unexpected error. *)
Theorem size_errors_never_reported {F W} `{FileSystem F} `{!BufWriter F W} `{RustixFileType}
    timestamp_ok parse_token sha256 digest_parse parse_index parse_manifest
    parse_configuration media_type_of algorithm_str reference_to_string packed_encode packed_decode
    request_decode reference_parse mode_from_raw open_layer leftover message (s s' : Service F) answer :
  serve W timestamp_ok parse_token sha256 digest_parse parse_index parse_manifest parse_configuration
    media_type_of algorithm_str reference_to_string packed_encode packed_decode request_decode
    reference_parse mode_from_raw open_layer leftover message s = (s', Ok answer) ->
  snd answer <> ImageClient.WImageTooBig /\ snd answer <> ImageClient.WNoMatchingManifest.
Proof.
  unfold serve. destruct (handle_conn _ _ _ _ _ _ _ _ _ _ _ _ _ _ _ _ _ _ _ _) as [s1 r1] eqn:E.
  destruct r1 as [[[digest config] fd]|e|]; [by intros [= <- <-]| |discriminate].
  intros [= _ <-]. simpl.
  assert (e <> AArcService STotalLayerSizeTooBig /\ (forall x, e <> AArcSquash x) /\
    e <> AArcCache NoMatchingManifest) as (He1 & He2 & He3).
  { unfold handle_conn in E. destruct (request_decode _); [|by injection E as <- <-].
    destruct (reference_parse _); [|by injection E as <- <-].
    destruct (get_image_manifest_and_configuration _ _ _ _ _ _ _ _ _ _ _ _ _ _ _) as [c [v|e1|]] eqn:Eg;
      [| |discriminate E].
    - destruct (PackedImageAndConfiguration_get _ v); [|by injection E as <- <-|discriminate E].
      destruct (BlobKey_new _) as [k|]; [|by injection E as <- <-].
      unfold cached_image in E. destruct (img_cache _ !! k).
      + destruct (openat_read_key _ _) as [f [[fd|]|e1|]]; by simplify_eq/=.
      + destruct (make_erofs_image _ _ _ _ _ _ _ _ _ _ _ _) as [s2 [[size fd]|e1|]]; by simplify_eq/=.
    - injection E as _ <-. split_and!; [done..|]. intros [= ->]. by apply get_manifest_never in Eg. }
  destruct e as [e|e|e|e|e|e|e|]; try done.
  - destruct e; try done.
  - destruct e; try done. match goal with x : OciDist.Error |- _ => by destruct x end.
  - by destruct (He2 e).
Qed.

(** ** A concrete service *)

(** One layer without entries, which makes an image of the root directory. *)
Definition example_open_layer (_ : Compression) (_ : bstr)
    : result Squash.Error (list (result Squash.Error Entry)) := Ok [].
Definition example_request : ImageClient.Request :=
  {| ImageClient.reference := [x61]; ImageClient.arch := Spec.Amd64; ImageClient.os := Spec.Linux |}.

Definition example_serve (s : Service MemFs)
    : Service MemFs * result AnyError (option nat * ImageClient.WireResponse) :=
  serve (nat * bstr) (fun _ => true) (fun _ => None) example_sha256 example_digest_parse (fun _ => None)
    example_parse_manifest example_parse_configuration (fun _ => OciImage.ImageLayer) example_alg
    (fun _ => []) example_encode example_decode (fun _ => Some example_request) (fun _ => Some example_ref)
    permission_bits example_open_layer (fun _ => []) [] s.
Definition example_service : Service MemFs := fresh_service example_client example_fs.
Definition example_answer : option nat * ImageClient.WireResponse :=
  (Some 1%nat, ImageClient.WOk (digest_to_string example_alg (example_digest 1)) (configuration example_mc)).
Definition example_response : ImageClient.Response nat :=
  {| ImageClient.manifest_digest := digest_to_string example_alg (example_digest 1);
     ImageClient.config := configuration example_mc; ImageClient.fd := 1%nat |}.

Lemma served_image_authentic_witness :
  example_serve example_service = (fst (example_serve example_service), Ok example_answer) /\
  exists d m, ImageClient.manifest_digest example_response =
      digest_to_string example_alg (Spec.Digest_into d) /\
    manifest_of example_sha256 example_parse_manifest d m /\
    image_for example_sha256 example_parse_manifest example_alg permission_bits example_open_layer
      {| key := digest_to_string example_alg (Spec.Digest_into d) |}
      (content (imgs (fst (example_serve example_service))) 1%nat).
Proof.
  assert (example_serve example_service = (fst (example_serve example_service), Ok example_answer)) as Hs.
  { apply pair_of_snd. vm_compute. reflexivity. }
  split; [exact Hs|].
  destruct (served_image_authentic (F := MemFs) (W := nat * bstr) (fun _ => true) (fun _ => None)
    example_sha256 example_digest_parse (fun _ => None) example_parse_manifest
    example_parse_configuration (fun _ => OciImage.ImageLayer) example_alg (fun _ => []) example_encode
    example_decode (fun _ => Some example_request) (fun _ => Some example_ref) permission_bits
    example_open_layer (fun _ => []) (fun _ => []) (fun _ => None) [] example_registry example_fs example_fs example_fs
    example_request (fst (example_serve example_service)) example_answer example_response)
    as (d & m & Hd & Hm & _ & Hi & _).
  - reflexivity.
  - intros x b. unfold example_encode. destruct (decide (x = example_mc)) as [->|]; [done|discriminate].
  - intros p. apply lookup_empty.
  - intros p. apply lookup_empty.
  - exact Hs.
  - reflexivity.
  - exists d, m. split; [exact Hd|]. split; [exact Hm|exact Hi].
Defined.

(** A layer with a file that is too big for an image: the client is told of an
    unexpected error. *)
Definition big_open_layer (_ : Compression) (_ : bstr)
    : result Squash.Error (list (result Squash.Error Entry)) :=
  Ok [Ok {| e_path := [x61]; e_type := Regular; e_link_name := None; e_uid := Ok 0; e_gid := Ok 0;
            e_mtime := Ok 0; e_mode := Ok 420; e_size := Ok (2 ^ 63); e_pax := Ok None; e_data := [] |}].
Definition big_serve : Service MemFs * result AnyError (option nat * ImageClient.WireResponse) :=
  serve (nat * bstr) (fun _ => true) (fun _ => None) example_sha256 example_digest_parse (fun _ => None)
    example_parse_manifest example_parse_configuration (fun _ => OciImage.ImageLayer) example_alg
    (fun _ => []) example_encode example_decode (fun _ => Some example_request) (fun _ => Some example_ref)
    permission_bits big_open_layer (fun _ => []) [] example_service.
Definition big_answer : option nat * ImageClient.WireResponse :=
  (None, ImageClient.WErr (bytes_of_string "unexpected error")).

Lemma size_errors_never_reported_witness :
  big_serve = (fst big_serve, Ok big_answer) /\ snd big_answer <> ImageClient.WImageTooBig.
Proof.
  assert (big_serve = (fst big_serve, Ok big_answer)) as E.
  { apply pair_of_snd. vm_compute. reflexivity. }
  split; [exact E|].
  exact (proj1 (size_errors_never_reported (W := nat * bstr) (fun _ => true) (fun _ => None) example_sha256
    example_digest_parse (fun _ => None) example_parse_manifest example_parse_configuration
    (fun _ => OciImage.ImageLayer) example_alg (fun _ => []) example_encode example_decode
    (fun _ => Some example_request) (fun _ => Some example_ref) permission_bits big_open_layer
    (fun _ => []) [] example_service (fst big_serve) big_answer E)).
Defined.
