(* ===== verification/ServiceMain.v ===== *)
(** The program of the image service (src/peimage-service/src/main.rs, [main]):
    its arguments and credentials, the start on the cache directory, the loop
    over connections, timer and shutdown.

    The file proves that a restart keeps the service warm when the last save was
    written out whole: what was cached when the service was shut down is served by
    the next process without a request to a registry.  The file system, the directory listing, the JSON and bincode
    codecs and the socket are parameters, as in [OciCache] and [ImageService];
    the capacities of the caches bound what moka keeps and appear here only as
    arguments. *)
From stdpp Require Import option base list sets numbers strings gmap.
From Stdlib Require Import ZArith Lia.
From S2P Require Import Prelude BTree Paths Text ErofsDisk RuntimeSpec Run OciDist BlobCache OciCache Squash SquashErofs ImageService.
#[local] Open Scope Z_scope.

(** * Start *)

Record AuthEntry := { username : bstr; password : bstr }.
Abbreviation StoredAuth := (gmap bstr AuthEntry).

Record Args := {
  a_listen : bstr; a_auth : bstr; a_cache : option bstr; a_backlog : Z; a_persist_period : Z;
  a_ref_capacity : Z; a_manifest_capacity : Z; a_blob_capacity : Z; a_img_capacity : Z;
}.

(** The optional arguments, before their defaults. *)
Definition parse_args (listen auth : bstr) (cache : option bstr)
    (backlog persist_period ref_cap manifest_cap blob_cap img_cap : option Z) : Args :=
  {| a_listen := listen; a_auth := auth; a_cache := cache; a_backlog := default 10 backlog;
     a_persist_period := default 3600 persist_period; a_ref_capacity := default 10000000 ref_cap;
     a_manifest_capacity := default 10000000 manifest_cap; a_blob_capacity := default 50000000000 blob_cap;
     a_img_capacity := default 50000000000 img_cap |}.

(** The first HOME of the environment, or the root. *)
Fixpoint home_of (env : list (bstr * bstr)) : bstr :=
  match env with
  | [] => [slash]
  | (k, v) :: env => if decide (k = bytes_of_string "HOME") then v else home_of env
  end.
Definition cache_path (a : Args) (env : list (bstr * bstr)) : bstr :=
  match a_cache a with Some p => p | None => path_push (home_of env) (bytes_of_string ".local/share/peoci") end.

Definition load_stored_auth (read_file : bstr -> option bstr) (parse_auth : bstr -> option StoredAuth) (p : bstr)
    : option (gmap bstr Auth) :=
  match read_file p with
  | Some d => option_map (fmap (fun e => UserPass (username e) (password e))) (parse_auth d)
  | None => None
  end.

(** What is in the cache directory: its own files and the directories of the
    blobs and of the images. *)
Record CacheDir (F : Type) := { cd_cache : F; cd_blobs : F; cd_imgs : F }.
Arguments cd_cache {F}.
Arguments cd_blobs {F}.
Arguments cd_imgs {F}.

Definition client_builder (a : Args) (dir : bstr) (auth : gmap bstr Auth) : ClientBuilder :=
  cb_blob_capacity (a_blob_capacity a) (cb_manifest_capacity (a_manifest_capacity a)
    (cb_ref_capacity (a_ref_capacity a) (cb_set_auth auth (cb_load_from_disk true (cb_dir dir ClientBuilder_default))))).

Definition store {F} (s : Service F) : CacheDir F :=
  {| cd_cache := cache_dir (s_client s); cd_blobs := blobs (s_client s); cd_imgs := imgs s |}.

(** [expect] of a result: what is not [Ok] panics. *)
Definition unwrap {E A} (r : result E A) : result unit A := match r with Ok a => Ok a | _ => Panic end.

Section main.
Context {F : Type} (W : Type) `{FileSystem F} `{BufWriter F W} `{RustixFileType}.
Context (timestamp_ok : Z -> bool) (parse_token : bstr -> option (bstr * option Z)).
Context (sha256 : bstr -> list byte) (digest_parse : bstr -> option OciImage.Digest).
Context (parse_index : bstr -> option (list IndexEntry)) (parse_manifest : bstr -> option Manifest).
Context (parse_configuration : bstr -> option OciImage.ImageConfiguration).
Context (media_type_of : bstr -> OciImage.MediaType) (algorithm_str : OciImage.DigestAlgorithm -> bstr).
Context (reference_to_string : Reference -> bstr).
Context (packed_encode : ImageManifestAndConfiguration -> option bstr).
Context (packed_decode : bstr -> option ImageManifestAndConfiguration).
Context (request_decode : bstr -> option ImageClient.Request) (reference_parse : bstr -> option Reference).
Context (mode_from_raw : Z -> Z).
Context (open_layer : Compression -> bstr -> result Squash.Error (list (result Squash.Error Entry))).
Context (leftover : list (Compression * bstr) -> bstr).
Context (entries_encode : list (bstr * bstr) -> option bstr) (entries_decode : bstr -> option (list (bstr * bstr))).
Context (to_str : bstr -> option bstr) (listing : F -> list (result Errno DirEntry)).
(** Files outside of the cache directory, the credentials' codec, and whether the
    socket can be bound; the backlog of a socket is a C int. *)
Context (read_file : bstr -> option bstr) (parse_auth : bstr -> option StoredAuth) (bind_ok : bstr -> bool).

Definition exec_event :=
  exec_service (W := W) timestamp_ok parse_token sha256 digest_parse parse_index parse_manifest
    parse_configuration media_type_of algorithm_str reference_to_string packed_encode packed_decode
    request_decode reference_parse mode_from_raw open_layer leftover entries_encode.

(** Everything before the loop; each failure panics. *)
Definition service_start (a : Args) (env : list (bstr * bstr)) (disk : bstr -> result Errno (CacheDir F))
    (w : World) : result unit (Service F) :=
  (let? auth := expect (load_stored_auth read_file parse_auth (a_auth a)) in
  let dir := cache_path a env in
  let? ci := unwrap (make_img_cache to_str listing (rmap cd_imgs (disk dir))) in
  let? c := unwrap (build entries_decode to_str listing
      (fun p => rmap (fun d => (cd_cache d, cd_blobs d)) (disk p)) (client_builder a dir auth) w) in
  let? _ := expect (try_into 31 (a_backlog a)) in
  if bind_ok (a_listen a) then Ok (Build_Service c ci.1 ci.2 0 0) else Panic)%result.

(** What the loop selects.  A connection is served by a task of its own; the
    evictions and the passing of time are events of the runtime. *)
Inductive Event :=
  | CtrlC | Timer | Accepted (message : bstr) | AcceptError | Housekeeping (op : ServiceOp).

(** The loop ends with a save, whose error is logged. *)
Fixpoint service_loop (events : list Event) (s : Service F) : Service F * option (result OciCache.Error unit) :=
  match events with
  | [] => (s, None)
  | CtrlC :: _ =>
      let '(c, r) := persist W entries_encode (s_client s) in (set_client c s, Some r)
  | Timer :: events => service_loop events (exec_event Tick s)
  | Accepted message :: events => service_loop events (exec_event (Serve message) s)
  | AcceptError :: events => service_loop events s
  | Housekeeping op :: events => service_loop events (exec_event op s)
  end.
End main.

(** * The cache directory *)

Section directory.
Context {F W : Type} `{FileSystemLaws F} `{!BufWriter F W, !BufWriterLaws F W}.

(** Requests leave the files of the cache directory alone. *)
Definition keeps_dir {A} (x : C F A) : Prop := forall c c' r, x c = (c', r) -> cache_dir c' = cache_dir c.

Lemma keeps_dir_cbind {A B} (x : C F A) (k : A -> C F B) :
  keeps_dir x -> (forall a, keeps_dir (k a)) -> keeps_dir (cbind x k).
Proof.
  intros Hx Hk c c' r. unfold cbind. destruct (x c) as [c1 r1] eqn:E. apply Hx in E. rewrite <-E.
  destruct r1 as [a|e|]; [apply Hk|by intros [= <- _]..].
Qed.
Lemma keeps_dir_clift {A} (r : result OciCache.Error A) : keeps_dir (clift (F := F) r).
Proof. by intros c c' r' [= <- _]. Qed.
Lemma keeps_dir_call {A} (m : OciDist.M A) : keeps_dir (call (F := F) m).
Proof. intros c c' r. unfold call. destruct (m (world c)). by intros [= <- _]. Qed.
Lemma keeps_dir_cok {A} (a : A) : keeps_dir (cok (F := F) a).
Proof. by intros c c' r [= <- _]. Qed.
Lemma keeps_dir_count f : keeps_dir (count (F := F) f).
Proof. by intros c c' r [= <- _]. Qed.
Lemma keeps_dir_on_blobs {A} (op : F -> F * result Errno A) : keeps_dir (on_blobs op).
Proof. intros c c' r. unfold on_blobs. destruct (op (blobs c)). by intros [= <- _]. Qed.

Lemma keeps_dir_or_insert {K V X} `{Countable K} get set (k : K) (init : C F (V * X)) :
  (forall m c, cache_dir (set m c) = cache_dir c) -> keeps_dir init ->
  keeps_dir (or_try_insert_with get set k init).
Proof.
  intros Hset Hi c c' r. unfold or_try_insert_with. destruct (get c !! k); [by intros [= <- _]|].
  destruct (init c) as [c1 r1] eqn:E. apply Hi in E. rewrite <-E.
  destruct r1 as [[v x]|e|]; intros [= <- _]; [apply Hset|done..].
Qed.
End directory.

Create HintDb keeps_dir.
#[export] Hint Resolve keeps_dir_clift keeps_dir_call keeps_dir_cok keeps_dir_count keeps_dir_on_blobs : keeps_dir.

(** Goes through a computation of the client. *)
Ltac keeps_dir :=
  repeat first
    [ progress auto with keeps_dir
    | apply keeps_dir_cbind; [|intros ?]
    | apply keeps_dir_or_insert; [done|]
    | match goal with |- keeps_dir (match ?x with _ => _ end) => destruct x end ].

Section operations.
Context {F W : Type} `{FileSystemLaws F} `{!BufWriter F W, !BufWriterLaws F W}.
Context (timestamp_ok : Z -> bool) (parse_token : bstr -> option (bstr * option Z)).
Context (sha256 : bstr -> list byte) (digest_parse : bstr -> option OciImage.Digest).
Context (parse_index : bstr -> option (list IndexEntry)) (parse_manifest : bstr -> option Manifest).
Context (parse_configuration : bstr -> option OciImage.ImageConfiguration).
Context (media_type_of : bstr -> OciImage.MediaType) (algorithm_str : OciImage.DigestAlgorithm -> bstr).
Context (reference_to_string : Reference -> bstr).
Context (packed_encode : ImageManifestAndConfiguration -> option bstr).
Context (packed_decode : bstr -> option ImageManifestAndConfiguration).

Lemma keeps_dir_manifest r arch os :
  keeps_dir (get_image_manifest_and_configuration (F := F) timestamp_ok parse_token sha256 digest_parse parse_index
    parse_manifest parse_configuration media_type_of algorithm_str reference_to_string packed_encode r arch os).
Proof.
  unfold get_image_manifest_and_configuration, retreive_ref, retreive_manifest_and_configuration. keeps_dir.
Qed.

Lemma keeps_dir_retreive_blob r d k :
  keeps_dir (OciCache.retreive_blob W timestamp_ok parse_token sha256 algorithm_str r d k).
Proof.
  unfold retreive_blob. apply keeps_dir_cbind; [auto with keeps_dir|]. intros [fd g] c c' res.
  destruct (OciDist.get_blob _ _ _ _ _ _ _ _ _ _) as [w [[b f] [[n|]|e|]]]; simpl; try by intros [= <- _].
  destruct (guard_success g f) as [f' [u|e|]]; by intros [= <- _].
Qed.

Lemma keeps_dir_get_blob r d : keeps_dir (OciCache.get_blob W timestamp_ok parse_token sha256 algorithm_str r d).
Proof.
  unfold OciCache.get_blob. apply keeps_dir_cbind; [auto with keeps_dir|]. intros k. apply keeps_dir_cbind.
  { apply keeps_dir_or_insert; [done|apply keeps_dir_retreive_blob]. }
  intros [n fresh]. apply keeps_dir_cbind; [keeps_dir|]. intros fd c c' res. destruct (_ =? _); by intros [= <- _].
Qed.

Lemma keeps_dir_get_layers r ls : keeps_dir (get_layers W timestamp_ok parse_token sha256 algorithm_str r ls).
Proof.
  induction ls as [|l ls IH]; simpl; [auto with keeps_dir|].
  apply keeps_dir_cbind; [apply keeps_dir_get_blob|intros fd; keeps_dir].
Qed.
End operations.

Section saving.
Context {F W : Type} `{FileSystemLaws F} `{!BufWriter F W, !BufWriterLaws F W}.
Context (entries_encode : list (bstr * bstr) -> option bstr).

Lemma unlink_unshared p (f : F) : unshared f -> unshared (fst (sys_unlinkat p f)).
Proof.
  intros Hu. destruct (unlink_fewer p f) as (_ & _ & Hfew). intros q j Hq q' Hq'.
  by apply (Hu q j); apply Hfew.
Qed.

Lemma generic_success_unshared n fd (f f' : F) r :
  links f (generic_tmp n) = Some fd -> unshared f ->
  generic_success {| guard_name := Some n |} f = (f', r) -> unshared f'.
Proof.
  intros Hl Hu. unfold generic_success, generic_drop. simpl. destruct (renameat _ _ f) as [f1 r1] eqn:E.
  apply renameat_spec in E as (_ & _ & E). intros [= <- <-]. destruct r1 as [u|e|]; [|by apply (same_names_unshared f)..].
  destruct E as (i & Hi & Hq & Hp & Hrest).
  assert (generic_tmp n <> name n) as Hne by (intros Heq%(f_equal length); unfold generic_tmp in Heq;
    rewrite length_app in Heq; simpl in Heq; lia).
  apply (rename_unshared f f1 (generic_tmp n) (name n) i); [done|done|by apply Hp|done|done].
Qed.

(** Saving, whether it succeeds or not, makes no second name for a file. *)
Lemma save_entries_unshared n l (c c' : Client F) r :
  unshared (cache_dir c) -> save_entries W entries_encode n l c = (c', r) -> unshared (cache_dir c').
Proof.
  intros Hu. unfold save_entries, cbind, clift. destruct (expect _) as [g|e|]; [|by intros [= <- _]..].
  unfold on_cache_dir, openat_create_write_with_generic_guard.
  destruct (openat2_create _ _) as [f1 r1] eqn:E. apply create_spec in E as (_ & E).
  destruct r1 as [fd|e|]; [|destruct E; intros [= <- _]; by apply (same_names_unshared (cache_dir c))..].
  destruct E as (Hl & Hn & _ & Hc & _ & Hor). simpl.
  assert (unshared f1) as Hu1 by (by eapply create_unshared).
  destruct (entries_encode l) as [d|]; [|intros [= <- _]; by apply unlink_unshared].
  destruct (bw_write _ _) as [[w f2] b] eqn:Ew.
  assert (write_seq (bw_write (W := W)) (bw_new fd, f1) [d] = ((w, f2), b)) as Hws by (simpl; rewrite Ew; by destruct b).
  apply bw_writes in Hws as [(_ & Hn2 & _) Hfl]. assert (unshared f2) as Hu2 by (by apply (same_names_unshared f1)).
  assert (forall f3 w' f4 b', content f3 fd = content f2 fd -> unshared f3 -> bw_flush (w, f3) = ((w', f4), b') -> unshared f4)
    as Hflu by (intros f3 w' f4 b' Hcf Hu3 E; apply Hfl in E as [(_ & Hn4 & _) _]; [by apply (same_names_unshared f3)|done]).
  destruct b.
  - destruct (generic_success _ f2) as [f3 r3] eqn:Eg. destruct (bw_flush (w, f3)) as [[w' f4] b'] eqn:Ef.
    intros [= <- _]. apply (Hflu _ _ _ _) in Ef; [done| |].
    + unfold generic_success, generic_drop in Eg. simpl in Eg. destruct (renameat _ _ f2) as [f5 r5] eqn:Er.
      apply renameat_spec in Er as (_ & Hc5 & _). injection Eg as <- _. apply Hc5.
    + eapply generic_success_unshared; [|exact Hu2|exact Eg]. by rewrite Hn2.
  - destruct (bw_flush (w, f2)) as [[w' f4] b'] eqn:Ef. intros [= <- _]. simpl. apply unlink_unshared.
    by eapply Hflu.
Qed.

Lemma persist_caches (c c' : Client F) r :
  persist W entries_encode c = (c', r) -> ref_cache c' = ref_cache c /\ manifest_cache c' = manifest_cache c.
Proof.
  assert (forall n l (c c' : Client F) r, save_entries W entries_encode n l c = (c', r) ->
    ref_cache c' = ref_cache c /\ manifest_cache c' = manifest_cache c) as Hsave.
  { clear. intros n l c c' r. unfold save_entries, cbind, clift. destruct (expect _) as [g|e|]; [|by intros [= <- _]..].
    unfold on_cache_dir. destruct (openat_create_write_with_generic_guard _ _) as [f1 [[fd gd]|e|]]; simpl;
      [|by intros [= <- _]..].
    destruct (entries_encode l); [|by intros [= <- _]]. destruct (bw_write _ _) as [[w f] [|]];
      [destruct (generic_success gd f) as [f3 r3]|]; by intros [= <- _]. }
  unfold persist, cbind. destruct (save_ref_cache _ _ c) as [c1 r1] eqn:E. apply Hsave in E as [E1 E2].
  destruct r1; [intros [-> ->]%Hsave; by rewrite E1, E2|by intros [= <- _]..].
Qed.

Lemma persist_unshared (c c' : Client F) r :
  unshared (cache_dir c) -> persist W entries_encode c = (c', r) -> unshared (cache_dir c').
Proof.
  intros Hu. unfold persist, cbind. destruct (save_ref_cache _ _ c) as [c1 r1] eqn:E.
  apply save_entries_unshared in E; [|done]. destruct r1; [|by intros [= <- _]..].
  by apply save_entries_unshared.
Qed.
End saving.

(** * The service *)

Section service.
Context {F W : Type} `{FileSystemLaws F} `{!BufWriter F W, !BufWriterLaws F W} `{RustixFileType}.
Context (timestamp_ok : Z -> bool) (parse_token : bstr -> option (bstr * option Z)).
Context (sha256 : bstr -> list byte) (digest_parse : bstr -> option OciImage.Digest).
Context (parse_index : bstr -> option (list IndexEntry)) (parse_manifest : bstr -> option Manifest).
Context (parse_configuration : bstr -> option OciImage.ImageConfiguration).
Context (media_type_of : bstr -> OciImage.MediaType) (algorithm_str : OciImage.DigestAlgorithm -> bstr).
Context (reference_to_string : Reference -> bstr).
Context (packed_encode : ImageManifestAndConfiguration -> option bstr).
Context (packed_decode : bstr -> option ImageManifestAndConfiguration).
Context (request_decode : bstr -> option ImageClient.Request) (reference_parse : bstr -> option Reference).
Context (mode_from_raw : Z -> Z).
Context (open_layer : Compression -> bstr -> result Squash.Error (list (result Squash.Error Entry))).
Context (leftover : list (Compression * bstr) -> bstr).
Context (entries_encode : list (bstr * bstr) -> option bstr) (entries_decode : bstr -> option (list (bstr * bstr))).

Abbreviation on_event := (exec_event W timestamp_ok parse_token sha256 digest_parse parse_index parse_manifest
  parse_configuration media_type_of algorithm_str reference_to_string packed_encode packed_decode
  request_decode reference_parse mode_from_raw open_layer leftover entries_encode).
Abbreviation loop := (service_loop W timestamp_ok parse_token sha256 digest_parse parse_index parse_manifest
  parse_configuration media_type_of algorithm_str reference_to_string packed_encode packed_decode
  request_decode reference_parse mode_from_raw open_layer leftover entries_encode).
Abbreviation serve := (serve W timestamp_ok parse_token sha256 digest_parse parse_index parse_manifest
  parse_configuration media_type_of algorithm_str reference_to_string packed_encode packed_decode
  request_decode reference_parse mode_from_raw open_layer leftover).
Abbreviation sdir s := (cache_dir (s_client s)).

Lemma cached_image_dir r m k (s s' : Service F) res :
  cached_image W timestamp_ok parse_token sha256 algorithm_str mode_from_raw open_layer leftover r m k s = (s', res) ->
  sdir s' = sdir s.
Proof.
  unfold cached_image. destruct (img_cache s !! k).
  { destruct (openat_read_key _ _) as [f [[fd|]|e|]]; by intros [= <- _]. }
  unfold make_erofs_image. destruct (_ <? _); [by intros [= <- _]|].
  destruct (get_layers _ _ _ _ _ _ _ _) as [c [fds|e|]] eqn:E; apply keeps_dir_get_layers in E; [|by intros [= <- _]..].
  destruct (write_image _ _ _ _ _ _) as [f [[n fd]|e|]]; by intros [= <- _].
Qed.

Lemma serve_dir message (s : Service F) : sdir (fst (serve message s)) = sdir s.
Proof.
  unfold ImageService.serve. destruct (handle_conn _ _ _ _ _ _ _ _ _ _ _ _ _ _ _ _ _ _ message s) as [s' r] eqn:E.
  assert (sdir s' = sdir s) as Hs; [|by destruct r as [[[? ?] ?]|?|]].
  unfold handle_conn in E. destruct (request_decode _) as [req|]; [|by injection E as <- _].
  destruct (reference_parse _) as [rf|]; [|by injection E as <- _].
  destruct (get_image_manifest_and_configuration _ _ _ _ _ _ _ _ _ _ _ _ _ _ _) as [c r1] eqn:Em.
  apply keeps_dir_manifest in Em. destruct r1 as [v|e|]; [|by injection E as <- _..].
  destruct (PackedImageAndConfiguration_get _ v) as [mc|e|]; [|by injection E as <- _..].
  destruct (BlobKey_new _) as [k|]; [|by injection E as <- _].
  destruct (cached_image _ _ _ _ _ _ _ _ _ _ _ _) as [s1 r2] eqn:Ec. apply cached_image_dir in Ec.
  destruct r2; injection E as <- _; by rewrite Ec.
Qed.

Lemma event_unshared op (s : Service F) : unshared (sdir s) -> unshared (sdir (on_event op s)).
Proof.
  intros Hu. destruct op as [m|k|op|]; unfold exec_event, exec_service.
  - by rewrite serve_dir.
  - done.
  - simpl. destruct op as [r arch os|r ls|r d|x|x|k| | |w']; simpl; try done.
    + destruct (get_image_manifest_and_configuration _ _ _ _ _ _ _ _ _ _ _ _ _ _ _) eqn:E.
      apply keeps_dir_manifest in E. simpl. by rewrite E.
    + destruct (get_layers _ _ _ _ _ _ _ _) eqn:E. apply keeps_dir_get_layers in E. simpl. by rewrite E.
    + destruct (OciCache.get_blob _ _ _ _ _ _ _ _) eqn:E. apply keeps_dir_get_blob in E. simpl. by rewrite E.
    + destruct (persist _ _ _) eqn:E. by eapply persist_unshared.
  - simpl. destruct (persist _ _ _) eqn:E. eapply persist_unshared; [|exact E]. exact Hu.
Qed.

(** The state in which the loop saves for the last time. *)
Lemma loop_shutdown events (s s' : Service F) r :
  unshared (sdir s) -> loop events s = (s', Some r) ->
  exists s1 c, unshared (sdir s1) /\ persist W entries_encode (s_client s1) = (c, r) /\ s' = set_client c s1.
Proof.
  revert s. induction events as [|e events IH]; intros s Hu; [done|].
  destruct e as [| |m| |op]; cbn [service_loop].
  - destruct (persist _ _ _) as [c r1] eqn:E. intros [= <- <-]. by exists s, c.
  - by apply IH, event_unshared.
  - by apply IH, event_unshared.
  - by apply IH.
  - by apply IH, event_unshared.
Qed.

(** The digest under which the caches of [c] have the manifest for [r]. *)
Definition digest_cached (c : Client F) (r : Reference) (d : bstr) : Prop :=
  match ref_digest r with
  | None => ref_cache c !! reference_to_string r = Some d
  | Some x => exists dg, digest_parse x = Some dg /\ d = digest_to_string algorithm_str dg
  end.

Lemma manifest_hit r arch os d v (c : Client F) :
  digest_cached c r d -> manifest_cache c !! d = Some v ->
  exists n, get_image_manifest_and_configuration timestamp_ok parse_token sha256 digest_parse parse_index
    parse_manifest parse_configuration media_type_of algorithm_str reference_to_string packed_encode r arch os c =
    (set_counters n c, Ok v).
Proof.
  unfold digest_cached, get_image_manifest_and_configuration. intros Hd Hv. destruct (ref_digest r) as [x|].
  - destruct Hd as (dg & Hx & ->). rewrite Hx. unfold cbind, clift, ok_or, cok, or_try_insert_with, count, modify.
    simpl. rewrite Hv. simpl. eauto.
  - unfold cbind, cok, or_try_insert_with, count, modify. rewrite Hd. simpl. rewrite Hv. simpl. eauto.
Qed.

(** A request for what is cached makes no call, and gets the image's file when it
    can be opened. *)
Lemma serve_hit message req r d v mc k n (s s' : Service F) out :
  request_decode (ztake 1024 message) = Some req -> reference_parse (ImageClient.reference req) = Some r ->
  digest_cached (s_client s) r d -> manifest_cache (s_client s) !! d = Some v -> packed_decode v = Some mc ->
  BlobKey_new (digest_to_string algorithm_str (Spec.Digest_into (manifest_digest mc))) = Some k ->
  img_cache s !! k = Some n -> serve message s = (s', out) ->
  world (s_client s') = world (s_client s) /\
  forall f fd, openat_read_key k (imgs s) = (f, Ok (Some fd)) ->
    out = Ok (Some fd, respond_ok algorithm_str (Spec.Digest_into (manifest_digest mc)) (configuration mc)) /\
    imgs s' = f.
Proof.
  intros Hreq Hr Hd Hv Hmc Hk Hn. unfold ImageService.serve, handle_conn. rewrite Hreq, Hr.
  destruct (manifest_hit r OciImage.Amd64 OciImage.Linux d v (s_client s) Hd Hv) as [cnt ->].
  unfold PackedImageAndConfiguration_get. rewrite Hmc. cbn [ok_or]. rewrite Hk. unfold cached_image. cbn [img_cache set_client].
  rewrite Hn. cbn [imgs set_client]. destruct (openat_read_key k (imgs s)) as [f [[fd|]|e|]]; intros E; injection E as <- <-;
    (split; [done|]); intros f' fd' E; [injection E as <- <-; done|discriminate E..].
Qed.

(** The parts of a start. *)
Lemma service_start_Ok to_str listing read_file parse_auth bind_ok a env disk w (s : Service F) d :
  service_start entries_decode to_str listing read_file parse_auth bind_ok a env disk w = Ok s ->
  disk (cache_path a env) = Ok d ->
  exists auth found,
    read_from_disk to_str (listing (cd_imgs d)) = Ok found /\
    build entries_decode to_str listing (fun _ => Ok (cd_cache d, cd_blobs d))
      (client_builder a (cache_path a env) auth) w = Ok (s_client s) /\
    img_cache s = insert_all found ∅ /\ imgs s = cd_imgs d.
Proof.
  unfold service_start. intros E Hd. destruct (load_stored_auth _ _ _) as [auth|]; [|done]. cbn [rbind expect] in E.
  rewrite Hd in E. unfold make_img_cache in E. cbn [rmap map_err rbind] in E.
  destruct (read_from_disk to_str _) as [found|e|] eqn:Ef; [|done..]. cbn [map_err rbind unwrap] in E.
  match type of E with context [build ?x ?y ?z ?f ?b ?w0] =>
    replace (build x y z f b w0) with (build x y z (fun _ => Ok (cd_cache d, cd_blobs d)) b w0) in E
      by (unfold build; cbn [cb_cache_dir client_builder cb_blob_capacity cb_manifest_capacity cb_ref_capacity
            cb_set_auth cb_load_from_disk cb_dir]; by rewrite Hd) end.
  destruct (build _ _ _ _ _ _) as [c|e|] eqn:Eb; [|done..]. cbn [rbind unwrap] in E.
  destruct (try_into 31 _); [|done]. cbn [rbind expect] in E. destruct (bind_ok _); [|done]. injection E as <-.
  exists auth, found. by split_and!.
Qed.

(** A client that starts leaves the cache directory's names as they are. *)
Lemma build_same_names to_str listing dir bl b path w (c : Client F) :
  cb_cache_dir b = Some path -> load_from_disk b = true ->
  build entries_decode to_str listing (fun _ => Ok (dir, bl)) b w = Ok c -> same_names dir (cache_dir c).
Proof.
  assert (forall n ins (c1 c2 : Client F), (forall l c, cache_dir (ins l c) = cache_dir c) ->
    load_entries entries_decode n ins c1 = (c2, Ok tt) -> same_names (cache_dir c1) (cache_dir c2)) as Hload.
  { intros n ins c1 c2 Hins. unfold load_entries, cbind, on_cache_dir, openat_read.
    destruct (openat2_read n (cache_dir c1)) as [f r] eqn:E. apply read_spec in E as (_ & Hn & _).
    destruct r as [fd|[]|]; simpl; try discriminate; [|by intros [= <-]].
    destruct (entries_decode _); intros [= <-]; [rewrite Hins|]; done. }
  intros Hp Hl E. apply (build_Ok _ _ _ _ _ _ path) in E as (c1 & c2 & c3 & <- & _ & _ & _ & _ & L1 & L2 & L3); [|done..].
  apply Hload in L1; [|done]. apply Hload in L2; [|done]. apply load_blob_cache_Ok in L3 as (found & _ & ->).
  intros p. cbn [cache_dir set_blob_cache]. by rewrite L2, L1.
Qed.

Lemma insert_all_elem {K V} `{Countable K} (l : list (K * V)) m k :
  k ∈ l.*1 \/ is_Some (m !! k) -> is_Some (insert_all l m !! k).
Proof.
  revert m. induction l as [|[k' v] l IH]; intros m; simpl.
  - by intros [[]%not_elem_of_nil|?].
  - intros Hk. apply IH. destruct (decide (k = k')) as [->|Hne].
    + right. simpl. rewrite lookup_insert_eq. eauto.
    + destruct Hk as [[?|?]%elem_of_cons|?]; [done|by left|right]. by rewrite lookup_insert_ne.
Qed.
End service.

(** * Properties *)

(** A restart can keep the image service warm.  When the service was started, ran
    through any events and was shut down with a save in which every buffered write
    was flushed (which the code does not check: it returns success either way), a
    process that starts later on the same cache directory has the same reference
    and manifest caches; and a request for an image whose manifest was cached and
    whose file is found in the image directory is answered without any request to
    a registry, with the digest and configuration of the cached manifest and the
    file that the first process had published.  Loading does not evict here: the
    capacities of the second process have room for what was saved. *)
Theorem service_warm_restart {F W} `{FileSystemLaws F} `{!BufWriter F W, !BufWriterLaws F W} `{RustixFileType}
    timestamp_ok parse_token sha256 digest_parse parse_index parse_manifest parse_configuration media_type_of
    algorithm_str reference_to_string packed_encode packed_decode request_decode reference_parse mode_from_raw
    open_layer leftover entries_encode entries_decode to_str listing read_file parse_auth bind_ok
    a env (disk : bstr -> result Errno (CacheDir F)) w d0 s0 events s1 a' env' disk' w' s2 :
  (forall l b, entries_encode l = Some b -> entries_decode b = Some l) ->
  (forall x : W * F, snd (bw_flush x) = true) ->
  disk (cache_path a env) = Ok d0 -> unshared (cd_cache d0) ->
  service_start entries_decode to_str listing read_file parse_auth bind_ok a env disk w = Ok s0 ->
  service_loop W timestamp_ok parse_token sha256 digest_parse parse_index parse_manifest parse_configuration
    media_type_of algorithm_str reference_to_string packed_encode packed_decode request_decode reference_parse
    mode_from_raw open_layer leftover entries_encode events s0 = (s1, Some (Ok tt)) ->
  disk' (cache_path a' env') = Ok (store s1) ->
  service_start entries_decode to_str listing read_file parse_auth bind_ok a' env' disk' w' = Ok s2 ->
  ref_cache (s_client s2) = ref_cache (s_client s1) /\ manifest_cache (s_client s2) = manifest_cache (s_client s1) /\
  forall message req r d v mc k found s3 out,
    request_decode (ztake 1024 message) = Some req -> reference_parse (ImageClient.reference req) = Some r ->
    digest_cached digest_parse algorithm_str reference_to_string (s_client s1) r d ->
    manifest_cache (s_client s1) !! d = Some v -> packed_decode v = Some mc ->
    BlobKey_new (digest_to_string algorithm_str (Spec.Digest_into (manifest_digest mc))) = Some k ->
    read_from_disk to_str (listing (imgs s1)) = Ok found -> k ∈ found.*1 ->
    serve W timestamp_ok parse_token sha256 digest_parse parse_index parse_manifest parse_configuration
      media_type_of algorithm_str reference_to_string packed_encode packed_decode request_decode reference_parse
      mode_from_raw open_layer leftover message s2 = (s3, out) ->
    world (s_client s3) = world (s_client s2) /\
    forall f fd, openat_read_key k (imgs s1) = (f, Ok (Some fd)) ->
      out = Ok (Some fd, respond_ok algorithm_str (Spec.Digest_into (manifest_digest mc)) (configuration mc)) /\
      links (imgs s1) (as_path k) = Some fd /\ content (imgs s3) fd = content (imgs s1) fd.
Proof.
  intros Hcodec Hflush Hd0 Hu Hs0 Hloop Hd1 Hs2.
  eapply service_start_Ok in Hs0 as (auth0 & found0 & _ & Hb0 & _ & _); [|exact Hd0].
  eapply build_same_names in Hb0; [|reflexivity..]. apply (same_names_unshared _ _ Hb0) in Hu.
  eapply loop_shutdown in Hloop as (s & c & Hu1 & Hp & ->); [|exact Hu].
  eapply service_start_Ok in Hs2 as (auth & found1 & Hf1 & Hb & Hi & Hd2); [|exact Hd1].
  eapply (persist_restores entries_encode entries_decode Hcodec Hflush) in Hb as (Hr & Hm & _);
    [|exact Hu1|exact Hp|reflexivity..].
  pose proof Hp as Hp'. apply persist_caches in Hp' as [Hr' Hm']. cbn [s_client set_client imgs store cd_imgs] in *.
  split_and!; [congruence|congruence|].
  intros message req r d v mc k found s3 out Hreq Href Hd Hv Hmc Hk Hf Hin Hserve.
  rewrite Hf in Hf1. injection Hf1 as <-.
  assert (is_Some (img_cache s2 !! k)) as [n Hn] by (rewrite Hi; apply insert_all_elem; by left).
  eapply serve_hit in Hserve as [Hw Hout]; [|exact Hreq|exact Href| |rewrite Hm, <-Hm'; exact Hv|exact Hmc|exact Hk|exact Hn].
  2:{ unfold digest_cached in *. destruct (ref_digest r); [done|]. by rewrite Hr, <-Hr'. }
  split; [done|]. intros f fd Ho. pose proof Ho as Ho'. rewrite <-Hd2 in Ho'. destruct (Hout f fd Ho') as [-> <-].
  split; [done|]. unfold openat_read_key, openat_read in Ho. destruct (openat2_read _ _) as [f' r'] eqn:E.
  apply read_spec in E as (_ & _ & Hcont & Hok & _). destruct r' as [fd'|[]|]; try discriminate Ho.
  injection Ho as <- <-. split; [by apply Hok|apply Hcont].
Qed.

(** ** A service that is restarted *)

Definition example_key : BlobKey := {| key := digest_to_string example_alg (example_digest 1) |}.
(** The listing of a directory that can have the image's file. *)
Definition example_listing (f : MemFs) : list (result Errno DirEntry) :=
  match links f (as_path example_key) with
  | Some i =>
      [Ok {| dir_name := bytes_of_string "sha256"; is_directory := true;
             dir_files := Ok [Ok {| file_name := OciImage.digest (example_digest 1);
                                    st_size := Ok (zlen (content f i)) |}] |}]
  | None => []
  end.

Definition example_args : Args := parse_args [x6c] [x61] None None None None None None None.
Definition example_start (enc : bstr -> option (list (bstr * bstr))) (disk : bstr -> result Errno (CacheDir MemFs))
    (w : World) : result unit (Service MemFs) :=
  service_start enc Some example_listing (fun _ => Some []) (fun _ => Some ∅) (fun _ => true) example_args [] disk w.
Definition example_disk (_ : bstr) : result Errno (CacheDir MemFs) :=
  Ok {| cd_cache := example_fs; cd_blobs := example_fs; cd_imgs := example_fs |}.

(** What the caches hold after one request, and a codec for it. *)
Definition example_warm : Service MemFs := fst (example_serve example_service).
Definition example_refs : list (bstr * bstr) := map_to_list (ref_cache (s_client example_warm)).
Definition example_manifests : list (bstr * bstr) := map_to_list (manifest_cache (s_client example_warm)).
Definition warm_encode (l : list (bstr * bstr)) : option bstr :=
  if decide (l = example_refs) then Some [x01] else if decide (l = example_manifests) then Some [x02] else None.
Definition warm_decode (b : bstr) : option (list (bstr * bstr)) :=
  if decide (b = [x01]) then Some example_refs else if decide (b = [x02]) then Some example_manifests else None.

Definition example_loop (s : Service MemFs) : Service MemFs * option (result OciCache.Error unit) :=
  service_loop (nat * bstr) (fun _ => true) (fun _ => None) example_sha256 example_digest_parse (fun _ => None)
    example_parse_manifest example_parse_configuration (fun _ => OciImage.ImageLayer) example_alg
    (fun _ => []) example_encode example_decode (fun _ => Some example_request) (fun _ => Some example_ref)
    permission_bits example_open_layer (fun _ => []) warm_encode [Accepted []; CtrlC] s.

Definition started : Service MemFs :=
  ok_default example_service (example_start warm_decode example_disk example_registry).
Definition stopped : Service MemFs := fst (example_loop started).
Definition restarted : Service MemFs :=
  ok_default example_service (example_start warm_decode (fun _ => Ok (store stopped)) example_registry).

Lemma warm_codec l b : warm_encode l = Some b -> warm_decode b = Some l.
Proof.
  unfold warm_encode, warm_decode. destruct (decide (l = example_refs)) as [->|]; [by intros [= <-]|].
  destruct (decide (l = example_manifests)) as [->|]; [by intros [= <-]|done].
Qed.

Lemma service_warm_restart_witness :
  world (s_client (fst (example_serve restarted))) = world (s_client restarted) /\
  exists fd, snd (example_serve restarted) =
    Ok (Some fd, respond_ok example_alg (Spec.Digest_into (manifest_digest example_mc)) (configuration example_mc)).
Proof.
  assert (example_start warm_decode example_disk example_registry = Ok started) as H0
    by (apply ok_default_is_ok; vm_compute; reflexivity).
  assert (example_loop started = (stopped, Some (Ok tt))) as H1
    by (apply (pair_of_snd (example_loop started)); vm_compute; reflexivity).
  assert (example_start warm_decode (fun _ => Ok (store stopped)) example_registry = Ok restarted) as H2
    by (apply ok_default_is_ok; vm_compute; reflexivity).
  assert (is_Some (match openat_read_key example_key (imgs stopped) with (_, Ok (Some fd)) => Some fd | _ => None end))
    as [fd Hfd] by (vm_compute; eauto).
  destruct (openat_read_key example_key (imgs stopped)) as [f [[fd'|]|e|]] eqn:Ho; try discriminate Hfd. clear fd Hfd.
  destruct (service_warm_restart (F := MemFs) (W := nat * bstr) (fun _ => true) (fun _ => None) example_sha256
    example_digest_parse (fun _ => None) example_parse_manifest example_parse_configuration
    (fun _ => OciImage.ImageLayer) example_alg (fun _ => []) example_encode example_decode
    (fun _ => Some example_request) (fun _ => Some example_ref) permission_bits example_open_layer (fun _ => [])
    warm_encode warm_decode Some example_listing (fun _ => Some []) (fun _ => Some ∅) (fun _ => true)
    example_args [] example_disk example_registry
    {| cd_cache := example_fs; cd_blobs := example_fs; cd_imgs := example_fs |} started [Accepted []; CtrlC] stopped
    example_args [] (fun _ => Ok (store stopped)) example_registry restarted warm_codec) as (_ & _ & Hserve).
  - intros [[i buf] g]. reflexivity.
  - reflexivity.
  - intros p i Hp. exfalso. change (links example_fs p = Some i) in Hp. vm_compute in Hp. discriminate Hp.
  - exact H0.
  - exact H1.
  - reflexivity.
  - exact H2.
  - destruct (Hserve [] example_request example_ref (key example_key) (default [] (example_encode example_mc)) example_mc
      example_key [(example_key, default 0 (img_cache restarted !! example_key))]
      (fst (example_serve restarted)) (snd (example_serve restarted))) as [Hw Hout].
    + reflexivity.
    + reflexivity.
    + exists (example_digest 1). split; vm_compute; reflexivity.
    + vm_compute. reflexivity.
    + reflexivity.
    + vm_compute. reflexivity.
    + vm_compute. reflexivity.
    + by apply elem_of_cons; left.
    + apply surjective_pairing.
    + split; [exact Hw|]. exists fd'. apply (Hout f fd' Ho).
Defined.
