(* ===== verification/OciTool.v ===== *)
(** The command line client of registries (src/peoci/src/bin/ocidist.rs): with the
    cache directory or without, it fetches an image's manifest, configuration and
    layers and reports them.

    The file proves that what the tool writes without the cache is authentic: it
    follows a chain of SHA-256 hashes from the digest to the file.  The registry,
    the file system, the codecs, the environment and jq are parameters, as in
    [OciDist] and [OciCache]. *)
From stdpp Require Import option base list sets numbers strings gmap.
From Stdlib Require Import ZArith Lia.
From S2P Require Import Prelude BTree Paths Text RuntimeSpec OciDist BlobCache OciCache ServiceMain.
#[local] Open Scope Z_scope.

#[local] Notation bs := bytes_of_string.

(** * The command line *)

Record ToolArgs := { image_ref : bstr; t_blobs : bool; t_cache : bool; t_json : bool; outfile : option bstr }.

(** A variable of the environment: the first of the name. *)
Definition env_var (name : bstr) (env : list (bstr * bstr)) : option bstr :=
  snd <$> List.find (fun kv => bool_decide (kv.1 = name)) env.

(** The credentials; the file must be readable if it is named. *)
Definition tool_auth (read_file : bstr -> option bstr) (parse_auth : bstr -> option StoredAuth)
    (env : list (bstr * bstr)) : option (gmap bstr Auth) :=
  match env_var (bs "PEOCI_AUTH") env with
  | Some p => load_stored_auth read_file parse_auth p
  | None => Some ∅
  end.

Definition tool_cache_dir (env : list (bstr * bstr)) : option bstr :=
  match env_var (bs "PEOCI_CACHE") env with
  | Some p => Some p
  | None => (fun h => path_push h (bs ".local/share/peoci")) <$> env_var (bs "HOME") env
  end.

(** What the tool prints or gives to jq. *)
Inductive Report :=
  | GotReference (r : Reference)
  | GotPacked (m : ImageManifestAndConfiguration)
  | GotLayers (fds : list nat)
  | GotStats (n : Counters)
  | GotManifest (m : Manifest)
  | GotConfiguration (c : OciImage.ImageConfiguration)
  | Jq (data : bstr)
  | Wrote (size file_size : Z).

Section tool.
Context {F W : Type} `{FileSystem F} `{BufWriter F W}.
Context (timestamp_ok : Z -> bool) (parse_token : bstr -> option (bstr * option Z)).
Context (sha256 : bstr -> list byte) (digest_parse : bstr -> option OciImage.Digest).
Context (parse_index : bstr -> option (list IndexEntry)) (parse_manifest : bstr -> option Manifest).
Context (parse_configuration : bstr -> option OciImage.ImageConfiguration).
Context (media_type_of : bstr -> OciImage.MediaType) (algorithm_str : OciImage.DigestAlgorithm -> bstr).
Context (reference_to_string : Reference -> bstr) (reference_parse : bstr -> option Reference).
Context (packed_encode : ImageManifestAndConfiguration -> option bstr).
Context (packed_decode : bstr -> option ImageManifestAndConfiguration).
Context (entries_encode : list (bstr * bstr) -> option bstr) (entries_decode : bstr -> option (list (bstr * bstr))).
Context (to_str : bstr -> option bstr) (listing : F -> list (result Errno DirEntry)).
Context (open_dirs : bstr -> result Errno (F * F)).
(** Whether jq can be run on the data. *)
Context (jq_ok : bstr -> bool).

(** Every failure is a panic. *)
Definition must {A} (o : option A) : result unit A := match o with Some a => Ok a | None => Panic end.

#[local] Open Scope result_scope.

(** With the cache: the client at the end, and the reports. *)
Definition cached_tool (a : ToolArgs) (r : Reference) (auth : gmap bstr Auth) (dir : bstr) (w : World)
    : result unit (Client F * list Report) :=
  let? c := unwrap (build entries_decode to_str listing open_dirs
    (cb_set_auth auth (cb_load_from_disk true (cb_dir dir ClientBuilder_default))) w) in
  let '(c, res) := get_image_manifest_and_configuration timestamp_ok parse_token sha256 digest_parse parse_index
    parse_manifest parse_configuration media_type_of algorithm_str reference_to_string packed_encode
    r OciImage.Amd64 OciImage.Linux c in
  let? packed := unwrap res in
  let? mc := unwrap (PackedImageAndConfiguration_get packed_decode packed) in
  let? '(c, layers) :=
    if t_blobs a then
      let '(c, res) := get_layers W timestamp_ok parse_token sha256 algorithm_str r (Spec.layers (manifest mc)) c in
      let? fds := unwrap res in Ok (c, [GotLayers fds])
    else Ok (c, []) in
  let '(c, stats) := take_counters c in
  let '(c, res) := persist W entries_encode c in
  let? _ := unwrap res in
  Ok (c, GotPacked mc :: layers ++ [GotStats stats]).

(** What is shown of a response: its data to jq, or its parsed form. *)
Definition show (a : ToolArgs) (data : bstr) (report : Report) : result unit Report :=
  if t_json a then (if jq_ok data then Ok (Jq data) else Panic) else Ok report.

(** An output file that data is written to through a buffer. *)
Context {O : Type} (create : bstr -> option O) (write : O -> bstr -> O * bool) (flush : O -> O * bool).
Context (file_size : O -> option Z).

(** A request of the client, whose failure is a panic. *)
Definition ask {A} (m : M A) (w : World) : result unit (World * A) :=
  let '(w, res) := m w in let? x := unwrap res in Ok (w, x).

(** The reference with the digest of the manifest for the platform. *)
Definition resolve (r : Reference) (w : World) : result unit (World * Reference) :=
  match ref_digest r with
  | Some _ => Ok (w, r)
  | None =>
      let? '(w, d) := ask (get_matching_descriptor_from_index timestamp_ok parse_token sha256 digest_parse parse_index
        parse_manifest media_type_of r OciImage.Amd64 OciImage.Linux) w in
      let? d := must d in
      Ok (w, clone_with_digest r (digest_to_string algorithm_str (OciImage.desc_digest d)))
  end.

(** The first layer, when an output is given; indexing past the end panics. *)
Definition write_layer (a : ToolArgs) (r : Reference) (m : Manifest) (w : World)
    : result unit (World * option O * list Report) :=
  match outfile a with
  | None => Ok (w, None, [])
  | Some path =>
      let? wr := must (create path) in
      let? d := must (manifest_layers m !! 0%nat) in
      let '(w, (wr, res)) := OciDist.get_blob timestamp_ok parse_token sha256 algorithm_str write flush r d wr w in
      let? size := unwrap res in
      let? size := must size in
      let '(wr, ok) := flush wr in
      if ok then let? n := must (file_size wr) in Ok (w, Some wr, [Wrote size n]) else Panic
  end.

(** Without the cache: the output file at the end, and the reports. *)
Definition uncached_tool (a : ToolArgs) (r : Reference) (auth : gmap bstr Auth) (w : World)
    : result unit (World * option O * list Report) :=
  let '(w, _) := OciDist.set_auth auth {| clock := clock w; net := net w; sent := sent w; client := Client_new |} in
  let? '(w, r) := resolve r w in
  let? '(w, res) := ask (get_image_manifest timestamp_ok parse_token sha256 digest_parse r) w in
  let? res := must res in
  let? m := must (im_get parse_manifest res) in
  let? shown := show a (im_data res) (GotManifest m) in
  let? '(w, cres) := ask (get_image_configuration timestamp_ok parse_token sha256 algorithm_str r (manifest_config m)) w in
  let? cres := must cres in
  let? ic := must (ic_get parse_configuration cres) in
  let? cshown := show a (ic_data cres) (GotConfiguration ic) in
  let? '(w, out, wrote) := write_layer a r m w in
  Ok (w, out, [shown; cshown] ++ wrote).

Inductive ToolEnd := Cached (c : Client F) | Uncached (w : World) (out : option O).

Definition ocidist_main (read_file : bstr -> option bstr) (parse_auth : bstr -> option StoredAuth)
    (env : list (bstr * bstr)) (a : ToolArgs) (w : World) : result unit (ToolEnd * list Report) :=
  let? r := must (reference_parse (image_ref a)) in
  let? auth := must (tool_auth read_file parse_auth env) in
  if t_cache a then
    let? dir := must (tool_cache_dir env) in
    let? '(c, reports) := cached_tool a r auth dir w in
    Ok (Cached c, GotReference r :: reports)
  else
    let? '(w, out, reports) := uncached_tool a r auth w in
    Ok (Uncached w out, GotReference r :: reports).
End tool.

(** * Lemmas *)

Lemma must_Ok {A} (o : option A) a : must o = Ok a -> o = Some a.
Proof. by destruct o; intros [= ->]. Qed.
Lemma unwrap_Ok {E A} (r : result E A) a : unwrap r = Ok a -> r = Ok a.
Proof. by destruct r; intros [= ->]. Qed.
Lemma ask_Ok {A} (m : M A) w w' x : ask m w = Ok (w', x) -> m w = (w', Ok x).
Proof.
  unfold ask. destruct (m w) as [w1 r]. intros E. apply rbind_Ok_inv in E as (y & Hy & E).
  apply unwrap_Ok in Hy as ->. by simplify_eq.
Qed.

Section tool_lemmas.
Context (timestamp_ok : Z -> bool) (parse_token : bstr -> option (bstr * option Z)).
Context (sha256 : bstr -> list byte) (algorithm_str : OciImage.DigestAlgorithm -> bstr).
Context {O : Type} (create : bstr -> option O) (write : O -> bstr -> O * bool) (flush : O -> O * bool).
Context (file_size : O -> option Z).

(** The output of a layer: the chunks of data with the hash and the size that the
    descriptor has, flushed. *)
Definition layer_written (path : bstr) (d : OciImage.Descriptor) (data : bstr) (out : O) : Prop :=
  exists wr wr1 wr2 cs, create path = Some wr /\ write_seq write wr cs = (wr1, true) /\
    flush wr1 = (wr2, true) /\ flush wr2 = (out, true) /\ data = concat cs /\ OciImage.size d = zlen data /\
    OciImage.algorithm (OciImage.desc_digest d) = OciImage.Sha256 /\
    OciImage.digest (OciImage.desc_digest d) = hex_encode (sha256 data).

Lemma write_layer_Ok a r m w w' out reports :
  write_layer timestamp_ok parse_token sha256 algorithm_str create write flush file_size a r m w = Ok (w', out, reports) ->
  match outfile a with
  | None => out = None /\ reports = []
  | Some path => exists d data o n, manifest_layers m !! 0%nat = Some d /\ layer_written path d data o /\
      out = Some o /\ file_size o = Some n /\ reports = [Wrote (zlen data) n]
  end.
Proof.
  unfold write_layer. destruct (outfile a) as [path|]; [|by intros [= <- <- <-]].
  intros E. apply rbind_Ok_inv in E as (wr & Hc & E). apply rbind_Ok_inv in E as (d & Hd & E).
  destruct (OciDist.get_blob _ _ _ _ _ _ _ _ _ _) as [w1 [wr1 res]] eqn:Eb.
  apply rbind_Ok_inv in E as (o & Hr & E). apply rbind_Ok_inv in E as (len & Hl & E).
  apply must_Ok in Hc, Hd, Hl. apply unwrap_Ok in Hr. subst res o.
  apply get_blob_spec in Eb as (cs & wr0 & ok & Hw & _ & Hs). destruct (Hs len eq_refl) as (-> & Hf & -> & Hsz & Ha & Hh & _).
  destruct (flush wr1) as [wr2 [|]] eqn:Ef; [|discriminate E].
  apply rbind_Ok_inv in E as (n & Hn & E). apply must_Ok in Hn. injection E as <- <- <-.
  exists d, (concat cs), wr2, n. split; [done|]. split; [|done]. exists wr, wr0, wr1, cs. by split_and!.
Qed.
End tool_lemmas.

Lemma resolve_Ok timestamp_ok parse_token sha256 digest_parse parse_index parse_manifest media_type_of algorithm_str
    r w w' r' :
  resolve timestamp_ok parse_token sha256 digest_parse parse_index parse_manifest media_type_of algorithm_str r w
    = Ok (w', r') ->
  exists s, ref_digest r' = Some s /\ forall s0, ref_digest r = Some s0 -> s = s0.
Proof.
  unfold resolve. destruct (ref_digest r) as [s|] eqn:Hd.
  - intros [= <- <-]. exists s. split; [done|]. by intros s0 [= ->].
  - intros E. apply rbind_Ok_inv in E as ([w1 d] & _ & E). apply rbind_Ok_inv in E as (d' & _ & E).
    injection E as <- <-. eexists. by split.
Qed.

Lemma show_Ok jq_ok a data report x :
  show jq_ok a data report = Ok x -> x = if t_json a then Jq data else report.
Proof. unfold show. destruct (t_json a), (jq_ok data); congruence. Qed.

(** * Properties *)

(** C16: what the tool reports and writes without the cache is authentic.  When it
    ends normally, the manifest that it shows has the SHA-256 of the digest it was
    fetched by (the digest of the reference when that has one), the configuration
    the one that the manifest names, and an output file got exactly the chunks of
    data with the size and the SHA-256 of the manifest's first layer, which must
    exist; the number of bytes it reports is that size. *)
Theorem tool_output_authentic {F W} `{FileSystem F} `{!BufWriter F W} timestamp_ok parse_token sha256 digest_parse
    parse_index parse_manifest parse_configuration media_type_of algorithm_str reference_to_string reference_parse
    packed_encode packed_decode entries_encode entries_decode to_str (listing : F -> list (result Errno DirEntry))
    open_dirs jq_ok {O} create (write : O -> bstr -> O * bool) flush file_size read_file parse_auth env a w w' out reports :
  ocidist_main (W := W) timestamp_ok parse_token sha256 digest_parse parse_index parse_manifest parse_configuration
    media_type_of algorithm_str reference_to_string reference_parse packed_encode packed_decode entries_encode
    entries_decode to_str listing open_dirs jq_ok create write flush file_size read_file parse_auth env a w
    = Ok (Uncached w' out, reports) ->
  exists r s dg data m cdata ic wrote,
    reference_parse (image_ref a) = Some r /\ (forall s0, ref_digest r = Some s0 -> s = s0) /\
    digest_parse s = Some dg /\ OciImage.algorithm dg = OciImage.Sha256 /\
    OciImage.digest dg = hex_encode (sha256 data) /\ parse_manifest data = Some m /\
    OciImage.digest (OciImage.desc_digest (manifest_config m)) = hex_encode (sha256 cdata) /\
    parse_configuration cdata = Some ic /\
    reports = GotReference r ::
      (if t_json a then [Jq data; Jq cdata] else [GotManifest m; GotConfiguration ic]) ++ wrote /\
    match outfile a with
    | None => out = None /\ wrote = []
    | Some path => exists d blob o n, manifest_layers m !! 0%nat = Some d /\
        layer_written sha256 create write flush path d blob o /\
        out = Some o /\ file_size o = Some n /\ wrote = [Wrote (zlen blob) n]
    end.
Proof.
  unfold ocidist_main. intros E. apply rbind_Ok_inv in E as (r & Hr & E). apply must_Ok in Hr.
  apply rbind_Ok_inv in E as (auth & _ & E). destruct (t_cache a).
  { apply rbind_Ok_inv in E as (dir & _ & E). apply rbind_Ok_inv in E as ([c rs] & _ & E). discriminate E. }
  apply rbind_Ok_inv in E as ([[w1 o] rs] & E & Ho). injection Ho as -> -> <-.
  unfold uncached_tool in E. destruct (OciDist.set_auth _ _) as [w0 _].
  apply rbind_Ok_inv in E as ([w2 r'] & Hres & E). apply resolve_Ok in Hres as (s & Hs & Hs0).
  apply rbind_Ok_inv in E as ([w3 res] & Hm & E). apply rbind_Ok_inv in E as (im & Him & E).
  apply must_Ok in Him. subst res. apply ask_Ok, get_image_manifest_spec in Hm as (Ha & Hh & Hd).
  apply rbind_Ok_inv in E as (m & Hp & E). apply rbind_Ok_inv in E as (x1 & Hx1 & E).
  apply rbind_Ok_inv in E as ([w4 cres] & Hc & E). apply rbind_Ok_inv in E as (ic & Hic & E).
  apply must_Ok in Hic. subst cres. apply ask_Ok, get_image_configuration_spec in Hc as (_ & Hch & _).
  apply rbind_Ok_inv in E as (conf & Hconf & E). apply rbind_Ok_inv in E as (x2 & Hx2 & E).
  apply rbind_Ok_inv in E as ([[w5 o'] wrote] & Hw & E). injection E as -> -> <-.
  apply must_Ok in Hp, Hconf. apply show_Ok in Hx1 as ->, Hx2 as ->. apply write_layer_Ok in Hw.
  exists r, s, (im_digest im), (im_data im), m, (ic_data ic), conf, wrote. split_and!; [done|done|by apply Hd|done..| |done].
  by destruct (t_json a).
Qed.

Definition example_tool_args (cache : bool) : ToolArgs :=
  {| image_ref := []; t_blobs := true; t_cache := cache; t_json := false; outfile := Some (bs "layer") |}.
Definition example_tool (cache : bool) : result unit (ToolEnd * list Report) :=
  ocidist_main (F := MemFs) (W := nat * bstr) (fun _ => true) (fun _ => None) example_sha256 example_digest_parse
    (fun _ => None) example_parse_manifest example_parse_configuration (fun _ => OciImage.ImageLayer)
    example_alg (fun _ => []) (fun _ => Some example_ref) example_encode example_decode (fun _ => Some [])
    (fun _ => Some []) Some (fun _ => []) (fun _ => Ok (example_fs, example_fs)) (fun _ => true)
    (fun _ => Some []) append no_flush (fun b => Some (zlen b)) (fun _ => None) (fun _ => None)
    [(bs "HOME", bs "/root")] (example_tool_args cache) example_registry.

Lemma tool_output_authentic_witness :
  exists w' reports, example_tool false = Ok (Uncached w' (Some [x61; x62; x63]), reports) /\
    last reports = Some (Wrote 3 3) /\
    exists m d blob o, manifest_layers m !! 0%nat = Some d /\
      layer_written example_sha256 (fun _ => Some []) append no_flush (bs "layer") d blob o /\ o = [x61; x62; x63].
Proof.
  assert (exists w' reports, example_tool false = Ok (Uncached w' (Some [x61; x62; x63]), reports) /\
    last reports = Some (Wrote 3 3)) as (w' & reports & E & Hl).
  { do 2 eexists. split; [vm_compute; reflexivity|reflexivity]. }
  exists w', reports. split; [exact E|]. split; [exact Hl|].
  destruct (tool_output_authentic (F := MemFs) (W := nat * bstr) (fun _ => true) (fun _ => None) example_sha256
    example_digest_parse (fun _ => None) example_parse_manifest example_parse_configuration (fun _ => OciImage.ImageLayer)
    example_alg (fun _ => []) (fun _ => Some example_ref) example_encode example_decode (fun _ => Some [])
    (fun _ => Some []) Some (fun _ => []) (fun _ => Ok (example_fs, example_fs)) (fun _ => true)
    (fun _ => Some []) append no_flush (fun b => Some (zlen b)) (fun _ => None) (fun _ => None)
    [(bs "HOME", bs "/root")] (example_tool_args false) example_registry w' (Some [x61; x62; x63]) reports E)
    as (r & s & dg & data & m & cdata & ic & wrote & _ & _ & _ & _ & _ & _ & _ & _ & _ & Hout).
  destruct Hout as (d & blob & o & n & Hd & Hw & Ho & _). exists m, d, blob, o. by simplify_eq.
Defined.

(** With the cache the same image is shown, its layer is kept under its digest,
    and the counters say that nothing was cached before. *)
Example cached_run : exists c, example_tool true =
  Ok (Cached c, [GotReference example_ref; GotPacked example_mc; GotLayers [1%nat];
    GotStats (inc_blob false (inc_manifest false no_counts))]) /\ content (blobs c) 1%nat = [x61; x62; x63].
Proof. eexists. split; vm_compute; reflexivity. Qed.
