(* ===== verification/VmPool.v ===== *)
(** Running virtual machines (src/waitid_timeout/src/lib.rs,
    src/perunner/src/cloudhypervisor.rs, src/perunner/src/worker.rs).

    A worker thread starts the hypervisor for a request, waits for it at most a
    given time, kills it otherwise, and hands the io file back.  The kernel's
    process calls are an interface with their documented behaviour.  The pool is
    a state machine of a bounded queue and threads that can panic; its theorems
    say where every accepted request is, that none is run twice, and what a caller
    that goes away does to the pool.  [cpuset] gives the threads their cores. *)
From stdpp Require Import option base list sets numbers strings gmap.
From Stdlib Require Import ZArith Lia.
From S2P Require Import Prelude BTree Text MemFile IoFile.
#[local] Open Scope Z_scope.

(** * Waiting for a process (waitid_timeout) *)

(** The parts of [siginfo_t] that are read. *)
Record siginfo_t := { si_pid : Z; si_code : Z; si_status : Z }.

Inductive WaitIdData := Exited (siginfo : siginfo_t) (rusage : Rusage) | NotExited.
Inductive WaitIdDataOvertime :=
  | OExited (siginfo : siginfo_t) (rusage : Rusage)
  | OExitedOvertime (siginfo : siginfo_t) (rusage : Rusage)
  | ONotExited.

Inductive Siginfo :=
  | SExited (status : Z) | SKilled (status : Z) | SDumped (status : Z) | STrapped (status : Z)
  | SStopped (status : Z) | SContinued (status : Z) | SUnk.

#[export] Instance Siginfo_eq_dec : EqDecision Siginfo.
Proof. solve_decision. Defined.

Definition CLD_EXITED : Z := 1.
Definition CLD_KILLED : Z := 2.
Definition CLD_DUMPED : Z := 3.
Definition CLD_TRAPPED : Z := 4.
Definition CLD_STOPPED : Z := 5.
Definition CLD_CONTINUED : Z := 6.
Definition SIGKILL : Z := 9.

Definition Siginfo_from (x : siginfo_t) : Siginfo :=
  let status := si_status x in
  if si_code x =? CLD_EXITED then SExited status
  else if si_code x =? CLD_KILLED then SKilled status
  else if si_code x =? CLD_DUMPED then SDumped status
  else if si_code x =? CLD_TRAPPED then STrapped status
  else if si_code x =? CLD_STOPPED then SStopped status
  else if si_code x =? CLD_CONTINUED then SContinued status
  else SUnk.

Inductive IdType := P_PID | P_PIDFD.

(** The system calls on a child and its descriptor: a descriptor is opened for
    it and registered with a new poll; the poll with a timeout says whether there
    is an event; [waitid] has the return value and what it stored. *)
Class Kernel (K : Type) := {
  sys_pidfd_open : K -> K * bool;
  sys_poll_register : K -> K * bool;
  sys_poll : Duration -> K -> K * result unit bool;
  sys_waitid : IdType -> bool -> K -> K * (Z * siginfo_t * Rusage);  (** with WNOHANG or without *)
  sys_pidfd_kill : Z -> K -> K * result unit unit;
}.

Section waiting.
Context {K : Type} `{Kernel K}.

Definition waitid (idtype : IdType) (nohang : bool) (k : K) : K * result unit WaitIdData :=
  let '(k, (ret, siginfo, rusage)) := sys_waitid idtype nohang k in
  (k, if ret =? 0 then
        if si_pid siginfo =? 0 then Ok NotExited else Ok (Exited siginfo rusage)
      else Err tt).

(** An open descriptor is not negative, so its conversion does not fail. *)
Definition waitid_pidfd_exited_nohang (k : K) : K * result unit WaitIdData := waitid P_PIDFD true k.
Definition waitid_pidfd_exited_hang (k : K) : K * result unit WaitIdData := waitid P_PIDFD false k.
Definition waitid_pid_exited_nohang (k : K) : K * result unit WaitIdData := waitid P_PID true k.

Definition PidFdWaiter_new (k : K) : K * result unit unit :=
  let '(k, ok) := sys_poll_register k in (k, if ok then Ok tt else Err tt).

Definition PidFdWaiter_kill (signal : Z) (k : K) : K * result unit unit := sys_pidfd_kill signal k.

Definition wait_timeout (d : Duration) (k : K) : K * result unit WaitIdData :=
  match sys_poll d k with
  | (k, Ok true) => waitid_pidfd_exited_nohang k
  | (k, Ok false) => (k, Ok NotExited)
  | (k, Err e) => (k, Err e)
  | (k, Panic) => (k, Panic)
  end.

Definition wait_timeout_or_kill (d : Duration) (k : K) : K * result unit WaitIdDataOvertime :=
  match wait_timeout d k with
  | (k, Ok NotExited) =>
      match PidFdWaiter_kill SIGKILL k with
      | (k, Ok _) =>
          match waitid_pidfd_exited_hang k with
          | (k, Ok (Exited si ru)) => (k, Ok (OExitedOvertime si ru))
          | (k, Ok NotExited) => (k, Ok ONotExited)
          | (k, Err e) => (k, Err e)
          | (k, Panic) => (k, Panic)
          end
      | (k, Err e) => (k, Err e)
      | (k, Panic) => (k, Panic)
      end
  | (k, Ok (Exited si ru)) => (k, Ok (OExited si ru))
  | (k, Err e) => (k, Err e)
  | (k, Panic) => (k, Panic)
  end.

(** The extension of [Child]: a descriptor is opened and a waiter made for each
    wait. *)
Definition with_waiter {A} (wait : K -> K * result unit A) (k : K) : K * result unit A :=
  match sys_pidfd_open k with
  | (k, false) => (k, Err tt)
  | (k, true) =>
      match PidFdWaiter_new k with
      | (k, Ok _) => wait k
      | (k, Err e) => (k, Err e)
      | (k, Panic) => (k, Panic)
      end
  end.
Definition child_wait_timeout (d : Duration) : K -> K * result unit WaitIdData := with_waiter (wait_timeout d).
Definition child_wait_timeout_or_kill (d : Duration) : K -> K * result unit WaitIdDataOvertime :=
  with_waiter (wait_timeout_or_kill d).
End waiting.

(** * The hypervisor (cloudhypervisor.rs) *)

Inductive ChError :=
  | Unk | TempfileSetup | Spawn | SpawnWithArgs (args : list bstr) | Socket | Overtime | Wait
  | BadExit | FdSetup.

Inductive ChLogLevel := Warn | Info | Debug | Trace.

Definition ChLogLevel_try_from (x : bstr) : option ChLogLevel :=
  if bool_decide (x = bytes_of_string "warn") then Some Warn
  else if bool_decide (x = bytes_of_string "info") then Some Info
  else if bool_decide (x = bytes_of_string "debug") then Some Debug
  else if bool_decide (x = bytes_of_string "trace") then Some Trace
  else None.

Inductive CloudHypervisorPmemMode := ReadOnly | ReadWrite.

Definition discard_writes (m : CloudHypervisorPmemMode) : bstr :=
  match m with ReadOnly => bytes_of_string "on" | ReadWrite => bytes_of_string "off" end.

Inductive PathBufOrOwnedFd := PathBuf (p : bstr) | Fd (fd : Z).

Record CloudHypervisorConfig := {
  bin : bstr; kernel : bstr; initramfs : bstr; console : bool; log_level : option ChLogLevel;
  keep_args : bool; event_monitor : bool;
}.

(** The files that are kept are named by their paths. *)
Record CloudHypervisorLogs := {
  log_file : option bstr; con_file : option bstr; err_file : option bstr;
}.
Record CloudHypervisorPostMortem := {
  pm_error : ChError; pm_logs : CloudHypervisorLogs; pm_args : option (list bstr);
}.
Record CloudHypervisor := {
  ch_log_file : option bstr; ch_con_file : option bstr; ch_err_file : bstr; ch_args : list bstr;
}.

Definition PostMortem_from (e : ChError) : CloudHypervisorPostMortem :=
  {| pm_error := e; pm_args := None;
     pm_logs := {| log_file := None; con_file := None; err_file := None |} |}.

Record FdMapping := { parent_fd : Z; child_fd : Z }.

Definition bs : string -> bstr := bytes_of_string.

(** The [map] over the pmems: descriptors get the numbers from [cur] upwards. *)
Fixpoint pmem_paths (cur : Z) (pmems : list (PathBufOrOwnedFd * CloudHypervisorPmemMode))
    : list (bstr * CloudHypervisorPmemMode) * list FdMapping :=
  match pmems with
  | [] => ([], [])
  | (PathBuf p, mode) :: pmems =>
      let '(paths, maps) := pmem_paths cur pmems in ((p, mode) :: paths, maps)
  | (Fd fd, mode) :: pmems =>
      let '(paths, maps) := pmem_paths (cur + 1) pmems in
      ((bs "/dev/fd/" ++ print_uint cur, mode) :: paths, {| parent_fd := fd; child_fd := cur |} :: maps)
  end.

Section hypervisor.
(** The [Debug] form of a path, the three temporary files, and whether the one for
    the errors can be opened again. *)
Context (path_debug : bstr -> bstr) (tempfile : string -> option bstr) (reopen : bstr -> bool).
Context {K : Type} `{Kernel K}.
(** [fd_mappings] and [spawn] of the command. *)
Context (set_fd_mappings : list FdMapping -> bool).
Context (spawn : bstr -> list bstr -> list FdMapping -> K -> option K).

Definition pmem_arg (p : bstr * CloudHypervisorPmemMode) : bstr :=
  bs "file=" ++ path_debug p.1 ++ bs ",discard_writes=" ++ discard_writes p.2.

Definition ch_command (config : CloudHypervisorConfig) (log con : bstr)
    (pmems : list (bstr * CloudHypervisorPmemMode)) : list bstr :=
  [bs "--kernel"; kernel config; bs "--initramfs"; initramfs config; bs "--cpus"; bs "boot=1";
   bs "--memory"; bs "size=1024M"] ++
  (if console config
   then [bs "--cmdline"; bs "console=hvc0"; bs "--console"; bs "file=" ++ path_debug con]
   else [bs "--console"; bs "off"]) ++
  (if event_monitor config then [bs "--event-monitor"; bs "fd=2"] else []) ++
  match log_level config with
  | Some level => [bs "--log-file"; log] ++
      match level with Warn => [] | Info => [bs "-v"] | Debug => [bs "-vv"] | Trace => [bs "-vvv"] end
  | None => []
  end ++
  (if bool_decide (pmems = []) then [] else [bs "--pmem"]) ++ (pmem_arg <$> pmems).

Definition start (config : CloudHypervisorConfig) (pmems : list (PathBufOrOwnedFd * CloudHypervisorPmemMode))
    (k : K) : K * result ChError CloudHypervisor :=
  match tempfile "err-", tempfile "log-", tempfile "con-" with
  | Some err, Some log, Some con =>
      let '(paths, maps) := pmem_paths 3 pmems in
      let command := ch_command config log con paths in
      let args := if keep_args config then command else [] in
      if negb (reopen err) then (k, Panic)
      else if set_fd_mappings maps then
        match spawn (bin config) command maps k with
        | Some k =>
            (k, Ok {| ch_err_file := err; ch_args := args;
                      ch_log_file := (match log_level config with Some _ => Some log | None => None end);
                      ch_con_file := (if console config then Some con else None) |})
        | None => (k, Err (SpawnWithArgs args))
        end
      else (k, Err FdSetup)
  | _, _, _ => (k, Err TempfileSetup)
  end.

(** [Child::kill] is ignored when it fails, as for a child that has exited. *)
Definition ch_kill (k : K) : K := fst (sys_pidfd_kill SIGKILL k).

Definition postmortem (ch : CloudHypervisor) (e : ChError) (k : K) : K * CloudHypervisorPostMortem :=
  (ch_kill k,
   {| pm_error := e; pm_args := Some (ch_args ch);
      pm_logs := {| log_file := ch_log_file ch; con_file := ch_con_file ch; err_file := Some (ch_err_file ch) |} |}).

Definition into_logs (ch : CloudHypervisor) (k : K) : K * CloudHypervisorLogs :=
  (ch_kill k,
   {| log_file := ch_log_file ch; con_file := ch_con_file ch; err_file := Some (ch_err_file ch) |}).

(** * One run (worker.rs) *)

Record Input := {
  i_id : Z; ch_config : CloudHypervisorConfig; image : PathBufOrOwnedFd; i_io_file : Z;
  ch_timeout : Duration;
}.
Record Output := { o_id : Z; o_io_file : Z; ch_logs : CloudHypervisorLogs }.
Definition OutputResult : Type := Output + CloudHypervisorPostMortem.

(** The io file is named by its descriptor; [clone] duplicates it. *)
Definition run (clone : Z -> option Z) (input : Input) (k : K) : K * result Empty_set OutputResult :=
  match clone (i_io_file input) with
  | None => (k, Panic)
  | Some io =>
      match start (ch_config input) [(image input, ReadOnly); (Fd io, ReadWrite)] k with
      | (k, Err e) => (k, Ok (inr (PostMortem_from e)))
      | (k, Panic) => (k, Panic)
      | (k, Ok ch) =>
          let fail e k := let '(k, pm) := postmortem ch e k in (k, Ok (inr pm)) in
          match child_wait_timeout_or_kill (ch_timeout input) k with
          | (k, Ok ONotExited) => (k, Panic)
          | (k, Ok (OExited si _)) =>
              if bool_decide (Siginfo_from si <> SExited 0) then fail BadExit k
              else let '(k, logs) := into_logs ch k in
                   (k, Ok (inl {| o_id := i_id input; o_io_file := i_io_file input; ch_logs := logs |}))
          | (k, Ok (OExitedOvertime _ _)) => fail Overtime k
          | (k, Err _) => fail Wait k
          | (k, Panic) => (k, Panic)
          end
      end
  end.
End hypervisor.

(** * The pool of threads (worker.rs, asynk)

    [N] threads take requests from a queue of [2 N] places.  A thread that finds
    that the receiver of its answer is gone returns, which ends the thread, and so
    does a panic: of the [unwrap] of [sched_setaffinity] at its start, or of a run
    ([run] gives [Panic]), whose caller then gets an error in place of the output
    because the sender is dropped with the thread. *)

Inductive Thread := Starting | Idle | Busy (request : nat) | Gone.

#[export] Instance Thread_eq_dec : EqDecision Thread.
Proof. solve_decision. Defined.

Record Pool := {
  threads : list Thread;
  queue : list nat;
  submitted : nat;          (** requests have the numbers below this one *)
  abandoned : list nat;     (** their callers are gone *)
  answered : list nat;      (** their callers got the output *)
  unheard : nat;            (** runs whose output nobody received *)
  crashed : list nat;       (** their runs panicked, their callers got an error *)
  unstarted : nat;          (** threads that panicked at their start *)
  dropped : list nat;       (** thrown away by the queue, their callers got an error *)
}.

Definition Pool_new (cores : nat) : Pool :=
  {| threads := replicate cores Starting; queue := []; submitted := 0; abandoned := []; answered := [];
     unheard := 0; crashed := []; unstarted := 0; dropped := [] |}.

Inductive PoolEvent :=
  | Submit                     (** [try_send] of a request *)
  | Abandon (r : nat)          (** the future that waits for the answer is dropped *)
  | Start (t : nat) (ok : bool) (** [sched_setaffinity(..).unwrap()] of a thread *)
  | Take (t : nat)             (** a thread receives from the queue *)
  | Finish (t : nat)           (** [output.send(run(msg))] *)
  | Crash (t : nat)            (** [run(msg)] panics *)
  | Discard.                   (** the queue without receivers drops what it holds *)

Definition live_threads (s : Pool) : nat := length (filter (fun t => t <> Gone) (threads s)).

(** The requests whose callers have got something, the output or an error. *)
Definition settled (s : Pool) : list nat := answered s ++ crashed s ++ dropped s.

(** The second component is whether a submission was accepted; the queue refuses
    when it is full and when no thread is left to receive. *)
Definition pool_step (s : Pool) (e : PoolEvent) : option (Pool * bool) :=
  match e with
  | Submit =>
      if (length (queue s) <? 2 * length (threads s))%nat && negb (live_threads s =? 0)%nat then
        Some ({| threads := threads s; queue := queue s ++ [submitted s]; submitted := S (submitted s);
                 abandoned := abandoned s; answered := answered s; unheard := unheard s;
                 crashed := crashed s; unstarted := unstarted s; dropped := dropped s |}, true)
      else Some (s, false)
  | Abandon r =>
      if (r <? submitted s)%nat && negb (bool_decide (r ∈ abandoned s)) && negb (bool_decide (r ∈ settled s))
      then Some ({| threads := threads s; queue := queue s; submitted := submitted s;
                    abandoned := r :: abandoned s; answered := answered s; unheard := unheard s;
                    crashed := crashed s; unstarted := unstarted s; dropped := dropped s |}, false)
      else None
  | Start t ok =>
      match threads s !! t with
      | Some Starting =>
          Some ({| threads := <[t := if ok then Idle else Gone]> (threads s); queue := queue s;
                   submitted := submitted s; abandoned := abandoned s; answered := answered s;
                   unheard := unheard s; crashed := crashed s;
                   unstarted := if ok then unstarted s else S (unstarted s); dropped := dropped s |}, false)
      | _ => None
      end
  | Take t =>
      match threads s !! t, queue s with
      | Some Idle, r :: q =>
          Some ({| threads := <[t := Busy r]> (threads s); queue := q; submitted := submitted s;
                   abandoned := abandoned s; answered := answered s; unheard := unheard s;
                   crashed := crashed s; unstarted := unstarted s; dropped := dropped s |}, false)
      | _, _ => None
      end
  | Finish t =>
      match threads s !! t with
      | Some (Busy r) =>
          if bool_decide (r ∈ abandoned s)
          then Some ({| threads := <[t := Gone]> (threads s); queue := queue s; submitted := submitted s;
                        abandoned := abandoned s; answered := answered s; unheard := S (unheard s);
                        crashed := crashed s; unstarted := unstarted s; dropped := dropped s |}, false)
          else Some ({| threads := <[t := Idle]> (threads s); queue := queue s; submitted := submitted s;
                        abandoned := abandoned s; answered := r :: answered s; unheard := unheard s;
                        crashed := crashed s; unstarted := unstarted s; dropped := dropped s |}, false)
      | _ => None
      end
  | Crash t =>
      match threads s !! t with
      | Some (Busy r) =>
          Some ({| threads := <[t := Gone]> (threads s); queue := queue s; submitted := submitted s;
                   abandoned := abandoned s; answered := answered s; unheard := unheard s;
                   crashed := r :: crashed s; unstarted := unstarted s; dropped := dropped s |}, false)
      | _ => None
      end
  | Discard =>
      if (live_threads s =? 0)%nat
      then Some ({| threads := threads s; queue := []; submitted := submitted s;
                    abandoned := abandoned s; answered := answered s; unheard := unheard s;
                    crashed := crashed s; unstarted := unstarted s; dropped := queue s ++ dropped s |}, false)
      else None
  end.

Inductive pool_reachable (cores : nat) : Pool -> Prop :=
  | pool_init : pool_reachable cores (Pool_new cores)
  | pool_next s e s' b :
      pool_reachable cores s -> pool_step s e = Some (s', b) -> pool_reachable cores s'.

Fixpoint pool_run (s : Pool) (es : list PoolEvent) : option Pool :=
  match es with [] => Some s | e :: es => '(s, _) ← pool_step s e; pool_run s es end.

(** * Cores

    [is_set] is the affinity of the process; a set of cores is a set of numbers. *)
Section cpusets.
Context (is_set : Z -> bool).

Fixpoint cpuset_cores (k : Z) (n : nat) : option (gset Z) :=
  match n with
  | O => Some ∅
  | S n => if is_set k then c ← cpuset_cores (wadd 64 k 1) n; Some ({[k]} ∪ c) else None
  end.

Definition cpuset (core_offset n_workers n_cores_per_worker : Z) : option (list (gset Z)) :=
  if core_offset mod 2 =? 1 then None
  else if n_cores_per_worker mod 2 =? 1 then None
  else mapM (fun i => cpuset_cores (wadd 64 core_offset (wmul 64 i n_cores_per_worker))
                        (Z.to_nat n_cores_per_worker)) (seqZ 0 n_workers).

(** [begin..=end], or the cores from [begin] that are set. *)
Definition cpuset_range (count begin : Z) (end_ : option Z) : option (gset Z) :=
  match end_ with
  | Some e => if e <? begin then None
              else cpuset_cores begin (Z.to_nat (e - begin + 1))
  | None => Some (list_to_set (filter (fun i => is_set i = true) (seqZ begin (count - begin))))
  end.
End cpusets.

(** * Lemmas *)

(** ** Processes *)

(** A child: running, perhaps with a pending kill, ended and not waited for, or
    waited for. *)
Inductive ChildState := Running (killed : bool) | Zombie (si : siginfo_t) | Reaped.

Class KernelLaws (K : Type) `{Kernel K} := {
  child : K -> ChildState;
  (** Opening and registering do not wait for the child, which can end. *)
  open_spec k k' ok : sys_pidfd_open k = (k', ok) -> child k <> Reaped -> child k' <> Reaped;
  register_spec k k' ok : sys_poll_register k = (k', ok) -> child k <> Reaped -> child k' <> Reaped;
  (** A child can end during a poll; an event means that it has ended. *)
  poll_spec d k k' r : sys_poll d k = (k', r) -> child k <> Reaped ->
    r <> Panic /\ child k' <> Reaped /\ (r = Ok true -> exists si, child k' = Zombie si);
  (** An ended child is reported once; WNOHANG stores a pid of 0 if there is
      nothing to report; without it the call blocks, which ends after a kill. *)
  waitid_spec id nohang k k' ret si ru : sys_waitid id nohang k = (k', (ret, si, ru)) ->
    (forall si0, child k = Zombie si0 -> ret = 0 /\ si = si0 /\ si_pid si <> 0 /\ child k' = Reaped) /\
    (child k = Running true -> nohang = false -> ret = 0 /\ si_pid si <> 0 /\ child k' = Reaped);
  kill_spec k k' r : sys_pidfd_kill SIGKILL k = (k', r) -> child k <> Reaped ->
    r = Ok tt /\ (child k' = Running true \/ exists si, child k' = Zombie si);
  kill_reaped k k' r sig : sys_pidfd_kill sig k = (k', r) -> child k = Reaped -> child k' = Reaped;
}.

Section supervision.
Context {K : Type} `{KernelLaws K}.

Lemma waitid_zombie id nohang k si : child k = Zombie si ->
  exists k' ru, waitid id nohang k = (k', Ok (Exited si ru)) /\ child k' = Reaped.
Proof.
  intros Hz. unfold waitid. destruct (sys_waitid id nohang k) as [k' [[ret si'] ru]] eqn:E.
  apply waitid_spec in E as [E _]. destruct (E si Hz) as (-> & -> & Hp & Hr). simpl.
  rewrite (proj2 (Z.eqb_neq _ _) Hp). eauto.
Qed.

Lemma waitid_killed id k : child k = Running true \/ (exists si, child k = Zombie si) ->
  exists k' si ru, waitid id false k = (k', Ok (Exited si ru)) /\ child k' = Reaped.
Proof.
  intros [Hk|[si Hz]]; [|destruct (waitid_zombie id false k si Hz) as (k' & ru & ?); eauto].
  unfold waitid. destruct (sys_waitid id false k) as [k' [[ret si] ru]] eqn:E.
  apply waitid_spec in E as [_ E]. destruct (E Hk eq_refl) as (-> & Hp & Hr). simpl.
  rewrite (proj2 (Z.eqb_neq _ _) Hp). eauto.
Qed.

(** Waiting ends with the child waited for, or with the error of the poll. *)
Lemma wait_timeout_or_kill_spec d k :
  child k <> Reaped ->
  exists k' r, wait_timeout_or_kill d k = (k', r) /\
    ((exists e, r = Err e) /\ child k' <> Reaped \/
     child k' = Reaped /\ exists si ru, r = Ok (OExited si ru) \/ r = Ok (OExitedOvertime si ru)).
Proof.
  intros Hc. unfold wait_timeout_or_kill, wait_timeout, PidFdWaiter_kill.
  destruct (sys_poll d k) as [k1 r1] eqn:E1. apply poll_spec in E1 as (Hp & Hc1 & Hz); [|done].
  destruct r1 as [[|]|e|]; [| | |done].
  - destruct (Hz eq_refl) as [si Hsi].
    destruct (waitid_zombie P_PIDFD true k1 si Hsi) as (k2 & ru & E2 & Hr).
    unfold waitid_pidfd_exited_nohang. rewrite E2. do 2 eexists. split; [done|]. right. eauto.
  - destruct (sys_pidfd_kill SIGKILL k1) as [k2 r2] eqn:E2. apply kill_spec in E2 as [-> Hk]; [|done].
    destruct (waitid_killed P_PIDFD k2 Hk) as (k3 & si & ru & E3 & Hr).
    unfold waitid_pidfd_exited_hang. rewrite E3. do 2 eexists. split; [done|]. right. eauto.
  - do 2 eexists. split; [done|]. left. eauto.
Qed.

Lemma PidFdWaiter_new_spec k k' r :
  PidFdWaiter_new k = (k', r) -> child k <> Reaped -> child k' <> Reaped /\ (r = Ok tt \/ r = Err tt).
Proof.
  unfold PidFdWaiter_new. destruct (sys_poll_register k) as [k1 ok] eqn:E. intros [= <- <-] Hc.
  split; [by eapply register_spec|]. destruct ok; auto.
Qed.

(** The same through the extension of [Child], where also the descriptor or the
    poll can fail. *)
Lemma child_wait_timeout_or_kill_spec d k :
  child k <> Reaped ->
  exists k' r, child_wait_timeout_or_kill d k = (k', r) /\
    ((exists e, r = Err e) /\ child k' <> Reaped \/
     child k' = Reaped /\ exists si ru, r = Ok (OExited si ru) \/ r = Ok (OExitedOvertime si ru)).
Proof.
  intros Hc. unfold child_wait_timeout_or_kill, with_waiter.
  destruct (sys_pidfd_open k) as [k1 ok] eqn:E1. apply open_spec in E1; [|done].
  destruct ok; [|by exists k1, (Err tt); split; [|left; split; [exists tt|]]].
  destruct (PidFdWaiter_new k1) as [k2 r] eqn:E2. apply PidFdWaiter_new_spec in E2 as [Hc2 [-> | ->]]; [|..|done].
  - by apply wait_timeout_or_kill_spec.
  - by exists k2, (Err tt); split; [|left; split; [exists tt|]].
Qed.

Lemma ch_kill_reaped k : child k = Reaped -> child (ch_kill k) = Reaped.
Proof.
  intros Hk. unfold ch_kill. destruct (sys_pidfd_kill SIGKILL k) as [k' r] eqn:E. by apply kill_reaped in E.
Qed.

Lemma ch_kill_killed k :
  child k <> Reaped -> child (ch_kill k) = Running true \/ exists si, child (ch_kill k) = Zombie si.
Proof.
  intros Hk. unfold ch_kill. destruct (sys_pidfd_kill SIGKILL k) as [k' r] eqn:E. by apply kill_spec in E as [_ ?].
Qed.

Lemma start_spec path_debug tempfile reopen set_fd_mappings spawn config pmems (k k' : K) r :
  start path_debug tempfile reopen set_fd_mappings spawn config pmems k = (k', r) ->
  (k' = k /\ r = Panic /\ exists err, tempfile "err-" = Some err /\ reopen err = false) \/
  (k' = k /\ exists e, r = Err e) \/
  exists ch log con, r = Ok ch /\
    spawn (bin config) (ch_command path_debug config log con (pmem_paths 3 pmems).1) (pmem_paths 3 pmems).2 k
    = Some k'.
Proof.
  unfold start. intros Es.
  destruct (tempfile "err-") as [err|], (tempfile "log-") as [log|], (tempfile "con-") as [con|];
    try (injection Es as <- <-; right; left; eauto).
  destruct (pmem_paths 3 pmems) as [paths maps].
  destruct (reopen err) eqn:Er; cbn [negb] in Es; [|injection Es as <- <-; left; by eauto].
  destruct (set_fd_mappings maps); [|injection Es as <- <-; right; left; eauto].
  destruct (spawn _ _ maps k) as [k0|] eqn:Esp; injection Es as <- <-; [|right; left; eauto].
  right. right. eauto 10.
Qed.

(** The number of a descriptor in the hypervisor is the one in its argument. *)
Lemma pmem_paths_spec cur pmems paths maps :
  pmem_paths cur pmems = (paths, maps) ->
  length paths = length pmems /\
  (forall i, maps !! i = None \/ exists fd, maps !! i = Some {| parent_fd := fd; child_fd := cur + Z.of_nat i |}) /\
  parent_fd <$> maps = omap (fun p => match p.1 with Fd fd => Some fd | PathBuf _ => None end) pmems.
Proof.
  revert cur paths maps. induction pmems as [|[[p|fd] mode] pmems IH]; intros cur paths maps; simpl.
  - intros [= <- <-]. split_and!; [done| |done]. intros i. by left.
  - destruct (pmem_paths cur pmems) as [ps ms] eqn:E. intros [= <- <-].
    destruct (IH _ _ _ E) as (Hl & Hm & Hf). split_and!; [by f_equal/=|done|done].
  - destruct (pmem_paths (cur + 1) pmems) as [ps ms] eqn:E. intros [= <- <-].
    destruct (IH _ _ _ E) as (Hl & Hm & Hf). split_and!; [by f_equal/=| |by f_equal/=].
    intros [|i]; simpl; [right; exists fd; by rewrite Z.add_0_r|].
    destruct (Hm i) as [?|[fd' Hi]]; [by left|right]. exists fd'. rewrite Hi. do 2 f_equal. lia.
Qed.
End supervision.

(** ** The pool *)

Definition busy (s : Pool) : list nat := omap (fun t => match t with Busy r => Some r | _ => None end) (threads s).

(** The requests that are somewhere, each in one place. *)
Definition places (s : Pool) : list nat := queue s ++ busy s ++ settled s.

(** The threads that are gone are those of the runs nobody heard, of the runs that
    panicked and those that did not start. *)
Record pool_ok (cores : nat) (s : Pool) : Prop := {
  pool_threads : length (threads s) = cores;
  pool_queue : (length (queue s) <= 2 * cores)%nat;
  pool_live : (live_threads s + unheard s + length (crashed s) + unstarted s = cores)%nat;
  pool_nodup : NoDup (places s);
  pool_bound : Forall (fun r => r < submitted s)%nat (places s);
  pool_conserved : (length (places s) + unheard s = submitted s)%nat;
  pool_heard : Forall (fun r => r ∉ abandoned s) (answered s);
  pool_dropped : dropped s <> [] -> live_threads s = 0%nat;
}.

Lemma pool_new_ok cores : pool_ok cores (Pool_new cores).
Proof.
  assert (busy (Pool_new cores) = []) as Hb.
  { unfold busy. simpl. by induction cores. }
  assert (live_threads (Pool_new cores) = cores) as Hl.
  { unfold live_threads. simpl. induction cores as [|n IH]; [done|]. simpl. by rewrite IH. }
  split; unfold places; rewrite ?Hb, ?Hl; simpl;
    [by rewrite length_replicate|lia|lia|constructor|constructor|done|constructor|done].
Qed.

(** A step that leaves every request somewhere. *)
Lemma places_step_ok cores s s' :
  pool_ok cores s -> length (threads s') = length (threads s) -> (length (queue s') <= length (queue s))%nat ->
  submitted s' = submitted s -> abandoned s' = abandoned s ->
  (live_threads s' + length (crashed s') + unstarted s' = live_threads s + length (crashed s) + unstarted s)%nat ->
  (live_threads s' <= live_threads s)%nat -> (dropped s' = dropped s \/ live_threads s = 0%nat) ->
  unheard s' = unheard s -> places s' ≡ₚ places s ->
  Forall (fun r => r ∉ abandoned s) (answered s') -> pool_ok cores s'.
Proof.
  intros [H1 H2 H3 H4 H5 H6 H7 H8] Ht Hq Hs Ha Hl Hle Hd Hu Hp Hh. split.
  - lia.
  - lia.
  - lia.
  - by rewrite Hp.
  - by rewrite Hp, Hs.
  - rewrite (Permutation_length Hp). lia.
  - by rewrite Ha.
  - intros Hne. destruct Hd as [Hd|Hd]; [rewrite Hd in Hne; apply H8 in Hne|]; lia.
Qed.

Lemma pool_submit_ok cores s s' b : pool_ok cores s -> pool_step s Submit = Some (s', b) -> pool_ok cores s'.
Proof.
  intros Hok. pose proof Hok as [H1 H2 H3 H4 H5 H6 H7 H8]. simpl.
  destruct (_ && _) eqn:E; [|by intros [= <- <-]]. intros [= <- <-].
  apply andb_true_iff in E as [Hq _]. apply Nat.ltb_lt in Hq.
  assert (submitted s ∉ places s) as Hnew.
  { intros Hin. rewrite Forall_forall in H5. apply H5 in Hin. lia. }
  assert ((queue s ++ [submitted s]) ++ busy s ++ settled s ≡ₚ submitted s :: places s) as Hp
    by (unfold places; solve_Permutation).
  split; unfold places; simpl; change (busy _) with (busy s); change (settled _) with (settled s);
    rewrite ?Hp; simpl.
  - done.
  - rewrite length_app. simpl. lia.
  - done.
  - by constructor.
  - constructor; [lia|]. eapply Forall_impl; [exact H5|]. simpl. lia.
  - fold (places s). rewrite <-H6. lia.
  - done.
  - done.
Qed.

(** Replacing the state of a thread. *)
Lemma live_insert s s' t x y :
  threads s !! t = Some x -> threads s' = <[t := y]> (threads s) -> x <> Gone ->
  live_threads s = (live_threads s' + match y with Gone => 1 | _ => 0 end)%nat.
Proof.
  intros Ht Hs Hx. destruct (insert_split _ t x y Ht) as (rest & Hr1 & Hr2).
  unfold live_threads. rewrite Hs, Hr2, Hr1, filter_cons_True by done.
  destruct y; [rewrite filter_cons_True by done.. |rewrite filter_cons_False by tauto]; simpl; lia.
Qed.

(** Notes what a step does to the number of live threads. *)
Ltac note_live s t Ht :=
  match goal with |- pool_ok _ ?s1 =>
    pose proof (live_insert s s1 t _ _ Ht eq_refl ltac:(done)) as Hl; simpl in Hl
  end.

Lemma pool_finish_ok cores s t s' b :
  pool_ok cores s -> pool_step s (Finish t) = Some (s', b) -> pool_ok cores s'.
Proof.
  intros Hok. pose proof Hok as [H1 H2 H3 H4 H5 H6 H7 H8]. simpl.
  destruct (threads s !! t) as [[| |r|]|] eqn:Ht; try done. case_bool_decide as Hab; intros [= <- <-].
  - match goal with |- pool_ok _ ?s1 => set (s' := s1) end.
    destruct (insert_split _ t (Busy r) Gone Ht) as (rest & Hr1 & Hr2).
    assert (places s ≡ₚ r :: places s') as Hp.
    { unfold places, busy, settled. simpl. rewrite Hr2, Hr1. simpl. solve_Permutation. }
    rewrite Hp in H4, H5, H6. apply NoDup_cons in H4 as [_ H4]. apply Forall_cons in H5 as [_ H5].
    note_live s t Ht.
    split; try done; cbn [threads s' crashed unstarted unheard submitted].
    + by rewrite length_insert.
    + lia.
    + simpl in H6. lia.
    + intros Hd. specialize (H8 Hd). lia.
  - destruct (insert_split _ t (Busy r) Idle Ht) as (rest & Hr1 & Hr2).
    note_live s t Ht. apply (places_step_ok cores s); simpl; try done.
    + by rewrite length_insert.
    + lia.
    + lia.
    + by left.
    + unfold places, busy, settled. simpl. rewrite Hr2, Hr1. simpl. solve_Permutation.
    + by constructor.
Qed.

Lemma pool_step_ok cores s e s' b : pool_ok cores s -> pool_step s e = Some (s', b) -> pool_ok cores s'.
Proof.
  intros Hok. pose proof Hok as [H1 H2 H3 H4 H5 H6 H7 H8]. destruct e as [|r|t ok|t|t|t|].
  - by apply pool_submit_ok.
  - simpl. destruct (_ && _) eqn:E; [|done]. intros [= <- <-]. apply andb_true_iff in E as [_ E].
    apply negb_true_iff, bool_decide_eq_false in E. split; try done. simpl.
    apply Forall_forall. intros r' Hr'. rewrite Forall_forall in H7.
    apply not_elem_of_cons. split; [|by apply H7]. intros ->. destruct E. by apply elem_of_app; left.
  - simpl. destruct (threads s !! t) as [[| | |]|] eqn:Ht; try done. intros [= <- <-].
    destruct (insert_split _ t Starting (if ok then Idle else Gone) Ht) as (rest & Hr1 & Hr2).
    note_live s t Ht. apply (places_step_ok cores s); simpl; try done.
    + by rewrite length_insert.
    + destruct ok; simpl in *; lia.
    + destruct ok; simpl in *; lia.
    + by left.
    + unfold places, busy, settled. simpl. rewrite Hr2, Hr1. by destruct ok.
  - simpl. destruct (threads s !! t) as [[| | |]|] eqn:Ht; try done. destruct (queue s) as [|r q] eqn:Hq; [done|].
    intros [= <- <-]. destruct (insert_split _ t Idle (Busy r) Ht) as (rest & Hr1 & Hr2).
    note_live s t Ht. apply (places_step_ok cores s); simpl; try done.
    + by rewrite length_insert.
    + rewrite Hq. simpl. lia.
    + lia.
    + lia.
    + by left.
    + unfold places, busy, settled. simpl. rewrite Hq, Hr2, Hr1. simpl. solve_Permutation.
  - by apply pool_finish_ok.
  - simpl. destruct (threads s !! t) as [[| |r|]|] eqn:Ht; try done. intros [= <- <-].
    destruct (insert_split _ t (Busy r) Gone Ht) as (rest & Hr1 & Hr2).
    note_live s t Ht. apply (places_step_ok cores s); simpl; try done.
    + by rewrite length_insert.
    + lia.
    + lia.
    + by left.
    + unfold places, busy, settled. simpl. rewrite Hr2, Hr1. simpl. solve_Permutation.
  - simpl. destruct (Nat.eqb_spec (live_threads s) 0) as [Hl|]; [|done]. intros [= <- <-].
    apply (places_step_ok cores s); simpl; try done; [lia|by right|].
    unfold places, settled. simpl. change (busy _) with (busy s). solve_Permutation.
Qed.

Lemma pool_reachable_ok cores s : pool_reachable cores s -> pool_ok cores s.
Proof. induction 1 as [|s e s' b _ IH Hs]; [apply pool_new_ok|by eapply pool_step_ok]. Qed.

Lemma pool_run_reachable cores es s s' :
  pool_reachable cores s -> pool_run s es = Some s' -> pool_reachable cores s'.
Proof.
  revert s. induction es as [|e es IH]; intros s Hs; simpl; [by intros [= <-]|].
  destruct (pool_step s e) as [[s1 b]|] eqn:E; [simpl|done]. apply IH. by eapply pool_next.
Qed.

Lemma pool_run_cons s e s1 b es : pool_step s e = Some (s1, b) -> pool_run s (e :: es) = pool_run s1 es.
Proof. intros E. simpl. by rewrite E. Qed.

Lemma pool_run_app s es1 es2 s1 : pool_run s es1 = Some s1 -> pool_run s (es1 ++ es2) = pool_run s1 es2.
Proof.
  revert s. induction es1 as [|e es1 IH]; intros s; simpl; [by intros [= <-]|].
  destruct (pool_step s e) as [[s2 b]|]; [simpl; apply IH|done].
Qed.

(** A request that is abandoned before its run ends takes a thread with it. *)
Lemma drain_one s t :
  queue s = [] -> threads s !! t = Some Starting -> submitted s ∉ abandoned s ++ settled s ->
  exists s', pool_run s [Start t true; Submit; Abandon (submitted s); Take t; Finish t] = Some s' /\
    queue s' = [] /\ threads s' = <[t := Gone]> (threads s) /\ submitted s' = S (submitted s) /\
    abandoned s' = submitted s :: abandoned s /\ answered s' = answered s /\ settled s' = settled s.
Proof.
  intros Hq Ht Hn. apply not_elem_of_app in Hn as [Hn1 Hn2]. pose proof (lookup_lt_Some _ _ _ Ht) as Hlt.
  pose (s0 := {| threads := <[t := Idle]> (threads s); queue := []; submitted := submitted s;
    abandoned := abandoned s; answered := answered s; unheard := unheard s; crashed := crashed s;
    unstarted := unstarted s; dropped := dropped s |}).
  assert (0 < live_threads s0)%nat as Hlive.
  { assert (threads s0 !! t = Some Idle) as Hi by by apply list_lookup_insert_eq.
    unfold live_threads. rewrite (delete_Permutation _ _ _ Hi). rewrite filter_cons_True by done. simpl. lia. }
  pose (r := submitted s).
  pose (at_ ts q ab u := {| threads := ts; queue := q; submitted := S r; abandoned := ab;
    answered := answered s; unheard := u; crashed := crashed s; unstarted := unstarted s; dropped := dropped s |}).
  assert (pool_step s (Start t true) = Some (s0, false)) as E0 by (simpl; by rewrite Ht, Hq).
  assert (pool_step s0 Submit = Some (at_ (threads s0) [r] (abandoned s) (unheard s), true)) as E1.
  { cbn [pool_step]. rewrite (proj2 (Nat.ltb_lt _ _)), (proj2 (Nat.eqb_neq _ _)); [done|lia|].
    simpl. rewrite length_insert. lia. }
  assert (pool_step (at_ (threads s0) [r] (abandoned s) (unheard s)) (Abandon r) =
    Some (at_ (threads s0) [r] (r :: abandoned s) (unheard s), false)) as E2.
  { simpl. rewrite (proj2 (Nat.ltb_lt _ _)) by lia. by rewrite !bool_decide_eq_false_2. }
  assert (pool_step (at_ (threads s0) [r] (r :: abandoned s) (unheard s)) (Take t) =
    Some (at_ (<[t := Busy r]> (threads s0)) [] (r :: abandoned s) (unheard s), false)) as E3.
  { simpl. by rewrite list_lookup_insert_eq. }
  assert (pool_step (at_ (<[t := Busy r]> (threads s0)) [] (r :: abandoned s) (unheard s)) (Finish t) =
    Some (at_ (<[t := Gone]> (threads s)) [] (r :: abandoned s) (S (unheard s)), false)) as E4.
  { simpl. rewrite list_lookup_insert_eq by by rewrite length_insert. rewrite bool_decide_eq_true_2 by (by left).
    by rewrite !list_insert_insert_eq. }
  exists (at_ (<[t := Gone]> (threads s)) [] (r :: abandoned s) (S (unheard s))). split; [|done].
  by rewrite (pool_run_cons _ _ _ _ _ E0), (pool_run_cons _ _ _ _ _ E1), (pool_run_cons _ _ _ _ _ E2),
    (pool_run_cons _ _ _ _ _ E3), (pool_run_cons _ _ _ _ _ E4).
Qed.

(** The events that use up [n] threads. *)
Fixpoint drain (t n r : nat) : list PoolEvent :=
  match n with
  | O => []
  | S n => [Start t true; Submit; Abandon r; Take t; Finish t] ++ drain (S t) n (S r)
  end.

Lemma drain_spec n : forall t s,
  queue s = [] -> length (threads s) = (t + n)%nat ->
  (forall i, t <= i < t + n -> threads s !! i = Some Starting)%nat ->
  (forall i, i < t -> threads s !! i = Some Gone)%nat ->
  Forall (fun r => r < submitted s)%nat (abandoned s ++ settled s) ->
  exists s', pool_run s (drain t n (submitted s)) = Some s' /\ threads s' = replicate (t + n) Gone /\
    length (abandoned s') = (n + length (abandoned s))%nat /\ answered s' = answered s.
Proof.
  induction n as [|n IH]; intros t s Hq Hl Hidle Hgone Hb; cbn [drain].
  - exists s. split; [done|]. split; [|done]. apply list_eq_same_length with (length (threads s));
      [by rewrite length_replicate|done|].
    intros i x y Hi Hx Hy. rewrite Hgone in Hx by lia. apply lookup_replicate in Hy as [-> _]. congruence.
  - destruct (drain_one s t Hq) as (s1 & Hr & Hq1 & Ht1 & Hs1 & Ha1 & Han1 & Hse1); [apply Hidle; lia| |].
    { intros Hin. rewrite Forall_forall in Hb. apply Hb in Hin. lia. }
    destruct (IH (S t) s1) as (s' & Hr' & Ht' & Hab & Han); [done|..].
    + rewrite Ht1, length_insert. lia.
    + intros i Hi. rewrite Ht1, list_lookup_insert_ne by lia. apply Hidle. lia.
    + intros i Hi. rewrite Ht1. destruct (decide (i = t)) as [->|].
      * apply list_lookup_insert_eq. lia.
      * rewrite list_lookup_insert_ne by done. apply Hgone. lia.
    + rewrite Ha1, Hse1, Hs1. simpl. constructor; [lia|]. eapply Forall_impl; [exact Hb|]. simpl. lia.
    + exists s'. rewrite (pool_run_app _ _ _ _ Hr), <-Hs1. split; [done|].
      rewrite Ht', Hab, Ha1, Han, Han1. split_and!; [|simpl; lia|done].
      by replace (S t + n)%nat with (t + S n)%nat by lia.
Qed.

(** ** Cores *)

Lemma cpuset_cores_spec is_set n : forall k c,
  0 <= k -> k + Z.of_nat n < 2 ^ 64 -> cpuset_cores is_set k n = Some c ->
  forall x, x ∈ c <-> k <= x < k + Z.of_nat n.
Proof.
  induction n as [|n IH]; intros k c Hk Hb E x; cbn [cpuset_cores] in E.
  - injection E as <-. rewrite elem_of_empty. lia.
  - destruct (is_set k); [|done]. destruct (cpuset_cores is_set (wadd 64 k 1) n) as [c'|] eqn:E'; [|done].
    injection E as <-. rewrite wadd_small in E' by (unfold in_width; lia).
    rewrite elem_of_union, elem_of_singleton, (IH (k + 1) c') by (done || lia). lia.
Qed.

Lemma cpuset_cores_set is_set n : forall k c,
  0 <= k -> k + Z.of_nat n < 2 ^ 64 -> cpuset_cores is_set k n = Some c -> forall x, x ∈ c -> is_set x = true.
Proof.
  induction n as [|n IH]; intros k c Hk Hb E x Hx; cbn [cpuset_cores] in E.
  - injection E as <-. by apply elem_of_empty in Hx.
  - destruct (is_set k) eqn:Es; [|done].
    destruct (cpuset_cores is_set (wadd 64 k 1) n) as [c'|] eqn:E'; [|done]. injection E as <-.
    rewrite wadd_small in E' by (unfold in_width; lia).
    apply elem_of_union in Hx as [->%elem_of_singleton|Hx]; [done|]. apply (IH (k + 1) c'); [lia|lia|done|done].
Qed.

Lemma even_separates x y b : x < 2 * b -> 2 * b <= y -> x / 2 < y / 2.
Proof. intros. Z.div_mod_to_equations. lia. Qed.

(** * Properties *)

(** What the result of a run says about the wait for the hypervisor. *)
Definition reported {K} `{KernelLaws K} (input : Input) (waited : result unit WaitIdDataOvertime)
    (out : OutputResult) (k' : K) : Prop :=
  match waited, out with
  | Ok (OExited si _), inl o =>
      Siginfo_from si = SExited 0 /\ o_id o = i_id input /\ o_io_file o = i_io_file input /\ child k' = Reaped
  | Ok (OExited si _), inr pm => Siginfo_from si <> SExited 0 /\ pm_error pm = BadExit /\ child k' = Reaped
  | Ok (OExitedOvertime _ _), inr pm => pm_error pm = Overtime /\ child k' = Reaped
  | Err _, inr pm => pm_error pm = Wait /\ (child k' = Running true \/ exists si, child k' = Zombie si)
  | _, _ => False
  end.

(** C20: a run is supervised.  However long the hypervisor would run, a run ends in
    one of three ways.  It panics with nothing started, because the
    descriptor of the io file could not be duplicated or the error file of the
    hypervisor could not be opened again; or it reports an error with nothing
    started; or the hypervisor was started, with the command of the configuration
    and with the image and the duplicate of the io file as its devices, was waited
    for and killed if it took too long, and the result says how it ended: the io
    file comes back exactly when it exited by itself in time with status 0.  The
    process has been waited for in the end, unless its descriptor or the poll
    fails: then it has been killed, and only that. *)
Theorem run_supervises {K} `{KernelLaws K} path_debug tempfile reopen set_fd_mappings spawn clone input k k' r :
  (forall b a m k0 k1, spawn b a m k0 = Some k1 -> child k1 <> Reaped) ->
  run path_debug tempfile reopen set_fd_mappings spawn clone input k = (k', r) ->
  (r = Panic /\ k' = k /\ (clone (i_io_file input) = None \/
     exists err, tempfile "err-" = Some err /\ reopen err = false)) \/
  (k' = k /\ exists e, r = Ok (inr (PostMortem_from e))) \/
  exists io log con k1 k2 w out,
    clone (i_io_file input) = Some io /\
    (let '(paths, maps) := pmem_paths 3 [(image input, ReadOnly); (Fd io, ReadWrite)] in
     spawn (bin (ch_config input)) (ch_command path_debug (ch_config input) log con paths) maps k = Some k1) /\
    child_wait_timeout_or_kill (ch_timeout input) k1 = (k2, w) /\
    r = Ok out /\ reported input w out k'.
Proof.
  intros Hsp. unfold run. destruct (clone (i_io_file input)) as [io|] eqn:Hc.
  2: { intros [= <- <-]. left. eauto. }
  destruct (start _ _ _ _ _ _ _ k) as [k1 rs] eqn:Es.
  apply start_spec in Es as [(-> & -> & err & He & Hr)|[(-> & e & ->)|(ch & log & con & -> & Es)]].
  { intros [= <- <-]. left. eauto 10. }
  { intros [= <- <-]. right. left. eauto. }
  intros E. right. right. exists io, log, con, k1.
  destruct (pmem_paths 3 _) as [paths maps]. cbn [fst snd] in Es.
  destruct (child_wait_timeout_or_kill_spec (ch_timeout input) k1 (Hsp _ _ _ _ _ Es)) as (k2 & w & Ew & Hw).
  rewrite Ew in E. exists k2, w. revert E.
  destruct Hw as [[[e ->] Hk2]|[Hre (si & ru & [->| ->])]]; cbn [postmortem into_logs].
  - intros [= <- <-]. eexists. split_and!; [done..|]. split; [done|]. by apply ch_kill_killed.
  - case_bool_decide as Hs; intros [= <- <-]; eexists; (split_and!; [done..|]); simpl;
      split_and!; (done || by apply ch_kill_reaped).
  - intros [= <- <-]. eexists. split_and!; [done..|]. simpl. split_and!; [done|by apply ch_kill_reaped].
Qed.

(** C19: the pool loses no request and runs none twice.  In every state that any
    interleaving of submissions, starts of threads, receptions, ends and panics of
    runs, and callers going away reaches, the queue has at most two requests per
    core; the requests that were accepted are, each in exactly one place, queued,
    running, answered, ended by a panic of their run or dropped with the queue
    (only when no thread is left), apart from the runs whose callers had gone; no
    abandoned request counts as answered; and exactly as many threads are missing
    as there were runs nobody heard, runs that panicked, and threads that did not
    start. *)
Theorem requests_conserved cores s :
  pool_reachable cores s ->
  (length (queue s) <= 2 * cores)%nat /\
  NoDup (queue s ++ busy s ++ answered s ++ crashed s ++ dropped s) /\
  (forall r, r ∈ queue s ++ busy s ++ answered s ++ crashed s ++ dropped s -> r < submitted s)%nat /\
  (length (queue s ++ busy s ++ answered s ++ crashed s ++ dropped s) + unheard s = submitted s)%nat /\
  (live_threads s + unheard s + length (crashed s) + unstarted s = cores)%nat /\
  (dropped s <> [] -> live_threads s = 0%nat) /\
  forall r, r ∈ answered s -> r ∉ abandoned s.
Proof.
  intros [H1 H2 H3 H4 H5 H6 H7 H8]%pool_reachable_ok. rewrite Forall_forall in H5, H7. by split_and!.
Qed.

Definition example_pool_events : list PoolEvent :=
  [Submit; Submit; Start 0 true; Start 1 true; Start 2 false; Start 3 true; Submit; Submit; Take 0; Take 1;
   Abandon 1; Finish 0; Finish 1; Take 0; Take 3; Crash 3].
Definition example_pool : Pool := default (Pool_new 4) (pool_run (Pool_new 4) example_pool_events).

Lemma requests_conserved_witness :
  threads example_pool = [Busy 2; Gone; Gone; Gone] /\
  (live_threads example_pool + unheard example_pool + length (crashed example_pool) + unstarted example_pool = 4)%nat.
Proof.
  split; [reflexivity|].
  refine (proj1 (proj2 (proj2 (proj2 (proj2 (requests_conserved 4 example_pool _)))))).
  apply (pool_run_reachable 4 example_pool_events (Pool_new 4)); [apply pool_init|apply default_is_Some; vm_compute; reflexivity].
Defined.

(** C39: callers that go away use the pool up.  For every number of cores, as many
    abandoned requests leave no thread, after which every submission is refused
    although the queue is empty of running work. *)
Theorem abandoned_requests_drain_pool cores :
  exists s, pool_reachable cores s /\ length (abandoned s) = cores /\ answered s = [] /\
    live_threads s = 0%nat /\ forall s' b, pool_step s Submit = Some (s', b) -> s' = s /\ b = false.
Proof.
  destruct (drain_spec cores 0 (Pool_new cores)) as (s & Hr & Ht & Ha & Han); simpl.
  - done.
  - apply length_replicate.
  - intros i Hi. apply lookup_replicate. split; [done|lia].
  - lia.
  - constructor.
  - assert (live_threads s = 0%nat) as Hl.
    { unfold live_threads. rewrite Ht. simpl. clear. induction cores as [|n IH]; [done|]. by rewrite replicate_S. }
    exists s. split_and!; [|by rewrite Ha; simpl; lia|done|done|].
    + eapply pool_run_reachable; [apply pool_init|done].
    + intros s' b. simpl. rewrite Hl. simpl. rewrite andb_false_r. by intros [= <- <-].
Qed.

(** Workers get cores of their own.  When [cpuset] gives the workers their
    cores, there is a set for each, of exactly the requested number of consecutive
    cores, all of them in the affinity of the process; and two workers share no
    core and no pair of hyperthreads. *)
Theorem cpuset_separates is_set core_offset n_workers n sets :
  0 <= core_offset -> 0 <= n_workers -> 0 <= n -> core_offset + n_workers * n < 2 ^ 64 ->
  cpuset is_set core_offset n_workers n = Some sets ->
  Z.of_nat (length sets) = n_workers /\
  (forall i c, sets !! i = Some c -> forall x,
     (x ∈ c <-> core_offset + Z.of_nat i * n <= x < core_offset + (Z.of_nat i + 1) * n) /\
     (x ∈ c -> is_set x = true)) /\
  forall i j c d x y, sets !! i = Some c -> sets !! j = Some d -> i <> j -> x ∈ c -> y ∈ d ->
    x / 2 <> y / 2.
Proof.
  intros Ho Hw Hn Hb. unfold cpuset. destruct (Z.eqb_spec (core_offset mod 2) 1); [done|].
  destruct (Z.eqb_spec (n mod 2) 1); [done|]. intros Hm%mapM_Some_1.
  pose proof (Forall2_length _ _ _ Hm) as Hlen. rewrite length_seqZ in Hlen.
  assert (forall i c, sets !! i = Some c -> forall x,
     (x ∈ c <-> core_offset + Z.of_nat i * n <= x < core_offset + (Z.of_nat i + 1) * n) /\
     (x ∈ c -> is_set x = true)) as Hsets.
  { intros i c Hi x. pose proof (lookup_lt_Some _ _ _ Hi) as Hil.
    destruct (Forall2_lookup_r _ _ _ i c Hm Hi) as (z & Hz & E).
    apply lookup_seqZ in Hz as [-> Hz]. rewrite Z.add_0_l in E.
    assert (Z.of_nat i * n + n <= n_workers * n) by nia.
    rewrite wmul_small, wadd_small in E by (unfold in_width; nia).
    assert (0 <= core_offset + Z.of_nat i * n) as H1 by nia.
    assert (core_offset + Z.of_nat i * n + Z.of_nat (Z.to_nat n) < 2 ^ 64) as H2 by lia.
    split; [|by apply (cpuset_cores_set is_set _ _ c H1 H2 E)].
    rewrite (cpuset_cores_spec is_set _ _ c H1 H2 E x). lia. }
  split_and!; [lia|done|].
  intros i j c d x y Hi Hj Hij Hx Hy. apply (proj1 (proj1 (Hsets _ _ Hi x))) in Hx.
  apply (proj1 (proj1 (Hsets _ _ Hj y))) in Hy.
  assert (core_offset = 2 * (core_offset / 2)) as Eo by (Z.div_mod_to_equations; lia).
  assert (n = 2 * (n / 2)) as En by (Z.div_mod_to_equations; lia).
  generalize dependent (core_offset / 2). generalize dependent (n / 2). intros m -> o ->.
  intros E. destruct (Z.lt_total (Z.of_nat i) (Z.of_nat j)) as [Hlt|[?|Hlt]]; [|lia|].
  - assert (x / 2 < y / 2); [|lia]. pose proof (Z.mul_le_mono_nonneg_r (Z.of_nat i + 1) (Z.of_nat j) m ltac:(lia) ltac:(lia)).
    apply (even_separates x y (o + (Z.of_nat i + 1) * m)); lia.
  - assert (y / 2 < x / 2); [|lia]. pose proof (Z.mul_le_mono_nonneg_r (Z.of_nat j + 1) (Z.of_nat i) m ltac:(lia) ltac:(lia)).
    apply (even_separates y x (o + (Z.of_nat j + 1) * m)); lia.
Qed.

Lemma cpuset_separates_witness :
  exists sets, cpuset (fun x => (0 <=? x) && (x <? 16)) 4 3 2 = Some sets /\
    Z.of_nat (length sets) = 3.
Proof.
  eexists. split; [vm_compute; reflexivity|].
  eapply (cpuset_separates (fun x => (0 <=? x) && (x <? 16)) 4 3 2); [lia..|vm_compute; reflexivity].
Defined.

(** ** A kernel with one child

    The child ends by itself with status 0 after [ends_in] seconds, if ever. *)
Inductive OneState := ORunning (killed : bool) | OZombie (code : Z) | OReaped.
Record OneChild := { oc_state : OneState; ends_in : option Z }.

Definition oc_info (pid code : Z) : siginfo_t := {| si_pid := pid; si_code := code; si_status := 0 |}.
Definition oc_usage : Rusage :=
  {| ru_utime := {| sec := 0; usec := 0 |}; ru_stime := {| sec := 0; usec := 0 |}; ru_maxrss := 0;
     ru_ixrss := 0; ru_idrss := 0; ru_isrss := 0; ru_minflt := 0; ru_majflt := 0; ru_nswap := 0;
     ru_inblock := 0; ru_oublock := 0; ru_msgsnd := 0; ru_msgrcv := 0; ru_nsignals := 0; ru_nvcsw := 0;
     ru_nivcsw := 0 |}.
Definition set_state (x : OneState) (k : OneChild) : OneChild := {| oc_state := x; ends_in := ends_in k |}.

#[export] Instance one_child : Kernel OneChild := {
  sys_pidfd_open k := (k, true);
  sys_poll_register k := (k, true);
  sys_poll d k :=
    match oc_state k with
    | ORunning _ => match ends_in k with
                    | Some t => if t <=? d_secs d then (set_state (OZombie CLD_EXITED) k, Ok true)
                                else (k, Ok false)
                    | None => (k, Ok false)
                    end
    | OZombie _ => (k, Ok true)
    | OReaped => (k, Ok false)
    end;
  sys_waitid _ nohang k :=
    match oc_state k with
    | OZombie code => (set_state OReaped k, (0, oc_info 7 code, oc_usage))
    | ORunning true => if nohang then (k, (0, oc_info 0 0, oc_usage))
                       else (set_state OReaped k, (0, oc_info 7 CLD_KILLED, oc_usage))
    | ORunning false => (k, (0, oc_info 0 0, oc_usage))
    | OReaped => (k, (-1, oc_info 0 0, oc_usage))
    end;
  sys_pidfd_kill _ k :=
    match oc_state k with
    | ORunning _ => (set_state (ORunning true) k, Ok tt)
    | OZombie _ => (k, Ok tt)
    | OReaped => (k, Err tt)
    end;
}.

#[export] Instance one_child_laws : KernelLaws OneChild.
Proof.
  refine {| child k := match oc_state k with
                       | ORunning b => Running b
                       | OZombie code => Zombie (oc_info 7 code)
                       | OReaped => Reaped
                       end |}.
  - by intros k k' ok [= <- <-].
  - by intros k k' ok [= <- <-].
  - intros d k k' r. simpl. destruct (oc_state k) as [b|code|] eqn:E; [| |done].
    + destruct (ends_in k) as [t|]; [destruct (t <=? _)|]; intros [= <- <-] _; simpl; rewrite ?E;
        (split_and!; [done|done|]); intros; try done; by eexists.
    + intros [= <- <-] _. rewrite E. (split_and!; [done|done|]); intros; by eexists.
  - intros id nohang k k' ret si ru. simpl. destruct (oc_state k) as [[|]|code|] eqn:E.
    + destruct nohang; intros [= <- <- <- <-]; by split.
    + intros [= <- <- <- <-]. by split.
    + intros [= <- <- <- <-]. split; [by intros ? [= <-]|done].
    + intros [= <- <- <- <-]. by split.
  - intros k k' r. simpl. destruct (oc_state k) as [b|code|] eqn:E; [| |done].
    + intros [= <- <-] _. simpl. split; [done|by left].
    + intros [= <- <-] _. rewrite E. split; [done|right; by eexists].
  - intros k k' r sig. simpl. destruct (oc_state k) as [b|code|] eqn:E; [done|done|].
    intros [= <- <-] _. by rewrite E.
Defined.

Definition example_input : Input :=
  {| i_id := 42; image := Fd 5; i_io_file := 6; ch_timeout := {| d_secs := 2; d_nanos := 0 |};
     ch_config := {| bin := bs "ch"; kernel := bs "k"; initramfs := bs "i"; console := false;
                     log_level := None; keep_args := true; event_monitor := false |} |}.
Definition example_spawn (_ : bstr) (_ : list bstr) (_ : list FdMapping) (k : OneChild) : option OneChild :=
  Some (set_state (ORunning false) k).

(** A hypervisor that would run for 9 seconds. *)
Lemma run_supervises_witness :
  exists k' out, run (fun p => p) (fun _ => Some []) (fun _ => true) (fun _ => true) example_spawn Some example_input
      {| oc_state := OReaped; ends_in := Some 9 |} = (k', Ok out) /\
    match out with
    | inl _ => False
    | inr pm => pm_error pm = Overtime /\ child k' = Reaped
    end.
Proof.
  destruct (run (fun p => p) (fun _ => Some []) (fun _ => true) (fun _ => true) example_spawn Some example_input
    {| oc_state := OReaped; ends_in := Some 9 |}) as [k' r] eqn:E.
  pose proof (run_supervises (fun p => p) (fun _ => Some []) (fun _ => true) (fun _ => true) example_spawn Some
    example_input {| oc_state := OReaped; ends_in := Some 9 |} k' r
    ltac:(intros b a m k0 k1 [= <-]; discriminate) E) as Hout.
  destruct Hout as [(_ & _ & [Hc|(err & _ & Hr)])|[[_ [e ->]]|(io & log & con & k1 & k2 & w & out & _ & Hs & Hw & -> & Hr)]];
    [discriminate Hc|discriminate Hr|vm_compute in E; discriminate E|].
  exists k', out. split; [reflexivity|]. vm_compute in Hs. injection Hs as <-. vm_compute in Hw. injection Hw as <- <-.
  destruct out; exact Hr.
Defined.
