(* ===== verification/SyncPool.v ===== *)
(** The pool of the command line runner (src/perunner/src/worker.rs, and its use in
    src/perunner/src/main.rs).

    Threads take requests from a bounded queue and put the outputs into another
    bounded queue, where a send waits for room.  The owner submits, receives,
    closes the queue of requests and joins the threads.  The file models the
    threads and the two queues as a state machine and proves when the owner gets
    every output and when joining the threads ends. *)
From stdpp Require Import option base list sets numbers strings gmap.
From Stdlib Require Import Lia.
From S2P Require Import Prelude.

(** A thread has not yet set its affinity, waits for a request, runs one, waits for
    room for the output, has returned, or has panicked: at the [unwrap] of
    [sched_setaffinity] or in [run]. *)
Inductive WorkerThread := WStarting | WIdle | WRunning (r : nat) | WSending (r : nat) | WEnded | WPanicked.

#[export] Instance WorkerThread_eq_dec : EqDecision WorkerThread.
Proof. solve_decision. Defined.

(** [sender_open]: the sender of requests still exists; [receiver_open]: the
    receiver of outputs does.  The threads hold the other ends. *)
Record Pool := {
  workers : list WorkerThread;
  capacity : nat;
  inputs : list nat;
  outputs : list nat;
  sent : list nat;
  received : list nat;
  lost : list nat;          (** their runs panicked *)
  sender_open : bool;
  receiver_open : bool;
}.

Definition Pool_new (cores : nat) : Pool :=
  {| workers := replicate cores WStarting; capacity := cores * 2; inputs := []; outputs := [];
     sent := []; received := []; lost := []; sender_open := true; receiver_open := true |}.

Definition pool_len (s : Pool) : nat := length (workers s).

(** What the owner does, and what the threads do. *)
Inductive OwnerEvent := TrySend (r : nat) | Recv | CloseSender | DropReceiver.
Inductive ThreadEvent :=
  | StartThread (t : nat) | TakeInput (t : nat) | EndRun (t : nat) | SendOutput (t : nat) | SeeClosed (t : nat)
  | PanicThread (t : nat).

Definition set_worker (t : nat) (w : WorkerThread) (s : Pool) : Pool :=
  {| workers := <[t := w]> (workers s); capacity := capacity s; inputs := inputs s; outputs := outputs s;
     sent := sent s; received := received s; lost := lost s; sender_open := sender_open s; receiver_open := receiver_open s |}.
Definition set_inputs (l : list nat) (s : Pool) : Pool :=
  {| workers := workers s; capacity := capacity s; inputs := l; outputs := outputs s;
     sent := sent s; received := received s; lost := lost s; sender_open := sender_open s; receiver_open := receiver_open s |}.
Definition set_outputs (l : list nat) (s : Pool) : Pool :=
  {| workers := workers s; capacity := capacity s; inputs := inputs s; outputs := l;
     sent := sent s; received := received s; lost := lost s; sender_open := sender_open s; receiver_open := receiver_open s |}.

Definition set_lost (l : list nat) (s : Pool) : Pool :=
  {| workers := workers s; capacity := capacity s; inputs := inputs s; outputs := outputs s;
     sent := sent s; received := received s; lost := l; sender_open := sender_open s; receiver_open := receiver_open s |}.

(** [spawn_worker]: one step of a thread. *)
Definition worker_step (s : Pool) (e : ThreadEvent) : option Pool :=
  match e with
  | StartThread t =>
      match workers s !! t with
      | Some WStarting => Some (set_worker t WIdle s)
      | _ => None
      end
  | PanicThread t =>
      match workers s !! t with
      | Some WStarting => Some (set_worker t WPanicked s)
      | Some (WRunning r) => Some (set_lost (lost s ++ [r]) (set_worker t WPanicked s))
      | _ => None
      end
  | TakeInput t =>
      match workers s !! t, inputs s with
      | Some WIdle, r :: l => Some (set_inputs l (set_worker t (WRunning r) s))
      | _, _ => None
      end
  | SeeClosed t =>
      match workers s !! t, inputs s, sender_open s with
      | Some WIdle, [], false => Some (set_worker t WEnded s)
      | _, _, _ => None
      end
  | EndRun t =>
      match workers s !! t with
      | Some (WRunning r) => Some (set_worker t (WSending r) s)
      | _ => None
      end
  | SendOutput t =>
      match workers s !! t with
      | Some (WSending r) =>
          if receiver_open s then
            if (length (outputs s) <? capacity s)%nat
            then Some (set_outputs (outputs s ++ [r]) (set_worker t WIdle s)) else None
          else Some (set_worker t WEnded s)
      | _ => None
      end
  end.

(** A thread that has returned or panicked has dropped its ends of the queues. *)
Definition ended (w : WorkerThread) : bool := match w with WEnded | WPanicked => true | _ => false end.

(** The owner: [sender().try_send] fails when the queue is full or all threads
    are gone; [close_sender]; dropping the pool after [shutdown]. *)
Definition owner_step (s : Pool) (e : OwnerEvent) : option Pool :=
  match e with
  | TrySend r =>
      if sender_open s && (length (inputs s) <? capacity s)%nat && existsb (fun w => negb (ended w)) (workers s)
      then Some {| workers := workers s; capacity := capacity s; inputs := inputs s ++ [r]; outputs := outputs s;
                   sent := sent s ++ [r]; received := received s; lost := lost s; sender_open := sender_open s;
                   receiver_open := receiver_open s |}
      else None
  | Recv =>
      match outputs s, receiver_open s with
      | r :: l, true =>
          Some {| workers := workers s; capacity := capacity s; inputs := inputs s; outputs := l;
                  sent := sent s; received := received s ++ [r]; lost := lost s; sender_open := sender_open s;
                  receiver_open := receiver_open s |}
      | _, _ => None
      end
  | CloseSender =>
      if sender_open s
      then Some {| workers := workers s; capacity := capacity s; inputs := inputs s; outputs := outputs s;
                   sent := sent s; received := received s; lost := lost s; sender_open := false; receiver_open := receiver_open s |}
      else None
  | DropReceiver =>
      if receiver_open s
      then Some {| workers := workers s; capacity := capacity s; inputs := inputs s; outputs := outputs s;
                   sent := sent s; received := received s; lost := lost s; sender_open := sender_open s; receiver_open := false |}
      else None
  end.

Inductive reachable (cores : nat) : Pool -> Prop :=
  | reach_new : reachable cores (Pool_new cores)
  | reach_owner s e s' : reachable cores s -> owner_step s e = Some s' -> reachable cores s'
  | reach_thread s e s' : reachable cores s -> worker_step s e = Some s' -> reachable cores s'.

Fixpoint threads_run (s : Pool) (es : list ThreadEvent) : option Pool :=
  match es with [] => Some s | e :: es => s ← worker_step s e; threads_run s es end.

Fixpoint pool_run (s : Pool) (es : list (OwnerEvent + ThreadEvent)) : option Pool :=
  match es with
  | [] => Some s
  | inl e :: es => s ← owner_step s e; pool_run s es
  | inr e :: es => s ← worker_step s e; pool_run s es
  end.

(** [shutdown] returns when every thread has ended; it keeps the panics as
    results. *)
Definition joined (s : Pool) : Prop := Forall (fun w => ended w = true) (workers s).

(** * Lemmas *)

Definition in_hand (s : Pool) : list nat :=
  omap (fun w => match w with WRunning r | WSending r => Some r | _ => None end) (workers s).

(** Requests whose output the owner has not received. *)
Definition pending (s : Pool) : list nat := inputs s ++ in_hand s ++ outputs s.

Definition weight (w : WorkerThread) : nat :=
  match w with WStarting => 2 | WIdle => 1 | WRunning _ => 3 | WSending _ => 2 | WEnded | WPanicked => 0 end.

(** How much the threads can still do. *)
Definition work (s : Pool) : nat := 3 * length (inputs s) + sum_list_with weight (workers s).

Record pool_ok (cores : nat) (s : Pool) : Prop := {
  ok_len : length (workers s) = cores;
  ok_capacity : capacity s = cores * 2;
  ok_inputs : length (inputs s) <= cores * 2;
  ok_outputs : length (outputs s) <= cores * 2;
  (** no thread returns before it sees the end of one of the queues *)
  ok_running : sender_open s = true -> receiver_open s = true -> Forall (fun w => w <> WEnded) (workers s);
  ok_kept : receiver_open s = true -> sent s ≡ₚ received s ++ pending s ++ lost s;
  (** a thread that saw the end of the requests left none *)
  ok_drained : receiver_open s = true -> WEnded ∈ workers s -> inputs s = [] /\ sender_open s = false;
  ok_lost : lost s <> [] -> WPanicked ∈ workers s;
}.

#[export] Instance sum_weight_Proper : Proper ((≡ₚ) ==> eq) (sum_list_with weight).
Proof.
  intros l k H. induction H as [|x l k _ IH|x y l|l1 l2 l3 _ IH1 _ IH2]; simpl; [done|by rewrite IH|lia|congruence].
Qed.

Lemma sync_new_ok cores : pool_ok cores (Pool_new cores).
Proof.
  assert (forall w, w ∈ replicate cores WStarting -> w = WStarting) as Hw by (by intros w [-> _]%elem_of_replicate).
  assert (in_hand (Pool_new cores) = []) as Hh.
  { unfold in_hand. simpl. clear. by induction cores. }
  split; simpl; [by rewrite length_replicate|done|lia|lia| | | |done].
  - intros _ _. apply Forall_forall. intros w ->%Hw. done.
  - intros _. unfold pending. by rewrite Hh.
  - intros _ Hin. by apply Hw in Hin.
Qed.

Lemma owner_step_ok cores s e s' : pool_ok cores s -> owner_step s e = Some s' -> pool_ok cores s'.
Proof.
  intros [H1 H2 H3 H4 H5 H6 H7 H8]. destruct e as [r| | |]; simpl.
  - destruct (_ && _) eqn:E; [|done]. intros [= <-].
    apply andb_true_iff in E as [[Ho Hl%Nat.ltb_lt]%andb_true_iff _].
    split; simpl; [done|done|rewrite length_app; simpl; lia|done|done| | |done].
    + intros Hr. unfold pending, in_hand. simpl. rewrite (H6 Hr). unfold pending, in_hand. solve_Permutation.
    + intros Hr Hin. destruct (H7 Hr Hin). congruence.
  - destruct (outputs s) as [|r l] eqn:Hl; [done|]. destruct (receiver_open s) eqn:Hr; [|done].
    intros [= <-]. split; simpl in *; [done|done|done|lia|done| |done|done].
    intros _. unfold pending, in_hand in *. simpl. rewrite (H6 eq_refl), Hl. solve_Permutation.
  - destruct (sender_open s) eqn:Ho; [|done]. intros [= <-]. split; simpl; [done..| | |]; [done| |done].
    intros Hr Hin. by destruct (H7 Hr Hin).
  - destruct (receiver_open s); [|done]. intros [= <-]. by split.
Qed.

(** A thread goes on with the requests that there are, or panics. *)
Lemma go_on_ok cores s s' t w w' :
  pool_ok cores s -> workers s !! t = Some w -> workers s' = <[t := w']> (workers s) -> ended w = false -> w' <> WEnded ->
  capacity s' = capacity s -> sender_open s' = sender_open s -> receiver_open s' = receiver_open s ->
  sent s' = sent s -> received s' = received s -> length (inputs s') <= length (inputs s) ->
  length (outputs s') <= cores * 2 -> pending s' ++ lost s' ≡ₚ pending s ++ lost s ->
  lost s' = lost s \/ w' = WPanicked -> pool_ok cores s'.
Proof.
  intros [H1 H2 H3 H4 H5 H6 H7 H8] Ht Hw He Hne Hc Ho Hr Hs Hrc Hi Hout Hp Hlost.
  destruct (insert_split _ t w w' Ht) as (rest & Hr1 & Hr2).
  assert (forall v, v ∈ workers s' -> v ∈ workers s \/ v = w') as Hin.
  { intros v. rewrite Hw, Hr2, Hr1. set_solver. }
  split; rewrite ?Hc, ?Ho, ?Hr, ?Hs, ?Hrc; [by rewrite Hw, length_insert|done|lia|done| | | |].
  - intros E1 E2. specialize (H5 E1 E2). rewrite Forall_forall in *. intros v [?| ->]%Hin; [by apply H5|done].
  - intros E. by rewrite Hp, (H6 E).
  - intros E [Hv|?]%Hin; [|done]. destruct (H7 E Hv) as [Hnil ?]. rewrite Hnil in Hi.
    split; [|done]. by destruct (inputs s'); [|simpl in Hi; lia].
  - rewrite Hw, Hr2. destruct Hlost as [->| ->]; [|by left]. intros Hx. specialize (H8 Hx). rewrite Hr1 in H8.
    apply elem_of_cons in H8 as [<-|H8]; [done|by right].
Qed.

Lemma work_insert s s' t w w' :
  workers s !! t = Some w -> workers s' = <[t := w']> (workers s) ->
  (work s' + 3 * length (inputs s) + weight w = work s + 3 * length (inputs s') + weight w')%nat.
Proof.
  intros Ht Hw. destruct (insert_split _ t w w' Ht) as (rest & Hr1 & Hr2).
  unfold work. rewrite Hw, Hr2, Hr1. simpl. lia.
Qed.

(** What every step of a thread keeps, with less work left. *)
Definition thread_kept (s s' : Pool) : Prop :=
  (work s' < work s)%nat /\ sender_open s' = sender_open s /\ receiver_open s' = receiver_open s /\
  received s' = received s /\ sent s' = sent s.

(** A step from [w] to [w'] that moves no request out of the pool. *)
Ltac thread_moves s t Ht w w' :=
  match goal with |- pool_ok _ ?s' /\ _ =>
    let Hwork := fresh "Hwork" in
    pose proof (work_insert s s' t w w' Ht eq_refl) as Hwork; simpl in Hwork;
    destruct (insert_split _ t w w' Ht) as (rest & Hr1 & Hr2)
  end.

Lemma worker_send_ok cores s t s' :
  pool_ok cores s -> worker_step s (SendOutput t) = Some s' -> pool_ok cores s' /\ thread_kept s s'.
Proof.
  intros Hok. pose proof Hok as [H1 H2 H3 H4 H5 H6 H7 H8]. unfold thread_kept. simpl.
  destruct (workers s !! t) as [[| | |r| |]|] eqn:Ht; try done. destruct (receiver_open s) eqn:Hr.
  - destruct (Nat.ltb_spec (length (outputs s)) (capacity s)); [|done]. intros [= <-].
    thread_moves s t Ht (WSending r) WIdle. split; [|split_and!; done || lia].
    eapply (go_on_ok cores s _ t); [done|exact Ht|reflexivity|done..|simpl; rewrite length_app; simpl; lia| |by left].
    unfold pending, in_hand. simpl. rewrite Hr2, Hr1. simpl. solve_Permutation.
  - intros [= <-]. thread_moves s t Ht (WSending r) WEnded. split; [|split_and!; done || lia].
    split; simpl in *; rewrite ?Hr; try done; [by rewrite length_insert|].
    intros Hl. specialize (H8 Hl). rewrite Hr1 in H8. rewrite Hr2. set_solver.
Qed.

(** One step of a thread: the invariant holds and the work decreases. *)
Lemma worker_step_ok cores s e s' :
  pool_ok cores s -> worker_step s e = Some s' -> pool_ok cores s' /\ thread_kept s s'.
Proof.
  intros Hok. pose proof Hok as [H1 H2 H3 H4 H5 H6 H7 H8]. unfold thread_kept. destruct e as [t|t|t|t|t|t].
  - simpl. destruct (workers s !! t) as [[| | | | |]|] eqn:Ht; try done. intros [= <-].
    thread_moves s t Ht WStarting WIdle. split; [|split_and!; done || lia].
    eapply (go_on_ok cores s _ t); [done|exact Ht|reflexivity|done..| |by left].
    unfold pending, in_hand. simpl. by rewrite Hr2, Hr1.
  - simpl. destruct (workers s !! t) as [[| | | | |]|] eqn:Ht; try done. destruct (inputs s) as [|r l] eqn:Hi; [done|].
    intros [= <-]. thread_moves s t Ht WIdle (WRunning r). rewrite Hi in Hwork. simpl in Hwork.
    split; [|split_and!; done || lia].
    eapply (go_on_ok cores s _ t); [done|exact Ht|reflexivity|done..|rewrite Hi; simpl; lia|done| |by left].
    unfold pending, in_hand. simpl. rewrite Hi, Hr2, Hr1. simpl. solve_Permutation.
  - simpl. destruct (workers s !! t) as [[| |r| | |]|] eqn:Ht; try done. intros [= <-].
    thread_moves s t Ht (WRunning r) (WSending r). split; [|split_and!; done || lia].
    eapply (go_on_ok cores s _ t); [done|exact Ht|reflexivity|done..| |by left].
    unfold pending, in_hand. simpl. by rewrite Hr2, Hr1.
  - by apply worker_send_ok.
  - simpl. destruct (workers s !! t) as [[| | | | |]|] eqn:Ht; try done. destruct (inputs s) as [|] eqn:Hi; [|done].
    destruct (sender_open s) eqn:Ho; [done|]. intros [= <-].
    thread_moves s t Ht WIdle WEnded. split; [|split_and!; done || lia].
    split; simpl in *; rewrite ?Hi, ?Ho; [by rewrite length_insert|done|simpl; lia|done|done| |done|].
    + intros Hr. unfold pending, in_hand in *. simpl. by rewrite (H6 Hr), Hi, Hr2, Hr1.
    + intros Hl. specialize (H8 Hl). rewrite Hr1 in H8. rewrite Hr2. set_solver.
  - simpl. destruct (workers s !! t) as [[| |r| | |]|] eqn:Ht; try done; intros [= <-].
    + thread_moves s t Ht WStarting WPanicked. split; [|split_and!; done || lia].
      eapply (go_on_ok cores s _ t); [done|exact Ht|reflexivity|done..| |by right].
      unfold pending, in_hand. simpl. by rewrite Hr2, Hr1.
    + thread_moves s t Ht (WRunning r) WPanicked. split; [|split_and!; done || lia].
      eapply (go_on_ok cores s _ t); [done|exact Ht|reflexivity|done..| |by right].
      unfold pending, in_hand. simpl. rewrite Hr2, Hr1. simpl. solve_Permutation.
Qed.

#[local] Arguments work : simpl never.

Lemma reachable_ok cores s : reachable cores s -> pool_ok cores s.
Proof.
  induction 1 as [|s e s' _ IH Hs|s e s' _ IH Hs]; [apply sync_new_ok|by eapply owner_step_ok|].
  by eapply worker_step_ok.
Qed.

Lemma pending_length cores s :
  pool_ok cores s -> receiver_open s = true ->
  length (sent s) = length (received s) + length (pending s) + length (lost s).
Proof. intros [_ _ _ _ _ H6 _ _] Hr. rewrite (H6 Hr), !length_app. lia. Qed.

(** Without panics nothing is lost. *)
Lemma none_lost cores s : pool_ok cores s -> WPanicked ∉ workers s -> lost s = [].
Proof. intros [_ _ _ _ _ _ _ H8] Hp. destruct (lost s); [done|]. by destruct Hp; apply H8. Qed.

(** The threads together: they stop after as many steps as there is work. *)
Lemma threads_run_ok cores es s s' :
  pool_ok cores s -> threads_run s es = Some s' ->
  pool_ok cores s' /\ length es + work s' <= work s /\ sender_open s' = sender_open s /\
  receiver_open s' = receiver_open s /\ received s' = received s /\ sent s' = sent s.
Proof.
  revert s. induction es as [|e es IH]; intros s Hok; simpl; [intros [= <-]; split_and!; done|].
  destruct (worker_step s e) as [s1|] eqn:E; [cbn|done]. intros Hs.
  destruct (worker_step_ok cores s e s1 Hok E) as (Hok1 & Hw & Ho & Hr & Hrc & Hst).
  destruct (IH s1 Hok1 Hs) as (Hok' & Hw' & Ho' & Hr' & Hrc' & Hst').
  split; [done|]. split; [lia|]. split_and!; congruence.
Qed.

(** A thread that cannot go on. *)
Lemma stuck_thread s t w :
  workers s !! t = Some w -> receiver_open s = true -> (forall e, worker_step s e = None) ->
  match w with
  | WIdle => inputs s = [] /\ sender_open s = true
  | WStarting | WRunning _ => False
  | WSending _ => capacity s <= length (outputs s)
  | WEnded | WPanicked => True
  end.
Proof.
  intros Ht Hr Hstuck. destruct w as [| |r|r| |]; [| | | |done|done].
  - pose proof (Hstuck (StartThread t)) as H1. simpl in H1. by rewrite Ht in H1.
  - pose proof (Hstuck (TakeInput t)) as H1. pose proof (Hstuck (SeeClosed t)) as H2. simpl in H1, H2.
    rewrite Ht in H1, H2. destruct (inputs s); [|done]. by destruct (sender_open s).
  - pose proof (Hstuck (EndRun t)) as H1. simpl in H1. by rewrite Ht in H1.
  - pose proof (Hstuck (SendOutput t)) as H1. simpl in H1. rewrite Ht, Hr in H1.
    by destruct (Nat.ltb_spec (length (outputs s)) (capacity s)).
Qed.

(** Some thread can go on, or none can. *)
Lemma step_or_stuck s : (exists e, is_Some (worker_step s e)) \/ forall e, worker_step s e = None.
Proof.
  set (events := flat_map (fun t => [StartThread t; TakeInput t; EndRun t; SendOutput t; SeeClosed t; PanicThread t])
    (seq 0 (length (workers s)))).
  destruct (decide (Exists (fun e => is_Some (worker_step s e)) events)) as [Hex|Hno].
  - left. apply Exists_exists in Hex as (e & _ & He). eauto.
  - right. intros e.
    set (t := match e with
              | StartThread t | TakeInput t | EndRun t | SendOutput t | SeeClosed t | PanicThread t => t
              end).
    destruct (decide (t < length (workers s))) as [Ht|Ht].
    + apply eq_None_not_Some. intros He. apply Hno, Exists_exists. exists e. split; [|done].
      apply list_elem_of_In, in_flat_map. exists t. split; [by apply in_seq; lia|]. subst t. destruct e; simpl; tauto.
    + assert (workers s !! t = None) as Hl by (apply lookup_ge_None_2; lia).
      subst t. destruct e; simpl; by rewrite Hl.
Qed.

(** A thread that can panic can also go on. *)
Lemma calm_step_or_stuck s :
  (exists e, (forall t, e <> PanicThread t) /\ is_Some (worker_step s e)) \/ forall e, worker_step s e = None.
Proof.
  destruct (step_or_stuck s) as [[e He]|?]; [left|by right]. destruct e as [t|t|t|t|t|t]; [by eexists; split; [|exact He]..|].
  destruct He as [s' He]. simpl in He. destruct (workers s !! t) as [[| |r| | |]|] eqn:Ht; try done.
  - exists (StartThread t). split; [done|]. simpl. rewrite Ht. by eexists.
  - exists (EndRun t). split; [done|]. simpl. rewrite Ht. by eexists.
Qed.

Lemma calm_step s e s' :
  worker_step s e = Some s' -> (forall t, e <> PanicThread t) -> WPanicked ∉ workers s -> WPanicked ∉ workers s'.
Proof.
  assert (forall t w, workers s !! t = Some w -> forall w', w' <> WPanicked -> WPanicked ∉ workers s ->
    WPanicked ∉ <[t := w']> (workers s)) as H.
  { intros t w Ht w' Hne. destruct (insert_split _ t w w' Ht) as (rest & Hr1 & Hr2). rewrite Hr2, Hr1. set_solver. }
  destruct e as [t|t|t|t|t|t]; simpl; intros E Hp Hn; [..|by destruct (Hp t)];
    destruct (workers s !! t) as [[| | | | |]|] eqn:Ht; try done; repeat case_match; try done;
    injection E as <-; simpl; by eapply (H t).
Qed.

(** A request in the hands of a thread. *)
Lemma in_hand_thread s r :
  r ∈ in_hand s -> exists t, workers s !! t = Some (WRunning r) \/ workers s !! t = Some (WSending r).
Proof.
  unfold in_hand. intros (w & Hw & E)%list_elem_of_omap. apply list_elem_of_lookup_1 in Hw as [t Ht].
  exists t. destruct w; simplify_eq; auto.
Qed.

(** A send is accepted while the queue has room for everything that was sent and
    not every thread has panicked. *)
Lemma send_accepted cores s :
  pool_ok cores s -> receiver_open s = true -> sender_open s = true -> length (sent s) < cores * 2 ->
  Exists (fun w => w <> WPanicked) (workers s) -> forall r, is_Some (owner_step s (TrySend r)).
Proof.
  intros Hok Hr Ho Hs Hex r. pose proof Hok as [H1 H2 H3 H4 H5 H6 H7 H8].
  pose proof (pending_length _ _ Hok Hr) as Hlen. simpl. rewrite Ho. unfold pending in Hlen. rewrite !length_app in Hlen.
  rewrite (proj2 (Nat.ltb_lt _ _)) by lia. apply Exists_exists in Hex as (w & Hw & Hne).
  rewrite (proj2 (existsb_exists _ _)); [by eexists|]. exists w. split; [by apply list_elem_of_In|].
  specialize (H5 Ho Hr). rewrite Forall_forall in H5. specialize (H5 _ Hw). by destruct w.
Qed.

(** Whoever waits for an output waits for a thread that can go on, if none has
    panicked: the step is not a panic. *)
Lemma pending_progress cores s :
  pool_ok cores s -> receiver_open s = true -> pending s <> [] -> WPanicked ∉ workers s ->
  outputs s <> [] \/ exists e, (forall t, e <> PanicThread t) /\ is_Some (worker_step s e).
Proof.
  intros [H1 H2 H3 H4 H5 H6 H7 H8] Hr Hp Hnp. unfold pending in Hp.
  destruct (outputs s) as [|o l] eqn:Hout; [right|by left]. rewrite app_nil_r in Hp.
  destruct (in_hand s) as [|r rest] eqn:Hh.
  - rewrite app_nil_r in Hp. destruct (inputs s) as [|r l] eqn:Hi; [done|].
    destruct (workers s) as [|w ws] eqn:Hw; [simpl in *; lia|]. destruct w as [| |r'|r'| |].
    + exists (StartThread 0). split; [done|]. simpl. rewrite Hw. simpl. by eexists.
    + exists (TakeInput 0). split; [done|]. simpl. rewrite Hw, Hi. simpl. by eexists.
    + unfold in_hand in Hh. rewrite Hw in Hh. done.
    + unfold in_hand in Hh. rewrite Hw in Hh. done.
    + destruct (H7 Hr) as [? _]; [by left|done].
    + destruct Hnp. by left.
  - destruct (in_hand_thread s r) as (t & [Ht|Ht]); [rewrite Hh; by left| |].
    + exists (EndRun t). split; [done|]. simpl. rewrite Ht. by eexists.
    + exists (SendOutput t). split; [done|]. simpl. rewrite Ht, Hr, Hout. apply lookup_lt_Some in Ht.
      rewrite (proj2 (Nat.ltb_lt _ _)) by (simpl; lia). by eexists.
Qed.

(** Threads that cannot go on after the end of the requests have ended. *)
Lemma stuck_joined cores s :
  pool_ok cores s -> receiver_open s = true -> sender_open s = false -> length (pending s) <= cores * 2 ->
  (forall e, worker_step s e = None) -> joined s /\ in_hand s = [].
Proof.
  intros Hok Hr Ho Hp Hstuck. pose proof Hok as [H1 H2 H3 H4 H5 H6 H7 H8].
  assert (joined s) as Hj.
  { apply Forall_forall. intros w Hw. apply list_elem_of_lookup_1 in Hw as [t Ht].
    pose proof (stuck_thread s t w Ht Hr Hstuck) as Hs. destruct w as [| |r|r| |]; try done.
    - destruct Hs. congruence.
    - exfalso. assert (r ∈ in_hand s) as Hin.
      { apply list_elem_of_omap. exists (WSending r). split; [by eapply list_elem_of_lookup_2|done]. }
      unfold pending in Hp. rewrite !length_app in Hp.
      destruct (in_hand s); [by apply elem_of_nil in Hin|simpl in Hp; lia]. }
  split; [done|]. unfold in_hand. unfold joined in Hj. clear -Hj.
  induction Hj as [|w l Hw _ IH]; [done|]. by destruct w.
Qed.

(** Then, without panics, every output is there. *)
Lemma stuck_delivered cores s :
  pool_ok cores s -> receiver_open s = true -> joined s -> in_hand s = [] -> WPanicked ∉ workers s ->
  sent s ≡ₚ received s ++ outputs s.
Proof.
  intros Hok Hr Hj Hh Hnp. pose proof Hok as [H1 H2 H3 H4 H5 H6 H7 H8]. assert (inputs s = []) as Hi.
  { destruct (workers s) as [|w l] eqn:Hw; [destruct (inputs s); [done|simpl in *; lia]|].
    unfold joined in Hj. rewrite Hw in Hj. apply Forall_cons in Hj as [Hj _].
    destruct w; try done; [apply (H7 Hr); by left|destruct Hnp; by left]. }
  rewrite (H6 Hr), (none_lost _ _ Hok Hnp). unfold pending. by rewrite Hi, Hh, !app_nil_r.
Qed.

(** * Properties *)

(** The owner of the pool gets every output.  While the owner keeps the receiver:
    as long as fewer requests were sent than the queue has places and some thread
    has not panicked, a send is accepted; when an output is missing and no thread
    has panicked, there is one to receive or a thread can go on, so receiving does
    not wait for ever; and after the queue of requests was closed, with no more
    outputs missing than the other queue has places, the threads stop after a
    bounded number of steps, and when none can go on every one has ended, so that
    [shutdown] ends, and if none has panicked every request that was sent has an
    output that was received or is in the queue. *)
Theorem pool_delivers cores s :
  reachable cores s -> receiver_open s = true ->
  (sender_open s = true -> length (sent s) < cores * 2 -> Exists (fun w => w <> WPanicked) (workers s) ->
     forall r, is_Some (owner_step s (TrySend r))) /\
  (pending s <> [] -> WPanicked ∉ workers s ->
     outputs s <> [] \/ exists e, (forall t, e <> PanicThread t) /\ is_Some (worker_step s e)) /\
  (sender_open s = false -> length (pending s) + length (lost s) <= cores * 2 ->
     forall es s', threads_run s es = Some s' ->
       length es <= work s /\
       ((forall e, worker_step s' e = None) ->
          joined s' /\ (WPanicked ∉ workers s' -> sent s ≡ₚ received s ++ outputs s'))).
Proof.
  intros Hok%reachable_ok Hr. split_and!.
  - by eapply send_accepted.
  - by eapply pending_progress.
  - intros Ho Hp es s' Hrun. destruct (threads_run_ok _ _ _ _ Hok Hrun) as (Hok' & Hw & Ho' & Hr' & Hrc & Hst).
    split; [lia|]. intros Hstuck. rewrite Hr in Hr'. rewrite Ho in Ho'. rewrite <-Hst, <-Hrc.
    destruct (stuck_joined cores s') as [Hj Hh]; [done..| |done|].
    + pose proof (pending_length _ _ Hok' Hr') as Hlen'. pose proof (pending_length _ _ Hok Hr).
      rewrite Hst, Hrc in Hlen'. lia.
    + split; [done|]. by eapply stuck_delivered.
Qed.

(** ** A concrete pool *)

(** Two requests for one thread, the queue closed while the first one runs. *)
Definition example_events : list (OwnerEvent + ThreadEvent) :=
  [inl (TrySend 7); inl (TrySend 8); inr (StartThread 0); inr (TakeInput 0); inl CloseSender].
Definition example_pool : Pool := default (Pool_new 1) (pool_run (Pool_new 1) example_events).
Definition example_rest : list ThreadEvent :=
  [EndRun 0; SendOutput 0; TakeInput 0; EndRun 0; SendOutput 0; SeeClosed 0].
Definition example_done : Pool := default example_pool (threads_run example_pool example_rest).

Lemma sync_run_reachable cores es s s' : reachable cores s -> pool_run s es = Some s' -> reachable cores s'.
Proof.
  revert s. induction es as [|[e|e] es IH]; intros s Hs; simpl; [by intros [= <-]|..].
  - destruct (owner_step s e) as [s1|] eqn:E; [cbn|done]. apply IH. by eapply reach_owner.
  - destruct (worker_step s e) as [s1|] eqn:E; [cbn|done]. apply IH. by eapply reach_thread.
Qed.

Lemma pool_delivers_witness :
  outputs example_done = [7; 8] /\ joined example_done /\ sent example_pool ≡ₚ received example_pool ++ outputs example_done.
Proof.
  split; [reflexivity|].
  destruct (pool_delivers 1 example_pool) as (_ & _ & H); [|reflexivity|].
  { apply (sync_run_reachable 1 example_events (Pool_new 1)); [apply reach_new|reflexivity]. }
  refine ((fun J => conj (proj1 J) (proj2 J _)) (proj2 (H eq_refl _ example_rest example_done eq_refl) _)).
  - vm_compute. intros Hin. by apply elem_of_cons in Hin as [?|?%elem_of_nil].
  - vm_compute. lia.
  - intros [[|t]|[|t]|[|t]|[|t]|[|t]|[|t]]; reflexivity.
Defined.

(** Joining with more outputs missing than the queue has places never ends: the
    thread waits for room, and the receiver is kept until it has returned. *)
Example shutdown_can_block :
  let s := default (Pool_new 1) (pool_run (Pool_new 1)
    [inr (StartThread 0); inl (TrySend 1); inl (TrySend 2); inr (TakeInput 0); inr (EndRun 0); inr (SendOutput 0);
     inr (TakeInput 0); inr (EndRun 0); inr (SendOutput 0); inl (TrySend 3);
     inr (TakeInput 0); inr (EndRun 0); inl CloseSender]) in
  workers s = [WSending 3] /\ forall e, worker_step s e = None.
Proof. split; [reflexivity|]. intros [[|t]|[|t]|[|t]|[|t]|[|t]|[|t]]; reflexivity. Qed.
