(* ===== verification/ImageIndex.v ===== *)
(** The index of image files (src/peimage/src/index.rs).

    An image file ends with a JSON index of its images, the size of the index
    and a magic number.  [PEImageIndex_from_file] finds and reads it; the multi
    index joins the indexes of many files under the names or the digests of the
    images.  serde_json and the files of the directory are parameters. *)
From stdpp Require Import option base list sets numbers strings gmap.
From Stdlib Require Import ZArith Lia.
From S2P Require Import Prelude MemFile BTree Paths Text IoFile RuntimeSpec OciDist.
#[local] Open Scope Z_scope.
#[local] Open Scope result_scope.

Definition INDEX_JSON_MAGIC : Z := 0x1db56abd7b82da38.

(** The messages of the [io::Error]s; [Os] is an error of the system. *)
Inductive IndexError :=
  | Os | UnexpectedEof | TooShortForMagic | NoMagic | TooShortForIndex | BadIndexJson
  | NoRootfsKind | DuplicateName.

(** * Image ids *)

Record PEImageId := { id_digest : bstr; id_repository : bstr; id_registry : bstr; id_tag : bstr }.

Definition name (i : PEImageId) : bstr :=
  id_registry i ++ bytes_of_string "/" ++ id_repository i ++ bytes_of_string ":" ++ id_tag i.

(** [str::replace] of one ASCII character by another. *)
Definition replace_byte (a b : byte) (s : bstr) : bstr := (fun x => if decide (x = a) then b else x) <$> s.

Definition upstream_link (i : PEImageId) : option bstr :=
  if decide (id_registry i = bytes_of_string "index.docker.io") then
    Some (bytes_of_string "https://hub.docker.com/layers/" ++ id_repository i ++ bytes_of_string "/" ++
          id_tag i ++ bytes_of_string "/images/" ++ replace_byte x3a x2d (id_digest i))
  else if decide (id_registry i = bytes_of_string "quay.io") then
    Some (bytes_of_string "https://quay.io/repository/" ++ id_repository i ++ bytes_of_string "/" ++ id_digest i)
  else None.

Record PEImageIndexEntry := {
  rootfs : bstr; ie_config : OciImage.ImageConfiguration; ie_manifest : Manifest; id : PEImageId;
}.

Definition PEImageIndex : Type := list PEImageIndexEntry.  (** [images] *)

(** * One file *)

Section file.
Context (parse_index_json : bstr -> option PEImageIndex).

(** [Read::read_exact] of [n] bytes at a position. *)
Definition read_exact (n : Z) (o : Out) : result IndexError (bstr * Out) :=
  let? data := ok_or (get_range (o_bytes o) (o_pos o) (o_pos o + n)) UnexpectedEof in
  Ok (data, seek (o_pos o + n) o).

(** [Seek::seek] from the end: a position before the start is refused. *)
Definition seek_end (off : Z) (o : Out) : result IndexError Out :=
  let pos := zlen (o_bytes o) + off in
  if pos <? 0 then Err Os else Ok (seek pos o).

(** The sum [8 + 4 + data_size] is one of 32 bits. *)
Definition PEImageIndex_from_file (o : Out) : result IndexError PEImageIndex :=
  let len := zlen (o_bytes o) in
  if len <? 8 + 4 then Err TooShortForMagic else
  let? o := seek_end (- (8 + 4)) o in
  let? '(size, o) := read_exact 4 o in
  let data_size := le_val size in
  let? '(m, o) := read_exact 8 o in
  let magic := le_val m in
  if negb (magic =? INDEX_JSON_MAGIC) then Err NoMagic else
  if len <? wadd 64 (wadd 64 data_size 8) 4 then Err TooShortForIndex else
  let? o := seek_end (- wadd 32 (8 + 4) data_size) o in
  let? '(buf, _) := read_exact data_size o in
  ok_or (parse_index_json buf) BadIndexJson.

(** [File::open] and the contents of the file. *)
Context (open : bstr -> result IndexError bstr).

Definition PEImageIndex_from_path (p : bstr) : result IndexError PEImageIndex :=
  let? data := open p in PEImageIndex_from_file {| o_bytes := data; o_pos := 0 |}.
End file.

(** * Many files *)

Record PEImageMultiIndexEntry := {
  me_path : bstr; me_image : PEImageIndexEntry; me_rootfs_kind : RootfsKind;
}.

Inductive PEImageMultiIndexKeyType := Name | DigestWithSlash | Digest.

Record PEImageMultiIndex := {
  map : gmap bstr PEImageMultiIndexEntry; key_type : PEImageMultiIndexKeyType;
}.

Definition PEImageMultiIndex_new (kt : PEImageMultiIndexKeyType) : PEImageMultiIndex :=
  {| map := ∅; key_type := kt |}.
Definition PEImageMultiIndex_default : PEImageMultiIndex := PEImageMultiIndex_new Digest.

Definition get (m : PEImageMultiIndex) (k : bstr) : option PEImageMultiIndexEntry := map m !! k.
Definition is_empty (m : PEImageMultiIndex) : bool := bool_decide (map m = ∅).

(** The key that [insert] chooses. *)
Definition key_of (kt : PEImageMultiIndexKeyType) (i : PEImageId) : bstr :=
  match kt with
  | Name => name i
  | DigestWithSlash => replace_byte x3a x2f (id_digest i)
  | Digest => id_digest i
  end.

Definition insert (i : PEImageId) (e : PEImageMultiIndexEntry) (m : PEImageMultiIndex) : PEImageMultiIndex :=
  {| map := <[key_of (key_type m) i := e]> (map m); key_type := key_type m |}.

Section files.
Context (parse_index_json : bstr -> option PEImageIndex) (open : bstr -> result IndexError bstr).

(** The loop over the images: an error keeps what was inserted before it. *)
Fixpoint add_images (path : bstr) (kind : RootfsKind) (images : list PEImageIndexEntry)
    (m : PEImageMultiIndex) : PEImageMultiIndex * result IndexError unit :=
  match images with
  | [] => (m, Ok tt)
  | image :: images =>
      if bool_decide (is_Some (map m !! name (id image))) then (m, Err DuplicateName) else
      add_images path kind images
        (insert (id image) {| me_path := path; me_image := image; me_rootfs_kind := kind |} m)
  end.

Definition add_path (path : bstr) (m : PEImageMultiIndex) : PEImageMultiIndex * result IndexError unit :=
  match PEImageIndex_from_path parse_index_json open path with
  | Ok idx =>
      match RootfsKind_try_from_path_name path with
      | Some kind => add_images path kind idx m
      | None => (m, Err NoRootfsKind)
      end
  | Err e => (m, Err e)
  | Panic => (m, Panic)
  end.

Fixpoint add_paths (paths : list bstr) (m : PEImageMultiIndex) : PEImageMultiIndex * result IndexError unit :=
  match paths with
  | [] => (m, Ok tt)
  | p :: paths =>
      match add_path p m with
      | (m, Ok _) => add_paths paths m
      | r => r
      end
  end.

Definition from_paths (kt : PEImageMultiIndexKeyType) (paths : list bstr)
    : result IndexError PEImageMultiIndex :=
  match add_paths paths (PEImageMultiIndex_new kt) with
  | (m, Ok _) => Ok m
  | (_, Err e) => Err e
  | (_, Panic) => Panic
  end.

Definition from_paths_by_digest_with_colon : list bstr -> result IndexError PEImageMultiIndex :=
  from_paths Digest.

Definition is_erofs_or_sqfs (p : bstr) : bool :=
  match extension p with
  | Some s => bool_decide (s = bytes_of_string "erofs") || bool_decide (s = bytes_of_string "sqfs")
  | None => false
  end.

(** A directory is the list its iterator gives; entries with an error are skipped. *)
Definition add_dir (is_file : bstr -> bool) (read_dir : result IndexError (list (result IndexError bstr)))
    (m : PEImageMultiIndex) : PEImageMultiIndex * result IndexError unit :=
  match read_dir with
  | Ok entries =>
      add_paths (filter (fun p => Is_true (is_file p && is_erofs_or_sqfs p))
                   (omap (fun e => match e with Ok p => Some p | _ => None end) entries)) m
  | Err e => (m, Err e)
  | Panic => (m, Panic)
  end.
End files.

(** * Lemmas *)

(** The bytes after the index. *)
Definition trailer (size : Z) : bstr := le_bytes 4 size ++ le_bytes 8 INDEX_JSON_MAGIC.

Lemma zlen_trailer size : zlen (trailer size) = 12.
Proof. unfold trailer. by rewrite zlen_app, !zlen_le_bytes. Qed.

(** The last twelve bytes, as the reader takes them. *)
Lemma read_trailer pre size m :
  zlen size = 4 -> zlen m = 8 ->
  seek_end (- (8 + 4)) {| o_bytes := pre ++ size ++ m; o_pos := 0 |} =
    Ok {| o_bytes := pre ++ size ++ m; o_pos := zlen pre |} /\
  read_exact 4 {| o_bytes := pre ++ size ++ m; o_pos := zlen pre |} =
    Ok (size, {| o_bytes := pre ++ size ++ m; o_pos := zlen pre + 4 |}) /\
  read_exact 8 {| o_bytes := pre ++ size ++ m; o_pos := zlen pre + 4 |} =
    Ok (m, {| o_bytes := pre ++ size ++ m; o_pos := zlen pre + 12 |}).
Proof.
  intros Hs Hm. pose proof (zlen_nonneg pre). unfold seek_end, read_exact, seek. simpl.
  rewrite !zlen_app, Hs, Hm. split_and!.
  - rewrite (proj2 (Z.ltb_ge _ _)) by lia. do 2 f_equal. lia.
  - rewrite (get_range_app pre size m) by lia. done.
  - rewrite app_assoc, <-(app_nil_r m) at 1. rewrite <-app_assoc.
    rewrite (app_assoc pre), (get_range_app (pre ++ size) m []) by (rewrite ?zlen_app; lia). simpl.
    do 3 f_equal. lia.
Qed.

(** A file of twelve bytes or more has a trailer. *)
Lemma trailer_split (f : bstr) :
  12 <= zlen f -> exists pre size m, f = pre ++ size ++ m /\ zlen size = 4 /\ zlen m = 8.
Proof.
  intros Hf. exists (ztake (zlen f - 12) f), (ztake 4 (zdrop (zlen f - 12) f)),
    (zdrop 4 (zdrop (zlen f - 12) f)).
  assert (zlen (zdrop (zlen f - 12) f) = 12) as Hl by (rewrite zlen_zdrop; lia).
  split_and!; [by rewrite !ztake_zdrop|by rewrite zlen_ztake by lia|by rewrite zlen_zdrop by lia; lia].
Qed.

Lemma le_val_inj_bytes l n : length l = n -> le_bytes n (le_val l) = l.
Proof.
  intros <-. induction l as [|b l IH]; [done|]. simpl length.
  change (le_bytes (S (length l)) (le_val (b :: l))) with
    (byte_of (le_val (b :: l)) :: le_bytes (length l) (le_val (b :: l) / 256)).
  change (le_val (b :: l)) with (byte_val b + 256 * le_val l).
  pose proof (byte_val_range b). f_equal.
  - apply byte_val_inj. by rewrite byte_val_of, (Z.mul_comm 256), Z_mod_plus_full, Z.mod_small by lia.
  - by rewrite (Z.mul_comm 256), Z.div_add, Z.div_small by lia.
Qed.

(** What the reader does with a file, in terms of its parts. *)
Lemma from_file_split parse pre size m :
  zlen size = 4 -> zlen m = 8 ->
  PEImageIndex_from_file parse {| o_bytes := pre ++ size ++ m; o_pos := 0 |} =
    if negb (le_val m =? INDEX_JSON_MAGIC) then Err NoMagic
    else if zlen pre <? le_val size then Err TooShortForIndex
    else if 2 ^ 32 - 12 <=? le_val size then Err UnexpectedEof
    else ok_or (parse (zdrop (zlen pre - le_val size) pre)) BadIndexJson.
Proof.
  intros Hs Hm. destruct (read_trailer pre size m Hs Hm) as (E1 & E2 & E3).
  assert (zlen (pre ++ size ++ m) = zlen pre + 12) as Hlen by (rewrite !zlen_app; lia).
  pose proof (zlen_nonneg pre) as Hp.
  pose proof (le_val_range size) as Hr. rewrite Hs in Hr. change (256 ^ 4) with 4294967296 in Hr.
  unfold PEImageIndex_from_file. cbn [o_bytes]. rewrite Hlen, (proj2 (Z.ltb_ge _ _)) by lia.
  rewrite E1. cbn [rbind]. rewrite E2. cbn [rbind]. rewrite E3. cbn [rbind].
  destruct (negb _); [done|]. rewrite (wadd_small 64 (le_val size) 8), (wadd_small 64) by (unfold in_width; lia).
  destruct (Z.ltb_spec (zlen pre) (le_val size)); [by rewrite (proj2 (Z.ltb_lt _ _)) by lia|].
  rewrite (proj2 (Z.ltb_ge _ _)) by lia.
  unfold seek_end. cbn [o_bytes]. rewrite Hlen.
  destruct (Z.leb_spec (2 ^ 32 - 12) (le_val size)) as [Hbig|Hsmall].
  - assert (wadd 32 (8 + 4) (le_val size) = le_val size - (2 ^ 32 - 12)) as ->.
    { unfold wadd, wrap. symmetry. apply (Z.mod_unique_pos _ _ 1); lia. }
    rewrite (proj2 (Z.ltb_ge _ _)) by lia. cbn [rbind]. unfold read_exact, get_range. cbn [o_bytes o_pos seek].
    rewrite Hlen, (proj2 (Z.leb_gt _ (zlen pre + 12))) by lia. by rewrite andb_false_r.
  - rewrite wadd_small by (unfold in_width; lia). rewrite (proj2 (Z.ltb_ge _ _)) by lia. cbn [rbind].
    unfold read_exact. cbn [o_bytes o_pos seek].
    rewrite <-(ztake_zdrop (zlen pre - le_val size) pre) at 1. rewrite <-app_assoc.
    rewrite (get_range_app _ (zdrop (zlen pre - le_val size) pre)); [done| |];
      rewrite ?zlen_ztake, ?zlen_zdrop by lia; lia.
Qed.

Lemma from_file_trailer parse body json idx :
  zlen json < 2 ^ 32 - 12 -> parse json = Some idx ->
  PEImageIndex_from_file parse {| o_bytes := body ++ json ++ trailer (zlen json); o_pos := 0 |} = Ok idx.
Proof.
  intros Hj Hp. pose proof (zlen_nonneg body). pose proof (zlen_nonneg json). unfold trailer.
  rewrite app_assoc, from_file_split by apply zlen_le_bytes.
  rewrite !le_val_bytes by (simpl; unfold INDEX_JSON_MAGIC; lia). rewrite Z.eqb_refl. simpl negb. cbv iota.
  rewrite zlen_app, (proj2 (Z.ltb_ge _ _)), (proj2 (Z.leb_gt _ _)) by lia.
  replace (zlen body + zlen json - zlen json) with (zlen body) by lia. by rewrite zdrop_app, Hp.
Qed.

Lemma from_file_Ok_inv parse (f : bstr) idx :
  PEImageIndex_from_file parse {| o_bytes := f; o_pos := 0 |} = Ok idx ->
  exists body json, f = body ++ json ++ trailer (zlen json) /\ zlen json < 2 ^ 32 - 12 /\
    parse json = Some idx.
Proof.
  destruct (Z.leb_spec 12 (zlen f)) as [Hl|Hl];
    [|unfold PEImageIndex_from_file; simpl o_bytes; by rewrite (proj2 (Z.ltb_lt _ _)) by lia].
  destruct (trailer_split f Hl) as (pre & size & m & -> & Hs & Hm).
  rewrite from_file_split by done. pose proof (le_val_range size) as Hr.
  destruct (Z.eqb_spec (le_val m) INDEX_JSON_MAGIC) as [Hmag|Hmag]; simpl negb; cbv iota; [|done].
  destruct (Z.ltb_spec (zlen pre) (le_val size)); [done|].
  destruct (Z.leb_spec (2 ^ 32 - 12) (le_val size)); [done|]. rewrite ok_or_Ok. intros Hp.
  exists (ztake (zlen pre - le_val size) pre), (zdrop (zlen pre - le_val size) pre).
  assert (zlen (zdrop (zlen pre - le_val size) pre) = le_val size) as Hz by (rewrite zlen_zdrop; lia).
  split_and!; [|lia|done]. rewrite Hz, (app_assoc (ztake _ pre)), ztake_zdrop. unfold trailer.
  by rewrite <-Hmag, !le_val_inj_bytes by (unfold zlen in *; lia).
Qed.

Lemma from_file_no_panic parse (f : bstr) :
  PEImageIndex_from_file parse {| o_bytes := f; o_pos := 0 |} <> Panic.
Proof.
  destruct (Z.leb_spec 12 (zlen f)) as [Hl|Hl];
    [|unfold PEImageIndex_from_file; simpl o_bytes; by rewrite (proj2 (Z.ltb_lt _ _)) by lia].
  destruct (trailer_split f Hl) as (pre & size & m & -> & Hs & Hm). rewrite from_file_split by done.
  by repeat case_match; try destruct (parse _).
Qed.

(** ** Many files *)

(** The entries that a list of images adds, in order. *)
Definition entries_of (kt : PEImageMultiIndexKeyType) (path : bstr) (kind : RootfsKind)
    (images : list PEImageIndexEntry) : list (bstr * PEImageMultiIndexEntry) :=
  (fun image => (key_of kt (id image), {| me_path := path; me_image := image; me_rootfs_kind := kind |})) <$> images.

Definition insert_entries (l : list (bstr * PEImageMultiIndexEntry)) (m : gmap bstr PEImageMultiIndexEntry) :=
  list_to_map (reverse l) ∪ m.

Lemma insert_entries_cons k e l m : insert_entries ((k, e) :: l) m = insert_entries l (<[k := e]> m).
Proof.
  unfold insert_entries. rewrite reverse_cons, list_to_map_app, <-map_union_assoc. f_equal. simpl.
  by rewrite insert_empty, <-insert_union_singleton_l.
Qed.

Lemma insert_entries_app l1 l2 m : insert_entries (l1 ++ l2) m = insert_entries l2 (insert_entries l1 m).
Proof. unfold insert_entries. by rewrite reverse_app, list_to_map_app, map_union_assoc. Qed.

Lemma add_images_Ok path kind images m m' :
  add_images path kind images m = (m', Ok tt) ->
  key_type m' = key_type m /\ map m' = insert_entries (entries_of (key_type m) path kind images) (map m) /\
  (key_type m = Name -> NoDup (name ∘ id <$> images) /\ forall i, i ∈ images -> map m !! name (id i) = None).
Proof.
  revert m. induction images as [|image images IH]; intros m; simpl.
  - intros [= <-]. split_and!; [done| |].
    + unfold insert_entries. simpl. by rewrite map_empty_union.
    + intros _. split; [constructor|]. intros i Hi. by apply elem_of_nil in Hi.
  - case_bool_decide as Hd; [discriminate|]. apply eq_None_not_Some in Hd. intros E.
    apply IH in E as (Hk & Hm & Hn). simpl in *. split_and!; [done|by rewrite insert_entries_cons|].
    intros Hkt. destruct (Hn Hkt) as [Hnd Hnone]. rewrite Hkt in Hnone. simpl in Hnone. split.
    + constructor; [|done]. intros (i & Hi & Hin)%list_elem_of_fmap. apply Hnone in Hin.
      unfold compose in Hi. rewrite <-Hi, lookup_insert_eq in Hin. discriminate Hin.
    + intros i [->|Hin]%elem_of_cons; [done|]. apply Hnone in Hin.
      by apply lookup_insert_None in Hin as [? _].
Qed.

Lemma elem_of_entries kt path kind images k e :
  (k, e) ∈ entries_of kt path kind images <->
  exists image, image ∈ images /\ k = key_of kt (id image) /\
    e = {| me_path := path; me_image := image; me_rootfs_kind := kind |}.
Proof.
  unfold entries_of. rewrite list_elem_of_fmap. split.
  - intros (image & [= -> ->] & Hin). eauto.
  - intros (image & Hin & -> & ->). eauto.
Qed.

Section joining.
Context (parse_index_json : bstr -> option PEImageIndex) (open : bstr -> result IndexError bstr).

Definition entry_of (kt : PEImageMultiIndexKeyType) (k : bstr) (e : PEImageMultiIndexEntry) : Prop :=
  exists idx, PEImageIndex_from_path parse_index_json open (me_path e) = Ok idx /\ me_image e ∈ idx /\
    RootfsKind_try_from_path_name (me_path e) = Some (me_rootfs_kind e) /\ k = key_of kt (id (me_image e)).

Lemma add_paths_Ok paths m m' :
  add_paths parse_index_json open paths m = (m', Ok tt) ->
  key_type m' = key_type m /\ exists l, map m' = insert_entries l (map m) /\
  (forall k e, (k, e) ∈ l <-> me_path e ∈ paths /\ entry_of (key_type m) k e) /\
  (forall p, p ∈ paths -> exists idx kind, PEImageIndex_from_path parse_index_json open p = Ok idx /\
     RootfsKind_try_from_path_name p = Some kind) /\
  (key_type m = Name -> NoDup l.*1 /\ forall k, k ∈ l.*1 -> map m !! k = None).
Proof.
  revert m. induction paths as [|p paths IH]; intros m; simpl.
  - intros [= <-]. split; [done|]. exists []. split_and!.
    + unfold insert_entries. simpl. by rewrite map_empty_union.
    + intros k e. split; [by intros ?%elem_of_nil|]. by intros [?%elem_of_nil _].
    + by intros ? ?%elem_of_nil.
    + intros _. split; [constructor|]. by intros k ?%elem_of_nil.
  - destruct (add_path _ _ p m) as [m1 [[]| |]] eqn:E1; [|discriminate..]. intros E.
    apply IH in E as (Hk & l & Hm & Hl & Hp & Hn). unfold add_path in E1.
    destruct (PEImageIndex_from_path _ _ p) as [idx| |] eqn:Ei; [|discriminate..].
    destruct (RootfsKind_try_from_path_name p) as [kind|] eqn:Ek; [|discriminate].
    apply add_images_Ok in E1 as (Hk1 & Hm1 & Hn1). rewrite Hk1 in *. split; [done|].
    exists (entries_of (key_type m) p kind idx ++ l). split_and!.
    + by rewrite insert_entries_app, <-Hm1.
    + intros k e. rewrite elem_of_app, elem_of_entries, Hl, elem_of_cons. split.
      * intros [(image & Hin & -> & ->)|[Hin He]]; [|by eauto]. split; [by left|]. by exists idx.
      * intros [[Hp0|Hin] He]; [left|by eauto]. destruct He as (idx' & Hi & Him & Hkd & ->).
        rewrite Hp0 in Hi, Hkd. assert (idx' = idx) as -> by congruence. exists (me_image e).
        split_and!; [done..|]. destruct e as [pe ie ke]. simpl in *. subst pe. congruence.
    + intros q [->|Hin]%elem_of_cons; [by eauto|by apply Hp].
    + intros Hkt. destruct (Hn1 Hkt) as [Hnd Hnone]. destruct (Hn Hkt) as [Hnd2 Hnone2].
      assert ((entries_of (key_type m) p kind idx).*1 = name ∘ id <$> idx) as Hfst.
      { unfold entries_of. rewrite Hkt, <-list_fmap_compose. done. }
      rewrite fmap_app, Hfst. split.
      * apply NoDup_app. split_and!; [done| |done]. intros k (i & -> & Hi)%list_elem_of_fmap Hk2.
        apply Hnone2 in Hk2. rewrite Hm1 in Hk2. unfold insert_entries in Hk2.
        apply lookup_union_None in Hk2 as [Hk2 _]. apply not_elem_of_list_to_map_2 in Hk2.
        apply Hk2. rewrite fmap_reverse, elem_of_reverse, Hfst. apply list_elem_of_fmap. by exists i.
      * intros k [(i & -> & Hi)%list_elem_of_fmap|Hk2]%elem_of_app; [by apply Hnone|].
        apply Hnone2 in Hk2. rewrite Hm1 in Hk2. by apply lookup_union_None in Hk2 as [_ ?].
Qed.
End joining.

(** * Properties *)

(** C32: the index of an image file is found by its trailer.  Reading never
    panics, and it succeeds exactly when the file ends with an index that parses,
    the size of the index and the magic number, and the size leaves room for the
    twelve bytes of the trailer in 32 bits. *)
Theorem from_file_spec parse (f : bstr) :
  PEImageIndex_from_file parse {| o_bytes := f; o_pos := 0 |} <> Panic /\
  forall idx, PEImageIndex_from_file parse {| o_bytes := f; o_pos := 0 |} = Ok idx <->
    exists body json, f = body ++ json ++ trailer (zlen json) /\ zlen json < 2 ^ 32 - 12 /\
      parse json = Some idx.
Proof.
  split; [apply from_file_no_panic|]. intros idx. split; [apply from_file_Ok_inv|].
  intros (body & json & -> & Hj & Hp). by apply from_file_trailer.
Qed.

(** The multi index has the images of its files.  When the index of some
    files is built, every entry is an image of one of the files, under its key;
    every image of every file has an entry under its key, and when the keys are
    names it is the entry of that very image. *)
Theorem from_paths_complete parse open kt paths m :
  from_paths parse open kt paths = Ok m ->
  (forall k e, get m k = Some e -> me_path e ∈ paths /\ entry_of parse open kt k e) /\
  (forall p, p ∈ paths -> exists idx kind,
     PEImageIndex_from_path parse open p = Ok idx /\ RootfsKind_try_from_path_name p = Some kind /\
     forall image, image ∈ idx -> exists e, get m (key_of kt (id image)) = Some e /\
       (kt = Name -> e = {| me_path := p; me_image := image; me_rootfs_kind := kind |})).
Proof.
  unfold from_paths. destruct (add_paths _ _ paths _) as [m' [[]| |]] eqn:E; [|discriminate..].
  intros [= ->]. apply add_paths_Ok in E as (_ & l & Hm & Hl & Hp & Hn). simpl in *.
  unfold insert_entries in Hm. rewrite map_union_empty in Hm. unfold get. rewrite Hm. split.
  - intros k e He%elem_of_list_to_map_2. by apply Hl, elem_of_reverse.
  - intros p Hin. destruct (Hp p Hin) as (idx & kind & Hi & Hk). exists idx, kind. split_and!; [done..|].
    intros image Him. set (e := {| me_path := p; me_image := image; me_rootfs_kind := kind |}).
    assert ((key_of kt (id image), e) ∈ l) as Hel by (apply Hl; split; [done|]; by exists idx).
    destruct (list_to_map (reverse l) !! key_of kt (id image)) as [e'|] eqn:Ee.
    + exists e'. split; [done|]. intros Hkt. destruct (Hn Hkt) as [Hnd _].
      apply elem_of_reverse, (elem_of_list_to_map_1 (M := gmap bstr)) in Hel; [congruence|].
      by rewrite fmap_reverse, reverse_Permutation.
    + apply not_elem_of_list_to_map_2 in Ee. destruct Ee. rewrite fmap_reverse, elem_of_reverse.
      by apply (list_elem_of_fmap_2 fst) in Hel.
Qed.

(** Two files; the JSON of an index is a digit that selects it. *)
Definition example_image (d t : bstr) : PEImageIndexEntry :=
  {| rootfs := bytes_of_string "rootfs";
     ie_config := {| OciImage.architecture := OciImage.Amd64; OciImage.os := OciImage.Linux; OciImage.config := None |};
     ie_manifest := {| manifest_config := {| OciImage.media_type := OciImage.ImageLayer; OciImage.size := 0;
                         OciImage.desc_digest := {| OciImage.algorithm := OciImage.Sha256; OciImage.digest := d |} |};
                       config_platform := None; manifest_layers := [] |};
     id := {| id_digest := d; id_repository := bytes_of_string "library/busybox";
              id_registry := bytes_of_string "index.docker.io"; id_tag := t |} |}.
Definition example_json (b : bstr) : option PEImageIndex :=
  if decide (b = [x31]) then Some [example_image [x61] [x31]; example_image [x62] [x32]]
  else if decide (b = [x32]) then Some [example_image [x61] [x33]] else None.
Definition example_open (p : bstr) : result IndexError bstr :=
  if decide (p = bytes_of_string "a.erofs") then Ok ([x00; x00] ++ [x31] ++ trailer 1)
  else if decide (p = bytes_of_string "b.sqfs") then Ok ([x00] ++ [x32] ++ trailer 1) else Err Os.
Definition example_paths : list bstr := [bytes_of_string "a.erofs"; bytes_of_string "b.sqfs"].
Definition example_index (kt : PEImageMultiIndexKeyType) : PEImageMultiIndex :=
  ok_default PEImageMultiIndex_default (from_paths example_json example_open kt example_paths).

Lemma from_paths_complete_witness :
  exists e, get (example_index Name) (bytes_of_string "index.docker.io/library/busybox:3") = Some e /\
    me_path e = bytes_of_string "b.sqfs" /\ me_rootfs_kind e = Sqfs.
Proof.
  destruct (from_paths_complete example_json example_open Name example_paths (example_index Name)) as [_ H].
  - apply ok_default_is_ok. vm_compute. reflexivity.
  - destruct (H (bytes_of_string "b.sqfs")) as (idx & kind & Hi & Hk & Him).
    + right. left.
    + vm_compute in Hi. injection Hi as <-. vm_compute in Hk. injection Hk as <-.
      destruct (Him (example_image [x61] [x33])) as (e & He & Heq); [left|].
      exists e. split; [exact He|]. rewrite (Heq eq_refl). split; reflexivity.
Defined.

(** Keyed by digest, an image replaces another one with its digest: the check
    for duplicates looks the name up. *)
Example digest_replaced :
  match from_paths example_json example_open Digest example_paths with
  | Ok m => option_map me_path (get m [x61]) = Some (bytes_of_string "b.sqfs")
  | _ => False
  end.
Proof. vm_compute. reflexivity. Qed.

(** An index of 4 GiB less twelve bytes is refused although the file has it. *)
Lemma from_file_wraps parse pre :
  zlen pre = 2 ^ 32 - 12 ->
  PEImageIndex_from_file parse {| o_bytes := pre ++ trailer (zlen pre); o_pos := 0 |} = Err UnexpectedEof.
Proof.
  intros Hp. unfold trailer. rewrite from_file_split by apply zlen_le_bytes.
  rewrite !le_val_bytes by (simpl; unfold INDEX_JSON_MAGIC; lia). rewrite Z.eqb_refl. simpl negb. cbv iota.
  by rewrite Z.ltb_irrefl, Hp, Z.leb_refl.
Qed.
