(* ===== verification/Gist.v ===== *)
(** The gist client and its server (src/pegh/src/lib.rs, src/peserver/src/gh.rs).

    The client asks GitHub for a gist and fetches the files that GitHub cut off,
    one request at a time (a semaphore with one permit), and stops asking while
    it is rate limited.  The server caches the JSON of the gists.  The network is
    the list of answers with their delays; JSON and the decoding of text are
    parameters. *)
From stdpp Require Import option base list sets numbers strings gmap.
From Stdlib Require Import ZArith Lia.
From S2P Require Import Prelude BTree Text RuntimeSpec OciDist.
#[local] Open Scope Z_scope.

(** * Data *)

Inductive GistError := GReqwest | GStatusNotOk (status : Z) | GRatelimitExceeded | NoHistory | GUnknown.

Record Gist := { files : btree bstr; version : bstr; versions : list bstr }.

Record WireFile := { raw_url : bstr; truncated : bool; content : bstr }.
Record WireGist := { w_files : btree WireFile; history : list bstr }.

Record GistRequest := { g_url : bstr; g_accept : option bstr }.

(** The client, the time and the network. *)
Record GistWorld := {
  g_clock : Z; g_net : list (Z * option HttpResponse); g_sent : list GistRequest;
  g_ratelimit : option Z;
}.

(** * Computations *)

Definition G (A : Type) : Type := GistWorld -> GistWorld * result GistError A.
Definition gok {A} (a : A) : G A := fun w => (w, Ok a).
Definition gerr {A} (e : GistError) : G A := fun w => (w, Err e).
Definition gbind {A B} (c : G A) (k : A -> G B) : G B := fun w =>
  match c w with
  | (w, Ok a) => k a w
  | (w, Err e) => (w, Err e)
  | (w, Panic) => (w, Panic)
  end.
Definition glift {A} (r : result GistError A) : G A := fun w => (w, r).

Notation "'let+' x ':=' c 'in' k" := (gbind c (fun x => k))
  (at level 10, x name, c at level 100, k at level 200).

(** [RequestBuilder::send] *)
Definition gsend (req : GistRequest) : G HttpResponse := fun w =>
  let w' dt net := {| g_clock := g_clock w + dt; g_net := net; g_sent := g_sent w ++ [req];
                      g_ratelimit := g_ratelimit w |} in
  match g_net w with
  | [] => (w' 0 [], Err GReqwest)
  | (dt, None) :: net => (w' dt net, Err GReqwest)
  | (dt, Some r) :: net => (w' dt net, Ok r)
  end.

Definition set_ratelimit (end_ : option Z) : G unit := fun w =>
  ({| g_clock := g_clock w; g_net := g_net w; g_sent := g_sent w; g_ratelimit := end_ |}, Ok tt).

(** * Operations *)

Definition GIST_DEFAULT_RATELIMIT_RESET : Z := 60.

(** The parser of the registry client, copied. *)
Definition gist_get_ratelimit_reset_header (h : list (bstr * bstr)) : option Z :=
  match get_header (bytes_of_string "ratelimit-reset") h with
  | Some v => s ← to_str v; parse_uint 64 s
  | None =>
      match get_header (bytes_of_string "x-ratelimit-reset") h with
      | Some v => s ← to_str v; parse_uint 64 s
      | None => None
      end
  end.

Definition gist_status_not_ok (res : HttpResponse) : GistError := GStatusNotOk (status res).

Definition Client_new (clock : Z) (net : list (Z * option HttpResponse)) : GistWorld :=
  {| g_clock := clock; g_net := net; g_sent := []; g_ratelimit := None |}.

Section client.
Context (timestamp_ok : Z -> bool) (parse_gist : bstr -> option WireGist) (decode_text : bstr -> bstr).

Definition gist_ratelimit_end (res : HttpResponse) (t : Z) : Z :=
  match gist_get_ratelimit_reset_header (headers res) with
  | Some reset => if (reset <? 2 ^ 63) && timestamp_ok reset then reset else t + GIST_DEFAULT_RATELIMIT_RESET
  | None => t + GIST_DEFAULT_RATELIMIT_RESET
  end.

Definition limited (res : HttpResponse) : bool := (status res =? 403) || (status res =? 429).

Definition gist_handle_ratelimit (res : HttpResponse) : G unit := fun w =>
  if limited res then
    (let+ _ := set_ratelimit (Some (gist_ratelimit_end res (g_clock w))) in gerr GRatelimitExceeded) w
  else (w, Ok tt).

Definition gist_check_ratelimit : G unit := fun w =>
  match g_ratelimit w with
  | Some ratelimit_end =>
      if g_clock w <? ratelimit_end then (w, Err GRatelimitExceeded) else set_ratelimit None w
  | None => (w, Ok tt)
  end.

Definition get_raw_url (url : bstr) : G bstr :=
  let+ _ := gist_check_ratelimit in
  let+ res := gsend {| g_url := url; g_accept := None |} in
  let+ _ := gist_handle_ratelimit res in
  if status res =? 200 then
    let+ data := glift (ok_or (read_chunks (chunks res)) GReqwest) in gok (decode_text data)
  else gerr (gist_status_not_ok res).

(** The files that the answer has in full. *)
Definition full_files (fs : btree WireFile) : btree bstr :=
  fold_left (fun m nf => if truncated nf.2 then m else bt_insert nf.1 (content nf.2) m) fs [].

(** The requests for the other files, which the semaphore runs in the order in
    which they were made; the first error drops the rest. *)
Fixpoint fetch_files (futs : list (bstr * bstr)) (m : btree bstr) : G (btree bstr) :=
  match futs with
  | [] => gok m
  | (name, url) :: futs =>
      let+ contents := get_raw_url url in
      fetch_files futs (bt_insert name contents m)
  end.

Definition truncated_files (fs : btree WireFile) : list (bstr * bstr) :=
  (fun nf => (nf.1, raw_url nf.2)) <$> filter (fun nf => truncated nf.2 = true) fs.

Definition gist_url (id : bstr) (revision : option bstr) : bstr :=
  bytes_of_string "https://api.github.com/gists/" ++ id ++
  (match revision with Some _ => bytes_of_string "/" | None => [] end) ++ default [] revision.

Definition get_gist (id : bstr) (revision : option bstr) : G (option Gist) :=
  let+ _ := gist_check_ratelimit in
  let+ res := gsend {| g_url := gist_url id revision;
                       g_accept := Some (bytes_of_string "application/vnd.github+json") |} in
  let+ _ := gist_handle_ratelimit res in
  if status res =? 200 then
    let+ data := glift (ok_or (read_chunks (chunks res)) GReqwest) in
    let+ gist := glift (ok_or (parse_gist data) GReqwest) in
    let+ version := glift (match revision with
                           | Some v => Ok v
                           | None => ok_or (last (history gist)) NoHistory
                           end) in
    let+ fs := fetch_files (truncated_files (w_files gist)) (full_files (w_files gist)) in
    gok (Some {| files := fs; version := version; versions := history gist |})
  else if status res =? 404 then gok None
  else gerr (gist_status_not_ok res).

Definition get_gist_latest (id : bstr) : G (option Gist) := get_gist id None.
Definition get_gist_version (id revision : bstr) : G (option Gist) := get_gist id (Some revision).

(** * The server *)

Inductive ServerError := NotFound | Internal.

Definition StatusCode_from (e : ServerError) : Z := match e with NotFound => 404 | Internal => 500 end.

Record Ctx := { gh_client : GistWorld; gh_cache : gmap bstr bstr }.

Context (to_json : Gist -> option bstr).

Definition retreive_gist (gist : bstr) (version : option bstr) (w : GistWorld)
    : GistWorld * result ServerError bstr :=
  match get_gist gist version w with
  | (w, Ok (Some g)) => (w, ok_or (to_json g) Internal)
  | (w, Ok None) => (w, Err NotFound)
  | (w, Err _) => (w, Err Internal)
  | (w, Panic) => (w, Panic)
  end.

Definition gist_key (gist : bstr) (version : option bstr) : bstr :=
  gist ++ bytes_of_string ":" ++ default [] version.

(** The answer: the value of the cache header and the body, or a status. *)
Definition get_gist_impl (gist : bstr) (version : option bstr) (c : Ctx) : Ctx * result Z (bstr * bstr) :=
  let cache_header := match version with
                      | Some _ => bytes_of_string "immutable"
                      | None => bytes_of_string "max-age=3600"
                      end in
  let key := gist_key gist version in
  match gh_cache c !! key with
  | Some value => (c, Ok (cache_header, value))
  | None =>
      match retreive_gist gist version (gh_client c) with
      | (w, Ok value) => ({| gh_client := w; gh_cache := <[key := value]> (gh_cache c) |}, Ok (cache_header, value))
      | (w, Err e) => ({| gh_client := w; gh_cache := gh_cache c |}, Err (StatusCode_from e))
      | (w, Panic) => ({| gh_client := w; gh_cache := gh_cache c |}, Panic)
      end
  end.

(** The two routes. *)
Definition gh_get_gist (gist : bstr) : Ctx -> Ctx * result Z (bstr * bstr) := get_gist_impl gist None.
Definition gh_get_gist_version (gist version : bstr) : Ctx -> Ctx * result Z (bstr * bstr) :=
  get_gist_impl gist (Some version).
End client.

(** The weigher of the cache. *)
Definition gist_weigher (k v : bstr) : Z := default u32_max (try_into 32 (wadd 64 (zlen k) (zlen v))).

(** * Lemmas *)

Lemma gbind_Ok {A B} (c : G A) (k : A -> G B) w w' b :
  gbind c k w = (w', Ok b) -> exists w1 a, c w = (w1, Ok a) /\ k a w1 = (w', Ok b).
Proof. unfold gbind. destruct (c w) as [w1 [a|e|]]; intros; simplify_eq; eauto. Qed.

Lemma glift_Ok {A} (r : result GistError A) w w' a : glift r w = (w', Ok a) -> w' = w /\ r = Ok a.
Proof. by intros [= -> ->]. Qed.

Lemma gsend_Ok req w w' res :
  gsend req w = (w', Ok res) ->
  exists dt, g_net w = (dt, Some res) :: g_net w' /\ g_sent w' = g_sent w ++ [req].
Proof. unfold gsend. destruct (g_net w) as [|[dt [r|]] net]; intros; simplify_eq; eauto. Qed.

Lemma gist_check_Ok w w' u : gist_check_ratelimit w = (w', Ok u) -> g_net w' = g_net w /\ g_sent w' = g_sent w.
Proof. unfold gist_check_ratelimit, set_ratelimit. repeat case_match; intros; by simplify_eq/=. Qed.

Lemma gist_handle_Ok timestamp_ok res w w' u :
  gist_handle_ratelimit timestamp_ok res w = (w', Ok u) -> w' = w /\ limited res = false.
Proof. unfold gist_handle_ratelimit. destruct (limited res); [done|]. by intros [= ->]. Qed.

Section client_lemmas.
Context (timestamp_ok : Z -> bool) (parse_gist : bstr -> option WireGist) (decode_text : bstr -> bstr).

(** An answer that delivers a text. *)
Definition text_answer (a : Z * option HttpResponse) (text : bstr) : Prop :=
  exists res data, a.2 = Some res /\ status res = 200 /\ read_chunks (chunks res) = Some data /\
    text = decode_text data.

Lemma get_raw_url_Ok url w w' s :
  get_raw_url timestamp_ok decode_text url w = (w', Ok s) ->
  exists a, g_net w = a :: g_net w' /\ text_answer a s /\
    g_sent w' = g_sent w ++ [{| g_url := url; g_accept := None |}].
Proof.
  unfold get_raw_url. intros E. apply gbind_Ok in E as (w1 & [] & [Hn1 Hs1]%gist_check_Ok & E).
  apply gbind_Ok in E as (w2 & res & (dt & Hn2 & Hs2)%gsend_Ok & E).
  apply gbind_Ok in E as (w3 & [] & [-> _]%gist_handle_Ok & E).
  destruct (Z.eqb_spec (status res) 200); [|discriminate E].
  apply gbind_Ok in E as (w4 & data & [-> Hd%ok_or_Ok]%glift_Ok & [= <- <-]).
  exists (dt, Some res). rewrite <-Hn1, <-Hs1. split_and!; [done| |done]. by exists res, data.
Qed.

Lemma fetch_files_Ok futs m w w' m' :
  NoDup futs.*1 ->
  fetch_files timestamp_ok decode_text futs m w = (w', Ok m') ->
  exists answers, g_net w = answers ++ g_net w' /\
    g_sent w' = g_sent w ++ ((fun f => {| g_url := f.2; g_accept := None |}) <$> futs) /\
    Forall2 (fun f a => exists text, text_answer a text /\ bt_get f.1 m' = Some text) futs answers /\
    (bt_sorted m -> bt_sorted m') /\
    forall n, (n ∉ futs.*1) -> bt_get n m' = bt_get n m.
Proof.
  revert m w. induction futs as [|[n url] futs IH]; intros m w Hnd E.
  - injection E as <- <-. exists []. rewrite app_nil_r. by split_and!.
  - simpl in Hnd. apply NoDup_cons in Hnd as [Hn Hnd]. simpl in E.
    apply gbind_Ok in E as (w1 & s & (a & Hn1 & Ha & Hs1)%get_raw_url_Ok & E).
    apply IH in E as (answers & Hn2 & Hs2 & Hall & Hsort & Hrest); [|done].
    exists (a :: answers). split_and!.
    + by rewrite Hn1, Hn2.
    + rewrite Hs2, Hs1, <-app_assoc. done.
    + constructor; [|done]. exists s. split; [done|]. simpl. rewrite Hrest by done. apply bt_insert_get_eq.
    + intros. by apply Hsort, bt_insert_sorted.
    + intros q [Hq1 Hq2]%not_elem_of_cons. rewrite Hrest by done. by apply bt_insert_get_ne.
Qed.

Lemma full_files_get fs m n :
  NoDup fs.*1 ->
  bt_get n (fold_left (fun m nf => if truncated nf.2 then m else bt_insert nf.1 (content nf.2) m) fs m) =
    match bt_get n fs with
    | Some f => if truncated f then bt_get n m else Some (content f)
    | None => bt_get n m
    end.
Proof.
  revert m. induction fs as [|[q f] fs IH]; intros m Hnd; [done|].
  simpl in Hnd. apply NoDup_cons in Hnd as [Hq Hnd]. simpl. rewrite IH by done.
  destruct (decide (n = q)) as [->|Hne].
  - assert (bt_get q fs = None) as ->.
    { destruct (bt_get q fs) as [f'|] eqn:E; [|done]. apply bt_get_Some_In in E.
      destruct Hq. by apply (list_elem_of_fmap_2 fst) in E. }
    destruct (truncated f); [done|]. apply bt_insert_get_eq.
  - destruct (truncated f); [done|]. by rewrite bt_insert_get_ne by done.
Qed.

Lemma full_files_sorted fs m :
  bt_sorted m ->
  bt_sorted (fold_left (fun m nf => if truncated nf.2 then m else bt_insert nf.1 (content nf.2) m) fs m).
Proof.
  revert m. induction fs as [|[q f] fs IH]; intros m Hm; [done|]. simpl. apply IH.
  destruct (truncated f); [done|]. by apply bt_insert_sorted.
Qed.

Lemma elem_of_truncated_files fs n :
  n ∈ (truncated_files fs).*1 <-> exists nf, nf ∈ fs /\ truncated nf.2 = true /\ nf.1 = n.
Proof.
  unfold truncated_files. rewrite <-list_fmap_compose, list_elem_of_fmap. split.
  - intros ([q f] & -> & [Ht Hin]%list_elem_of_filter). by exists (q, f).
  - intros (nf & Hin & Ht & <-). exists nf. split; [done|]. by apply list_elem_of_filter.
Qed.

Lemma truncated_files_NoDup fs : NoDup fs.*1 -> NoDup (truncated_files fs).*1.
Proof.
  unfold truncated_files. rewrite <-list_fmap_compose. intros Hnd.
  eapply sublist_NoDup; [exact Hnd|]. apply (fmap_sublist fst), sublist_filter.
Qed.

(** The names of the result are those of the answer. *)
Lemma fetched_files_get fs answers m n :
  bt_sorted fs ->
  (forall n, (n ∉ (truncated_files fs).*1) -> bt_get n m = bt_get n (full_files fs)) ->
  Forall2 (fun f a => exists text, text_answer a text /\ bt_get f.1 m = Some text) (truncated_files fs) answers ->
  is_Some (bt_get n m) <-> is_Some (bt_get n fs).
Proof.
  intros Hs Hrest Hall. destruct (decide (n ∈ (truncated_files fs).*1)) as [Hin|Hin].
  - split; intros _.
    + apply elem_of_truncated_files in Hin as ([q f] & Hf & _ & <-). exists f. by apply bt_sorted_In_get.
    + apply list_elem_of_fmap in Hin as (f & -> & [i Hi]%list_elem_of_lookup_1).
      destruct (Forall2_lookup_l _ _ _ _ _ Hall Hi) as (a & _ & text & _ & Ht). eauto.
  - rewrite Hrest by done. unfold full_files. rewrite full_files_get by (by apply bt_sorted_NoDup).
    destruct (bt_get n fs) as [f|] eqn:E; [|split; by intros [? [=]]].
    destruct (truncated f) eqn:Et; [|split; eauto].
    destruct Hin. apply elem_of_truncated_files. exists (n, f). split_and!; [by apply bt_get_Some_In|done..].
Qed.

(** ** Rate limits *)

(** After an answer that limits the rate, a computation asks no more, fails and
    remembers when the limit ends. *)
Definition obeys {A} (c : G A) : Prop := forall w w' r, c w = (w', r) ->
  exists answers, g_net w = answers ++ g_net w' /\
  forall pre dt res post, answers = pre ++ (dt, Some res) :: post -> limited res = true ->
    post = [] /\ r = Err GRatelimitExceeded /\
    g_ratelimit w' = Some (gist_ratelimit_end timestamp_ok res (g_clock w')).

Lemma obeys_pure {A} (c : G A) : (forall w w' r, c w = (w', r) -> g_net w' = g_net w) -> obeys c.
Proof.
  intros Hc w w' r E. exists []. split; [by rewrite (Hc _ _ _ E)|]. by intros [|] ? ? ? [=].
Qed.

Lemma obeys_gbind {A B} (c : G A) (k : A -> G B) : obeys c -> (forall a, obeys (k a)) -> obeys (gbind c k).
Proof.
  intros Hc Hk w w' r E. unfold gbind in E. destruct (c w) as [w1 [a|e|]] eqn:Ec;
    apply Hc in Ec as (l1 & Hn1 & Hl1).
  - apply Hk in E as (l2 & Hn2 & Hl2). exists (l1 ++ l2). split; [by rewrite Hn1, Hn2, app_assoc|].
    intros pre dt res post Heq Hlim.
    destruct (app_eq_inv _ _ _ _ Heq) as [(k1 & -> & Hk1)|(k1 & -> & Hk1)].
    + destruct k1 as [|x k1]; simpl in Hk1.
      * by apply (Hl2 [] dt res post).
      * injection Hk1 as <- ->. destruct (Hl1 pre dt res k1 eq_refl Hlim) as (_ & Hx & _). discriminate Hx.
    + by apply (Hl2 k1 dt res post).
  - injection E as <- <-. exists l1. split; [done|]. intros pre dt res post -> Hlim.
    by destruct (Hl1 pre dt res post eq_refl Hlim) as (-> & [= ->] & ?).
  - injection E as <- <-. exists l1. split; [done|]. intros pre dt res post -> Hlim.
    by destruct (Hl1 pre dt res post eq_refl Hlim) as (_ & [=] & ?).
Qed.

Lemma obeys_glift {A} (r : result GistError A) : obeys (glift r).
Proof. apply obeys_pure. by intros w w' x [= <- _]. Qed.
Lemma obeys_gok {A} (a : A) : obeys (gok a).
Proof. apply obeys_pure. by intros w w' x [= <- _]. Qed.
Lemma obeys_gerr {A} (e : GistError) : obeys (gerr (A := A) e).
Proof. apply obeys_pure. by intros w w' x [= <- _]. Qed.
Lemma obeys_check : obeys gist_check_ratelimit.
Proof.
  apply obeys_pure. intros w w' r. unfold gist_check_ratelimit, set_ratelimit.
  repeat case_match; intros; by simplify_eq/=.
Qed.

(** A request whose answer is checked before anything else is done with it. *)
Lemma obeys_request {A} req (k : HttpResponse -> G A) :
  (forall res, obeys (k res)) ->
  obeys (let+ res := gsend req in let+ _ := gist_handle_ratelimit timestamp_ok res in k res).
Proof.
  intros Hk w w' r. unfold gbind at 1, gsend. destruct (g_net w) as [|[dt [res|]] net].
  - intros [= <- <-]. exists []. split; [done|]. by intros [|] ? ? ? [=].
  - unfold gbind, gist_handle_ratelimit. destruct (limited res) eqn:Hlim.
    + intros [= <- <-]. exists [(dt, Some res)]. split; [done|].
      intros [|? pre] dt' res' post Heq _; [by injection Heq as <- <- <-|]. injection Heq as _ Heq. by destruct pre.
    + intros E. apply Hk in E as (l & Hn & Hl). exists ((dt, Some res) :: l). simpl in Hn. split; [by rewrite Hn|].
      intros [|x pre] dt' res' post Heq Hlim'; injection Heq as ? ?; subst.
      * congruence.
      * by apply (Hl pre dt' res' post).
  - intros [= <- <-]. exists [(dt, None)]. split; [done|].
    intros [|? pre] dt' res' post Heq; [discriminate Heq|]. injection Heq as <- ?. by destruct pre.
Qed.

Create HintDb obeys.
#[local] Hint Resolve obeys_gbind obeys_glift obeys_gok obeys_gerr obeys_check obeys_request : obeys.

Lemma obeys_get_raw_url url : obeys (get_raw_url timestamp_ok decode_text url).
Proof.
  apply obeys_gbind; [auto with obeys|]. intros _. apply obeys_request. intros res.
  destruct (_ =? _); auto with obeys.
Qed.

Lemma obeys_fetch_files futs m : obeys (fetch_files timestamp_ok decode_text futs m).
Proof.
  revert m. induction futs as [|[n url] futs IH]; intros m; [apply obeys_gok|].
  apply obeys_gbind; [apply obeys_get_raw_url|auto].
Qed.

Lemma obeys_get_gist id rev : obeys (get_gist timestamp_ok parse_gist decode_text id rev).
Proof.
  apply obeys_gbind; [auto with obeys|]. intros _. apply obeys_request. intros res.
  destruct (_ =? _); [|destruct (_ =? _); auto with obeys].
  do 3 (apply obeys_gbind; [apply obeys_glift|intros ?]).
  apply obeys_gbind; [apply obeys_fetch_files|auto with obeys].
Qed.
End client_lemmas.

(** ** The server's cache *)

Section server.
Context (timestamp_ok : Z -> bool) (parse_gist : bstr -> option WireGist) (decode_text : bstr -> bstr).
Context (to_json : Gist -> option bstr).

(** The body is the JSON of a gist that GitHub delivered for this key. *)
Definition fetched (key body : bstr) : Prop :=
  exists id rev w w' g, gist_key id rev = key /\
    get_gist timestamp_ok parse_gist decode_text id rev w = (w', Ok (Some g)) /\ to_json g = Some body.

Inductive GhOp :=
  | Get (gist : bstr) (version : option bstr)
  | Evict (key : bstr)
  | Network (w : GistWorld).  (** time passes and the network has new answers *)

Definition gh_exec (op : GhOp) (c : Ctx) : Ctx :=
  match op with
  | Get gist version => fst (get_gist_impl timestamp_ok parse_gist decode_text to_json gist version c)
  | Evict key => {| gh_client := gh_client c; gh_cache := delete key (gh_cache c) |}
  | Network w => {| gh_client := w; gh_cache := gh_cache c |}
  end.
Definition gh_exec_all (ops : list GhOp) (c : Ctx) : Ctx := fold_left (fun c op => gh_exec op c) ops c.

Definition cache_fetched (c : Ctx) : Prop := forall k v, gh_cache c !! k = Some v -> fetched k v.

Lemma get_gist_impl_fetched gist version c c' r :
  cache_fetched c -> get_gist_impl timestamp_ok parse_gist decode_text to_json gist version c = (c', r) ->
  cache_fetched c' /\ forall h body, r = Ok (h, body) -> fetched (gist_key gist version) body.
Proof.
  intros Hc. unfold get_gist_impl. destruct (gh_cache c !! gist_key gist version) as [v|] eqn:Ek.
  { intros [= <- <-]. split; [done|]. intros ? ? [= _ <-]. by apply Hc. }
  unfold retreive_gist. destruct (get_gist _ _ _ gist version (gh_client c)) as [w [[g|]|e|]] eqn:E;
    [|by intros [= <- <-]..].
  destruct (to_json g) as [body|] eqn:Ej; [|by intros [= <- <-]].
  assert (fetched (gist_key gist version) body) as Hf by (by exists gist, version, (gh_client c), w, g).
  intros [= <- <-]. split; [|by intros ? ? [= _ <-]].
  intros k v. simpl. intros [[<- <-]|[_ Hk]]%lookup_insert_Some; [done|by apply Hc].
Qed.

Lemma gh_exec_all_fetched ops c : cache_fetched c -> cache_fetched (gh_exec_all ops c).
Proof.
  revert c. induction ops as [|op ops IH]; intros c Hc; [done|]. apply IH. destruct op as [gist version|key|w]; simpl.
  - destruct (get_gist_impl _ _ _ _ _ _ c) as [c' r] eqn:E. by apply get_gist_impl_fetched in E as [? _].
  - intros k v. simpl. intros [_ Hk]%lookup_delete_Some. by apply Hc.
  - done.
Qed.
End server.

(** The key of the cache tells requests apart when ids have no colon. *)
Lemma gist_key_inj id id' rev rev' :
  x3a ∉ id -> x3a ∉ id' -> gist_key id rev = gist_key id' rev' -> id = id' /\ default [] rev = default [] rev'.
Proof.
  unfold gist_key. intros H1 H2 E. apply (f_equal (split_once x3a)) in E.
  change (bytes_of_string ":") with [x3a] in E. simpl in E. rewrite !split_once_app in E by done.
  by injection E as -> ->.
Qed.

(** * Properties *)

(** C31: a gist is delivered whole.  When a gist is returned, GitHub answered the
    request for it, and the files are those of the answer: a file that the answer
    has in full has that content, and for each file that was cut off there was,
    in order, one request to its raw address, whose body it has.  The version is
    the requested one, or the last of the history. *)
Theorem gist_complete timestamp_ok parse_gist decode_text id rev w w' g :
  (forall b wg, parse_gist b = Some wg -> bt_sorted (w_files wg)) ->
  get_gist timestamp_ok parse_gist decode_text id rev w = (w', Ok (Some g)) ->
  exists dt res data wg answers,
    g_net w = (dt, Some res) :: answers ++ g_net w' /\ status res = 200 /\
    read_chunks (chunks res) = Some data /\ parse_gist data = Some wg /\
    g_url <$> g_sent w' = (g_url <$> g_sent w) ++
      gist_url id rev :: (raw_url ∘ snd <$> filter (fun nf => truncated nf.2 = true) (w_files wg)) /\
    match rev with Some v => version g = v | None => last (history wg) = Some (version g) end /\
    versions g = history wg /\ bt_sorted (files g) /\
    (forall n, is_Some (bt_get n (files g)) <-> is_Some (bt_get n (w_files wg))) /\
    (forall n f, bt_get n (w_files wg) = Some f -> truncated f = false -> bt_get n (files g) = Some (content f)) /\
    Forall2 (fun nf a => exists text, text_answer decode_text a text /\ bt_get nf.1 (files g) = Some text)
      (filter (fun nf => truncated nf.2 = true) (w_files wg)) answers.
Proof.
  intros Hsorted E. unfold get_gist in E.
  apply gbind_Ok in E as (w1 & [] & [Hn1 Hs1]%gist_check_Ok & E).
  apply gbind_Ok in E as (w2 & res & (dt & Hn2 & Hs2)%gsend_Ok & E).
  apply gbind_Ok in E as (w3 & [] & [-> _]%gist_handle_Ok & E).
  destruct (Z.eqb_spec (status res) 200); [|by destruct (_ =? _)].
  apply gbind_Ok in E as (w4 & data & [-> Hd%ok_or_Ok]%glift_Ok & E).
  apply gbind_Ok in E as (w5 & wg & [-> Hg%ok_or_Ok]%glift_Ok & E).
  apply gbind_Ok in E as (w6 & v & [-> Hv]%glift_Ok & E).
  apply gbind_Ok in E as (w7 & fs & Hf & [= -> <-]).
  apply fetch_files_Ok in Hf as (answers & Hn3 & Hs3 & Hall & Hsort & Hrest);
    [|by apply truncated_files_NoDup, bt_sorted_NoDup, (Hsorted data)].
  apply Hsorted in Hg as Hws. pose proof (bt_sorted_NoDup _ Hws) as Hnd.
  exists dt, res, data, wg, answers. simpl. rewrite <-Hn1, Hn2, Hn3. split_and!; [done..| | |done| | | |].
  - rewrite Hs3, Hs2, <-Hs1, !fmap_app, <-app_assoc. unfold truncated_files.
    by rewrite <-!list_fmap_compose.
  - destruct rev; [by injection Hv|by apply ok_or_Ok in Hv].
  - apply Hsort, full_files_sorted. constructor.
  - intros n. by eapply fetched_files_get.
  - intros n f Hn Hf. rewrite Hrest; [unfold full_files; by rewrite full_files_get, Hn, Hf by done|].
    intros ([n' f'] & Hin & Ht & Heq)%elem_of_truncated_files. simpl in *. subst n'.
    apply bt_sorted_In_get in Hin; [congruence|done].
  - unfold truncated_files in Hall. by apply Forall2_fmap_l in Hall.
Qed.

(** The rate limit of GitHub is respected.  While a limit is known and has
    not ended, a request for a gist fails at once and changes nothing; and once
    an answer announces a limit, the call asks no more, fails, and its end is
    remembered. *)
Theorem gist_ratelimit_respected timestamp_ok parse_gist decode_text id rev w w' r :
  get_gist timestamp_ok parse_gist decode_text id rev w = (w', r) ->
  (forall e, g_ratelimit w = Some e -> g_clock w < e -> w' = w /\ r = Err GRatelimitExceeded) /\
  exists answers, g_net w = answers ++ g_net w' /\
    forall pre dt res post, answers = pre ++ (dt, Some res) :: post -> status res = 403 \/ status res = 429 ->
      post = [] /\ r = Err GRatelimitExceeded /\
      g_ratelimit w' = Some (gist_ratelimit_end timestamp_ok res (g_clock w')).
Proof.
  intros E. split.
  - intros e He Hlt. revert E. unfold get_gist, gbind at 1, gist_check_ratelimit. rewrite He.
    rewrite (proj2 (Z.ltb_lt _ _) Hlt). by intros [= <- <-].
  - apply obeys_get_gist in E as (answers & Hn & Hl). exists answers. split; [done|].
    intros pre dt res post Ha Hst. apply (Hl pre dt res post Ha). unfold limited.
    by destruct Hst as [-> | ->].
Qed.

(** The server answers with what GitHub delivered.  Whatever requests,
    evictions and network states went before, the body of an answer is the JSON
    of a gist that a request to GitHub for the same key delivered, the same id
    and version when ids have no colon; and only such bodies are cached. *)
Theorem gist_served timestamp_ok parse_gist decode_text to_json ops w gist version c' h body :
  get_gist_impl timestamp_ok parse_gist decode_text to_json gist version
    (gh_exec_all timestamp_ok parse_gist decode_text to_json ops {| gh_client := w; gh_cache := ∅ |}) =
    (c', Ok (h, body)) ->
  (exists id rev w1 w2 g, gist_key id rev = gist_key gist version /\
     get_gist timestamp_ok parse_gist decode_text id rev w1 = (w2, Ok (Some g)) /\ to_json g = Some body /\
     ((x3a ∉ id) -> (x3a ∉ gist) -> id = gist /\ default [] rev = default [] version)) /\
  gh_cache c' !! gist_key gist version = Some body.
Proof.
  intros E. apply get_gist_impl_fetched in E as Hf; [|by apply gh_exec_all_fetched]. destruct Hf as [_ Hf].
  destruct (Hf h body eq_refl) as (id & rev & w1 & w2 & g & Hk & Hg & Hj). split.
  - exists id, rev, w1, w2, g. split_and!; [done..|]. intros H1 H2. by apply gist_key_inj.
  - revert E. unfold get_gist_impl. destruct (gh_cache _ !! _) as [v|] eqn:Ek; [by intros [= <- _ <-]|].
    destruct (retreive_gist _ _ _ _ _ _ _) as [w0 [v|e|]]; intros [= <- _ <-]. simpl. by rewrite lookup_insert_eq.
Qed.

(** ** Concrete requests *)

Definition example_wire : WireGist :=
  {| w_files := [([x61], {| raw_url := [x75]; truncated := true; content := [] |});
                 ([x62], {| raw_url := [x76]; truncated := false; content := [x78] |})];
     history := [[x31]; [x32]] |}.
Definition example_response (code : Z) (body : bstr) : Z * option HttpResponse :=
  (1, Some {| status := code; headers := []; chunks := [Some body] |}).
Definition example_world (answers : list (Z * option HttpResponse)) : GistWorld :=
  {| g_clock := 100; g_net := answers; g_sent := []; g_ratelimit := None |}.
Definition example_gist : Gist :=
  {| files := [([x61], [x79]); ([x62], [x78])]; version := [x32]; versions := [[x31]; [x32]] |}.
Definition example_delivered : GistWorld := example_world [example_response 200 []; example_response 200 [x79]].
Definition example_get (w : GistWorld) : GistWorld * result GistError (option Gist) :=
  get_gist (fun _ => true) (fun _ => Some example_wire) (fun b => b) [x64] None w.

Lemma gist_complete_witness :
  snd (example_get example_delivered) = Ok (Some example_gist) /\
  versions example_gist = history example_wire /\ bt_sorted (files example_gist).
Proof.
  destruct (gist_complete (fun _ => true) (fun _ => Some example_wire) (fun b => b) [x64] None
    example_delivered (fst (example_get example_delivered)) example_gist)
    as (dt & res & data & wg & answers & _ & _ & _ & Hwg & _ & _ & Hv & Hs & _).
  - intros b wg [= <-]. repeat (constructor; [repeat constructor|]). constructor.
  - vm_compute. reflexivity.
  - injection Hwg as <-. split; [vm_compute; reflexivity|]. split; [exact Hv|exact Hs].
Defined.

Lemma gist_ratelimit_respected_witness :
  snd (example_get (example_world [example_response 429 []])) = Err GRatelimitExceeded /\
  g_ratelimit (fst (example_get (example_world [example_response 429 []]))) = Some 161.
Proof.
  destruct (gist_ratelimit_respected (fun _ => true) (fun _ => Some example_wire) (fun b => b) [x64] None
    (example_world [example_response 429 []]) (fst (example_get (example_world [example_response 429 []])))
    (snd (example_get (example_world [example_response 429 []])))) as [_ (answers & Hn & Hl)].
  - vm_compute. reflexivity.
  - destruct answers as [|a [|? ?]]; [discriminate Hn| |].
    + injection Hn as <-. destruct (Hl [] 1 _ [] eq_refl (or_intror eq_refl)) as (_ & Hr & Hlim).
      split; [exact Hr|]. rewrite Hlim. vm_compute. reflexivity.
    + exfalso. apply (f_equal length) in Hn. simpl in Hn. lia.
Defined.

Definition example_json (_ : Gist) : option bstr := Some [x7b; x7d].
Definition example_ctx : Ctx := {| gh_client := example_delivered; gh_cache := ∅ |}.
Definition example_served (c : Ctx) : Ctx * result Z (bstr * bstr) :=
  get_gist_impl (fun _ => true) (fun _ => Some example_wire) (fun b => b) example_json [x64] None c.

(** The second request is answered from the cache: the network has no answer. *)
Lemma gist_served_witness :
  snd (example_served (fst (example_served example_ctx))) = Ok (bytes_of_string "max-age=3600", [x7b; x7d]) /\
  gh_cache (fst (example_served (fst (example_served example_ctx)))) !! gist_key [x64] None = Some [x7b; x7d].
Proof.
  assert (snd (example_served (fst (example_served example_ctx))) =
    Ok (bytes_of_string "max-age=3600", [x7b; x7d])) as Hs by (vm_compute; reflexivity).
  split; [exact Hs|].
  refine (proj2 (gist_served (fun _ => true) (fun _ => Some example_wire) (fun b => b) example_json
    [Get [x64] None] example_delivered [x64] None (fst (example_served (fst (example_served example_ctx))))
    (bytes_of_string "max-age=3600") [x7b; x7d] _)).
  apply pair_of_snd. exact Hs.
Defined.
