(* ===== verification/GistMain.v ===== *)
(** The programs around the gist client (src/pegh/src/main.rs and
    src/peserver/src/gh.rs, [main]).

    The command line program prints one gist; the server has two routes over a
    shared context and listens on a TCP address or a Unix socket.  axum matches
    paths against the patterns of the routes and captures the parameters, which
    is a parameter here; its graceful shutdown and the log are left out. *)
From stdpp Require Import option base list sets numbers strings gmap.
From Stdlib Require Import ZArith Lia.
From S2P Require Import Prelude BTree Paths Text RuntimeSpec OciDist Gist.
#[local] Open Scope Z_scope.
#[local] Open Scope result_scope.

#[local] Notation bs := bytes_of_string.
Definition line (s : bstr) : bstr := s ++ [x0a].

(** * The command line program *)

Definition render_gist (g : Gist) : bstr :=
  line (bs "gist.version = " ++ version g) ++ line (bs "gist.versions:") ++
  concat ((fun v => line (bs "- " ++ v)) <$> versions g) ++
  concat ((fun f => line (bs "=== " ++ f.1 ++ bs " ===") ++ line f.2) <$> files g).

(** [client_ok]: the HTTP client could be made.  What is printed. *)
Definition pegh_main timestamp_ok parse_gist decode_text (client_ok : bool) (gist : bstr) (version : option bstr)
    (w : GistWorld) : GistWorld * result unit bstr :=
  if negb client_ok then (w, Panic) else
  match get_gist timestamp_ok parse_gist decode_text gist version w with
  | (w, Ok (Some g)) => (w, Ok (render_gist g))
  | (w, Ok None) => (w, Ok (line (bs "oops not found")))
  | (w, _) => (w, Panic)
  end.

(** * The server *)

Record GhArgs := { gh_tcp : option bstr; gh_uds : option bstr; gh_capacity : Z }.
Definition parse_gh_args (tcp uds : option bstr) (capacity : option Z) : GhArgs :=
  {| gh_tcp := tcp; gh_uds := uds; gh_capacity := default 100000000 capacity |}.

Inductive GhListener := GhTcp (addr : bstr) | GhUds (path : bstr).

Record GhServer := { gh_ctx : Ctx; gh_listener : GhListener; gh_removed : list bstr }.

Section gh.
Context (timestamp_ok : Z -> bool) (parse_gist : bstr -> option WireGist) (decode_text : bstr -> bstr).
Context (to_json : Gist -> option bstr).

(** [bind] of a listener; a socket file that is there is removed before. *)
Definition gh_main (client_ok : bool) (bind : GhListener -> bool) (args : GhArgs) (clock : Z)
    (net : list (Z * option HttpResponse)) : result unit GhServer :=
  if negb client_ok then Panic else
  let ctx := {| gh_client := Client_new clock net; gh_cache := ∅ |} in
  match gh_tcp args, gh_uds args with
  | Some addr, None =>
      if bind (GhTcp addr) then Ok {| gh_ctx := ctx; gh_listener := GhTcp addr; gh_removed := [] |} else Panic
  | None, Some addr =>
      if bind (GhUds addr) then Ok {| gh_ctx := ctx; gh_listener := GhUds addr; gh_removed := [addr] |} else Panic
  | Some _, Some _ => Panic
  | None, None => Panic
  end.

(** The captured parameters of a path that matches a pattern. *)
Context (captures : bstr -> bstr -> option (list bstr)).

Record GhResponse := { gr_status : Z; gr_headers : list (bstr * bstr); gr_body : bstr }.
Definition plain_status (code : Z) : GhResponse := {| gr_status := code; gr_headers := []; gr_body := [] |}.

Definition into_response (r : result Z (bstr * bstr)) : result unit GhResponse :=
  match r with
  | Ok (cache_header, value) =>
      Ok {| gr_status := 200; gr_body := value;
            gr_headers := [(bs "content-type", bs "application/json"); (bs "cache-control", cache_header)] |}
  | Err code => Ok (plain_status code)
  | Panic => Panic
  end.

Definition gh_route (path : bstr) : option (bstr * option bstr) :=
  match captures (bs "/gist/{gist}") path, captures (bs "/gist/{gist}/{version}") path with
  | Some [gist], _ => Some (gist, None)
  | _, Some [gist; version] => Some (gist, Some version)
  | _, _ => None
  end.

(** A GET request. *)
Definition gh_get (path : bstr) (c : Ctx) : Ctx * result unit GhResponse :=
  match gh_route path with
  | Some (gist, None) =>
      let '(c, r) := gh_get_gist timestamp_ok parse_gist decode_text to_json gist c in (c, into_response r)
  | Some (gist, Some version) =>
      let '(c, r) := gh_get_gist_version timestamp_ok parse_gist decode_text to_json gist version c in
      (c, into_response r)
  | None => (c, Ok (plain_status 404))
  end.

(** * Lemmas *)

(** GET of a path that has a route is the handler. *)
Lemma gh_get_routed path gist version c :
  gh_route path = Some (gist, version) ->
  gh_get path c = let '(c, r) := get_gist_impl timestamp_ok parse_gist decode_text to_json gist version c in
                  (c, into_response r).
Proof. unfold gh_get. by intros ->; destruct version. Qed.

Lemma into_response_200 r a :
  into_response r = Ok a -> gr_status a = 200 -> (forall code, r = Err code -> code <> 200) ->
  exists h, r = Ok (h, gr_body a) /\
    gr_headers a = [(bs "content-type", bs "application/json"); (bs "cache-control", h)].
Proof.
  destruct r as [[h v]|code|]; simpl; [intros [= <-]; eauto| |done].
  intros [= <-] Hs Hc. by destruct (Hc code eq_refl).
Qed.

Lemma get_gist_impl_error gist version c code :
  snd (get_gist_impl timestamp_ok parse_gist decode_text to_json gist version c) = Err code ->
  code = 404 \/ code = 500.
Proof.
  unfold get_gist_impl. destruct (gh_cache c !! _); [done|].
  destruct (retreive_gist _ _ _ _ _ _ _) as [w [v|[]|]]; simpl; try done; intros [= <-]; auto.
Qed.

Lemma get_gist_impl_header gist version c c' h body :
  get_gist_impl timestamp_ok parse_gist decode_text to_json gist version c = (c', Ok (h, body)) ->
  h = match version with Some _ => bs "immutable" | None => bs "max-age=3600" end.
Proof.
  intros E. apply (f_equal snd) in E. revert E. unfold get_gist_impl.
  generalize (match version with Some _ => bs "immutable" | None => bs "max-age=3600" end). intros x.
  destruct (gh_cache c !! _); [by intros [= -> _]|].
  destruct (retreive_gist _ _ _ _ _ _ _) as [w [v|e|]]; [by intros [= -> _]|done..].
Qed.

(** The only ways to start. *)
Lemma gh_main_spec client_ok bind args clock net s :
  gh_main client_ok bind args clock net = Ok s <->
  client_ok = true /\ gh_ctx s = {| gh_client := Client_new clock net; gh_cache := ∅ |} /\
  bind (gh_listener s) = true /\
  match gh_listener s with
  | GhTcp addr => gh_tcp args = Some addr /\ gh_uds args = None /\ gh_removed s = []
  | GhUds addr => gh_tcp args = None /\ gh_uds args = Some addr /\ gh_removed s = [addr]
  end.
Proof.
  unfold gh_main. split.
  - destruct client_ok; [|done]. simpl. destruct (gh_tcp args) as [t|], (gh_uds args) as [u|]; try done;
      [destruct (bind (GhTcp t)) eqn:E|destruct (bind (GhUds u)) eqn:E]; intros [= <-]; done.
  - destruct s as [ctx l rm]. simpl. intros (-> & -> & Hb & Hl).
    by destruct l; destruct Hl as (-> & -> & ->); rewrite Hb.
Qed.
End gh.

(** * Properties *)

(** The gist server serves what GitHub delivered, and asks once.  The program
    starts exactly with one of its two addresses, which it could bind.  Whatever
    requests, evictions and network states follow, an answer with status 200 has
    as its body the JSON of a gist that GitHub delivered for the same cache key,
    declared as JSON; and the same request again is answered with the same
    response and without touching the client. *)
Theorem gist_server_serves timestamp_ok parse_gist decode_text to_json captures client_ok bind args clock net s
    ops path gist version c a :
  gh_main client_ok bind args clock net = Ok s ->
  gh_route captures path = Some (gist, version) ->
  gh_get timestamp_ok parse_gist decode_text to_json captures path
    (gh_exec_all timestamp_ok parse_gist decode_text to_json ops (gh_ctx s)) = (c, Ok a) ->
  gr_status a = 200 ->
  (gh_tcp args = None <-> gh_uds args <> None) /\
  (exists id rev w1 w2 g, gist_key id rev = gist_key gist version /\
     get_gist timestamp_ok parse_gist decode_text id rev w1 = (w2, Ok (Some g)) /\ to_json g = Some (gr_body a)) /\
  (bs "content-type", bs "application/json") ∈ gr_headers a /\
  gh_get timestamp_ok parse_gist decode_text to_json captures path c = (c, Ok a).
Proof.
  intros Hs Hr Hg H200. apply gh_main_spec in Hs as (_ & Hctx & _ & Hl). rewrite Hctx in Hg.
  rewrite (gh_get_routed timestamp_ok parse_gist decode_text to_json captures path gist version _ Hr) in Hg.
  rewrite (gh_get_routed timestamp_ok parse_gist decode_text to_json captures path gist version c Hr).
  destruct (get_gist_impl _ _ _ _ _ _ (gh_exec_all _ _ _ _ _ _)) as [c1 r] eqn:E. injection Hg as <- Ha.
  destruct (into_response_200 r a Ha H200) as (h & -> & Hh).
  { intros code ->. apply (f_equal snd), get_gist_impl_error in E as [-> | ->]; done. }
  destruct (gist_served _ _ _ _ _ _ _ _ _ _ _ E) as [(id & rev & w1 & w2 & g & Hk & Hgg & Hj & _) Hc].
  split_and!.
  - by destruct (gh_listener s), Hl as (-> & -> & _).
  - by exists id, rev, w1, w2, g.
  - rewrite Hh. left.
  - apply get_gist_impl_header in E. subst h.
    unfold get_gist_impl. rewrite Hc. by rewrite <-Ha.
Qed.

(** ** A concrete server *)

(** Patterns with one or two parameters, which are segments of the path. *)
Definition example_captures (pattern path : bstr) : option (list bstr) :=
  match split_slash path with
  | [[]; d; g] => if bool_decide (pattern = bs "/gist/{gist}" /\ d = bs "gist") then Some [g] else None
  | [[]; d; g; v] => if bool_decide (pattern = bs "/gist/{gist}/{version}" /\ d = bs "gist") then Some [g; v] else None
  | _ => None
  end.

Definition example_args : GhArgs := parse_gh_args None (Some (bs "/run/gh.sock")) None.
Definition example_server : GhServer :=
  {| gh_ctx := {| gh_client := Client_new 100 [example_response 200 []; example_response 200 [x79]]; gh_cache := ∅ |};
     gh_listener := GhUds (bs "/run/gh.sock"); gh_removed := [bs "/run/gh.sock"] |}.
Definition example_gh_get (c : Ctx) : Ctx * result unit GhResponse :=
  gh_get (fun _ => true) (fun _ => Some example_wire) (fun b => b) example_json example_captures (bs "/gist/d") c.
Definition example_answer : GhResponse :=
  {| gr_status := 200; gr_body := [x7b; x7d];
     gr_headers := [(bs "content-type", bs "application/json"); (bs "cache-control", bs "max-age=3600")] |}.

Lemma gist_server_serves_witness :
  let c := fst (example_gh_get (gh_ctx example_server)) in example_gh_get c = (c, Ok example_answer).
Proof.
  apply (gist_server_serves (fun _ => true) (fun _ => Some example_wire) (fun b => b) example_json example_captures
    true (fun _ => true) example_args 100 [example_response 200 []; example_response 200 [x79]] example_server
    [] (bs "/gist/d") [x64] None (fst (example_gh_get (gh_ctx example_server))) example_answer).
  - reflexivity.
  - vm_compute. reflexivity.
  - apply pair_of_snd. vm_compute. reflexivity.
  - reflexivity.
Defined.

(** What the command line program prints. *)
Example pegh_prints :
  snd (pegh_main (fun _ => true) (fun _ => Some example_wire) (fun b => b) true [x64] None example_delivered) =
  Ok (bs "gist.version = 2" ++ [x0a] ++ bs "gist.versions:" ++ [x0a] ++ bs "- 1" ++ [x0a] ++ bs "- 2" ++ [x0a] ++
      bs "=== a ===" ++ [x0a] ++ bs "y" ++ [x0a] ++ bs "=== b ===" ++ [x0a] ++ bs "x" ++ [x0a]).
Proof. vm_compute. reflexivity. Qed.
