(* ===== verification/Container.v ===== *)
(** Running the container in the guest (src/peinit/src/main.rs).

    The guest mounts the image, starts crun on the bundle with the output files
    and the requested standard input, reads the pid that crun leaves and waits
    for that process with the supervision of waitid_timeout.  The file system
    and crun are parameters; the waiting is that of [VmPool]. *)
From stdpp Require Import option base list sets numbers strings gmap.
From Stdlib Require Import ZArith Lia.
From S2P Require Import Prelude MemFile BTree Paths Text IoFile RuntimeSpec VmPool.
#[local] Open Scope Z_scope.
#[local] Open Scope result_scope.

Definition IMAGE_DEVICE : bstr := bs "/dev/pmem0".

(** * The root file system *)

Inductive Mount :=
  | MountFs (source target fstype options : bstr)
  | MountBind (source target : bstr).

Definition fstype_of (k : RootfsKind) : bstr := match k with Sqfs => bs "squashfs" | Erofs => bs "erofs" end.

(** A directory name with a NUL byte is no C string. *)
Definition rootfs_mounts (config : Config) : result Empty_set (list Mount) :=
  let kind := fstype_of (rootfs_kind config) in
  let? image := (match rootfs_dir config with
                 | Some dir =>
                     if decide (x00 ∈ dir) then Panic
                     else Ok [MountFs IMAGE_DEVICE (bs "/mnt/image") kind [];
                              MountBind (bs "/mnt/image/" ++ dir) (bs "/mnt/rootfs")]
                 | None => Ok [MountFs IMAGE_DEVICE (bs "/mnt/rootfs") kind []]
                 end) in
  Ok (image ++ [MountFs (bs "none") (bs "/run/bundle/rootfs") (bs "overlay")
                  (bs "lowerdir=/mnt/rootfs,upperdir=/mnt/upper,workdir=/mnt/work")]).

(** * The container *)

Section container.
Context {K : Type} `{Kernel K}.
(** [Path::canonicalize] and [File::open]. *)
Context (canonicalize : bstr -> option bstr) (open_file : bstr -> option Z).
(** crun: it returns whether it exited with success. *)
Context (crun : bstr -> list bstr -> option Z -> K -> K * bool).
(** The file that crun writes the pid to, and [PidFd::open]: afterwards the calls of
    [Kernel] are about the process with this pid. *)
Context (pid_file : K -> option bstr) (pidfd_open : Z -> K -> K * bool).

Definition run_input : bstr := bs "/run/input".

(** The standard input: a file below the input directory, else none. *)
Definition container_stdin (config : Config) : option Z :=
  x ← stdin config;
  p ← canonicalize (path_push run_input x);
  if path_starts_with (components p) (components run_input) then open_file p else None.

Definition crun_command (config : Config) : bstr * list bstr :=
  let bin := if strace config then bs "/bin/strace" else bs "/bin/crun" in
  let a1 := if strace config
            then [bs "-e"; bs "write,openat,unshare,clone,clone3,chdir"; bs "-f"; bs "-o"; bs "/run/crun.strace";
                  bs "--decode-pids=comm"; bs "/bin/crun"]
            else [] in
  let a2 := if crun_debug config then [bs "--debug"; bs "--log=/run/crun.log"] else [] in
  (bin, a1 ++ a2 ++
    [bs "run"; bs "-b"; bs "/run/bundle"; bs "-d"; bs "--pid-file=/run/pid"; bs "cid-1234"]).

(** [str::parse::<i32>]: digits with an optional sign. *)
Definition parse_i32 (s : bstr) : option Z :=
  match s with
  | x2d :: x2b :: _ => None
  | x2d :: d => n ← parse_uint 64 d; if n <=? 2 ^ 31 then Some (- n) else None
  | _ => n ← parse_uint 64 s; if n <? 2 ^ 31 then Some n else None
  end.

(** [created]: the files for the output could be created. *)
Definition run_container (created : bool) (config : Config) (k : K) : K * result unit WaitIdDataOvertime :=
  if negb created then (k, Panic) else
  let '(bin, args) := crun_command config in
  let '(k, success) := crun bin args (container_stdin config) k in
  if negb success then (k, Panic) else
  match pid_file k ≫= parse_i32 with
  | None => (k, Panic)
  | Some pid =>
      match pidfd_open pid k with
      | (k, true) =>
          match PidFdWaiter_new k with
          | (k, Ok _) => wait_timeout_or_kill (timeout config) k
          | (k, _) => (k, Panic)
          end
      | (k, false) => (k, Panic)
      end
  end.
End container.

(** * Lemmas *)

Lemma path_starts_with_spec p q : path_starts_with p q = true <-> exists r, p = q ++ r.
Proof.
  unfold path_starts_with. rewrite bool_decide_eq_true. split.
  - intros Ht. exists (drop (length q) p). by rewrite <-Ht at 1; rewrite take_drop.
  - intros [r ->]. apply take_app_length.
Qed.

Lemma container_stdin_confined canonicalize open_file config fd :
  container_stdin canonicalize open_file config = Some fd ->
  exists x p r, stdin config = Some x /\ canonicalize (path_push run_input x) = Some p /\
    components p = components run_input ++ r /\ open_file p = Some fd.
Proof.
  unfold container_stdin. destruct (stdin config) as [x|]; simpl; [|done].
  destruct (canonicalize _) as [p|] eqn:Ec; simpl; [|done].
  destruct (path_starts_with _ _) eqn:Es; [|done]. apply path_starts_with_spec in Es as [r Hr].
  intros Ho. by exists x, p, r.
Qed.

(** * Properties *)

(** The container's process is there to be waited for: the output files could be
    created; crun was run on the fixed bundle, detached and with the pid left in
    the file, and exited with success; the file had a pid; and a descriptor and a
    waiter could be made for the process with this pid. *)
Definition launched {K} `{Kernel K} canonicalize open_file (crun : bstr -> list bstr -> option Z -> K -> K * bool)
    (pid_file : K -> option bstr) (pidfd_open : Z -> K -> K * bool) (created : bool) (config : Config) (k k3 : K) : Prop :=
  created = true /\
  exists k1 text pid k2,
    crun (if strace config then bs "/bin/strace" else bs "/bin/crun")
      ((if strace config
        then [bs "-e"; bs "write,openat,unshare,clone,clone3,chdir"; bs "-f"; bs "-o"; bs "/run/crun.strace";
              bs "--decode-pids=comm"; bs "/bin/crun"] else []) ++
       (if crun_debug config then [bs "--debug"; bs "--log=/run/crun.log"] else []) ++
       [bs "run"; bs "-b"; bs "/run/bundle"; bs "-d"; bs "--pid-file=/run/pid"; bs "cid-1234"])
      (container_stdin canonicalize open_file config) k = (k1, true) /\
    pid_file k1 = Some text /\ parse_i32 text = Some pid /\ pidfd_open pid k1 = (k2, true) /\
    PidFdWaiter_new k2 = (k3, Ok tt).

Section launching.
Context {K : Type} `{Kernel K} (canonicalize : bstr -> option bstr) (open_file : bstr -> option Z).
Context (crun : bstr -> list bstr -> option Z -> K -> K * bool).
Context (pid_file : K -> option bstr) (pidfd_open : Z -> K -> K * bool).

Lemma launched_run created config k k3 :
  launched canonicalize open_file crun pid_file pidfd_open created config k k3 ->
  run_container canonicalize open_file crun pid_file pidfd_open created config k = wait_timeout_or_kill (timeout config) k3.
Proof.
  intros (-> & k1 & text & pid & k2 & Hc & Ht & Hp & Ho & Hw). unfold run_container, crun_command. cbn [negb].
  rewrite Hc. cbn [negb]. rewrite Ht. cbn [mbind option_bind]. by rewrite Hp, Ho, Hw.
Qed.

Lemma run_launched created config k k' r :
  run_container canonicalize open_file crun pid_file pidfd_open created config k = (k', r) -> r <> Panic ->
  exists k3, launched canonicalize open_file crun pid_file pidfd_open created config k k3.
Proof.
  unfold run_container, crun_command. destruct created; cbn [negb]; [|by intros [= <- <-]].
  destruct (crun _ _ _ k) as [k1 ok] eqn:Hc. destruct ok; cbn [negb]; [|by intros [= <- <-]].
  destruct (pid_file k1) as [text|] eqn:Ht; cbn [mbind option_bind]; [|by intros [= <- <-]].
  destruct (parse_i32 text) as [pid|] eqn:Hp; [|by intros [= <- <-]].
  destruct (pidfd_open pid k1) as [k2 [|]] eqn:Ho; [|by intros [= <- <-]].
  destruct (PidFdWaiter_new k2) as [k3 [[]| |]] eqn:Hw; [|by intros [= <- <-]..].
  intros _ _. exists k3. split; [done|]. by exists k1, text, pid, k2.
Qed.
End launching.

(** C35: a container is started once and waited for.  Starting the container panics
    exactly when its process is not there to be waited for ([launched]); otherwise
    the process that is waited for is the one whose pid crun left, crun was run
    detached on the fixed bundle with its standard input none or a file whose
    canonical path lies below the input directory, and the run returns the outcome
    of the wait: how the process ended, by itself or killed after the timeout, with
    the process waited for, or the error of the poll, and then the process has not
    been waited for. *)
Theorem container_supervised {K} `{KernelLaws K} canonicalize open_file crun pid_file pidfd_open created config
    (k k' : K) r :
  (forall pid k1 k2, pidfd_open pid k1 = (k2, true) -> child k2 <> Reaped) ->
  run_container canonicalize open_file crun pid_file pidfd_open created config k = (k', r) ->
  (r <> Panic <-> exists k3, launched canonicalize open_file crun pid_file pidfd_open created config k k3) /\
  (forall k3, launched canonicalize open_file crun pid_file pidfd_open created config k k3 ->
     wait_timeout_or_kill (timeout config) k3 = (k', r) /\
     ((exists e, r = Err e) /\ child k' <> Reaped \/
      child k' = Reaped /\ exists si ru, r = Ok (OExited si ru) \/ r = Ok (OExitedOvertime si ru))) /\
  (forall fd, container_stdin canonicalize open_file config = Some fd -> exists x p rest, stdin config = Some x /\
     canonicalize (path_push run_input x) = Some p /\ components p = components run_input ++ rest /\
     open_file p = Some fd).
Proof.
  intros Hopen E. assert (forall k3, launched canonicalize open_file crun pid_file pidfd_open created config k k3 ->
    wait_timeout_or_kill (timeout config) k3 = (k', r) /\
    ((exists e, r = Err e) /\ child k' <> Reaped \/
     child k' = Reaped /\ exists si ru, r = Ok (OExited si ru) \/ r = Ok (OExitedOvertime si ru))) as Hl.
  { intros k3 Hl. pose proof (launched_run _ _ _ _ _ _ _ _ _ Hl) as Hr. rewrite E in Hr.
    destruct Hl as (_ & k1 & text & pid & k2 & _ & _ & _ & Ho & Hw).
    destruct (PidFdWaiter_new_spec k2 k3 (Ok tt) Hw (Hopen _ _ _ Ho)) as [Hc _].
    destruct (wait_timeout_or_kill_spec (timeout config) k3 Hc) as (k4 & r4 & E4 & Hr4).
    rewrite E4 in Hr |- *. injection Hr as <- <-. done. }
  split_and!; [|exact Hl|intros fd; apply container_stdin_confined]. split.
  - intros Hr. by eapply run_launched.
  - intros [k3 Hk3] ->. apply Hl in Hk3 as [_ [[[e [=]] _]|(_ & si & ru & [[=]|[=]])]].
Qed.

(** ** A concrete container *)

Definition example_config : Config :=
  {| oci_runtime_config := []; timeout := {| d_secs := 2; d_nanos := 0 |};
     stdin := Some (bs "dir/../../../etc/passwd"); strace := false; crun_debug := false; rootfs_dir := None;
     rootfs_kind := Erofs; response_format := JsonV1; kernel_inspect := false; manifest_digest := [] |}.
Definition example_crun (_ : bstr) (_ : list bstr) (_ : option Z) (k : OneChild) : OneChild * bool :=
  (set_state (ORunning false) k, true).
(** There is one process, with the pid 123. *)
Definition example_pidfd_open (pid : Z) (k : OneChild) : OneChild * bool :=
  (k, match oc_state k with OReaped => false | _ => pid =? 123 end).
Definition example_container (ends : option Z) : OneChild * result unit WaitIdDataOvertime :=
  run_container (fun _ => Some (bs "/etc/passwd")) (fun _ => Some 3) example_crun (fun _ => Some (bs "123"))
    example_pidfd_open true example_config {| oc_state := OReaped; ends_in := ends |}.

(** A path that leaves the input directory is not opened, and the container ends
    by itself. *)
Lemma container_supervised_witness :
  container_stdin (fun _ => Some (bs "/etc/passwd")) (fun _ => Some 3) example_config = None /\
  exists k' r, example_container (Some 1) = (k', r) /\ child k' = Reaped.
Proof.
  split; [reflexivity|].
  destruct (example_container (Some 1)) as [k' r] eqn:E. exists k', r. split; [reflexivity|].
  destruct (container_supervised (fun _ => Some (bs "/etc/passwd")) (fun _ => Some 3) example_crun
    (fun _ => Some (bs "123")) example_pidfd_open true example_config {| oc_state := OReaped; ends_in := Some 1 |} k' r)
    as (Hp & Hl & _).
  - intros pid [st e] k2. unfold example_pidfd_open. destruct st; simpl; intros [= <- _]; discriminate.
  - exact E.
  - destruct Hp as [[k3 Hk3] _]; [vm_compute in E; injection E as <- <-; discriminate|].
    destruct (Hl k3 Hk3) as [_ [[[e ->] _]|[Hre _]]]; [vm_compute in E; discriminate E|exact Hre].
Defined.
