(* ===== verification/GuestMain.v ===== *)
(** The init process of the guest (src/peinit/src/main.rs).

    [main] sets a panic hook, mounts what it needs, reads the configuration from
    the io device, unpacks the archive, runs the container and writes the
    response; every failed step is a panic, and the hook then writes a panic
    response.  The guest powers off at the end, so that only what was synced is
    sure to reach the host.  The file models [main] and the hook on a state that
    a panic keeps, and proves when the host finds which answer.  Whether a
    system call or a started program succeeds is a parameter; the container is
    that of [Container], the formats are those of [Run]. *)
From stdpp Require Import option base list sets numbers strings gmap.
From Stdlib Require Import ZArith Lia.
From S2P Require Import Prelude MemFile BTree Paths Text Pearchive IoFile RuntimeSpec Run VmPool Container.
#[local] Open Scope Z_scope.
#[local] Opaque le_bytes.

Definition INOUT_DEVICE : bstr := bs "/dev/pmem1".
Definition STDOUT_FILE : bstr := bs "/run/output/stdout".
Definition STDERR_FILE : bstr := bs "/run/output/stderr".

(** The steps that only succeed or fail. *)
Inductive Call :=
  | CMount (m : Mount)
  | CBindRecursive (source target : bstr)
  | CChdir (path : bstr)
  | CChroot (path : bstr)
  | CMkdir (path : bstr) (mode : Z)
  | CChown (path : bstr) (uid gid : Z)
  | COpen (path : bstr)
  | CCreate (path : bstr)
  | CWrite (path contents : bstr)
  | CWalk (path : bstr)
  | CSync
  | CCommand (bin : bstr) (args : list bstr).

#[export] Instance Mount_eq_dec : EqDecision Mount.
Proof. solve_decision. Defined.
#[export] Instance Call_eq_dec : EqDecision Call.
Proof. solve_decision. Defined.

(** The io device and whether it was synced after the last write, whether devtmpfs
    is mounted, the processes, and the calls that were made. *)
Record GuestState (K : Type) := {
  g_device : IoFile; g_synced : bool; g_dev : bool; g_kernel : K; g_calls : list Call;
}.
Arguments g_device {K}. Arguments g_dev {K}. Arguments g_synced {K}. Arguments g_kernel {K}. Arguments g_calls {K}.

(** A computation returns a value or panics with a message; the state is kept. *)
Definition M (K A : Type) : Type := GuestState K -> GuestState K * (A + bstr).

Declare Scope guest_scope.
Delimit Scope guest_scope with guest.
#[local] Open Scope guest_scope.
Definition gret {K A} (a : A) : M K A := fun g => (g, inl a).
Definition gpanic {K A} (m : bstr) : M K A := fun g => (g, inr m).
Definition gbind {K A B} (c : M K A) (k : A -> M K B) : M K B := fun g =>
  match c g with (g, inl a) => k a g | (g, inr m) => (g, inr m) end.
Notation "x <- c ;; k" := (gbind c (fun x => k)) (at level 90, c at next level, right associativity) : guest_scope.
Notation "c ;;; k" := (gbind c (fun _ => k)) (at level 90, right associativity) : guest_scope.

Section main.
Context {K : Type} `{Kernel K}.
(** Whether a call succeeds after the calls that were made. *)
Context (call_ok : Call -> list Call -> bool).
(** The text of a panic. *)
Context (message : string -> bstr).
Context (bincode_decode : list byte -> option (Config * Z)) (json_encode : Response -> option (list byte)).
Context (sendfile : bstr -> Z -> result Z (bstr * bstr)) (from_utf8_lossy : bstr -> bstr).
(** The parameters of the container. *)
Context (canonicalize : bstr -> option bstr) (open_file : bstr -> option Z).
Context (crun : bstr -> list bstr -> option Z -> K -> K * bool).
Context (pid_file : K -> option bstr) (pidfd_open : Z -> K -> K * bool).
(** What the container left: a file, the output directory. *)
Context (read_file : bstr -> K -> option bstr) (output_dir : K -> list fs_entry).
(** What a failed pearchive leaves on the device. *)
Context (torn : IoFile -> IoFile).
(** Whether devtmpfs has a node for the io device, and the room for a new file in the
    memory file system of the guest. *)
Context (has_node : bool) (ram_file : IoFile).

Definition set_device (d : IoFile) (g : GuestState K) : GuestState K :=
  {| g_device := d; g_synced := false; g_dev := g_dev g; g_kernel := g_kernel g; g_calls := g_calls g |}.
Definition set_kernel (k : K) (g : GuestState K) : GuestState K :=
  {| g_device := g_device g; g_synced := g_synced g; g_dev := g_dev g; g_kernel := k; g_calls := g_calls g |}.
Definition set_synced (g : GuestState K) : GuestState K :=
  {| g_device := g_device g; g_synced := true; g_dev := g_dev g; g_kernel := g_kernel g; g_calls := g_calls g |}.
Definition log_call (c : Call) (g : GuestState K) : GuestState K :=
  {| g_device := g_device g; g_synced := g_synced g; g_dev := g_dev g; g_kernel := g_kernel g; g_calls := g_calls g ++ [c] |}.

Definition dev_mount : Call := CMount (MountFs (bs "none") (bs "/dev") (bs "devtmpfs") []).
Definition note_dev (c : Call) (g : GuestState K) : GuestState K :=
  if decide (c = dev_mount)
  then {| g_device := g_device g; g_synced := g_synced g; g_dev := true; g_kernel := g_kernel g; g_calls := g_calls g |}
  else g.

Definition unwrap_call (site : string) (c : Call) : M K unit := fun g =>
  let ok := call_ok c (g_calls g) in
  let g := log_call c g in
  if ok then (note_dev c g, inl tt) else (g, inr (message site)).

Fixpoint unwrap_calls (site : string) (cs : list Call) : M K unit :=
  match cs with
  | [] => gret tt
  | c :: cs => unwrap_call site c ;;; unwrap_calls site cs
  end.

Definition unwrap_result {E A} (site : string) (r : result E A) : M K A :=
  match r with Ok a => gret a | Err _ | Panic => gpanic (message site) end.

Definition gdevice : M K IoFile := fun g => (g, inl (g_device g)).

(** * The steps *)

Definition parent_rootfs : list Call :=
  [CBindRecursive (bs "/") (bs "/"); CChdir (bs "/.."); CChroot (bs ".")].

Definition initial_mounts : list Call :=
  [CMount (MountFs (bs "none") (bs "/proc") (bs "proc") []);
   CMount (MountFs (bs "none") (bs "/sys/fs/cgroup") (bs "cgroup2") []);
   dev_mount;
   CMount (MountFs (bs "none") (bs "/run/output") (bs "tmpfs") (bs "size=2M,mode=777"));
   CMkdir (bs "/run/output/dir") 511; CChown (bs "/run/output/dir") 1000 1000].

(** [pearchive], under strace if asked for. *)
Definition pearchive (strace : bool) (args : list bstr) : Call :=
  if strace then CCommand (bs "strace") (bs "/bin/pearchive" :: args) else CCommand (bs "/bin/pearchive") args.

(** [unpack_input]: the command gets the device behind the configuration. *)
Definition unpack_input (dir : bstr) : M K (Config * bstr) :=
  unwrap_call "open" (COpen INOUT_DEVICE) ;;;
  d <- gdevice ;;
  r <- unwrap_result "read_io_file_config" (read_io_file_config bincode_decode (io_file (reopen d))) ;;
  let '(archive_size, config, f) := r in
  unwrap_call "unpackfd" (pearchive (strace config) [bs "unpackfd"; bs "3"; dir; print_uint archive_size]) ;;;
  archive <- unwrap_result "unpackfd" (Guest.unpackfd (print_uint archive_size) f) ;;
  gret (config, archive).

(** [pack_output]: the command packs the directory onto the device and syncs it. *)
Definition pack_output (dir : bstr) (strace : bool) (f : IoFile) : M K unit :=
  unwrap_call "packfd" (pearchive strace [bs "packfd"; dir; bs "3"]) ;;;
  fun g => match Guest.packfd sendfile (output_dir (g_kernel g)) f with
           | Ok d => (set_synced (set_device d g), inl tt)
           | _ => (set_device (torn f) g, inr (message "packfd"))
           end.

(** Starting and waiting for the container; its output files must be new. *)
Definition container (config : Config) : M K (result unit VmPool.WaitIdDataOvertime) :=
  unwrap_calls "create_new" [CCreate STDOUT_FILE; CCreate STDERR_FILE] ;;;
  fun g => match run_container canonicalize open_file crun pid_file pidfd_open true config (g_kernel g) with
           | (k, Panic) => (set_kernel k g, inr (message "run_container"))
           | (k, r) => (set_kernel k g, inl r)
           end.

(** The outcome as the response has it. *)
Definition outcome (r : result unit VmPool.WaitIdDataOvertime) : Guest.WaitIdDataOvertime + bstr :=
  match r with
  | Ok (OExited si ru) => inl (Guest.WExited (si_code si) (si_status si) ru)
  | Ok (OExitedOvertime si ru) => inl (Guest.WExitedOvertime (si_code si) (si_status si) ru)
  | Ok ONotExited => inl Guest.NotExited
  | _ => inr (message "wait")
  end.

Definition container_run (r : result unit VmPool.WaitIdDataOvertime) (k : K) : Guest.ContainerRun :=
  {| Guest.wait := outcome r; Guest.stdout_file := read_file STDOUT_FILE k;
     Guest.stderr_file := read_file STDERR_FILE k; Guest.output := output_dir k |}.

(** The end of [main]: the response, and the archive if it is wanted. *)
Definition respond (config : Config) (r : result unit VmPool.WaitIdDataOvertime) : M K unit :=
  unwrap_call "open" (COpen INOUT_DEVICE) ;;;
  fun g =>
    match write_io_file_response json_encode (reopen (g_device g))
            (Guest.make_response from_utf8_lossy config (container_run r (g_kernel g))) with
    | Ok f =>
        match response_format config with
        | PeArchiveV1 => pack_output (bs "/run/output") (strace config) f (set_device f g)
        | JsonV1 => (set_device f g, inl tt)
        end
    | _ => (set_device (torn (g_device g)) g, inr (message "write_io_file_response"))
    end.

Definition guest_body : M K (Config * result unit VmPool.WaitIdDataOvertime) :=
  unwrap_calls "parent_rootfs" parent_rootfs ;;;
  unwrap_calls "mount" initial_mounts ;;;
  x <- unpack_input (bs "/run/input") ;;
  let '(config, _) := x in
  ms <- unwrap_result "rootfs_dir" (rootfs_mounts config) ;;
  unwrap_calls "mount" (CMount <$> ms) ;;;
  unwrap_call "write" (CWrite (bs "/run/bundle/config.json") (oci_runtime_config config)) ;;;
  unwrap_calls "walkdir" (if kernel_inspect config then [CWalk (bs "/proc/sys")] else []) ;;;
  r <- container config ;;
  respond config r ;;; gret (config, r).

(** * The hook *)

(** Errors of the hook are printed.  [File::create] makes a new file where there is no
    device: before devtmpfs is mounted, in the memory file system that the guest
    booted from, and later in devtmpfs if the device has no node there.  What is
    written to such a file never reaches the host. *)
Definition write_panic_response (m : bstr) (g : GuestState K) : GuestState K * result IoFile.Error unit :=
  let create := CCreate INOUT_DEVICE in
  let ok := call_ok create (g_calls g) in
  let g := log_call create g in
  if negb ok then (g, Err IoFile.Io) else
  let on_device := g_dev g && has_node in
  match write_io_file_response json_encode (if on_device then reopen (g_device g) else ram_file) (RPanic m) with
  | Ok f =>
      let g := if on_device then set_device f g else g in
      let ok := call_ok CSync (g_calls g) in
      let g := log_call CSync g in
      if ok then (if on_device then set_synced g else g, Ok tt) else (g, Err IoFile.Io)
  | Err e => (if on_device then set_device (torn (g_device g)) g else g, Err e)
  | Panic => (g, Panic)
  end.

(** [main] with the hook that [setup_panic] sets; the guest powers off after
    either.  The second component is the panic, if there was one. *)
Definition guest_main (g : GuestState K) : GuestState K * ((Config * result unit VmPool.WaitIdDataOvertime) + bstr) :=
  match guest_body g with
  | (g, inl x) => (g, inl x)
  | (g, inr m) => ((write_panic_response m g).1, inr m)
  end.
End main.

(** * Lemmas *)

Lemma gbind_inl {K A B} (c : M K A) (k : A -> M K B) g g' b :
  gbind c k g = (g', inl b) -> exists g1 a, c g = (g1, inl a) /\ k a g1 = (g', inl b).
Proof. unfold gbind. destruct (c g) as [g1 [a|m]]; [eauto|done]. Qed.

(** What a written response is. *)
Lemma write_response_inv json_encode (f f' : IoFile) r :
  write_io_file_response json_encode (reopen f) r = Ok f' ->
  exists j, json_encode r = Some j /\ in_width 32 (zlen j) /\ 8 + zlen j <= io_size f /\
    io_file f' = MemFile.write_all (header 0 (zlen j) ++ j) (seek 0 (io_file f)) /\ io_size f' = io_size f.
Proof.
  unfold write_io_file_response. destruct (json_encode r) as [j|] eqn:Ej; [|done]. cbn [ok_or rbind].
  destruct (try_into 32 (zlen j)) as [n|] eqn:En; [|done]. apply try_into_Some in En as [-> Hj]. cbn [expect rbind].
  rewrite ok_or_bind. intros Hw%ok_or_Ok. exists j. split; [done|]. split; [done|].
  destruct (Z.le_gt_cases (8 + zlen j) (io_size f)) as [Hle|Hgt].
  - split; [done|]. destruct (write_frame_iofile 0 (zlen j) j (reopen f)) as (f2 & Hf2 & Hio & Hs); [done|exact Hle|].
    assert (Some f2 = Some f') as [= <-] by (rewrite <-Hf2; exact Hw). done.
  - pose proof (write_frame_too_long 0 (zlen j) j (reopen f) ltac:(done) Hgt) as Hn.
    by assert (None = Some f') by (rewrite <-Hn; exact Hw).
Qed.

(** What [packfd] leaves behind a response. *)
Lemma packfd_inv sendfile es (f f0 d : IoFile) j :
  io_file f = MemFile.write_all (header 0 (zlen j) ++ j) (seek 0 (io_file f0)) ->
  Guest.packfd sendfile es f = Ok d ->
  exists archive, pack_dir_to_writer sendfile es = Ok archive /\ in_width 32 (zlen archive) /\
    io_size d = io_size f /\
    get_range (o_bytes (io_file d)) 0 (8 + zlen (j ++ archive)) = Some (header (zlen archive) (zlen j) ++ j ++ archive).
Proof.
  intros Hf Hd. unfold Guest.packfd in Hd. apply rbind_Ok_inv in Hd as (archive & Ha & Hd).
  apply rbind_Ok_inv in Hd as (f2 & Hw2 & Hd).
  destruct (io_write_all archive f) as [f2'|] eqn:E2; [|done]. injection Hw2 as ->.
  assert (o_pos (io_file f) = 8 + zlen j) as Hp by (rewrite Hf; simpl; by rewrite zlen_app, zlen_header).
  pose proof (zlen_nonneg j). apply write_iofile_inv in E2 as (Hle & Hf2 & Hs2); [|lia].
  destruct (Z.leb_spec (o_pos (io_file f2)) (o_pos (io_file f))) as [|Hlt]; [done|].
  apply rbind_Ok_inv in Hd as (n & Hn & Hd).
  assert (o_pos (io_file f2) - o_pos (io_file f) = zlen archive) as Hz by (rewrite Hf2; simpl; lia).
  rewrite Hz in Hn. destruct (try_into 32 (zlen archive)) as [n'|] eqn:En; [|done]. injection Hn as ->.
  apply try_into_Some in En as [-> Hw]. exists archive.
  split; [by destruct (pack_dir_to_writer sendfile es); [injection Ha as ->|..]|]. split; [done|].
  destruct (io_write_all _ (reopen f2)) as [d'|] eqn:E3; [|done]. injection Hd as ->.
  apply write_iofile_inv in E3 as (_ & Hf3 & Hs3); [|done]. split; [rewrite Hs3; exact Hs2|].
  rewrite Hf3. cbn [io_file reopen]. rewrite Hf2, Hf, write_all_app by (by simpl).
  rewrite <-app_assoc. apply rewrite_size.
Qed.

Section properties.
Context {K : Type} `{Kernel K}.
Context (call_ok : Call -> list Call -> bool) (message : string -> bstr).
Context (bincode_decode : list byte -> option (Config * Z)) (json_encode : Response -> option (list byte)).
Context (json_decode : list byte -> option Response).
Context (sendfile : bstr -> Z -> result Z (bstr * bstr)) (from_utf8_lossy : bstr -> bstr).
Context (canonicalize : bstr -> option bstr) (open_file : bstr -> option Z).
Context (crun : bstr -> list bstr -> option Z -> K -> K * bool).
Context (pid_file : K -> option bstr) (pidfd_open : Z -> K -> K * bool).
Context (read_file : bstr -> K -> option bstr) (output_dir : K -> list fs_entry).
Context (torn : IoFile -> IoFile).
Hypothesis torn_size : forall d, io_size (torn d) = io_size d.
Hypothesis json_codec : codec json_encode json_decode.

(** The size of the device never changes. *)
Definition keeps_size {A} (c : M K A) : Prop := forall g, io_size (g_device (c g).1) = io_size (g_device g).

Lemma keeps_bind {A B} (c : M K A) (k : A -> M K B) :
  keeps_size c -> (forall a, keeps_size (k a)) -> keeps_size (gbind c k).
Proof.
  intros Hc Hk g. unfold gbind. specialize (Hc g). destruct (c g) as [g1 [a|m]]; [|done].
  rewrite (Hk a g1). exact Hc.
Qed.

Lemma note_dev_device c (g : GuestState K) : g_device (note_dev c g) = g_device g.
Proof. unfold note_dev. by case_decide. Qed.

Lemma keeps_call site c : keeps_size (unwrap_call call_ok message site c).
Proof. intros g. unfold unwrap_call. destruct (call_ok _ _); [|done]. cbn [fst]. by rewrite note_dev_device. Qed.

Lemma keeps_calls site cs : keeps_size (unwrap_calls call_ok message site cs).
Proof. induction cs as [|c cs IH]; [done|]. by apply keeps_bind; [apply keeps_call|]. Qed.

Lemma keeps_result {E A} site (r : result E A) : keeps_size (unwrap_result message site r).
Proof. by destruct r. Qed.

Lemma keeps_respond config r :
  keeps_size (respond call_ok message json_encode sendfile from_utf8_lossy read_file output_dir torn config r).
Proof.
  apply keeps_bind; [apply keeps_call|]. intros _ g.
  destruct (write_io_file_response _ _ _) as [f| |] eqn:E; [|apply torn_size..].
  apply write_response_inv in E as (j & _ & _ & _ & Hf & Hs). destruct (response_format config); [|exact Hs].
  unfold pack_output, gbind, unwrap_call. destruct (call_ok _ _); [|exact Hs]. unfold note_dev at 1.
  rewrite decide_False by (unfold pearchive; by destruct (strace config)).
  destruct (Guest.packfd _ _ f) as [d| |] eqn:Ep; [|rewrite <-Hs; apply torn_size..].
  destruct (packfd_inv sendfile _ f _ d j Hf Ep) as (archive & _ & _ & Hd & _). simpl. by rewrite Hd.
Qed.

Abbreviation body := (guest_body call_ok message bincode_decode json_encode sendfile from_utf8_lossy canonicalize
  open_file crun pid_file pidfd_open read_file output_dir torn).

Lemma keeps_body : keeps_size body.
Proof.
  unfold guest_body. apply keeps_bind; [apply keeps_calls|]. intros _. apply keeps_bind; [apply keeps_calls|]. intros _.
  apply keeps_bind.
  { apply keeps_bind; [apply keeps_call|]. intros _. apply keeps_bind; [done|]. intros d.
    apply keeps_bind; [apply keeps_result|]. intros [[n c] f]. apply keeps_bind; [apply keeps_call|]. intros _.
    by apply keeps_bind; [apply keeps_result|]. }
  intros [config ?]. apply keeps_bind; [apply keeps_result|]. intros ms.
  apply keeps_bind; [apply keeps_calls|]. intros _. apply keeps_bind; [apply keeps_call|]. intros _.
  apply keeps_bind; [apply keeps_calls|]. intros _. apply keeps_bind.
  - apply keeps_bind; [apply keeps_calls|]. intros _ g. by destruct (run_container _ _ _ _ _ _ _ _) as [k []].
  - intros r. by apply keeps_bind; [apply keeps_respond|].
Qed.

(** Before devtmpfs is mounted nothing touches the device, and it stays mounted. *)
Definition dev_safe {A} (c : M K A) : Prop := forall g,
  (g_dev g = true -> g_dev (c g).1 = true) /\ (g_dev (c g).1 = false -> g_device (c g).1 = g_device g).
Definition keeps_dev {A} (c : M K A) : Prop := forall g, g_dev g = true -> g_dev (c g).1 = true.

Lemma safe_call site c : dev_safe (unwrap_call call_ok message site c).
Proof.
  intros g. unfold unwrap_call. destruct (call_ok _ _); [|done]. unfold note_dev. by case_decide.
Qed.

Lemma safe_bind {A B} (c : M K A) (k : A -> M K B) :
  dev_safe c -> (forall a, dev_safe (k a)) -> dev_safe (gbind c k).
Proof.
  intros Hc Hk g. unfold gbind. destruct (Hc g) as [H1 H2]. destruct (c g) as [g1 [a|m]]; [|done]. cbn [fst] in *.
  destruct (Hk a g1) as [H3 H4]. split; [tauto|]. intros Hf. rewrite (H4 Hf). apply H2.
  destruct (g_dev g1); [|done]. rewrite H3 in Hf; done.
Qed.

Lemma safe_calls site cs : dev_safe (unwrap_calls call_ok message site cs).
Proof. induction cs as [|c cs IH]; [done|]. by apply safe_bind; [apply safe_call|]. Qed.

Lemma calls_mount site cs (g g' : GuestState K) :
  dev_mount ∈ cs -> unwrap_calls call_ok message site cs g = (g', inl tt) -> g_dev g' = true.
Proof.
  revert g. induction cs as [|c cs IH]; intros g Hin; [by apply elem_of_nil in Hin|]. cbn [unwrap_calls].
  intros E. apply gbind_inl in E as (g1 & [] & Hc & E). apply elem_of_cons in Hin as [<-|Hin]; [|by eapply IH].
  unfold unwrap_call in Hc. destruct (call_ok _ _); [|done]. injection Hc as <-.
  destruct (safe_calls site cs (note_dev dev_mount (log_call dev_mount g))) as [H1 _]. rewrite E in H1. apply H1.
  unfold note_dev. by rewrite decide_True.
Qed.

Lemma keeps_dev_safe {A} (c : M K A) : dev_safe c -> keeps_dev c.
Proof. intros Hc g. apply Hc. Qed.

Lemma dev_bind {A B} (c : M K A) (k : A -> M K B) : keeps_dev c -> (forall a, keeps_dev (k a)) -> keeps_dev (gbind c k).
Proof.
  intros Hc Hk g Hg. unfold gbind. specialize (Hc g Hg). destruct (c g) as [g1 [a|m]]; [by apply Hk|done].
Qed.

Lemma dev_result {E A} site (r : result E A) : keeps_dev (unwrap_result message site r).
Proof. intros g. by destruct r. Qed.

Lemma dev_respond config r :
  keeps_dev (respond call_ok message json_encode sendfile from_utf8_lossy read_file output_dir torn config r).
Proof.
  apply dev_bind; [apply keeps_dev_safe, safe_call|]. intros _ g Hg.
  destruct (write_io_file_response _ _ _) as [f| |]; [|done..]. destruct (response_format config); [|done].
  apply dev_bind; [apply keeps_dev_safe, safe_call| |done].
  intros _ g1 Hg1. by destruct (Guest.packfd _ _ f).
Qed.

Lemma dev_bind_mounts {A B} (c : M K A) (k : A -> M K B) g :
  dev_safe c -> (forall a g, g_dev (k a g).1 = false -> g_device (k a g).1 = g_device g) ->
  (forall a, keeps_dev (k a)) ->
  g_dev (gbind c k g).1 = false -> g_device (gbind c k g).1 = g_device g.
Proof.
  intros Hc Hk Hd Hf. unfold gbind in *. destruct (Hc g) as [_ H2]. destruct (c g) as [g1 [a|m]]; cbn [fst] in *; [|by apply H2].
  rewrite (Hk a g1 Hf). apply H2. destruct (g_dev g1) eqn:E; [|done]. by rewrite (Hd a g1 E) in Hf.
Qed.

Lemma dev_mounts_then {B} (k : unit -> M K B) (g : GuestState K) :
  (forall a, keeps_dev (k a)) -> g_dev (gbind (unwrap_calls call_ok message "mount" initial_mounts) k g).1 = false ->
  g_device (gbind (unwrap_calls call_ok message "mount" initial_mounts) k g).1 = g_device g.
Proof.
  intros Hk Hf. pose proof (safe_calls "mount" initial_mounts g) as [_ H2]. unfold gbind in *.
  destruct (unwrap_calls _ _ "mount" initial_mounts g) as [g2 [[]|m]] eqn:E2; cbn [fst] in *; [|by apply H2].
  apply calls_mount in E2; [|unfold initial_mounts; do 2 right; by left]. by rewrite (Hk tt g2 E2) in Hf.
Qed.

(** After the first mounts the rest keeps devtmpfs mounted. *)
Lemma dev_body g : g_dev (body g).1 = false -> g_device (body g).1 = g_device g.
Proof.
  unfold guest_body.
  match goal with |- g_dev (gbind _ (fun _ => gbind _ ?rest) g).1 = false -> _ =>
    assert (forall a, keeps_dev (rest a)) as Hk
  end; [intros _|].
  2: { apply dev_bind_mounts; [apply safe_calls| |].
       - intros _ g1. by apply dev_mounts_then.
       - intros _. apply dev_bind; [apply keeps_dev_safe, safe_calls|exact Hk]. }
  apply dev_bind.
  { apply dev_bind; [apply keeps_dev_safe, safe_call|]. intros _. apply dev_bind; [by intros g1|]. intros d.
    apply dev_bind; [apply dev_result|]. intros [[n c] f]. apply dev_bind; [apply keeps_dev_safe, safe_call|]. intros _.
    apply dev_bind; [apply dev_result|]. by intros x g1. }
  intros [config ?]. apply dev_bind; [apply dev_result|]. intros ms.
  apply dev_bind; [apply keeps_dev_safe, safe_calls|]. intros _. apply dev_bind; [apply keeps_dev_safe, safe_call|]. intros _.
  apply dev_bind; [apply keeps_dev_safe, safe_calls|]. intros _. apply dev_bind.
  - apply dev_bind; [apply keeps_dev_safe, safe_calls|]. intros _ g3 Hg3. by destruct (run_container _ _ _ _ _ _ _ _) as [k []].
  - intros r. apply dev_bind; [apply dev_respond|]. by intros x g1.
Qed.

(** The hook answers with the panic. *)
Lemma hook_answers has_node ram_file m j (g : GuestState K) :
  g_dev g = true -> has_node = true ->
  (forall cs, call_ok (CCreate INOUT_DEVICE) cs = true) -> (forall cs, call_ok CSync cs = true) ->
  json_encode (RPanic m) = Some j -> in_width 32 (zlen j) -> 8 + zlen j <= io_size (g_device g) ->
  let g' := (write_panic_response call_ok json_encode torn has_node ram_file m g).1 in
  g_synced g' = true /\ read_io_file_response json_decode (io_file (g_device g')) = Ok (0, RPanic m).
Proof.
  intros Hd -> Hc Hs Hj Hw Hle. unfold write_panic_response. rewrite Hc. cbn [negb log_call g_dev g_device]. rewrite Hd.
  cbn [andb]. destruct (write_response_fits json_encode (g_device g) (RPanic m) j Hj Hw Hle) as (f & Hf & Hio & _).
  rewrite Hf, Hs. split; [done|]. simpl.
  unfold read_io_file_response.
  rewrite (read_response_bytes _ 0 j ltac:(by split) Hw (write_response_read _ _ j Hio)). simpl.
  by rewrite (json_codec _ _ Hj).
Qed.

(** Without the device the hook changes nothing that the host sees. *)
Lemma hook_off_device has_node ram_file m (g : GuestState K) :
  g_dev g && has_node = false ->
  let g' := (write_panic_response call_ok json_encode torn has_node ram_file m g).1 in
  g_device g' = g_device g /\ g_synced g' = g_synced g.
Proof.
  intros Hd. unfold write_panic_response. destruct (call_ok _ _); [|done]. cbn [negb log_call g_dev].
  rewrite Hd. destruct (write_io_file_response _ _ _); [|done..]. by destruct (call_ok _ _).
Qed.

Lemma hook_dev has_node ram_file m (g : GuestState K) :
  g_dev (write_panic_response call_ok json_encode torn has_node ram_file m g).1 = g_dev g.
Proof.
  unfold write_panic_response. destruct (call_ok _ _); [|done]. cbn [negb log_call g_dev g_device].
  destruct (g_dev g && has_node); destruct (write_io_file_response _ _ _); try done; by destruct (call_ok _ _).
Qed.

(** A device that holds a response and an archive. *)
Lemma framed_read (f : IoFile) resp j archive :
  json_encode resp = Some j -> in_width 32 (zlen j) -> in_width 32 (zlen archive) ->
  get_range (o_bytes (io_file f)) 0 (8 + zlen (j ++ archive)) = Some (header (zlen archive) (zlen j) ++ j ++ archive) ->
  read_io_file_response json_decode (io_file f) = Ok (zlen archive, resp) /\
  get_range (o_bytes (io_file f)) (8 + zlen j) (8 + zlen j + zlen archive) = Some archive.
Proof.
  intros Hj Hw Ha Hr. pose proof (zlen_header (zlen archive) (zlen j)) as Hh. rewrite zlen_app in Hr. split.
  - unfold read_io_file_response. rewrite (read_response_bytes _ (zlen archive) j Ha Hw).
    + simpl. by rewrite (json_codec _ _ Hj).
    + replace (8 + zlen j) with (0 + zlen (header (zlen archive) (zlen j) ++ j)) by (rewrite zlen_app; lia).
      apply (get_range_sub _ [] _ archive 0); [done|]. simpl. rewrite !zlen_app, <-app_assoc, Hh. rewrite <-Hr. f_equal. lia.
  - replace (8 + zlen j) with (0 + zlen (header (zlen archive) (zlen j) ++ j)) by (rewrite zlen_app; lia).
    apply (get_range_sub _ _ archive [] 0); [done|]. rewrite app_nil_r, !zlen_app, <-app_assoc, Hh. rewrite <-Hr. f_equal. lia.
Qed.

(** What the host finds after a run without a panic. *)
Definition answered (g : GuestState K) (config : Config) (r : result unit VmPool.WaitIdDataOvertime) : Prop :=
  let resp := Guest.make_response from_utf8_lossy config (container_run message read_file output_dir r (g_kernel g)) in
  exists j, json_encode resp = Some j /\
    match response_format config with
    | PeArchiveV1 => g_synced g = true /\
        exists archive, pack_dir_to_writer sendfile (output_dir (g_kernel g)) = Ok archive /\
          read_io_file_response json_decode (io_file (g_device g)) = Ok (zlen archive, resp) /\
          get_range (o_bytes (io_file (g_device g))) (8 + zlen j) (8 + zlen j + zlen archive) = Some archive
    | JsonV1 => g_synced g = false /\ read_io_file_response json_decode (io_file (g_device g)) = Ok (0, resp)
    end.

Lemma respond_answers config r g g' :
  respond call_ok message json_encode sendfile from_utf8_lossy read_file output_dir torn config r g = (g', inl tt) ->
  answered g' config r.
Proof.
  intros E. unfold respond in E. apply gbind_inl in E as (g1 & [] & _ & E).
  destruct (write_io_file_response _ _ _) as [f| |] eqn:Ew; [|done..].
  apply write_response_inv in Ew as (j & Hj & Hw & _ & Hf & Hs). unfold answered.
  destruct (response_format config) eqn:Efmt.
  - apply gbind_inl in E as (g2 & [] & Hc & E). unfold unwrap_call in Hc. destruct (call_ok _ _); [|done].
    injection Hc as <-. unfold note_dev in E. rewrite decide_False in E by (unfold pearchive; by destruct (strace config)).
    simpl in E. destruct (Guest.packfd _ _ f) as [d| |] eqn:Ep; [|done..]. injection E as <-.
    destruct (packfd_inv _ _ f _ d j Hf Ep) as (archive & Ha & Haw & _ & Hr). exists j. split; [exact Hj|]. simpl.
    split; [done|]. exists archive. split; [done|]. by apply framed_read.
  - injection E as <-. exists j. split; [exact Hj|]. split; [done|]. simpl.
    unfold read_io_file_response. rewrite (read_response_bytes _ 0 j ltac:(by split) Hw (write_response_read _ _ j Hf)).
    simpl. by rewrite (json_codec _ _ Hj).
Qed.

Lemma body_answers g g' config r : body g = (g', inl (config, r)) -> answered g' config r.
Proof.
  unfold guest_body. intros E. do 2 (apply gbind_inl in E as (? & [] & _ & E)).
  apply gbind_inl in E as (? & [c a] & _ & E). apply gbind_inl in E as (? & ms & _ & E).
  do 3 (apply gbind_inl in E as (? & [] & _ & E)). apply gbind_inl in E as (? & r' & _ & E).
  apply gbind_inl in E as (g2 & [] & Hr & E). injection E as <- <- <-. by eapply respond_answers.
Qed.
End properties.

(** * Properties *)

(** C6: What the host finds on the io device when the guest has powered off.  When
    [main] runs through, the device holds the response for what the container did,
    followed by the archive of the output directory if the run asked for it.  When
    anything panics after devtmpfs was mounted, on whatever the device held by then,
    the hook has left a synced panic response with the message, provided that the
    device has a node, that creating and syncing it succeed and that the message
    fits.  When something panics before, the hook writes a file that the host never
    sees, and the device is as the host had written it.  The answer is synced before
    the guest powers off, except that of a run in the JSON format. *)
Theorem guest_always_answers {K} `{Kernel K} call_ok message bincode_decode json_encode json_decode sendfile
    from_utf8_lossy canonicalize open_file crun pid_file pidfd_open read_file output_dir torn has_node ram_file
    (g g' : GuestState K) o :
  (forall d, io_size (torn d) = io_size d) -> codec json_encode json_decode ->
  guest_main call_ok message bincode_decode json_encode sendfile from_utf8_lossy canonicalize open_file crun pid_file
    pidfd_open read_file output_dir torn has_node ram_file g = (g', o) ->
  match o with
  | inl (config, r) =>
      answered message json_encode json_decode sendfile from_utf8_lossy read_file output_dir g' config r
  | inr m =>
      (g_dev g' = true -> has_node = true ->
       (forall cs, call_ok (CCreate INOUT_DEVICE) cs = true) -> (forall cs, call_ok CSync cs = true) ->
       forall j, json_encode (RPanic m) = Some j -> in_width 32 (zlen j) -> 8 + zlen j <= io_size (g_device g) ->
       g_synced g' = true /\ read_io_file_response json_decode (io_file (g_device g')) = Ok (0, RPanic m)) /\
      (g_dev g' = false -> g_device g' = g_device g)
  end.
Proof.
  intros Ht Hcodec E. unfold guest_main in E. destruct (guest_body _ _ _ _ _ _ _ _ _ _ _ _ _ _ g) as [g1 [[c r]|m]] eqn:Eb.
  - injection E as <- <-. by eapply body_answers.
  - injection E as <- <-. rewrite hook_dev. split.
    + intros Hd Hn Hc Hs j Hj Hw Hle.
      eapply (hook_answers call_ok json_encode json_decode torn Hcodec has_node ram_file m j g1); try done.
      pose proof (keeps_body call_ok message bincode_decode json_encode sendfile from_utf8_lossy canonicalize open_file crun
        pid_file pidfd_open read_file output_dir torn Ht g) as Hk. rewrite Eb in Hk. simpl in Hk. by rewrite Hk.
    + intros Hd. destruct (hook_off_device call_ok json_encode torn has_node ram_file m g1) as [-> _]; [by rewrite Hd|].
      pose proof (dev_body call_ok message bincode_decode json_encode sendfile from_utf8_lossy canonicalize open_file crun
        pid_file pidfd_open read_file output_dir torn g) as Hk. rewrite Eb in Hk. by apply Hk.
Qed.

(** A guest whose directory for the output cannot be made. *)
Definition no_mkdir (c : Call) (_ : list Call) : bool := match c with CMkdir _ _ => false | _ => true end.
Definition example_guest : GuestState OneChild :=
  {| g_device := {| io_file := {| o_bytes := replicate 64 xff; o_pos := 0 |} |}; g_synced := true;
     g_dev := false; g_kernel := {| oc_state := OReaped; ends_in := None |}; g_calls := [] |}.
Definition example_main (call_ok : Call -> list Call -> bool) :=
  guest_main call_ok (fun s => bytes_of_string s) example_bincode_decode example_json_encode sendfile_whole (fun b => b)
    Some (fun _ => None) (fun _ _ _ k => (k, true)) (fun _ => None) (fun _ k => (k, false)) (fun _ _ => None) (fun _ => [])
    (fun d => d) true (g_device example_guest) example_guest.

Lemma guest_always_answers_witness :
  snd (example_main no_mkdir) = inr (bytes_of_string "mount") /\
  g_synced (fst (example_main no_mkdir)) = true /\
  read_io_file_response (fun b => Some (RPanic b)) (io_file (g_device (fst (example_main no_mkdir)))) =
    Ok (0, RPanic (bytes_of_string "mount")).
Proof.
  split; [vm_compute; reflexivity|].
  refine (proj1 (guest_always_answers no_mkdir (fun s => bytes_of_string s) example_bincode_decode example_json_encode
    (fun b => Some (RPanic b)) sendfile_whole (fun b => b) Some (fun _ => None) (fun _ _ _ k => (k, true)) (fun _ => None)
    (fun _ k => (k, false)) (fun _ _ => None) (fun _ => []) (fun d => d) true (g_device example_guest) example_guest
    (fst (example_main no_mkdir)) (inr (bytes_of_string "mount")) (fun _ => eq_refl) _ _) _ eq_refl
    (fun _ => eq_refl) (fun _ => eq_refl) (bytes_of_string "mount") eq_refl _ _).
  - intros [] b; simpl; congruence.
  - vm_compute. reflexivity.
  - vm_compute. reflexivity.
  - split; vm_compute; congruence.
  - vm_compute. congruence.
Defined.

(** A panic before devtmpfs is mounted: the hook succeeds, and the host finds the
    device as it left it. *)
Example early_panic_lost :
  let no_proc := fun c (_ : list Call) => match c with CMount (MountFs _ _ fs _) => bool_decide (fs <> bs "proc") | _ => true end in
  snd (example_main no_proc) = inr (bytes_of_string "mount") /\
  g_device (fst (example_main no_proc)) = g_device example_guest.
Proof. split; vm_compute; reflexivity. Qed.
