(* ===== verification/ArchiveTool.v ===== *)
(** The archive program (src/pearchive/src/main.rs and the entry points of
    src/pearchive/src/lib.rs).

    The guest starts the program to unpack its input and to pack its output.
    Unpacking happens in a user namespace of its own and with the output
    directory as the root directory.  The file models the four commands and
    proves that nothing is unpacked outside this sandbox, and that unpacking
    what was packed installs the packed tree.  The results of system calls, and
    the trees below directories, are parameters. *)
From stdpp Require Import option base list sets numbers strings gmap.
From Stdlib Require Import ZArith Lia.
From S2P Require Import Prelude MemFile BTree Paths Text Pearchive IoFile RuntimeSpec Run VmPool Container.
#[local] Open Scope Z_scope.
#[local] Open Scope result_scope.
#[local] Opaque le_bytes.

Inductive SysCall :=
  | SUnshareUser
  | SWriteFile (path data : bstr)
  | SChroot (path : bstr)
  | SSetCwd (path : bstr)
  | SOpenDirCwd (path : bstr)
  | SCreateFile (path : bstr).

(** The process: the calls that it made, the file system of the output
    directory, the archive files by path, and the inherited descriptors. *)
Record Tool (F : Type) := {
  tl_calls : list SysCall; tl_fs : F; tl_files : gmap bstr bstr; tl_fds : gmap Z IoFile;
}.
Arguments tl_calls {F}. Arguments tl_fs {F}. Arguments tl_files {F}. Arguments tl_fds {F}.

Section tool.
Context {F D H : Type} (ops : DirOps F D H).
Context (sendfile : bstr -> Z -> result Z (bstr * bstr)).
(** What a call returns after the calls that were made: an errno, if it fails. *)
Context (call : SysCall -> list SysCall -> result Z unit).
(** The directory that a successful [openat] gives, the tree below a directory,
    the test for a directory. *)
Context (dir_handle : list SysCall -> D) (read_tree : bstr -> result Z (list fs_entry)) (is_dir : bstr -> bool).
(** [geteuid] and [getegid]. *)
Context (euid egid : Z).

Definition set_calls (cs : list SysCall) (t : Tool F) : Tool F :=
  {| tl_calls := cs; tl_fs := tl_fs t; tl_files := tl_files t; tl_fds := tl_fds t |}.
Definition set_fs (fs : F) (t : Tool F) : Tool F :=
  {| tl_calls := tl_calls t; tl_fs := fs; tl_files := tl_files t; tl_fds := tl_fds t |}.
Definition set_file (p d : bstr) (t : Tool F) : Tool F :=
  {| tl_calls := tl_calls t; tl_fs := tl_fs t; tl_files := <[p := d]> (tl_files t); tl_fds := tl_fds t |}.
Definition set_fd (fd : Z) (f : IoFile) (t : Tool F) : Tool F :=
  {| tl_calls := tl_calls t; tl_fs := tl_fs t; tl_files := tl_files t; tl_fds := <[fd := f]> (tl_fds t) |}.

(** Calls in order, each with the error that it is mapped to. *)
Fixpoint do_calls (cs : list (SysCall * (Z -> Pearchive.Error))) (t : Tool F) : Tool F * result Pearchive.Error unit :=
  match cs with
  | [] => (t, Ok tt)
  | (c, e) :: cs =>
      match call c (tl_calls t) with
      | Ok _ => do_calls cs (set_calls (tl_calls t ++ [c]) t)
      | Err n => (t, Err (e n))
      | Panic => (t, Panic)
      end
  end.

(** * The library's entry points *)

Definition id_map (id : Z) : bstr := bs "0 " ++ print_uint id ++ bs " 1".

Definition unshare_user : list (SysCall * (Z -> Pearchive.Error)) :=
  [(SUnshareUser, fun _ => Unshare);
   (SWriteFile (bs "/proc/self/uid_map") (id_map euid), fun _ => Pearchive.Write);
   (SWriteFile (bs "/proc/self/setgroups") (bs "deny"), fun _ => Pearchive.Write);
   (SWriteFile (bs "/proc/self/gid_map") (id_map egid), fun _ => Pearchive.Write)].

Definition chroot (dir : bstr) : list (SysCall * (Z -> Pearchive.Error)) :=
  [(SChroot dir, fun _ => Chroot); (SSetCwd (bs "/"), fun _ => Chdir)].

Definition opendirat_cwd (name : bstr) : SysCall * (Z -> Pearchive.Error) := (SOpenDirCwd name, OpenAt).

Definition unpack_data_to_dir_with_unshare_chroot (data dir : bstr) (t : Tool F) : Tool F * result Pearchive.Error unit :=
  match do_calls (unshare_user ++ chroot dir ++ [opendirat_cwd (bs ".")]) t with
  | (t, Ok _) =>
      match unpack_to_dir ops data (dir_handle (tl_calls t)) (tl_fs t) with
      | Some (fs, r) => (set_fs fs t, r)
      | None => (t, Panic)
      end
  | (t, r) => (t, r)
  end.

(** [visit_dir] of the directory to pack: its name is made a C string and opened. *)
Definition pack_dir_to_file (dir : bstr) : result Pearchive.Error bstr :=
  if decide (x00 ∈ dir) then Err BadCStr
  else let? es := map_err OpenAt (read_tree dir) in
       pack_dir_to_writer sendfile es.

(** * The commands *)

Definition arg (args : list bstr) (i : nat) : result Z bstr := expect (args !! i).

Definition pack (args : list bstr) (t : Tool F) : result Z (Tool F) :=
  let? indir := arg args 0 in
  let? outname := arg args 1 in
  if negb (is_dir indir) then Panic else
  let? _ := Guest.unwrap (call (SCreateFile outname) (tl_calls t)) in
  let t := set_calls (tl_calls t ++ [SCreateFile outname]) t in
  let? archive := Guest.unwrap (pack_dir_to_file indir) in
  Ok (set_file outname archive t).

Definition unwrap_unpack (r : Tool F * result Pearchive.Error unit) : result Z (Tool F) :=
  match r with (t, Ok _) => Ok t | _ => Panic end.

Definition unpack (args : list bstr) (t : Tool F) : result Z (Tool F) :=
  let? inname := arg args 0 in
  let? outname := arg args 1 in
  if negb (is_dir outname) then Panic else
  let? data := expect (tl_files t !! inname) in
  unwrap_unpack (unpack_data_to_dir_with_unshare_chroot data outname t).

(** The map begins at the position of the descriptor. *)
Definition unpackfd (args : list bstr) (t : Tool F) : result Z (Tool F) :=
  let? s := arg args 0 in
  let? in_fd := expect (parse_i32 s) in
  let? outname := arg args 1 in
  let? len := arg args 2 in
  let? _ := expect (parse_uint 64 len) in
  if negb (is_dir outname) then Panic else
  let? f := expect (tl_fds t !! in_fd) in
  let? data := Guest.unwrap (Guest.unpackfd len (io_file f)) in
  unwrap_unpack (unpack_data_to_dir_with_unshare_chroot data outname t).

Definition packfd (args : list bstr) (t : Tool F) : result Z (Tool F) :=
  let? indir := arg args 0 in
  let? s := arg args 1 in
  let? out_fd := expect (parse_i32 s) in
  if negb (is_dir indir) then Panic else
  let? f := expect (tl_fds t !! out_fd) in
  if decide (x00 ∈ indir) then Panic else
  let? es := Guest.unwrap (read_tree indir) in
  let? f := Guest.unwrap (Guest.packfd sendfile es f) in
  Ok (set_fd out_fd f t).

(** [main]: other arguments print the usage and exit with 1. *)
Definition main (args : list bstr) (t : Tool F) : result Z (Tool F) :=
  match args !! 1%nat with
  | Some c =>
      if decide (c = bs "pack") then pack (drop 2 args) t
      else if decide (c = bs "unpack") then unpack (drop 2 args) t
      else if decide (c = bs "packfd") then packfd (drop 2 args) t
      else if decide (c = bs "unpackfd") then unpackfd (drop 2 args) t
      else Err 1
  | None => Err 1
  end.
End tool.

(** * Lemmas *)

Section lemmas.
Context {F D H : Type} (ops : DirOps F D H).
Context (sendfile : bstr -> Z -> result Z (bstr * bstr)) (call : SysCall -> list SysCall -> result Z unit).
Context (dir_handle : list SysCall -> D) (read_tree : bstr -> result Z (list fs_entry)) (is_dir : bstr -> bool).
Context (euid egid : Z).

(** The calls that make the sandbox, each with its error. *)
Definition sandbox_steps (dir : bstr) : list (SysCall * (Z -> Pearchive.Error)) :=
  [(SUnshareUser, fun _ => Unshare);
   (SWriteFile (bs "/proc/self/uid_map") (id_map euid), fun _ => Pearchive.Write);
   (SWriteFile (bs "/proc/self/setgroups") (bs "deny"), fun _ => Pearchive.Write);
   (SWriteFile (bs "/proc/self/gid_map") (id_map egid), fun _ => Pearchive.Write);
   (SChroot dir, fun _ => Chroot); (SSetCwd (bs "/"), fun _ => Chdir); (SOpenDirCwd (bs "."), OpenAt)].
Definition sandbox (dir : bstr) : list SysCall := (sandbox_steps dir).*1.

(** The result of the first call that was not granted. *)
Definition refused_with (c : SysCall) (e : Z -> Pearchive.Error) (before : list SysCall) (r : result Pearchive.Error unit) : Prop :=
  match call c before with Ok _ => False | Err n => r = Err (e n) | Panic => r = Panic end.

(** Each call was granted after the calls before it. *)
Definition granted (before cs : list SysCall) : Prop :=
  forall done c rest, cs = done ++ c :: rest -> call c (before ++ done) = Ok tt.

Lemma granted_cons before c cs : call c before = Ok tt -> granted (before ++ [c]) cs -> granted before (c :: cs).
Proof.
  intros Hc Hg [|c' done] c1 rest; cbn [app]; intros [= <- E].
  - by rewrite app_nil_r.
  - subst cs. specialize (Hg done c1 rest eq_refl). by rewrite <-app_assoc in Hg.
Qed.

Lemma do_calls_spec cs (t t' : Tool F) r :
  do_calls call cs t = (t', r) ->
  exists done, t' = set_calls (tl_calls t ++ done.*1) t /\ granted (tl_calls t) done.*1 /\
    (cs = done /\ r = Ok tt \/
     exists c e rest, cs = done ++ (c, e) :: rest /\ refused_with c e (tl_calls t ++ done.*1) r).
Proof.
  revert t. induction cs as [|[c e] cs IH]; intros t; simpl.
  - intros [= <- <-]. exists []. simpl. rewrite app_nil_r. split_and!; [by destruct t| |by left].
    intros [|? ?] ? ?; discriminate.
  - destruct (call c (tl_calls t)) as [[]|n|] eqn:Ec.
    + intros (done & E & Hg & Hr)%IH. exists ((c, e) :: done). cbn [tl_calls set_calls] in *. simpl.
      rewrite <-app_assoc in E, Hr. split_and!; [done|by apply granted_cons|].
      destruct Hr as [[-> ->]|(c' & e' & rest & -> & Hr)]; [by left|right]. by exists c', e', rest.
    + intros [= <- <-]. exists []. simpl. rewrite app_nil_r. split_and!; [by destruct t|by intros [|? ?] ? ?|].
      right. exists c, e, cs. split; [done|]. unfold refused_with. by rewrite Ec.
    + intros [= <- <-]. exists []. simpl. rewrite app_nil_r. split_and!; [by destruct t|by intros [|? ?] ? ?|].
      right. exists c, e, cs. split; [done|]. unfold refused_with. by rewrite Ec.
Qed.

Lemma do_calls_ok cs (t : Tool F) :
  (forall c l, call c l = Ok tt) -> do_calls call cs t = (set_calls (tl_calls t ++ cs.*1) t, Ok tt).
Proof.
  intros Hc. revert t. induction cs as [|[c e] cs IH]; intros t; simpl.
  - rewrite app_nil_r. by destruct t.
  - rewrite Hc, IH. simpl. by rewrite <-app_assoc.
Qed.
End lemmas.

(** * Properties *)

(** C12: Unpacking happens only in the sandbox.  Either one of the seven calls that
    make the sandbox (a user namespace, its three id map files, the output
    directory as root, the working directory, the handle of the new root) was
    refused: then nothing of the file system changed, no later call was made, and
    the result is the error of that call.  Or all were granted, in this order, and
    what changed and what is returned is what [unpack_to_dir] does from the handle
    that was opened after them, for every archive, valid or not. *)
Theorem unpack_sandboxed {F D H} (ops : DirOps F D H) call dir_handle euid egid data dir (t t' : Tool F) r :
  unpack_data_to_dir_with_unshare_chroot ops call dir_handle euid egid data dir t = (t', r) ->
  (exists done c e rest, sandbox_steps euid egid dir = done ++ (c, e) :: rest /\
     granted call (tl_calls t) done.*1 /\ refused_with call c e (tl_calls t ++ done.*1) r /\
     tl_calls t' = tl_calls t ++ done.*1 /\ tl_fs t' = tl_fs t) \/
  (granted call (tl_calls t) (sandbox euid egid dir) /\ tl_calls t' = tl_calls t ++ sandbox euid egid dir /\
   unpack_to_dir ops data (dir_handle (tl_calls t')) (tl_fs t) = Some (tl_fs t', r)).
Proof.
  unfold unpack_data_to_dir_with_unshare_chroot.
  change (unshare_user euid egid ++ _) with (sandbox_steps euid egid dir).
  destruct (do_calls call _ t) as [t1 r1] eqn:E.
  apply do_calls_spec in E as (done & -> & Hg & [[<- ->]|(c & e & rest & Hs & Hr)]).
  - intros Ht. right. revert Ht. cbn [tl_calls tl_fs set_calls]. fold (sandbox euid egid dir) in *.
    destruct (loop_total _ _ (unpack_dir_decreases ops) (data, [dir_handle (tl_calls t ++ sandbox euid egid dir)], tl_fs t))
      as [[fs r2] Hu].
    change (unpack_to_dir ops data (dir_handle (tl_calls t ++ sandbox euid egid dir)) (tl_fs t) = Some (fs, r2)) in Hu.
    rewrite Hu. intros [= <- <-]. by split_and!.
  - intros Ht. left. exists done, c, e, rest. unfold refused_with in *.
    destruct (call c _) as [[]|n|] eqn:Ec; [done| |]; subst r1; injection Ht as <- <-; by split_and!.
Qed.

(** The two commands together: after a directory was packed into a file, with
    names and sizes that the format can hold, unpacking this file does what
    installing the tree in the new root does. *)
Theorem archive_tool_roundtrip {F D H} (ops : DirOps F D H) sendfile call dir_handle read_tree is_dir euid egid
    prog indir file outdir es (t : Tool F) :
  sendfile_spec sendfile -> (forall c l, call c l = Ok tt) -> is_dir indir = true -> is_dir outdir = true ->
  x00 ∉ indir -> read_tree indir = Ok es -> Forall good_entry es -> height es <= MAX_DIR_DEPTH + 1 ->
  exists t1, main ops sendfile call dir_handle read_tree is_dir euid egid [prog; bs "pack"; indir; file] t = Ok t1 /\
    tl_fs t1 = tl_fs t /\ tl_files t1 !! file = Some (encode es) /\
    let root := dir_handle (tl_calls t1 ++ sandbox euid egid outdir) in
    main ops sendfile call dir_handle read_tree is_dir euid egid [prog; bs "unpack"; file; outdir] t1 =
      match install ops root es (tl_fs t) with
      | (fs, Ok _) => Ok (set_fs fs (set_calls (tl_calls t1 ++ sandbox euid egid outdir) t1))
      | _ => Panic
      end.
Proof.
  intros Hsf Hc Hin Hout Hn Ht Hg Hh.
  exists (set_file file (encode es) (set_calls (tl_calls t ++ [SCreateFile file]) t)). split_and!.
  - unfold main. simpl. unfold pack. cbn [arg expect rbind lookup list_lookup drop]. rewrite Hin, Hc. cbn [negb Guest.unwrap rbind].
    unfold pack_dir_to_file. rewrite decide_False, Ht by done. cbn [map_err rbind].
    by rewrite (pack_dir_encodes sendfile es Hsf Hg Hh).
  - done.
  - simpl. by rewrite lookup_insert_eq.
  - cbv zeta. unfold main. simpl. unfold unpack. cbn [arg expect rbind lookup list_lookup drop]. rewrite Hout. cbn [negb].
    cbn [tl_files set_file set_calls]. rewrite lookup_insert_eq. cbn [expect rbind].
    unfold unpack_data_to_dir_with_unshare_chroot. rewrite do_calls_ok by done. cbn [tl_calls tl_fs set_calls set_file].
    rewrite (unpack_dir_encode ops es) by done. fold (sandbox euid egid outdir).
    by destruct (install ops _ es (tl_fs t)) as [fs [[]| |]].
Qed.

(** ** An archive unpacked over a log of directory operations *)

Definition example_tool : Tool (list (bstr * bstr)) :=
  {| tl_calls := []; tl_fs := []; tl_files := ∅; tl_fds := ∅ |}.
(** A kernel that refuses to change the root to [/etc]. *)
Definition example_call (c : SysCall) (_ : list SysCall) : result Z unit :=
  match c with SChroot d => if decide (d = bs "/etc") then Err 1 else Ok tt | _ => Ok tt end.
Definition example_unpack (dir : bstr) : Tool (list (bstr * bstr)) * result Pearchive.Error unit :=
  unpack_data_to_dir_with_unshare_chroot log_ops example_call (fun _ => []) 1000 100 (encode example_tree) dir example_tool.

Lemma unpack_sandboxed_witness :
  (tl_calls (example_unpack (bs "/etc")).1 = take 4 (sandbox 1000 100 (bs "/etc")) /\
   tl_fs (example_unpack (bs "/etc")).1 = []) /\
  (tl_calls (example_unpack (bs "/out")).1 = sandbox 1000 100 (bs "/out") /\
   unpack_to_dir log_ops (encode example_tree) [] [] =
     Some (tl_fs (example_unpack (bs "/out")).1, (example_unpack (bs "/out")).2)).
Proof.
  split.
  - destruct (unpack_sandboxed log_ops example_call (fun _ => []) 1000 100 (encode example_tree) (bs "/etc") example_tool
      (example_unpack (bs "/etc")).1 (example_unpack (bs "/etc")).2) as [(d & c & e & rest & _ & _ & _ & _ & Hf)|(_ & Hc & _)].
    + apply surjective_pairing.
    + split; [vm_compute; reflexivity|exact Hf].
    + vm_compute in Hc. discriminate Hc.
  - destruct (unpack_sandboxed log_ops example_call (fun _ => []) 1000 100 (encode example_tree) (bs "/out") example_tool
      (example_unpack (bs "/out")).1 (example_unpack (bs "/out")).2) as [(d & c & e & rest & _ & _ & _ & _ & Hf)|(_ & Hc & Hu)].
    + apply surjective_pairing.
    + vm_compute in Hf. discriminate Hf.
    + split; [exact Hc|exact Hu].
Defined.
