(* ===== verification/LayerSources.v ===== *)
(** Where the layers of an image can come from besides the registry
    (src/peoci/src/ocidir.rs, src/peimage/src/podman.rs, src/peoci/src/compression.rs):
    a directory in the OCI layout, and the archive that podman writes.  The JSON
    parsers of oci_spec, the files and the tar reader are parameters. *)
From stdpp Require Import option base list sets numbers strings gmap.
From Stdlib Require Import ZArith Lia.
From S2P Require Import Prelude BTree Paths Text ErofsBuild Squash RuntimeSpec.
#[local] Open Scope Z_scope.
#[local] Open Scope result_scope.

(** * Compression of a layer *)

(** [TryFrom<&Descriptor>]; the error has the media type. *)
Definition Compression_try_from (d : OciImage.Descriptor) : result OciImage.MediaType Compression :=
  match OciImage.media_type d with
  | OciImage.Other s =>
      if decide (s = bytes_of_string "application/vnd.docker.image.rootfs.diff.tar.gzip")
      then Ok Gzip else Err (OciImage.media_type d)
  | OciImage.ImageLayer => Ok CompressionNone
  | OciImage.ImageLayerGzip => Ok Gzip
  | OciImage.ImageLayerZstd => Ok Zstd
  end.

(** * Manifests and indexes *)

Record IndexManifest := { im_desc_digest : OciImage.Digest; annotations : option (gmap bstr bstr) }.
Definition IndexFile : Type := list IndexManifest.
Definition ManifestFile : Type := list OciImage.Descriptor.  (** the layers *)

(** * A directory in the OCI layout *)

Inductive OciDirError := NoMatchingManifest | OciSpec | NoMediaType | BadMediaType | OciIo.

Section ocidir.
Context {File : Type}.
Context (digest_str : OciImage.Digest -> bstr).
Context (index_from_file : bstr -> option IndexFile) (manifest_from_file : bstr -> option ManifestFile).
Context (open_file : bstr -> option File).

(** [replacen(":", "/", 1)] *)
Definition digest_path (d : OciImage.Digest) : bstr :=
  match split_once x3a (digest_str d) with
  | Some (l, r) => l ++ [slash] ++ r
  | None => digest_str d
  end.

Definition load_blob (blobs : bstr) (layer : OciImage.Descriptor) : result OciDirError (Compression * File) :=
  let? compression := map_err (fun _ => BadMediaType) (Compression_try_from layer) in
  let? file := ok_or (open_file (path_push blobs (digest_path (OciImage.desc_digest layer)))) OciIo in
  Ok (compression, file).

Fixpoint load_blobs (blobs : bstr) (layers : list OciImage.Descriptor)
    : result OciDirError (list (Compression * File)) :=
  match layers with
  | [] => Ok []
  | layer :: layers =>
      let? x := load_blob blobs layer in
      let? l := load_blobs blobs layers in
      Ok (x :: l)
  end.

Definition names_image (image : bstr) (x : IndexManifest) : bool :=
  if starts_with (bytes_of_string "sha256:") image then bool_decide (digest_str (im_desc_digest x) = image)
  else match annotations x with
       | Some a => bool_decide (a !! bytes_of_string "org.opencontainers.image.ref.name" = Some image)
       | None => false
       end.

Definition load_layers_from_oci (dir image : bstr) : result OciDirError (list (Compression * File)) :=
  let blobs := path_push dir (bytes_of_string "blobs") in
  let? index := ok_or (index_from_file (path_push dir (bytes_of_string "index.json"))) OciSpec in
  let? manifest := ok_or (List.find (names_image image) index) NoMatchingManifest in
  let? image_manifest := ok_or (manifest_from_file (path_push blobs (digest_path (im_desc_digest manifest)))) OciSpec in
  load_blobs blobs image_manifest.
End ocidir.

(** * The archive of podman *)

Inductive PodmanError :=
  | NoManifest | NoIndex | MissingBlob | BadBlobPath | NonUtf8Path | PodmanExport | PodmanBuild | PodmanRm
  | PodmanCreate | PodmanCreateId | Tempfile | PodmanOciSpec | PodmanIo.

(** The segments that are not components are skipped at both ends of what
    [Path::strip_prefix] leaves. *)
Fixpoint skip_segments (segs : list bstr) : list bstr :=
  match segs with
  | s :: r => if decide (body_component s = None) then skip_segments r else segs
  | [] => []
  end.
Definition strip_path_prefix (prefix : list Component) (p : bstr) : option bstr :=
  if path_starts_with (components p) prefix then
    let used := match component_prefixes p !! (length prefix - 1)%nat with Some (_, segs) => length segs | None => O end in
    Some (join_slash (rev (skip_segments (rev (skip_segments (drop used (split_slash p)))))))
  else None.

Section podman.
Context (index_from_reader : bstr -> option IndexFile) (manifest_from_reader : bstr -> option ManifestFile).
Context (digest_str : OciImage.Digest -> bstr) (to_str : bstr -> option bstr).

Definition digest_to_string (d : OciImage.Digest) : result PodmanError bstr :=
  ok_or (strip_prefix (bytes_of_string "sha256:") (digest_str d)) BadBlobPath.

Definition blobs_dir : list Component := [Normal (bytes_of_string "blobs"); Normal (bytes_of_string "sha256")].

(** The entries of the archive with their contents; each can fail to read. *)
Fixpoint read_archive (entries : list (result PodmanError (bstr * bstr))) (index : option IndexFile)
    (blobs : gmap bstr bstr) : result PodmanError (option IndexFile * gmap bstr bstr) :=
  match entries with
  | [] => Ok (index, blobs)
  | e :: entries =>
      let? '(path, data) := e in
      if decide (components path = [Normal (bytes_of_string "index.json")]) then
        let? i := ok_or (index_from_reader data) PodmanOciSpec in
        read_archive entries (Some i) blobs
      else match strip_path_prefix blobs_dir path with
           | Some blob =>
               let? name := ok_or (to_str blob) BadBlobPath in
               read_archive entries index (<[name := data]> blobs)
           | None => read_archive entries index blobs
           end
  end.

(** The layers are taken out of the map. *)
Fixpoint take_layers (layers : list OciImage.Descriptor) (blobs : gmap bstr bstr)
    : result PodmanError (list (Compression * bstr)) :=
  match layers with
  | [] => Ok []
  | x :: layers =>
      let? name := digest_to_string (OciImage.desc_digest x) in
      let? b := ok_or (blobs !! name) MissingBlob in
      let? l := take_layers layers (delete name blobs) in
      Ok ((Gzip, b) :: l)
  end.

Definition load_layers_from_podman (entries : list (result PodmanError (bstr * bstr)))
    : result PodmanError (list (Compression * bstr)) :=
  let? '(index, blobs) := read_archive entries None ∅ in
  let? index := ok_or index NoIndex in
  let? manifest := ok_or (head index) NoManifest in
  let? name := digest_to_string (im_desc_digest manifest) in
  let? manifest_blob := ok_or (blobs !! name) MissingBlob in
  let? manifest := ok_or (manifest_from_reader manifest_blob) PodmanOciSpec in
  take_layers manifest blobs.

(** ** Building an image to test with *)

Record Rootfs := { rf_layers : list (Compression * bstr); rf_combined : bstr }.

(** The path of the file for the image's id, if it can be made; its contents after
    the build; a podman command with its arguments gives its output if it can be
    run, whatever its exit status; the archive that is saved; [str::trim]. *)
Context (iid_path : option bstr) (write_stdin : bool) (iid_file : option bstr).
Context (podman : list bstr -> option bstr).
Context (archive : bstr -> list (result PodmanError (bstr * bstr))) (trim : bstr -> bstr).

Definition podman_build (path : bstr) : list bstr :=
  [bytes_of_string "build"; bytes_of_string "--file=-"; bytes_of_string "--no-hosts"; bytes_of_string "--no-hostname";
   bytes_of_string "--network=none"; bytes_of_string "--iidfile=" ++ path].
Definition podman_save (image : bstr) : list bstr :=
  [bytes_of_string "image"; bytes_of_string "save"; bytes_of_string "--format=oci-archive"; image].
Definition podman_cmd (c : string) (id : bstr) : list bstr := [bytes_of_string c; id].

(** Runs a command, which is logged if it started. *)
Definition with_podman {A} (cmd : list bstr) (log : list (list bstr))
    (k : bstr -> list (list bstr) -> list (list bstr) * result PodmanError A) : list (list bstr) * result PodmanError A :=
  match podman cmd with Some out => k out (log ++ [cmd]) | None => (log, Err PodmanIo) end.
Definition or_fail {A B} (r : result PodmanError A) (log : list (list bstr))
    (k : A -> list (list bstr) * result PodmanError B) : list (list bstr) * result PodmanError B :=
  match r with Ok a => k a | Err e => (log, Err e) | Panic => (log, Panic) end.

Definition build_with_podman : list (list bstr) * result PodmanError Rootfs :=
  or_fail (ok_or iid_path PodmanIo) [] (fun path =>
  or_fail (ok_or (to_str path) NonUtf8Path) [] (fun path =>
  with_podman (podman_build path) [] (fun _ log =>
  or_fail (if write_stdin then Ok tt else Err PodmanIo) log (fun _ =>
  or_fail (ok_or iid_file PodmanIo) log (fun iid =>
  with_podman (podman_save iid) log (fun _ log =>
  or_fail (load_layers_from_podman (archive iid)) log (fun layers =>
  with_podman (podman_cmd "create" iid) log (fun out log =>
  or_fail (ok_or (to_str out) PodmanCreateId) log (fun out =>
  let cid := trim out in
  with_podman (podman_cmd "export" cid) log (fun combined log =>
  with_podman (podman_cmd "rm" cid) log (fun _ log =>
  with_podman (podman_cmd "rmi" iid) log (fun _ log =>
  (log, Ok {| rf_layers := layers; rf_combined := combined |}))))))))))))).

(** When building succeeds, podman was asked to build, save, create, export and
    clean up, in this order and for one image and container; the layers are those
    of the saved archive and the combined archive is the exported one.  The image
    is removed only then. *)
Theorem build_with_podman_spec log r :
  build_with_podman = (log, r) ->
  (forall fs, r = Ok fs -> exists path iid out,
     log = [podman_build path; podman_save iid; podman_cmd "create" iid; podman_cmd "export" (trim out);
            podman_cmd "rm" (trim out); podman_cmd "rmi" iid] /\
     iid_file = Some iid /\ load_layers_from_podman (archive iid) = Ok (rf_layers fs) /\
     podman (podman_cmd "export" (trim out)) = Some (rf_combined fs)) /\
  ((exists iid, podman_cmd "rmi" iid ∈ log) -> exists fs, r = Ok fs).
Proof.
  unfold build_with_podman, with_podman, or_fail, ok_or. intros E. repeat case_match; simplify_eq; simpl;
    (split; [intros fs Hfs; simplify_eq/=; eauto 10|]);
    try (intros [iid Hin]; exfalso; repeat (apply elem_of_cons in Hin as [Hin|Hin]; [discriminate Hin|]); by apply elem_of_nil in Hin).
  intros _. eauto.
Qed.
End podman.

(** * Lemmas *)

Lemma load_blobs_Ok {File} digest_str (open_file : bstr -> option File) blobs layers l :
  load_blobs digest_str open_file blobs layers = Ok l <->
  Forall2 (fun d x => Compression_try_from d = Ok x.1 /\
    open_file (path_push blobs (digest_path digest_str (OciImage.desc_digest d))) = Some x.2) layers l.
Proof.
  revert l. induction layers as [|d layers IH]; intros l; simpl.
  - split; [by intros [= <-]|]. by inversion 1.
  - unfold load_blob. split.
    + destruct (Compression_try_from d) as [cp| |] eqn:Ec; simpl; [|discriminate..].
      destruct (open_file _) as [f|] eqn:Ef; simpl; [|discriminate].
      destruct (load_blobs _ _ _ layers) as [l'| |] eqn:El; simpl; [|discriminate..].
      intros [= <-]. constructor; [done|]. by apply IH.
    + inversion 1 as [|? [c f] ? l' [Hc Hf] Hl]; subst. simpl in *. rewrite Hc. simpl. rewrite Hf. simpl.
      apply IH in Hl. by rewrite Hl.
Qed.

Lemma take_layers_Ok digest_str layers blobs l :
  take_layers digest_str layers blobs = Ok l ->
  exists names, Forall2 (fun d n => strip_prefix (bytes_of_string "sha256:") (digest_str (OciImage.desc_digest d)) = Some n)
      layers names /\ NoDup names /\ Forall2 (fun n x => x.1 = Gzip /\ blobs !! n = Some x.2) names l.
Proof.
  revert blobs l. induction layers as [|d layers IH]; intros blobs l; simpl.
  - intros [= <-]. exists []. split_and!; constructor.
  - unfold digest_to_string. intros E. monad_simp. subst l.
    destruct (IH _ _ Hm1) as (names & Hn & Hnd & Hl). exists (a :: names). split_and!.
    + by constructor.
    + constructor; [|done]. intros Hin. apply list_elem_of_lookup_1 in Hin as [i Hi].
      destruct (Forall2_lookup_l _ _ _ _ _ Hl Hi) as (x & _ & _ & Hx). by rewrite lookup_delete_eq in Hx.
    + constructor; [done|]. eapply Forall2_impl; [exact Hl|]. intros n x [? Hx]. split; [done|].
      by apply lookup_delete_Some in Hx as [_ ?].
Qed.

(** * Properties *)

(** The layers of an OCI directory.  Loading succeeds exactly when the index
    has a manifest for the image, which is the first that the digest or the name
    selects, and every layer of it has a known media type and a file under its
    digest; the layers come in the order of the manifest. *)
Theorem load_layers_from_oci_spec {File} digest_str index_from_file manifest_from_file
    (open_file : bstr -> option File) dir image l :
  load_layers_from_oci digest_str index_from_file manifest_from_file open_file dir image = Ok l <->
  exists index m layers,
    index_from_file (path_push dir (bytes_of_string "index.json")) = Some index /\
    List.find (names_image digest_str image) index = Some m /\
    manifest_from_file (path_push (path_push dir (bytes_of_string "blobs")) (digest_path digest_str (im_desc_digest m)))
      = Some layers /\
    Forall2 (fun d x => Compression_try_from d = Ok x.1 /\
      open_file (path_push (path_push dir (bytes_of_string "blobs")) (digest_path digest_str (OciImage.desc_digest d)))
        = Some x.2) layers l.
Proof.
  unfold load_layers_from_oci. split.
  - intros E. monad_simp. exists a, a0, a1. split_and!; [done..|]. by apply load_blobs_Ok.
  - intros (index & m & layers & -> & Hm & Hl & Hf). cbn [ok_or rbind]. rewrite Hm. cbn [ok_or rbind].
    rewrite Hl. cbn [ok_or rbind].
    by apply load_blobs_Ok.
Qed.

(** The archive of podman is read only for images without a repeated layer.
    When loading succeeds, the layers are the blobs that the manifest names, in
    order, all taken for gzip, and no two of them are the same blob: an image
    that has a layer twice is refused. *)
Theorem podman_layers_distinct index_from_reader manifest_from_reader digest_str to_str entries l :
  load_layers_from_podman index_from_reader manifest_from_reader digest_str to_str entries = Ok l ->
  exists index blobs layers names,
    read_archive index_from_reader to_str entries None ∅ = Ok (Some index, blobs) /\
    Forall2 (fun d n => strip_prefix (bytes_of_string "sha256:") (digest_str (OciImage.desc_digest d)) = Some n)
      layers names /\
    (exists m mb, head index = Some m /\ manifest_from_reader mb = Some layers /\
       (n ← strip_prefix (bytes_of_string "sha256:") (digest_str (im_desc_digest m)); blobs !! n) = Some mb) /\
    NoDup names /\ Forall2 (fun n x => x.1 = Gzip /\ blobs !! n = Some x.2) names l.
Proof.
  unfold load_layers_from_podman, digest_to_string at 1. intros E. monad_simp. subst.
  apply take_layers_Ok in E as (names & Hn & Hnd & Hl).
  do 4 eexists. split_and!; [done|exact Hn| |done|exact Hl].
  do 2 eexists. split_and!; [done..|]. match goal with H : strip_prefix _ _ = Some _ |- _ => rewrite H end. done.
Qed.

(** A layer that is named twice. *)
Definition example_str (d : OciImage.Digest) : bstr := bytes_of_string "sha256:" ++ OciImage.digest d.
Definition example_layer (n : bstr) : OciImage.Descriptor :=
  {| OciImage.media_type := OciImage.ImageLayerGzip; OciImage.size := 1;
     OciImage.desc_digest := {| OciImage.algorithm := OciImage.Sha256; OciImage.digest := n |} |}.
Definition example_archive : list (result PodmanError (bstr * bstr)) :=
  [Ok (bytes_of_string "blobs/sha256/aa", [x01]); Ok (bytes_of_string "blobs/sha256/bb", [x02]);
   Ok (bytes_of_string "oci-layout", []); Ok (bytes_of_string "index.json", [])].
Definition example_index (_ : bstr) : option IndexFile :=
  Some [{| im_desc_digest := {| OciImage.algorithm := OciImage.Sha256; OciImage.digest := bytes_of_string "aa" |};
           annotations := None |}].
Definition example_podman (layers : list OciImage.Descriptor) : result PodmanError (list (Compression * bstr)) :=
  load_layers_from_podman example_index (fun _ => Some layers) example_str Some example_archive.

Lemma podman_layers_distinct_witness :
  example_podman [example_layer (bytes_of_string "bb")] = Ok [(Gzip, [x02])] /\
  example_podman [example_layer (bytes_of_string "bb"); example_layer (bytes_of_string "bb")] = Err MissingBlob /\
  exists names : list bstr, NoDup names /\ length names = 1%nat.
Proof.
  assert (example_podman [example_layer (bytes_of_string "bb")] = Ok [(Gzip, [x02])]) as E
    by (vm_compute; reflexivity).
  split; [exact E|]. split; [vm_compute; reflexivity|].
  destruct (podman_layers_distinct example_index (fun _ => Some [example_layer (bytes_of_string "bb")]) example_str
    Some example_archive [(Gzip, [x02])] E) as (index & blobs & layers & names & _ & _ & _ & Hnd & Hl).
  exists names. split; [exact Hnd|]. apply Forall2_length in Hl. exact Hl.
Defined.
