(* ===== verification/SquashTools.v ===== *)
(** The command line tools around squashing (src/peimage/src/bin/squashbin.rs,
    squasherofs.rs, squashoci.rs, squashpodman.rs), and what they are for: from the
    layers of an image to a file system.

    The file puts [LayerSources], [Squash], [Overlay] and the erofs files together:
    the image that a tool writes for a directory in the OCI layout shows the
    overlay of the layers that its manifest names.  Files, the tar reader and the
    archive builder are parameters, as in those files. *)
From stdpp Require Import option base list sets numbers strings gmap.
From Stdlib Require Import ZArith Lia.
From S2P Require Import Prelude MemFile BTree Paths ErofsDisk ErofsBuild ErofsTree ErofsImage ErofsWalk ErofsWhole ErofsFs ErofsTotal Squash SquashErofs SquashTar Overlay SquashImage RuntimeSpec Mkfs LayerSources.
#[local] Open Scope Z_scope.
#[local] Open Scope result_scope.

#[local] Notation bs := bytes_of_string.

(** * The tools *)

(** What a tool wrote. *)
Inductive Output (A : Type) :=
  | Stdout (archive : A)
  | TarFile (path : bstr) (archive : A)
  | ErofsFile (path : bstr) (image : list byte)
  | NoOutput.
Arguments Stdout {A} archive.
Arguments TarFile {A} path archive.
Arguments ErofsFile {A} path image.
Arguments NoOutput {A}.

(** A failed [unwrap] or [expect]; an error is an exit code. *)
Definition or_panic {E A} (r : result E A) : result Z A := match r with Ok a => Ok a | _ => Panic end.

Section tools.
Context {A R : Type} `{ArchiveBuilder A} `{RustixFileType}.
Context (open_layer : Compression -> R -> result Squash.Error (list (result Squash.Error Entry))).
(** An archive that writes to the standard output or a file. *)
Context (new_archive : A).

(** [squashbin]: every argument is a layer with gzip. *)
Fixpoint open_all (open_file : bstr -> option R) (args : list bstr) : result Z (list (Compression * R)) :=
  match args with
  | [] => Ok []
  | x :: args => let? f := expect (open_file x) in let? l := open_all open_file args in Ok ((Gzip, f) :: l)
  end.
Definition squashbin_main (open_file : bstr -> option R) (args : list bstr) : result Z (Output A) :=
  let? layers := open_all open_file (drop 1 args) in
  let? '(archive, _) := or_panic (squash_to_tar open_layer layers new_archive) in
  Ok (Stdout archive).

(** [squashpodman]: the layers of an image that podman has; the blobs are read
    from memory.  [spawn_podman] starts [podman image save] and gives the entries
    of its archive. *)
Definition squashpodman_main index_from_reader manifest_from_reader digest_str to_str
    (spawn_podman : bstr -> result PodmanError (list (result PodmanError (bstr * bstr))))
    (cursor : bstr -> R) (args : list bstr) : result Z (Output A) :=
  let? image := expect (args !! 1%nat) in
  let? layers := or_panic (let? entries := spawn_podman image in
    load_layers_from_podman index_from_reader manifest_from_reader digest_str to_str entries) in
  let? '(archive, _) := or_panic (squash_to_tar open_layer (prod_map id cursor <$> layers) new_archive) in
  Ok (Stdout archive).

(** Files of a directory in the OCI layout, as in [LayerSources]. *)
Context (digest_str : RuntimeSpec.OciImage.Digest -> bstr).
Context (index_from_file : bstr -> option IndexFile) (manifest_from_file : bstr -> option ManifestFile).
Context (open_file : bstr -> option R).
#[local] Notation from_oci := (load_layers_from_oci digest_str index_from_file manifest_from_file open_file).

(** [squasherofs]: the image is made by mkfs.erofs. *)
Definition squasherofs_main rng temp_dir dir_ok spawn_ok open_ok (wait : A -> option bool) (args : list bstr) (h : Host)
    : Host * result Z Squash.Stats :=
  match args !! 1%nat, args !! 2%nat, args !! 3%nat with
  | Some dir, Some image, Some outfile =>
      if negb (ends_with (bs ".erofs") outfile) then (h, Err 1) else
      match from_oci dir image with
      | Ok readers =>
          let '(h, r) := squash_erofs rng temp_dir dir_ok spawn_ok open_ok open_layer wait readers outfile new_archive h in
          (h, or_panic r)
      | _ => (h, Panic)
      end
  | _, _, _ => (h, Panic)
  end.

(** [squashoci]: the kind of the output is in its name; [create_ok] is whether its
    file can be created. *)
Definition squashoci_main mode_from_raw (create_ok : bool) (args : list bstr) : result Z (Output A) :=
  let? dir := expect (args !! 1%nat) in
  let? image := expect (args !! 2%nat) in
  let output := default (bs "-") (args !! 3%nat) in
  let? readers := or_panic (from_oci dir image) in
  if decide (output = bs "-") then
    let? '(archive, _) := or_panic (squash_to_tar open_layer readers new_archive) in Ok (Stdout archive)
  else if ends_with (bs ".tar") output then
    if create_ok then
      let? '(archive, _) := or_panic (squash_to_tar open_layer readers new_archive) in Ok (TarFile output archive)
    else Panic
  else if ends_with (bs ".erofs") output then
    if create_ok then
      let? '(_, (_, bytes)) := or_panic (squash_to_erofs mode_from_raw open_layer readers (start_builder None None)) in
      Ok (ErofsFile output bytes)
    else Panic
  else Ok NoOutput.
End tools.

(** * Layers that can be read *)

(** The entries of layers, when all of them can be opened and read. *)
Definition reads_as {R} (open_layer : Compression -> R -> result Squash.Error (list (result Squash.Error Entry)))
    (x : Compression * R) (y : Compression * list Entry) : Prop :=
  x.1 = y.1 /\ open_layer x.1 x.2 = Ok (Ok <$> y.2).

Section reading.
Context {R : Type} (open_layer : Compression -> R -> result Squash.Error (list (result Squash.Error Entry))).

(** A layer that was squashed was read to its end. *)
Lemma squash_entries_read {C D} `{EntryCallback C} `{Deletions D} i (st st' : C * Squash.Stats * D) l :
  squash_entries i st l = Ok st' -> exists es, l = Ok <$> es.
Proof.
  revert st. induction l as [|e l IH]; intros st E; [by exists []|]. simpl in E.
  apply rbind_Ok_inv in E as (entry & -> & E). apply rbind_Ok_inv in E as (st1 & _ & E).
  apply IH in E as [es ->]. by exists (entry :: es).
Qed.

Lemma squash_layers_read {C} `{EntryCallback C} ls (st st' : C * Squash.Stats * DeletionsOsString) :
  squash_layers open_layer ls st = Ok st' -> Forall (fun x => exists es, reads_as open_layer x.2 (x.2.1, es)) ls.
Proof.
  revert st. induction ls as [|[i [c r]] ls IH]; intros st E; simpl in E; [constructor|].
  apply rbind_Ok_inv in E as (entries & Ho & E). apply rbind_Ok_inv in E as (st1 & E1 & E).
  constructor; [|by eapply IH]. unfold squash_layer in E1. apply rbind_Ok_inv in E1 as (st2 & E2 & _).
  destruct (squash_entries_read _ _ _ _ E2) as [es ->]. by exists es.
Qed.

(** Squashing readers is squashing what they read as. *)
Lemma squash_layers_entries {C} `{EntryCallback C} ls ls' (st : C * Squash.Stats * DeletionsOsString) :
  Forall2 (fun x y => x.1 = y.1 /\ reads_as open_layer x.2 y.2) ls ls' ->
  squash_layers open_layer ls st = squash_layers open_entries ls' st.
Proof.
  intros Hf. revert st. induction Hf as [|[i [c r]] [i' [c' es]] ls ls' [Hi [_ Ho]] _ IH]; intros st; [done|].
  simpl in Hi, Ho. subst i'. cbn [squash_layers]. rewrite Ho. cbn [rbind open_entries].
  destruct (squash_layer i st (Ok <$> es)); [apply IH|done..].
Qed.

Lemma Forall2_enumerate_rev {A B} (P : A -> B -> Prop) l k :
  Forall2 P l k -> Forall2 (fun x y => x.1 = y.1 /\ P x.2 y.2) (enumerate_rev l) (enumerate_rev k).
Proof.
  intros Hf. assert (Forall2 (fun x y => x.1 = y.1 /\ P x.2 y.2) (imap pair l) (imap pair k)) as Hi.
  { apply Forall2_same_length_lookup. split.
    - rewrite !length_imap. by eapply Forall2_length.
    - intros i x y. rewrite !list_lookup_imap. intros Hx Hy.
      destruct (l !! i) eqn:E1, (k !! i) eqn:E2; simplify_eq/=. split; [done|]. by eapply Forall2_lookup_lr. }
  unfold enumerate_rev. induction Hi as [|x y l' k' Hxy _ IH]; simpl; [constructor|].
  apply Forall2_app; [done|]. constructor; [done|constructor].
Qed.

Lemma Forall_enumerate_rev {A} (P : A -> Prop) (l : list A) :
  Forall (fun x => P x.2) (enumerate_rev l) -> Forall P l.
Proof.
  intros Hf. apply Forall_rev in Hf. unfold enumerate_rev in Hf. rewrite rev_involutive in Hf.
  apply Forall_lookup. intros i x Hx. rewrite Forall_lookup in Hf. apply (Hf i (i, x)).
  by rewrite list_lookup_imap, Hx.
Qed.

Lemma Forall_reads_as (layers : list (Compression * R)) :
  Forall (fun x => exists es, reads_as open_layer x (x.1, es)) layers ->
  exists ls, Forall2 (reads_as open_layer) layers ls.
Proof.
  induction 1 as [|x layers [es Hx] _ [ls Hf]]; [exists []; constructor|].
  exists ((x.1, es) :: ls). by constructor.
Qed.

(** When squashing succeeds the layers were read. *)
Lemma squash_cb_read {C} `{EntryCallback C} layers (cb cb' : C) stats :
  squash_cb open_layer layers cb = Ok (cb', stats) ->
  exists ls, Forall2 (reads_as open_layer) layers ls /\ squash_cb open_entries ls cb = Ok (cb', stats).
Proof.
  unfold squash_cb. intros E. apply rbind_Ok_inv in E as (st & E & Hok).
  destruct (Forall_reads_as layers) as [ls Hf].
  { apply Forall_enumerate_rev. by eapply squash_layers_read. }
  exists ls. split; [done|]. by rewrite <-(squash_layers_entries _ _ _ (Forall2_enumerate_rev _ _ _ Hf)), E.
Qed.
End reading.

(** * Properties *)

(** C2: from a directory in the OCI layout to a file system.  When [squashoci] has
    written an erofs image, the layers of the named image were all read; and if
    - the paths of all layers are plain names between slashes ([tidy]), and none of
      the paths ends with a slash,
    - no upper layer has a path twice,
    - no upper layer marks the root opaque and no recorded path sorts between a
      whiteout or opaque mark and what lies below it ([undisturbed]),
    - the entries that the overlay shows are fewer than [2 ^ 30] and ones that an
      image can hold ([entry_ok]: among others, the size in the header of a regular
      file is the length of its data, and its xattrs stay below half a block),
    the image opens and shows at every path exactly what the overlay of these
    layers puts there: what the upper layers have, and what the lower ones have and
    no whiteout, opaque directory or upper entry hides.  Outside of these
    conditions the tool can differ from the overlay: [Overlay.whiteout_missed],
    [Squash.trailing_slash_not_shadowed], [Overlay.opaque_root_ignored]. *)
Theorem squashoci_shows_overlay {A R} `{ArchiveBuilder A} `{RustixFileTypeLaws} mode_from_raw
    (open_layer : Compression -> R -> result Squash.Error (list (result Squash.Error Entry))) (new_archive : A)
    digest_str index_from_file manifest_from_file open_file create_ok args path bytes :
  (forall m, 0 <= mode_from_raw m < 4096) ->
  squashoci_main open_layer new_archive digest_str index_from_file manifest_from_file open_file mode_from_raw create_ok args = Ok (ErofsFile path bytes) ->
  exists dir image layers ls,
    args !! 1%nat = Some dir /\ args !! 2%nat = Some image /\ args !! 3%nat = Some path /\
    load_layers_from_oci digest_str index_from_file manifest_from_file open_file dir image = Ok layers /\
    Forall2 (reads_as open_layer) layers ls /\
    forall bottom rest, ls = bottom :: rest ->
      let upper := rev (snd <$> rest) in
      let seen := overlay [] (upper ++ [bottom.2]) in
      Forall tidy (concat upper ++ bottom.2) -> Forall (fun l => NoDup (ordinary_paths l)) upper ->
      undisturbed upper -> Forall clean bottom.2 ->
      Forall (entry_ok mode_from_raw) seen -> zlen seen < 2 ^ 30 ->
      exists ops e, entry_ops mode_from_raw seen = Ok ops /\ Erofs_new bytes = Ok e /\
        forall names, Forall normal_name names -> shows e (s_fs (spec_resolve (spec_run None ops))) names.
Proof.
  intros Hmode E. unfold squashoci_main in E.
  apply rbind_Ok_inv in E as (dir & Hd & E). apply rbind_Ok_inv in E as (image & Hi & E).
  apply rbind_Ok_inv in E as (layers & Hl & E).
  destruct (args !! 1%nat) as [dir'|]; [injection Hd as ->|discriminate Hd].
  destruct (args !! 2%nat) as [image'|]; [injection Hi as ->|discriminate Hi].
  destruct (load_layers_from_oci _ _ _ _ dir image) as [layers'|e|] eqn:Ef; [injection Hl as ->|discriminate Hl..].
  destruct (decide _) as [|Hne].
  { apply rbind_Ok_inv in E as ([archive st] & _ & E). discriminate E. }
  destruct (ends_with (bs ".tar") _).
  { destruct create_ok; [|discriminate E]. apply rbind_Ok_inv in E as ([archive st] & _ & E). discriminate E. }
  destruct (ends_with (bs ".erofs") _); [|discriminate E]. destruct create_ok; [|discriminate E].
  apply rbind_Ok_inv in E as ([st [est out]] & Es & E). injection E as <- <-.
  destruct (squash_to_erofs _ _ _ _) as [[st' [est' out']]|e|] eqn:Eq; [injection Es as -> -> ->|discriminate Es..].
  destruct (squash_image_fs mode_from_raw Hmode open_layer layers None None st est out Eq) as (kept & Hk & Hs).
  apply squash_cb_read in Hk as (ls & Hf & Hk). exists dir, image, layers, ls. split_and!; [done|done| |done|done|].
  { destruct (args !! 3%nat); [done|]. by destruct Hne. }
  intros bottom rest -> upper seen Ht Hnd Hu Hcl Hok Hlen.
  destruct (squash_overlay bottom rest kept st Hk Ht Hnd) as [_ Hex]. rewrite (Hex Hu Hcl) in Hs. by apply Hs.
Qed.

(** A directory with the layers of [two_layers], and an archive that is not used. *)
#[local] Instance no_archive : ArchiveBuilder unit := {
  append_pax_extensions _ _ := Ok tt; append_link _ _ _ _ := Ok tt;
  append_data _ _ _ _ := Ok tt; finish_archive _ := Ok tt }.
Definition example_manifest (_ : bstr) : option ManifestFile :=
  Some [{| OciImage.media_type := OciImage.ImageLayer; OciImage.size := 1;
           OciImage.desc_digest := {| OciImage.algorithm := OciImage.Sha256; OciImage.digest := bs "cc" |} |};
        example_layer (bs "dd")].
Definition example_files (p : bstr) : option (list Entry) :=
  if decide (p = bs "dir/blobs/sha256/cc") then snd <$> two_layers !! 0%nat
  else if decide (p = bs "dir/blobs/sha256/dd") then snd <$> two_layers !! 1%nat else None.
Definition example_args : list bstr := bs <$> ["squashoci"; "dir"; "sha256:aa"; "out.erofs"].
#[local] Notation example_squashoci :=
  (squashoci_main open_entries tt example_str example_index example_manifest example_files permission_bits true
    example_args).

Lemma example_layers :
  load_layers_from_oci example_str example_index example_manifest example_files (bs "dir") (bs "sha256:aa") = Ok two_layers.
Proof. vm_compute. reflexivity. Qed.

Lemma example_squashoci_eq : example_squashoci = Ok (ErofsFile (bs "out.erofs") example_squashed.2.2).
Proof.
  assert (squash_to_erofs permission_bits open_entries two_layers (start_builder None None) = Ok example_squashed) as E
    by (apply ok_default_is_ok; vm_compute; reflexivity).
  unfold squashoci_main.
  change (example_args !! 1%nat) with (Some (bs "dir")).
  change (example_args !! 2%nat) with (Some (bs "sha256:aa")).
  change (example_args !! 3%nat) with (Some (bs "out.erofs")).
  cbn [expect rbind default]. rewrite example_layers. cbn [or_panic rbind].
  rewrite decide_False by (vm_compute; discriminate).
  change (ends_with (bs ".tar") (bs "out.erofs")) with false.
  change (ends_with (bs ".erofs") (bs "out.erofs")) with true.
  rewrite E. by destruct example_squashed as [? [? ?]].
Qed.

(** Paths of a name in a directory. *)
Lemma example_tidy_two (e : Entry) a b :
  mark_path e = None -> plain_name a -> plain_name b -> e_path e = path_of [a; b] -> tidy e.
Proof.
  intros Hm Ha Hb Hp. unfold tidy. rewrite Hm. exists [a; b]. split; [done|]. split; [|by left].
  constructor; [done|]. by apply Forall_singleton.
Qed.
Lemma example_tidy_one (e : Entry) a : mark_path e = None -> plain_name a -> e_path e = path_of [a] -> tidy e.
Proof.
  intros Hm Ha Hp. unfold tidy. rewrite Hm. exists [a]. split; [done|]. split; [|by left]. by apply Forall_singleton.
Qed.
Lemma plain_name_b (n : bstr) : bool_decide (plain_name n) = true -> plain_name n.
Proof. apply bool_decide_eq_true. Qed.

Definition layer_entries (i : nat) : list Entry := default [] (snd <$> two_layers !! i).

Lemma reads_as_entries layers ls : Forall2 (reads_as open_entries) layers ls -> ls = layers.
Proof.
  induction 1 as [|[c r] [c' es] layers ls [Hc Ho] _ ->]; [done|]. simpl in Hc, Ho. subst c'. f_equal. f_equal.
  unfold open_entries in Ho. injection Ho as Ho. 
  symmetry. apply (list_fmap_eq_inj (@Ok Squash.Error Entry)); [|done]. by intros x y [= ->].
Qed.

Lemma two_layers_tidy : Forall tidy (concat [layer_entries 1] ++ layer_entries 0).
Proof.
  repeat apply Forall_cons_2; [..|apply Forall_nil_2].
  - exists [bs "etc"; bs "gone"]. split; [|reflexivity].
    constructor; [by apply plain_name_b|]. apply Forall_singleton. by apply plain_name_b.
  - apply (example_tidy_two _ (bs "etc") (bs "a")); [done|by apply plain_name_b..|done].
  - apply (example_tidy_one _ (bs "l")); [done|by apply plain_name_b|done].
  - apply (example_tidy_one _ (bs "etc")); [done|by apply plain_name_b|done].
  - apply (example_tidy_two _ (bs "etc") (bs "a")); [done|by apply plain_name_b..|done].
  - apply (example_tidy_two _ (bs "etc") (bs "gone")); [done|by apply plain_name_b..|done].
Qed.

Lemma two_layers_overlay : overlay [] [layer_entries 1; layer_entries 0] = example_emitted.
Proof. vm_compute. reflexivity. Qed.

Lemma two_layers_nodup : NoDup (ordinary_paths (layer_entries 1)).
Proof. apply (proj1 (bool_decide_eq_true _)). vm_compute. reflexivity. Qed.

Lemma two_layers_undisturbed : undisturbed [layer_entries 1].
Proof.
  split; [repeat constructor|]. intros k Hk.
  change (k ∈ [bs "etc/gone"]) in Hk. apply list_elem_of_singleton in Hk as ->. split; [done|]. intros q Hq.
  change (q ∈ [bs "etc/gone"; bs "etc/a"; bs "l"]) in Hq. rewrite !elem_of_cons in Hq.
  destruct Hq as [->|[->|[->|[]%elem_of_nil]]]; by intros [? ?].
Qed.

Lemma squashoci_shows_overlay_witness :
  exists bytes ops e, example_squashoci = Ok (ErofsFile (bs "out.erofs") bytes) /\
    entry_ops permission_bits (overlay [] [layer_entries 1; layer_entries 0]) = Ok ops /\
    Erofs_new bytes = Ok e /\ shows e (s_fs (spec_resolve (spec_run None ops))) [bs "etc"; bs "a"].
Proof.
  exists example_squashed.2.2.
  destruct (squashoci_shows_overlay permission_bits open_entries tt example_str example_index example_manifest
    example_files true example_args (bs "out.erofs")
    example_squashed.2.2 permission_bits_range example_squashoci_eq)
    as (dir & image & layers & ls & Hd & Hi & _ & Hl & Hf & Hs).
  injection Hd as <-. injection Hi as <-.
  assert (layers = two_layers) as -> by (rewrite example_layers in Hl; by injection Hl).
  apply reads_as_entries in Hf as ->.
  destruct (Hs (CompressionNone, layer_entries 0) [(Gzip, layer_entries 1)]) as (ops & e & Hops & He & Hsh).
  - reflexivity.
  - exact two_layers_tidy.
  - apply Forall_singleton. exact two_layers_nodup.
  - exact two_layers_undisturbed.
  - repeat constructor.
  - change (Forall (entry_ok permission_bits) (overlay [] [layer_entries 1; layer_entries 0])).
    rewrite two_layers_overlay. exact example_emitted_ok.
  - change (zlen (overlay [] [layer_entries 1; layer_entries 0]) < 2 ^ 30).
    rewrite two_layers_overlay. reflexivity.
  - exists ops, e. split; [exact example_squashoci_eq|]. split; [exact Hops|]. split; [exact He|].
    apply Hsh. constructor; [|apply Forall_singleton]; apply normal_name_b; vm_compute; reflexivity.
Defined.
