(* ===== verification/Vub.v ===== *)
(** The vhost-user block device (src/pevub/src/main.rs).

    A virtual machine puts chains of descriptors into a queue: a header that it
    wrote, buffers that the device fills and a byte for the status.  The device
    takes the chains one by one, fills the buffers of read requests, writes the
    status and returns the chain in the ring of used chains, which is in guest memory
    too.  Guest memory and the queue are those of vm_memory and virtio_queue: the
    memory and the calls that write the ring are interfaces, and a chain is the
    list of descriptors that its iterator gives. *)
From stdpp Require Import option base list sets numbers strings gmap.
From Stdlib Require Import ZArith Lia.
From S2P Require Import Prelude MemFile BTree.
#[local] Open Scope Z_scope.
#[local] Open Scope result_scope.

Definition QUEUE_SIZE : Z := 1024.
Definition SEG_MAX : Z := 16.

Definition VIRTIO_BLK_S_OK : Z := 0.
Definition VIRTIO_BLK_S_UNSUPP : Z := 2.
Definition VIRTIO_BLK_T_IN : Z := 0.
Definition VHOST_USER_CONFIG_OFFSET : Z := 0x100.

(** * Data *)

Inductive VubError := NoHead | NeedRead | NeedWrite | NoStatus | Mem | StatusDescTooSmall.

Record Metrics := { reads : Z; segments : Z; notifications_skipped : Z }.

Record Descriptor := { addr : Z; len : Z; is_write_only : bool; has_next : bool }.
Record Chain := { head_index : Z; descs : list Descriptor }.

Record VirtioBlockHeader := { type_ : Z; ioprio : Z; sector : Z }.

Record ProcessItemResponse := { r_status : Z; status_addr : Z; r_len : Z }.

Definition response_ok (l : Z) (status_desc : Descriptor) : ProcessItemResponse :=
  {| r_status := VIRTIO_BLK_S_OK; status_addr := addr status_desc; r_len := l |}.
Definition response_unsupp (status_desc : Descriptor) : ProcessItemResponse :=
  {| r_status := VIRTIO_BLK_S_UNSUPP; status_addr := addr status_desc; r_len := 1 |}.

(** * Guest memory *)

(** Reading and writing at an address, and [get_slice] with a copy into it, which
    wants the range in one region. *)
Class GuestMemory (M : Type) := {
  byte_at : M -> Z -> option byte;
  read_obj : M -> Z -> Z -> option (list byte);
  write_obj : M -> Z -> list byte -> option M;
  slice_copy_from : M -> Z -> list byte -> option M;
}.

(** The memory after some bytes were written at an address. *)
Definition written {M} `{GuestMemory M} (m m' : M) (a : Z) (data : list byte) : Prop :=
  forall x, byte_at m' x = if decide (a <= x < a + zlen data) then data !! Z.to_nat (x - a) else byte_at m x.

Class GuestMemoryLaws (M : Type) `{GuestMemory M} := {
  in_region : M -> Z -> Z -> Prop;
  read_obj_spec m a n d : read_obj m a n = Some d ->
    zlen d = n /\ forall i : Z, 0 <= i < n -> byte_at m (a + i) = d !! Z.to_nat i;
  write_obj_spec m m' a d : write_obj m a d = Some m' ->
    written m m' a d /\ forall b n, in_region m' b n <-> in_region m b n;
  slice_copy_spec m m' a d : slice_copy_from m a d = Some m' ->
    written m m' a d /\ forall b n, in_region m' b n <-> in_region m b n;
  slice_copy_ok m a d : in_region m a (zlen d) -> is_Some (slice_copy_from m a d);
  write_obj_ok m a d : in_region m a (zlen d) -> is_Some (write_obj m a d);
}.

Definition same_regions {M} `{GuestMemoryLaws M} (m m' : M) : Prop := forall b n, in_region m' b n <-> in_region m b n.

(** ** The ring of used chains

    [add_used] puts a head index with a length into the ring and [enable_notification]
    asks the guest for kicks; both write the ring in guest memory and can fail. *)
Class Virtqueue (M : Type) := {
  queue_size : Z;
  add_used : M -> Z -> Z -> option M;
  enable_notification : M -> option M;
}.

(** Outside of the ring the memory stays as it is; and with the ring in the memory
    and an index below the size of the queue the calls succeed. *)
Class VirtqueueLaws (M : Type) `{GuestMemoryLaws M} `{!Virtqueue M} := {
  used_area : Z -> Prop;
  used_area_dec x :: Decision (used_area x);
  ring_placed : M -> Prop;
  ring_placed_regions m m' : same_regions m m' -> ring_placed m -> ring_placed m';
  add_used_spec m m' h l : add_used m h l = Some m' ->
    (forall x, ~ used_area x -> byte_at m' x = byte_at m x) /\ same_regions m m';
  enable_spec m m' : enable_notification m = Some m' ->
    (forall x, ~ used_area x -> byte_at m' x = byte_at m x) /\ same_regions m m';
  add_used_ok m h l : ring_placed m -> 0 <= h < queue_size -> is_Some (add_used m h l);
  enable_ok m : ring_placed m -> is_Some (enable_notification m);
}.

(** * The device *)

Record VhostUserService (M : Type) := { mem : M; metrics : Metrics; event_idx : bool }.
Arguments mem {M}.
Arguments metrics {M}.
Arguments event_idx {M}.
Arguments Build_VhostUserService {M}.

Section device.
Context {M : Type} `{GuestMemory M} `{Virtqueue M}.

Definition set_mem (m : M) (s : VhostUserService M) : VhostUserService M :=
  {| mem := m; metrics := metrics s; event_idx := event_idx s |}.

(** [struct virtio_blk_outhdr]: two 32-bit words and one of 64 bits. *)
Definition read_virtio_blk_outhdr (m : M) (a : Z) : result VubError VirtioBlockHeader :=
  let? d := ok_or (read_obj m a 16) Mem in
  Ok {| type_ := le_val (ztake 4 d); ioprio := le_val (ztake 4 (zdrop 4 d)); sector := le_val (zdrop 8 d) |}.

(** The loop over the descriptors after the head: the buffers, and the last one
    without a successor. *)
Fixpoint collect_requests (l : list Descriptor) (requests : list Descriptor) (status : option Descriptor)
    : result VubError (list Descriptor * option Descriptor) :=
  match l with
  | [] => Ok (requests, status)
  | desc :: l =>
      if negb (is_write_only desc) then Err NeedWrite
      else if has_next desc then collect_requests l (requests ++ [desc]) status
      else collect_requests l requests (Some desc)
  end.

(** The answer to a read so far: every byte of the buffers is 42. *)
Fixpoint fill_requests (l : list Descriptor) (m : M) (total_len : Z) : result VubError (M * Z) :=
  match l with
  | [] => Ok (m, total_len)
  | desc :: l =>
      match slice_copy_from m (addr desc) (replicate (Z.to_nat (len desc)) x2a) with
      | None => Panic
      | Some m => fill_requests l m (wadd 32 total_len (len desc))
      end
  end.

Definition process_item (chain : list Descriptor) (s : VhostUserService M)
    : result VubError (VhostUserService M * ProcessItemResponse) :=
  match chain with
  | [] => Err NoHead
  | head_desc :: rest =>
      if is_write_only head_desc then Err NeedRead else
      let? header := read_virtio_blk_outhdr (mem s) (addr head_desc) in
      let? '(requests, status) := collect_requests rest [] None in
      let? status_desc := ok_or status NoStatus in
      if negb (type_ header =? VIRTIO_BLK_T_IN) then Ok (s, response_unsupp status_desc) else
      if len status_desc <? 1 then Err StatusDescTooSmall else
      let? '(m, total_len) := fill_requests requests (mem s) 0 in
      let mt := metrics s in
      Ok ({| mem := m; event_idx := event_idx s;
             metrics := {| reads := wadd 64 (reads mt) 1;
                           segments := wadd 64 (segments mt) (zlen requests);
                           notifications_skipped := notifications_skipped mt |} |},
          response_ok total_len status_desc)
  end.

(** [vring.add_used(..).unwrap()] *)
Definition return_chain (chain : Chain) (l : Z) (s : VhostUserService M) : result VubError (VhostUserService M) :=
  match add_used (mem s) (head_index chain) l with
  | None => Panic
  | Some m => Ok (set_mem m s)
  end.

(** [process_queue]: the chains that the queue gives until it is empty.  The head
    indexes with lengths that were put into the ring are kept as a list besides. *)
Fixpoint process_queue (chains : list Chain) (used : list (Z * Z)) (s : VhostUserService M)
    : result VubError (VhostUserService M * list (Z * Z)) :=
  match chains with
  | [] => Ok (s, used)
  | chain :: chains =>
      match process_item (descs chain) s with
      | Ok (s, r) =>
          match write_obj (mem s) (status_addr r) [byte_of (r_status r)] with
          | None => Panic
          | Some m =>
              let? s := return_chain chain (r_len r) (set_mem m s) in
              process_queue chains (used ++ [(head_index chain, r_len r)]) s
          end
      | Err _ =>
          let? s := return_chain chain 1 s in
          process_queue chains (used ++ [(head_index chain, 1)]) s
      | Panic => Panic
      end
  end.

(** The state of the queue around the device: what was used and how often the
    guest was notified. *)
Record Vring := { used_ring : list (Z * Z); signals : nat }.

Definition skip_notification (s : VhostUserService M) : VhostUserService M :=
  {| mem := mem s; event_idx := event_idx s;
     metrics := {| reads := reads (metrics s); segments := segments (metrics s);
                   notifications_skipped := wadd 64 (notifications_skipped (metrics s)) 1 |} |}.

(** What one pass over the queue finds: the chains, what [needs_notification] says
    afterwards, if it does not fail, and whether [signal_used_queue] succeeds. *)
Record Round := { found : list Chain; needs : option bool; signal_ok : bool }.

(** [if vring.needs_notification().unwrap() { vring.signal_used_queue().unwrap() }];
    the result says whether there was a notification. *)
Definition notify (r : Round) (v : Vring) : result VubError (bool * Vring) :=
  match needs r with
  | None => Panic
  | Some false => Ok (false, v)
  | Some true => if signal_ok r then Ok (true, {| used_ring := used_ring v; signals := S (signals v) |}) else Panic
  end.

(** [enable_notification(..).unwrap()] *)
Definition enable (s : VhostUserService M) : result VubError (VhostUserService M) :=
  match enable_notification (mem s) with
  | None => Panic
  | Some m => Ok (set_mem m s)
  end.

(** With event indexes the queue is processed until nothing is found, which is also
    what is found after the given rounds. *)
Fixpoint event_idx_loop (rounds : list Round) (v : Vring) (s : VhostUserService M)
    : result VubError (VhostUserService M * Vring) :=
  let? s := enable s in
  match rounds with
  | [] => Ok (s, v)
  | r :: rounds =>
      let? '(s, used) := process_queue (found r) (used_ring v) s in
      let v := {| used_ring := used; signals := signals v |} in
      match found r with
      | [] => Ok (s, v)
      | _ =>
          let? '(notified, v) := notify r v in
          event_idx_loop rounds v (if notified : bool then s else skip_notification s)
      end
  end.

Definition handle_event (is_in : bool) (rounds : list Round) (v : Vring)
    (s : VhostUserService M) : result VubError (VhostUserService M * Vring) :=
  if negb is_in then Ok (s, v) else
  if event_idx s then event_idx_loop rounds v s else
  match rounds with
  | [] => Ok (s, v)
  | r :: _ =>
      let? '(s, used) := process_queue (found r) (used_ring v) s in
      let v := {| used_ring := used; signals := signals v |} in
      match found r with
      | [] => Ok (s, v)
      | _ => let? '(_, v) := notify r v in Ok (s, v)
      end
  end.

(** Without the feature the request is logged and ignored. *)
Definition set_event_idx (feature b : bool) (s : VhostUserService M) : VhostUserService M :=
  if feature then {| mem := mem s; metrics := metrics s; event_idx := b |} else s.
End device.

(** ** The configuration space *)

Definition get_config (config : list byte) (offset size : Z) : list byte :=
  if negb (offset =? VHOST_USER_CONFIG_OFFSET) then [] else default [] (get_range config 0 size).

(** The guest's writes to the configuration are ignored. *)
Definition set_config (config : list byte) (offset : Z) (buf : list byte) : list byte := config.

(** What the device announces besides: one queue for the one thread. *)
Definition num_queues : Z := 1.
Definition max_queue_size : Z := QUEUE_SIZE.
Definition queues_per_thread : list Z := [1].

Record VirtioBlockConfig := {
  vb_capacity : Z; vb_blk_size : Z; vb_size_max : Z; vb_seg_max : Z; vb_num_queues : Z; vb_alignment_offset : Z;
  vb_physical_block_exp : Z; vb_min_io_size : Z; vb_opt_io_size : Z;
}.

(** The configuration that [main] makes for a device of a size: the size has to be
    a number of sectors and the block size a power of two. *)
Definition make_config (size block_size : Z) : result unit VirtioBlockConfig :=
  if negb (size mod 512 =? 0) then Panic else
  let exp := Z.log2 block_size in
  if negb (wrap 32 (Z.shiftl 1 exp) =? block_size) then Panic else
  (let? seg_max := expect (try_into 32 SEG_MAX) in
  let? e := expect (try_into 8 exp) in
  Ok {| vb_capacity := size / 512; vb_blk_size := block_size; vb_size_max := 65536; vb_seg_max := seg_max;
        vb_num_queues := 1; vb_alignment_offset := 0; vb_physical_block_exp := e; vb_min_io_size := 1;
        vb_opt_io_size := 1 |})%result.
(** The device of [main], with the size of the image it was made for. *)
Definition main_config : result unit VirtioBlockConfig := make_config 8388608 (512 * 8).

Definition VIRTIO_BLK_F_SIZE_MAX : Z := 1.
Definition VIRTIO_BLK_F_SEG_MAX : Z := 2.
Definition VIRTIO_BLK_F_RO : Z := 5.
Definition VIRTIO_BLK_F_BLK_SIZE : Z := 6.
Definition VIRTIO_BLK_F_TOPOLOGY : Z := 10.
Definition VIRTIO_RING_F_EVENT_IDX : Z := 29.
Definition PROTOCOL_FEATURES : Z := Z.shiftl 1 30.
Definition VIRTIO_F_VERSION_1 : Z := 32.

Definition features (with_event_idx : bool) : Z :=
  Z.lor (Z.shiftl 1 VIRTIO_BLK_F_SEG_MAX) (Z.lor (Z.shiftl 1 VIRTIO_BLK_F_SIZE_MAX)
  (Z.lor (Z.shiftl 1 VIRTIO_BLK_F_BLK_SIZE) (Z.lor (Z.shiftl 1 VIRTIO_BLK_F_TOPOLOGY)
  (Z.lor (Z.shiftl 1 VIRTIO_BLK_F_RO) (Z.lor (Z.shiftl 1 VIRTIO_F_VERSION_1)
  (Z.lor (if with_event_idx then Z.shiftl 1 VIRTIO_RING_F_EVENT_IDX else 0) PROTOCOL_FEATURES)))))).

(** * Lemmas *)

(** A configuration describes the whole device in blocks of the given size. *)
Lemma make_config_Ok size block_size c :
  0 <= size -> 0 < block_size < 2 ^ 32 -> make_config size block_size = Ok c ->
  vb_capacity c * 512 = size /\ 2 ^ vb_physical_block_exp c = block_size.
Proof.
  intros Hs Hb. unfold make_config. destruct (Z.eqb_spec (size mod 512) 0) as [Hm|]; [|done]. cbn [negb].
  destruct (Z.eqb_spec (wrap 32 (Z.shiftl 1 (Z.log2 block_size))) block_size) as [He|]; [|done]. cbn [negb].
  destruct (try_into 8 _) as [e|] eqn:Ee; [|done]. intros E. vm_compute (expect _) in E. cbn [rbind expect] in E.
  injection E as <-. cbn [vb_capacity vb_physical_block_exp]. apply try_into_Some in Ee as [-> Hr].
  split; [pose proof (Z.div_mod size 512); lia|]. rewrite Z.shiftl_1_l in He. rewrite wrap_small in He; [done|].
  pose proof (Z.log2_spec block_size). unfold in_width. lia.
Qed.

(** An address of one of the buffers. *)
Definition covers (l : list Descriptor) (x : Z) : Prop :=
  Exists (fun d => addr d <= x < addr d + len d) l.
#[export] Instance covers_dec l x : Decision (covers l x).
Proof. unfold covers. apply _. Defined.

Definition total_len (l : list Descriptor) : Z := fold_right (fun d n => len d + n) 0 l.

Section laws.
Context {M : Type} `{VirtqueueLaws M}.

Lemma fill_requests_spec l m t m' t' :
  fill_requests l m t = Ok (m', t') ->
  (forall x, byte_at m' x = if decide (covers l x) then Some x2a else byte_at m x) /\ same_regions m m' /\
  (0 <= t < 2 ^ 32 -> t' = wrap 32 (t + total_len l)).
Proof.
  revert m t. induction l as [|d l IH]; intros m t E; simpl in E.
  - injection E as <- <-. split_and!; [|done|].
    + intros x. rewrite decide_False; [done|]. unfold covers. by intros ?%Exists_nil.
    + intros Ht. simpl. rewrite Z.add_0_r. symmetry. by apply wrap_small.
  - destruct (slice_copy_from m (addr d) _) as [m1|] eqn:Ec; [|discriminate].
    apply slice_copy_spec in Ec as [Hw Hr]. apply IH in E as (Hb & Hr2 & Ht). split_and!.
    + intros x. rewrite Hb, Hw, zlen_replicate. unfold covers. destruct (decide (Exists _ l)) as [Hl|Hl].
      * by rewrite decide_True by (by apply Exists_cons_tl).
      * destruct (decide (addr d <= x < addr d + len d)) as [Hx|Hx].
        { rewrite (decide_True (P := Exists _ _)) by (by apply Exists_cons_hd).
          rewrite decide_True by lia. apply lookup_replicate_2. lia. }
        rewrite (decide_False (P := Exists _ _)) by (by rewrite Exists_cons; intros [?|?]).
        rewrite decide_False by lia. done.
    + intros b n. by rewrite (Hr2 b n).
    + intros Ht0. rewrite Ht by (unfold wadd, wrap; apply Z.mod_pos_bound; lia). simpl. unfold wadd, wrap.
      rewrite Zplus_mod_idemp_l. f_equal. lia.
Qed.

Lemma fill_requests_total l m t :
  Forall (fun d => 0 <= len d /\ in_region m (addr d) (len d)) l -> exists r, fill_requests l m t = Ok r.
Proof.
  revert m t. induction l as [|d l IH]; intros m t Hl; simpl; [by eexists|].
  apply Forall_cons in Hl as [[Hlen Hd] Hl].
  destruct (slice_copy_ok m (addr d) (replicate (Z.to_nat (len d)) x2a)) as [m1 Em].
  { by rewrite zlen_replicate, Z2Nat.id. }
  rewrite Em. apply IH. apply slice_copy_spec in Em as [_ Hr].
  eapply Forall_impl; [exact Hl|]. intros d' [? ?]. by rewrite Hr.
Qed.

Lemma collect_requests_spec l rq st rq' st' :
  collect_requests l rq st = Ok (rq', st') ->
  Forall (fun d => is_write_only d = true) l /\
  rq' = rq ++ base.filter (fun d => has_next d = true) l /\
  (st' = st \/ exists d, st' = Some d /\ d ∈ l).
Proof.
  revert rq st. induction l as [|d l IH]; intros rq st E; simpl in E.
  - injection E as <- <-. split_and!; [constructor|by rewrite app_nil_r|by left].
  - destruct (is_write_only d) eqn:Ew; [simpl in E|discriminate].
    destruct (has_next d) eqn:En; apply IH in E as (Hf & -> & Hs).
    + split_and!; [by constructor| |].
      * rewrite filter_cons_True by done. by rewrite <-app_assoc.
      * destruct Hs as [?|(d' & ? & ?)]; [by left|right]. exists d'. split; [done|by right].
    + split_and!; [by constructor|by rewrite filter_cons_False by (by rewrite En)|].
      right. destruct Hs as [->|(d' & ? & ?)]; [exists d; split; [done|by left]|].
      exists d'. split; [done|by right].
Qed.

(** The bytes that the guest lets the device write. *)
Definition writable (l : list Descriptor) (x : Z) : Prop :=
  exists d, d ∈ l /\ is_write_only d = true /\ addr d <= x < addr d + len d.

(** The address of a status descriptor without a byte for the status. *)
Definition empty_status (l : list Descriptor) (x : Z) : Prop :=
  exists d, d ∈ l /\ is_write_only d = true /\ len d < 1 /\ addr d = x.

(** What the device writes for a chain. *)
Definition may_change (l : list Descriptor) (x : Z) : Prop := writable l x \/ empty_status l x.

(** One chain changes only what its writable descriptors name; the status goes to
    one of them, which may be empty. *)
Lemma process_item_confined l s s' r :
  process_item l s = Ok (s', r) ->
  (forall x, byte_at (mem s') x <> byte_at (mem s) x -> writable l x) /\ may_change l (status_addr r) /\
  same_regions (mem s) (mem s').
Proof.
  unfold process_item. destruct l as [|h rest]; [discriminate|].
  destruct (is_write_only h); [discriminate|]. intros E.
  apply rbind_Ok_inv in E as (header & _ & E). apply rbind_Ok_inv in E as ([rq st] & Hc & E).
  apply rbind_Ok_inv in E as (sd & Hst%ok_or_Ok & E). subst st.
  apply collect_requests_spec in Hc as (Hw & -> & [?|(d & [= <-] & Hd)]); [done|].
  rewrite Forall_forall in Hw.
  assert (may_change (h :: rest) (addr sd)) as Hsd.
  { destruct (Z.lt_ge_cases (len sd) 1); [right|left]; exists sd; split_and!; (by right) || (by apply Hw) || lia. }
  destruct (negb _); [injection E as <- <-; by split_and!|].
  destruct (_ <? _); [discriminate|]. apply rbind_Ok_inv in E as ([m t] & Hf & E).
  injection E as <- <-. simpl. apply fill_requests_spec in Hf as (Hb & Hr & _). split_and!; [|done|done].
  intros x Hx. rewrite Hb in Hx. destruct (decide (covers _ x)) as [Hcov|]; [|done].
  apply Exists_exists in Hcov as (d & [_ Hin]%list_elem_of_filter & Hrange). exists d.
  split_and!; [by right|by apply Hw|lia..].
Qed.

Lemma return_chain_spec c l s s' :
  return_chain c l s = Ok s' ->
  (forall x, ~ used_area x -> byte_at (mem s') x = byte_at (mem s) x) /\ same_regions (mem s) (mem s') /\
  event_idx s' = event_idx s.
Proof.
  unfold return_chain. destruct (add_used _ _ _) as [m|] eqn:E; [|done]. intros [= <-].
  apply add_used_spec in E as [? ?]. done.
Qed.

Lemma process_item_event_idx l s s' r : process_item l s = Ok (s', r) -> event_idx s' = event_idx s.
Proof.
  unfold process_item. intros Ei. destruct l as [|h rest]; [done|]. destruct (is_write_only h); [done|].
  apply rbind_Ok_inv in Ei as (? & _ & Ei). apply rbind_Ok_inv in Ei as ([? ?] & _ & Ei).
  apply rbind_Ok_inv in Ei as (? & _ & Ei). destruct (negb _); [by injection Ei as <- <-|].
  destruct (_ <? _); [done|]. apply rbind_Ok_inv in Ei as ([? ?] & _ & Ei). by injection Ei as <- <-.
Qed.

(** What the passes over the queue change. *)
Definition confined (chains : list Chain) (m m' : M) : Prop :=
  forall x, byte_at m' x <> byte_at m x -> used_area x \/ exists c, c ∈ chains /\ may_change (descs c) x.

Lemma confined_trans c1 c2 m1 m2 m3 : confined c1 m1 m2 -> confined c2 m2 m3 -> confined (c1 ++ c2) m1 m3.
Proof.
  intros Ha Hb x Hx. destruct (decide (byte_at m2 x = byte_at m1 x)) as [E|E].
  - rewrite <-E in Hx. destruct (Hb x Hx) as [?|(c & ? & ?)]; [by left|right]. exists c.
    split; [apply elem_of_app; by right|done].
  - destruct (Ha x E) as [?|(c & ? & ?)]; [by left|right]. exists c. split; [apply elem_of_app; by left|done].
Qed.

Lemma confined_ring m m' : (forall x, ~ used_area x -> byte_at m' x = byte_at m x) -> confined [] m m'.
Proof. intros Hm x Hx. destruct (decide (used_area x)); [by left|]. by destruct Hx; apply Hm. Qed.

(** One chain. *)
Lemma item_confined c s s1 r m :
  process_item (descs c) s = Ok (s1, r) -> write_obj (mem s1) (status_addr r) [byte_of (r_status r)] = Some m ->
  confined [c] (mem s) m /\ same_regions (mem s) m.
Proof.
  intros Ei Ew. apply process_item_confined in Ei as (Hx & Hs & Hr). apply write_obj_spec in Ew as [Hw Hr2]. split.
  - intros x Hne. right. exists c. split; [by left|]. rewrite Hw in Hne. change (zlen [_]) with 1 in Hne.
    destruct (decide (status_addr r <= x < status_addr r + 1)); [by replace x with (status_addr r) by lia|].
    left. by apply Hx.
  - intros b n. unfold same_regions in Hr. by rewrite Hr2, Hr.
Qed.

Lemma process_queue_confined chains used s s' used' :
  process_queue chains used s = Ok (s', used') ->
  used'.*1 = used.*1 ++ (head_index <$> chains) /\ confined chains (mem s) (mem s') /\
  same_regions (mem s) (mem s') /\ event_idx s' = event_idx s.
Proof.
  revert used s. induction chains as [|c chains IH]; intros used s E; cbn [process_queue] in E.
  - injection E as <- <-. rewrite app_nil_r. split_and!; try done. by intros x.
  - destruct (process_item (descs c) s) as [[s1 r]|e|] eqn:Ei; [| |discriminate].
    + assert (event_idx s1 = event_idx s) as He by by eapply process_item_event_idx.
      destruct (write_obj (mem s1) (status_addr r) _) as [m|] eqn:Ew; [|discriminate].
      destruct (item_confined c s s1 r m Ei Ew) as [Hc Hr].
      apply rbind_Ok_inv in E as (s2 & E2 & E). apply return_chain_spec in E2 as (Hu2 & Hr2 & He2).
      apply IH in E as (Hu & Hm & Hr3 & He3). simpl in *. split_and!; [| | |congruence].
      * by rewrite Hu, fmap_app, <-app_assoc.
      * apply (confined_trans [c] chains _ m); [done|]. apply (confined_trans [] chains _ (mem s2)); [|done].
        by apply confined_ring.
      * intros b n. unfold same_regions in *. by rewrite Hr3, Hr2, Hr.
    + apply rbind_Ok_inv in E as (s2 & E2 & E). apply return_chain_spec in E2 as (Hu2 & Hr2 & He2).
      apply IH in E as (Hu & Hm & Hr3 & He3). split_and!; [| | |congruence].
      * by rewrite Hu, fmap_app, <-app_assoc.
      * apply (confined_trans [c] chains _ (mem s2)); [|done].
        apply confined_ring in Hu2. intros x Hx. destruct (Hu2 x Hx) as [?|(? & ?%elem_of_nil & _)]; [by left|done].
      * intros b n. unfold same_regions in *. by rewrite Hr3, Hr2.
Qed.

(** The buffers that a chain offers lie in the memory. *)
Definition well_placed (m : M) (l : list Descriptor) : Prop :=
  Forall (fun d => is_write_only d = true ->
    0 <= len d /\ in_region m (addr d) (len d) /\ in_region m (addr d) 1) l.

Lemma well_placed_regions m m' l : same_regions m m' -> well_placed m l -> well_placed m' l.
Proof.
  intros Hr Hl. unfold same_regions in Hr. eapply Forall_impl; [exact Hl|]. intros d Hd Hw. destruct (Hd Hw) as (? & ? & ?). by rewrite !Hr.
Qed.

Lemma process_item_no_panic l s : well_placed (mem s) l -> process_item l s <> Panic.
Proof.
  intros Hl. unfold process_item. destruct l as [|h rest]; [done|]. apply Forall_cons in Hl as [_ Hl].
  destruct (is_write_only h); [done|]. unfold read_virtio_blk_outhdr.
  destruct (read_obj _ _ _); [simpl|done].
  destruct (collect_requests rest [] None) as [[rq st]|e|] eqn:Ec; [simpl|done|].
  - destruct st as [sd|]; [simpl|done]. destruct (negb _); [done|]. destruct (_ <? _); [done|].
    apply collect_requests_spec in Ec as (Hw & -> & _).
    destruct (fill_requests_total (base.filter (fun d => has_next d = true) rest) (mem s) 0) as [[m t] Ef];
      [|simpl; by rewrite Ef].
    rewrite Forall_forall in Hl, Hw. apply Forall_forall. intros d [_ Hd]%list_elem_of_filter.
    destruct (Hl d Hd (Hw d Hd)) as (? & ? & _). done.
  - exfalso. clear -Ec. revert Ec. generalize (@nil Descriptor) as rq, (@None Descriptor) as st.
    induction rest as [|d rest IH]; intros rq st; simpl; [done|].
    destruct (negb _); [done|]. destruct (has_next d); apply IH.
Qed.

Lemma writable_regions m l x :
  well_placed m l -> (exists d, d ∈ l /\ is_write_only d = true /\ addr d = x) -> in_region m x 1.
Proof.
  intros Hl (d & Hd & Hw & <-). unfold well_placed in Hl. rewrite Forall_forall in Hl.
  by destruct (Hl d Hd Hw) as (_ & _ & ?).
Qed.

Lemma process_item_status l s s' r :
  process_item l s = Ok (s', r) -> exists d, d ∈ l /\ is_write_only d = true /\ addr d = status_addr r.
Proof.
  unfold process_item. destruct l as [|h rest]; [discriminate|].
  destruct (is_write_only h); [discriminate|]. intros E.
  apply rbind_Ok_inv in E as (header & _ & E). apply rbind_Ok_inv in E as ([rq st] & Hc & E).
  apply rbind_Ok_inv in E as (sd & Hst%ok_or_Ok & E). subst st.
  apply collect_requests_spec in Hc as (Hw & _ & [?|(d & [= <-] & Hd)]); [done|].
  rewrite Forall_forall in Hw. exists sd. split_and!; [by right|by apply Hw|].
  destruct (negb _); [by injection E as <- <-|]. destruct (_ <? _); [discriminate|].
  apply rbind_Ok_inv in E as ([m t] & _ & E). by injection E as <- <-.
Qed.

(** The chains of the queue lie in the memory and have an index of the queue. *)
Definition chain_placed (m : M) (c : Chain) : Prop :=
  well_placed m (descs c) /\ 0 <= head_index c < queue_size.

Lemma chain_placed_regions m m' c : same_regions m m' -> chain_placed m c -> chain_placed m' c.
Proof. intros Hr [Hw Hi]. split; [by eapply well_placed_regions|done]. Qed.

Lemma return_chain_total c l s :
  ring_placed (mem s) -> chain_placed (mem s) c -> exists s', return_chain c l s = Ok s'.
Proof.
  intros Hp [_ Hi]. unfold return_chain. destruct (add_used_ok (mem s) (head_index c) l Hp Hi) as [m ->]. eauto.
Qed.

(** The writes for one chain succeed. *)
Lemma item_total c s :
  chain_placed (mem s) c ->
  (exists e, process_item (descs c) s = Err e) \/
  exists s1 r m, process_item (descs c) s = Ok (s1, r) /\
    write_obj (mem s1) (status_addr r) [byte_of (r_status r)] = Some m /\ same_regions (mem s) m.
Proof.
  intros [Hc _]. destruct (process_item (descs c) s) as [[s1 r]|e|] eqn:Ei; [right|left; eauto|by apply process_item_no_panic in Ei].
  pose proof (process_item_status _ _ _ _ Ei) as Hst. pose proof Ei as Ei'.
  apply process_item_confined in Ei' as (_ & _ & Hr).
  destruct (write_obj_ok (mem s1) (status_addr r) [byte_of (r_status r)]) as [m Em].
  { apply (Hr _ 1). by eapply writable_regions. }
  exists s1, r, m. split; [done|]. split; [done|]. by eapply item_confined.
Qed.

Lemma process_queue_total chains used s :
  ring_placed (mem s) -> Forall (chain_placed (mem s)) chains -> exists r, process_queue chains used s = Ok r.
Proof.
  revert used s. induction chains as [|c chains IH]; intros used s Hp Hc; cbn [process_queue]; [by eexists|].
  apply Forall_cons in Hc as [Hc Hcs].
  assert (forall s1 l, same_regions (mem s) (mem s1) -> exists s2, return_chain c l s1 = Ok s2 /\
    ring_placed (mem s2) /\ Forall (chain_placed (mem s2)) chains) as Hret.
  { intros s1 l Hr. destruct (return_chain_total c l s1) as [s2 E2].
    { by eapply ring_placed_regions. } { by eapply chain_placed_regions. }
    exists s2. split; [done|]. apply return_chain_spec in E2 as (_ & Hr2 & _).
    assert (same_regions (mem s) (mem s2)) as Hr3 by (intros b n; unfold same_regions in *; by rewrite Hr2, Hr).
    split; [by eapply ring_placed_regions|]. eapply Forall_impl; [exact Hcs|]. intros c' Hc'.
    by eapply chain_placed_regions. }
  destruct (item_total c s Hc) as [[e ->]|(s1 & r & m & -> & -> & Hr)].
  - destruct (Hret s 1) as (s2 & -> & ? & ?); [done|]. by apply IH.
  - destruct (Hret (set_mem m s1) (r_len r)) as (s2 & -> & ? & ?); [done|]. by apply IH.
Qed.

Lemma collect_read_chain bufs st rq :
  Forall (fun d => is_write_only d = true /\ has_next d = true) bufs ->
  is_write_only st = true -> has_next st = false ->
  collect_requests (bufs ++ [st]) rq None = Ok (rq ++ bufs, Some st).
Proof.
  intros Hb Hw Hn. revert rq. induction Hb as [|d bufs [Hd1 Hd2] Hb IH]; intros rq; simpl.
  - rewrite Hw, Hn. simpl. by rewrite app_nil_r.
  - rewrite Hd1, Hd2. simpl. rewrite IH. by rewrite <-app_assoc.
Qed.
End laws.

(** * Properties *)

(** The device stays within what the guest gave it.  When the buffers of the
    chains and the ring lie in guest memory and the chains have indexes of the
    queue, the queue is processed without a panic; and every chain that is taken is
    returned exactly once and in order, and only bytes of descriptors that the
    guest made writable change, the byte at the address of an empty status
    descriptor and the ring of used chains. *)
Theorem vub_confined {M} `{VirtqueueLaws M} chains used (s : VhostUserService M) :
  (ring_placed (mem s) -> Forall (chain_placed (mem s)) chains ->
     exists s' used', process_queue chains used s = Ok (s', used')) /\
  forall s' used', process_queue chains used s = Ok (s', used') ->
    used'.*1 = used.*1 ++ (head_index <$> chains) /\
    forall x, byte_at (mem s') x <> byte_at (mem s) x ->
      used_area x \/ exists c, c ∈ chains /\ (writable (descs c) x \/ empty_status (descs c) x).
Proof.
  split.
  - intros Hp Hc. destruct (process_queue_total chains used s Hp Hc) as [[s' used'] E]. eauto.
  - intros s' used' E. apply process_queue_confined in E as (Hu & Hc & _). by split.
Qed.

(** A read request is served.  For a chain of a header for a read, buffers
    and a status byte, all in guest memory and outside of the ring, the status
    becomes OK, every byte of the buffers is written, nothing else changes outside
    of the ring, and the chain is returned with the length of the buffers. *)
Theorem vub_read_served {M} `{VirtqueueLaws M} (s : VhostUserService M) used i h bufs st d :
  is_write_only h = false -> read_obj (mem s) (addr h) 16 = Some d -> le_val (ztake 4 d) = VIRTIO_BLK_T_IN ->
  Forall (fun d => is_write_only d = true /\ has_next d = true) bufs ->
  is_write_only st = true -> has_next st = false -> 1 <= len st -> ~ used_area (addr st) ->
  ring_placed (mem s) -> chain_placed (mem s) {| head_index := i; descs := h :: bufs ++ [st] |} ->
  exists s', process_queue [{| head_index := i; descs := h :: bufs ++ [st] |}] used s =
      Ok (s', used ++ [(i, wrap 32 (total_len bufs))]) /\
    byte_at (mem s') (addr st) = Some x00 /\
    forall x, x <> addr st -> ~ used_area x ->
      byte_at (mem s') x = if decide (covers bufs x) then Some x2a else byte_at (mem s) x.
Proof.
  intros Hh Hr Ht Hb Hw Hn Hlen Hst Hring Hp.
  destruct (process_queue_total [{| head_index := i; descs := h :: bufs ++ [st] |}] used s) as [[s' used'] E];
    [done|by constructor|]. exists s'. revert E. cbn [process_queue descs]. unfold process_item, read_virtio_blk_outhdr.
  rewrite Hh, Hr. cbn [rbind ok_or]. rewrite (collect_read_chain _ _ [] Hb Hw Hn). cbn [rbind ok_or app type_].
  rewrite Ht. cbn [negb Z.eqb VIRTIO_BLK_T_IN]. rewrite (proj2 (Z.ltb_ge _ _)) by lia.
  destruct (fill_requests_total bufs (mem s) 0) as [[m t] Ef].
  { destruct Hp as [Hp _]. apply Forall_cons in Hp as [_ [Hp _]%Forall_app]. rewrite Forall_forall in Hp, Hb. apply Forall_forall.
    intros d' Hd'. destruct (Hp d' Hd' (proj1 (Hb d' Hd'))) as (? & ? & _). done. }
  rewrite Ef. cbn [rbind].
  apply fill_requests_spec in Ef as (Hm & _ & Hlen'). rewrite Hlen' by lia.
  cbn [mem status_addr response_ok r_status r_len]. destruct (write_obj m _ _) as [m'|] eqn:Ew; [|discriminate].
  intros E. apply rbind_Ok_inv in E as (s2 & E2 & E). injection E as <- <-.
  pose proof E2 as E2'. apply return_chain_spec in E2 as (Hu2 & _). cbn [mem set_mem] in Hu2.
  apply write_obj_spec in Ew as [Hw' _]. split_and!; [by rewrite E2'| |].
  - rewrite Hu2, Hw' by done. change (zlen [_]) with 1. rewrite decide_True by lia. by rewrite Z.sub_diag.
  - intros x Hx Hxr. rewrite Hu2, Hw' by done. change (zlen [_]) with 1. rewrite decide_False by lia. apply Hm.
Qed.

(** ** A flat memory *)

(** One region that starts at address 0. *)
Abbreviation FlatMemory := (list byte).
Definition flat_write (m : FlatMemory) (a : Z) (d : list byte) : option FlatMemory :=
  if (0 <=? a) && (a + zlen d <=? zlen m) && (a <? zlen m) then Some (put a d m) else None.

#[export] Instance flat_memory : GuestMemory FlatMemory := {
  byte_at m x := if 0 <=? x then m !! Z.to_nat x else None;
  read_obj m a n := if 0 <=? a then get_range m a (a + n) else None;
  write_obj := flat_write;
  slice_copy_from := flat_write;
}.

Lemma flat_write_written m m' a d :
  flat_write m a d = Some m' -> written m m' a d /\ zlen m' = zlen m.
Proof.
  unfold flat_write. destruct (Z.leb_spec 0 a), (Z.leb_spec (a + zlen d) (zlen m)), (Z.ltb_spec a (zlen m));
    simpl; try done. intros [= <-]. pose proof (zlen_nonneg d) as Hd. split; [|rewrite zlen_put by lia; lia].
  intros x. simpl. unfold put. replace (Z.to_nat (a - zlen m)) with O by lia. simpl.
  destruct (Z.leb_spec 0 x); [|by rewrite decide_False by lia].
  assert (length (ztake a m) = Z.to_nat a) as Hta by (unfold ztake, zlen in *; rewrite length_take; lia).
  unfold zlen in *. destruct (decide _) as [Hx|Hx].
  - rewrite lookup_app_r, lookup_app_l by lia. f_equal. lia.
  - destruct (decide (x < a)).
    + rewrite lookup_app_l by lia. unfold ztake. by apply lookup_take_lt; lia.
    + rewrite lookup_app_r, lookup_app_r by lia. unfold zdrop. rewrite lookup_drop. f_equal. lia.
Qed.

#[export] Instance flat_laws : GuestMemoryLaws FlatMemory.
Proof.
  refine {| in_region m a n := 0 <= a < zlen m /\ a + n <= zlen m |}.
  - intros m a n d. simpl. destruct (Z.leb_spec 0 a); [|done]. intros Hg.
    apply get_range_Some_inv in Hg as (pre & post & -> & Hpre & Hn); [|done]. split; [lia|].
    intros i Hi. rewrite (proj2 (Z.leb_le _ _)) by lia. unfold zlen in *.
    rewrite lookup_app_r, lookup_app_l by lia. f_equal. lia.
  - intros m m' a d Hw. apply flat_write_written in Hw as [Hw Hl]. split; [done|]. intros b n. by rewrite Hl.
  - intros m m' a d Hw. apply flat_write_written in Hw as [Hw Hl]. split; [done|]. intros b n. by rewrite Hl.
  - intros m a d Ha. simpl. unfold flat_write.
    rewrite !(proj2 (Z.leb_le _ _)), (proj2 (Z.ltb_lt _ _)) by lia. by eexists.
  - intros m a d Ha. simpl. unfold flat_write.
    rewrite !(proj2 (Z.leb_le _ _)), (proj2 (Z.ltb_lt _ _)) by lia. by eexists.
Defined.

(** A queue of four chains with its used ring at address 32: flags, the index,
    the elements, and the index for kicks.  Indexes are kept modulo [2 ^ 16]. *)
Definition RING : Z := 32.
Definition flat_add_used (m : FlatMemory) (h l : Z) : option FlatMemory :=
  if (0 <=? h) && (h <? 4) then
    d ← get_range m (RING + 2) (RING + 4);
    let idx := le_val d in
    m ← flat_write m (RING + 4 + 8 * (idx mod 4)) (le_bytes 4 h ++ le_bytes 4 l);
    flat_write m (RING + 2) (le_bytes 2 (idx + 1))
  else None.
#[export] Instance flat_queue : Virtqueue FlatMemory := {
  queue_size := 4;
  add_used := flat_add_used;
  enable_notification m := flat_write m (RING + 36) [x00; x00];
}.

Lemma flat_write_ring m m' a d :
  RING <= a -> a + zlen d <= RING + 38 -> flat_write m a d = Some m' ->
  (forall x, ~ RING <= x < RING + 38 -> byte_at m' x = byte_at m x) /\ zlen m' = zlen m.
Proof.
  intros Ha Hd Hw. apply flat_write_written in Hw as [Hw Hl]. split; [|done].
  intros x Hx. rewrite Hw, decide_False; [done|lia].
Qed.

(** The offsets of the ring, with the lengths of what is written. *)
Ltac ring_bounds := unfold RING in *; unfold zlen in *; simpl length; lia.

#[export] Instance flat_queue_laws : VirtqueueLaws FlatMemory.
Proof.
  refine {| used_area x := RING <= x < RING + 38; ring_placed m := RING + 38 <= zlen m |}.
  - intros m m' Hr Hp. apply (Hr RING 38). unfold in_region, RING in *. simpl. lia.
  - intros m m' h l. cbn [add_used flat_queue]. unfold flat_add_used. destruct (_ && _); [|done].
    destruct (get_range _ _ _) as [d|]; [|done]. cbn [mbind option_bind].
    destruct (flat_write m _ _) as [m1|] eqn:E1; [|done]. cbn [mbind option_bind]. intros E2.
    pose proof (Z.mod_pos_bound (le_val d) 4 ltac:(lia)) as Hi.
    apply flat_write_ring in E1 as [H1 L1]; [|unfold RING; lia|ring_bounds].
    apply flat_write_ring in E2 as [H2 L2]; [|ring_bounds|ring_bounds].
    split; [intros x Hx; by rewrite H2, H1|]. intros b n. unfold in_region. simpl. by rewrite L2, L1.
  - intros m m' E. simpl in E. apply flat_write_ring in E as [H1 L1]; [|ring_bounds|ring_bounds].
    split; [done|]. intros b n. unfold in_region. simpl. by rewrite L1.
  - intros m h l Hp Hh. cbn [add_used flat_queue queue_size] in *. unfold flat_add_used.
    rewrite (proj2 (Z.leb_le _ _)), (proj2 (Z.ltb_lt _ _)) by lia. cbn [andb]. unfold get_range.
    rewrite !(proj2 (Z.leb_le _ _)) by (unfold RING in *; lia). cbn [andb mbind option_bind].
    set (idx := le_val _). pose proof (Z.mod_pos_bound idx 4 ltac:(lia)) as Hi.
    assert (forall m1 a d, RING <= a -> a + zlen d <= RING + 38 -> 0 < zlen d -> RING + 38 <= zlen m1 ->
      is_Some (flat_write m1 a d)) as Hok.
    { intros m1 a d H1 H2 H3 H4. unfold flat_write, RING in *.
      rewrite !(proj2 (Z.leb_le _ _)), (proj2 (Z.ltb_lt _ _)) by lia. by eexists. }
    destruct (Hok m (RING + 4 + 8 * (idx mod 4)) (le_bytes 4 h ++ le_bytes 4 l)) as [m1 E1];
      [ring_bounds..|done|].
    rewrite E1. cbn [mbind option_bind]. apply flat_write_written in E1 as [_ L1].
    apply Hok; [ring_bounds..|lia].
  - intros m Hp. simpl in *. unfold flat_write, RING in *. change (zlen [_; _]) with 2.
    rewrite !(proj2 (Z.leb_le _ _)), (proj2 (Z.ltb_lt _ _)) by lia. by eexists.
Defined.

Definition example_vub (m : FlatMemory) : VhostUserService FlatMemory :=
  {| mem := m; metrics := {| reads := 0; segments := 0; notifications_skipped := 0 |}; event_idx := false |}.
Definition head_at (a : Z) : Descriptor := {| addr := a; len := 16; is_write_only := false; has_next := true |}.
Definition buffer_at (a n : Z) : Descriptor := {| addr := a; len := n; is_write_only := true; has_next := true |}.
Definition status_at (a : Z) : Descriptor := {| addr := a; len := 1; is_write_only := true; has_next := false |}.
Definition example_guest : FlatMemory := replicate 72 x00.

Lemma vub_read_served_witness :
  exists s', process_queue [{| head_index := 3; descs := [head_at 0; buffer_at 16 4; status_at 20] |}] []
      (example_vub example_guest) = Ok (s', [(3, 4)]) /\
    byte_at (mem s') 20 = Some x00 /\ byte_at (mem s') 17 = Some x2a.
Proof.
  destruct (vub_read_served (example_vub example_guest) [] 3 (head_at 0) [buffer_at 16 4] (status_at 20)
    (replicate 16 x00)) as (s' & E & Hs & Hm).
  - reflexivity.
  - vm_compute. reflexivity.
  - vm_compute. reflexivity.
  - repeat constructor.
  - reflexivity.
  - reflexivity.
  - simpl. lia.
  - simpl. unfold RING. lia.
  - vm_compute. discriminate.
  - split; [repeat constructor; simpl; unfold zlen; simpl; lia|simpl; lia].
  - exists s'. split; [exact E|]. split; [exact Hs|]. rewrite (Hm 17); [vm_compute; reflexivity|discriminate|].
    simpl. unfold RING. lia.
Defined.

(** A buffer outside the memory stops the device. *)
Example guest_stops_device :
  process_queue [{| head_index := 3; descs := [head_at 0; buffer_at 4096 4; status_at 20] |}] []
    (example_vub example_guest) = Panic.
Proof. reflexivity. Qed.

(** A write request whose status descriptor is empty: a byte behind its end is
    written, which the guest did not offer. *)
Example empty_status_written :
  let chain := [head_at 0; {| addr := 20; len := 0; is_write_only := true; has_next := false |}] in
  exists s' used, process_queue [{| head_index := 3; descs := chain |}] [] (example_vub (x01 :: replicate 71 x00)) = Ok (s', used) /\
    byte_at (x01 :: replicate 71 x00) 20 = Some x00 /\ byte_at (mem s') 20 = Some x02.
Proof. do 2 eexists. split; [vm_compute; reflexivity|]. split; vm_compute; reflexivity. Qed.
