(* ===== verification/VubMain.v ===== *)
(** The program of the vhost-user block device (src/pevub/src/main.rs, [main] and
    the backend's small calls): its start, and a session in which the daemon of
    vhost_user_backend delivers the guest's kicks and the calls of the frontend.

    The file lifts what [Vub] proves of one queue to a whole session.  The socket,
    the event descriptor and the daemon are parameters that can fail; the bytes of
    the configuration are those of the C structure. *)
From stdpp Require Import option base list sets numbers strings gmap.
From Stdlib Require Import ZArith Lia.
From S2P Require Import Prelude MemFile BTree Vub.
#[local] Open Scope Z_scope.
#[local] Open Scope result_scope.

(** [VhostUserProtocolFeatures::CONFIG] *)
Definition protocol_features : Z := Z.shiftl 1 9.

Section main.
Context {M : Type} `{GuestMemory M} `{Virtqueue M}.

(** The memory is shared with the daemon, which has replaced it already. *)
Definition update_memory (s : VhostUserService M) : VhostUserService M := s.

(** [try_clone] of the event descriptor *)
Definition exit_event (try_clone : bool) : option unit := if try_clone then Some tt else None.

(** What the daemon calls: an event on the queue with what the passes over it find,
    and the messages of the frontend. *)
Inductive DaemonEvent :=
  | Kick (is_in : bool) (rounds : list Round)
  | SetEventIdx (enabled : bool)
  | GetConfig (offset size : Z)
  | SetConfig (offset : Z) (buf : list byte).

(** The device, its queue, its configuration and the answers so far. *)
Record Session := {
  service : VhostUserService M; vring : Vring; config_bytes : list byte; answers : list (list byte);
}.

Definition daemon_step (feature : bool) (ev : DaemonEvent) (x : Session) : result VubError Session :=
  match ev with
  | Kick is_in rounds =>
      let? '(s, v) := handle_event is_in rounds (vring x) (service x) in
      Ok {| service := s; vring := v; config_bytes := config_bytes x; answers := answers x |}
  | SetEventIdx b =>
      Ok {| service := set_event_idx feature b (service x); vring := vring x; config_bytes := config_bytes x;
            answers := answers x |}
  | GetConfig offset size =>
      Ok {| service := service x; vring := vring x; config_bytes := config_bytes x;
            answers := answers x ++ [get_config (config_bytes x) offset size] |}
  | SetConfig offset buf =>
      Ok {| service := service x; vring := vring x; config_bytes := set_config (config_bytes x) offset buf;
            answers := answers x |}
  end.

Fixpoint daemon_run (feature : bool) (evs : list DaemonEvent) (x : Session) : result VubError Session :=
  match evs with
  | [] => Ok x
  | ev :: evs => let? x := daemon_step feature ev x in daemon_run feature evs x
  end.

(** An error is the exit code; a failed [unwrap] is a panic, and so is a panic of
    the thread of the daemon, which poisons the lock that [main] takes at its end. *)
Definition pevub_main (feature : bool) (as_slice : VirtioBlockConfig -> list byte)
    (eventfd_ok listener_ok daemon_ok start_ok : bool) (m : M) (args : list bstr) (evs : list DaemonEvent)
    : result Z Session :=
  let? socket := expect (args !! 1%nat) in
  let? config := match main_config with Ok c => Ok c | _ => Panic end in
  if negb eventfd_ok then Panic else
  if negb listener_ok then Panic else
  if negb daemon_ok then Panic else
  if negb start_ok then Err 1 else
  let backend := {| mem := m; metrics := {| reads := 0; segments := 0; notifications_skipped := 0 |};
                    event_idx := false |} in
  match daemon_run feature evs {| service := backend; vring := {| used_ring := []; signals := O |};
                                  config_bytes := as_slice config; answers := [] |} with
  | Ok x => Ok x
  | _ => Panic
  end.
End main.
Arguments Session : clear implicits.

(** * Lemmas *)

(** What the device takes: with event indexes all passes up to one that finds
    nothing, else the first. *)
Fixpoint until_empty (rounds : list Round) : list Round :=
  match rounds with
  | [] => []
  | r :: rounds => match found r with [] => [] | _ => r :: until_empty rounds end
  end.
Definition taken (event_idx is_in : bool) (rounds : list Round) : list Round :=
  if negb is_in then [] else if event_idx then until_empty rounds else until_empty (take 1 rounds).

(** The same over the events of a session, and the chains in it. *)
Fixpoint session_rounds (feature event_idx : bool) (evs : list DaemonEvent) : list Round :=
  match evs with
  | [] => []
  | Kick is_in rounds :: evs => taken event_idx is_in rounds ++ session_rounds feature event_idx evs
  | SetEventIdx b :: evs => session_rounds feature (if feature then b else event_idx) evs
  | _ :: evs => session_rounds feature event_idx evs
  end.
Definition chains_of (rounds : list Round) : list Chain := rounds ≫= found.

Section laws.
Context {M : Type} `{VirtqueueLaws M}.
Implicit Types (s : VhostUserService M).

(** What a part of a session did with the chains it took. *)
Record served (chains : list Chain) (used used' : list (Z * Z)) s s' : Prop := {
  sv_used : used'.*1 = used.*1 ++ (head_index <$> chains);
  sv_bytes : confined chains (mem s) (mem s');
  sv_regions : same_regions (mem s) (mem s');
  sv_event_idx : event_idx s' = event_idx s;
}.

Lemma served_ring used s s' :
  confined [] (mem s) (mem s') -> same_regions (mem s) (mem s') -> event_idx s' = event_idx s -> served [] used used s s'.
Proof. intros. split; [by rewrite app_nil_r|done..]. Qed.

Lemma served_nothing used s : served [] used used s s.
Proof. apply served_ring; [by intros x|done|done]. Qed.

Lemma served_trans c1 c2 u1 u2 u3 s1 s2 s3 :
  served c1 u1 u2 s1 s2 -> served c2 u2 u3 s2 s3 -> served (c1 ++ c2) u1 u3 s1 s3.
Proof.
  intros [Hu1 Hb1 Hr1 He1] [Hu2 Hb2 Hr2 He2]. split.
  - by rewrite Hu2, Hu1, fmap_app, <-app_assoc.
  - by eapply confined_trans.
  - intros b n. by rewrite (Hr2 b n), (Hr1 b n).
  - congruence.
Qed.

Lemma process_queue_served chains used s s' used' :
  process_queue chains used s = Ok (s', used') -> served chains used used' s s'.
Proof. intros E. apply process_queue_confined in E as (? & ? & ? & ?). by split. Qed.

Lemma enable_served used s s' : enable s = Ok s' -> served [] used used s s'.
Proof.
  unfold enable. destruct (enable_notification _) as [m|] eqn:E; [|done]. intros [= <-].
  apply enable_spec in E as [Hm Hr]. apply served_ring; [by apply confined_ring|done|done].
Qed.

(** A pass over the queue can be made: its chains lie in the memory and have
    indexes of the queue, and the notification succeeds. *)
Definition round_placed (m : M) (r : Round) : Prop :=
  Forall (chain_placed m) (found r) /\ is_Some (needs r) /\ signal_ok r = true.
Definition placed (m : M) (rounds : list Round) : Prop := ring_placed m /\ Forall (round_placed m) rounds.

Lemma placed_regions m m' rounds : same_regions m m' -> placed m rounds -> placed m' rounds.
Proof.
  intros Hr [Hp Hf]. split; [by eapply ring_placed_regions|]. eapply Forall_impl; [exact Hf|].
  intros r (Hc & Hn & Hs). split; [|done]. eapply Forall_impl; [exact Hc|]. intros c. by apply chain_placed_regions.
Qed.

Lemma notify_total m r v : round_placed m r -> exists x, notify r v = Ok x.
Proof. intros (_ & [b Hb] & Hs). unfold notify. rewrite Hb, Hs. destruct b; by eexists. Qed.

Lemma notify_used r v x : notify r v = Ok x -> used_ring x.2 = used_ring v.
Proof. unfold notify. destruct (needs r) as [[|]|]; [destruct (signal_ok r)|..]; by intros ?; simplify_eq. Qed.

Lemma enable_total s rounds : placed (mem s) rounds -> exists s', enable s = Ok s' /\ placed (mem s') rounds.
Proof.
  intros Hp. unfold enable. destruct (enable_ok (mem s) (proj1 Hp)) as [m Em]. rewrite Em.
  eexists. split; [done|]. apply enable_spec in Em as [_ Hr]. by eapply placed_regions.
Qed.

Lemma event_idx_loop_served rounds v s s' v' :
  event_idx_loop rounds v s = Ok (s', v') ->
  served (chains_of (until_empty rounds)) (used_ring v) (used_ring v') s s'.
Proof.
  revert v s. induction rounds as [|r rounds IH]; intros v s E; cbn [event_idx_loop] in E;
    apply rbind_Ok_inv in E as (s0 & E0 & E); apply (enable_served (used_ring v)) in E0.
  { by injection E as <- <-. }
  apply rbind_Ok_inv in E as ([s1 used] & E1 & E). cbn [until_empty].
  destruct (found r) as [|c chains] eqn:Hf.
  { simpl in E1. injection E1 as <- <-. by injection E as <- <-. }
  apply process_queue_served in E1. apply rbind_Ok_inv in E as ([nt v1] & Hn & E). apply notify_used in Hn.
  simpl in Hn. apply IH in E. rewrite Hn in E. unfold chains_of in *. cbn [mbind list_bind]. rewrite Hf.
  apply (served_trans [] _ _ (used_ring v) _ _ s0); [done|]. apply (served_trans (c :: chains) _ _ used _ _ s1); [done|].
  destruct nt; [done|]. destruct E as [Hu Hb Hr He]. by split.
Qed.

(** One pass, with its notification. *)
Lemma pass_total r v s rounds :
  placed (mem s) (r :: rounds) -> exists s1 used nt v1,
    process_queue (found r) (used_ring v) s = Ok (s1, used) /\
    notify r {| used_ring := used; signals := signals v |} = Ok (nt, v1) /\ placed (mem s1) rounds.
Proof.
  intros [Hp Hf]. apply Forall_cons in Hf as [Hr Hf].
  destruct (process_queue_total (found r) (used_ring v) s Hp (proj1 Hr)) as [[s1 used] E].
  destruct (notify_total (mem s) r {| used_ring := used; signals := signals v |} Hr) as [[nt v1] En].
  exists s1, used, nt, v1. split_and!; [done..|]. apply process_queue_served in E as [_ _ Hre _].
  by apply (placed_regions (mem s)).
Qed.

Lemma event_idx_loop_total rounds v s :
  placed (mem s) (until_empty rounds) -> exists r, event_idx_loop rounds v s = Ok r.
Proof.
  revert v s. induction rounds as [|r rounds IH]; intros v s Hp; cbn [event_idx_loop];
    destruct (enable_total s _ Hp) as (s0 & -> & Hp0); cbn [rbind]; [by eexists|].
  cbn [until_empty] in Hp0. destruct (found r) as [|c chains] eqn:Hf; [by eexists|].
  destruct (pass_total r v s0 _ Hp0) as (s1 & used & nt & v1 & E & En & Hp1). rewrite Hf in E.
  rewrite E. cbn [rbind]. rewrite En. cbn [rbind]. apply IH. by destruct nt.
Qed.

Lemma handle_event_served is_in rounds v s s' v' :
  handle_event is_in rounds v s = Ok (s', v') ->
  served (chains_of (taken (event_idx s) is_in rounds)) (used_ring v) (used_ring v') s s'.
Proof.
  unfold handle_event, taken. destruct is_in; simpl; [|intros [= <- <-]; apply served_nothing].
  destruct (event_idx s) eqn:Ee; [apply event_idx_loop_served|].
  destruct rounds as [|r rounds]; [intros [= <- <-]; apply served_nothing|].
  intros E. apply rbind_Ok_inv in E as ([s1 used] & E1 & E). cbn [take until_empty].
  destruct (found r) as [|c chains] eqn:Hf.
  { simpl in E1. injection E1 as <- <-. injection E as <- <-. apply served_nothing. }
  apply process_queue_served in E1. apply rbind_Ok_inv in E as ([nt v1] & Hn & [= <- <-]).
  apply notify_used in Hn. simpl in Hn. rewrite Hn. unfold chains_of. cbn [mbind list_bind]. by rewrite Hf, app_nil_r.
Qed.

Lemma handle_event_total is_in rounds v s :
  placed (mem s) (taken (event_idx s) is_in rounds) -> exists r, handle_event is_in rounds v s = Ok r.
Proof.
  unfold handle_event, taken. destruct is_in; simpl; [|by eexists].
  destruct (event_idx s); [apply event_idx_loop_total|]. destruct rounds as [|r rounds]; [by eexists|].
  cbn [take until_empty]. destruct (found r) as [|c chains] eqn:Hf; [by eexists|]. intros Hp.
  destruct (pass_total r v s _ Hp) as (s1 & used & nt & v1 & E & En & _). rewrite Hf in E.
  rewrite E. cbn [rbind]. rewrite En. by eexists.
Qed.

Lemma daemon_run_served feature evs (x x' : Session M) :
  daemon_run feature evs x = Ok x' ->
  served (chains_of (session_rounds feature (event_idx (service x)) evs)) (used_ring (vring x)) (used_ring (vring x'))
    (service x) {| mem := mem (service x'); metrics := metrics (service x'); event_idx := event_idx (service x) |} /\
  config_bytes x' = config_bytes x.
Proof.
  revert x. induction evs as [|ev evs IH]; intros x E; cbn [daemon_run] in E.
  { injection E as <-. split; [|done]. apply served_ring; [by intros a|done|done]. }
  apply rbind_Ok_inv in E as (x1 & E1 & E). apply IH in E as [Hs Hc2]. cbn [session_rounds].
  destruct ev as [is_in rounds|b|offset size|offset buf]; simpl in E1.
  - apply rbind_Ok_inv in E1 as ([s v] & E1 & [= <-]). apply handle_event_served in E1 as Hs1. simpl in *.
    rewrite (sv_event_idx _ _ _ _ _ Hs1) in Hs. split; [|done]. unfold chains_of in *. rewrite bind_app.
    by eapply served_trans.
  - injection E1 as <-. simpl in *. destruct feature; simpl in *; [|by split].
    split; [|done]. destruct Hs as [Hu Hb Hr He]. by split.
  - injection E1 as <-. by split.
  - injection E1 as <-. by split.
Qed.

Lemma daemon_run_total feature evs (x : Session M) :
  placed (mem (service x)) (session_rounds feature (event_idx (service x)) evs) ->
  exists x', daemon_run feature evs x = Ok x'.
Proof.
  revert x. induction evs as [|ev evs IH]; intros x Hp; simpl; [by eexists|].
  destruct ev as [is_in rounds|b|offset size|offset buf]; simpl in Hp |- *; [|by apply IH; destruct feature..].
  destruct Hp as [Hring [Hp1 Hp2]%Forall_app].
  destruct (handle_event_total is_in rounds (vring x) (service x)) as [[s v] E]; [done|]. rewrite E. cbn [rbind].
  apply handle_event_served in E as [_ _ Hr He]. apply IH. simpl. rewrite He. by eapply placed_regions.
Qed.
End laws.

(** * Properties *)


(** A read request and a question for the configuration. *)
Definition example_events : list DaemonEvent :=
  [GetConfig VHOST_USER_CONFIG_OFFSET 2;
   Kick true [{| found := [{| head_index := 3; descs := [head_at 0; buffer_at 16 4; status_at 20] |}];
                 needs := Some true; signal_ok := true |}]].

