(* ===== verification/Admission.v ===== *)
(** The load balancer in front of a worker (src/peserver/src/lb.rs,
    src/peserver/src/worker.rs).

    A worker starts with a pool of threads for its sets of cores and tells the
    balancer how many requests it takes, twice the number of threads; the
    balancer adds that many permits and forwards a request only with a permit.
    The file models the start of the worker, the exchange of the capacity, and
    the two state machines ([LoadBalancer], [VmPool]) together: what the
    balancer forwards the pool has room for, unless clients went away or the
    threads ended. *)
From stdpp Require Import option base list sets numbers strings gmap.
From Stdlib Require Import ZArith Lia.
From S2P Require Import Prelude MemFile BTree Paths Text IoFile RuntimeSpec Run LoadBalancer VmPool.
#[local] Open Scope Z_scope.
#[local] Open Scope result_scope.

(** * Starting a worker *)

Definition parse_cpuset_colon (x : bstr) : option (Z * Z * Z) :=
  match split x3a x with
  | a :: b :: c :: _ => a ← parse_uint 64 a; b ← parse_uint 64 b; c ← parse_uint 64 c; Some (a, b, c)
  | _ => None
  end.

Definition parse_cpuset_range (x : bstr) : option (Z * option Z) :=
  match split x2d x with
  | [] => None
  | a :: parts =>
      a ← parse_uint 64 a;
      match parts with
      | [] | [] :: _ => Some (a, None)
      | b :: _ => b ← parse_uint 64 b; Some (a, Some b)
      end
  end.

(** The part of [main] that makes the pool: the cores of the server, the pool and
    the number of connections that is announced.  [is_set] and [count] are the
    affinity of the process. *)
Definition start_worker (is_set : Z -> bool) (count : Z) (server_cpuset worker_cpuset : bstr)
    : result Empty_set (gset Z * Pool * Z) :=
  let? '(begin, end_) := expect (parse_cpuset_range server_cpuset) in
  let? server := expect (cpuset_range is_set count begin end_) in
  let? '(offset, workers, cores_per) := expect (parse_cpuset_colon worker_cpuset) in
  let? sets := expect (cpuset is_set offset workers cores_per) in
  Ok (server, Pool_new (length sets), wmul 64 (zlen sets) 2).

(** * Asking for the capacity *)

(** What the balancer gets back: the status and the body as it is read. *)
Record ClientResponse := { c_status : Z; c_body : list (option bstr) }.

Fixpoint read_full_client_response_body (chunks : list (option bstr)) (acc : bstr) : option bstr :=
  match chunks with
  | [] => Some acc
  | Some bytes :: chunks => read_full_client_response_body chunks (acc ++ bytes)
  | None :: _ => None
  end.

Section maxconn.
Context (from_utf8_lossy : bstr -> bstr).

(** [None] stands for a connection that cannot be made and for every error. *)
Definition get_max_conn (answer : option ClientResponse) : option Z :=
  res ← answer;
  if negb (c_status res =? 200) then None
  else body ← read_full_client_response_body (c_body res) [];
       parse_uint 64 (from_utf8_lossy body).

(** The attempts of [start] for one worker; [exchange n] is the answer to the
    [n]th. *)
Fixpoint ask_worker (exchange : nat -> option ClientResponse) (n attempts : nat) : option Z :=
  match attempts with
  | O => None
  | S attempts =>
      match get_max_conn (exchange n) with
      | Some max_conn => Some max_conn
      | None => ask_worker exchange (S n) attempts
      end
  end.

(** [BackgroundService::start]: the permits that are added, worker by worker. *)
Definition start (exchange : nat -> nat -> option ClientResponse) (workers : nat) : list Event :=
  omap (fun w => MaxConn w <$> ask_worker (exchange w) 0 20) (seq 0 workers).

(** * The balancer and a worker *)

Record System := {
  balancer : LB;
  pool : Pool;
  jobs : gmap nat nat;  (** the request of the pool that a forwarded request waits for *)
}.

Inductive SysEvent :=
  | Balancer (e : Event)    (** an arrival, a permit, a timeout, another worker's capacity *)
  | Announce (chunks : list (option bstr))  (** this worker's capacity, as it is read *)
  | Handle (id : nat)       (** the worker's handler gives the request to the pool *)
  | Thread (e : PoolEvent)  (** a thread starts, takes a request, ends a run or panics *)
  | Reply (id : nat)        (** the handler has answered, with an error if the run panicked *)
  | Disconnect (id : nat).  (** the client is gone, and with it the handler *)

Section system.
Context (arch_try_from : bstr -> option OciImage.Arch) (os_try_from : bstr -> option OciImage.Os).
Context (max_conn : Z).

#[local] Abbreviation handle := (handle arch_try_from os_try_from).

Definition set_balancer (b : LB) (s : System) : System :=
  {| balancer := b; pool := pool s; jobs := jobs s |}.

(** The end of a forwarded request gives its permits back. *)
Definition end_request (id : nat) (p : Pool) (s : System) : option System :=
  match open (balancer s) !! id with
  | Some (Forwarded O) =>
      '(b, _) ← handle (balancer s) (LoadBalancer.Finish id);
      Some {| balancer := b; pool := p; jobs := delete id (jobs s) |}
  | _ => None
  end.

(** The second component says whether a request was refused by the pool, for
    which the worker answers 503. *)
Definition sys_step (s : System) (e : SysEvent) : option (System * bool) :=
  match e with
  | Balancer (LoadBalancer.Finish id) =>
      match open (balancer s) !! id with
      | Some (Forwarded O) => None
      | _ => '(b, _) ← handle (balancer s) (LoadBalancer.Finish id); Some (set_balancer b s, false)
      end
  | Balancer (MaxConn O _) => None
  | Balancer e => '(b, _) ← handle (balancer s) e; Some (set_balancer b s, false)
  | Announce chunks =>
      let res := Worker.api_internal_max_conn max_conn in
      if bool_decide (read_full_client_response_body chunks [] = Some (Worker.body res)) then
        n ← get_max_conn (Some {| c_status := Worker.status res; c_body := chunks |});
        '(b, _) ← handle (balancer s) (MaxConn 0 n);
        Some (set_balancer b s, false)
      else None
  | Handle id =>
      match open (balancer s) !! id, jobs s !! id with
      | Some (Forwarded O), None =>
          '(p, accepted) ← pool_step (pool s) Submit;
          if accepted : bool
          then Some ({| balancer := balancer s; pool := p; jobs := <[id := submitted (pool s)]> (jobs s) |}, false)
          else Some (s, true)
      | _, _ => None
      end
  | Thread Submit | Thread (Abandon _) => None
  | Thread e =>
      '(p, _) ← pool_step (pool s) e;
      Some ({| balancer := balancer s; pool := p; jobs := jobs s |}, false)
  | Reply id =>
      match jobs s !! id with
      | Some r => if bool_decide (r ∈ settled (pool s))
                  then s ← end_request id (pool s) s; Some (s, false) else None
      | None => s ← end_request id (pool s) s; Some (s, false)
      end
  | Disconnect id =>
      p ← match jobs s !! id with
          | Some r => if bool_decide (r ∈ settled (pool s)) then Some (pool s)
                      else '(p, _) ← pool_step (pool s) (Abandon r); Some p
          | None => Some (pool s)
          end;
      s ← end_request id p s; Some (s, false)
  end.

Inductive sys_reachable (peers : list Peer) (cores : nat) : System -> Prop :=
  | sys_init : sys_reachable peers cores {| balancer := LB_new peers; pool := Pool_new cores; jobs := ∅ |}
  | sys_next s e s' refused :
      sys_reachable peers cores s -> sys_step s e = Some (s', refused) -> sys_reachable peers cores s'.

Fixpoint sys_run (s : System) (es : list SysEvent) : option System :=
  match es with [] => Some s | e :: es => '(s, _) ← sys_step s e; sys_run s es end.
End system.
End maxconn.

(** * Lemmas *)

(** The permits of worker 0 as the events leave them. *)
Definition granted_ok (cores : nat) (b : LB) : Prop :=
  forall g, granted b !! 0%nat = Some g -> g <= 2 * Z.of_nat cores /\ (next_worker b = 0%nat -> g = 0).

Record sys_ok (cores : nat) (s : System) : Prop := {
  ok_workers : workers (balancer s) <> [];
  ok_permits : permits_ok (balancer s);
  ok_pool : pool_ok cores (pool s);
  ok_granted : granted_ok cores (balancer s);
  ok_jobs : forall id r, jobs s !! id = Some r -> open (balancer s) !! id = Some (Forwarded 0);
  (** a request in the pool has a handler that waits for it, or was abandoned *)
  ok_awaited : forall r, r ∈ queue (pool s) ++ busy (pool s) ->
    r ∈ abandoned (pool s) \/ exists id, jobs s !! id = Some r;
}.

(** What an event of the pool does to the requests that are in it. *)
Lemma pool_step_in_flight s e s' b :
  pool_step s e = Some (s', b) ->
  (forall r, r ∈ queue s' ++ busy s' -> r ∈ queue s ++ busy s \/ e = Submit /\ b = true /\ r = submitted s) /\
  (forall r, r ∈ abandoned s' <-> r ∈ abandoned s \/ e = Abandon r).
Proof.
  destruct e as [|r0|t ok|t|t|t|]; simpl.
  - destruct (_ && _); intros [= <- <-]; (split; [|naive_solver]); simpl; [|naive_solver].
    intros r. change (busy _) with (busy s). rewrite !elem_of_app, list_elem_of_singleton. naive_solver.
  - destruct (_ && _); [|done]. intros [= <- <-]. split; [naive_solver|]. simpl.
    intros r. rewrite elem_of_cons. naive_solver.
  - destruct (threads s !! t) as [[| | |]|] eqn:Ht; try done. intros [= <- <-]. split; [|naive_solver].
    intros r Hr. left. destruct (insert_split _ t Starting (if ok then Idle else Gone) Ht) as (rest & Hr1 & Hr2).
    revert Hr. unfold busy. simpl. rewrite Hr2, Hr1. by destruct ok.
  - destruct (threads s !! t) as [[| | |]|] eqn:Ht; try done. destruct (queue s) as [|r0 q] eqn:Hq; [done|].
    intros [= <- <-]. split; [|naive_solver]. intros r Hr. left.
    destruct (insert_split _ t Idle (Busy r0) Ht) as (rest & Hr1 & Hr2). revert Hr.
    unfold busy. simpl. rewrite Hr2, Hr1. simpl. set_solver.
  - destruct (threads s !! t) as [[| |r0|]|] eqn:Ht; try done. case_bool_decide; intros [= <- <-];
      (split; [|naive_solver]); intros r Hr; left; revert Hr; unfold busy; simpl.
    + destruct (insert_split _ t (Busy r0) Gone Ht) as (rest & Hr1 & Hr2). rewrite Hr2, Hr1. simpl. set_solver.
    + destruct (insert_split _ t (Busy r0) Idle Ht) as (rest & Hr1 & Hr2). rewrite Hr2, Hr1. simpl. set_solver.
  - destruct (threads s !! t) as [[| |r0|]|] eqn:Ht; try done. intros [= <- <-].
    split; [|naive_solver]. intros r Hr. left. revert Hr. unfold busy. simpl.
    destruct (insert_split _ t (Busy r0) Gone Ht) as (rest & Hr1 & Hr2). rewrite Hr2, Hr1. simpl. set_solver.
  - destruct (_ =? _)%nat; [|done]. intros [= <- <-]. split; [|naive_solver]. intros r Hr. left.
    apply elem_of_app. by right.
Qed.

#[local] Arguments LoadBalancer.handle : simpl never.
#[local] Arguments pool_step : simpl never.
#[local] Arguments get_max_conn : simpl never.

Section system_lemmas.
Context (arch_try_from : bstr -> option OciImage.Arch) (os_try_from : bstr -> option OciImage.Os).
#[local] Abbreviation handle := (handle arch_try_from os_try_from).

(** Only its end takes a request from the forwarded ones. *)
Lemma handle_forwarded b e b' out id :
  handle b e = Some (b', out) -> open b !! id = Some (Forwarded 0) ->
  e <> LoadBalancer.Finish id -> open b' !! id = Some (Forwarded 0).
Proof.
  intros H Ho Hne. destruct e as [i req|i|i|i|w n]; unfold LoadBalancer.handle in H.
  - destruct (open b !! i) eqn:Hi; [done|]. destruct (request_filter _ _ _ req); [by simplify_eq..|].
    destruct (_ =? 0); simplify_eq; [done|]. simpl. rewrite lookup_insert_ne; [done|congruence].
  - destruct (open b !! i) as [[w|w]|] eqn:Hi; [|done..]. destruct (worker_permits b !! w); [|done].
    destruct (_ =? 0); simplify_eq. simpl. rewrite lookup_insert_ne; [done|congruence].
  - destruct (open b !! i) as [[w|w]|] eqn:Hi; [|done..]. simplify_eq. simpl.
    rewrite lookup_delete_ne; [done|congruence].
  - destruct (open b !! i) as [[w|w]|] eqn:Hi; [done| |done]. simplify_eq. simpl.
    rewrite lookup_delete_ne; [done|congruence].
  - destruct (_ && _); by simplify_eq.
Qed.

Lemma handle_workers b e b' out : handle b e = Some (b', out) -> workers b' = workers b.
Proof.
  intros H. destruct e as [i req|i|i|i|w n]; unfold LoadBalancer.handle in H.
  - destruct (open b !! i); [done|]. destruct (request_filter _ _ _ req); [by simplify_eq..|].
    by destruct (_ =? 0); simplify_eq.
  - destruct (open b !! i) as [[w|w]|]; [|done..]. destruct (worker_permits b !! w); [|done].
    by destruct (_ =? 0); simplify_eq.
  - destruct (open b !! i) as [[w|w]|]; [|done..]. by simplify_eq.
  - destruct (open b !! i) as [[w|w]|]; [done| |done]. by simplify_eq.
  - by destruct (_ && _); simplify_eq.
Qed.

Lemma handle_granted cores b e b' out :
  handle b e = Some (b', out) -> granted_ok cores b ->
  (forall n, e = MaxConn 0 n -> n = 2 * Z.of_nat cores) -> granted_ok cores b'.
Proof.
  intros H Hg He. destruct e as [i req|i|i|i|w n]; unfold LoadBalancer.handle in H.
  - destruct (open b !! i); [done|]. destruct (request_filter _ _ _ req); [by simplify_eq..|].
    by destruct (_ =? 0); simplify_eq.
  - destruct (open b !! i) as [[w|w]|]; [|done..]. destruct (worker_permits b !! w); [|done].
    by destruct (_ =? 0); simplify_eq.
  - destruct (open b !! i) as [[w|w]|]; [|done..]. by simplify_eq.
  - destruct (open b !! i) as [[w|w]|]; [done| |done]. by simplify_eq.
  - destruct (_ && _) eqn:E; [|done]. simplify_eq. apply andb_true_iff in E as [E _].
    apply bool_decide_eq_true in E. intros g Hl. simpl in *.
    apply add_worker_lookup in Hl as (g0 & Hg0 & ->). destruct (Hg _ Hg0) as [Hle H0]. split; [|done].
    case_decide as Hw; [|lia]. subst w. rewrite (He n eq_refl), H0; lia.
Qed.

(** The number arrives as the worker sent it. *)
Lemma get_max_conn_announced from_utf8_lossy max_conn chunks :
  0 <= max_conn < 2 ^ 64 ->
  from_utf8_lossy (print_uint max_conn) = print_uint max_conn ->
  read_full_client_response_body chunks [] = Some (print_uint max_conn) ->
  get_max_conn from_utf8_lossy (Some {| c_status := 200; c_body := chunks |}) = Some max_conn.
Proof.
  intros Hm Hl Hc. unfold get_max_conn. simpl. rewrite Hc. simpl. rewrite Hl. by apply parse_print.
Qed.

(** The requests that handlers wait for are forwarded requests, so there is one
    more of those while a handler is at the queue. *)
Lemma jobs_below s id :
  (forall i r, jobs s !! i = Some r -> open (balancer s) !! i = Some (Forwarded 0)) ->
  open (balancer s) !! id = Some (Forwarded 0) -> jobs s !! id = None ->
  Z.of_nat (size (jobs s)) + 1 <= forwarded 0 (open (balancer s)).
Proof.
  intros Hj Ho Hn. unfold forwarded. rewrite <-!size_dom.
  assert (dom (jobs s) ⊂ dom (filter (fun p => p.2 = Forwarded 0) (open (balancer s)))) as Hs.
  { split.
    - intros i [r Hi]%elem_of_dom. apply elem_of_dom. exists (Forwarded 0).
      apply map_lookup_filter_Some. split; [by eapply Hj|done].
    - intros Hsub. assert (id ∈ dom (jobs s)) as [r Hr]%elem_of_dom; [|congruence].
      apply Hsub, elem_of_dom. exists (Forwarded 0). by apply map_lookup_filter_Some. }
  apply subset_size in Hs. lia.
Qed.

(** The permits of the worker are the capacity it announced. *)
Lemma capacity cores s : sys_ok cores s -> forwarded 0 (open (balancer s)) <= 2 * Z.of_nat cores.
Proof.
  intros [H0 (_ & _ & Hl1 & Hl2 & Hw) _ H3 _ _].
  assert (0 < length (workers (balancer s)))%nat as Hlen by (destruct (workers (balancer s)); [done|simpl; lia]).
  destruct (lookup_lt_is_Some_2 (granted (balancer s)) 0) as [g Hg]; [lia|].
  destruct (lookup_lt_is_Some_2 (worker_permits (balancer s)) 0) as [n Hn]; [lia|].
  destruct (Hw _ _ _ Hn Hg). destruct (H3 _ Hg). lia.
Qed.

(** Requests that are awaited are no more than the handlers. *)
Lemma awaited_bound (l : list nat) (m : gmap nat nat) :
  NoDup l -> (forall r, r ∈ l -> exists id, m !! id = Some r) -> (length l <= size m)%nat.
Proof.
  intros Hnd Hl. rewrite <-length_map_to_list, <-(length_fmap snd).
  apply submseteq_length, NoDup_submseteq; [done|]. intros r [id Hid]%Hl.
  apply list_elem_of_fmap. exists (id, r). split; [done|]. by apply elem_of_map_to_list.
Qed.

Context (from_utf8_lossy : bstr -> bstr) (cores : nat).
Context (Hlossy : forall n, 0 <= n -> from_utf8_lossy (print_uint n) = print_uint n).
Context (Hcores : Z.of_nat cores < 2 ^ 63).
#[local] Abbreviation max_conn := (wmul 64 (Z.of_nat cores) 2).

Lemma max_conn_small : max_conn = 2 * Z.of_nat cores.
Proof. unfold wmul, wrap. rewrite Z.mod_small by lia. lia. Qed.

(** The balancer moves, no forwarded request ends. *)
Lemma balancer_step_ok s e b out :
  sys_ok cores s -> handle (balancer s) e = Some (b, out) ->
  (forall id, e = LoadBalancer.Finish id -> open (balancer s) !! id <> Some (Forwarded 0)) ->
  (forall n, e = MaxConn 0 n -> n = 2 * Z.of_nat cores) -> sys_ok cores (set_balancer b s).
Proof.
  intros [H0 H1 H2 H3 H4 H5] H Hf Hm. split; simpl;
    [by erewrite handle_workers|by eapply permits_ok_step|done|by eapply handle_granted| |done].
  intros id r Hj. eapply handle_forwarded; [exact H|by eapply H4|].
  intros ->. eapply Hf; [done|]. by eapply H4.
Qed.

(** A forwarded request ends; its request in the pool is over or abandoned. *)
Lemma end_request_ok s id p s' :
  sys_ok cores s -> pool_ok cores p ->
  (forall r, r ∈ queue p ++ busy p -> r ∈ queue (pool s) ++ busy (pool s)) ->
  (forall r, r ∈ abandoned (pool s) -> r ∈ abandoned p) ->
  (forall r, jobs s !! id = Some r -> r ∈ queue p ++ busy p -> r ∈ abandoned p) ->
  end_request arch_try_from os_try_from id p s = Some s' -> sys_ok cores s'.
Proof.
  intros [H0 H1 H2 H3 H4 H5] Hp Hq Ha Hr. unfold end_request.
  destruct (open (balancer s) !! id) as [[w|[|w]]|] eqn:Ho; try done.
  destruct (handle (balancer s) (LoadBalancer.Finish id)) as [[b out]|] eqn:E; [|done].
  cbn. intros [= <-]. split; simpl.
  - by erewrite handle_workers.
  - by eapply permits_ok_step.
  - done.
  - by eapply handle_granted.
  - intros i r [Hne Hj]%lookup_delete_Some. eapply handle_forwarded; [exact E|by eapply H4|congruence].
  - intros r Hin. destruct (H5 r (Hq r Hin)) as [?|[i Hi]]; [left; by apply Ha|].
    destruct (decide (i = id)) as [->|Hne]; [left; by eapply Hr|].
    right. exists i. by rewrite lookup_delete_ne by congruence.
Qed.

(** A settled request is not in the pool any more. *)
Lemma settled_over p r : pool_ok cores p -> r ∈ settled p -> r ∈ queue p ++ busy p -> False.
Proof.
  intros Hp Ha Hin. destruct Hp as [_ _ _ Hnd _ _ _ _]. unfold places in Hnd. rewrite app_assoc in Hnd.
  apply NoDup_app in Hnd as (_ & Hd & _). by apply (Hd r).
Qed.

Lemma thread_step_ok s e p b :
  sys_ok cores s -> pool_step (pool s) e = Some (p, b) -> e <> Submit -> (forall r, e <> Abandon r) ->
  sys_ok cores {| balancer := balancer s; pool := p; jobs := jobs s |}.
Proof.
  intros [H0 H1 H2 H3 H4 H5] E Hs Ha. split; simpl; [done|done|by eapply pool_step_ok|done|done|].
  apply pool_step_in_flight in E as [Hq Hab]. intros r Hin. rewrite Hab.
  destruct (Hq r Hin) as [Hr|(? & _)]; [|done]. destruct (H5 r Hr) as [?|?]; [by left; left|by right].
Qed.

Lemma sys_step_ok s e s' refused :
  sys_ok cores s -> sys_step from_utf8_lossy arch_try_from os_try_from max_conn s e = Some (s', refused) ->
  sys_ok cores s'.
Proof.
  intros Hok. pose proof Hok as [H0 H1 H2 H3 H4 H5]. destruct e as [e|chunks|id|e|id|id]; simpl.
  - intros H. assert (exists b out, handle (balancer s) e = Some (b, out) /\ s' = set_balancer b s /\
      (forall id, e = LoadBalancer.Finish id -> open (balancer s) !! id <> Some (Forwarded 0)) /\
      (forall n, e <> MaxConn 0 n)) as (b & out & E & -> & Hf & Hm);
      [|eapply balancer_step_ok; [done|exact E|done|]; intros n En; by destruct (Hm n)].
    destruct e as [i req|i|i|i|[|w] n]; try done.
    1,2,3,5: destruct (handle (balancer s) _) as [[b out]|] eqn:E; [|done]; injection H as <- _;
      exists b, out; by split_and!.
    destruct (open (balancer s) !! i) as [[w|[|w]]|] eqn:Ho; try done.
    all: destruct (handle (balancer s) _) as [[b out]|] eqn:E; [|done]; injection H as <- _;
      exists b, out; split_and!; [done|done| |done]; intros j [= <-]; by rewrite Ho.
  - case_bool_decide as Hc; [|done]. simpl in Hc.
    rewrite (get_max_conn_announced _ max_conn); [|rewrite max_conn_small; lia|apply Hlossy; rewrite max_conn_small; lia|done].
    cbn. destruct (handle (balancer s) _) as [[b out]|] eqn:E; [|done]. cbn. intros [= <- _].
    eapply balancer_step_ok; [done|exact E|done|]. intros n [= <-]. apply max_conn_small.
  - destruct (open (balancer s) !! id) as [[w|[|w]]|] eqn:Ho; try done. destruct (jobs s !! id) eqn:Hj; [done|].
    destruct (pool_step (pool s) Submit) as [[p [|]]|] eqn:E; cbn [mbind option_bind]; [| |done]; intros [= <- _]; [|done].
    split; simpl; [done|done|by eapply pool_step_ok|done| |].
    + intros i r [[<- _]|[_ Hi]]%lookup_insert_Some; [done|by eapply H4].
    + apply pool_step_in_flight in E as [Hq Hab]. intros r Hin. rewrite Hab.
      destruct (Hq r Hin) as [Hr|(_ & _ & ->)]; [|right; exists id; by rewrite lookup_insert_eq].
      destruct (H5 r Hr) as [?|[i Hi]]; [by left; left|right]. exists i.
      rewrite lookup_insert_ne; [done|congruence].
  - destruct e as [|r|t ok|t|t|t|]; try done; destruct (pool_step (pool s) _) as [[p b]|] eqn:E; try done;
      cbn; intros [= <- _]; by eapply thread_step_ok.
  - destruct (jobs s !! id) as [r|] eqn:Hj; [case_bool_decide as Ha; [|done]|];
      (destruct (end_request _ _ id (pool s) s) as [s1|] eqn:E; [|done]); cbn; intros [= <- _];
      eapply end_request_ok in E; try done.
    + intros r'. rewrite Hj. intros [= <-] Hin. by destruct (settled_over _ _ H2 Ha Hin).
    + intros r'. by rewrite Hj.
  - destruct (jobs s !! id) as [r|] eqn:Hj; [case_bool_decide as Ha|].
    + cbn. destruct (end_request _ _ id (pool s) s) as [s1|] eqn:E; [|done]. cbn. intros [= <- _].
      eapply end_request_ok in E; try done.
      intros r'. rewrite Hj. intros [= <-] Hin. by destruct (settled_over _ _ H2 Ha Hin).
    + destruct (pool_step (pool s) (Abandon r)) as [[p b]|] eqn:Ep; [|done]. cbn.
      destruct (end_request _ _ id p s) as [s1|] eqn:E; [|done]. cbn. intros [= <- _].
      pose proof (pool_step_ok _ _ _ _ _ H2 Ep) as Hp. apply pool_step_in_flight in Ep as [Hq Hab].
      eapply end_request_ok in E; try done.
      * intros r' Hin. by destruct (Hq r' Hin) as [?|(? & _)].
      * intros r'. rewrite Hab. by left.
      * intros r'. rewrite Hj. intros [= <-] _. rewrite Hab. by right.
    + cbn. destruct (end_request _ _ id (pool s) s) as [s1|] eqn:E; [|done]. cbn. intros [= <- _].
      eapply end_request_ok in E; try done. intros r'. by rewrite Hj.
Qed.

Lemma sys_reachable_ok peers s :
  peers <> [] ->
  sys_reachable from_utf8_lossy arch_try_from os_try_from max_conn peers cores s -> sys_ok cores s.
Proof.
  intros Hpeers. induction 1 as [|s e s' b _ IH Hs]; [|by eapply sys_step_ok]. split; simpl.
  - done.
  - apply permits_ok_new.
  - apply pool_new_ok.
  - intros g. simpl. rewrite lookup_replicate. intros [-> _]. split; [lia|done].
  - intros id r. by rewrite lookup_empty.
  - intros r. destruct (pool_new_ok cores) as [_ _ _ _ _ Hc _ _]. simpl in Hc.
    unfold places in Hc. rewrite !length_app in Hc. intros Hin.
    change (r ∈ queue (Pool_new cores) ++ busy (Pool_new cores)) in Hin.
    assert (length (queue (Pool_new cores) ++ busy (Pool_new cores)) = 0%nat) as Hl by (rewrite length_app; lia).
    apply nil_length_inv in Hl. rewrite Hl in Hin. by apply elem_of_nil in Hin.
Qed.
End system_lemmas.

(** The start of a worker makes a thread for each set of cores and announces two
    requests for each. *)
Lemma start_worker_capacity is_set count server_cpuset worker_cpuset server p max_conn :
  start_worker is_set count server_cpuset worker_cpuset = Ok (server, p, max_conn) ->
  exists offset workers cores_per sets,
    parse_cpuset_colon worker_cpuset = Some (offset, workers, cores_per) /\
    cpuset is_set offset workers cores_per = Some sets /\ length sets = Z.to_nat workers /\
    p = Pool_new (length sets) /\ max_conn = wmul 64 (Z.of_nat (length sets)) 2.
Proof.
  unfold start_worker, expect. destruct (parse_cpuset_range _) as [[begin end_]|]; [|done]. cbn [rbind].
  destruct (cpuset_range _ _ _ _); [|done]. cbn [rbind].
  destruct (parse_cpuset_colon worker_cpuset) as [[[offset ws] cores_per]|] eqn:Ep; [|done]. cbn [rbind].
  destruct (cpuset _ _ _ _) as [sets|] eqn:Ec; [|done]. cbn [rbind]. intros [= <- <- <-].
  exists offset, ws, cores_per, sets. split_and!; [done|done| |done|done].
  unfold cpuset in Ec. do 2 (destruct (_ =? 1); [done|]). apply mapM_Some_1, Forall2_length in Ec.
  by rewrite length_seqZ in Ec.
Qed.

Lemma ask_worker_nonneg from_utf8_lossy exchange n attempts k :
  ask_worker from_utf8_lossy exchange n attempts = Some k -> 0 <= k.
Proof.
  revert n. induction attempts as [|attempts IH]; intros n; simpl; [done|].
  destruct (get_max_conn _ _) as [m|] eqn:E; [|apply IH]. intros [= <-]. unfold get_max_conn in E.
  destruct (exchange n) as [res|]; [|done]. cbn in E. destruct (negb _); [done|].
  destruct (read_full_client_response_body _ _) as [body|]; [|done]. by apply parse_uint_range in E as [? _].
Qed.

#[local] Arguments ask_worker : simpl never.

(** The task of the balancer that asks the workers adds to each what it answered,
    and nothing for a worker that never answered. *)
Lemma start_grants from_utf8_lossy arch_try_from os_try_from exchange k n b :
  (next_worker b <= k)%nat -> length (workers b) = (k + n)%nat -> length (granted b) = (k + n)%nat ->
  exists b', LoadBalancer.run arch_try_from os_try_from b
      (omap (fun w => MaxConn w <$> ask_worker from_utf8_lossy (exchange w) 0 20) (seq k n)) = Some b' /\
    forall w, granted b' !! w = (fun g => g + if decide (k <= w)%nat
      then default 0 (ask_worker from_utf8_lossy (exchange w) 0 20) else 0) <$> granted b !! w.
Proof.
  revert k b. induction n as [|n IH]; intros k b Hk Hw Hg; cbn [seq omap].
  - exists b. split; [done|]. intros w. destruct (granted b !! w) as [g|] eqn:E; [|done]. simpl. f_equal.
    apply lookup_lt_Some in E. rewrite decide_False by lia. lia.
  - cbn [list_omap]. destruct (ask_worker _ (exchange k) 0 20) as [m|] eqn:Ea; cbn [fmap option_fmap option_map].
    + apply ask_worker_nonneg in Ea as Hm. cbn [LoadBalancer.run]. unfold LoadBalancer.handle at 1.
      rewrite bool_decide_true by lia. rewrite (proj2 (Z.leb_le _ _) Hm). cbn [andb].
      edestruct IH as (b' & Hrun & Hgr); [| | |exists b'; split; [exact Hrun|]]; simpl; [lia|lia|rewrite length_add_worker; lia|].
      intros w. rewrite Hgr. simpl. unfold add_worker. destruct (decide (w = k)) as [->|Hne].
      * rewrite list_lookup_alter_eq. destruct (granted b !! k); [|done]. simpl.
        rewrite decide_False, decide_True by lia. rewrite Ea. simpl. f_equal. lia.
      * rewrite list_lookup_alter_ne by done. destruct (granted b !! w); [|done]. simpl.
        f_equal. repeat case_decide; lia.
    + edestruct (IH (S k) b) as (b' & Hrun & Hgr); [lia|lia|lia|]. exists b'. split; [exact Hrun|].
      intros w. rewrite Hgr. destruct (granted b !! w); [|done]. simpl. f_equal.
      destruct (decide (w = k)) as [->|Hne]; [rewrite decide_False, decide_True, Ea by lia; done|].
      repeat case_decide; lia.
Qed.

Lemma start_runs from_utf8_lossy arch_try_from os_try_from exchange peers :
  exists b, LoadBalancer.run arch_try_from os_try_from (LB_new peers)
      (start from_utf8_lossy exchange (length peers)) = Some b /\
    forall w, (w < length peers)%nat ->
      granted b !! w = Some (default 0 (ask_worker from_utf8_lossy (exchange w) 0 20)).
Proof.
  destruct (start_grants from_utf8_lossy arch_try_from os_try_from exchange 0 (length peers) (LB_new peers))
    as (b & Hr & Hg); simpl; [lia|done|by rewrite length_replicate|].
  exists b. split; [exact Hr|]. intros w Hw. rewrite Hg. simpl.
  by rewrite (proj2 (lookup_replicate _ _ _ _) (conj eq_refl Hw)).
Qed.

(** * Properties *)

(** C21: what the balancer forwards the pool has room for.  In every state that
    the balancer and the worker reach together, from the start of a worker with
    any number of threads, at most as many requests are in the pool and awaited
    as the worker announced, which is what the balancer forwards at most; and
    when the pool refuses a forwarded request, its queue has a request whose
    client is gone, or no thread is left, each of them ended by a run nobody heard,
    by a panic of its run or by a panic at its start. *)
Theorem forwarded_not_refused from_utf8_lossy arch_try_from os_try_from cores peers s id s' refused :
  (forall n, 0 <= n -> from_utf8_lossy (print_uint n) = print_uint n) -> Z.of_nat cores < 2 ^ 63 ->
  is_Some (Workers_new peers) ->
  sys_reachable from_utf8_lossy arch_try_from os_try_from (wmul 64 (Z.of_nat cores) 2) peers cores s ->
  sys_step from_utf8_lossy arch_try_from os_try_from (wmul 64 (Z.of_nat cores) 2) s (Handle id) = Some (s', refused) ->
  Z.of_nat (size (jobs s)) + 1 <= forwarded 0 (open (balancer s)) <= 2 * Z.of_nat cores /\
  (refused = true -> (exists r, r ∈ queue (pool s) /\ r ∈ abandoned (pool s)) \/
     live_threads (pool s) = 0%nat /\
     (unheard (pool s) + length (crashed (pool s)) + unstarted (pool s) = cores)%nat).
Proof.
  intros Hlossy Hcores Hpeers Hr. eapply sys_reachable_ok in Hr as Hok; [|done..|].
  2: { intros ->. by destruct Hpeers. }
  pose proof Hok as [H0 H1 H2 H3 H4 H5].
  unfold sys_step. destruct (open (balancer s) !! id) as [[w|[|w]]|] eqn:Ho; try done.
  destruct (jobs s !! id) eqn:Hj; [done|]. intros Hs.
  pose proof (jobs_below s id H4 Ho Hj) as Hbelow. apply capacity in Hok as Hcap.
  split; [done|]. intros ->. destruct (pool_step (pool s) Submit) as [[p [|]]|] eqn:E; [done| |done].
  unfold pool_step in E. destruct (_ && _) eqn:Ec; [done|].
  destruct (decide (Exists (fun r => r ∈ abandoned (pool s)) (queue (pool s)))) as [He%Exists_exists|He].
  { left. destruct He as (r & ? & ?). by exists r. }
  right. destruct H2 as [Ht _ Hlive Hnd _ _ _ _]. apply andb_false_iff in Ec as [Ec%Nat.ltb_ge|Ec].
  - exfalso. assert (length (queue (pool s)) <= size (jobs s))%nat; [|lia].
    unfold places in Hnd. apply NoDup_app in Hnd as [Hnd _]. apply awaited_bound; [done|].
    intros r Hin. destruct (H5 r) as [Ha|?]; [set_solver| |done].
    destruct He. apply Exists_exists. by exists r.
  - apply negb_false_iff, Nat.eqb_eq in Ec. split; [done|lia].
Qed.

(** ** A concrete system *)

Definition example_sys_request : Request :=
  {| post := true; path := Api.PREFIX ++ bytes_of_string "amd64/linux/fedora";
     content_length := Some 10; observed := 1 |}.
Definition example_sys : System := {| balancer := LB_new [Tcp []]; pool := Pool_new 1; jobs := ∅ |}.
Definition example_sys_events : list SysEvent :=
  [Announce [Some [x32]]; Balancer (Arrive 1 example_sys_request); Balancer (Arrive 2 example_sys_request);
   Balancer (Acquire 1); Balancer (Acquire 2); Handle 1].
Definition example_sys_run (es : list SysEvent) : option System :=
  sys_run (fun s => s) example_arch example_os 2 example_sys es.

Lemma sys_run_reachable from_utf8_lossy arch_try_from os_try_from max_conn peers cores es s s' :
  sys_reachable from_utf8_lossy arch_try_from os_try_from max_conn peers cores s ->
  sys_run from_utf8_lossy arch_try_from os_try_from max_conn s es = Some s' ->
  sys_reachable from_utf8_lossy arch_try_from os_try_from max_conn peers cores s'.
Proof.
  revert s. induction es as [|e es IH]; intros s Hs; simpl; [by intros [= <-]|].
  destruct (sys_step _ _ _ _ s e) as [[s1 b]|] eqn:E; [cbn|done]. apply IH. by eapply sys_next.
Qed.

Definition example_sys_state : System := default example_sys (example_sys_run example_sys_events).
Definition example_sys_handled : option (System * bool) :=
  sys_step (fun s => s) example_arch example_os 2 example_sys_state (Handle 2).

Lemma forwarded_not_refused_witness :
  snd <$> example_sys_handled = Some false /\
  Z.of_nat (size (jobs example_sys_state)) + 1 <= forwarded 0 (open (balancer example_sys_state)) <= 2.
Proof.
  split; [vm_compute; reflexivity|].
  refine (proj1 (forwarded_not_refused (fun s => s) example_arch example_os 1 [Tcp []] example_sys_state 2
    (fst (default (example_sys, true) example_sys_handled)) false _ _ _ _ _)).
  - reflexivity.
  - reflexivity.
  - exists [Tcp []]. reflexivity.
  - apply (sys_run_reachable (fun s => s) example_arch example_os 2 [Tcp []] 1 example_sys_events example_sys).
    + apply sys_init.
    + apply default_is_Some. vm_compute. reflexivity.
  - vm_compute. reflexivity.
Defined.

(** Clients that leave while their requests are queued: the balancer has the
    permits back, the queue still has the requests, and the next one is refused. *)
Example left_clients_fill_queue :
  snd <$> (s ← example_sys_run (example_sys_events ++ [Handle 2; Disconnect 1; Disconnect 2;
             Balancer (Arrive 3 example_sys_request); Balancer (Acquire 3)]);
           sys_step (fun s => s) example_arch example_os 2 s (Handle 3)) = Some true.
Proof. vm_compute. reflexivity. Qed.

(** The only thread panics while it runs a request: its handler answers with an
    error, and the next request is refused. *)
Example panicked_thread_refuses :
  snd <$> (s ← example_sys_run (example_sys_events ++ [Thread (Start 0 true); Thread (Take 0);
             Thread (Crash 0); Reply 1]);
           sys_step (fun s => s) example_arch example_os 2 s (Handle 2)) = Some true.
Proof. vm_compute. reflexivity. Qed.
