(* ===== verification/TestClient.v ===== *)
(** The test client of the servers (src/peserver/src/testclient.rs): it builds a
    run request with an archive, sends it and prints what comes back.

    The file closes the loop of [Run]: for a request that the worker can serve,
    the client that talks to the worker prints the guest's response and the files
    of the container's output directory.  The connection, the serializers, gzip
    and the [Debug] and [Display] forms of other crates' types are parameters. *)
From stdpp Require Import option base list sets numbers strings gmap.
From Stdlib Require Import ZArith Lia.
From S2P Require Import Prelude BTree Paths Text Pearchive IoFile RuntimeSpec Run Admission.
#[local] Open Scope Z_scope.
#[local] Opaque le_bytes.

#[local] Notation bs := bytes_of_string.

(** * Programs that print *)

(** What was printed, and the value unless the program panicked. *)
Definition Io (A : Type) : Type := bstr * option A.
Definition io_ret {A} (a : A) : Io A := ([], Some a).
Definition io_bind {A B} (c : Io A) (k : A -> Io B) : Io B :=
  match c.2 with
  | Some a => let r := k a in (c.1 ++ r.1, r.2)
  | None => (c.1, None)
  end.
Definition print (s : bstr) : Io unit := (s, Some tt).
Definition println (s : bstr) : Io unit := (s ++ [x0a], Some tt).
Definition io_unwrap {A} (o : option A) : Io A := ([], o).
#[local] Notation "'do' x <- c ; k" := (io_bind c (fun x => k))
  (at level 60, x name, c at level 50, k at level 60, right associativity).
#[local] Notation "'run' c ; k" := (io_bind c (fun _ => k))
  (at level 60, c at level 50, k at level 60, right associativity).

Definition ok_option {E A} (r : result E A) : option A := match r with Ok a => Some a | _ => None end.

(** * The command line and the request *)

Record Args := {
  addr : bstr; image : bstr; arg_stdin : option bstr; arg_env : list bstr;
  gzip : bool; body_too_big : bool; header_too_many : bool; header_too_big : bool;
  corrupt_body : bool; arg_args : list bstr;
}.

(** The defaults of the options. *)
Definition Args_default : Args :=
  {| addr := bs "localhost:6188"; image := bs "index.docker.io/library/busybox:1.36.0";
     arg_stdin := None; arg_env := []; gzip := false; body_too_big := false;
     header_too_many := false; header_too_big := false; corrupt_body := false; arg_args := [] |}.

Definition api_req (a : Args) : Api.Request :=
  {| Api.cmd := Some (arg_args a); Api.entrypoint := Some []; Api.stdin := arg_stdin a;
     Api.env := Some (arg_env a) |}.

Definition too_much_data : bstr := replicate (Z.to_nat 65536) x00.

(** The headers have lower case names and are listed in the order of insertion. *)
Record RequestHeader := { rq_method : bstr; rq_uri : bstr; rq_headers : list (bstr * bstr) }.

Definition request_url (a : Args) : bstr := Api.PREFIX ++ image a.

(** [build] fails for a path that is no URI; [headers] are inserted in turn, with
    names that are all different. *)
Definition request_header (uri_ok : bstr -> bool) (a : Args) (buf : bstr) : option RequestHeader :=
  let url := request_url a in
  if negb (uri_ok url) then None
  else
    let headers :=
      [(bs "content-type", Api.APPLICATION_X_PE_ARCHIVEV1); (bs "content-length", print_uint (zlen buf))] in
    let headers := if gzip a then headers ++ [(bs "accept-encoding", bs "gzip")] else headers in
    let headers :=
      if header_too_many a
      then headers ++ ((fun i => (bs "my-header-" ++ print_uint (Z.of_nat i), bs "blah-blah-blah")) <$> seq 0 (Z.to_nat 1000))
      else headers in
    let headers :=
      if header_too_big a then headers ++ [(bs "my-big-header", replicate (Z.to_nat (4096 * 16)) x78)] else headers in
    Some {| rq_method := bs "POST"; rq_uri := url; rq_headers := headers |}.

(** The answer of the server; the body is read in chunks. *)
Record Reply := { rp_status : Z; rp_version : bstr; rp_headers : list (bstr * bstr); rp_chunks : list (option bstr) }.

(** * Printing *)

Definition print_headers (value_debug : bstr -> bstr) (prefix : bstr) (headers : list (bstr * bstr)) : Io unit :=
  print (flat_map (fun '(k, v) => prefix ++ k ++ bs ": " ++ value_debug v ++ [x0a]) headers).

(** [escape_dump]: the escapes of the bytes, and a line end. *)
Definition escape_dump (input : bstr) : bstr := escape_ascii input ++ [x0a].

(** [UnpackVisitorPrinter::on_file] *)
Definition file_text (path_debug : bstr -> bstr) (name data : bstr) : bstr :=
  bs "=== " ++ path_debug name ++ bs " (" ++ print_uint (zlen data) ++ bs ") ===" ++ [x0a] ++
  (if decide (data = []) then [] else escape_dump data).

Section client.
(** The reading of addresses and the connection; what is sent is answered or fails. *)
Context (connect : bstr -> bool) (uri_ok : bstr -> bool) (exchange : RequestHeader -> bstr -> option Reply).
Context (to_json : Api.Request -> option bstr) (response_from_json : bstr -> option Response).
Context (gunzip : bstr -> option bstr).
Context (value_debug path_debug bytes_debug : bstr -> bstr) (status_display : Z -> bstr).
Context (response_debug : Response -> bstr).

Definition request_body (a : Args) : option bstr :=
  json ← to_json (api_req a);
  jsonlen ← try_into 32 (zlen json);
  let buf := le_bytes 4 jsonlen ++ json in
  let v := PackMem.with_vec buf in
  v ← ok_option (PackMem.file v (bs "file1") (bs "data1"));
  v ← (if body_too_big a then ok_option (PackMem.file v (bs "file2") too_much_data) else Some v);
  Some (if corrupt_body a then PackMem.into_inner v ++ [byte_of 4] else PackMem.into_inner v).

#[local] Instance UnpackVisitorPrinter : UnpackVisitor bstr :=
  {| visit_file out name data := (true, out ++ file_text path_debug name data) |}.

(** Prints the files up to the first error, which is a panic. *)
Definition print_archive (archive : bstr) : Io unit :=
  match unpack_visitor archive ([] : bstr) with
  | Some (out, r) => (out, ok_option r)
  | None => ([], None)
  end.

Definition find_header (name : bstr) (headers : list (bstr * bstr)) : option bstr :=
  snd <$> List.find (fun h => bool_decide (h.1 = name)) headers.

(** [zcat] of the body when it was asked for. *)
Definition reply_body (a : Args) (r : Reply) : option bstr :=
  body ← read_full_client_response_body (rp_chunks r) [];
  if gzip a then gunzip body else Some body.

(** What is printed for an answer. *)
Definition print_reply (a : Args) (r : Reply) : Io unit :=
  run println (status_display (rp_status r) ++ bs " " ++ rp_version r);
  run print_headers value_debug (bs "< ") (rp_headers r);
  run (if gzip a && negb (bool_decide (find_header (bs "content-encoding") (rp_headers r) = Some (bs "gzip")))
       then println (bs "yoooooooooooooooooo gzip not there") else io_ret tt);
  do body <- io_unwrap (reply_body a r);
  if negb (rp_status r =? 200) then println (bs "ERROR " ++ bytes_debug body)
  else
    do x <- io_unwrap (Api.parse_response response_from_json body);
    run println (bs "api  response " ++ response_debug x.1);
    print_archive x.2.

Definition testclient_main (a : Args) : Io unit :=
  run io_unwrap (if connect (addr a) then Some tt else None);
  do buf <- io_unwrap (request_body a);
  do req <- io_unwrap (request_header uri_ok a buf);
  run println (rq_method req ++ bs " HTTP/1.1 " ++ rq_uri req);
  run print_headers value_debug (bs "> ") (rq_headers req);
  do r <- io_unwrap (exchange req buf);
  print_reply a r.
End client.

(** * Lemmas *)

(** What the client sends besides the request. *)
Definition client_files (a : Args) : list fs_entry :=
  FsFile (bs "file1") (bs "data1") :: if body_too_big a then [FsFile (bs "file2") too_much_data] else [].
Definition client_archive (a : Args) : bstr := encode (client_files a) ++ if corrupt_body a then [byte_of 4] else [].

Lemma too_much_data_length : zlen too_much_data = 65536.
Proof. unfold too_much_data, zlen. rewrite length_replicate. lia. Qed.
#[local] Opaque too_much_data.

Lemma client_files_good a : Forall good_entry (client_files a).
Proof.
  assert (forall n, good_name (bs n) -> Forall good_entry [FsFile (bs n) too_much_data]) as Hbig.
  { intros n Hn. apply Forall_singleton. constructor; [done|]. rewrite too_much_data_length. by split. }
  constructor.
  - constructor; [by apply good_name_dec_list|]. by split.
  - destruct (body_too_big a); [|constructor]. apply Hbig. by apply good_name_dec_list.
Qed.

Lemma request_body_framed to_json a json :
  to_json (api_req a) = Some json -> in_width 32 (zlen json) ->
  request_body to_json a = Some (framed json (client_archive a)).
Proof.
  intros Hj Hw. unfold request_body. rewrite Hj. cbn [mbind option_bind].
  rewrite try_into_id by done. cbn [mbind option_bind].
  pose proof (pm_encodes (le_bytes 4 (zlen json) ++ json) (client_files a) (client_files_good a)) as Hp.
  assert (height (client_files a) <= MAX_DIR_DEPTH + 1) as Hh by (unfold client_files; destruct (body_too_big a); vm_compute; congruence).
  specialize (Hp Hh). unfold client_files in Hp. cbn [flat_map entry_calls app pm_run pm_step] in Hp.
  destruct (PackMem.file _ (bs "file1") _) as [v| |]; [|discriminate Hp..]. cbn [rbind ok_option mbind option_bind] in Hp |- *.
  unfold client_archive, framed, client_files.
  assert (forall w es, PackMem.into_inner w = (le_bytes 4 (zlen json) ++ json) ++ encode es ->
    (if corrupt_body a then PackMem.into_inner w ++ [byte_of 4] else PackMem.into_inner w) =
      le_bytes 4 (zlen json) ++ json ++ encode es ++ (if corrupt_body a then [byte_of 4] else [])) as Hend.
  { intros w es ->. destruct (corrupt_body a); by rewrite <-!app_assoc, ?app_nil_r. }
  destruct (body_too_big a); cbn [flat_map entry_calls app pm_run pm_step] in Hp.
  - destruct (PackMem.file v _ _) as [v'| |]; [|discriminate Hp..].
    cbn [rbind rmap ok_option mbind option_bind] in Hp |- *. injection Hp as Hp. f_equal. by apply Hend.
  - cbn [rmap mbind option_bind] in Hp |- *. injection Hp as Hp. f_equal. by apply Hend.
Qed.

Lemma framed_inj json json' archive archive' :
  in_width 32 (zlen json) -> in_width 32 (zlen json') -> framed json archive = framed json' archive' ->
  json = json' /\ archive = archive'.
Proof.
  intros Hj Hj' E. destruct (framed_fields json archive Hj) as (_ & Hv & Hg & Hf & _).
  destruct (framed_fields json' archive' Hj') as (_ & Hv' & Hg' & Hf' & _).
  rewrite E, Hv' in Hv. rewrite E, <-Hv, Hg' in Hg. rewrite E, <-Hv, Hf' in Hf. by simplify_eq.
Qed.

(** A byte behind an archive that is no tag. *)
Lemma unpack_bad_tag `{UnpackVisitor V} see es b (v : V) :
  (forall v path data, visit_file v path data = (true, see v path data)) ->
  Forall good_entry es -> tag_of_byte b = None ->
  unpack_visitor (encode es ++ [b]) v =
    Some (fold_left (fun v kv => see v kv.1 kv.2) (tree_files es) v, Err BadTag).
Proof.
  intros Hsee Hg Hb. unfold unpack_visitor.
  pose proof (unpack_entries_rtc see Hsee es v [] 0 [b] Hg (Forall_nil_2 _) ltac:(lia)) as Hr.
  apply (loop_rtc _ unpack_measure unpack_decreases) in Hr.
  change {| us_cur := encode es ++ [b]; us_path := []; us_depth := 0; us_v := v |} with (at_state v [] 0 (encode es ++ [b])).
  rewrite Hr, loop_unfold by apply unpack_decreases. unfold unpack_step, at_state. cbn [us_cur]. by rewrite Hb.
Qed.

(** What the printer prints for a tree. *)
Lemma print_archive_tree path_debug es :
  Forall good_entry es ->
  print_archive path_debug (encode es) =
    (flat_map (fun kv => file_text path_debug kv.1 kv.2) (tree_files es), Some tt).
Proof.
  intros Hg. unfold print_archive.
  rewrite (unpack_visits (fun out name data => out ++ file_text path_debug name data)) by done. f_equal.
  assert (forall files acc, fold_left (fun v kv => v ++ file_text path_debug kv.1 kv.2) files acc =
    acc ++ flat_map (fun kv => file_text path_debug kv.1 kv.2) files) as Hf.
  { induction files as [|kv files IH]; intros acc; cbn [fold_left flat_map]; [by rewrite app_nil_r|]. by rewrite IH, app_assoc. }
  apply (Hf _ []).
Qed.

Lemma read_client_body chunks acc :
  read_full_client_response_body (Some <$> chunks) acc = Some (acc ++ concat chunks).
Proof.
  revert acc. induction chunks as [|c chunks IH]; intros acc; csimpl; [by rewrite app_nil_r|].
  by rewrite IH, app_assoc.
Qed.

Lemma request_body_Some to_json a body :
  request_body to_json a = Some body ->
  exists json, to_json (api_req a) = Some json /\ in_width 32 (zlen json) /\ body = framed json (client_archive a).
Proof.
  intros E. destruct (to_json (api_req a)) as [json|] eqn:Hj; [|unfold request_body in E; by rewrite Hj in E].
  exists json. assert (in_width 32 (zlen json)) as Hw.
  { unfold request_body in E. rewrite Hj in E. cbn [mbind option_bind] in E.
    destruct (try_into 32 (zlen json)) as [n|] eqn:Et; [|done]. by apply try_into_Some in Et as [-> ?]. }
  rewrite (request_body_framed to_json a json Hj Hw) in E. by simplify_eq.
Qed.

(** Sequences of outputs. *)
Lemma io_bind_unwrap {A B} (x : A) (k : A -> Io B) : io_bind (io_unwrap (Some x)) k = k x.
Proof. unfold io_bind, io_unwrap. simpl. by destruct (k x). Qed.
Lemma io_bind_print {A B} s (x : A) (k : A -> Io B) out r :
  k x = (out, r) -> io_bind (s, Some x) k = (s ++ out, r).
Proof. intros E. unfold io_bind. simpl. by rewrite E. Qed.

(** * The client and the worker *)

(** The connection of a client to a handler: the request header and body reach it
    as they were sent, the body in the pieces that [split] makes of it, and so does
    the response. *)
Definition http_request (split : bstr -> list bstr) (req : RequestHeader) (body : bstr) : Worker.HttpRequest :=
  {| Worker.method_post := bool_decide (rq_method req = bs "POST");
     Worker.method_get := bool_decide (rq_method req = bs "GET");
     Worker.path := rq_uri req; Worker.content_type := find_header (bs "content-type") (rq_headers req);
     Worker.body_chunks := Some <$> split body; Worker.body_late := false |}.
Definition serve (split : bstr -> list bstr) (headers : Worker.HttpResponse -> list (bstr * bstr))
    (handler : Worker.HttpRequest -> result Worker.Error Worker.HttpResponse)
    (req : RequestHeader) (body : bstr) : option Reply :=
  match handler (http_request split req body) with
  | Ok r => Some {| rp_status := Worker.status r; rp_version := bs "HTTP/1.1"; rp_headers := headers r;
                    rp_chunks := Some <$> split (Worker.body r) |}
  | _ => None
  end.

(** The header of the request, and that of it which the worker reads. *)
Lemma request_header_fields uri_ok a buf :
  uri_ok (request_url a) = true -> exists headers,
  request_header uri_ok a buf =
    Some {| rq_method := bs "POST"; rq_uri := request_url a;
            rq_headers := (bs "content-type", Api.APPLICATION_X_PE_ARCHIVEV1) :: headers |}.
Proof.
  intros Hu. unfold request_header. rewrite Hu. cbn [negb].
  destruct (gzip a), (header_too_many a), (header_too_big a); eexists; reflexivity.
Qed.

(** A request of the client that the worker can serve carries the client's archive
    and arguments. *)
Lemma good_request_client {Fd S} arch_try_from os_try_from reference_parses
    (image_exchange : ImageClient.Request -> result ImageClient.Error (option Fd * ImageClient.WireResponse))
    to_json request_from_json (rootless : Z -> Z -> RuntimeSpec S) SECCOMP spec_to_json bincode_encode
    self_arch self_os self_strace split a body reqh config archive :
  (forall b, concat (split b) = b) -> codec to_json request_from_json -> request_body to_json a = Some body ->
  good_request arch_try_from os_try_from reference_parses image_exchange request_from_json rootless SECCOMP
    spec_to_json bincode_encode self_arch self_os self_strace (http_request split reqh body) config archive ->
  archive = client_archive a /\
  exists spec ic digest, config = run_config spec_to_json self_strace spec (api_req a) digest /\
    create_runtime_spec rootless SECCOMP ic (Some []) (Some (arg_args a)) (Some (arg_env a)) = Ok spec.
Proof.
  intros Hsplit Hcodec Hbody [pp ireq fd ic digest req spec chunks json cb arc _ _ _ _ _ _
    _ Hchunks Hframed Hlimit Hreq Hspec _ _].
  apply request_body_Some in Hbody as (json' & Hj & Hw & ->). cbn [http_request Worker.body_chunks] in Hchunks.
  apply (list_fmap_eq_inj Some) in Hchunks; [|by intros x y [= ->]]. rewrite <-Hchunks, Hsplit in Hframed.
  assert (in_width 32 (zlen json)) as Hw'.
  { pose proof (zlen_nonneg json). pose proof (zlen_nonneg arc). unfold framed in Hlimit.
    rewrite !zlen_app, zlen_le_bytes in Hlimit. unfold Api.MAX_BODY_SIZE in Hlimit. unfold in_width. lia. }
  apply framed_inj in Hframed as [<- <-]; [|done..]. split; [done|].
  apply Hcodec in Hj. rewrite Hj in Hreq. injection Hreq as <-. by exists spec, ic, digest.
Qed.

(** What is printed for a run that was delivered. *)
Lemma print_reply_run json_decode gunzip value_debug path_debug bytes_debug status_display response_debug a r j es resp
    chunks :
  gzip a = false -> rp_status r = 200 -> rp_chunks r = Some <$> chunks -> concat chunks = framed j (encode es) ->
  in_width 32 (zlen j) -> json_decode j = Some resp -> Forall good_entry es ->
  exists head, print_reply json_decode gunzip value_debug path_debug bytes_debug status_display response_debug a r =
    (head ++ bs "api  response " ++ response_debug resp ++ [x0a] ++
       flat_map (fun kv => file_text path_debug kv.1 kv.2) (tree_files es), Some tt).
Proof.
  intros Hgz Hst Hch Hc Hw Hj Hg. eexists (_ ++ _). unfold print_reply, reply_body.
  rewrite Hgz, Hst, Hch, read_client_body, app_nil_l, Hc. cbn [andb mbind option_bind].
  rewrite <-app_assoc. apply io_bind_print. apply io_bind_print.
  rewrite <-(app_nil_l (bs "api  response " ++ _)). apply io_bind_print. rewrite io_bind_unwrap. cbn [negb Z.eqb Pos.eqb].
  rewrite (parse_response_framed json_decode j (encode es) resp Hw Hj), io_bind_unwrap.
  unfold println. rewrite !app_assoc. apply io_bind_print. by apply print_archive_tree.
Qed.

(** C30: the whole way of a run.  The client that talks to a worker, run without
    [--gzip] (no server compresses, so with it the client panics) and for a request
    that the worker can serve ([good_request]) with an output that can be delivered
    ([good_output]: it fits the archive format and the smallest io file and is not
    empty), ends without a panic; behind the headers it prints the guest's response
    and then every regular file of the container's output directory, in the order
    of the archive; and the container got the client's archive and a configuration
    made of the client's arguments. *)
Theorem testclient_end_to_end {Fd S} arch_try_from os_try_from reference_parses
    (image_exchange : ImageClient.Request -> result ImageClient.Error (option Fd * ImageClient.WireResponse))
    to_json request_from_json (rootless : Z -> Z -> RuntimeSpec S) SECCOMP spec_to_json
    bincode_encode bincode_decode json_encode json_decode sendfile from_utf8_lossy
    self_arch self_os self_strace container
    connect uri_ok split headers gunzip value_debug path_debug bytes_debug status_display response_debug
    a body reqh config archive j :
  codec bincode_encode (fun b => fst <$> bincode_decode b) -> codec json_encode json_decode ->
  sendfile_spec sendfile -> (forall b, concat (split b) = b) -> codec to_json request_from_json ->
  connect (addr a) = true -> gzip a = false -> request_body to_json a = Some body ->
  request_header uri_ok a body = Some reqh ->
  good_request arch_try_from os_try_from reference_parses image_exchange request_from_json rootless SECCOMP
    spec_to_json bincode_encode self_arch self_os self_strace (http_request split reqh body) config archive ->
  good_output json_encode from_utf8_lossy config (container config archive) j ->
  archive = client_archive a /\
  (exists spec ic digest, config = run_config spec_to_json self_strace spec (api_req a) digest /\
     create_runtime_spec rootless SECCOMP ic (Some []) (Some (arg_args a)) (Some (arg_env a)) = Ok spec) /\
  exists head,
    testclient_main connect uri_ok
      (serve split headers
        (Worker.apiv2_runi arch_try_from os_try_from reference_parses image_exchange request_from_json rootless
          SECCOMP spec_to_json bincode_encode
          (boot bincode_decode json_encode sendfile from_utf8_lossy container) self_arch self_os self_strace))
      to_json json_decode gunzip value_debug path_debug bytes_debug status_display response_debug a =
    (head ++ bs "api  response " ++ response_debug (Guest.make_response from_utf8_lossy config (container config archive))
       ++ [x0a] ++ flat_map (fun kv => file_text path_debug kv.1 kv.2) (tree_files (Guest.output (container config archive))),
     Some tt).
Proof.
  intros Hb Hj Hsf Hsplit Hreq Hcon Hgz Hbody Hhdr Hgood Hout.
  pose proof (run_delivered arch_try_from os_try_from reference_parses image_exchange request_from_json rootless
    SECCOMP spec_to_json bincode_encode bincode_decode json_encode sendfile from_utf8_lossy
    self_arch self_os self_strace container Hb Hsf _ config archive j Hgood Hout) as Hrun.
  destruct (good_request_client arch_try_from os_try_from reference_parses image_exchange to_json request_from_json
    rootless SECCOMP spec_to_json bincode_encode self_arch self_os self_strace split a body reqh config archive
    Hsplit Hreq Hbody Hgood) as [Har Hconf].
  split; [exact Har|]. split; [exact Hconf|]. destruct Hout as (He & Hg & _ & _ & Hfit).
  set (es := Guest.output (container config archive)) in *.
  assert (in_width 32 (zlen j)) as Hw.
  { pose proof (zlen_nonneg j). pose proof (zlen_nonneg (encode es)). unfold PMEM_ALIGN_SIZE, in_width in *. lia. }
  unfold testclient_main. rewrite Hcon, io_bind_unwrap, Hbody, io_bind_unwrap, Hhdr, io_bind_unwrap.
  unfold serve. rewrite Hrun. cbn [Worker.response_pearchivev1 Worker.status Worker.body]. fold es.
  match goal with |- context [io_unwrap (Some ?r)] =>
    destruct (print_reply_run json_decode gunzip value_debug path_debug bytes_debug status_display response_debug a r
      j es _ (split (framed j (encode es))) Hgz eq_refl eq_refl (Hsplit _) Hw (Hj _ _ He) Hg) as [head Hh]
  end.
  eexists (_ ++ _ ++ head). do 2 rewrite <-(app_assoc _ _ (bs "api  response " ++ _)).
  apply io_bind_print. apply io_bind_print. rewrite io_bind_unwrap. exact Hh.
Qed.

Definition example_client : Args :=
  {| addr := bs "localhost:6188"; image := bs "amd64/linux/quay.io/fedora/fedora:42";
     arg_stdin := None; arg_env := []; gzip := false; body_too_big := false;
     header_too_many := false; header_too_big := false; corrupt_body := false; arg_args := [bs "x"] |}.
#[local] Instance Request_eq_dec : EqDecision Api.Request.
Proof. solve_decision. Defined.
Definition example_to_json (r : Api.Request) : option bstr :=
  if decide (r = api_req example_client) then Some (bs "{}") else None.
Definition example_split (b : bstr) : list bstr := [take 5 b; drop 5 b].
Definition example_client_spec : RuntimeSpec unit :=
  match create_runtime_spec example_rootless tt example_image (Some []) (Some [bs "x"]) (Some []) with
  | Ok spec => spec
  | _ => example_rootless 0 0
  end.

Definition example_header : RequestHeader :=
  default {| rq_method := []; rq_uri := []; rq_headers := [] |}
    (request_header (fun _ => true) example_client (framed (bs "{}") (client_archive example_client))).

Lemma testclient_end_to_end_witness :
  exists head,
    testclient_main (fun _ => true) (fun _ => true)
      (serve example_split (fun _ => [])
        (Worker.apiv2_runi example_arch example_os (fun _ => true) example_exchange
          (fun _ => Some (api_req example_client)) example_rootless tt (fun _ => bs "{}") example_bincode_encode
          (boot example_bincode_decode example_json_encode sendfile_whole (fun b => b) (fun _ _ => example_run))
          OciImage.Amd64 OciImage.Linux false))
      example_to_json (fun b => Some (RPanic b)) Some id id id print_uint (fun _ => bs "response") example_client =
    (head ++ bs "api  response " ++ bs "response" ++ [x0a] ++
       flat_map (fun kv => file_text id kv.1 kv.2) (tree_files example_tree), Some tt).
Proof.
  destruct (testclient_end_to_end example_arch example_os (fun _ => true) example_exchange example_to_json
    (fun _ => Some (api_req example_client)) example_rootless tt (fun _ => bs "{}") example_bincode_encode
    example_bincode_decode example_json_encode (fun b => Some (RPanic b)) sendfile_whole (fun b => b)
    OciImage.Amd64 OciImage.Linux false (fun _ _ => example_run) (fun _ => true) (fun _ => true) example_split (fun _ => [])
    Some id id id print_uint (fun _ => bs "response") example_client
    (framed (bs "{}") (client_archive example_client)) example_header
    (config_with_digest [x61]) (client_archive example_client) [x6f; x6f; x6d])
    as (_ & _ & Hmain).
  - exact example_bincode_codec.
  - intros [] b; simpl; congruence.
  - exact sendfile_whole_spec.
  - intros b. unfold example_split. cbn [concat]. by rewrite app_nil_r, take_drop.
  - intros r b. unfold example_to_json. case_decide; [|done]. by intros _; subst.
  - reflexivity.
  - reflexivity.
  - apply request_body_framed; [unfold example_to_json; by rewrite decide_True|by split].
  - vm_compute. reflexivity.
  - eapply (GoodRequest example_arch example_os (fun _ => true) example_exchange
      (fun _ => Some (api_req example_client)) example_rootless tt (fun _ => bs "{}")
      example_bincode_encode OciImage.Amd64 OciImage.Linux false _ _ _ tt example_image
      [x61] (api_req example_client) example_client_spec
      (example_split (framed (bs "{}") (client_archive example_client))) (bs "{}") [x61]).
    all: try (vm_compute; reflexivity).
    + vm_compute. congruence.
    + split; vm_compute; congruence.
  - split; [reflexivity|]. split; [exact example_tree_good|]. split; [vm_compute; congruence|].
    split; [vm_compute; congruence|]. vm_compute. congruence.
  - exact Hmain.
Defined.

(** The same request with [--gzip]: the worker does not compress its answer, and the
    client panics on it. *)
Example gzip_panics :
  let a := {| addr := addr example_client; image := image example_client; arg_stdin := None; arg_env := [];
              gzip := true; body_too_big := false; header_too_many := false; header_too_big := false;
              corrupt_body := false; arg_args := [bs "x"] |} in
  let no_gzip := fun b : bstr => if starts_with [x1f; x8b] b then Some b else None in
  snd (testclient_main (fun _ => true) (fun _ => true)
      (serve example_split (fun _ => [])
        (Worker.apiv2_runi example_arch example_os (fun _ => true) example_exchange
          (fun _ => Some (api_req a)) example_rootless tt (fun _ => bs "{}") example_bincode_encode
          (boot example_bincode_decode example_json_encode sendfile_whole (fun b => b) (fun _ _ => example_run))
          OciImage.Amd64 OciImage.Linux false))
      (fun _ => Some (bs "{}")) (fun b => Some (RPanic b)) no_gzip id id id print_uint (fun _ => bs "response") a) = None.
Proof. vm_compute. reflexivity. Qed.

(** The requests that are meant to fail do: a body that is too big is not read to
    its end, and behind a corrupt archive the guest finds a byte that is no tag. *)
Theorem bad_requests_refused to_json a body split :
  request_body to_json a = Some body -> (forall b, concat (split b) = b) ->
  (body_too_big a = true ->
     Worker.read_full_server_request_body (Some <$> split body) Api.MAX_BODY_SIZE = None) /\
  unpack_to_hashmap (client_archive a) =
    (if corrupt_body a then Err BadTag else Ok (hashmap_of (tree_files (client_files a)))).
Proof.
  intros Hb Hs. apply request_body_Some in Hb as (json & _ & Hw & ->). split.
  - intros Hbig. unfold Worker.read_full_server_request_body. rewrite read_body_from_spec by done.
    rewrite app_nil_l, Hs. rewrite (proj2 (Z.ltb_lt _ _)); [done|].
    destruct (framed_fields json (client_archive a) Hw) as (_ & _ & _ & _ & ->).
    unfold client_archive, client_files. rewrite Hbig. cbn [encode flat_map encode_entry].
    rewrite !zlen_app, !zlen_cons, !zlen_app, too_much_data_length.
    repeat match goal with |- context [zlen ?l] => lazymatch goal with H : 0 <= zlen l |- _ => fail
      | _ => pose proof (zlen_nonneg l) end end. unfold Api.MAX_BODY_SIZE. lia.
  - unfold client_archive. destruct (corrupt_body a); [|rewrite app_nil_r; apply unpack_hashmap_encode, client_files_good].
    unfold unpack_to_hashmap.
    by rewrite (unpack_bad_tag (fun m path data => <[components path := data]> m)) by (done || apply client_files_good).
Qed.

(** The default image has no architecture and no operating system in front of it:
    the server takes the registry for the architecture and refuses the request. *)
Example default_image_mismatch {Fd S} reference_parses (exchange : _ -> result _ (option Fd * _)) from_json
    (rootless : Z -> Z -> RuntimeSpec S) SECCOMP spec_to_json bincode_encode run_vm strace body :
  Worker.apiv2_runi example_arch example_os reference_parses exchange from_json rootless SECCOMP spec_to_json
    bincode_encode run_vm OciImage.Amd64 OciImage.Linux strace
    (http_request example_split
      {| rq_method := bs "POST"; rq_uri := request_url Args_default; rq_headers := [] |} body) = Err Worker.ArchMismatch.
Proof. reflexivity. Qed.
