(* ===== verification/DevTools.v ===== *)
(** The tools that the parts are tried out with: the client of the image service
    (src/peimage-service/src/bin/testclient.rs), the starter of a machine with a
    block device (src/perunner/src/blocktest.rs) and the snapshot experiment
    (src/perunner/src/snapshot-test.rs).

    The file proves that the image client prints the root directory of the image
    it got, that the machine of the block test gets one disk that it cannot write,
    and that the snapshot's configuration is changed in its memory zones only.
    The socket, processes, files and the JSON parser are parameters. *)
From stdpp Require Import option base list sets numbers strings gmap.
From Stdlib Require Import ZArith Lia.
From S2P Require Import Prelude MemFile BTree Paths Text ErofsBuild ErofsTree ErofsDisk ErofsDump DumpMain RuntimeSpec Run TestClient.
#[local] Open Scope Z_scope.

#[local] Notation bs := bytes_of_string.

(** * The client of the image service *)

Section image_client.
Context `{RustixFileType} {Fd : Type}.
Context (reference_parses : bstr -> bool).
Context (exchange : bstr -> ImageClient.Request -> result ImageClient.Error (option Fd * ImageClient.WireResponse)).
(** Mapping the file, and the time that is printed. *)
Context (mmap : Fd -> option bstr) (elapsed : bstr).

Definition list_root_step (e : Erofs) (x : DirentsIterator * bstr) : loop_step (DirentsIterator * bstr) (result ErofsDisk.Error bstr) :=
  let '(s, out) := x in
  match dirents_next s with
  | None => Done (Ok out)
  | Some (s, Ok item) =>
      match get_inode_from_dirent e item with
      | Ok inode => Again (s, out ++ entry_head item inode ++ newline)
      | Err err => Done (Err err)
      | Panic => Done Panic
      end
  | Some (_, Err err) => Done (Err err)
  | Some (_, Panic) => Done Panic
  end.
Definition list_root (e : Erofs) (s : DirentsIterator) : result ErofsDisk.Error bstr :=
  loop_result (loop (list_root_step e) (fun x => dirents_measure x.1) (s, [])).

Inductive ClientError := ServiceError (e : ImageClient.Error) | MapError | ImageError (e : ErofsDisk.Error).

#[local] Open Scope result_scope.
(** The lines for the root directory. *)
Definition root_listing (data : bstr) : result ErofsDisk.Error bstr :=
  let? e := Erofs_new data in
  let? dir := get_root_inode e in
  let? '(d, block_size) := get_dirents e dir in
  let? s := DirentsIterator_new d block_size in
  list_root e s.

(** [main_]; [main] panics on an error. *)
Definition imageclient_main (args : list bstr) : result ClientError bstr :=
  let? socket_path := expect (args !! 1%nat) in
  let? reference := expect (args !! 2%nat) in
  let? request := Guest.unwrap (ImageClient.Request_new reference_parses reference OciImage.Amd64 OciImage.Linux) in
  let? response := map_err ServiceError (ImageClient.request_erofs_image (exchange socket_path) request) in
  let? data := ok_or (mmap (ImageClient.fd response)) MapError in
  let? t := map_err ImageError (root_listing data) in
  Ok (bs "got response in " ++ elapsed ++ bs "s" ++ newline ++ t).
End image_client.

(** * A machine with a block device *)

Record BlockArgs := { strace : bool; ch_log : bool; user_block : option bstr; disk : option bstr }.

Definition block_options : list bstr :=
  bs <$> ["-v"; "--memory"; "size=1G,shared=on"; "--cpus"; "boot=1"; "--kernel"; "../vmlinux"; "--initramfs";
          "../target/debug/initramfs"; "--cmdline"; "console=hvc0"; "--console"; "file=/tmp/ch-console";
          "--log-file"; "/tmp/ch-log"].

(** The command, with the program first; no device is a panic. *)
Definition block_command (a : BlockArgs) : option (list bstr) :=
  dev ← (match disk a, user_block a with
         | Some d, _ => Some [bs "--disk"; bs "path=" ++ d ++ bs ",readonly=on,id=12345"]
         | None, Some s => Some [bs "--disk"; bs "vhost_user=on,socket=" ++ s ++ bs ",id=12345,readonly=on"]
         | None, None => None
         end);
  Some ((if strace a then bs <$> ["strace"; "-o"; "/tmp/strace.out"; "-f"; "--"; "cloud-hypervisor"]
         else [bs "cloud-hypervisor"]) ++
        block_options ++ dev).

#[local] Notation "'do' x <- c ; k" := (io_bind c (fun x => k))
  (at level 60, x name, c at level 50, k at level 60, right associativity).
#[local] Notation "'run' c ; k" := (io_bind c (fun _ => k))
  (at level 60, c at level 50, k at level 60, right associativity).

(** [spawn] runs a command to its end: whether it succeeded; [files] are the files
    it leaves. *)
Definition blocktest_main (spawn : list bstr -> option bool) (files : bstr -> option bstr) (a : BlockArgs) : Io unit :=
  let copy name := do d <- io_unwrap (files (bs name)); print d in
  run (if bool_decide (user_block a = None) && bool_decide (disk a = None) ||
          negb (bool_decide (user_block a = None)) && negb (bool_decide (disk a = None))
       then println (bs "must give --user-block or --disk") else io_ret tt);
  do cmd <- io_unwrap (block_command a);
  do success <- io_unwrap (spawn cmd);
  run (io_unwrap (if success then Some tt else None));
  run copy "/tmp/ch-console";
  run (if ch_log a then copy "/tmp/ch-log" else io_ret tt);
  run (if strace a then copy "/tmp/strace.out" else io_ret tt);
  println [].

(** * The snapshot experiment *)

(** JSON values of serde_json; the keys of an object are distinct. *)
Inductive Json :=
  | JNull | JBool (b : bool) | JNumber (n : Z) | JString (s : bstr) | JArray (l : list Json)
  | JObject (m : list (bstr * Json)).

Definition get_key (k : bstr) (m : list (bstr * Json)) : option Json :=
  snd <$> List.find (fun kv => bool_decide (kv.1 = k)) m.

(** Replacing the value of a key in place; [None] when it is missing or [f] fails. *)
Fixpoint alter_key (k : bstr) (f : Json -> option Json) (m : list (bstr * Json)) : option (list (bstr * Json)) :=
  match m with
  | [] => None
  | (k', v) :: m =>
      if decide (k' = k) then v ← f v; Some ((k', v) :: m)
      else m ← alter_key k f m; Some ((k', v) :: m)
  end.
(** [get_mut] on a value, unwrapped. *)
Definition at_key (k : bstr) (f : Json -> option Json) (j : Json) : option Json :=
  match j with JObject m => JObject <$> alter_key k f m | _ => None end.

Definition new_zone (mem_add : Z) : Json := JObject [(bs "id", JString (bs "1")); (bs "size", JNumber mem_add)].

(** One zone, whose [shared] is set, and another behind it. *)
Definition modify_zones (mem_add : Z) (j : Json) : option Json :=
  match j with
  | JArray [zone0] =>
      zone0 ← at_key (bs "shared") (fun _ => Some (JBool false)) zone0;
      Some (JArray [zone0; new_zone mem_add])
  | _ => None
  end.
Definition modify_config (config : Json) (mem_add : Z) : option Json :=
  at_key (bs "memory") (at_key (bs "zones") (modify_zones mem_add)) config.

Definition mem_total : Z := Z.shiftl 1 30.
Definition mem_initial : Z := Z.shiftl (128 * 1) 20.
Definition mem_add : Z := mem_total - mem_initial.

(** What the experiment does to the system, in order. *)
Inductive Action :=
  | Remove (path : bstr) | Bind (path : bstr) | RunCommand (cmd : list bstr) | MakeDir (path : bstr)
  | Spawn (cmd : list bstr) | Accept | ReadByte | Connect (path : bstr) | Api (command : bstr) (body : option bstr)
  | Kill | WaitSuccess | ReadFile (path : bstr) | WriteFile (path data : bstr) | Show (text : bstr).

Section snapshot.
(** The answer to an action, [None] when it fails; the value of a file that is
    read; which attempts to connect succeed. *)
Context (answer : Action -> option bstr) (exists_dir : bool) (connects : nat -> bool).
Context (parse_json : bstr -> option Json) (print_json : Json -> bstr).

(** The actions up to a panic. *)
Definition Tr (A : Type) : Type := list Action * option A.
Definition tbind {A B} (c : Tr A) (k : A -> Tr B) : Tr B :=
  match c.2 with Some a => (c.1 ++ (k a).1, (k a).2) | None => (c.1, None) end.
Definition act (a : Action) : Tr bstr := ([a], answer a).
Definition try_act (a : Action) : Tr bstr := ([a], Some []).
Definition from {A} (o : option A) : Tr A := ([], o).
#[local] Notation "'step' x <- c ; k" := (tbind c (fun x => k))
  (at level 60, x name, c at level 50, k at level 60, right associativity).

Definition vsock_prefix := bs "/tmp/ch.vsock".
Definition api_path := bs "/tmp/ch-api.sock".
Definition snapshot_command : list bstr :=
  (bs <$> ["cloud-hypervisor"; "--kernel"; "../vmlinux"; "--initramfs"; "../target/debug/initramfs"; "--cpus"; "boot=1";
           "--memory"; "size=0"; "--memory-zone"]) ++
  [bs "id=0,size=" ++ print_uint mem_initial ++ bs ",file=memfile,shared=true"] ++
  (bs <$> ["--cmdline"; "console=hvc0"; "--console"; "file=/tmp/ch-console"; "--api-socket"]) ++
  [bs "path=" ++ api_path; bs "--vsock"; bs "cid=4,socket=" ++ vsock_prefix].
Definition restore_command : list bstr :=
  [bs "cloud-hypervisor"; bs "-v"; bs "--api-socket"; bs "path=" ++ api_path; bs "--restore";
   bs "source_url=file://vmsnapshot"].

Definition make_snapshot : Tr unit :=
  step _ <- try_act (MakeDir (bs "vmsnapshot"));
  step _ <- act (Spawn snapshot_command);
  step _ <- act Accept;
  step _ <- act ReadByte;
  step _ <- act (Connect api_path);
  step _ <- act (Api (bs "vm.pause") None);
  step _ <- act (Api (bs "vm.snapshot") (Some ([x7b; x22] ++ bs "destination_url" ++ [x22] ++ bs ": " ++ [x22] ++ bs "file://vmsnapshot" ++ [x22; x7d])));
  step _ <- act (Api (bs "vm.shutdown") None);
  step _ <- act Kill;
  step _ <- act WaitSuccess;
  step text <- act (ReadFile (bs "/tmp/ch-console"));
  step _ <- act (WriteFile (bs "vmsnapshot/console") text);
  step bytes <- act (ReadFile (bs "vmsnapshot/config.json"));
  step config <- from (parse_json bytes);
  step updated <- from (modify_config config mem_add);
  step _ <- act (WriteFile (bs "vmsnapshot/config.json") (print_json updated));
  from (Some tt).

(** Connecting to the new machine, once in a millisecond for a second. *)
Fixpoint connect_api (attempts n : nat) : Tr unit :=
  match attempts with
  | O => ([], None)
  | S attempts =>
      if connects n then ([Connect api_path], Some tt)
      else step _ <- try_act (Connect api_path); connect_api attempts (n + 1)
  end.

Definition restore : Tr unit :=
  step _ <- try_act (Remove vsock_prefix);
  step _ <- try_act (Remove api_path);
  step _ <- act (Spawn restore_command);
  step _ <- connect_api 1000 0;
  step _ <- act (Api (bs "vm.remove-device") (Some ([x7b; x22] ++ bs "id" ++ [x22] ++ bs ": " ++ [x22] ++ bs "_vsock0" ++ [x22; x7d])));
  step _ <- act (Api (bs "vm.resume") None);
  step _ <- act WaitSuccess;
  step original <- act (ReadFile (bs "vmsnapshot/console"));
  step text <- act (ReadFile (bs "/tmp/ch-console"));
  step _ <- act (Show original);
  step _ <- act (Show text);
  from (Some tt).

Definition snapshot_main : Tr unit :=
  step _ <- try_act (Remove vsock_prefix);
  step _ <- try_act (Remove (vsock_prefix ++ bs "_42"));
  step _ <- try_act (Remove api_path);
  step _ <- act (Bind (vsock_prefix ++ bs "_42"));
  step _ <- act (RunCommand (bs <$> ["truncate"; "--size=128M"; "memfile"]));
  step _ <- (if exists_dir then from (Some tt) else make_snapshot);
  restore.
End snapshot.

(** * Properties *)

(** ** The image client *)

Section image_client_lemmas.
Context `{RustixFileType} (e : Erofs).

Lemma get_inode_from_dirent_no_panic item : get_inode_from_dirent e item <> Panic.
Proof. unfold get_inode_from_dirent. destruct (try_into _ _); [apply get_inode_no_panic|done]. Qed.

Definition listed (item : DirentItem) (t : bstr) : Prop :=
  exists inode, get_inode_from_dirent e item = Ok inode /\ t = entry_head item inode ++ newline.

Lemma list_root_decreases :
  loop_decreases_on (list_root_step e) (fun x => dirents_measure x.1) (fun x => dirents_inv x.1).
Proof.
  intros [s out] [s' out'] Hi. simpl. destruct (dirents_next s) as [[s1 [item|err|]]|] eqn:E; [|done..].
  destruct (get_inode_from_dirent e item); [|done..]. intros [= -> _]. by eapply dirents_next_progress.
Qed.

Lemma list_root_loop s out items0 :
  dirents_inv s ->
  match loop (list_root_step e) (fun x => dirents_measure x.1) (s, out) with
  | Some (Ok t) => exists items texts, t = out ++ concat texts /\
      loop collect_dirents_step (fun x => dirents_measure x.1) (s, items0) = Some (Ok (items0 ++ items)) /\
      Forall2 listed items texts
  | Some (Err _) => True
  | Some Panic | None => False
  end.
Proof.
  revert out items0. induction s as [s IH] using (induction_ltof1 _ dirents_measure). intros out items0 Hi.
  rewrite (loop_unfold_on _ _ _ list_root_decreases) by done. rewrite collect_dirents_unfold by done.
  simpl. destruct (dirents_next s) as [[s1 [item|err|]]|] eqn:E; [|done|by apply dirents_next_no_panic in E|].
  - destruct (dirents_next_progress _ _ _ Hi E) as [Hi1 Hm].
    destruct (get_inode_from_dirent e item) as [inode|err|] eqn:Ee; [|done|by apply get_inode_from_dirent_no_panic in Ee].
    specialize (IH s1 Hm (out ++ entry_head item inode ++ newline) (items0 ++ [item]) Hi1).
    destruct (loop _ _ (s1, _)) as [[t| |]|]; [|done..].
    destruct IH as (items & texts & -> & -> & Hf).
    exists (item :: items), ((entry_head item inode ++ newline) :: texts). cbn [concat].
    rewrite <-!app_assoc. split_and!; [done..|]. constructor; [|done]. by exists inode.
  - exists [], []. rewrite !app_nil_r. split_and!; [done..|]. constructor.
Qed.
End image_client_lemmas.

Lemma root_listing_spec `{RustixFileType} data :
  match root_listing data with
  | Ok t => exists e dir d s items texts, Erofs_new data = Ok e /\ get_root_inode e = Ok dir /\
      get_dirents e dir = Ok (d, block_size e) /\ DirentsIterator_new d (block_size e) = Ok s /\
      collect_dirents s = Ok items /\ Forall2 (listed e) items texts /\ t = concat texts
  | Err _ => True
  | Panic => False
  end.
Proof.
  unfold root_listing. destruct (Erofs_new data) as [e|err|] eqn:He; [|done|]; cbn [rbind].
  2: { assert (Erofs_new data <> Panic) by (unfold Erofs_new; no_panic). done. }
  destruct (get_root_inode e) as [dir|err|] eqn:Hd; [|done|by apply get_inode_no_panic in Hd]. cbn [rbind].
  pose proof (get_inode_new _ _ _ Hd) as [b Hb].
  destruct (get_dirents e dir) as [[d bsz]|err|] eqn:Hg; [|done|]; cbn [rbind].
  2: { assert (get_dirents e dir <> Panic) by (unfold get_dirents; no_panic; by eapply get_data_no_panic). done. }
  assert (bsz = block_size e) as ->.
  { unfold get_dirents in Hg. destruct (decide _); [|done]. by apply rbind_Ok_inv in Hg as (? & _ & [= _ <-]). }
  destruct (DirentsIterator_new d _) as [s|err|] eqn:Hs; [|done|by apply DirentsIterator_new_no_panic in Hs]. cbn [rbind].
  pose proof (list_root_loop e s [] []) as Hl. unfold list_root.
  specialize (Hl ltac:(eapply DirentsIterator_new_inv; [apply block_size_pos|exact Hs])).
  destruct (loop _ _ _) as [[t|err|]|]; [|done..]. destruct Hl as (items & texts & -> & Hc & Hf).
  exists e, dir, d, s, items, texts. split_and!; try done. unfold collect_dirents. by rewrite Hc.
Qed.

(** What the image client prints.  It panics only when an argument is missing or
    the reference is none; otherwise it reports an error, or the image opened and
    the lines are those of exactly the entries of its root directory, in their
    order. *)
Theorem imageclient_spec `{RustixFileType} {Fd} reference_parses
    (exchange : bstr -> ImageClient.Request -> result ImageClient.Error (option Fd * ImageClient.WireResponse))
    mmap elapsed args :
  (forall p r, exchange p r <> Panic) ->
  match imageclient_main reference_parses exchange mmap elapsed args with
  | Ok out => exists socket req resp data e dir d s items texts,
      args !! 1%nat = Some socket /\ ImageClient.request_erofs_image (exchange socket) req = Ok resp /\
      mmap (ImageClient.fd resp) = Some data /\ Erofs_new data = Ok e /\ get_root_inode e = Ok dir /\
      get_dirents e dir = Ok (d, block_size e) /\ DirentsIterator_new d (block_size e) = Ok s /\
      collect_dirents s = Ok items /\ Forall2 (listed e) items texts /\
      out = bs "got response in " ++ elapsed ++ bs "s" ++ newline ++ concat texts
  | Err _ => True
  | Panic => args !! 1%nat = None \/ args !! 2%nat = None \/
      exists r, args !! 2%nat = Some r /\ reference_parses r = false
  end.
Proof.
  intros Hex. unfold imageclient_main.
  destruct (args !! 1%nat) as [socket|] eqn:H1; [|by left]. cbn [expect rbind].
  destruct (args !! 2%nat) as [reference|] eqn:H2; [|by right; left]. cbn [expect rbind].
  unfold ImageClient.Request_new. destruct (reference_parses reference) eqn:Hr; [|by right; right; eauto].
  cbn [Spec.Arch_try_from Spec.Os_try_from map_err rbind Guest.unwrap].
  set (req := {| ImageClient.reference := _ |}).
  destruct (ImageClient.request_erofs_image (exchange socket) req) as [resp|err|] eqn:Hq; [|done|].
  2: { exfalso. unfold ImageClient.request_erofs_image in Hq. specialize (Hex socket req).
       destruct (exchange socket req) as [[fd w]|err|]; [|done..]. cbn [rbind] in Hq.
       by destruct fd, w. }
  cbn [map_err rbind]. destruct (mmap _) as [data|] eqn:Hm; [|done]. cbn [ok_or rbind].
  pose proof (root_listing_spec data) as Hl. destruct (root_listing data) as [t|err|]; [|done..].
  destruct Hl as (e & dir & d & s & items & texts & Hl). cbn [map_err rbind].
  exists socket, req, resp, data, e, dir, d, s, items, texts. destruct Hl as (? & ? & ? & ? & ? & ? & ->). by split_and!.
Qed.

(** ** The block test *)

(** Every command of the block test has exactly one disk, at its end, and it is
    read-only; a path wins over a socket. *)
Theorem block_command_spec a :
  match block_command a with
  | Some cmd => exists front dev, cmd = front ++ [bs "--disk"; dev] /\ (bs "--disk" ∉ front) /\
      match disk a with
      | Some d => dev = bs "path=" ++ d ++ bs ",readonly=on,id=12345"
      | None => exists s, user_block a = Some s /\ dev = bs "vhost_user=on,socket=" ++ s ++ bs ",id=12345,readonly=on"
      end
  | None => disk a = None /\ user_block a = None
  end.
Proof.
  unfold block_command.
  assert (forall dev, (if strace a then bs <$> ["strace"; "-o"; "/tmp/strace.out"; "-f"; "--"; "cloud-hypervisor"]
         else [bs "cloud-hypervisor"]) ++ block_options ++ [bs "--disk"; dev] =
    ((if strace a then bs <$> ["strace"; "-o"; "/tmp/strace.out"; "-f"; "--"; "cloud-hypervisor"]
         else [bs "cloud-hypervisor"]) ++ block_options) ++ [bs "--disk"; dev]) as Happ by (intros; by rewrite app_assoc).
  assert (bs "--disk" ∉ (if strace a then bs <$> ["strace"; "-o"; "/tmp/strace.out"; "-f"; "--"; "cloud-hypervisor"]
         else [bs "cloud-hypervisor"]) ++ block_options) as Hno.
  { destruct (strace a); apply (bool_decide_unpack _); vm_compute; exact I. }
  destruct (disk a) as [d|], (user_block a) as [s|]; cbn [mbind option_bind]; [..|done].
  all: rewrite Happ; do 2 eexists; (split; [reflexivity|]); (split; [exact Hno|]); eauto.
Qed.

(** Both devices or none: the message is printed either way, but with both the
    machine is started on the disk. *)
Example both_devices_started d s :
  blocktest_main (fun _ => Some true) (fun _ => Some [])
    {| strace := false; ch_log := false; user_block := Some s; disk := Some d |} =
    (bs "must give --user-block or --disk" ++ [x0a; x0a], Some tt).
Proof. reflexivity. Qed.

(** ** The snapshot *)

(** The value at a path of keys. *)
Fixpoint json_at (path : list bstr) (j : Json) : option Json :=
  match path with
  | [] => Some j
  | k :: path => match j with JObject m => get_key k m ≫= json_at path | _ => None end
  end.

Lemma alter_key_spec k f m m' :
  alter_key k f m = Some m' ->
  (exists v v', get_key k m = Some v /\ f v = Some v' /\ get_key k m' = Some v') /\
  forall k', k' <> k -> get_key k' m' = get_key k' m.
Proof.
  revert m'. induction m as [|[k1 v1] m IH]; intros m'; simpl; [done|]. unfold get_key. simpl.
  case_decide as Hk; simpl.
  - destruct (f v1) as [v'|] eqn:Hf; [|done]. intros [= <-]. subst k1. simpl.
    rewrite (bool_decide_eq_true_2 (k = k)) by done. split; [by exists v1, v'|].
    intros k' Hne. by rewrite (bool_decide_eq_false_2 (k = k')) by done.
  - destruct (alter_key k f m) as [m1|] eqn:Hm; [|done]. intros [= <-]. simpl.
    rewrite (bool_decide_eq_false_2 (k1 = k)) by done.
    destruct (IH m1 eq_refl) as [Hv Ho]. split; [exact Hv|]. intros k' Hne.
    destruct (bool_decide (k1 = k')); [done|]. by apply Ho.
Qed.

(** Changing the value of a key changes what is below it and nothing beside it. *)
Lemma at_key_spec k f j j' :
  at_key k f j = Some j' ->
  (exists v v', json_at [k] j = Some v /\ f v = Some v' /\ forall p, json_at (k :: p) j' = json_at p v' /\ json_at (k :: p) j = json_at p v) /\
  forall k' p, k' <> k -> json_at (k' :: p) j' = json_at (k' :: p) j.
Proof.
  destruct j as [| | | | |m]; [done..|]. cbn [at_key]. destruct (alter_key k f m) as [m'|] eqn:Hm; [|done]. intros [= <-].
  apply alter_key_spec in Hm as [(v & v' & Hv & Hf & Hv') Ho]. split.
  - exists v, v'. cbn [json_at]. rewrite Hv. split; [done|]. split; [done|]. intros p. by rewrite Hv'.
  - intros k' p Hne. cbn [json_at]. by rewrite Ho.
Qed.

(** The configuration of a snapshot is changed in its memory zones and nowhere
    else: there was one zone with a [shared] field, which is now false, its other
    fields are as before, and there is a second zone of the added size. *)
Theorem modify_config_spec config n config' :
  modify_config config n = Some config' ->
  (exists z z', json_at [bs "memory"; bs "zones"] config = Some (JArray [z]) /\
     json_at [bs "memory"; bs "zones"] config' = Some (JArray [z'; new_zone n]) /\
     json_at [bs "shared"] z' = Some (JBool false) /\
     forall k p, k <> bs "shared" -> json_at (k :: p) z' = json_at (k :: p) z) /\
  (forall k p, k <> bs "memory" -> json_at (k :: p) config' = json_at (k :: p) config) /\
  (forall k p, k <> bs "zones" -> json_at (bs "memory" :: k :: p) config' = json_at (bs "memory" :: k :: p) config).
Proof.
  intros E. apply at_key_spec in E as [(m & m' & Hm & Hz & Hp) Ho].
  apply at_key_spec in Hz as [(zs & zs' & Hzs & Hf & Hpz) Hoz].
  assert (exists z z', zs = JArray [z] /\ zs' = JArray [z'; new_zone n] /\
    at_key (bs "shared") (fun _ => Some (JBool false)) z = Some z') as (z & z' & -> & -> & Hs).
  { unfold modify_zones in Hf. destruct zs as [| | | |[|z [|]]|]; try done.
    destruct (at_key _ _ z) as [z'|] eqn:Hs; [|done]. injection Hf as <-. by exists z, z'. }
  apply at_key_spec in Hs as [(v & v' & _ & [= <-] & Hps) Hos]. split_and!.
  - exists z, z'. rewrite !(proj1 (Hp _)), !(proj2 (Hp _)), (proj1 (Hpz [])), (proj2 (Hpz [])).
    split_and!; [done..|by rewrite (proj1 (Hps []))|]. intros k p Hk. by apply Hos.
  - intros k p Hk. by apply Ho.
  - intros k p Hk. rewrite (proj1 (Hp _)), (proj2 (Hp _)). by apply Hoz.
Qed.

Lemma mem_add_value : mem_add = 7 * 2 ^ 27.
Proof. reflexivity. Qed.

Section snapshot_lemmas.
Context (answer : Action -> option bstr) (connects : nat -> bool).
Context (parse_json : bstr -> option Json) (print_json : Json -> bstr).

Lemma tbind_In {A B} (c : Tr A) (k : A -> Tr B) x :
  x ∈ (tbind c k).1 -> x ∈ c.1 \/ exists a, c.2 = Some a /\ x ∈ (k a).1.
Proof.
  unfold tbind. destruct (c.2) as [a|]; simpl; [|by left]. intros [?|?]%elem_of_app; [by left|]. by right; eauto.
Qed.
Lemma tbind_Some {A B} (c : Tr A) (k : A -> Tr B) b :
  (tbind c k).2 = Some b -> exists a, c.2 = Some a /\ (k a).2 = Some b /\ (tbind c k).1 = c.1 ++ (k a).1.
Proof. unfold tbind. destruct (c.2) as [a|]; simpl; [|done]. eauto. Qed.

#[local] Notation make := (make_snapshot answer parse_json print_json).

Lemma make_snapshot_no_restore : Spawn restore_command ∉ make.1.
Proof.
  intros Hin. unfold make_snapshot in Hin.
  repeat (apply tbind_In in Hin as [Hin|(? & _ & Hin)];
    [simpl in Hin; first [by apply elem_of_nil in Hin | apply list_elem_of_singleton in Hin; discriminate Hin]|]).
  simpl in Hin. by apply elem_of_nil in Hin.
Qed.

Lemma make_snapshot_done :
  make.2 = Some tt -> exists config config', modify_config config mem_add = Some config' /\
    WriteFile (bs "vmsnapshot/config.json") (print_json config') ∈ make.1.
Proof.
  unfold make_snapshot. intros E.
  repeat (apply tbind_Some in E as (? & ? & E & ->)). cbn [from snd] in *.
  do 2 eexists. split; [eassumption|]. rewrite !elem_of_app. do 15 right. left. simpl. by left.
Qed.
End snapshot_lemmas.

(** A machine is restored only from a changed snapshot: when the experiment makes
    the snapshot itself, the restoring command comes after the write of the
    configuration that [modify_config] gave. *)
Theorem restore_after_config answer exists_dir connects parse_json print_json :
  let t := (snapshot_main answer exists_dir connects parse_json print_json).1 in
  Spawn restore_command ∈ t -> exists_dir = false ->
  exists before after config config', t = before ++ after /\ modify_config config mem_add = Some config' /\
    WriteFile (bs "vmsnapshot/config.json") (print_json config') ∈ before /\ (Spawn restore_command ∉ before).
Proof.
  intros t Hin ->. subst t. unfold snapshot_main in *.
  pose proof (make_snapshot_no_restore answer parse_json print_json) as Hno.
  pose proof (make_snapshot_done answer parse_json print_json) as Hdone.
  set (make := make_snapshot answer parse_json print_json) in *. set (rest := restore answer connects) in *.
  clearbody make rest. unfold tbind, try_act, act in Hin |- *. cbn [fst snd app] in Hin |- *.
  assert (forall a, (exists p, a = Remove p) \/ (exists p, a = Bind p) \/ (exists c, a = RunCommand c) ->
    Spawn restore_command <> a) as Ha by (intros a [[? ->]|[[? ->]|[? ->]]]; discriminate).
  destruct (answer (Bind _)); cbn [fst snd app] in Hin |- *.
  2: { exfalso. rewrite !elem_of_cons in Hin. destruct Hin as [H|[H|[H|[H|H%elem_of_nil]]]]; try discriminate H; done. }
  destruct (answer (RunCommand _)); cbn [fst snd app] in Hin |- *.
  2: { exfalso. rewrite !elem_of_cons in Hin. destruct Hin as [H|[H|[H|[H|[H|H%elem_of_nil]]]]]; try discriminate H; done. }
  rewrite !elem_of_cons in Hin. destruct Hin as [H|[H|[H|[H|[H|Hin]]]]]; try discriminate H.
  destruct (make.2) as [[]|]; [|done].
  destruct (Hdone eq_refl) as (config & config' & Hc & Hw). cbn [fst snd].
  eexists (_ :: _ :: _ :: _ :: _ :: make.1), rest.1, config, config'. split; [reflexivity|]. split; [exact Hc|].
  split; [by do 5 right|]. rewrite !not_elem_of_cons. split_and!; try done; apply Ha; eauto.
Qed.
