(* ===== verification/ServerMain.v ===== *)
(** The programs of the load balancer and of a worker (src/peserver/src/lb.rs and
    src/peserver/src/worker.rs, [main]): their arguments, the checks before they
    serve, and which peer a forwarded request goes to.

    The file proves what a program that serves has checked, and that the balancer
    and a worker started this way are a system of [Admission].  pingora's server,
    its listeners and the metrics service are only recorded. *)
From stdpp Require Import option base list sets numbers strings gmap.
From Stdlib Require Import ZArith Lia.
From S2P Require Import Prelude MemFile BTree Paths Text IoFile RuntimeSpec Run LoadBalancer VmPool Admission.
#[local] Open Scope Z_scope.
#[local] Open Scope result_scope.

(** Where a service listens; a socket is made for its owner only. *)
Inductive Listener := ListenTcp (addr : bstr) | ListenUds (path : bstr) (mode : Z).

Definition listeners (tcp uds : option bstr) : list Listener :=
  (match tcp with Some a => [ListenTcp a] | None => [] end) ++
  (match uds with Some a => [ListenUds a 0x180] | None => [] end).

(** * The load balancer *)

Record LbArgs := { lb_tcp : option bstr; lb_uds : option bstr; lb_prom : option bstr; lb_worker : list bstr }.

Record LbServer := { server_lb : LB; lb_listeners : list Listener; lb_metrics : option bstr }.

(** An error is the exit code; [expect] panics. *)
Definition lb_main (new_uds : bstr -> bool) (args : LbArgs) : result Z LbServer :=
  if bool_decide (lb_tcp args = None) && bool_decide (lb_uds args = None) then Err 1 else
  let? peers := match parse_peers new_uds (lb_worker args) with Ok p => Ok p | _ => Panic end in
  if bool_decide (peers = []) then Err 1 else
  let? workers := expect (Workers_new peers) in
  Ok {| server_lb := LB_new workers; lb_listeners := listeners (lb_tcp args) (lb_uds args);
        lb_metrics := lb_prom args |}.

(** [LBCtx] of a request: the worker whose permits it has. *)
Definition ctx_worker (s : LB) (id : nat) : option nat :=
  match open s !! id with Some (Forwarded w) => Some w | _ => None end.
Definition proxy_upstream_filter (s : LB) (id : nat) : bool := bool_decide (is_Some (ctx_worker s id)).
Definition upstream_peer (s : LB) (id : nat) : result unit Peer :=
  ok_or (w ← ctx_worker s id; workers s !! w) tt.

(** * A worker *)

Record WorkerArgs := {
  w_ch : bstr; w_kernel : bstr; w_initramfs : bstr; w_server_cpuset : bstr; w_worker_cpuset : bstr;
  w_tcp : option bstr; w_uds : option bstr; w_prom : option bstr; w_ch_console : bool; w_strace : bool;
  w_ch_log_level : option bstr; w_image_service : bstr; w_arch : OciImage.Arch; w_os : OciImage.Os;
}.

(** The arguments with their defaults. *)
Definition parse_worker_args (ch kernel initramfs server_cpuset worker_cpuset tcp uds prom : option bstr)
    (ch_console strace : bool) (log_level : option bstr) (image_service : bstr) (arch : option OciImage.Arch)
    (os : option OciImage.Os) : WorkerArgs :=
  {| w_ch := default (bs "../cloud-hypervisor-static") ch; w_kernel := default (bs "../vmlinux") kernel;
     w_initramfs := default (bs "../target/debug/initramfs") initramfs;
     w_server_cpuset := default (bs "0-4") server_cpuset; w_worker_cpuset := default (bs "4:2:2") worker_cpuset;
     w_tcp := tcp; w_uds := uds; w_prom := prom; w_ch_console := ch_console; w_strace := strace;
     w_ch_log_level := log_level; w_image_service := image_service; w_arch := default OciImage.Amd64 arch;
     w_os := default OciImage.Linux os |}.

Record HttpRunnerApp := {
  app_pool : Pool; app_max_conn : Z; app_ch : bstr; app_initramfs : bstr; app_kernel : bstr; app_ch_console : bool;
  app_strace : bool; app_log_level : option ChLogLevel; app_image_service : bstr; app_arch : OciImage.Arch;
  app_os : OciImage.Os;
}.

Record WorkerServer := {
  worker_app : HttpRunnerApp; worker_cores : gset Z; worker_listeners : list Listener; worker_metrics : option bstr;
}.

Section worker.
(** The affinity of the process, the files, and [sched_setaffinity]. *)
Context (is_set : Z -> bool) (count : Z) (is_file : bstr -> bool) (set_affinity : gset Z -> bool).

Definition assert_file_exists (p : bstr) : result Z unit := if is_file p then Ok tt else Panic.

Definition worker_main (cwd : option bstr) (args : WorkerArgs) : result Z WorkerServer :=
  let? cwd := expect cwd in
  if bool_decide (w_tcp args = None) && bool_decide (w_uds args = None) then Err 1 else
  let? '(server, pool, max_conn) :=
    match start_worker is_set count (w_server_cpuset args) (w_worker_cpuset args) with Ok x => Ok x | _ => Panic end in
  if negb (set_affinity server) then Panic else
  let? level := match w_ch_log_level args with
                | Some x => let? l := expect (ChLogLevel_try_from x) in Ok (Some l)
                | None => Ok None
                end in
  let app := {| app_pool := pool; app_max_conn := max_conn; app_kernel := path_push cwd (w_kernel args);
                app_initramfs := path_push cwd (w_initramfs args); app_ch := path_push cwd (w_ch args);
                app_ch_console := w_ch_console args; app_strace := w_strace args; app_log_level := level;
                app_image_service := w_image_service args; app_arch := w_arch args; app_os := w_os args |} in
  let? _ := assert_file_exists (app_kernel app) in
  let? _ := assert_file_exists (app_initramfs app) in
  let? _ := assert_file_exists (app_ch app) in
  Ok {| worker_app := app; worker_cores := server; worker_listeners := listeners (w_tcp args) (w_uds args);
        worker_metrics := w_prom args |}.
End worker.

(** * Lemmas *)

Lemma parse_peers_length new_uds args peers : parse_peers new_uds args = Ok peers -> length peers = length args.
Proof.
  revert peers. induction args as [|a args IH]; intros peers; cbn [parse_peers]; [by intros [= <-]|].
  intros E. apply rbind_Ok_inv in E as ([k addr] & _ & E). apply rbind_Ok_inv in E as (p & _ & E).
  apply rbind_Ok_inv in E as (rest & Hr & [= <-]). simpl. by rewrite (IH rest).
Qed.

Lemma listeners_nonempty tcp uds :
  bool_decide (tcp = None) && bool_decide (uds = None) = false -> listeners tcp uds <> [].
Proof. by destruct tcp, uds. Qed.

Lemma lb_main_Ok new_uds args l :
  lb_main new_uds args = Ok l ->
  exists peers, parse_peers new_uds (lb_worker args) = Ok peers /\ Workers_new peers = Some peers /\ peers <> [] /\
    server_lb l = LB_new peers /\ lb_listeners l <> [].
Proof.
  unfold lb_main. destruct (_ && _) eqn:El; [done|].
  destruct (parse_peers _ _) as [peers| |]; [|done..]. cbn [rbind].
  destruct (bool_decide (peers = [])) eqn:Hp; [done|apply bool_decide_eq_false_1 in Hp]. unfold expect. destruct (Workers_new peers) as [ws|] eqn:Ew; [|done].
  cbn [rbind]. intros [= <-]. pose proof Ew as Ew'. unfold Workers_new in Ew'.
  destruct (decide (peers = [])); [done|]. destruct (_ <? _); [done|]. injection Ew' as <-.
  exists peers. split_and!; [done|done|done|done|]. by apply listeners_nonempty.
Qed.

Section worker_lemmas.
Context (is_set : Z -> bool) (count : Z) (is_file : bstr -> bool) (set_affinity : gset Z -> bool).

Lemma worker_main_Ok cwd args w :
  worker_main is_set count is_file set_affinity cwd args = Ok w ->
  start_worker is_set count (w_server_cpuset args) (w_worker_cpuset args) =
    Ok (worker_cores w, app_pool (worker_app w), app_max_conn (worker_app w)) /\
  set_affinity (worker_cores w) = true /\ is_file (app_kernel (worker_app w)) = true /\
  is_file (app_initramfs (worker_app w)) = true /\ is_file (app_ch (worker_app w)) = true /\
  worker_listeners w <> [].
Proof.
  unfold worker_main, assert_file_exists. destruct cwd as [cwd|]; [|done]. cbn [rbind expect].
  destruct (_ && _) eqn:El; [done|]. destruct (start_worker _ _ _ _) as [[[server p] n]|[]|]; [|done]. cbn [rbind].
  destruct (set_affinity server) eqn:Ea; [|done]. cbn [negb]. intros E.
  apply rbind_Ok_inv in E as (level & _ & E). cbn [app_kernel app_initramfs app_ch] in E.
  destruct (is_file (path_push cwd (w_kernel args))) eqn:E1; [|done]. cbn [rbind] in E.
  destruct (is_file (path_push cwd (w_initramfs args))) eqn:E2; [|done]. cbn [rbind] in E.
  destruct (is_file (path_push cwd (w_ch args))) eqn:E3; [|done]. cbn [rbind] in E. injection E as <-.
  split_and!; [done..|]. by apply listeners_nonempty.
Qed.
End worker_lemmas.

Section system_lemmas.
Context (from_utf8_lossy : bstr -> bstr).
Context (arch_try_from : bstr -> option OciImage.Arch) (os_try_from : bstr -> option OciImage.Os) (max_conn : Z).
Abbreviation step := (sys_step from_utf8_lossy arch_try_from os_try_from max_conn).

Lemma end_request_workers id p s s' :
  end_request arch_try_from os_try_from id p s = Some s' -> workers (balancer s') = workers (balancer s).
Proof.
  unfold end_request. destruct (open (balancer s) !! id) as [[w|[|w]]|]; [done| |done..].
  destruct (handle _ _ (balancer s) _) as [[b o]|] eqn:E; [|done]. intros [= <-]. by eapply handle_workers.
Qed.

(** The peers do not change. *)
Lemma step_workers s e s' r : step s e = Some (s', r) -> workers (balancer s') = workers (balancer s).
Proof.
  assert (forall e, ('(b, _) ← handle arch_try_from os_try_from (balancer s) e; Some (set_balancer b s, false)) = Some (s', r) ->
    workers (balancer s') = workers (balancer s)) as Hb.
  { intros e0. destruct (handle _ _ (balancer s) e0) as [[b o]|] eqn:E; [|done]. intros [= <- _]. by eapply handle_workers. }
  destruct e as [e|chunks|id|e|id|id]; cbn [sys_step].
  - destruct e as [| | |id|[|w] n]; [apply Hb..| |done|apply Hb].
    destruct (open (balancer s) !! id) as [[w|[|w]]|]; [apply Hb|done|apply Hb..].
  - case_bool_decide; [|done]. destruct (get_max_conn _ _) as [n|]; [|done]. apply Hb.
  - destruct (open (balancer s) !! id) as [[w|[|w]]|]; [done| |done..]. destruct (jobs s !! id); [done|].
    destruct (pool_step _ _) as [[p [|]]|]; [..|done]; by intros [= <- _].
  - destruct e; try done; destruct (pool_step _ _) as [[p b]|]; try done; by intros [= <- _].
  - assert (forall p, (s0 ← end_request arch_try_from os_try_from id p s; Some (s0, false)) = Some (s', r) ->
      workers (balancer s') = workers (balancer s)) as He.
    { intros p. destruct (end_request _ _ _ _ _) as [s0|] eqn:E; [|done]. intros [= <- _]. by eapply end_request_workers. }
    destruct (jobs s !! id) as [q|]; [case_bool_decide; [|done]|]; apply He.
  - destruct (match jobs s !! id with Some _ => _ | None => _ end) as [p|]; [|done]. cbn.
    destruct (end_request _ _ _ p s) as [s0|] eqn:E; [|done]. intros [= <- _]. by eapply end_request_workers.
Qed.

Lemma reachable_workers peers cores s :
  sys_reachable from_utf8_lossy arch_try_from os_try_from max_conn peers cores s -> workers (balancer s) = peers.
Proof. induction 1 as [|s e s' r _ IH Hs]; [done|]. by apply step_workers in Hs as ->. Qed.
End system_lemmas.

(** The system that the two programs are when they have started. *)
Definition started_system (l : LbServer) (w : WorkerServer) : System :=
  {| balancer := server_lb l; pool := app_pool (worker_app w); jobs := ∅ |}.

(** * Properties *)

(** The programs start into the system that the admission theorem is about.  A
    balancer that serves has a listener and at least one and at most 65535 peers,
    one for each argument; a worker that serves has a listener, its three files,
    and the cores of its affinity.  From there, whatever happens, the requests that
    are forwarded to this worker are at most what it announced, and a request that
    may go upstream goes to the peer whose permits it holds. *)
Theorem servers_admit from_utf8_lossy arch_try_from os_try_from new_uds is_set count is_file set_affinity cwd
    lb_args w_args l w :
  (forall n, 0 <= n -> from_utf8_lossy (print_uint n) = print_uint n) ->
  lb_main new_uds lb_args = Ok l -> worker_main is_set count is_file set_affinity cwd w_args = Ok w ->
  Z.of_nat (length (threads (app_pool (worker_app w)))) < 2 ^ 63 ->
  0 < zlen (lb_worker lb_args) <= u16_max /\ lb_listeners l <> [] /\ worker_listeners w <> [] /\
  is_file (app_kernel (worker_app w)) = true /\ is_file (app_initramfs (worker_app w)) = true /\
  is_file (app_ch (worker_app w)) = true /\ set_affinity (worker_cores w) = true /\
  forall es s,
    sys_run from_utf8_lossy arch_try_from os_try_from (app_max_conn (worker_app w)) (started_system l w) es = Some s ->
    forwarded 0 (open (balancer s)) <= app_max_conn (worker_app w) /\
    forall id, proxy_upstream_filter (balancer s) id = true -> ctx_worker (balancer s) id = Some 0%nat ->
      exists p, workers (server_lb l) !! 0%nat = Some p /\ upstream_peer (balancer s) id = Ok p.
Proof.
  intros Hlossy Hl Hw Hcores. apply lb_main_Ok in Hl as (peers & Hp & Hnew & Hne & Hlb & Hll).
  apply worker_main_Ok in Hw as (Hs & Ha & Hk & Hi & Hc & Hwl).
  apply start_worker_capacity in Hs as (o & n & per & sets & _ & _ & _ & Hpool & Hmax).
  assert (length (threads (app_pool (worker_app w))) = length sets) as Hth
    by (rewrite Hpool; apply length_replicate).
  rewrite Hth in Hcores. split_and!; try done.
  - apply parse_peers_length in Hp. unfold zlen. rewrite <-Hp. destruct peers; [done|simpl; lia].
  - apply parse_peers_length in Hp. unfold Workers_new in Hnew. rewrite decide_False in Hnew by done.
    destruct (Z.ltb_spec u16_max (zlen peers)) as [|Hle]; [done|]. unfold zlen in *. by rewrite <-Hp.
  - intros es s Hrun.
    assert (sys_reachable from_utf8_lossy arch_try_from os_try_from (app_max_conn (worker_app w)) peers (length sets) s) as Hr.
    { eapply sys_run_reachable; [|exact Hrun]. unfold started_system. rewrite Hlb, Hpool. constructor. }
    pose proof (reachable_workers _ _ _ _ _ _ _ Hr) as Hws. rewrite Hmax in Hr |- *.
    pose proof Hr as Hr'. eapply sys_reachable_ok in Hr' as Hok; [|done..].
    split.
    + apply capacity in Hok. rewrite wmul_small by (unfold in_width; lia). lia.
    + intros id _ Hid. unfold upstream_peer. rewrite Hid, Hws, Hlb. simpl.
      destruct peers as [|p ps]; [done|]. exists p. done.
Qed.
