(* ===== verification/Runner.v ===== *)
(** The command line runner (src/perunner/src/main.rs).

    The runner takes an image from an index file or from the image service,
    packs the input directory behind the configuration into an io file, runs one
    virtual machine or several in the synchronous pool, and prints what came
    back.  The file models its functions: packing, escaping and printing, the
    set-up of [main] up to the inputs of the workers, and the owner's side of the
    parallel run on the pool of [SyncPool].  The two consoles are lists of bytes
    and of the lines that [eprintln!] formats; what [main] prints about its own
    progress is left out. *)
From stdpp Require Import option base list numbers strings gmap.
From Stdlib Require Import ZArith Lia.
From S2P Require Import Prelude MemFile BTree Paths Text Pearchive IoFile RuntimeSpec Run VmPool SyncPool ImageIndex.
#[local] Open Scope Z_scope.
#[local] Open Scope result_scope.
#[local] Opaque le_bytes.

(** * Packing the input *)

Section packing.
Context (bincode_encode : Config -> option (list byte)).
Context (sendfile : bstr -> Z -> result Z (bstr * bstr)).

(** [dir] is the tree of the input directory, if there is one.  Every error is
    unwrapped. *)
Definition create_pack_file_from_dir (dir : option (list fs_entry)) (file : Out) (config : Config)
    : result Z Out :=
  let? file := Guest.unwrap (write_io_file_config bincode_encode file config 0) in
  match dir with
  | Some es =>
      let archive_start_pos := o_pos file in
      let? archive := Guest.unwrap (pack_dir_to_writer sendfile es) in
      let? file := expect (io_write_all archive file) in
      let archive_end_pos := o_pos file in
      let? size := expect (try_into 32 (wsub 64 archive_end_pos archive_start_pos)) in
      expect (io_write_all (le_bytes 4 size) (seek 0 file))
  | None => Ok file
  end.
End packing.

(** * Printing *)

(** Newlines, tabs and quotes stay as they are.  The output buffer is cleared
    first. *)
Definition escape_byte (b : byte) : bstr :=
  match b with
  | x0a | x09 | x27 => [b]
  | _ => escape_default b
  end.
Definition escape_bytes (input : bstr) : bstr := flat_map escape_byte input.

(** [write_escaped] goes through the data in pieces of 4096 bytes. *)
Section write_escaped.
Context {W : Type} `{Write W}.

Definition write_escaped_step (s : bstr * W) : loop_step (bstr * W) (result Z W) :=
  let '(cur, w) := s in
  if decide (cur = []) then Done (Ok w)
  else
    let n := Z.min (zlen cur) 4096 in
    match io_write_all (escape_bytes (ztake n cur)) w with
    | Some w => Again (zdrop n cur, w)
    | None => Done Panic
    end.

Definition write_escaped (r : bstr) (w : W) : result Z W :=
  loop_result (loop write_escaped_step (fun s => length s.1) (r, w)).
End write_escaped.

(** What appears on a console: bytes, and the lines of the formatting macros
    with their arguments. *)
Inductive Printed :=
  | PByte (b : byte)
  | PFile (name : bstr) (len : Z)
  | PSection (name : string)
  | PResponse (r : Response)
  | PJson (r : Response)
  | PError (e : ChError)
  | PArgs (args : list bstr).

Record Stream := { printed : list Printed }.

Definition println (p : Printed) (s : Stream) : Stream := {| printed := printed s ++ [p] |}.

#[export] Instance write_stream : Write Stream :=
  fun data s => Some {| printed := printed s ++ (PByte <$> data) |}.

Record Console := { c_stdout : Stream; c_stderr : Stream }.

Definition on_stdout (f : Stream -> result Z Stream) (c : Console) : result Z Console :=
  let? s := f (c_stdout c) in Ok {| c_stdout := s; c_stderr := c_stderr c |}.
Definition on_stderr (f : Stream -> result Z Stream) (c : Console) : result Z Console :=
  let? s := f (c_stderr c) in Ok {| c_stdout := c_stdout c; c_stderr := s |}.

(** [UnpackVisitorPrinter], with the console it prints to.  A panic of the
    printing ends the program. *)
Record UnpackVisitorPrinter := { pr_stdout : bool; pr_console : result Z Console }.

Definition print_file (name data : bstr) (to_stdout : bool) (c : Console) : result Z Console :=
  if to_stdout && bool_decide (components name = components (bytes_of_string "stdout"))
  then on_stdout (write_escaped data) c
  else on_stderr (fun s => write_escaped data (println (PFile name (zlen data)) s)) c.

#[export] Instance visit_printer : UnpackVisitor UnpackVisitorPrinter := {|
  visit_file v name data :=
    (true, {| pr_stdout := pr_stdout v;
              pr_console := let? c := pr_console v in print_file name data (pr_stdout v) c |})
|}.

Definition dump_archive (archive : bstr) (stdout : bool) (c : Console) : result Z Console :=
  match unpack_visitor archive {| pr_stdout := stdout; pr_console := Ok c |} with
  | Some (v, Ok _) => pr_console v
  | _ => Panic
  end.

(** * The output of a worker *)

(** The input and output of [worker::run]; the io file is carried by its
    contents. *)
Record RunInput := {
  ri_id : Z; ri_ch_config : CloudHypervisorConfig; ri_ch_timeout : Duration; ri_io_file : IoFile;
  ri_image : PathBufOrOwnedFd;
}.
Record RunOutput := { ro_id : Z; ro_io_file : IoFile; ro_logs : CloudHypervisorLogs }.

Section runner.
(** What can be read from a log file. *)
Context (log_contents : bstr -> bstr).
Context (json_decode : list byte -> option Response).

Definition dump_file (name : string) (file : option bstr) (c : Console) : result Z Console :=
  match file with
  | Some p => on_stderr (fun s => expect (io_write_all (log_contents p) (println (PSection name) s))) c
  | None => Ok c
  end.

Definition dump_logs (logs : CloudHypervisorLogs) (c : Console) : result Z Console :=
  let? c := dump_file "ch err" (err_file logs) c in
  let? c := dump_file "ch log" (log_file logs) c in
  dump_file "ch con" (con_file logs) c.

(** The map covers the archive behind the response, where reading the response
    left the file. *)
Definition handle_worker_output (output : RunOutput + CloudHypervisorPostMortem)
    (format : ResponseFormat) (stdout : bool) (c : Console) : result Z Console :=
  match output with
  | inl out =>
      let? c := dump_logs (ro_logs out) c in
      let file := io_file (ro_io_file out) in
      let? '(archive_size, response) := Guest.unwrap (read_io_file_response json_decode file) in
      let? c := on_stderr (fun s => Ok (println (PResponse response) s)) c in
      match format with
      | JsonV1 => on_stdout (fun s => Ok (println (PJson response) s)) c
      | PeArchiveV1 =>
          let? '(_, _, file) := Guest.unwrap (read_io_file_response_bytes file) in
          let? mapping := expect (get_range (o_bytes file) (o_pos file) (o_pos file + archive_size)) in
          dump_archive mapping stdout c
      end
  | inr e =>
      let? c := dump_logs (pm_logs e) c in
      let? c := on_stderr (fun s => Ok (println (PError (pm_error e)) s)) c in
      match pm_args e with
      | Some args => on_stderr (fun s => Ok (println (PArgs args) s)) c
      | None => Ok c
      end
  end.
End runner.

(** * The set-up of [main] *)

(** [Duration::from_millis] and the addition of durations, which panics on
    overflow. *)
Definition from_millis (ms : Z) : Duration :=
  {| d_secs := ms / 1000; d_nanos := ms mod 1000 * 1000000 |}.
Definition duration_add (a b : Duration) : option Duration :=
  let nanos := d_nanos a + d_nanos b in
  let '(carry, nanos) := if 1000000000 <=? nanos then (1, nanos - 1000000000) else (0, nanos) in
  secs ← try_into 64 (d_secs a + d_secs b + carry); Some {| d_secs := secs; d_nanos := nanos |}.

Record Args := {
  a_ch : bstr; a_kernel : bstr; a_initramfs : bstr; a_index : option bstr; a_image_service : option bstr;
  a_image : bstr; a_input : option bstr; a_stdin : option bstr; a_timeout : Z; a_ch_timeout : Z;
  a_console : bool; a_event_monitor : bool; a_ch_log_level : bstr; a_strace : bool; a_crun_debug : bool;
  a_spec_only : bool; a_kernel_inspect : bool; a_json : bool; a_stdout : bool; a_parallel : Z;
  a_args : list bstr;
}.

(** What [main] has decided to do: print the specification, or run these inputs,
    one here or all in a pool on these processor sets. *)
Inductive Job (S : Type) :=
  | JSpec (spec : RuntimeSpec S)
  | JOne (input : RunInput)
  | JPool (cpus : list (gset Z)) (inputs : list RunInput).
Arguments JSpec {S}. Arguments JOne {S}. Arguments JPool {S}.

(** [PathBufOrOwnedFd::try_clone]; [dup] duplicates a descriptor. *)
Definition try_clone (dup : Z -> option Z) (p : PathBufOrOwnedFd) : option PathBufOrOwnedFd :=
  match p with
  | PathBuf p => Some (PathBuf p)
  | Fd fd => fd ← dup fd; Some (Fd fd)
  end.

Section main.
Context {S : Type}.
Context (parse_index_json : bstr -> option PEImageIndex) (open : bstr -> result IndexError bstr).
Context (reference_parses : bstr -> bool).
(** The socket of the image service at an address. *)
Context (exchange : bstr -> ImageClient.Request ->
                    result ImageClient.Error (option Z * ImageClient.WireResponse)).
Context (rootless : Z -> Z -> RuntimeSpec S) (SECCOMP : S) (spec_to_json : RuntimeSpec S -> bstr).
Context (bincode_encode : Config -> option (list byte)).
Context (sendfile : bstr -> Z -> result Z (bstr * bstr)).
(** The working directory, the trees of directories, the affinity of the process. *)
Context (cwd : bstr) (read_tree : bstr -> option (list fs_entry)) (is_set : Z -> bool).
Context (dup : Z -> option Z).

(** The image: its configuration, the directory of its root file system, where
    it is, and its digest. *)
Definition select_image (args : Args) : result Z (Spec.ImageConfiguration * option bstr * PathBufOrOwnedFd * bstr) :=
  match a_index args, a_image_service args with
  | Some index_path, _ =>
      let '(index, r) := add_path parse_index_json open index_path (PEImageMultiIndex_new Name) in
      let? _ := Guest.unwrap r in
      let? e := expect (get index (a_image args)) in
      let? config := Guest.unwrap (Spec.ImageConfiguration_try_from (ie_config (me_image e))) in
      Ok (config, Some (rootfs (me_image e)), PathBuf (me_path e), id_digest (id (me_image e)))
  | None, Some image_service =>
      let? request := Guest.unwrap (ImageClient.Request_new reference_parses (a_image args)
                                      OciImage.Amd64 OciImage.Linux) in
      let? res := Guest.unwrap (ImageClient.request_erofs_image (exchange image_service) request) in
      Ok (ImageClient.config res, None, Fd (ImageClient.fd res), ImageClient.manifest_digest res)
  | None, None => Panic
  end.

Definition make_ch_config (args : Args) (level : ChLogLevel) : CloudHypervisorConfig :=
  {| bin := path_push cwd (a_ch args); kernel := path_push cwd (a_kernel args);
     initramfs := path_push cwd (a_initramfs args); log_level := Some level;
     console := a_console args || (a_strace args || a_crun_debug args); keep_args := true;
     event_monitor := a_event_monitor args |}.

Definition make_pe_config (args : Args) (spec : RuntimeSpec S) (rootfs_dir : option bstr) (digest : bstr) : Config :=
  {| timeout := from_millis (a_timeout args); oci_runtime_config := spec_to_json spec;
     stdin := a_stdin args; strace := a_strace args; crun_debug := a_crun_debug args;
     rootfs_dir := rootfs_dir; rootfs_kind := Erofs;
     response_format := if a_json args then JsonV1 else PeArchiveV1;
     kernel_inspect := a_kernel_inspect args; manifest_digest := digest |}.

(** The io file of one run; the input directory is read for each. *)
Definition make_input_file (args : Args) (config : Config) : result Z IoFile :=
  let? dir := match a_input args with
              | Some d => let? es := expect (read_tree d) in Ok (Some es)
              | None => Ok None
              end in
  let? builder := create_pack_file_from_dir bincode_encode sendfile dir IoFileBuilder_new config in
  Ok (finish builder).

(** The loop that makes the inputs of the pool. *)
Fixpoint make_inputs (args : Args) (ch : CloudHypervisorConfig) (ch_timeout : Duration) (config : Config)
    (image : PathBufOrOwnedFd) (ids : list Z) : result Z (list RunInput) :=
  match ids with
  | [] => Ok []
  | i :: ids =>
      let? io := make_input_file args config in
      let? img := expect (try_clone dup image) in
      let? rest := make_inputs args ch ch_timeout config image ids in
      Ok ({| ri_id := i; ri_ch_config := ch; ri_ch_timeout := ch_timeout; ri_io_file := io; ri_image := img |} :: rest)
  end.

(** [main] up to the runs.  An error is an exit status. *)
Definition prepare (args : Args) : result Z (Job S) :=
  if bool_decide (is_Some (a_index args)) && bool_decide (is_Some (a_image_service args)) then Err 1
  else
    let? level := expect (ChLogLevel_try_from (a_ch_log_level args)) in
    let? '(config, rootfs_dir, image, digest) := select_image args in
    let? ch_timeout := expect (duration_add (from_millis (a_timeout args)) (from_millis (a_ch_timeout args))) in
    let? spec := Guest.unwrap (create_runtime_spec rootless SECCOMP config (Some []) (Some (a_args args)) None) in
    if a_spec_only args then Ok (JSpec spec)
    else
      let ch := make_ch_config args level in
      let pe_config := make_pe_config args spec rootfs_dir digest in
      if 0 <? a_parallel args then
        let? cpus := expect (cpuset is_set 2 (a_parallel args) 2) in
        let? inputs := make_inputs args ch ch_timeout pe_config image (seqZ 0 (a_parallel args)) in
        Ok (JPool cpus inputs)
      else
        let? io := make_input_file args pe_config in
        Ok (JOne {| ri_id := 0; ri_ch_config := ch; ri_ch_timeout := ch_timeout; ri_io_file := io; ri_image := image |}).

(** The single run. *)
Definition main_one (run : RunInput -> RunOutput + CloudHypervisorPostMortem) (log_contents : bstr -> bstr)
    (json_decode : list byte -> option Response) (args : Args) (input : RunInput) (c : Console) : result Z Console :=
  handle_worker_output log_contents json_decode (run input)
    (if a_json args then JsonV1 else PeArchiveV1) (a_stdout args) c.
End main.

(** * The parallel run

    The owner of the pool submits every input, receives as many outputs and prints
    each, closes the queue and joins the threads; the threads go on in between.
    The program ends with a panic when an input cannot be submitted, when no output
    came in time (or no thread is left to send one) where the owner waits for one,
    or when the output cannot be printed. *)

Definition owner_script (n : nat) : list OwnerEvent :=
  (TrySend <$> seq 0 n) ++ replicate n Recv ++ [CloseSender].

Inductive StopReason := Refused | Late | Unprintable (r : nat).
Inductive Par :=
  | Going (s : SyncPool.Pool) (todo : list OwnerEvent) (c : Console)
  | Stopped (why : StopReason).

Section parallel.
Context (log_contents : bstr -> bstr) (json_decode : list byte -> option Response).
Context (format : ResponseFormat) (stdout : bool).
(** What the run of each input gives. *)
Context (outs : nat -> RunOutput + CloudHypervisorPostMortem).

#[local] Abbreviation print_output r c := (handle_worker_output log_contents json_decode (outs r) format stdout c).

Inductive par_step : Par -> Par -> Prop :=
  | par_send s r todo c s' :
      owner_step s (TrySend r) = Some s' -> par_step (Going s (TrySend r :: todo) c) (Going s' todo c)
  | par_refused s r todo c :
      owner_step s (TrySend r) = None -> par_step (Going s (TrySend r :: todo) c) (Stopped Refused)
  | par_recv s r todo c s' c' :
      head (outputs s) = Some r -> owner_step s Recv = Some s' -> print_output r c = Ok c' ->
      par_step (Going s (Recv :: todo) c) (Going s' todo c')
  | par_unprintable s r todo c :
      head (outputs s) = Some r -> (forall c', print_output r c <> Ok c') ->
      par_step (Going s (Recv :: todo) c) (Stopped (Unprintable r))
  | par_late s todo c :
      outputs s = [] -> par_step (Going s (Recv :: todo) c) (Stopped Late)
  | par_close s todo c s' :
      owner_step s CloseSender = Some s' -> par_step (Going s (CloseSender :: todo) c) (Going s' todo c)
  | par_thread s e todo c s' :
      worker_step s e = Some s' -> par_step (Going s todo c) (Going s' todo c).

(** What is printed for the outputs that were received. *)
Definition print_received (received : list nat) (c : Console) : result Z Console :=
  fold_left (fun c r => let? c := c in print_output r c) received (Ok c).
End parallel.

(** * Lemmas *)

(** ** Escaping *)

(** The inverse of the escaping, as a reader of the output applies it. *)
Fixpoint unescape (s : bstr) : option bstr :=
  match s with
  | [] => Some []
  | b :: s =>
      if decide (b = x5c) then
        match s with
        | x72 :: s => cons x0d <$> unescape s
        | x5c :: s => cons x5c <$> unescape s
        | x22 :: s => cons x22 <$> unescape s
        | x78 :: h :: l :: s => h ← hex_val h; l ← hex_val l; cons (byte_of (16 * h + l)) <$> unescape s
        | _ => None
        end
      else cons b <$> unescape s
  end.

Lemma unescape_byte b s : unescape (escape_byte b ++ s) = cons b <$> unescape s.
Proof. by destruct b. Qed.

Lemma unescape_escape r : unescape (escape_bytes r) = Some r.
Proof. induction r as [|b r IH]; simpl; [done|]. by rewrite unescape_byte, IH. Qed.

(** What a terminal shows as it is. *)
Definition printable (b : byte) : bool :=
  bool_decide (b = x0a) || bool_decide (b = x09) || ((0x20 <=? byte_val b) && (byte_val b <=? 0x7e)).

Lemma escape_printable r : Forall (fun b => printable b = true) (escape_bytes r).
Proof.
  apply Forall_flat_map, Forall_true. intros b. apply Forall_forall. intros x Hx.
  assert (forallb printable (escape_byte b) = true) as Hb by (by destruct b).
  rewrite forallb_forall in Hb. by apply Hb, list_elem_of_In.
Qed.

(** A writer for which two writes are one write of both. *)
Class WriteApp (W : Type) `{Write W} := {
  write_nil (w : W) : io_write_all [] w = Some w;
  write_app a b (w : W) : io_write_all (a ++ b) w = io_write_all a w ≫= io_write_all b;
}.

#[export] Instance stream_app : WriteApp Stream.
Proof.
  split; unfold io_write_all, write_stream.
  - intros [p]. by rewrite fmap_nil, app_nil_r.
  - intros a b w. simpl. by rewrite fmap_app, app_assoc.
Qed.

Lemma write_escaped_decreases {W} `{Write W} : loop_decreases (write_escaped_step (W:=W)) (fun s => length s.1).
Proof.
  intros [cur w] [cur' w']. simpl. case_decide as Hc; [done|]. destruct (io_write_all _ w); [|done].
  intros [= <- _]. unfold zdrop. rewrite length_drop. unfold zlen. destruct cur; [done|simpl length]. lia.
Qed.

Lemma write_escaped_all {W} `{WriteApp W} r (w : W) :
  write_escaped r w = expect (io_write_all (escape_bytes r) w).
Proof.
  unfold write_escaped. revert w. induction r as [r IH] using (induction_ltof1 _ length). intros w.
  rewrite loop_unfold by apply write_escaped_decreases. cbn [write_escaped_step].
  case_decide as Hr; [subst; simpl; by rewrite write_nil|]. set (n := Z.min _ _).
  assert (0 < n <= zlen r) as Hn.
  { subst n. destruct r; [done|]. rewrite zlen_cons. pose proof (zlen_nonneg r). lia. }
  rewrite <-(ztake_zdrop n r) at 2. unfold escape_bytes at 2. rewrite flat_map_app, write_app.
  fold (escape_bytes (ztake n r)) (escape_bytes (zdrop n r)).
  destruct (io_write_all (escape_bytes (ztake n r)) w) as [w'|]; [|done]. simpl mbind.
  apply IH. unfold ltof, zdrop. rewrite length_drop. unfold zlen in Hn. lia.
Qed.

(** ** The output archive *)

(** What is to appear for a file. *)
Definition show_file (stdout : bool) (c : Console) (file : bstr * bstr) : Console :=
  let shown := PByte <$> escape_bytes file.2 in
  if stdout && bool_decide (components file.1 = components (bytes_of_string "stdout"))
  then {| c_stdout := {| printed := printed (c_stdout c) ++ shown |}; c_stderr := c_stderr c |}
  else {| c_stdout := c_stdout c;
          c_stderr := {| printed := printed (c_stderr c) ++ PFile file.1 (zlen file.2) :: shown |} |}.

Lemma print_file_shows name data b c : print_file name data b c = Ok (show_file b c (name, data)).
Proof.
  unfold print_file, show_file. simpl. destruct (b && _).
  - unfold on_stdout. by rewrite write_escaped_all.
  - unfold on_stderr. rewrite write_escaped_all. simpl. by rewrite <-app_assoc.
Qed.

Lemma dump_archive_shows es b c :
  Forall good_entry es -> dump_archive (encode es) b c = Ok (fold_left (show_file b) (tree_files es) c).
Proof.
  intros Hg. unfold dump_archive.
  rewrite (unpack_visits (fun v name data => (visit_file v name data).2)) by done.
  assert (forall files c, fold_left (fun v kv => (visit_file v kv.1 kv.2).2) files
      {| pr_stdout := b; pr_console := Ok c |} =
    {| pr_stdout := b; pr_console := Ok (fold_left (show_file b) files c) |}) as Hf.
  { induction files as [|[n d] files IH]; intros c'; simpl; [done|]. by rewrite print_file_shows, IH. }
  by rewrite Hf.
Qed.

(** ** The input *)

Section input.
Context (bincode_encode : Config -> option (list byte)) (bincode_decode : list byte -> option (Config * Z)).
Context (sendfile : bstr -> Z -> result Z (bstr * bstr)).
Hypothesis bincode_codec : codec bincode_encode (fun b => fst <$> bincode_decode b).
Hypothesis sendfile_ok : sendfile_spec sendfile.

(** What can be packed: the archive and its names and sizes fit the format. *)
Definition packable_tree (es : list fs_entry) : Prop :=
  Forall good_entry es /\ height es <= MAX_DIR_DEPTH + 1 /\ in_width 32 (zlen (encode es)).

Lemma pack_file_bytes config cb dir b :
  bincode_encode config = Some cb -> in_width 32 (zlen cb) ->
  (forall es, dir = Some es -> packable_tree es) ->
  create_pack_file_from_dir bincode_encode sendfile dir IoFileBuilder_new config = Ok b ->
  o_bytes b = header (zlen (encode (default [] dir))) (zlen cb) ++ cb ++ encode (default [] dir).
Proof.
  intros He Hcb Hdir. unfold create_pack_file_from_dir.
  rewrite (write_config_new bincode_encode config cb 0 He Hcb). cbn [Guest.unwrap rbind].
  destruct dir as [es|]; [|intros [= <-]; simpl; by rewrite app_nil_r].
  destruct (Hdir es eq_refl) as (Hg & Hh & Hz). rewrite (pack_dir_encodes sendfile es sendfile_ok Hg Hh).
  cbn [Guest.unwrap rbind io_write_all write_memfd expect]. set (f := {| o_bytes := _; o_pos := _ |}).
  assert (o_pos (MemFile.write_all (encode es) f) - o_pos f = zlen (encode es)) as Hp by (simpl; lia).
  unfold in_width in Hz. unfold wsub. rewrite Hp, wrap_small, try_into_id by (unfold in_width; lia).
  cbn [expect rbind]. intros [= <-]. cbn [default]. unfold MemFile.write_all at 1. cbn [o_bytes o_pos seek].
  rewrite decide_False by (intros E; apply (f_equal zlen) in E; by rewrite zlen_le_bytes in E).
  unfold f. rewrite write_behind_config. unfold header. rewrite <-!app_assoc.
  by rewrite put_begin by (by rewrite !zlen_le_bytes).
Qed.

Lemma pack_file_delivered config cb dir b :
  bincode_encode config = Some cb -> in_width 32 (zlen cb) ->
  (forall es, dir = Some es -> packable_tree es) ->
  create_pack_file_from_dir bincode_encode sendfile dir IoFileBuilder_new config = Ok b ->
  PMEM_ALIGN_SIZE <= io_size (finish b) /\
  Guest.unpack_input bincode_decode (finish b) = Ok (config, encode (default [] dir)).
Proof.
  intros He Hcb Hdir Hb. pose proof (pack_file_bytes config cb dir b He Hcb Hdir Hb) as Hby.
  assert (in_width 32 (zlen (encode (default [] dir)))) as Hz.
  { destruct dir as [es|]; [by apply Hdir|by split]. }
  destruct (config_read bincode_encode bincode_decode config cb _ b bincode_codec He Hcb Hz Hby)
    as (g & Hdiv & Hpos & Hr & Hg).
  split; [by apply Z.divide_pos_le|].
  unfold Guest.unpack_input. rewrite Hr. cbn [Guest.unwrap rbind]. unfold Guest.unpackfd.
  unfold in_width in Hz. rewrite parse_print by lia. cbn [expect rbind]. by rewrite Hg.
Qed.
End input.

(** ** The runner and the guest *)

Lemma dump_logs_Ok log_contents logs c : exists c', dump_logs log_contents logs c = Ok c'.
Proof.
  unfold dump_logs, dump_file, on_stderr.
  destruct (err_file logs), (log_file logs), (con_file logs); simpl; eauto.
Qed.

(** A device that holds a response and an archive is printed. *)
Lemma handle_output_shows log_contents json_encode json_decode out r j es b c c0 :
  codec json_encode json_decode -> json_encode r = Some j -> in_width 32 (zlen j) ->
  in_width 32 (zlen (encode es)) -> Forall good_entry es ->
  get_range (o_bytes (io_file (ro_io_file out))) 0 (8 + zlen (j ++ encode es)) =
    Some (header (zlen (encode es)) (zlen j) ++ j ++ encode es) ->
  dump_logs log_contents (ro_logs out) c = Ok c0 ->
  handle_worker_output log_contents json_decode (inl out) PeArchiveV1 b c =
    Ok (fold_left (show_file b) (tree_files es)
          {| c_stdout := c_stdout c0; c_stderr := println (PResponse r) (c_stderr c0) |}).
Proof.
  intros Hcodec Hj Hjw Hew Hg Hr Hlogs. pose proof (zlen_header (zlen (encode es)) (zlen j)) as Hh.
  rewrite zlen_app in Hr. set (file := io_file (ro_io_file out)) in *.
  assert (get_range (o_bytes file) 0 (8 + zlen j) = Some (header (zlen (encode es)) (zlen j) ++ j)) as Hr1.
  { replace (8 + zlen j) with (0 + zlen (header (zlen (encode es)) (zlen j) ++ j)) by (rewrite zlen_app; lia).
    apply (get_range_sub _ [] _ (encode es) 0); [done|]. simpl. rewrite !zlen_app, <-app_assoc, Hh.
    by rewrite <-Hr; f_equal; lia. }
  assert (get_range (o_bytes file) (8 + zlen j) (8 + zlen j + zlen (encode es)) = Some (encode es)) as Hr2.
  { replace (8 + zlen j) with (0 + zlen (header (zlen (encode es)) (zlen j) ++ j)) by (rewrite zlen_app; lia).
    apply (get_range_sub _ _ (encode es) [] 0); [done|]. rewrite app_nil_r, !zlen_app, <-app_assoc, Hh.
    by rewrite <-Hr; f_equal; lia. }
  pose proof (read_response_bytes file _ j Hew Hjw Hr1) as Hb.
  unfold handle_worker_output. rewrite Hlogs. cbn [rbind]. fold file.
  unfold read_io_file_response. rewrite Hb. cbn [rbind]. rewrite (Hcodec _ _ Hj).
  cbn [rbind ok_or Guest.unwrap on_stderr o_bytes o_pos seek]. rewrite Hr2. cbn [expect rbind].
  by rewrite dump_archive_shows.
Qed.

Section end_to_end.
Context {S : Type}.
Context (parse_index_json : bstr -> option PEImageIndex) (open : bstr -> result IndexError bstr).
Context (reference_parses : bstr -> bool).
Context (exchange : bstr -> ImageClient.Request ->
                    result ImageClient.Error (option Z * ImageClient.WireResponse)).
Context (rootless : Z -> Z -> RuntimeSpec S) (SECCOMP : S) (spec_to_json : RuntimeSpec S -> bstr).
Context (bincode_encode : Config -> option (list byte)) (bincode_decode : list byte -> option (Config * Z)).
Context (json_encode : Response -> option (list byte)) (json_decode : list byte -> option Response).
Context (sendfile : bstr -> Z -> result Z (bstr * bstr)) (from_utf8_lossy : bstr -> bstr).
Context (cwd : bstr) (read_tree : bstr -> option (list fs_entry)) (is_set : Z -> bool).
Context (dup : Z -> option Z) (log_contents : bstr -> bstr).
Context (container : Config -> bstr -> Guest.ContainerRun) (logs : CloudHypervisorLogs).
Hypothesis bincode_codec : codec bincode_encode (fun b => fst <$> bincode_decode b).
Hypothesis json_codec : codec json_encode json_decode.
Hypothesis sendfile_ok : sendfile_spec sendfile.

(** A virtual machine that boots the guest on the io file. *)
Definition boot_run (input : RunInput) : RunOutput + CloudHypervisorPostMortem :=
  match Guest.main bincode_decode json_encode sendfile from_utf8_lossy container (ri_io_file input) with
  | Ok f => inl {| ro_id := ri_id input; ro_io_file := f; ro_logs := logs |}
  | Err _ | Panic => inr (PostMortem_from BadExit)
  end.

Lemma write_config_encodes config size b :
  write_io_file_config bincode_encode IoFileBuilder_new config size = Ok b ->
  exists cb, bincode_encode config = Some cb /\ in_width 32 (zlen cb).
Proof.
  unfold write_io_file_config. destruct (bincode_encode config) as [cb|]; [|done]. cbn [ok_or rbind].
  destruct (try_into 32 (zlen cb)) as [n|] eqn:E; [|done]. intros _. exists cb. split; [done|].
  by apply try_into_Some in E as [_ ?].
Qed.

Lemma input_file_inv args config io :
  make_input_file bincode_encode sendfile read_tree args config = Ok io ->
  (forall d es, a_input args = Some d -> read_tree d = Some es -> packable_tree es) ->
  PMEM_ALIGN_SIZE <= io_size io /\
  Guest.unpack_input bincode_decode io = Ok (config, encode (default [] (a_input args ≫= read_tree))).
Proof.
  intros Hio Hin. unfold make_input_file in Hio.
  apply rbind_Ok_inv in Hio as (dir & Hd & Hio). apply rbind_Ok_inv in Hio as (b & Hb & [= <-]).
  assert (dir = a_input args ≫= read_tree) as ->.
  { destruct (a_input args) as [d|]; [|by injection Hd]. simpl. destruct (read_tree d); [|done]. by injection Hd. }
  assert (exists cb, bincode_encode config = Some cb /\ in_width 32 (zlen cb)) as (cb & Hcb & Hw).
  { unfold create_pack_file_from_dir in Hb. apply rbind_Ok_inv in Hb as (f & Hf & _).
    destruct (write_io_file_config _ _ _ _) as [f'| |] eqn:E; [|done..]. by apply write_config_encodes in E. }
  eapply (pack_file_delivered bincode_encode bincode_decode sendfile bincode_codec sendfile_ok); try done.
  intros es He. destruct (a_input args) as [d|]; [|done]. by apply (Hin d).
Qed.

Abbreviation prepared := (prepare parse_index_json open reference_parses exchange rootless SECCOMP spec_to_json
  bincode_encode sendfile cwd read_tree is_set dup).

(** The configuration that a prepared run has. *)
Definition config_of (args : Args) (config : Config) : Prop :=
  exists ic dir image digest spec,
    select_image parse_index_json open reference_parses exchange args = Ok (ic, dir, image, digest) /\
    create_runtime_spec rootless SECCOMP ic (Some []) (Some (a_args args)) None = Ok spec /\
    config = make_pe_config spec_to_json args spec dir digest.

Lemma prepare_one args input :
  prepared args = Ok (JOne input) ->
  exists config, config_of args config /\
    make_input_file bincode_encode sendfile read_tree args config = Ok (ri_io_file input).
Proof.
  unfold prepare. destruct (_ && _); [done|]. intros E.
  apply rbind_Ok_inv in E as (level & _ & E). apply rbind_Ok_inv in E as ([[[ic dir] image] digest] & Hs & E).
  apply rbind_Ok_inv in E as (t & _ & E). apply rbind_Ok_inv in E as (spec & Hc & E).
  destruct (a_spec_only args); [done|]. destruct (0 <? a_parallel args).
  { apply rbind_Ok_inv in E as (cpus & _ & E). by apply rbind_Ok_inv in E as (ins & _ & [=]). }
  apply rbind_Ok_inv in E as (io & Hio & [= <-]). exists (make_pe_config spec_to_json args spec dir digest).
  split; [|done]. exists ic, dir, image, digest, spec. split; [done|]. split; [|done].
  by destruct (create_runtime_spec _ _ _ _ _ _) as [x| |]; [injection Hc as ->|..].
Qed.

Lemma runner_delivered args input c :
  prepared args = Ok (JOne input) -> a_json args = false ->
  (forall d es, a_input args = Some d -> read_tree d = Some es -> packable_tree es) ->
  exists config c0, config_of args config /\ dump_logs log_contents logs c = Ok c0 /\
    let run := container config (encode (default [] (a_input args ≫= read_tree))) in
    forall j, good_output json_encode from_utf8_lossy config run j ->
    main_one boot_run log_contents json_decode args input c =
      Ok (fold_left (show_file (a_stdout args)) (tree_files (Guest.output run))
            {| c_stdout := c_stdout c0;
               c_stderr := println (PResponse (Guest.make_response from_utf8_lossy config run)) (c_stderr c0) |}).
Proof.
  intros Hp Hjson Hin. destruct (prepare_one args input Hp) as (config & Hc & Hio).
  destruct (input_file_inv args config _ Hio Hin) as (Hsize & Hunpack).
  destruct (dump_logs_Ok log_contents logs c) as [c0 Hlogs].
  exists config, c0. split; [done|]. split; [done|]. intros run j (Hj & Hg & Hh & Hne & Hfit).
  set (es := Guest.output run) in *. pose proof (zlen_nonneg j). pose proof (zlen_nonneg (encode es)).
  unfold PMEM_ALIGN_SIZE in *.
  assert (response_format config = PeArchiveV1) as Hfmt.
  { destruct Hc as (ic & dir & image & digest & spec & _ & _ & ->). simpl. by rewrite Hjson. }
  destruct (respond_delivered json_encode sendfile from_utf8_lossy config run (ri_io_file input) j)
    as (f' & Hres & Hrange); try done; [unfold in_width; fold es; lia..|fold es; lia|].
  unfold main_one, boot_run, Guest.main. rewrite Hunpack, Hjson. cbn [rbind]. fold run. rewrite Hres.
  by apply (handle_output_shows log_contents json_encode json_decode _ _ j es); try done; unfold in_width; lia.
Qed.
End end_to_end.

(** ** The parallel run *)

Definition par_work (st : Par) : nat :=
  match st with
  | Going s todo _ => S (work s + sum_list_with (fun e => match e with TrySend _ => 4%nat | _ => 1%nat end) todo)
  | Stopped _ => 0
  end.

(** Where the owner is in its script. *)
Inductive progress_at (n : nat) (s : SyncPool.Pool) : list OwnerEvent -> Prop :=
  | at_sending i : (i <= n)%nat -> sent s = seq 0 i -> received s = [] -> sender_open s = true ->
      progress_at n s ((TrySend <$> seq i (n - i)) ++ replicate n Recv ++ [CloseSender])
  | at_receiving k : (k <= n)%nat -> sent s = seq 0 n -> (length (received s) + k = n)%nat -> sender_open s = true ->
      progress_at n s (replicate k Recv ++ [CloseSender])
  | at_joining : sent s = seq 0 n -> length (received s) = n -> sender_open s = false -> progress_at n s [].

(** The step of the owner that a script begins with, and the rest. *)
Lemma progress_cases n s e todo :
  progress_at n s (e :: todo) -> (0 < n)%nat ->
  match e with
  | TrySend i => (i < n)%nat /\ sent s = seq 0 i /\ received s = [] /\ sender_open s = true /\
      todo = (TrySend <$> seq (S i) (n - S i)) ++ replicate n Recv ++ [CloseSender]
  | Recv => sent s = seq 0 n /\ sender_open s = true /\
      exists k, (length (received s) + S k = n)%nat /\ todo = replicate k Recv ++ [CloseSender]
  | CloseSender => sent s = seq 0 n /\ length (received s) = n /\ sender_open s = true /\ todo = []
  | DropReceiver => False
  end.
Proof.
  intros Hat Hn. inversion Hat as [i Hi Hsent Hrecv Hso Htodo|k Hk Hsent Hrecv Hso Htodo|]; subst.
  - destruct (n - i)%nat as [|m] eqn:Em; csimpl in Htodo.
    + assert (i = n) as -> by lia. destruct n as [|n]; [lia|]. simpl in Htodo. injection Htodo as <- <-.
      split; [done|]. split; [done|]. exists n. by rewrite Hrecv.
    + injection Htodo as <- <-. replace (n - S i)%nat with m by lia. split_and!; [lia|done..].
  - destruct k as [|k]; simpl in Htodo; injection Htodo as <- <-.
    + split_and!; [done|lia|done|done].
    + split; [done|]. split; [done|]. exists k. split; [lia|done].
Qed.

Section parallel_lemmas.
Context (log_contents : bstr -> bstr) (json_decode : list byte -> option Response).
Context (format : ResponseFormat) (stdout : bool) (outs : nat -> RunOutput + CloudHypervisorPostMortem).
Context (n : nat) (c0 : Console) (Hn : (0 < n)%nat).

#[local] Abbreviation step := (par_step log_contents json_decode format stdout outs).
#[local] Abbreviation prints := (print_received log_contents json_decode format stdout outs).

Definition par_inv (s : SyncPool.Pool) (todo : list OwnerEvent) (c : Console) : Prop :=
  reachable n s /\ receiver_open s = true /\ progress_at n s todo /\ prints (received s) c0 = Ok c.

Lemma par_init : par_inv (SyncPool.Pool_new n) (owner_script n) c0.
Proof.
  split; [apply reach_new|]. split; [done|]. split; [|done].
  pose proof (at_sending n (SyncPool.Pool_new n) 0 ltac:(lia) eq_refl eq_refl eq_refl) as Hat.
  by rewrite Nat.sub_0_r in Hat.
Qed.

Lemma prints_snoc l r c c' :
  prints l c0 = Ok c -> handle_worker_output log_contents json_decode (outs r) format stdout c = Ok c' ->
  prints (l ++ [r]) c0 = Ok c'.
Proof. unfold print_received. intros E E'. rewrite fold_left_app, E. exact E'. Qed.

(** The invariant holds after every step that does not stop the program. *)
Lemma par_step_inv s todo c s' todo' c' :
  par_inv s todo c -> step (Going s todo c) (Going s' todo' c') -> par_inv s' todo' c'.
Proof.
  intros (Hre & Hro & Hat & Hpr) Hstep.
  inversion Hstep as [? r ? ? ? Hs| |? r ? ? ? ? Hh Hs Hp| | |? ? ? ? Hs|? e ? ? ? Hs]; subst.
  - apply progress_cases in Hat as (Hr & Hsent & Hrc & Hso & ->); [|done].
    pose proof (reach_owner n s _ s' Hre Hs) as Hre'. simpl in Hs. destruct (_ && _); [|done]. injection Hs as <-.
    split; [done|]. split; [done|]. split; [|done].
    apply at_sending; simpl; [lia| |done|done]. by rewrite Hsent, <-seq_S.
  - apply progress_cases in Hat as (Hsent & Hso & k & Hk & ->); [|done].
    pose proof (reach_owner n s _ s' Hre Hs) as Hre'. simpl in Hs. destruct (outputs s) as [|r' l]; [done|].
    rewrite Hro in Hs. injection Hs as <-. injection Hh as <-. split; [done|]. split; [done|]. split.
    + apply (at_receiving _ _ k); simpl; [lia|done|rewrite length_app; simpl; lia|done].
    + by eapply prints_snoc.
  - apply progress_cases in Hat as (Hsent & Hrc & Hso & ->); [|done].
    pose proof (reach_owner n s _ s' Hre Hs) as Hre'. simpl in Hs. rewrite Hso in Hs. injection Hs as <-.
    split; [done|]. split; [done|]. split; [|done]. by apply at_joining.
  - pose proof (reach_thread n s e s' Hre Hs) as Hre'.
    destruct (worker_step_ok n s e s' (reachable_ok n s Hre) Hs) as (_ & Hw & Ho & Hr & Hrc & Hst).
    split; [done|]. split; [congruence|]. split; [|congruence]. inversion Hat; constructor; congruence.
Qed.

(** Every step brings the end nearer. *)
Lemma par_step_less s todo c st :
  par_inv s todo c -> step (Going s todo c) st -> (par_work st < par_work (Going s todo c))%nat.
Proof.
  intros (Hre & Hro & Hat & Hpr) Hstep.
  inversion Hstep as [? r ? ? ? Hs| |? r ? ? ? ? Hh Hs Hp| | |? ? ? ? Hs|? e ? ? ? Hs]; subst;
    cbn [par_work sum_list_with]; try lia.
  - simpl in Hs. destruct (_ && _); [|done]. injection Hs as <-. unfold work. simpl. rewrite length_app. simpl. lia.
  - simpl in Hs. destruct (outputs s), (receiver_open s); try done. injection Hs as <-. unfold work. simpl. lia.
  - simpl in Hs. destruct (sender_open s); [|done]. injection Hs as <-. unfold work. simpl. lia.
  - destruct (worker_step_ok n s e _ (reachable_ok n s Hre) Hs) as (_ & Hw & _). lia.
Qed.

(** Why the program stops. *)
Lemma par_step_stop s todo c why :
  par_inv s todo c -> step (Going s todo c) (Stopped why) ->
  match why with
  | Refused => Forall (fun w => w = WPanicked) (workers s)
  | Late => outputs s = [] /\ (length (received s) < n)%nat
  | Unprintable r => r ∈ seq 0 n /\
      forall c', handle_worker_output log_contents json_decode (outs r) format stdout c <> Ok c'
  end.
Proof.
  intros (Hre & Hro & Hat & Hpr) Hstep. pose proof (reachable_ok n s Hre) as Hok.
  inversion Hstep as [|? r ? ? Hs| |? r ? ? Hh Hp|? ? ? Ho| |]; subst.
  - apply progress_cases in Hat as (Hr & Hsent & Hrc & Hso & ->); [|done].
    destruct (decide (Exists (fun w => w <> WPanicked) (workers s))) as [Hex|Hno].
    + destruct (send_accepted n s Hok Hro Hso) with (r := r) as [s' Hs']; [|done|congruence].
      rewrite Hsent, length_seq. lia.
    + apply Forall_forall. intros w Hw. destruct (decide (w = WPanicked)); [done|].
      destruct Hno. apply Exists_exists. eauto.
  - apply progress_cases in Hat as (Hsent & Hso & k & Hk & ->); [|done]. split; [|done].
    rewrite <-Hsent. destruct Hok as [_ _ _ _ _ H6 _ _]. rewrite (H6 Hro). unfold pending.
    destruct (outputs s) as [|r' l]; [done|]. injection Hh as ->. set_solver.
  - apply progress_cases in Hat as (Hsent & Hso & k & Hk & ->); [|done]. split; [done|lia].
Qed.

(** The run is never stuck before it is over; and without a panic it does not
    depend on the waits of the owner running out. *)
Lemma par_progress s todo c :
  par_inv s todo c ->
  (todo = [] /\ joined s /\ received s ≡ₚ seq 0 n /\ prints (received s) c0 = Ok c) \/
  (exists st, step (Going s todo c) st) /\
  (WPanicked ∉ workers s ->
     (exists s' todo' c', step (Going s todo c) (Going s' todo' c') /\ WPanicked ∉ workers s') \/
     exists r, step (Going s todo c) (Stopped (Unprintable r))).
Proof.
  intros (Hre & Hro & Hat & Hpr). pose proof (reachable_ok n s Hre) as Hok.
  pose proof (pending_length n s Hok Hro) as Hlen. destruct todo as [|e todo].
  - inversion Hat as [? ? ? ? ? Htodo|k ? ? ? ? Htodo|Hsent Hrecvd Hso].
    { by apply app_nil in Htodo as [_ [_ ?]%app_nil]. }
    { by destruct k. }
    assert (pending s = [] /\ lost s = []) as [Hp Hl].
    { rewrite Hsent, length_seq in Hlen. split; apply nil_length_inv; lia. }
    destruct (calm_step_or_stuck s) as [(e & Hc & s' & He)|Hstuck].
    + right. assert (step (Going s [] c) (Going s' [] c)) as Hst by by apply (par_thread _ _ _ _ _ s e).
      split; [by eexists|]. intros Hnp. left. exists s', [], c. split; [done|by eapply calm_step].
    + left. destruct (stuck_joined n s Hok Hro Hso) as [Hj _]; [rewrite Hp; simpl; lia|done|].
      split_and!; [done|done| |done]. rewrite <-Hsent. destruct Hok as [_ _ _ _ _ H6 _ _].
      by rewrite (H6 Hro), Hp, Hl, app_nil_r.
  - right. destruct e as [i| | |]; apply progress_cases in Hat; try done.
    + destruct Hat as (Hr & Hsent & Hrc & Hso & ->). split.
      { destruct (owner_step s (TrySend i)) eqn:E; [eexists; by apply par_send|eexists; by apply par_refused]. }
      intros Hnp. left. destruct (send_accepted n s Hok Hro Hso) with (r := i) as [s' Hs'].
      { rewrite Hsent, length_seq. lia. }
      { pose proof Hok as [H1 _ _ _ _ _ _ _]. destruct (workers s) as [|w l]; [simpl in H1; lia|].
        left. intros ->. destruct Hnp. by left. }
      do 3 eexists. split; [by apply par_send|]. simpl in Hs'. destruct (_ && _); [|done]. by injection Hs' as <-.
    + destruct Hat as (Hsent & Hso & k & Hk & ->). destruct (outputs s) as [|r l] eqn:Hout.
      * split; [eexists; by apply par_late|]. intros Hnp. left.
        destruct (pending_progress n s Hok Hro) as [?|(e & Hc & s' & He)]; [|done|done|].
        { intros Hp. rewrite Hp, (none_lost n s Hok Hnp), Hsent, length_seq in Hlen. simpl in Hlen. lia. }
        do 3 eexists. split; [by apply (par_thread _ _ _ _ _ s e)|by eapply calm_step].
      * assert (owner_step s Recv = Some {| workers := workers s; capacity := capacity s; inputs := inputs s;
          outputs := l; sent := sent s; received := received s ++ [r]; lost := lost s;
          sender_open := sender_open s; receiver_open := receiver_open s |}) as E by (simpl; by rewrite Hout, Hro).
        destruct (handle_worker_output log_contents json_decode (outs r) format stdout c) as [c'| |] eqn:Ep.
        -- assert (head (outputs s) = Some r) as Hh by by rewrite Hout.
           pose proof (par_recv _ _ _ _ _ s r (replicate k Recv ++ [CloseSender]) c _ c' Hh E Ep) as Hst.
           split; [by eexists|]. intros Hnp. left. do 3 eexists. split; [exact Hst|done].
        -- assert (step (Going s (Recv :: replicate k Recv ++ [CloseSender]) c) (Stopped (Unprintable r))) as Hst.
           { apply par_unprintable; [by rewrite Hout|]. intros c'. by rewrite Ep. }
           split; [by eexists|]. intros _. right. by exists r.
        -- assert (step (Going s (Recv :: replicate k Recv ++ [CloseSender]) c) (Stopped (Unprintable r))) as Hst.
           { apply par_unprintable; [by rewrite Hout|]. intros c'. by rewrite Ep. }
           split; [by eexists|]. intros _. right. by exists r.
    + destruct Hat as (Hsent & Hrc & Hso & ->).
      assert (is_Some (owner_step s CloseSender)) as [s' Hs'] by (simpl; rewrite Hso; by eexists).
      split; [eexists; by apply par_close|]. intros Hnp. left. do 3 eexists. split; [by apply par_close|].
      simpl in Hs'. rewrite Hso in Hs'. by injection Hs' as <-.
Qed.

Lemma par_reachable s todo c :
  rtc step (Going (SyncPool.Pool_new n) (owner_script n) c0) (Going s todo c) -> par_inv s todo c.
Proof.
  intros Hr. pose (P st := match st with Going s todo c => par_inv s todo c | Stopped _ => True end).
  apply (rtc_ind_r P (Going (SyncPool.Pool_new n) (owner_script n) c0)) in Hr; [exact Hr|apply par_init|].
  intros [s1 todo1 c1|why1] [s2 todo2 c2|why2] _ Hst HP; simpl in *; [by eapply par_step_inv|done|by inversion Hst|done].
Qed.
End parallel_lemmas.

(** * Properties *)

(** Output is printed faithfully.  Printing in pieces of 4096 bytes is the
    same as one write of the escaped data; the escaped data determines the data;
    and it has only printable characters, tabs and newlines. *)
Theorem printing_faithful {W} `{WriteApp W} (data : bstr) (w : W) :
  write_escaped data w = expect (io_write_all (escape_bytes data) w) /\
  unescape (escape_bytes data) = Some data /\
  Forall (fun b => printable b = true) (escape_bytes data).
Proof. split; [apply write_escaped_all|]. split; [apply unescape_escape|apply escape_printable]. Qed.

Lemma printing_faithful_witness :
  write_escaped (replicate 5000 x00) {| printed := [] |} =
    Ok {| printed := PByte <$> escape_bytes (replicate 5000 x00) |} /\
  escape_bytes [x61; x0a; x00; x5c] = [x61; x0a; x5c; x78; x30; x30; x5c; x5c].
Proof. split; [exact (proj1 (printing_faithful (replicate 5000 x00) {| printed := [] |}))|reflexivity]. Defined.

(** C23: A single run of the command line runner, from end to end.  When [main] has
    prepared a single run without [--json], with an input directory that the archive
    format can hold ([packable_tree]), the guest that boots on its io file gets
    exactly the configuration that the arguments and the image describe and an
    archive of exactly the input directory; and when the container's output can be
    delivered ([good_output]: a directory that the archive format can hold, not
    empty, and together with the response within the smallest io file), the runner
    prints the response and every file of the output directory, each file escaped
    and in order, [stdout] on the standard output if asked to. *)
Theorem runner_end_to_end {S} parse_index_json open reference_parses exchange
    (rootless : Z -> Z -> RuntimeSpec S) SECCOMP spec_to_json bincode_encode bincode_decode json_encode json_decode
    sendfile from_utf8_lossy cwd read_tree is_set dup log_contents container logs args input c :
  codec bincode_encode (fun b => fst <$> bincode_decode b) -> codec json_encode json_decode ->
  sendfile_spec sendfile ->
  prepare parse_index_json open reference_parses exchange rootless SECCOMP spec_to_json bincode_encode sendfile
    cwd read_tree is_set dup args = Ok (JOne input) -> a_json args = false ->
  (forall d es, a_input args = Some d -> read_tree d = Some es -> packable_tree es) ->
  exists config c0,
    config_of parse_index_json open reference_parses exchange rootless SECCOMP spec_to_json args config /\
    dump_logs log_contents logs c = Ok c0 /\
    let run := container config (encode (default [] (a_input args ≫= read_tree))) in
    forall j, good_output json_encode from_utf8_lossy config run j ->
    main_one (boot_run bincode_decode json_encode sendfile from_utf8_lossy container logs) log_contents json_decode
      args input c =
      Ok (fold_left (show_file (a_stdout args)) (tree_files (Guest.output run))
            {| c_stdout := c_stdout c0;
               c_stderr := println (PResponse (Guest.make_response from_utf8_lossy config run)) (c_stderr c0) |}).
Proof. intros Hb Hj Hs. by apply (runner_delivered (S:=S)). Qed.

Lemma make_inputs_length bincode_encode sendfile read_tree dup args ch t config image ids inputs :
  make_inputs bincode_encode sendfile read_tree dup args ch t config image ids = Ok inputs ->
  ri_id <$> inputs = ids.
Proof.
  revert inputs. induction ids as [|i ids IH]; intros inputs; simpl; [by intros [= <-]|].
  intros E. apply rbind_Ok_inv in E as (io & _ & E). apply rbind_Ok_inv in E as (img & _ & E).
  apply rbind_Ok_inv in E as (rest & Hr & [= <-]). csimpl. by rewrite (IH rest Hr).
Qed.

(** The pool and the inputs that [main] prepares. *)
Lemma prepare_pool {S} parse_index_json open reference_parses exchange
    (rootless : Z -> Z -> RuntimeSpec S) SECCOMP spec_to_json bincode_encode sendfile cwd read_tree is_set dup
    args cpus inputs :
  prepare parse_index_json open reference_parses exchange rootless SECCOMP spec_to_json bincode_encode sendfile
    cwd read_tree is_set dup args = Ok (JPool cpus inputs) ->
  ri_id <$> inputs = seqZ 0 (Z.of_nat (length cpus)) /\ Z.of_nat (length cpus) = a_parallel args /\
  0 < a_parallel args.
Proof.
  unfold prepare. destruct (_ && _); [done|]. intros E.
  apply rbind_Ok_inv in E as (level & _ & E). apply rbind_Ok_inv in E as ([[[ic dir] image] digest] & Hs & E).
  apply rbind_Ok_inv in E as (t & _ & E). apply rbind_Ok_inv in E as (spec & Hc & E).
  destruct (a_spec_only args); [done|]. destruct (Z.ltb_spec 0 (a_parallel args)) as [Hp|_].
  2: { by apply rbind_Ok_inv in E as (io & _ & [=]). }
  apply rbind_Ok_inv in E as (cpus' & Hcpu & E). apply rbind_Ok_inv in E as (ins & Hin & [= <- <-]).
  destruct (cpuset is_set 2 (a_parallel args) 2) as [l|] eqn:El; [|done]. injection Hcpu as <-.
  assert (Z.of_nat (length l) = a_parallel args) as Hn.
  { unfold cpuset in El. simpl in El. apply mapM_Some, Forall2_length in El. rewrite length_seqZ in El. lia. }
  rewrite Hn. split; [by eapply make_inputs_length|done].
Qed.

(** C38: A parallel run completes, or panics for one of three reasons.  When [main]
    has prepared a pool, it has a processor set and an input for each number below
    the requested one; and from the new pool, however the threads and the owner
    take turns and whatever threads panic, every step brings the end nearer, and a
    run that cannot go on is over: every output was received exactly once and
    printed in the order of its arrival, and every thread has ended.  The owner
    panics only when every thread has panicked before an input was submitted, when
    an output that is missing is not there in time, or when an output cannot be
    printed; and while no thread has panicked the run can always go on without
    waiting for a time limit, unless the next output cannot be printed. *)
Theorem parallel_run_completes {S} parse_index_json open reference_parses exchange
    (rootless : Z -> Z -> RuntimeSpec S) SECCOMP spec_to_json bincode_encode sendfile cwd read_tree is_set dup
    args cpus inputs log_contents json_decode outs c0 s todo c :
  prepare parse_index_json open reference_parses exchange rootless SECCOMP spec_to_json bincode_encode sendfile
    cwd read_tree is_set dup args = Ok (JPool cpus inputs) ->
  let n := length cpus in
  let format := if a_json args then JsonV1 else PeArchiveV1 in
  let step := par_step log_contents json_decode format (a_stdout args) outs in
  rtc step (Going (SyncPool.Pool_new n) (owner_script n) c0) (Going s todo c) ->
  (ri_id <$> inputs) = seqZ 0 (Z.of_nat n) /\ Z.of_nat n = a_parallel args /\
  (forall st, step (Going s todo c) st -> (par_work st < par_work (Going s todo c))%nat) /\
  ((todo = [] /\ joined s /\ received s ≡ₚ seq 0 n /\
    print_received log_contents json_decode format (a_stdout args) outs (received s) c0 = Ok c) \/
   (exists st, step (Going s todo c) st) /\
   (WPanicked ∉ workers s ->
      (exists s' todo' c', step (Going s todo c) (Going s' todo' c') /\ WPanicked ∉ workers s') \/
      exists r, step (Going s todo c) (Stopped (Unprintable r)))) /\
  forall why, step (Going s todo c) (Stopped why) ->
    match why with
    | Refused => Forall (fun w => w = WPanicked) (workers s)
    | Late => outputs s = [] /\ (length (received s) < n)%nat
    | Unprintable r => r ∈ seq 0 n /\
        forall c', handle_worker_output log_contents json_decode (outs r) format (a_stdout args) c <> Ok c'
    end.
Proof.
  intros E n format step Hr. assert (ri_id <$> inputs = seqZ 0 (Z.of_nat n) /\ Z.of_nat n = a_parallel args /\
    0 < a_parallel args) as (Hids & Hn & Hpos) by by eapply prepare_pool.
  assert (0 < n)%nat as Hn0 by lia. pose proof (par_reachable _ _ _ _ _ n c0 Hn0 s todo c Hr) as Hinv.
  split; [done|]. split; [done|]. split; [intros st; by apply (par_step_less _ _ _ _ _ n c0)|].
  split; [by apply par_progress|]. intros why. by apply (par_step_stop _ _ _ _ _ n c0).
Qed.

(** ** Concrete runs *)

Definition example_args (parallel : Z) : Args :=
  {| a_ch := bytes_of_string "ch"; a_kernel := bytes_of_string "vmlinux"; a_initramfs := bytes_of_string "/initramfs";
     a_index := None; a_image_service := Some (bytes_of_string "/run/images"); a_image := bytes_of_string "busybox";
     a_input := Some (bytes_of_string "in"); a_stdin := None; a_timeout := 1000; a_ch_timeout := 200;
     a_console := false; a_event_monitor := false; a_ch_log_level := bytes_of_string "warn"; a_strace := false;
     a_crun_debug := false; a_spec_only := false; a_kernel_inspect := false; a_json := false; a_stdout := true;
     a_parallel := parallel; a_args := [bytes_of_string "ls"] |}.

Definition example_prepare (parallel : Z) : result Z (Job unit) :=
  prepare (fun _ => None) (fun _ => Err NoRootfsKind) (fun _ => true)
    (fun _ _ => Ok (Some 5, ImageClient.WOk [x61] RuntimeSpec.example_image)) example_rootless tt
    (fun _ => bytes_of_string "{}") example_bincode_encode sendfile_whole [slash] (fun _ => Some example_tree)
    (fun _ => true) Some (example_args parallel).

Definition example_one : RunInput :=
  match example_prepare 0 with
  | Ok (JOne i) => i
  | _ => {| ri_id := 0; ri_ch_config := make_ch_config [] (example_args 0) Warn; ri_ch_timeout := from_millis 0;
            ri_io_file := finish IoFileBuilder_new; ri_image := Fd 0 |}
  end.
Definition is_one (r : result Z (Job unit)) : bool := match r with Ok (JOne _) => true | _ => false end.

Lemma example_one_prepared : example_prepare 0 = Ok (JOne example_one).
Proof.
  assert (is_one (example_prepare 0) = true) as H by (vm_compute; reflexivity).
  unfold example_one. destruct (example_prepare 0) as [[]| |]; done.
Qed.

Definition no_logs : CloudHypervisorLogs := {| log_file := None; con_file := None; err_file := None |}.
Definition empty_console : Console := {| c_stdout := {| printed := [] |}; c_stderr := {| printed := [] |} |}.

Lemma example_tree_packable : packable_tree example_tree.
Proof. split; [exact example_tree_good|]. split; [vm_compute; congruence|split; vm_compute; congruence]. Qed.

Lemma runner_end_to_end_witness :
  exists config c0, dump_logs (fun _ => []) no_logs empty_console = Ok c0 /\
    manifest_digest config = [x61] /\
    main_one (boot_run example_bincode_decode example_json_encode sendfile_whole (fun b => b)
        (fun _ _ => example_run) no_logs) (fun _ => []) (fun b => Some (RPanic b)) (example_args 0) example_one empty_console =
      Ok (fold_left (show_file true) (tree_files example_tree)
            {| c_stdout := c_stdout c0; c_stderr := println (PResponse (Guest.make_response (fun b => b) config example_run)) (c_stderr c0) |}).
Proof.
  destruct (runner_end_to_end (fun _ => None) (fun _ => Err NoRootfsKind) (fun _ => true)
    (fun _ _ => Ok (Some 5, ImageClient.WOk [x61] RuntimeSpec.example_image)) example_rootless tt
    (fun _ => bytes_of_string "{}") example_bincode_encode example_bincode_decode example_json_encode
    (fun b => Some (RPanic b)) sendfile_whole (fun b => b) [slash] (fun _ => Some example_tree) (fun _ => true) Some
    (fun _ => []) (fun _ _ => example_run) no_logs (example_args 0) example_one empty_console) as (config & c0 & Hc & Hl & Hm).
  - exact example_bincode_codec.
  - intros [] b; simpl; congruence.
  - exact sendfile_whole_spec.
  - exact example_one_prepared.
  - reflexivity.
  - intros d es _ [= <-]. exact example_tree_packable.
  - exists config, c0. split; [exact Hl|]. split.
    + destruct Hc as (ic & dir & image & digest & spec & Hs & _ & ->). vm_compute in Hs. by injection Hs as _ _ _ <-.
    + apply (Hm [x6f; x6f; x6d]). split; [unfold Guest.make_response; by destruct (response_format config)|]. split; [exact example_tree_good|].
      split; [vm_compute; congruence|]. split; vm_compute; congruence.
Defined.

Definition example_pool_inputs : list (gset Z) * list RunInput :=
  match example_prepare 2 with Ok (JPool cpus inputs) => (cpus, inputs) | _ => ([], []) end.
Definition is_pool (r : result Z (Job unit)) : bool := match r with Ok (JPool _ _) => true | _ => false end.

Lemma example_pool_prepared : example_prepare 2 = Ok (JPool example_pool_inputs.1 example_pool_inputs.2).
Proof.
  assert (is_pool (example_prepare 2) = true) as H by (vm_compute; reflexivity).
  unfold example_pool_inputs. destruct (example_prepare 2) as [[]| |]; done.
Qed.

Definition example_outs (r : nat) : RunOutput + CloudHypervisorPostMortem := inr (PostMortem_from Overtime).

(** Two runs, of which both report an error; here nothing was done yet. *)
Lemma parallel_run_completes_witness :
  length example_pool_inputs.1 = 2%nat /\
  exists s' todo' c', par_step (fun _ => []) (fun b => Some (RPanic b)) PeArchiveV1 true example_outs
    (Going (SyncPool.Pool_new (length example_pool_inputs.1)) (owner_script (length example_pool_inputs.1)) empty_console)
    (Going s' todo' c') /\ WPanicked ∉ workers s'.
Proof.
  destruct (parallel_run_completes _ _ _ _ _ _ _ _ _ _ _ _ _ _ _ _ (fun _ => []) (fun b => Some (RPanic b))
    example_outs empty_console _ _ _ example_pool_prepared (rtc_refl _ _)) as (_ & Hn & _ & H & Hstop).
  change (a_parallel (example_args 2)) with 2 in Hn. assert (length example_pool_inputs.1 = 2%nat) as E by lia.
  split; [exact E|]. rewrite E in H, Hstop |- *. destruct H as [(Ht & _)|[_ H]]; [discriminate Ht|].
  destruct H as [H|[r Hr]]; [|exact H|inversion Hr].
  intros Hin. repeat (apply elem_of_cons in Hin as [Hin|Hin]; [discriminate Hin|]). by apply elem_of_nil in Hin.
Defined.
